(* ===== verification/_CoqProject ===== *)
-Q . S2P
Prelude.v
Arith64.v
CMem.v
CMonad.v
LibcErrno.v
LibcString.v
KernelMemop.v
LibcStdlib.v
Crc32.v
DigestSpec.v
Digests.v
DigestTheorems.v
LibcTime.v
CStruct.v
KernelMem.v
LinkedList.v
Liballoc.v
LiballocBlocks.v
LiballocMalloc.v
LiballocFree.v
LiballocTheorems.v
KPhysical.v
KPmm.v
KPaging.v
KTree.v
KVspace.v
KVmm.v
KRange.v
KVma.v
KVmaTheorems.v
KPath.v
KPathWords.v
KPathNormal.v
KString.v
KHashMap.v
KVfs.v
KVfsTree.v
KVfsLookup.v
KRamfs.v
KRamfsTheorems.v
KVfsDemo.v
KUstar.v
KUstarTree.v
KUstarArchive.v
KUstarTheorems.v
KUstarBoot.v
KUstarDemo.v
KFdt.v
DlElf.v
DlHelper.v
DlAlloc.v
DlInfo.v
DlLoad.v
DlTheorems.v
DlDynamic.v
