(* ===== verification/Prelude.v ===== *)
(** * Fennix: a verification library for the C and C++ code of the Fennix operating system

    Fennix is an operating system: a kernel ([src/Kernel]), a C library with a
    dynamic loader ([src/Userspace/libc]), programs, drivers and a bootloader.
    This library models the parts that carry its own algorithms and proves what
    makes them correct.  The definitions are executable translations of the
    functions named in the comments and keep their names where they can; the
    theorems that make up the contract of a part have a comment that starts
    with a claim number.

    ** How code is modelled

    - Integers ([Prelude]): a w-bit integer is a [Z] in its range; [uw w] and
      [sw w] are the conversions of C ([u64], [s32], ...).  They are written
      where sizes, addresses, counts or fields that a caller chooses can leave
      their type.  Offsets into objects that are in memory, lengths of strings,
      paths and listings, and sums that constants bound (days of a year, tables
      of a page walk) are plain sums; the theorems say so where they need a
      bound on a length.
    - Memory ([CMem], [CStruct]): a finite map from addresses to bytes.  An
      access to an address that is not mapped is [Fault]; loads and stores of
      words are little endian; fields of structures are at the offsets that the
      ABI gives them.
    - Effects ([CMem.outcome], [CMonad]): an operation returns ([Ret]), faults,
      or runs out of fuel ([OutOfFuel]).  [CMonad.ST] threads a state and lets
      code end the run on purpose: [_Exit] in a program, an out-of-memory stop
      or a failed assertion in the kernel.
    - Loops: a loop is a [Fixpoint] on a bound computed from the data (the
      length of a list, the bits of a bitmap, [range_fuel] for regions), one
      more than the turns the loop can take; the theorems prove that the bound
      is enough, so that running out of fuel means a loop of the code that does
      not end.  [LoadElf] and [HandleRelocations], which call themselves for the
      libraries an object needs, take the depth of the recursion as fuel.

    ** The parts and their files

    Compiler runtime.
    - [Arith64]: 64-bit shifts, bit counts, absolute value and division of
      [src/Kernel/arch/i386/arithmetic_operations.c], and the division helpers of
      [arch/arm/aeabi.c].  Shifts, counts and divisions are equal to the
      mathematical operations.

    C library.
    - [LibcErrno]: error numbers, [strerror], [__check_errno], [mmap].
    - [LibcString]: [string.c].  Copies with overlap and bounds, comparisons,
      searches, tokens, against definitions on lists of bytes.
    - [LibcStdlib]: [stdlib.c].  Conversions of numbers, [qsort] (on elements,
      whose width in bytes is abstracted), [getenv], exit handlers,
      [reallocarray].
    - [LibcTime]: [time.c].  Civil dates against the proleptic Gregorian
      calendar, [mktime], time zones; the theorems hold for times whose year is
      an [int].
    - [Liballoc] (model), [LinkedList], [LiballocBlocks], [LiballocMalloc],
      [LiballocFree], [LiballocTheorems]: the allocator
      [src/mem/liballoc_1_1.c].  The heap in memory is a list of blocks, each a
      list of allocations; the invariant ties the headers in memory to them.
      [malloc], [free], [realloc] and [calloc] keep it; over any run of requests
      below [max_request] (2^31 - 8192 - 32 bytes, since the code computes sizes
      in [unsigned int]), with memory for each [realloc] that grows, live
      allocations are disjoint and keep their contents, and [free] gives a block back to the kernel exactly when its last
      allocation goes.  [malloc_truncates] shows what a larger request does.
      The kernel is the class [KernelMem.Kernel].

    Dynamic loader ([src/Userspace/libc/interpreter]).
    - [DlElf], [DlInfo]: the ELF structures and the loader's own records in
      memory; [DlHelper]: [helper.c]; [DlAlloc]: the slot allocator [alloc.c];
      [DlLoad]: the loading of objects, symbol search, relocation and start
      ([load.c], [start.c]).
    - [DlTheorems], [DlDynamic]: for an object whose relocations name its own
      symbols, relocation stores the words that the x86-64 ABI defines, in the
      order of the tables, and nothing else; symbols whose names do not make the
      hash carry ([DlHelper.no_carry]) are found in the order of the needed
      libraries; the dynamic section is read into the record as the ABI
      describes.

    Kernel library ([src/Kernel/library]).
    - [KernelMemop]: block operations on unaligned words ([memop.c]).
    - [Crc32]: the table-driven CRC-32 against the division of polynomials.
    - [Digests] (model): MD5 and SHA-512.  [DigestSpec] writes the digests of
      RFC 1321 and FIPS 180-4 from the text of the standards, constants
      included, without the code's definitions; [DigestTheorems] proves that the
      code computes the first, and the second but for half of the length field,
      which it leaves as it was.

    Kernel memory ([src/Kernel/core/memory], [src/Kernel/arch/amd64/memory]).
    - [KPhysical] (model) and [KPmm]: the page frame allocator
      ([library/bitmap.cpp], [pmm.cpp]).  [holds s U R] ties the bitmap and the
      counters to the frames in use and the reserved ones; requests take free
      runs, and the frames are accounted for over the runs of the kernel in which
      no request for several frames can go past the end of the bitmap
      ([inside_bitmap]; [RequestPages_past_bitmap] is one that does).
    - [KPaging] (model), [KTree], [KVspace], [KVmm], [KRange]: page tables
      ([vmm.cpp], [pmi.cpp], [page_table.cpp]).  [walk] is the translation the
      processor makes, the entry of the page; that the rights of a page are also
      cut by the entries above it is not part of it.  [vspace] says that the tables form a tree in frames of
      their own.  [Map], [Remap] and [Unmap] change the translation of one page,
      a region loop that of its pages, and the queries agree with [walk].
    - [KVma] (model) and [KVmaTheorems]: memory of processes ([vma.cpp],
      [brk.cpp], [va.cpp]): requests hand out fresh zeroed frames, the heap
      grows into them, releases, and the check of pointers from user mode.  The
      requests are those for which the run at the first free frame is long
      enough for pages and tables ([provision]), in address spaces without large
      pages where they matter ([small], [clean]).
    The kernel maps all physical memory at its own addresses, so that a pointer
    to a frame is its physical address; [vspace] has the frames below [N] as
    the memory that exists.

    Kernel files ([src/Kernel/fs], and what it is built from).
    - [KPath] (model), [KPathWords], [KPathNormal]: paths ([library/cwalk.c]).  A
      path is cut into words; joining and normalising is resolving the words of
      all paths with a stack ([resolve]), printed into the buffer.
    - [KString], [KHashMap]: [std::string] and [std::unordered_map] of the
      kernel ([include_std]), against lists and finite maps.  The operations that
      do not refine them ([push_back], [operator[]] on a full table, copies of a
      table) have theorems of their own; iterators that are returned are left
      out.
    - [KVfs] (model), [KVfsTree], [KVfsLookup]: the virtual file system
      ([vfs.cpp]).  [wf] says that every cached node is where its name and path
      say; [Lookup] is the walk down the tree along the words of the path
      ([descend]), but for relative paths that come down to the root, which stay
      where they start; what was found or created is found again.
    - [KRamfs] (model) and [KRamfsTheorems]: the file system in memory
      ([ramfs.cpp]); what is written is read, and what fails to be.  [KVfsDemo]
      holds a small tree to which the theorems are applied.
    - [KUstar] (model), [KUstarTree], [KUstarArchive], [KUstarTheorems],
      [KUstarBoot]: the archive that the kernel boots from ([ustar.cpp]).  A
      [forest] is a directory tree, [archive] says that the memory holds an
      archive of it as tar writes it; reading the archive makes this tree, and
      lookups, reads and listings show it.  [KUstarDemo] has an archive in full.
    - [KFdt]: the table of open files ([descriptor.cpp]).
    A shared pointer to a node or an inode is a key of a store, which keeps
    everything that was ever made; allocation succeeds.  What the code does not
    initialise is a parameter: the flags of new nodes ([unset_flag]), the
    operations that a file system does not set ([unset]), the bytes of new blocks
    ([allocate]).  [struct Inode] has a constructor, which clears it
    ([KUstar.Inode_new]).

    ** Parts that meet

    The allocator and the loader run over the class [KernelMem.Kernel], whose
    laws are the documented behaviour of the memory calls and which has an
    instance; process memory is proved over the page tables, these over the
    page frame allocator, each through the laws of the part below ([holds],
    [vspace], [maps], [maps_pages], [handed]).  The virtual file system runs over
    the class [KVfs.FileSystems] of tables of operations; its theorems use the
    laws [KVfsTree.Lawful] only, which [KRamfsTheorems.ramfs_lawful] proves of
    the file system in memory and [KUstarBoot.ustar_lawful] of the archive;
    [create_write_read] and [boot_archive_correct] go through both layers.

    ** Not modelled

    Locks, interrupts and the interleaving of processors: the operations are
    run one at a time.  Translation caches.  Logging.  Device drivers, buses,
    panic and console output, the bootloader: input and output.  Vendored code
    (rpmalloc, printf, stb, the functions of cwalk that the kernel does not
    call) and copies of code that is modelled.  Destructors and reference
    counts of nodes.  Tasking, network, the program loader of the kernel and the
    system calls, which act on registers, interrupts and devices.  The boot-time
    set-up of memory ([Init], [ReserveEssentials], [FindBitmapRegion],
    [memory.cpp]), which reads what the bootloader left, kernel stacks, and
    [VirtualMemoryArea::Fork], which reads through the page table that the
    processor has loaded. *)

From Stdlib Require Export ZArith Lia Btauto.
From stdpp Require Export base gmap list numbers.

Open Scope Z_scope.

(** ** Fixed-width integers

    An unsigned w-bit value is the integer in [[0, 2^w)] that it denotes; a
    signed one is the integer in [[-2^(w-1), 2^(w-1))].  [uw w] and [sw w] are
    the conversions of C to those types. *)

Definition uw (w x : Z) : Z := x mod 2 ^ w.
Definition sw (w x : Z) : Z := (x + 2 ^ (w - 1)) mod 2 ^ w - 2 ^ (w - 1).

Abbreviation u8 := (uw 8).
Abbreviation u16 := (uw 16).
Abbreviation u32 := (uw 32).
Abbreviation u64 := (uw 64).
Abbreviation s8 := (sw 8).
Abbreviation s32 := (sw 32).
Abbreviation s64 := (sw 64).

(** C's [!x] and the value of a comparison used as an integer. *)
Definition c_not (x : Z) : Z := if x =? 0 then 1 else 0.
Definition c_bool (b : bool) : Z := if b then 1 else 0.

Definition in_u (w x : Z) : Prop := 0 <= x < 2 ^ w.
Definition in_s (w x : Z) : Prop := - 2 ^ (w - 1) <= x < 2 ^ (w - 1).

(** ** Hint databases and tactics *)

Create HintDb fnx.
Create HintDb fnx_bits.

(** Replace the fixed powers of two by numerals so that [lia] sees them. *)
Ltac pow2_consts :=
  repeat match goal with
  | |- context [ 2 ^ (Zpos ?p) ] => let v := eval cbv in (2 ^ (Zpos p)) in change (2 ^ (Zpos p)) with v
  | H : context [ 2 ^ (Zpos ?p) ] |- _ => let v := eval cbv in (2 ^ (Zpos p)) in change (2 ^ (Zpos p)) with v in H
  end.

(** Case analysis on boolean comparisons of [Z]. *)
Ltac zcases :=
  repeat match goal with
  | |- context [ Z.eqb ?a ?b ] => destruct (Z.eqb_spec a b)
  | |- context [ Z.ltb ?a ?b ] => destruct (Z.ltb_spec a b)
  | |- context [ Z.leb ?a ?b ] => destruct (Z.leb_spec a b)
  | |- context [ Z.gtb ?a ?b ] => rewrite (Z.gtb_ltb a b)
  | |- context [ Z.geb ?a ?b ] => rewrite (Z.geb_leb a b)
  end.

(** The same, dropping the contradictory cases as soon as they appear. *)
Ltac zprune :=
  repeat (match goal with
  | |- context [ Z.eqb ?a ?b ] => destruct (Z.eqb_spec a b)
  | |- context [ Z.ltb ?a ?b ] => destruct (Z.ltb_spec a b)
  | |- context [ Z.leb ?a ?b ] => destruct (Z.leb_spec a b)
  | |- context [ Z.gtb ?a ?b ] => rewrite (Z.gtb_ltb a b)
  | |- context [ Z.geb ?a ?b ] => rewrite (Z.geb_leb a b)
  end; try (exfalso; lia); cbn [andb orb negb]).

(** [lia] with division and modulo by constants turned into equations. *)
Ltac dlia := pow2_consts; Z.to_euclidean_division_equations; lia.

(** ** Bits *)

Section bits.
Implicit Types x y n i : Z.

Lemma testbit_mod x n i : 0 <= n -> 0 <= i ->
  Z.testbit (x mod 2 ^ n) i = (i <? n) && Z.testbit x i.
Proof.
  intros Hn Hi. destruct (Z.ltb_spec i n); simpl.
  - by rewrite Z.mod_pow2_bits_low.
  - by rewrite Z.mod_pow2_bits_high by lia.
Qed.

Lemma testbit_uw n x i : 0 <= n -> 0 <= i ->
  Z.testbit (uw n x) i = (i <? n) && Z.testbit x i.
Proof. apply testbit_mod. Qed.

Lemma testbit_shl x n i : 0 <= i ->
  Z.testbit (Z.shiftl x n) i = Z.testbit x (i - n).
Proof. apply Z.shiftl_spec. Qed.

Lemma testbit_high x n i : 0 <= x < 2 ^ n -> n <= i -> Z.testbit x i = false.
Proof.
  intros Hx Hi. destruct (Z_lt_le_dec n 0).
  { rewrite Z.pow_neg_r in Hx by lia. lia. }
  rewrite <- (Z.mod_small x (2 ^ n)) by done.
  by apply Z.mod_pow2_bits_high.
Qed.

Lemma testbit_bound x n : 0 <= n ->
  (forall i, n <= i -> Z.testbit x i = false) -> 0 <= x < 2 ^ n.
Proof.
  intros Hn H. replace x with (x mod 2 ^ n).
  - apply Z.mod_pos_bound. apply Z.pow_pos_nonneg; lia.
  - apply Z.bits_inj'. intros i Hi. rewrite testbit_mod by done.
    destruct (Z.ltb_spec i n); simpl; [done|]. by rewrite H.
Qed.

Lemma lor_disjoint x y : Z.land x y = 0 -> Z.lor x y = x + y.
Proof. intros H. by rewrite <- Z.lxor_lor, Z.add_nocarry_lxor. Qed.

(** A word seen as a low field of [n] bits and the rest. *)
Lemma lor_split x y n : 0 <= n -> 0 <= x < 2 ^ n ->
  Z.lor x (Z.shiftl y n) = x + y * 2 ^ n.
Proof.
  intros Hn Hx. rewrite lor_disjoint; [by rewrite Z.shiftl_mul_pow2|].
  apply Z.bits_inj'. intros i Hi. rewrite Z.land_spec, testbit_shl, Z.bits_0 by done.
  destruct (Z_lt_le_dec i n).
  - rewrite (Z.testbit_neg_r y) by lia. apply andb_false_r.
  - by rewrite (testbit_high x n).
Qed.

Lemma land_split x y x' y' n : 0 <= n -> 0 <= x < 2 ^ n -> 0 <= x' < 2 ^ n ->
  Z.land (x + y * 2 ^ n) (x' + y' * 2 ^ n) = Z.land x x' + Z.land y y' * 2 ^ n.
Proof.
  intros Hn Hx Hx'.
  assert (0 <= Z.land x x' < 2 ^ n) as Hb.
  { apply testbit_bound; [done|]. intros i Hi.
    by rewrite Z.land_spec, (testbit_high x n). }
  rewrite <- !lor_split by done.
  apply Z.bits_inj'. intros i Hi.
  rewrite !Z.land_spec, !Z.lor_spec, !Z.land_spec, !testbit_shl, !Z.land_spec by done.
  destruct (Z_lt_le_dec i n).
  - rewrite !(fun z => Z.testbit_neg_r z (i - n)) by lia.
    rewrite !andb_false_r, !orb_false_r. done.
  - rewrite !(testbit_high _ n i) by done. done.
Qed.

(** Sign extension moves the sign bit to every higher place. *)
Lemma testbit_sw w x i : 1 <= w -> 0 <= i ->
  Z.testbit (sw w x) i = Z.testbit x (if i <? w then i else w - 1).
Proof.
  intros Hw Hi. unfold sw.
  assert (2 ^ w = 2 * 2 ^ (w - 1)) as Hp
    by (rewrite <- Z.pow_succ_r by lia; f_equal; lia).
  assert (0 < 2 ^ (w - 1)) by (apply Z.pow_pos_nonneg; lia).
  set (b := Z.testbit x (w - 1)).
  assert ((x + 2 ^ (w - 1)) mod 2 ^ w - 2 ^ (w - 1)
    = x mod 2 ^ (w - 1) + - c_bool b * 2 ^ (w - 1)) as ->.
  { assert (x mod 2 ^ w = x mod 2 ^ (w - 1) + c_bool b * 2 ^ (w - 1)) as Hx.
    { rewrite Hp, Z.mul_comm, Z.rem_mul_r by lia.
      unfold b. rewrite <- Z.bit0_mod.
      replace (w - 1) with (0 + (w - 1)) at 3 by lia.
      rewrite Z.div_pow2_bits by lia. destruct (Z.testbit _ _); simpl; lia. }
    rewrite <- Zplus_mod_idemp_l, Hx.
    pose proof (Z.mod_pos_bound x (2 ^ (w - 1)) ltac:(lia)).
    destruct b; simpl c_bool.
    - replace (_ + _ + _) with (x mod 2 ^ (w - 1) + 1 * 2 ^ w) by lia.
      rewrite Z.mod_add by lia. rewrite Z.mod_small by lia. lia.
    - rewrite Z.mod_small by lia. lia. }
  pose proof (Z.mod_pos_bound x (2 ^ (w - 1)) ltac:(lia)).
  rewrite <- lor_split by lia.
  rewrite Z.lor_spec, testbit_shl, testbit_mod by lia.
  destruct (Z.ltb_spec i (w - 1)), (Z.ltb_spec i w); try lia; simpl.
  - rewrite (Z.testbit_neg_r (- c_bool b)) by lia. by rewrite orb_false_r.
  - replace i with (w - 1) by lia. rewrite Z.sub_diag. fold b. by destruct b.
  - fold b. destruct b; unfold c_bool.
    + apply Z.bits_m1. lia.
    + apply Z.bits_0.
Qed.
End bits.

(** [bitwise] proves equalities of bit expressions by comparing each bit. *)
Ltac bitwise_step :=
  match goal with
  | |- context [ Z.testbit 0 _ ] => rewrite Z.bits_0
  | |- context [ Z.testbit (Z.lor _ _) _ ] => rewrite Z.lor_spec
  | |- context [ Z.testbit (Z.land _ _) _ ] => rewrite Z.land_spec
  | |- context [ Z.testbit (Z.lxor _ _) _ ] => rewrite Z.lxor_spec
  | |- context [ Z.testbit (Z.shiftl ?a ?n) ?i ] => rewrite (testbit_shl a n i) by lia
  | |- context [ Z.testbit (Z.shiftr ?a ?n) ?i ] => rewrite (Z.shiftr_spec a n i) by lia
  | |- context [ Z.testbit (?a mod 2 ^ ?n) ?i ] => rewrite (testbit_mod a n i) by lia
  | |- context [ Z.testbit (uw ?n ?a) ?i ] => rewrite (testbit_uw n a i) by lia
  | |- context [ Z.testbit (sw ?n ?a) ?i ] =>
      rewrite (testbit_sw n a i) by lia; destruct (Z.ltb_spec i n); try lia
  | |- context [ Z.testbit (Z.ones ?n) ?i ] => rewrite (Z.testbit_ones_nonneg n i) by lia
  | |- context [ Z.testbit ?a ?i ] => rewrite (Z.testbit_neg_r a i) by lia
  | H : 0 <= ?a < 2 ^ ?n |- context [ Z.testbit ?a ?i ] => rewrite (testbit_high a n i H) by lia
  | |- context [ Z.testbit _ ?i ] =>
      lazymatch goal with
      | _ : 0 <= i |- _ => fail
      | _ => let H := fresh "Hb" in destruct (Z_lt_le_dec i 0) as [H|H]
      end
  | |- context [ Z.ltb ?a ?b ] => destruct (Z.ltb_spec a b); try lia
  | |- context [ Z.leb ?a ?b ] => destruct (Z.leb_spec a b); try lia
  end.
Ltac bitwise_close :=
  repeat (rewrite ?andb_false_r, ?andb_true_r, ?andb_false_l, ?andb_true_l,
            ?orb_false_r, ?orb_false_l, ?orb_true_r, ?orb_true_l; cbn [andb orb xorb negb]);
  first [ done | f_equal; lia | f_equal; f_equal; lia | btauto ].
Ltac bitwise :=
  apply Z.bits_inj'; let i := fresh "i" in let Hi := fresh "Hi" in intros i Hi;
  repeat bitwise_step; bitwise_close.

(** ** Wrap-around *)

Section wrap.
Implicit Types w x y : Z.

Lemma uw_range w x : 0 <= w -> 0 <= uw w x < 2 ^ w.
Proof. intros. apply Z.mod_pos_bound. apply Z.pow_pos_nonneg; lia. Qed.

Lemma uw_small w x : 0 <= x < 2 ^ w -> uw w x = x.
Proof. apply Z.mod_small. Qed.

Lemma uw_uw w x : 0 <= w -> uw w (uw w x) = uw w x.
Proof. intros. apply uw_small, uw_range. done. Qed.

Lemma sw_range w x : 1 <= w -> in_s w (sw w x).
Proof.
  intros Hw. unfold in_s, sw.
  pose proof (Z.mod_pos_bound (x + 2 ^ (w - 1)) (2 ^ w)
                ltac:(apply Z.pow_pos_nonneg; lia)) as H.
  replace (2 ^ w) with (2 * 2 ^ (w - 1)) in *
    by (rewrite <- Z.pow_succ_r by lia; f_equal; lia).
  lia.
Qed.

Lemma sw_small w x : 1 <= w -> in_s w x -> sw w x = x.
Proof.
  unfold in_s, sw. intros Hw H. rewrite Z.mod_small; [lia|].
  replace (2 ^ w) with (2 * 2 ^ (w - 1)) in *
    by (rewrite <- Z.pow_succ_r by lia; f_equal; lia).
  lia.
Qed.

Lemma uw_sw w x : 0 <= w -> uw w (sw w x) = uw w x.
Proof.
  intros Hw. unfold uw, sw. rewrite Zminus_mod_idemp_l. f_equal. lia.
Qed.

Lemma sw_uw w x : 0 <= w -> sw w (uw w x) = sw w x.
Proof.
  intros Hw. unfold uw, sw. rewrite Zplus_mod_idemp_l. done.
Qed.
End wrap.

#[export] Hint Resolve uw_range sw_range : fnx.

(** ** Little-endian byte lists *)

Section bytes.
(** Words as little-endian byte lists. *)
Fixpoint of_bytes (l : list Z) : Z :=
  match l with [] => 0 | b :: l => b + of_bytes l * 2 ^ 8 end.

Definition byte (b : Z) : Prop := 0 <= b < 2 ^ 8.

Lemma of_bytes_range l : Forall byte l -> 0 <= of_bytes l < 2 ^ (8 * Z.of_nat (length l)).
Proof.
  unfold byte. induction 1 as [|b l Hb _ IH]; [done|]. cbn [of_bytes length].
  rewrite Nat2Z.inj_succ. replace (8 * Z.succ _) with (8 * Z.of_nat (length l) + 8) by lia.
  rewrite Z.pow_add_r by lia. nia.
Qed.

Lemma of_bytes_shiftr l : Forall byte l -> forall k : nat,
  Z.shiftr (of_bytes l) (8 * Z.of_nat k) = of_bytes (drop k l).
Proof.
  intros Hl k. revert l Hl. induction k as [|k IH]; intros l Hl; [apply Z.shiftr_0_r|].
  destruct Hl as [|b l Hb Hl]; [apply Z.shiftr_0_l|]. cbn [drop].
  rewrite <- IH by done. replace (8 * Z.of_nat (S k)) with (8 + 8 * Z.of_nat k) by lia.
  rewrite <- Z.shiftr_shiftr by lia. f_equal. cbn [of_bytes]. unfold byte in Hb.
  rewrite Z.shiftr_div_pow2, Z.div_add, Z.div_small by lia. done.
Qed.

Lemma of_bytes_split n : forall a, in_u (8 * Z.of_nat n) a ->
  exists l, length l = n /\ Forall byte l /\ a = of_bytes l.
Proof.
  unfold in_u, byte. induction n as [|n IH]; intros a Ha.
  - exists []. split_and!; [done|done|]. cbn in *. lia.
  - destruct (IH (a / 2 ^ 8)) as (l & Hn & Hl & Hq).
    { replace (8 * Z.of_nat (S n)) with (8 + 8 * Z.of_nat n) in Ha by lia.
      rewrite Z.pow_add_r in Ha by lia. split; [apply Z.div_pos; lia|].
      apply Z.div_lt_upper_bound; lia. }
    exists (a mod 2 ^ 8 :: l). split_and!; [cbn; lia| |].
    + constructor; [|done]. apply Z.mod_pos_bound. lia.
    + cbn [of_bytes]. rewrite <- Hq. rewrite (Z.div_mod a (2 ^ 8)) at 1 by lia. lia.
Qed.

Lemma Forall_fmap_imp (P Q : Z -> Prop) (f : Z -> Z) l :
  (forall x, P x -> Q (f x)) -> Forall P l -> Forall Q (f <$> l).
Proof. intros H Hl. apply Forall_fmap. eapply Forall_impl; [|exact Hl]. apply H. Qed.

(** The [n] low bytes of [v], least significant first. *)
Fixpoint le_bytes (n : nat) (v : Z) : list Z :=
  match n with
  | O => []
  | S n => v mod 2 ^ 8 :: le_bytes n (v / 2 ^ 8)
  end.

Lemma le_bytes_length n v : length (le_bytes n v) = n.
Proof. revert v. induction n as [|n IH]; intros v; [done|]. cbn. by rewrite IH. Qed.

Lemma le_bytes_bytes n v : Forall byte (le_bytes n v).
Proof.
  revert v. induction n as [|n IH]; intros v; [constructor|]. constructor; [|apply IH].
  by apply Z.mod_pos_bound.
Qed.

Lemma le_bytes_of_bytes l : Forall byte l -> le_bytes (length l) (of_bytes l) = l.
Proof.
  unfold byte. induction 1 as [|b l Hb Hl IH]; [done|]. cbn [length le_bytes of_bytes].
  rewrite Z.mod_add, Z.mod_small, Z.div_add, Z.div_small, Z.add_0_l by lia. by rewrite IH.
Qed.

Lemma of_bytes_app l1 l2 :
  of_bytes (l1 ++ l2) = of_bytes l1 + of_bytes l2 * 2 ^ (8 * Z.of_nat (length l1)).
Proof.
  induction l1 as [|b l1 IH]; [cbn; lia|]. cbn [app of_bytes length]. rewrite IH.
  replace (8 * Z.of_nat (S (length l1))) with (8 + 8 * Z.of_nat (length l1)) by lia.
  rewrite Z.pow_add_r by lia. ring.
Qed.
End bytes.

#[export] Hint Resolve le_bytes_bytes : fnx.
