(* ===== verification/Arith64.v ===== *)
(** * 64-bit integer arithmetic on 32-bit machines

    Model of the integer part of [Kernel/arch/i386/arithmetic_operations.c]
    (repeated line by line in [Userspace/libc/src/arith64.c]) and of the
    integer division helpers of [Kernel/arch/arm/aeabi.c].  The compiler calls
    these routines for every 64-bit shift, division and bit count of the
    kernel on i386 and arm.

    A 64-bit quantity is its unsigned value in [[0, 2^64)]; where the C type is
    signed the value it denotes is [s64] of it. *)

From S2P Require Import Prelude.

(** ** The union of a 64-bit word with its two halves *)

Record arith64_word := Word { w_lo : Z; w_hi : Z }.

Definition word_of_u64 (a : Z) : arith64_word := Word (u32 a) (u32 (Z.shiftr a 32)).
Definition word_u64 (w : arith64_word) : Z := Z.lor (w_lo w) (Z.shiftl (w_hi w) 32).

Definition arith64_hi (n : Z) : Z := w_hi (word_of_u64 n).
Definition arith64_lo (n : Z) : Z := w_lo (word_of_u64 n).

(** [(a ^ ((b >= 0) - 1)) + (b < 0)] *)
Definition arith64_neg (a b : Z) : Z :=
  u64 (Z.lxor a (u64 (c_bool (s64 b >=? 0) - 1)) + c_bool (s64 b <? 0)).

Definition arith64_abs (a : Z) : Z := arith64_neg a a.

Definition absvdi2 (a : Z) : Z := arith64_abs a.

(** ** Shifts by halves *)

Definition ashldi3 (a b : Z) : Z :=
  let w := word_of_u64 a in
  let b := Z.land b 63 in
  if b >=? 32 then
    word_u64 (Word 0 (u32 (Z.shiftl (w_lo w) (b - 32))))
  else if negb (b =? 0) then
    word_u64 (Word (u32 (Z.shiftl (w_lo w) b))
      (Z.lor (Z.shiftr (w_lo w) (32 - b)) (u32 (Z.shiftl (w_hi w) b))))
  else word_u64 w.

(** The [s32] members of the union hold [s32] of the same bits. *)
Definition ashrdi3 (a b : Z) : Z :=
  let w := word_of_u64 a in
  let b := Z.land b 63 in
  if b >=? 32 then
    word_u64 (Word (u32 (Z.shiftr (s32 (w_hi w)) (b - 32)))
      (u32 (Z.shiftr (s32 (w_hi w)) 31)))
  else if negb (b =? 0) then
    word_u64 (Word (Z.lor (u32 (Z.shiftl (w_hi w) (32 - b))) (Z.shiftr (w_lo w) b))
      (u32 (Z.shiftr (s32 (w_hi w)) b)))
  else word_u64 w.

Definition lshrdi3 (a b : Z) : Z :=
  let w := word_of_u64 a in
  let b := Z.land b 63 in
  if b >=? 32 then
    word_u64 (Word (Z.shiftr (w_hi w) (b - 32)) 0)
  else if negb (b =? 0) then
    word_u64 (Word (Z.lor (u32 (Z.shiftl (w_hi w) (32 - b))) (Z.shiftr (w_lo w) b))
      (Z.shiftr (w_hi w) b))
  else word_u64 w.

(** ** Bit counts *)

(** One line of the binary search: [b = !(a & mask) << k; n += b; a <<= b]. *)
Definition clz_step (w mask k : Z) (s : Z * Z) : Z * Z :=
  let '(a, n) := s in
  let b := Z.shiftl (c_not (Z.land a mask)) k in
  (uw w (Z.shiftl a b), n + b).

Definition ctz_step (mask k : Z) (s : Z * Z) : Z * Z :=
  let '(a, n) := s in
  let b := Z.shiftl (c_not (Z.land a mask)) k in
  (Z.shiftr a b, n + b).

Definition clzsi2 (a : Z) : Z :=
  let '(a, n) := clz_step 32 0xc0000000 1 (clz_step 32 0xf0000000 2
    (clz_step 32 0xff000000 3 (clz_step 32 0xffff0000 4 (a, 0)))) in
  n + c_not (Z.land a 0x80000000).

Definition clzdi2 (a : Z) : Z :=
  let '(a, n) := clz_step 64 0xc000000000000000 1 (clz_step 64 0xf000000000000000 2
    (clz_step 64 0xff00000000000000 3 (clz_step 64 0xffff000000000000 4
      (clz_step 64 0xffffffff00000000 5 (a, 0))))) in
  n + c_not (Z.land a 0x8000000000000000).

Definition ctzsi2 (a : Z) : Z :=
  let '(a, n) := ctz_step 0x00000003 1 (ctz_step 0x0000000f 2
    (ctz_step 0x000000ff 3 (ctz_step 0x0000ffff 4 (a, 0)))) in
  n + c_not (Z.land a 0x00000001).

Definition ctzdi2 (a : Z) : Z :=
  let '(a, n) := ctz_step 0x0000000000000003 1 (ctz_step 0x000000000000000f 2
    (ctz_step 0x00000000000000ff 3 (ctz_step 0x000000000000ffff 4
      (ctz_step 0x00000000ffffffff 5 (a, 0))))) in
  n + c_not (Z.land a 0x0000000000000001).

Definition ffsdi2 (a : Z) : Z := if negb (a =? 0) then ctzdi2 a + 1 else 0.

Definition popcountsi2 (a : Z) : Z :=
  let a := u32 (a - Z.land (Z.shiftr a 1) 0x55555555) in
  let a := u32 (Z.land (Z.shiftr a 2) 0x33333333 + Z.land a 0x33333333) in
  let a := Z.land (u32 (a + Z.shiftr a 4)) 0x0F0F0F0F in
  let a := u32 (a + Z.shiftr a 16) in
  Z.land (u32 (a + Z.shiftr a 8)) 63.

Definition popcountdi2 (a : Z) : Z :=
  let a := u64 (a - Z.land (Z.shiftr a 1) 0x5555555555555555) in
  let a := u64 (Z.land (Z.shiftr a 2) 0x3333333333333333 + Z.land a 0x3333333333333333) in
  let a := Z.land (u64 (a + Z.shiftr a 4)) 0x0F0F0F0F0F0F0F0F in
  let a := u64 (a + Z.shiftr a 32) in
  let a := u64 (a + Z.shiftr a 16) in
  Z.land (u64 (a + Z.shiftr a 8)) 127.

(** ** Division *)

(** The loop [while (bits-- > 0)] of the long division. *)
Fixpoint divmod_loop (bits : nat) (b rem a wrap : Z) : Z * Z * Z :=
  match bits with
  | O => (rem, a, wrap)
  | S bits =>
      let rem := Z.lor (u64 (Z.shiftl rem 1)) (Z.shiftr a 63) in
      let a := Z.lor (u64 (Z.shiftl a 1)) (Z.land wrap 1) in
      let wrap := u64 (Z.shiftr (s64 (u64 (b - rem - 1))) 63) in
      let rem := u64 (rem - Z.land b wrap) in
      divmod_loop bits b rem a wrap
  end.

(** The result is the quotient and the value stored through [c]; [None] is
    the divide error raised by [x = 1 / x] with [x = 0].  [char bits] is an
    8-bit signed integer. *)
Definition divmoddi4 (a b : Z) : option (Z * Z) :=
  if b >? a then Some (0, a)
  else if (arith64_hi b =? 0) && (b =? 0) then None
  else if (arith64_hi b =? 0) && (b =? 1) then Some (a, 0)
  else if (arith64_hi b =? 0) && (arith64_hi a =? 0) then
    Some (arith64_lo a / arith64_lo b, arith64_lo a mod arith64_lo b)
  else
    let bits := s8 (clzdi2 b - clzdi2 a + 1) in
    let rem := Z.shiftr a bits in
    let a := u64 (Z.shiftl a (64 - bits)) in
    let '(rem, a, wrap) := divmod_loop (Z.to_nat bits) b rem a 0 in
    Some (Z.lor (u64 (Z.shiftl a 1)) (Z.land wrap 1), rem).

Definition divdi3 (a b : Z) : option Z :=
  match divmoddi4 (arith64_abs a) (arith64_abs b) with
  | Some (q, _) => Some (arith64_neg q (Z.lxor a b))
  | None => None
  end.

Definition moddi3 (a b : Z) : option Z :=
  match divmoddi4 (arith64_abs a) (arith64_abs b) with
  | Some (_, r) => Some (arith64_neg r a)
  | None => None
  end.

Definition udivdi3 (a b : Z) : option Z := option_map fst (divmoddi4 a b).
Definition umoddi3 (a b : Z) : option Z := option_map snd (divmoddi4 a b).

(** ** The arm helpers *)

(** [while (denominator < numerator && (denominator & (1ULL << 63)) == 0)];
    the top bit of the denominator bounds the number of turns by 63. *)
Fixpoint udivmod_align (fuel : nat) (num den bit : Z) : Z * Z :=
  match fuel with
  | O => (den, bit)
  | S fuel =>
      if (den <? num) && (Z.land den (Z.shiftl 1 63) =? 0)
      then udivmod_align fuel num (u64 (Z.shiftl den 1)) (u64 (Z.shiftl bit 1))
      else (den, bit)
  end.

(** [while (bit)]: the bit moves down, so 64 turns empty it. *)
Fixpoint udivmod_subtract (fuel : nat) (num den bit quot : Z) : Z * Z :=
  match fuel with
  | O => (quot, num)
  | S fuel =>
      if bit =? 0 then (quot, num)
      else
        let '(num, quot) :=
          if num >=? den then (u64 (num - den), Z.lor quot bit) else (num, quot) in
        udivmod_subtract fuel num (Z.shiftr den 1) (Z.shiftr bit 1) quot
  end.

Definition udivmoddi4 (num den : Z) : Z * Z :=
  if den =? 0 then (2 ^ 64 - 1, num)
  else
    let '(den, bit) := udivmod_align 64 num den 1 in
    udivmod_subtract 65 num den bit 0.

Definition aeabi_uldivmod (num den : Z) : Z * Z := udivmoddi4 num den.

(** 32-bit division: C's truncating division, a divide error on zero. *)
Definition aeabi_uidiv (n d : Z) : option Z := if d =? 0 then None else Some (n / d).

(** Quotient and remainder packed in one register. *)
Definition aeabi_uidivmod (n d : Z) : option Z :=
  if d =? 0 then None else Some (Z.lor (u32 (Z.shiftl (n / d) 16)) (n mod d)).

Definition aeabi_idiv (n d : Z) : option Z :=
  if d =? 0 then None else Some (s32 (Z.quot n d)).

Definition aeabi_idivmod (n d : Z) : option Z :=
  if d =? 0 then None
  else Some (s32 (Z.lor (Z.shiftl (Z.quot n d) 16) (Z.rem n d))).

(** ** Correctness of the shifts *)

Section shifts.
Lemma word_split a : in_u 64 a -> word_u64 (word_of_u64 a) = a.
Proof.
  unfold in_u, word_u64, word_of_u64; simpl. intros Ha. bitwise.
Qed.

Lemma land63 b : Z.land b 63 = b mod 64.
Proof. change 63 with (Z.ones 6). by rewrite Z.land_ones. Qed.

Lemma land63_range b : 0 <= Z.land b 63 < 64.
Proof. rewrite land63. by apply Z.mod_pos_bound. Qed.
End shifts.

Ltac shift_cases b :=
  let H := fresh "Hr" in
  pose proof (land63_range b) as H; rewrite <- ?land63;
  generalize dependent (Z.land b 63); intros k H;
  rewrite Z.geb_leb; destruct (Z.leb_spec 32 k);
    [|destruct (Z.eqb_spec k 0); [subst k|]]; simpl negb; cbv iota.

Lemma ashldi3_correct a b : in_u 64 a -> ashldi3 a b = u64 (Z.shiftl a (b mod 64)).
Proof.
  unfold in_u, ashldi3. intros Ha. shift_cases b.
  - unfold word_u64; simpl. bitwise.
  - rewrite word_split by done. rewrite Z.shiftl_0_r. by rewrite uw_small.
  - unfold word_u64; simpl. bitwise.
Qed.

Lemma lshrdi3_correct a b : in_u 64 a -> lshrdi3 a b = Z.shiftr a (b mod 64).
Proof.
  unfold in_u, lshrdi3. intros Ha. shift_cases b.
  - unfold word_u64; simpl. bitwise.
  - rewrite word_split by done. by rewrite Z.shiftr_0_r.
  - unfold word_u64; simpl. bitwise.
Qed.

Lemma ashrdi3_correct a b : in_u 64 a -> s64 (ashrdi3 a b) = Z.shiftr (s64 a) (b mod 64).
Proof.
  unfold in_u, ashrdi3. intros Ha. shift_cases b.
  - unfold word_u64; simpl. bitwise.
  - rewrite word_split by done. by rewrite Z.shiftr_0_r.
  - unfold word_u64; simpl. bitwise.
Qed.

(** ** Correctness of the bit counts *)

Section counts.
Implicit Types a n k w sh : Z.

(** The high mask of [k] bits tests whether a [w]-bit word reaches [2^(w-k)]. *)
Lemma land_high_mask w k a : 0 <= k <= w -> 0 <= a < 2 ^ w ->
  (Z.land a ((2 ^ k - 1) * 2 ^ (w - k)) =? 0) = (a <? 2 ^ (w - k)).
Proof.
  intros Hk Ha.
  assert (Z.land a ((2 ^ k - 1) * 2 ^ (w - k)) = Z.shiftl (Z.shiftr a (w - k)) (w - k)) as ->.
  { replace (2 ^ k - 1) with (Z.ones k) by (rewrite Z.ones_equiv; lia).
    rewrite <- Z.shiftl_mul_pow2 by lia. bitwise. }
  rewrite Z.shiftl_mul_pow2, Z.shiftr_div_pow2 by lia.
  assert (0 < 2 ^ (w - k)) by (apply Z.pow_pos_nonneg; lia).
  destruct (Z.ltb_spec a (2 ^ (w - k))).
  - rewrite Z.div_small by lia. done.
  - apply Z.eqb_neq. pose proof (Z.div_le_lower_bound a (2 ^ (w - k)) 1). nia.
Qed.

Lemma land_low_mask k a : 0 <= k -> Z.land a (2 ^ k - 1) = a mod 2 ^ k.
Proof.
  intros. replace (2 ^ k - 1) with (Z.ones k) by (rewrite Z.ones_equiv; lia).
  by apply Z.land_ones.
Qed.

(** Each line of the leading-zero search keeps [a = a0 * 2^n] and doubles
    the known magnitude. *)
Lemma clz_step_inv w sh mask a0 a n (k := 2 ^ sh) :
  mask = (2 ^ k - 1) * 2 ^ (w - k) -> 0 <= sh -> 2 * k <= w -> 0 <= n ->
  a = a0 * 2 ^ n -> 2 ^ (w - 2 * k) <= a < 2 ^ w ->
  exists n', clz_step w mask sh (a, n) = (a0 * 2 ^ n', n') /\ 0 <= n' /\
    2 ^ (w - k) <= a0 * 2 ^ n' < 2 ^ w.
Proof.
  intros -> Hsh Hk Hn Ha Hb.
  assert (0 < k) by (apply Z.pow_pos_nonneg; lia).
  assert (0 < 2 ^ (w - 2 * k)) by (apply Z.pow_pos_nonneg; lia).
  unfold clz_step, c_not. rewrite land_high_mask by lia.
  destruct (Z.ltb_spec a (2 ^ (w - k))) as [Hlt|Hge].
  - rewrite Z.shiftl_1_l. fold k.
    assert (a * 2 ^ k < 2 ^ w) by
      (replace w with ((w - k) + k) by lia; rewrite Z.pow_add_r by lia; nia).
    assert (2 ^ (w - k) <= a * 2 ^ k) by
      (replace (w - k) with ((w - 2 * k) + k) by lia; rewrite Z.pow_add_r by lia; nia).
    assert (a0 * 2 ^ (n + k) = a * 2 ^ k) by (rewrite Z.pow_add_r by lia; nia).
    exists (n + k). rewrite Z.shiftl_mul_pow2, uw_small by lia.
    split; [congruence|lia].
  - rewrite Z.shiftl_0_l, Z.shiftl_0_r, uw_small, Z.add_0_r by lia.
    exists n. split; [congruence|lia].
Qed.

Lemma log2_of_scaled w a N : 0 < a -> 0 <= N -> 1 <= w ->
  2 ^ (w - 1) <= a * 2 ^ N < 2 ^ w -> Z.log2 a = w - 1 - N.
Proof.
  intros Ha HN Hw Hb.
  assert (Z.log2 (a * 2 ^ N) = w - 1) as Hl.
  { apply Z.log2_unique; [lia|]. by replace (Z.succ (w - 1)) with w by lia. }
  rewrite Z.log2_mul_pow2 in Hl by lia. lia.
Qed.

Lemma clz_last w a0 n : 1 < w -> 0 < a0 -> 0 <= n ->
  2 ^ (w - 2) <= a0 * 2 ^ n < 2 ^ w ->
  n + c_not (Z.land (a0 * 2 ^ n) (2 ^ (w - 1))) = w - 1 - Z.log2 a0.
Proof.
  intros Hw H0 Hn Hb. unfold c_not.
  replace (2 ^ (w - 1)) with ((2 ^ 1 - 1) * 2 ^ (w - 1)) by lia.
  rewrite land_high_mask by lia.
  assert (2 ^ w = 2 * 2 ^ (w - 1)) by (rewrite <- Z.pow_succ_r by lia; f_equal; lia).
  assert (2 ^ (w - 1) = 2 * 2 ^ (w - 2)) by (rewrite <- Z.pow_succ_r by lia; f_equal; lia).
  destruct (Z.ltb_spec (a0 * 2 ^ n) (2 ^ (w - 1))).
  - rewrite (log2_of_scaled w a0 (n + 1)); [lia|lia|lia|lia|].
    rewrite Z.pow_add_r by lia. lia.
  - rewrite (log2_of_scaled w a0 n); lia.
Qed.

Lemma clzdi2_log2 a : 0 < a < 2 ^ 64 -> clzdi2 a = 63 - Z.log2 a.
Proof.
  intros Ha. unfold clzdi2.
  destruct (clz_step_inv 64 5 0xffffffff00000000 a a 0) as (n5 & -> & ? & ?);
    [done|lia|done|lia|lia|pow2_consts; lia|].
  destruct (clz_step_inv 64 4 0xffff000000000000 a (a * 2 ^ n5) n5) as (n4 & -> & ? & ?);
    [done|lia|done|lia|done|pow2_consts; lia|].
  destruct (clz_step_inv 64 3 0xff00000000000000 a (a * 2 ^ n4) n4) as (n3 & -> & ? & ?);
    [done|lia|done|lia|done|pow2_consts; lia|].
  destruct (clz_step_inv 64 2 0xf000000000000000 a (a * 2 ^ n3) n3) as (n2 & -> & ? & ?);
    [done|lia|done|lia|done|pow2_consts; lia|].
  destruct (clz_step_inv 64 1 0xc000000000000000 a (a * 2 ^ n2) n2) as (n1 & -> & ? & ?);
    [done|lia|done|lia|done|pow2_consts; lia|].
  apply (clz_last 64); lia || done.
Qed.

Lemma clzsi2_log2 a : 0 < a < 2 ^ 32 -> clzsi2 a = 31 - Z.log2 a.
Proof.
  intros Ha. unfold clzsi2.
  destruct (clz_step_inv 32 4 0xffff0000 a a 0) as (n4 & -> & ? & ?);
    [done|lia|done|lia|lia|pow2_consts; lia|].
  destruct (clz_step_inv 32 3 0xff000000 a (a * 2 ^ n4) n4) as (n3 & -> & ? & ?);
    [done|lia|done|lia|done|pow2_consts; lia|].
  destruct (clz_step_inv 32 2 0xf0000000 a (a * 2 ^ n3) n3) as (n2 & -> & ? & ?);
    [done|lia|done|lia|done|pow2_consts; lia|].
  destruct (clz_step_inv 32 1 0xc0000000 a (a * 2 ^ n2) n2) as (n1 & -> & ? & ?);
    [done|lia|done|lia|done|pow2_consts; lia|].
  apply (clz_last 32); lia || done.
Qed.

(** Each line of the trailing-zero search keeps [a0 = a * 2^n]. *)
Lemma ctz_step_inv sh mask a0 a n (k := 2 ^ sh) :
  mask = 2 ^ k - 1 -> 0 <= sh -> 0 <= n ->
  a0 = a * 2 ^ n -> a mod 2 ^ (2 * k) <> 0 ->
  exists a' n', ctz_step mask sh (a, n) = (a', n') /\ 0 <= n' /\
    a0 = a' * 2 ^ n' /\ a' mod 2 ^ k <> 0.
Proof.
  intros -> Hsh Hn Ha Hm.
  assert (0 < k) by (apply Z.pow_pos_nonneg; lia).
  assert (0 < 2 ^ k) by (apply Z.pow_pos_nonneg; lia).
  unfold ctz_step, c_not. rewrite land_low_mask by lia.
  destruct (Z.eqb_spec (a mod 2 ^ k) 0) as [Hz|Hnz].
  - rewrite Z.shiftl_1_l. fold k. rewrite Z.shiftr_div_pow2 by lia.
    eexists _, _. split; [done|]. split; [lia|].
    assert (a = a / 2 ^ k * 2 ^ k) as Hd
      by (rewrite (Z.div_mod a (2 ^ k)) at 1 by lia; lia).
    split.
    + rewrite Ha. rewrite Hd at 1. rewrite Z.pow_add_r by lia. ring.
    + intros Hq. apply Hm. replace (2 * k) with (k + k) by lia.
      rewrite Z.pow_add_r, Z.rem_mul_r, Hz, Hq by lia. lia.
  - rewrite Z.shiftl_0_l, Z.shiftr_0_r, Z.add_0_r. by exists a, n.
Qed.

(** [N] is the position of the lowest set bit of [a]. *)
Definition lowest_bit (a N : Z) : Prop :=
  0 <= N /\ Z.testbit a N = true /\ forall i, i < N -> Z.testbit a i = false.

Lemma ctz_last a0 a n : 0 <= n -> a0 = a * 2 ^ n -> a mod 2 ^ 2 <> 0 ->
  lowest_bit a0 (n + c_not (Z.land a 1)).
Proof.
  intros Hn -> Hm. unfold c_not. replace (Z.land a 1) with (a mod 2)
    by (symmetry; apply (land_low_mask 1 a); lia).
  assert (Hlow : forall i, i < n -> Z.testbit (a * 2 ^ n) i = false).
  { intros i Hi. by rewrite Z.mul_pow2_bits_low. }
  destruct (Z.eqb_spec (a mod 2) 0) as [Hz|Hnz]; split_and!; try lia.
  - rewrite Z.mul_pow2_bits_add, Z.testbit_true by lia. dlia.
  - intros i Hi. destruct (decide (i = n)) as [->|]; [|apply Hlow; lia].
    rewrite <- (Z.add_0_r n) at 2.
    rewrite Z.mul_pow2_bits_add, Z.testbit_false by lia. dlia.
  - rewrite Z.mul_pow2_bits_add, Z.testbit_true by lia. dlia.
  - intros i Hi. apply Hlow; lia.
Qed.

Lemma ctzdi2_lowest a : 0 < a < 2 ^ 64 -> lowest_bit a (ctzdi2 a).
Proof.
  intros Ha. unfold ctzdi2.
  destruct (ctz_step_inv 5 0xffffffff a a 0) as (a5 & n5 & -> & ? & ? & ?);
    [done|lia|lia|lia|rewrite Z.mod_small by (pow2_consts; lia); lia|].
  destruct (ctz_step_inv 4 0xffff a a5 n5) as (a4 & n4 & -> & ? & ? & ?); [done..|].
  destruct (ctz_step_inv 3 0xff a a4 n4) as (a3 & n3 & -> & ? & ? & ?); [done..|].
  destruct (ctz_step_inv 2 0xf a a3 n3) as (a2 & n2 & -> & ? & ? & ?); [done..|].
  destruct (ctz_step_inv 1 3 a a2 n2) as (a1 & n1 & -> & ? & ? & ?); [done..|].
  by apply ctz_last.
Qed.

Lemma ctzsi2_lowest a : 0 < a < 2 ^ 32 -> lowest_bit a (ctzsi2 a).
Proof.
  intros Ha. unfold ctzsi2.
  destruct (ctz_step_inv 4 0xffff a a 0) as (a4 & n4 & -> & ? & ? & ?);
    [done|lia|lia|lia|rewrite Z.mod_small by (pow2_consts; lia); lia|].
  destruct (ctz_step_inv 3 0xff a a4 n4) as (a3 & n3 & -> & ? & ? & ?); [done..|].
  destruct (ctz_step_inv 2 0xf a a3 n3) as (a2 & n2 & -> & ? & ? & ?); [done..|].
  destruct (ctz_step_inv 1 3 a a2 n2) as (a1 & n1 & -> & ? & ? & ?); [done..|].
  by apply ctz_last.
Qed.
End counts.

(** ** Correctness of the division *)

Section division.
(** [wrap] is all ones when the divisor fits in the remainder. *)
Lemma divmod_wrap b rem : in_s 64 (b - rem - 1) ->
  u64 (Z.shiftr (s64 (u64 (b - rem - 1))) 63) = if b <=? rem then 2 ^ 64 - 1 else 0.
Proof.
  intros H. rewrite sw_uw, sw_small by (done || lia).
  rewrite Z.shiftr_div_pow2 by lia. unfold in_s in H. unfold uw.
  destruct (Z.leb_spec b rem); dlia.
Qed.

Lemma lor_bit x c : 0 <= c < 2 -> Z.lor (2 * x) c = 2 * x + c.
Proof.
  intros. replace (2 * x) with (Z.shiftl x 1) at 1 by (rewrite Z.shiftl_mul_pow2; lia).
  rewrite Z.lor_comm, lor_split by lia. lia.
Qed.

(** The numerator register holds the bits of [a0] not yet consumed on top of
    the quotient bits produced so far. *)
Definition num_reg (a0 : Z) (r : nat) (Q : Z) : Z :=
  (a0 mod 2 ^ Z.of_nat r) * 2 ^ (64 - Z.of_nat r) + Q / 2.

Definition wrap_of (Q : Z) : Z := if Z.odd Q then 2 ^ 64 - 1 else 0.

Lemma wrap_of_bit Q : Z.land (wrap_of Q) 1 = Q mod 2.
Proof. unfold wrap_of. rewrite Zmod_odd. by destruct (Z.odd Q). Qed.

Lemma num_reg_shift a0 r Q : (r < 64)%nat -> 0 <= a0 -> 0 <= Q < 2 ^ (64 - Z.of_nat (S r)) ->
  Z.shiftr (num_reg a0 (S r) Q) 63 = (a0 / 2 ^ Z.of_nat r) mod 2 /\
  Z.lor (u64 (Z.shiftl (num_reg a0 (S r) Q) 1)) (Z.land (wrap_of Q) 1)
    = num_reg a0 r (2 * Q).
Proof.
  intros Hr Ha HQ. rewrite wrap_of_bit. unfold num_reg.
  rewrite Nat2Z.inj_succ in *.
  assert (Hp : 2 ^ (Z.succ (Z.of_nat r)) = 2 ^ Z.of_nat r * 2)
    by (rewrite Z.pow_succ_r; lia).
  replace (64 - Z.succ (Z.of_nat r)) with (63 - Z.of_nat r) in * by lia.
  assert (H64 : 2 ^ (64 - Z.of_nat r) = 2 * 2 ^ (63 - Z.of_nat r))
    by (rewrite <- Z.pow_succ_r by lia; f_equal; lia).
  assert (H63 : 2 ^ 63 = 2 ^ Z.of_nat r * 2 ^ (63 - Z.of_nat r))
    by (rewrite <- Z.pow_add_r by lia; f_equal; lia).
  assert (0 < 2 ^ Z.of_nat r) by (apply Z.pow_pos_nonneg; lia).
  assert (0 < 2 ^ (63 - Z.of_nat r)) by (apply Z.pow_pos_nonneg; lia).
  rewrite Hp, Z.rem_mul_r, H64 by lia.
  pose proof (Z.mod_pos_bound a0 (2 ^ Z.of_nat r) ltac:(lia)).
  pose proof (Z.mod_pos_bound (a0 / 2 ^ Z.of_nat r) 2 ltac:(lia)).
  set (c := (a0 / 2 ^ Z.of_nat r) mod 2) in *. set (L := a0 mod 2 ^ Z.of_nat r) in *.
  set (q := 2 ^ Z.of_nat r) in *. set (p := 2 ^ (63 - Z.of_nat r)) in *.
  clearbody c L p q.
  assert (HQ2 : 0 <= Q / 2 < p) by dlia.
  split.
  - rewrite Z.shiftr_div_pow2, H63 by lia. symmetry.
    apply Z.div_unique with (L * p + Q / 2); nia.
  - replace ((2 * Q) / 2) with Q by dlia.
    rewrite Z.shiftl_mul_pow2 by lia. unfold uw.
    replace (2 ^ 64) with (2 * (q * p)) by (rewrite <- H63; done).
    replace (((L + q * c) * p + Q / 2) * 2 ^ 1) with (2 * (L * p + Q / 2) + c * (2 * (q * p))) by lia.
    rewrite Z.mod_add, Z.mod_small by nia.
    rewrite lor_bit by dlia. rewrite (Z.div_mod Q 2) at 3 by lia. lia.
Qed.

(** One turn of the long division, on the abstract quotient and remainder. *)
Lemma divmod_turn a b c Q R : 0 < b -> 0 <= c < 2 -> 0 <= R < b ->
  a = Q * b + R ->
  (2 * a + c) / b = 2 * Q + c_bool (b <=? 2 * R + c) /\
  (2 * a + c) mod b = 2 * R + c - (if b <=? 2 * R + c then b else 0).
Proof.
  intros Hb Hc HR ->. destruct (Z.leb_spec b (2 * R + c)); cbn [c_bool].
  - split; symmetry.
    + apply Z.div_unique with (2 * R + c - b); lia.
    + apply Z.mod_unique with (2 * Q + 1); lia.
  - split; symmetry.
    + apply Z.div_unique with (2 * R + c); lia.
    + apply Z.mod_unique with (2 * Q); lia.
Qed.

Lemma divmod_loop_inv (r : nat) a0 b (A := a0 / 2 ^ Z.of_nat r) :
  in_u 64 a0 -> 0 < b < 2 ^ 64 -> (r < 64)%nat ->
  (b <= 2 ^ 63 \/ (r = 1%nat /\ b <= a0) \/ r = 0%nat) ->
  divmod_loop r b (A mod b) (num_reg a0 r (A / b)) (wrap_of (A / b))
    = (a0 mod b, (a0 / b) / 2, wrap_of (a0 / b)).
Proof.
  unfold in_u. revert A. induction r as [|r IH]; intros A Ha Hb Hr Hc; subst A.
  { unfold num_reg. cbn [divmod_loop Z.of_nat]. change (2 ^ 0) with 1.
    rewrite Z.div_1_r, Z.mod_1_r. done. }
  cbn [divmod_loop].
  assert (Hp : 2 ^ Z.of_nat (S r) = 2 ^ Z.of_nat r * 2)
    by (rewrite Nat2Z.inj_succ, Z.pow_succ_r; lia).
  assert (0 < 2 ^ Z.of_nat r) by (apply Z.pow_pos_nonneg; lia).
  assert (HA : a0 / 2 ^ Z.of_nat r
               = 2 * (a0 / 2 ^ Z.of_nat (S r)) + (a0 / 2 ^ Z.of_nat r) mod 2).
  { rewrite Hp, <- Z.div_div by lia. apply Z.div_mod. lia. }
  set (A := a0 / 2 ^ Z.of_nat (S r)) in *.
  assert (0 <= A) by (apply Z.div_pos; lia).
  assert (HAb : A < 2 ^ (64 - Z.of_nat (S r))).
  { apply Z.div_lt_upper_bound; [lia|]. rewrite <- Z.pow_add_r by lia.
    replace (Z.of_nat (S r) + _) with 64 by lia. lia. }
  pose proof (Z.mod_pos_bound A b ltac:(lia)) as HR.
  pose proof (Z.mod_pos_bound (a0 / 2 ^ Z.of_nat r) 2 ltac:(lia)) as Hbit.
  assert (HQ : 0 <= A / b < 2 ^ (64 - Z.of_nat (S r))).
  { split; [apply Z.div_pos; lia|]. apply Z.div_lt_upper_bound; nia. }
  destruct (num_reg_shift a0 r (A / b)) as [-> ->]; [lia..|].
  set (c := (a0 / 2 ^ Z.of_nat r) mod 2) in *.
  assert (Hsmall : 2 * (A mod b) + c < 2 ^ 64 /\
                   in_s 64 (b - (2 * (A mod b) + c) - 1)).
  { unfold in_s. destruct Hc as [Hc|[[Hr1 Hc]|Hc]]; [pow2_consts; lia| |lia].
    assert (r = 0%nat) as -> by lia. change (2 ^ Z.of_nat 0) with 1 in HA.
    rewrite Z.div_1_r in HA.
    assert (A mod b <= A) by (apply Z.mod_le; lia).
    destruct (decide (b <= 2 ^ 63)); [pow2_consts; lia|].
    assert (A mod b = A) as -> by (apply Z.mod_small; pow2_consts; lia).
    pow2_consts; lia. }
  destruct Hsmall as [Hlt Hs].
  replace (Z.lor (u64 (Z.shiftl (A mod b) 1)) c) with (2 * (A mod b) + c)
    by (rewrite uw_small; rewrite Z.shiftl_mul_pow2, (Z.mul_comm (A mod b)) by lia;
        [by rewrite lor_bit | lia]).
  rewrite divmod_wrap by done.
  pose proof (Z.div_mod A b ltac:(lia)) as HAq.
  destruct (divmod_turn A b c (A / b) (A mod b)) as [Hq Hm]; [lia..|].
  rewrite <- HA in Hq, Hm.
  replace (u64 _) with ((a0 / 2 ^ Z.of_nat r) mod b).
  2:{ rewrite Hm. unfold uw. destruct (Z.leb_spec b (2 * (A mod b) + c)).
      - replace (Z.land b (2 ^ 64 - 1)) with b; [rewrite (Z.mod_small (_ - _)); lia|].
        change (2 ^ 64 - 1) with (Z.ones 64). rewrite Z.land_ones, Z.mod_small; lia.
      - rewrite Z.land_0_r, (Z.mod_small (_ - _)); lia. }
  replace (num_reg a0 r (2 * (A / b))) with (num_reg a0 r (a0 / 2 ^ Z.of_nat r / b)).
  2:{ unfold num_reg. f_equal. rewrite Hq. 
      generalize (A / b) as q. clear. intros q. destruct (b <=? _); cbn [c_bool]; dlia. }
  replace (if b <=? _ then _ else _) with (wrap_of (a0 / 2 ^ Z.of_nat r / b)).
  2:{ unfold wrap_of. rewrite Hq, Z.add_comm, Z.odd_add_mul_2. by destruct (b <=? _). }
  apply IH; [done|done|lia|]. destruct Hc as [?|[[??]|?]]; lia.
Qed.
End division.

Lemma divmoddi4_correct a b : in_u 64 a -> in_u 64 b ->
  divmoddi4 a b = if b =? 0 then None else Some (a / b, a mod b).
Proof.
  unfold in_u. intros Ha Hb. unfold divmoddi4, arith64_hi, arith64_lo, word_of_u64.
  cbn [w_hi w_lo]. rewrite Z.gtb_ltb. destruct (Z.ltb_spec a b) as [Hlt|Hge]; cbv iota.
  { rewrite Z.div_small, Z.mod_small by lia. destruct (Z.eqb_spec b 0); [lia|done]. }
  destruct (Z.eqb_spec b 0) as [->|Hb0]; [done|]. rewrite andb_false_r.
  destruct (Z.eqb_spec b 1) as [->|Hb1]; [rewrite (Z.div_1_r a), (Z.mod_1_r a); reflexivity|].
  rewrite andb_false_r. rewrite !Z.shiftr_div_pow2 by lia.
  destruct (_ && _) eqn:Hhi.
  { apply andb_prop in Hhi as [H1%Z.eqb_eq H2%Z.eqb_eq].
    rewrite !uw_small by (unfold uw in *; dlia). done. }
  clear Hhi. rewrite !clzdi2_log2 by lia.
  assert (Hl : 1 <= Z.log2 b <= Z.log2 a) by
    (split; [apply (Z.log2_le_mono 2); lia | apply Z.log2_le_mono; lia]).
  assert (Hl63 : Z.log2 a <= 63) by (apply Z.lt_succ_r, Z.log2_lt_pow2; lia).
  replace (63 - Z.log2 b - (63 - Z.log2 a) + 1) with (Z.log2 a - Z.log2 b + 1) by lia.
  rewrite sw_small by (unfold in_s; lia).
  set (n := Z.log2 a - Z.log2 b + 1).
  pose proof (Z.log2_spec a ltac:(lia)). pose proof (Z.log2_spec b ltac:(lia)).
  assert (HA : 0 <= a / 2 ^ n < b).
  { split; [apply Z.div_pos; [lia|apply Z.pow_pos_nonneg; lia]|].
    apply Z.lt_le_trans with (2 ^ Z.log2 b); [|lia].
    apply Z.div_lt_upper_bound; [apply Z.pow_pos_nonneg; lia|].
    rewrite <- Z.pow_add_r by lia.
    replace (n + Z.log2 b) with (Z.succ (Z.log2 a)) by lia. lia. }
  pose proof (divmod_loop_inv (Z.to_nat n) a b Ha ltac:(lia) ltac:(lia)) as Hloop.
  rewrite Z2Nat.id in Hloop by lia. cbv zeta in Hloop.
  rewrite (Z.div_small (a / 2 ^ n)), (Z.mod_small (a / 2 ^ n)) in Hloop by lia.
  replace (num_reg a (Z.to_nat n) 0) with (u64 (Z.shiftl a (64 - n))) in Hloop.
  2:{ unfold num_reg, uw. rewrite Z2Nat.id, Z.shiftl_mul_pow2, Z.add_0_r by lia.
      replace (2 ^ 64) with (2 ^ n * 2 ^ (64 - n)) by (rewrite <- Z.pow_add_r by lia; f_equal; lia).
      rewrite Z.mul_mod_distr_r; [done| |]; apply Z.pow_nonzero; lia. }
  rewrite Z.shiftr_div_pow2 by lia. change (wrap_of 0) with 0 in Hloop. rewrite Hloop.
  2:{ destruct (decide (b <= 2 ^ 63)); [by left|]. right; left. split; [|lia].
      assert (63 <= Z.log2 b) by (apply Z.log2_le_pow2; lia). lia. }
  rewrite wrap_of_bit. f_equal. f_equal.
  assert (0 <= a / b < 2 ^ 64).
  { split; [apply Z.div_pos; lia|]. apply Z.div_lt_upper_bound; nia. }
  rewrite uw_small by (rewrite Z.shiftl_mul_pow2 by lia; dlia).
  rewrite Z.shiftl_mul_pow2, Z.mul_comm by lia. rewrite lor_bit by dlia.
  rewrite <- Z.div_mod; lia.
Qed.

(** ** Signed division *)

Section signed.
Lemma s64_sign x : in_u 64 x -> (s64 x <? 0) = Z.testbit x 63.
Proof.
  intros Hx. rewrite Z.testbit_eqb by lia. unfold in_u, sw in *. zcases; dlia.
Qed.

Lemma s64_value x : in_u 64 x -> s64 x = if Z.testbit x 63 then x - 2 ^ 64 else x.
Proof.
  intros Hx. rewrite <- s64_sign by done. unfold in_u, sw in *. zcases; dlia.
Qed.

Lemma arith64_neg_spec a b : in_u 64 a ->
  arith64_neg a b = u64 (if s64 b <? 0 then - a else a).
Proof.
  intros Ha. unfold arith64_neg. rewrite Z.geb_leb, Z.leb_antisym.
  destruct (Z.ltb_spec (s64 b) 0); cbn [c_bool negb].
  - replace (Z.lxor a (u64 (0 - 1))) with (2 ^ 64 - 1 - a).
    2:{ change (u64 (0 - 1)) with (Z.ones 64). unfold in_u in Ha.
        assert (Z.land (2 ^ 64 - 1 - a) a = 0) as Hd.
        { replace (2 ^ 64 - 1 - a) with (Z.ldiff (Z.ones 64) a).
          - apply Z.land_ldiff.
          - rewrite <- Z.sub_nocarry_ldiff; [rewrite Z.ones_equiv; lia|].
            apply Z.bits_inj'. intros i Hi.
            rewrite Z.ldiff_spec, Z.testbit_ones_nonneg, Z.bits_0 by lia.
            destruct (Z.ltb_spec i 64); [apply andb_false_r|].
            by rewrite (testbit_high a 64) by lia. }
        assert (Z.ones 64 = Z.lxor (2 ^ 64 - 1 - a) a) as ->.
        { rewrite <- Z.add_nocarry_lxor by done. rewrite Z.ones_equiv. lia. }
        rewrite Z.lxor_comm, Z.lxor_assoc, Z.lxor_nilpotent, Z.lxor_0_r. done. }
    unfold uw. rewrite <- (Z.mod_add (- a) 1 (2 ^ 64)) by lia. f_equal. lia.
  - change (u64 (1 - 1)) with 0. rewrite Z.lxor_0_r, Z.add_0_r. done.
Qed.

Lemma arith64_abs_spec a : in_u 64 a -> arith64_abs a = Z.abs (s64 a).
Proof.
  intros Ha. unfold arith64_abs. rewrite arith64_neg_spec by done.
  unfold in_u, sw, uw in *. zcases; dlia.
Qed.

Lemma sw64_mod x y : x mod 2 ^ 64 = y mod 2 ^ 64 -> s64 x = s64 y.
Proof. intros H. unfold sw. by rewrite <- (Zplus_mod_idemp_l x), H, Zplus_mod_idemp_l. Qed.

Lemma abs_in_u a : in_u 64 (Z.abs (s64 a)).
Proof. pose proof (sw_range 64 a ltac:(lia)) as H. unfold in_s, in_u in *. pow2_consts. lia. Qed.

Lemma s64_nonzero b : in_u 64 b -> b <> 0 -> s64 b <> 0.
Proof.
  intros Hb. rewrite s64_value by done. unfold in_u in Hb.
  destruct (Z.testbit b 63); lia.
Qed.

Lemma abs_s64_eqb0 b : in_u 64 b -> (Z.abs (s64 b) =? 0) = (b =? 0).
Proof.
  intros Hb. destruct (Z.eqb_spec b 0) as [->|Hb0]; [done|].
  apply Z.eqb_neq. pose proof (s64_nonzero b Hb Hb0). lia.
Qed.
End signed.

Lemma divdi3_correct a b : in_u 64 a -> in_u 64 b ->
  option_map s64 (divdi3 a b)
    = if b =? 0 then None else Some (s64 (Z.quot (s64 a) (s64 b))).
Proof.
  intros Ha Hb. unfold divdi3. rewrite !arith64_abs_spec by done.
  rewrite divmoddi4_correct by apply abs_in_u.
  rewrite abs_s64_eqb0 by done.
  destruct (Z.eqb_spec b 0) as [|Hb0]; [done|]. cbn [option_map]. f_equal.
  assert (Hsb : s64 b <> 0) by (by apply s64_nonzero).
  rewrite arith64_neg_spec.
  2:{ pose proof (abs_in_u a). unfold in_u in *. split; [apply Z.div_pos; lia|].
      apply Z.div_lt_upper_bound; nia. }
  rewrite sw_uw by lia. f_equal. rewrite s64_sign.
  2:{ unfold in_u in *. apply testbit_bound; [lia|]. intros i Hi.
      rewrite Z.lxor_spec, !(testbit_high _ 64 i) by done. done. }
  rewrite Z.lxor_spec, <- !s64_sign, Z.quot_div by done.
  destruct (Z.ltb_spec (s64 a) 0), (Z.ltb_spec (s64 b) 0); cbn [xorb].
  - rewrite !Z.sgn_neg by lia. lia.
  - rewrite Z.sgn_neg, Z.sgn_pos by lia. lia.
  - destruct (decide (s64 a = 0)) as [->|]; [rewrite Z.div_0_l by lia; done|].
    rewrite Z.sgn_pos, Z.sgn_neg by lia. lia.
  - destruct (decide (s64 a = 0)) as [->|]; [rewrite Z.div_0_l by lia; done|].
    rewrite !Z.sgn_pos by lia. lia.
Qed.

Lemma moddi3_correct a b : in_u 64 a -> in_u 64 b ->
  option_map s64 (moddi3 a b) = if b =? 0 then None else Some (Z.rem (s64 a) (s64 b)).
Proof.
  intros Ha Hb. unfold moddi3. rewrite !arith64_abs_spec by done.
  rewrite divmoddi4_correct by apply abs_in_u.
  rewrite abs_s64_eqb0 by done.
  destruct (Z.eqb_spec b 0) as [|Hb0]; [done|]. cbn [option_map]. f_equal.
  assert (Hsb : s64 b <> 0) by (by apply s64_nonzero).
  pose proof (Z.mod_pos_bound (Z.abs (s64 a)) (Z.abs (s64 b)) ltac:(lia)) as Hm.
  assert (Z.abs (s64 a) mod Z.abs (s64 b) <= Z.abs (s64 a)) by (apply Z.mod_le; lia).
  pose proof (abs_in_u a). pose proof (sw_range 64 a ltac:(lia)).
  pose proof (sw_range 64 b ltac:(lia)).
  rewrite arith64_neg_spec by (unfold in_u in *; lia).
  rewrite sw_uw, Z.rem_mod by (done || lia).
  unfold in_u, in_s in *. destruct (Z.ltb_spec (s64 a) 0).
  - rewrite Z.sgn_neg, sw_small by (unfold in_s; pow2_consts; lia). lia.
  - destruct (decide (s64 a = 0)) as [->|]; [rewrite Z.mod_0_l by lia; done|].
    rewrite Z.sgn_pos, sw_small by (unfold in_s; pow2_consts; lia). lia.
Qed.

(** ** Correctness of the parallel bit count *)

(** The number of set bits among the [w] lowest ones. *)
Fixpoint bits_set (w : nat) (a : Z) : Z :=
  match w with
  | O => 0
  | S w => a mod 2 + bits_set w (a / 2)
  end.

Section popcount.
Lemma bits_set_app m w a :
  bits_set (m + w) a = bits_set m (a mod 2 ^ Z.of_nat m) + bits_set w (a / 2 ^ Z.of_nat m).
Proof.
  revert a. induction m as [|m IH]; intros a; [by rewrite Z.div_1_r|].
  cbn [Nat.add bits_set]. rewrite IH.
  rewrite Nat2Z.inj_succ, Z.pow_succ_r by lia.
  assert (0 < 2 ^ Z.of_nat m) by (apply Z.pow_pos_nonneg; lia).
  rewrite <- Z.div_div by lia.
  assert (Hm : a mod (2 * 2 ^ Z.of_nat m) = a mod 2 + 2 * ((a / 2) mod 2 ^ Z.of_nat m))
    by (rewrite Z.rem_mul_r; lia).
  assert (He : forall X, (a mod 2 + 2 * X) mod 2 = a mod 2) by (intros; dlia).
  assert (Hd : forall X, (a mod 2 + 2 * X) / 2 = X) by (intros; dlia).
  by rewrite Hm, He, Hd, Z.add_assoc.
Qed.

Lemma bits_set_bytes l : Forall byte l ->
  bits_set (8 * length l) (of_bytes l) = foldr Z.add 0 (bits_set 8 <$> l).
Proof.
  induction 1 as [|b l Hb Hl IH]; [done|]. cbn [length of_bytes fmap list_fmap foldr].
  replace (8 * S (length l))%nat with (8 + 8 * length l)%nat by lia.
  rewrite bits_set_app. change (2 ^ Z.of_nat 8) with (2 ^ 8). unfold byte in Hb.
  rewrite Z.mod_add, Z.mod_small, Z.div_add, Z.div_small, Z.add_0_l by lia.
  by rewrite <- IH.
Qed.

(** Finite checks over all bytes. *)
Lemma byte_check (f : Z -> bool) :
  forallb f (Z.of_nat <$> seq 0 256) = true -> forall b, byte b -> f b = true.
Proof.
  unfold byte. intros H b Hb. rewrite forallb_forall in H. apply H.
  apply list_elem_of_In, list_elem_of_fmap. exists (Z.to_nat b).
  split; [lia|]. apply elem_of_seq. lia.
Qed.

(** The three field-merging steps. *)
Definition step1 m x := x - Z.land (Z.shiftr x 1) m.
Definition step2 m x := Z.land (Z.shiftr x 2) m + Z.land x m.
Definition step3 m x := Z.land (x + Z.shiftr x 4) m.

Definition mask (c : Z) (l : list Z) : Z := of_bytes ((fun _ => c) <$> l).

(** Bits that a right shift moves in from the next byte are masked out. *)
Lemma land_shift_byte k c b x m : 0 <= k <= 8 -> byte b -> 0 <= c < 2 ^ (8 - k) ->
  Z.land (Z.shiftr (b + x * 2 ^ 8) k) (c + m * 2 ^ 8)
    = Z.land (Z.shiftr b k) c + Z.land (Z.shiftr x k) m * 2 ^ 8.
Proof.
  unfold byte. intros Hk Hb Hc.
  assert (0 <= c < 2 ^ 8) by (split; [lia|];
    apply Z.lt_le_trans with (2 ^ (8 - k)); [lia|apply Z.pow_le_mono_r; lia]).
  assert (Z.land (Z.shiftr b k) c + Z.land (Z.shiftr x k) m * 2 ^ 8
    = Z.lor (Z.land (Z.shiftr b k) c) (Z.shiftl (Z.land (Z.shiftr x k) m) 8)) as ->.
  { rewrite lor_split; [done|lia|]. apply testbit_bound; [lia|]. intros i Hi.
    rewrite Z.land_spec, (testbit_high c 8) by lia. apply andb_false_r. }
  rewrite <- !lor_split by lia. bitwise.
Qed.

Definition nibbles4 (b : Z) : Prop := 0 <= b /\ b mod 16 <= 4 /\ b / 16 <= 4.

Lemma step1_bytes l : Forall byte l ->
  step1 (mask 0x55 l) (of_bytes l) = of_bytes (step1 0x55 <$> l).
Proof.
  induction 1 as [|b l Hb Hl IH]; [done|]. unfold mask, step1 in *.
  cbn [fmap list_fmap of_bytes]. rewrite land_shift_byte by (done || lia).
  cbn [fmap list_fmap of_bytes] in IH. rewrite <- IH. ring.
Qed.

Lemma step2_bytes l : Forall byte l ->
  step2 (mask 0x33 l) (of_bytes l) = of_bytes (step2 0x33 <$> l).
Proof.
  induction 1 as [|b l Hb Hl IH]; [done|]. unfold mask, step2 in *.
  cbn [fmap list_fmap of_bytes]. rewrite land_shift_byte by (done || lia).
  rewrite (land_split b) by (done || lia).
  cbn [fmap list_fmap of_bytes] in IH. rewrite <- IH. ring.
Qed.

Lemma step3_bytes l : Forall nibbles4 l ->
  step3 (mask 0x0F l) (of_bytes l) = of_bytes (step3 0x0F <$> l) /\ of_bytes l mod 16 <= 4.
Proof.
  induction 1 as [|b l Hb Hl [IH1 IH2]]; [done|]. unfold nibbles4 in Hb.
  assert (0 <= of_bytes l mod 16) by (apply Z.mod_pos_bound; lia).
  unfold mask, step3 in *. cbn [fmap list_fmap of_bytes].
  cbn [fmap list_fmap] in IH1. split; [|dlia]. rewrite <- IH1.
  replace (b + of_bytes l * 2 ^ 8 + Z.shiftr (b + of_bytes l * 2 ^ 8) 4)
    with ((b + b / 16 + 16 * (of_bytes l mod 16)) + (of_bytes l + Z.shiftr (of_bytes l) 4) * 2 ^ 8)
    by (rewrite !Z.shiftr_div_pow2 by lia; dlia).
  rewrite land_split by dlia. f_equal.
  rewrite !(fun x => land_low_mask 4 x ltac:(lia) : Z.land x 0x0F = _).
  rewrite Z.shiftr_div_pow2 by lia. dlia.
Qed.

(** After the three steps every byte holds the count of its own bits. *)
Lemma byte_steps b : byte b ->
  byte (step1 0x55 b) /\ nibbles4 (step2 0x33 (step1 0x55 b)) /\
  step3 0x0F (step2 0x33 (step1 0x55 b)) = bits_set 8 b /\ 0 <= bits_set 8 b <= 8.
Proof.
  intros Hb. unfold byte, nibbles4.
  pose proof (byte_check (fun b =>
    let x := step1 0x55 b in let y := step2 0x33 x in
    (0 <=? x) && (x <? 256) && (0 <=? y) && (y mod 16 <=? 4) && (y / 16 <=? 4) &&
    (step3 0x0F y =? bits_set 8 b) && (0 <=? bits_set 8 b) && (bits_set 8 b <=? 8))
    ltac:(vm_compute; reflexivity) b Hb) as H.
  cbv zeta in H. rewrite !andb_true_iff, !Z.leb_le, !Z.ltb_lt, Z.eqb_eq in H.
  pow2_consts. tauto.
Qed.

Lemma nibbles4_byte b : nibbles4 b -> byte b.
Proof. unfold nibbles4, byte. dlia. Qed.

Lemma steps_bytes w l (W := 8 * Z.of_nat (length l)) : W = w -> Forall byte l ->
  let x := uw w (step1 (mask 0x55 l) (of_bytes l)) in
  let y := uw w (step2 (mask 0x33 l) x) in
  Z.land (uw w (y + Z.shiftr y 4)) (mask 0x0F l) = of_bytes (bits_set 8 <$> l).
Proof.
  intros <- Hl. cbv zeta.
  assert (H1 : Forall byte (step1 0x55 <$> l))
    by (eapply Forall_fmap_imp; [|done]; apply byte_steps).
  assert (H2 : Forall nibbles4 (step2 0x33 <$> (step1 0x55 <$> l))).
  { rewrite <- list_fmap_compose. eapply Forall_fmap_imp; [|done]. apply byte_steps. }
  assert (H2b : Forall byte (step2 0x33 <$> (step1 0x55 <$> l)))
    by (eapply Forall_impl; [|exact H2]; apply nibbles4_byte).
  assert (Hmask : forall c (f : Z -> Z) k, mask c (f <$> k) = mask c k)
    by (intros c f k; unfold mask; rewrite <- list_fmap_compose; done).
  pose proof (of_bytes_range _ H1) as R1. pose proof (of_bytes_range _ H2b) as R2.
  rewrite length_fmap in R1. rewrite !length_fmap in R2.
  rewrite step1_bytes, (uw_small _ (of_bytes (step1 _ <$> l))) by done.
  rewrite <- (Hmask 0x33 (step1 0x55) l), step2_bytes by done.
  rewrite (uw_small _ (of_bytes (step2 _ <$> _))) by done.
  destruct (step3_bytes _ H2) as [H3 _]. unfold step3 in H3.
  rewrite !Hmask in H3.
  set (y := of_bytes (step2 0x33 <$> (step1 0x55 <$> l))) in *.
  transitivity (Z.land (y + Z.shiftr y 4) (mask 0x0F l)).
  - assert (HM : in_u W (mask 0x0F l)).
    { unfold in_u, W. rewrite <- (length_fmap (fun _ : Z => 15) l).
      apply of_bytes_range. eapply Forall_fmap_imp; [|done]. unfold byte. cbv beta. lia. }
    unfold in_u in HM. bitwise.
  - rewrite H3. f_equal. rewrite <- !list_fmap_compose.
    apply list_fmap_ext. intros i b Hi. apply byte_steps.
    exact (Forall_lookup_1 _ _ _ _ Hl Hi).
Qed.
End popcount.

(** The tail of the count adds the bytes together. *)
Ltac bytes_lia :=
  repeat (apply List.Forall_cons; [unfold byte; pow2_consts; lia|]); apply List.Forall_nil.

Lemma sum_bytes_step w (k : nat) l l' : Forall byte l -> Forall byte l' ->
  w = 8 * Z.of_nat (length l') -> of_bytes l + of_bytes (drop k l) = of_bytes l' ->
  uw w (of_bytes l + Z.shiftr (of_bytes l) (8 * Z.of_nat k)) = of_bytes l'.
Proof.
  intros Hl Hl' -> Hs. rewrite of_bytes_shiftr, Hs by done.
  by apply uw_small, of_bytes_range.
Qed.

Definition sum64 (x : Z) : Z :=
  let a := u64 (x + Z.shiftr x 32) in
  let a := u64 (a + Z.shiftr a 16) in
  Z.land (u64 (a + Z.shiftr a 8)) 127.

Definition sum32 (x : Z) : Z :=
  let a := u32 (x + Z.shiftr x 16) in
  Z.land (u32 (a + Z.shiftr a 8)) 63.

Lemma sum_bytes_64 c0 c1 c2 c3 c4 c5 c6 c7 (l := [c0; c1; c2; c3; c4; c5; c6; c7]) :
  Forall (fun c => 0 <= c <= 8) l ->
  sum64 (of_bytes l) = foldr Z.add 0 l.
Proof.
  intros Hc. unfold sum64, l in *. rewrite !Forall_cons_iff in Hc. cbv zeta.
  rewrite (sum_bytes_step 64 4 _ [c0+c4; c1+c5; c2+c6; c3+c7; c4; c5; c6; c7]);
    [|bytes_lia|bytes_lia|done|cbn [drop of_bytes]; ring].
  rewrite (sum_bytes_step 64 2 _ [c0+c4+c2+c6; c1+c5+c3+c7; c2+c6+c4; c3+c7+c5; c4+c6; c5+c7; c6; c7]);
    [|bytes_lia|bytes_lia|done|cbn [drop of_bytes]; ring].
  rewrite (sum_bytes_step 64 1 _ [c0+c4+c2+c6+(c1+c5+c3+c7); c1+c5+c3+c7+(c2+c6+c4);
     c2+c6+c4+(c3+c7+c5); c3+c7+c5+(c4+c6); c4+c6+(c5+c7); c5+c7+c6; c6+c7; c7]);
    [|bytes_lia|bytes_lia|done|cbn [drop of_bytes]; ring].
  change 127 with (2 ^ 7 - 1). rewrite land_low_mask by lia. cbn [of_bytes foldr].
  change (2 ^ 8) with (2 * 2 ^ 7). rewrite Z.mul_assoc, Z.mod_add by lia.
  rewrite Z.mod_small; lia.
Qed.

Lemma sum_bytes_32 c0 c1 c2 c3 (l := [c0; c1; c2; c3]) :
  Forall (fun c => 0 <= c <= 8) l ->
  sum32 (of_bytes l) = foldr Z.add 0 l.
Proof.
  intros Hc. unfold sum32, l in *. rewrite !Forall_cons_iff in Hc. cbv zeta.
  rewrite (sum_bytes_step 32 2 _ [c0+c2; c1+c3; c2; c3]);
    [|bytes_lia|bytes_lia|done|cbn [drop of_bytes]; ring].
  rewrite (sum_bytes_step 32 1 _ [c0+c2+(c1+c3); c1+c3+c2; c2+c3; c3]);
    [|bytes_lia|bytes_lia|done|cbn [drop of_bytes]; ring].
  change 63 with (2 ^ 6 - 1). rewrite land_low_mask by lia. cbn [of_bytes foldr].
  change (2 ^ 8) with (4 * 2 ^ 6). rewrite Z.mul_assoc, Z.mod_add by lia.
  rewrite Z.mod_small; lia.
Qed.

Lemma popcountdi2_split a : popcountdi2 a = sum64
  (let a := u64 (a - Z.land (Z.shiftr a 1) 0x5555555555555555) in
   let a := u64 (Z.land (Z.shiftr a 2) 0x3333333333333333 + Z.land a 0x3333333333333333) in
   Z.land (u64 (a + Z.shiftr a 4)) 0x0F0F0F0F0F0F0F0F).
Proof. cbv beta zeta delta [popcountdi2 sum64]. reflexivity. Qed.

Lemma popcountsi2_split a : popcountsi2 a = sum32
  (let a := u32 (a - Z.land (Z.shiftr a 1) 0x55555555) in
   let a := u32 (Z.land (Z.shiftr a 2) 0x33333333 + Z.land a 0x33333333) in
   Z.land (u32 (a + Z.shiftr a 4)) 0x0F0F0F0F).
Proof. cbv beta zeta delta [popcountsi2 sum32]. reflexivity. Qed.

Lemma popcountdi2_correct a : in_u 64 a -> popcountdi2 a = bits_set 64 a.
Proof.
  intros Ha. destruct (of_bytes_split 8 a Ha) as (l & Hn & Hl & ->).
  pose proof (steps_bytes 64 l ltac:(by rewrite Hn) Hl) as Hs. cbv zeta in Hs.
  pose proof (bits_set_bytes l Hl) as Hb. rewrite Hn in Hb.
  change (8 * 8)%nat with 64%nat in Hb. rewrite Hb.
  assert (Hc : Forall (fun c => 0 <= c <= 8) (bits_set 8 <$> l))
    by (eapply Forall_fmap_imp; [|done]; apply byte_steps).
  do 8 (destruct l as [|? l]; [done|]). destruct l; [|done].
  match type of Hl with Forall _ ?l =>
    assert (H5 : 0x5555555555555555 = mask 0x55 l) by reflexivity;
    assert (H3 : 0x3333333333333333 = mask 0x33 l) by reflexivity;
    assert (HF : 0x0F0F0F0F0F0F0F0F = mask 0x0F l) by reflexivity end.
  rewrite popcountdi2_split. cbv zeta. rewrite H5, H3, HF. unfold step1, step2 in Hs.
  rewrite Hs. exact (sum_bytes_64 _ _ _ _ _ _ _ _ Hc).
Qed.

Lemma popcountsi2_correct a : in_u 32 a -> popcountsi2 a = bits_set 32 a.
Proof.
  intros Ha. destruct (of_bytes_split 4 a Ha) as (l & Hn & Hl & ->).
  pose proof (steps_bytes 32 l ltac:(by rewrite Hn) Hl) as Hs. cbv zeta in Hs.
  pose proof (bits_set_bytes l Hl) as Hb. rewrite Hn in Hb.
  change (8 * 4)%nat with 32%nat in Hb. rewrite Hb.
  assert (Hc : Forall (fun c => 0 <= c <= 8) (bits_set 8 <$> l))
    by (eapply Forall_fmap_imp; [|done]; apply byte_steps).
  do 4 (destruct l as [|? l]; [done|]). destruct l; [|done].
  match type of Hl with Forall _ ?l =>
    assert (H5 : 0x55555555 = mask 0x55 l) by reflexivity;
    assert (H3 : 0x33333333 = mask 0x33 l) by reflexivity;
    assert (HF : 0x0F0F0F0F = mask 0x0F l) by reflexivity end.
  rewrite popcountsi2_split. cbv zeta. rewrite H5, H3, HF. unfold step1, step2 in Hs.
  rewrite Hs. exact (sum_bytes_32 _ _ _ _ Hc).
Qed.

(** ** Shift-and-subtract division on arm *)

Section udivmod.
Lemma udivmod_align_spec num d (fuel : nat) k0 :
  0 < d -> 0 <= k0 -> d * 2 ^ k0 < 2 ^ 64 -> 64 <= k0 + Z.of_nat fuel ->
  exists k, udivmod_align fuel num (d * 2 ^ k0) (2 ^ k0) = (d * 2 ^ k, 2 ^ k) /\
    0 <= k < 64 /\ d * 2 ^ k < 2 ^ 64 /\ (num <= d * 2 ^ k \/ 2 ^ 63 <= d * 2 ^ k).
Proof.
  intros Hd. revert k0. induction fuel as [|fuel IH]; intros k0 Hk Hlt Hf.
  - assert (2 ^ 64 <= 2 ^ k0) by (apply Z.pow_le_mono_r; lia). nia.
  - cbn [udivmod_align]. assert (0 < 2 ^ k0) by (apply Z.pow_pos_nonneg; lia).
    assert (k0 < 64) by (apply (Z.pow_lt_mono_r_iff 2); nia).
    change (Z.shiftl 1 63) with ((2 ^ 1 - 1) * 2 ^ (64 - 1)).
    rewrite land_high_mask by nia.
    destruct (Z.ltb_spec (d * 2 ^ k0) num), (Z.ltb_spec (d * 2 ^ k0) (2 ^ (64 - 1)));
      cbn [andb]; try (exists k0; split_and!; try done; lia).
    assert (Hs : 2 ^ (k0 + 1) = 2 ^ k0 * 2) by (rewrite Z.pow_add_r; lia).
    assert (2 ^ 64 = 2 * 2 ^ (64 - 1)) by done.
    destruct (IH (k0 + 1)) as (k & Hk' & ?); [lia|nia|lia|].
    exists k. split; [|done]. rewrite <- Hk'. f_equal.
    + rewrite Z.shiftl_mul_pow2, uw_small by nia. rewrite Hs. ring.
    + rewrite Z.shiftl_mul_pow2, uw_small by nia. rewrite Hs. ring.
Qed.

Lemma udivmod_subtract_spec d (fuel : nat) k num q :
  0 < d -> (k < fuel)%nat -> 0 <= num < 2 * (d * 2 ^ Z.of_nat k) ->
  d * 2 ^ Z.of_nat k < 2 ^ 64 ->
  udivmod_subtract (S fuel) num (d * 2 ^ Z.of_nat k) (2 ^ Z.of_nat k) (q * 2 ^ (Z.of_nat k + 1))
    = (q * 2 ^ (Z.of_nat k + 1) + num / d, num mod d).
Proof.
  intros Hd. revert fuel num q. induction k as [|k IH]; intros fuel num q Hf Hn Hlt.
  - destruct fuel as [|fuel]; [lia|].
    change (2 ^ Z.of_nat 0) with 1 in *. rewrite Z.mul_1_r in *.
    cbn [udivmod_subtract]. change (1 =? 0) with false. change (Z.shiftr 1 1 =? 0) with true.
    change (2 ^ (Z.of_nat 0 + 1)) with 2. cbv iota. rewrite (Z.mul_comm q), Z.geb_leb.
    destruct (Z.leb_spec d num).
    + rewrite lor_bit, uw_small by lia.
      replace (num / d) with 1 by (apply Z.div_unique with (num - d); lia).
      replace (num mod d) with (num - d) by (apply Z.mod_unique with 1; lia). done.
    + rewrite Z.div_small, Z.mod_small by lia. by rewrite Z.add_0_r.
  - destruct fuel as [|fuel]; [lia|].
    assert (Hp : 2 ^ Z.of_nat (S k) = 2 ^ Z.of_nat k * 2)
      by (rewrite Nat2Z.inj_succ, Z.pow_succ_r; lia).
    assert (0 < 2 ^ Z.of_nat k) by (apply Z.pow_pos_nonneg; lia).
    assert (Hr : Z.shiftr (2 ^ Z.of_nat (S k)) 1 = 2 ^ Z.of_nat k)
      by (rewrite Z.shiftr_div_pow2, Hp by lia; apply Z.div_mul; lia).
    assert (Hd2 : Z.shiftr (d * 2 ^ Z.of_nat (S k)) 1 = d * 2 ^ Z.of_nat k)
      by (rewrite Z.shiftr_div_pow2, Hp, Z.mul_assoc by lia; apply Z.div_mul; lia).
    remember (S fuel) as fuel' eqn:Hfuel. cbn [udivmod_subtract].
    destruct (Z.eqb_spec (2 ^ Z.of_nat (S k)) 0); [lia|].
    rewrite Hr, Hd2, Z.geb_leb. subst fuel'.
    replace (Z.of_nat (S k) + 1) with (Z.of_nat k + 1 + 1) in * by lia.
    assert (Hp2 : 2 ^ (Z.of_nat k + 1 + 1) = 2 * 2 ^ (Z.of_nat k + 1))
      by (rewrite Z.pow_add_r; lia).
    replace (Z.of_nat (S k)) with (Z.of_nat k + 1) in * by lia.
    destruct (Z.leb_spec (d * 2 ^ (Z.of_nat k + 1)) num).
    + rewrite uw_small by lia.
      replace (Z.lor (q * 2 ^ (Z.of_nat k + 1 + 1)) (2 ^ (Z.of_nat k + 1)))
        with ((2 * q + 1) * 2 ^ (Z.of_nat k + 1)).
      2:{ rewrite Z.lor_comm, <- (Z.shiftl_mul_pow2 q) by lia.
          rewrite lor_split by lia. rewrite Hp2. ring. }
      rewrite IH by lia. f_equal.
      * replace num with ((num - d * 2 ^ (Z.of_nat k + 1)) + 2 ^ (Z.of_nat k + 1) * d) at 2 by ring.
        rewrite Z.div_add by lia. rewrite Hp2. ring.
      * replace num with ((num - d * 2 ^ (Z.of_nat k + 1)) + 2 ^ (Z.of_nat k + 1) * d) at 2 by ring.
        by rewrite Z.mod_add by lia.
    + replace (q * 2 ^ (Z.of_nat k + 1 + 1)) with ((2 * q) * 2 ^ (Z.of_nat k + 1)) by (rewrite Hp2; ring).
      apply IH; lia.
Qed.
End udivmod.

Lemma udivmoddi4_correct num den : in_u 64 num -> in_u 64 den ->
  udivmoddi4 num den = if den =? 0 then (2 ^ 64 - 1, num) else (num / den, num mod den).
Proof.
  unfold in_u, udivmoddi4. intros Hn Hd. destruct (Z.eqb_spec den 0); [done|].
  destruct (udivmod_align_spec num den 64 0) as (k & Hk & Hk64 & Hlt & Hbig); [lia..|].
  change (2 ^ 0) with 1 in Hk. rewrite Z.mul_1_r in Hk. rewrite Hk.
  pose proof (udivmod_subtract_spec den 64 (Z.to_nat k) num 0) as Hs.
  rewrite Z2Nat.id, Z.mul_0_l, Z.add_0_l in Hs by lia. apply Hs; [lia|lia| |lia].
  pow2_consts. lia.
Qed.

(** ** The contracts of the compiler's support routines *)

(** C25: unsigned 64-bit division.  For all 64-bit [a] and [b], [__divmoddi4]
    terminates and returns the exact quotient and remainder, [__udivdi3] and
    [__umoddi3] their components; a zero divisor raises the divide error and
    returns nothing. *)
Theorem unsigned_division_correct a b : in_u 64 a -> in_u 64 b ->
  divmoddi4 a b = (if b =? 0 then None else Some (a / b, a mod b)) /\
  udivdi3 a b = (if b =? 0 then None else Some (a / b)) /\
  umoddi3 a b = (if b =? 0 then None else Some (a mod b)).
Proof.
  intros Ha Hb. unfold udivdi3, umoddi3. rewrite divmoddi4_correct by done.
  by destruct (b =? 0).
Qed.

Lemma unsigned_division_witness :
  divmoddi4 (2 ^ 64 - 1) (2 ^ 40 + 1) = Some (16777215, 1099494850560) /\
  udivdi3 (2 ^ 64 - 1) (2 ^ 40 + 1) = Some ((2 ^ 64 - 1) / (2 ^ 40 + 1)) /\
  umoddi3 (2 ^ 64 - 1) (2 ^ 40 + 1) = Some ((2 ^ 64 - 1) mod (2 ^ 40 + 1)).
Proof.
  apply (unsigned_division_correct (2 ^ 64 - 1) (2 ^ 40 + 1)); unfold in_u; lia.
Defined.

(** Signed 64-bit division.  [__divdi3] and [__moddi3] are C's truncating
    division and remainder on the signed values; the one quotient that does
    not fit ([LLONG_MIN / -1]) wraps around; a zero divisor raises the divide
    error. *)
Theorem signed_division_correct a b : in_u 64 a -> in_u 64 b ->
  option_map s64 (divdi3 a b)
    = (if b =? 0 then None else Some (s64 (Z.quot (s64 a) (s64 b)))) /\
  option_map s64 (moddi3 a b)
    = (if b =? 0 then None else Some (Z.rem (s64 a) (s64 b))).
Proof. split; [by apply divdi3_correct | by apply moddi3_correct]. Qed.

Lemma signed_division_witness :
  option_map s64 (divdi3 (u64 (-7)) 2) = Some (-3) /\
  option_map s64 (moddi3 (u64 (-7)) 2) = Some (-1).
Proof. apply (signed_division_correct (u64 (-7)) 2); unfold in_u; vm_compute; done. Defined.

(** 64-bit shifts built from 32-bit halves.  For every shift count (taken
    modulo 64, as the code masks it) [__ashldi3] is the left shift modulo
    [2^64], [__lshrdi3] the logical and [__ashrdi3] the arithmetic right
    shift. *)
Theorem shifts_correct a b : in_u 64 a ->
  ashldi3 a b = u64 (Z.shiftl a (b mod 64)) /\
  lshrdi3 a b = Z.shiftr a (b mod 64) /\
  s64 (ashrdi3 a b) = Z.shiftr (s64 a) (b mod 64).
Proof.
  intros Ha. split_and!; [by apply ashldi3_correct|by apply lshrdi3_correct|
    by apply ashrdi3_correct].
Qed.

Lemma shifts_witness :
  ashldi3 (2 ^ 63 + 5) 33 = u64 (Z.shiftl (2 ^ 63 + 5) 33) /\
  lshrdi3 (2 ^ 63 + 5) 33 = 2 ^ 30 /\
  s64 (ashrdi3 (2 ^ 63 + 5) 33) = - 2 ^ 30.
Proof. apply (shifts_correct (2 ^ 63 + 5) 33); unfold in_u; lia. Defined.

(** Bit counts.  On nonzero words [__clzdi2] and [__clzsi2] give the
    number of leading zeros, [__ctzdi2], [__ctzsi2] the position of the lowest
    set bit and [__ffsdi2] one more than it; the parallel sums of
    [__popcountdi2] and [__popcountsi2] count the set bits of every word. *)
Theorem bit_counts_correct a c : 0 < a < 2 ^ 64 -> 0 < c < 2 ^ 32 ->
  clzdi2 a = 63 - Z.log2 a /\ clzsi2 c = 31 - Z.log2 c /\
  lowest_bit a (ctzdi2 a) /\ lowest_bit c (ctzsi2 c) /\
  lowest_bit a (ffsdi2 a - 1) /\ ffsdi2 0 = 0 /\
  popcountdi2 a = bits_set 64 a /\ popcountsi2 c = bits_set 32 c.
Proof.
  intros Ha Hc. unfold ffsdi2 at 1. destruct (Z.eqb_spec a 0); [lia|]. cbn [negb].
  replace (ctzdi2 a + 1 - 1) with (ctzdi2 a) by lia.
  refine (conj _ (conj _ (conj _ (conj _ (conj _ (conj _ (conj _ _))))))); [..|done| |];
    auto using clzdi2_log2, clzsi2_log2, ctzdi2_lowest, ctzsi2_lowest.
  - apply popcountdi2_correct. unfold in_u; lia.
  - apply popcountsi2_correct. unfold in_u; lia.
Qed.

Lemma bit_counts_witness :
  clzdi2 (2 ^ 40) = 63 - Z.log2 (2 ^ 40) /\ clzsi2 6 = 31 - Z.log2 6 /\
  lowest_bit (2 ^ 40) (ctzdi2 (2 ^ 40)) /\ lowest_bit 6 (ctzsi2 6) /\
  lowest_bit (2 ^ 40) (ffsdi2 (2 ^ 40) - 1) /\ ffsdi2 0 = 0 /\
  popcountdi2 (2 ^ 40) = bits_set 64 (2 ^ 40) /\ popcountsi2 6 = bits_set 32 6.
Proof. apply (bit_counts_correct (2 ^ 40) 6); lia. Defined.

(** The arm division.  The shift-and-subtract loops of [__udivmoddi4]
    terminate within 64 turns each and return quotient and remainder; unlike
    the i386 routine a zero divisor gives all ones and the numerator.
    [__aeabi_uldivmod] returns the same pair. *)
Theorem arm_division_correct num den : in_u 64 num -> in_u 64 den ->
  udivmoddi4 num den = (if den =? 0 then (2 ^ 64 - 1, num) else (num / den, num mod den)) /\
  aeabi_uldivmod num den = udivmoddi4 num den.
Proof. intros. split; [by apply udivmoddi4_correct|done]. Qed.

Lemma arm_division_witness :
  udivmoddi4 1000 7 = (142, 6) /\ aeabi_uldivmod 1000 7 = udivmoddi4 1000 7.
Proof. apply (arm_division_correct 1000 7); unfold in_u; lia. Defined.

(** The packed result of [__aeabi_uidivmod] can only be taken apart when the
    remainder fits in the low half: above that the quotient is disturbed. *)
Lemma aeabi_uidivmod_pack n d : in_u 32 n -> 0 < d -> n / d < 2 ^ 16 -> n mod d < 2 ^ 16 ->
  aeabi_uidivmod n d = Some (n / d * 2 ^ 16 + n mod d).
Proof.
  intros Hn Hd Hq Hr. unfold aeabi_uidivmod, in_u in *. destruct (Z.eqb_spec d 0); [lia|].
  assert (0 <= n / d) by (apply Z.div_pos; lia).
  pose proof (Z.mod_pos_bound n d Hd).
  rewrite uw_small by (rewrite Z.shiftl_mul_pow2 by lia; pow2_consts; lia).
  rewrite Z.lor_comm, lor_split by lia. f_equal. lia.
Qed.

Example aeabi_uidivmod_disturbed : aeabi_uidivmod 100000 100001 = Some (100000).
Proof. reflexivity. Qed.
