(* ===== verification/CMem.v ===== *)
(** * The memory that the C code runs on

    A flat byte memory with the mapped addresses as its domain, the outcome of
    a piece of C code on it, and the predicates in which the theorems about
    strings and buffers are stated.

    Reading or writing an unmapped address faults.  Loops without a counter
    run on fuel; [loop_fuel m] is one more than the number of mapped bytes,
    which bounds every loop that touches a fresh byte in each turn. *)

From S2P Require Import Prelude.

(** ** Outcomes *)

Inductive outcome (A : Type) : Type :=
| Ret (a : A)
| Fault
| OutOfFuel.
Arguments Ret {A} a.
Arguments Fault {A}.
Arguments OutOfFuel {A}.

Definition obind {A B} (o : outcome A) (f : A -> outcome B) : outcome B :=
  match o with
  | Ret a => f a
  | Fault => Fault
  | OutOfFuel => OutOfFuel
  end.

Declare Scope c_scope.
Delimit Scope c_scope with c.
Notation "'let!' x := e 'in' k" := (obind e (fun x => k))
  (at level 200, x pattern, e at level 100, k at level 200, right associativity) : c_scope.
Open Scope c_scope.

(** ** Memory *)

Abbreviation mem := (gmap Z Z).

Definition load8 (m : mem) (a : Z) : outcome Z :=
  match m !! a with Some b => Ret b | None => Fault end.

Definition store8 (m : mem) (a v : Z) : outcome mem :=
  match m !! a with Some _ => Ret (<[a := u8 v]> m) | None => Fault end.

(** Accesses of [n] bytes, for the 16, 32 and 64-bit types. *)
Fixpoint load_bytes (m : mem) (a : Z) (n : nat) : outcome (list Z) :=
  match n with
  | O => Ret []
  | S n => let! b := load8 m a in let! l := load_bytes m (a + 1) n in Ret (b :: l)
  end.

Fixpoint store_bytes (m : mem) (a : Z) (l : list Z) : outcome mem :=
  match l with
  | [] => Ret m
  | b :: l => let! m := store8 m a b in store_bytes m (a + 1) l
  end.

Definition load_le (m : mem) (a : Z) (n : nat) : outcome Z :=
  let! l := load_bytes m a n in Ret (of_bytes l).

Definition store_le (m : mem) (a : Z) (n : nat) (v : Z) : outcome mem :=
  store_bytes m a (le_bytes n v).

Definition loop_fuel (m : mem) : nat := S (size m).

(** ** Predicates on memories *)

(** The memory holds the bytes [l] from address [a] on. *)
Definition bytes_at (m : mem) (a : Z) (l : list Z) : Prop :=
  Forall byte l /\ forall (i : nat) b, l !! i = Some b -> m !! (a + Z.of_nat i) = Some b.

(** The [n] addresses from [a] on are mapped. *)
Definition mapped (m : mem) (a n : Z) : Prop :=
  forall i, 0 <= i < n -> is_Some (m !! (a + i)).

(** A C string: its characters, none of them NUL, and the terminator. *)
Definition cstr (m : mem) (a : Z) (l : list Z) : Prop :=
  bytes_at m a (l ++ [0]) /\ 0 ∉ l.

(** The memory after the bytes [l] have been put at [a]. *)
Fixpoint write_bytes (m : mem) (a : Z) (l : list Z) : mem :=
  match l with
  | [] => m
  | b :: l => write_bytes (<[a := b]> m) (a + 1) l
  end.

Definition disjoint_range (a n b k : Z) : Prop := a + n <= b \/ b + k <= a.

(** ** Laws *)

Lemma list_split_at {A} (l : list A) n : (n <= length l)%nat ->
  exists l1 l2, l = l1 ++ l2 /\ length l1 = n.
Proof.
  intros Hn. exists (take n l), (drop n l). rewrite take_drop. split; [done|].
  rewrite length_take. lia.
Qed.

Section writes.
Implicit Types (m : mem) (a : Z) (l : list Z).

Lemma lookup_write_bytes m a l x :
  write_bytes m a l !! x
    = if decide (a <= x < a + Z.of_nat (length l)) then l !! Z.to_nat (x - a) else m !! x.
Proof.
  revert m a. induction l as [|b l IH]; intros m a; cbn [write_bytes length].
  { case_decide; [lia|done]. }
  rewrite IH. destruct (decide (x = a)) as [->|Hne].
  - rewrite decide_False by lia. rewrite lookup_insert_eq, decide_True by lia.
    by replace (Z.to_nat (a - a)) with 0%nat by lia.
  - rewrite lookup_insert_ne by done. repeat case_decide; try lia; [|done].
    by replace (Z.to_nat (x - a)) with (S (Z.to_nat (x - (a + 1)))) by lia.
Qed.

Lemma lookup_write_bytes_out m a l x :
  x < a \/ a + Z.of_nat (length l) <= x -> write_bytes m a l !! x = m !! x.
Proof. intros H. rewrite lookup_write_bytes. by rewrite decide_False by lia. Qed.

Lemma write_bytes_app m a l1 l2 :
  write_bytes m a (l1 ++ l2) = write_bytes (write_bytes m a l1) (a + Z.of_nat (length l1)) l2.
Proof.
  revert m a. induction l1 as [|b l1 IH]; intros m a; cbn [app write_bytes length].
  - by rewrite Z.add_0_r.
  - rewrite IH. f_equal. lia.
Qed.

Lemma bytes_at_byte m a l : bytes_at m a l -> Forall byte l.
Proof. by intros []. Qed.

Lemma bytes_at_lookup m a l (i : nat) b :
  bytes_at m a l -> l !! i = Some b -> m !! (a + Z.of_nat i) = Some b.
Proof. intros [_ H]. apply H. Qed.

Lemma bytes_at_lookup_Z m a l x b :
  bytes_at m a l -> a <= x -> l !! Z.to_nat (x - a) = Some b -> m !! x = Some b.
Proof.
  intros H Hx Hb. replace x with (a + Z.of_nat (Z.to_nat (x - a))) by lia.
  by apply (bytes_at_lookup _ _ _ _ _ H).
Qed.

Lemma bytes_at_cons m a b l :
  bytes_at m a (b :: l) <-> byte b /\ m !! a = Some b /\ bytes_at m (a + 1) l.
Proof.
  unfold bytes_at. rewrite Forall_cons_iff. split.
  - intros [[Hb Hl] H]. split_and!; [done| |done|].
    + specialize (H 0%nat b eq_refl). by rewrite Z.add_0_r in H.
    + intros i c Hc. specialize (H (S i) c Hc). by replace (a + 1 + Z.of_nat i) with (a + Z.of_nat (S i)) by lia.
  - intros (Hb & H0 & Hl & H). split; [done|]. intros [|i] c Hc.
    + injection Hc as <-. by rewrite Z.add_0_r.
    + replace (a + Z.of_nat (S i)) with (a + 1 + Z.of_nat i) by lia. by apply H.
Qed.

Lemma bytes_at_app m a l1 l2 :
  bytes_at m a (l1 ++ l2) <-> bytes_at m a l1 /\ bytes_at m (a + Z.of_nat (length l1)) l2.
Proof.
  revert a. induction l1 as [|b l1 IH]; intros a; cbn [app length].
  - rewrite Z.add_0_r. split; [|by intros []]. intros H. split; [|done].
    split; [constructor|]. intros i c Hc. done.
  - rewrite !bytes_at_cons, IH.
    replace (a + 1 + Z.of_nat (length l1)) with (a + Z.of_nat (S (length l1))) by lia. tauto.
Qed.

Lemma bytes_at_nil m a : bytes_at m a [].
Proof. split; [constructor|]. by intros i b Hi. Qed.

Lemma bytes_at_mapped m a l : bytes_at m a l -> mapped m a (Z.of_nat (length l)).
Proof.
  intros H i Hi. destruct (lookup_lt_is_Some_2 l (Z.to_nat i)) as [b Hb]; [lia|].
  exists b. replace (a + i) with (a + Z.of_nat (Z.to_nat i)) by lia.
  by apply (bytes_at_lookup _ _ _ _ _ H).
Qed.

Lemma bytes_at_ext m m' a l :
  (forall x, a <= x < a + Z.of_nat (length l) -> m' !! x = m !! x) ->
  bytes_at m a l -> bytes_at m' a l.
Proof.
  intros Hx [Hl H]. split; [done|]. intros i b Hb. rewrite Hx; [by apply H|].
  apply lookup_lt_Some in Hb. lia.
Qed.

Lemma bytes_at_write_out m a l b k :
  disjoint_range a (Z.of_nat (length l)) b (Z.of_nat (length k)) ->
  bytes_at m a l -> bytes_at (write_bytes m b k) a l.
Proof.
  intros Hd. apply bytes_at_ext. intros x Hx. apply lookup_write_bytes_out.
  unfold disjoint_range in Hd. lia.
Qed.

Lemma bytes_at_write m a l : Forall byte l -> bytes_at (write_bytes m a l) a l.
Proof.
  intros Hl. split; [done|]. intros i b Hb. rewrite lookup_write_bytes.
  pose proof (lookup_lt_Some _ _ _ Hb). rewrite decide_True by lia.
  by replace (Z.to_nat (a + Z.of_nat i - a)) with i by lia.
Qed.

Lemma mapped_write m a l b n : mapped m b n -> mapped (write_bytes m a l) b n.
Proof.
  intros H i Hi. rewrite lookup_write_bytes. case_decide; [|by apply H].
  apply lookup_lt_is_Some_2. lia.
Qed.

Lemma mapped_split m a n k : 0 <= k <= n -> mapped m a n <-> mapped m a k /\ mapped m (a + k) (n - k).
Proof.
  intros Hk. split.
  - intros H. split; intros i Hi; [apply H; lia|].
    replace (a + k + i) with (a + (k + i)) by lia. apply H. lia.
  - intros [H1 H2] i Hi. destruct (Z_lt_le_dec i k); [apply H1; lia|].
    replace (a + i) with (a + k + (i - k)) by lia. apply H2. lia.
Qed.

Lemma mapped_sub m a n b k : mapped m a n -> a <= b -> b + k <= a + n -> mapped m b k.
Proof.
  intros H Hb Hk i Hi. replace (b + i) with (a + (b - a + i)) by lia. apply H. lia.
Qed.

(** Writing back what is there changes nothing. *)
Lemma write_bytes_id m a l : bytes_at m a l -> write_bytes m a l = m.
Proof.
  intros H. apply map_eq. intros x. rewrite lookup_write_bytes. case_decide; [|done].
  destruct (lookup_lt_is_Some_2 l (Z.to_nat (x - a))) as [b Hb]; [lia|].
  rewrite Hb. symmetry. apply (bytes_at_lookup_Z _ _ _ _ _ H); [lia|done].
Qed.

(** A string cannot be longer than the memory that holds it. *)
Lemma size_write_fresh m a l :
  (forall i, 0 <= i < Z.of_nat (length l) -> m !! (a + i) = None) ->
  size (write_bytes m a l) = (size m + length l)%nat.
Proof.
  revert m a. induction l as [|b l IH]; intros m a H; cbn [write_bytes length]; [lia|].
  rewrite IH.
  - rewrite map_size_insert_None; [lia|].
    specialize (H 0). rewrite Z.add_0_r in H. apply H. cbn [length]. lia.
  - intros i Hi. rewrite lookup_insert_ne by lia.
    replace (a + 1 + i) with (a + (i + 1)) by lia. apply H. cbn [length]. lia.
Qed.

Lemma bytes_at_size m a l : bytes_at m a l -> (length l <= size m)%nat.
Proof.
  intros H. assert (write_bytes ∅ a l ⊆ m) as Hsub.
  { apply map_subseteq_spec. intros x b. rewrite lookup_write_bytes.
    case_decide; [|by rewrite lookup_empty]. intros Hb.
    apply (bytes_at_lookup_Z _ _ _ _ _ H); [lia|done]. }
  apply map_subseteq_size in Hsub. rewrite size_write_fresh in Hsub.
  - rewrite map_size_empty in Hsub. lia.
  - intros i _. apply lookup_empty.
Qed.

(** Different mapped addresses are no more than the memory has. *)
Lemma addresses_size m (l : list Z) : NoDup l -> Forall (fun x => is_Some (m !! x)) l -> (length l <= size m)%nat.
Proof.
  intros Hd Hm. rewrite <- size_dom, <- (size_list_to_set (C := gset Z) l Hd). apply subseteq_size.
  intros x. rewrite elem_of_list_to_set, elem_of_dom. by apply (proj1 (list.Forall_forall _ _) Hm).
Qed.

Lemma cstr_fuel m a l : cstr m a l -> (length l < loop_fuel m)%nat.
Proof.
  intros [H _]. apply bytes_at_size in H. rewrite length_app in H. unfold loop_fuel. cbn in H. lia.
Qed.
End writes.

Section accesses.
Implicit Types (m : mem) (a : Z) (l : list Z).

Lemma load8_bytes m a b l : bytes_at m a (b :: l) -> load8 m a = Ret b.
Proof. intros (_ & H & _)%bytes_at_cons. unfold load8. by rewrite H. Qed.

Lemma load8_at m a l (i : nat) b : bytes_at m a l -> l !! i = Some b ->
  load8 m (a + Z.of_nat i) = Ret b.
Proof. intros H Hb. unfold load8. by rewrite (bytes_at_lookup _ _ _ _ _ H Hb). Qed.

Lemma store8_mapped m a n v : mapped m a n -> 0 < n -> byte v -> store8 m a v = Ret (<[a := v]> m).
Proof.
  intros H Hn Hv. unfold store8. destruct (H 0) as [b Hb]; [lia|].
  rewrite Z.add_0_r in Hb. rewrite Hb. by rewrite uw_small.
Qed.

Lemma load_bytes_at m a l : bytes_at m a l -> load_bytes m a (length l) = Ret l.
Proof.
  revert a. induction l as [|b l IH]; intros a H; cbn [length load_bytes]; [done|].
  rewrite (load8_bytes _ _ _ _ H). cbn [obind].
  apply bytes_at_cons in H as (_ & _ & H). by rewrite IH.
Qed.

Lemma store_bytes_mapped m a l : Forall byte l -> mapped m a (Z.of_nat (length l)) ->
  store_bytes m a l = Ret (write_bytes m a l).
Proof.
  intros Hl. revert m a. induction Hl as [|b l Hb Hl IH]; intros m a Hm;
    cbn [length store_bytes write_bytes]; [done|].
  rewrite (store8_mapped _ _ _ _ Hm) by (cbn [length]; lia || done). cbn [obind].
  apply IH. change (<[a := b]> m) with (write_bytes m a [b]). apply mapped_write.
  cbn [length] in Hm. apply (mapped_sub _ _ _ _ _ Hm); lia.
Qed.

(** A word read and written back elsewhere moves its bytes. *)
Lemma load_le_at m a l n : length l = n -> bytes_at m a l -> load_le m a n = Ret (of_bytes l).
Proof. intros <- H. unfold load_le. by rewrite load_bytes_at. Qed.

Lemma store_le_at m a l n : length l = n -> Forall byte l -> mapped m a (Z.of_nat n) ->
  store_le m a n (of_bytes l) = Ret (write_bytes m a l).
Proof.
  intros <- Hl Hm. unfold store_le. rewrite le_bytes_of_bytes by done. by apply store_bytes_mapped.
Qed.
End accesses.

#[export] Hint Resolve bytes_at_byte bytes_at_nil bytes_at_mapped mapped_write : fnx.

(** Decide an equality of memories address by address. *)
Ltac mem_ext :=
  apply map_eq; let x := fresh "x" in intros x;
  rewrite ?lookup_write_bytes; repeat case_decide; try lia; try done.

(** Normalise list lengths in hypotheses and goal. *)
Ltac lens := rewrite ?length_app, ?length_take, ?length_drop, ?length_replicate,
  ?length_fmap, ?length_cons, ?length_nil in *.

(** ** Copy loops

    The loops that the copying functions of the kernel and the C library share. *)

(** [while (n--) *dest++ = *src++;] *)
Fixpoint copy_up (n : nat) (m : mem) (dest src : Z) : outcome mem :=
  match n with
  | O => Ret m
  | S n =>
      let! b := load8 m src in
      let! m := store8 m dest b in
      copy_up n m (dest + 1) (src + 1)
  end.

(** [while (n--) *--dest = *--src;] *)
Fixpoint copy_down (n : nat) (m : mem) (dest src : Z) : outcome mem :=
  match n with
  | O => Ret m
  | S n =>
      let! b := load8 m (src - 1) in
      let! m := store8 m (dest - 1) b in
      copy_down n m (dest - 1) (src - 1)
  end.

(** [k] words of [w] bytes, one after the other. *)
Fixpoint copy_words (w k : nat) (m : mem) (dest src : Z) : outcome mem :=
  match k with
  | O => Ret m
  | S k =>
      let! v := load_le m src w in
      let! m := store_le m dest w v in
      copy_words w k m (dest + Z.of_nat w) (src + Z.of_nat w)
  end.

Section blocks.
Implicit Types (m : mem) (l : list Z).

Lemma insert_write_bytes m a l x b :
  x < a \/ a + Z.of_nat (length l) <= x ->
  write_bytes (<[x := b]> m) a l = <[x := b]> (write_bytes m a l).
Proof.
  intros Hx. apply map_eq. intros y. rewrite lookup_write_bytes.
  destruct (decide (x = y)) as [<-|].
  - by rewrite decide_False, !lookup_insert_eq by lia.
  - by rewrite !lookup_insert_ne, lookup_write_bytes by done.
Qed.

(** An ascending copy is right when the destination does not start inside the
    source, a descending one when it does not end inside it. *)
Lemma copy_up_spec m d s l :
  bytes_at m s l -> mapped m d (Z.of_nat (length l)) ->
  d <= s \/ s + Z.of_nat (length l) <= d ->
  copy_up (length l) m d s = Ret (write_bytes m d l).
Proof.
  revert m d s. induction l as [|b l IH]; intros m d s Hs Hd Ho; [done|].
  cbn [length copy_up write_bytes] in *. rewrite (load8_bytes _ _ _ _ Hs). cbn [obind].
  apply bytes_at_cons in Hs as (Hb & _ & Hs).
  rewrite (store8_mapped _ _ _ _ Hd) by (lia || done). cbn [obind].
  change (<[d := b]> m) with (write_bytes m d [b]). apply IH.
  - apply bytes_at_write_out; [|done]. unfold disjoint_range. cbn [length]. lia.
  - apply mapped_write. apply (mapped_sub _ _ _ _ _ Hd); lia.
  - lia.
Qed.

Lemma copy_down_spec m d s l :
  bytes_at m s l -> mapped m d (Z.of_nat (length l)) ->
  s <= d \/ d + Z.of_nat (length l) <= s ->
  copy_down (length l) m (d + Z.of_nat (length l)) (s + Z.of_nat (length l))
    = Ret (write_bytes m d l).
Proof.
  revert m. induction l as [|b l IH] using rev_ind; intros m Hs Hd Ho; [done|].
  rewrite length_app in *. cbn [length] in *. rewrite Nat.add_1_r in *. cbn [copy_down].
  apply bytes_at_app in Hs as [Hs Hb].
  replace (s + Z.of_nat (S (length l)) - 1) with (s + Z.of_nat (length l)) by lia.
  replace (d + Z.of_nat (S (length l)) - 1) with (d + Z.of_nat (length l)) by lia.
  rewrite (load8_bytes _ _ _ _ Hb). cbn [obind].
  apply bytes_at_cons in Hb as (Hb & _ & _).
  rewrite (store8_mapped _ _ 1) by (lia || done || (apply (mapped_sub _ _ _ _ _ Hd); lia)).
  cbn [obind]. change (<[?a := b]> m) with (write_bytes m a [b]). rewrite IH.
  - rewrite write_bytes_app. cbn [write_bytes]. f_equal. apply insert_write_bytes. lia.
  - apply bytes_at_write_out; [|done]. unfold disjoint_range. cbn [length]. lia.
  - apply mapped_write. apply (mapped_sub _ _ _ _ _ Hd); lia.
  - lia.
Qed.

Lemma copy_words_spec (w k : nat) m d s l :
  length l = (w * k)%nat -> bytes_at m s l -> mapped m d (Z.of_nat (length l)) ->
  ((0 < k)%nat -> d + Z.of_nat w <= s \/ s + Z.of_nat (length l) <= d) ->
  copy_words w k m d s = Ret (write_bytes m d l).
Proof.
  revert m d s l. induction k as [|k IH]; intros m d s l Hk Hs Hd Ho.
  { rewrite Nat.mul_0_r in Hk. by destruct l. }
  rewrite Nat.mul_succ_r in Hk.
  destruct (list_split_at l w) as (l1 & l2 & -> & Hl1); [lia|].
  rewrite length_app in *. rewrite Hl1 in *. cbn [copy_words].
  apply bytes_at_app in Hs as [H1 H2]. rewrite Hl1 in H2.
  rewrite (load_le_at _ _ l1) by done. cbn [obind].
  rewrite (store_le_at _ _ l1) by
    (done || eauto with fnx || (apply (mapped_sub _ _ _ _ _ Hd); lia)).
  cbn [obind]. rewrite write_bytes_app, Hl1.
  apply IH; [lia| | |lia].
  - apply bytes_at_write_out; [unfold disjoint_range; lia|done].
  - apply mapped_write. apply (mapped_sub _ _ _ _ _ Hd); lia.
Qed.
End blocks.

(** ** Deciding the predicates on a concrete memory *)

Definition bytes_at_check (m : mem) (a : Z) (l : list Z) : bool :=
  forallb (fun p => bool_decide (0 <= snd p < 256) &&
                    bool_decide (m !! (a + Z.of_nat (fst p)) = Some (snd p))) (imap pair l).

Definition mapped_check (m : mem) (a n : Z) : bool :=
  forallb (fun i => bool_decide (is_Some (m !! (a + Z.of_nat i)))) (seq 0 (Z.to_nat n)).

Definition cstr_check (m : mem) (a : Z) (l : list Z) : bool :=
  bytes_at_check m a (l ++ [0]) && bool_decide (0 ∉ l).

Lemma bytes_at_checked m a l : bytes_at_check m a l = true -> bytes_at m a l.
Proof.
  unfold bytes_at_check. rewrite forallb_forall. intros H.
  assert (Hi : forall (i : nat) b, l !! i = Some b -> byte b /\ m !! (a + Z.of_nat i) = Some b).
  { intros i b Hb. specialize (H (i, b)). cbn [fst snd] in H.
    assert (Hin : In (i, b) (imap pair l)).
    { apply list_elem_of_In, list_elem_of_lookup. exists i. by rewrite list_lookup_imap, Hb. }
    apply H, andb_prop in Hin as [H1 H2].
    by apply bool_decide_eq_true in H1, H2. }
  split; [|intros i b Hb; by apply Hi]. apply Forall_lookup. intros i b Hb. by apply (Hi i).
Qed.

Lemma mapped_checked m a n : mapped_check m a n = true -> mapped m a n.
Proof.
  unfold mapped_check. rewrite forallb_forall. intros H i Hi.
  specialize (H (Z.to_nat i)). rewrite Z2Nat.id in H by lia.
  eapply bool_decide_eq_true_1, H, in_seq. lia.
Qed.

Lemma cstr_checked m a l : cstr_check m a l = true -> cstr m a l.
Proof.
  unfold cstr_check. intros [H1 H2]%andb_prop. apply bool_decide_eq_true in H2.
  split; [by apply bytes_at_checked|done].
Qed.

(** An address above everything that is mapped. *)
Definition mem_top (m : mem) : Z := map_fold (fun a _ t => Z.max (a + 1) t) 16 m.

Lemma mem_top_spec (m : mem) : 16 <= mem_top m /\ forall x, is_Some (m !! x) -> x < mem_top m.
Proof.
  apply (map_fold_weak_ind (fun t (m : mem) => 16 <= t /\ forall x, is_Some (m !! x) -> x < t)).
  - split; [lia|]. intros x [b Hb]. by rewrite lookup_empty in Hb.
  - intros a b m' t _ [IH1 IH2]. split; [lia|]. intros x. destruct (decide (a = x)) as [<-|].
    + intros _. lia.
    + rewrite lookup_insert_ne by done. intros Hx. specialize (IH2 x Hx). lia.
Qed.
