(* ===== verification/CMonad.v ===== *)
(** * Stateful code that can stop

    Code that reads and writes a state of type [S] and may fault, may run for
    ever (run out of fuel), or may end the run on purpose: [_Exit] in a program,
    a panic or a halt in the kernel. *)

From S2P Require Import Prelude CMem.

(** A step goes on with a value or ends the run with a status. *)
Inductive control (A : Type) : Type := Go (a : A) | Exit (status : Z).
Arguments Go {A} a.
Arguments Exit {A} status.

Definition ST (S A : Type) : Type := S -> outcome (control A * S).

#[export] Instance ST_ret S : MRet (ST S) := fun A a s => Ret (Go a, s).
#[export] Instance ST_bind S : MBind (ST S) := fun A B f c s =>
  let! r := c s in
  match r with
  | (Go a, s) => f a s
  | (Exit e, s) => Ret (Exit e, s)
  end.

Section operations.
Context {S : Type}.

Definition gets {A} (f : S -> A) : ST S A := fun s => Ret (Go (f s), s).
Definition puts (f : S -> S) : ST S unit := fun s => Ret (Go tt, f s).
Definition exits {A} (status : Z) : ST S A := fun s => Ret (Exit status, s).
Definition no_fuel {A} : ST S A := fun _ => OutOfFuel.
Definition fault {A} : ST S A := fun _ => Fault.

(** [for (k = i; ...; k++) body k], for [n] turns. *)
Fixpoint for_loop (n : nat) (i : Z) (body : Z -> ST S unit) : ST S unit :=
  match n with
  | O => mret tt
  | Datatypes.S n => body i;; for_loop n (i + 1) body
  end.

Lemma bind_go {A B} (c : ST S A) (k : A -> ST S B) s a s' : c s = Ret (Go a, s') -> (c ≫= k) s = k a s'.
Proof. intros H. unfold mbind, ST_bind. by rewrite H. Qed.

Lemma bind_exit {A B} (c : ST S A) (k : A -> ST S B) s e s' :
  c s = Ret (Exit e, s') -> (c ≫= k) s = Ret (Exit e, s').
Proof. intros H. unfold mbind, ST_bind. by rewrite H. Qed.

Lemma bind_fault {A B} (c : ST S A) (k : A -> ST S B) s : c s = Fault -> (c ≫= k) s = Fault.
Proof. intros H. unfold mbind, ST_bind. by rewrite H. Qed.

Lemma bind_stuck {A B} (c : ST S A) (k : A -> ST S B) s : c s = OutOfFuel -> (c ≫= k) s = OutOfFuel.
Proof. intros H. unfold mbind, ST_bind. by rewrite H. Qed.
End operations.

(** The invariant of a counted loop. *)
Lemma for_loop_inv {S} (P : Z -> S -> Prop) n i (body : Z -> ST S unit) s : P i s ->
  (forall k s, i <= k < i + Z.of_nat n -> P k s -> exists s', body k s = Ret (Go tt, s') /\ P (k + 1) s') ->
  exists s', for_loop n i body s = Ret (Go tt, s') /\ P (i + Z.of_nat n) s'.
Proof.
  revert i s. induction n as [|n IH]; intros i s Hi Hs; cbn [for_loop].
  { exists s. by rewrite Z.add_0_r. }
  destruct (Hs i s ltac:(lia) Hi) as (s1 & E1 & H1). erewrite bind_go by exact E1.
  destruct (IH (i + 1) s1 H1) as (s' & E & H'); [intros k s2 Hk; apply Hs; lia|].
  exists s'. split; [done|]. by replace (i + Z.of_nat (Datatypes.S n)) with (i + 1 + Z.of_nat n) by lia.
Qed.

Lemma bind_inv {S A B} (c : ST S A) (k : A -> ST S B) s b s' : (c ≫= k) s = Ret (Go b, s') ->
  exists a s1, c s = Ret (Go a, s1) /\ k a s1 = Ret (Go b, s').
Proof.
  unfold mbind, ST_bind. destruct (c s) as [[[a|] s1]| |]; try done. intros H. by exists a, s1.
Qed.
