(* ===== verification/LibcErrno.v ===== *)
(** * Error numbers and messages of the C library

    Model of [Userspace/libc/src/std/errno.c] and of [strsignal] in
    [Userspace/libc/src/std/string.c], with the numbers of the fennix ABI
    ([abis/fennix/generic/bits/errno.h] and [syscalls.h]).  A [switch] over
    constants that only returns literals is a table searched from the top.
    [errno] is the [CurrentError] field of the calling thread. *)

From Stdlib Require Import String.
From S2P Require Import Prelude.
Open Scope string_scope.
Open Scope Z_scope.

(** ** Numbers *)

Definition EOK : Z := 0.
Definition E2BIG : Z := 1.
Definition EACCES : Z := 2.
Definition EADDRINUSE : Z := 3.
Definition EADDRNOTAVAIL : Z := 4.
Definition EAFNOSUPPORT : Z := 5.
Definition EAGAIN : Z := 6.
Definition EALREADY : Z := 7.
Definition EBADF : Z := 8.
Definition EBADMSG : Z := 9.
Definition EBUSY : Z := 10.
Definition ECANCELED : Z := 11.
Definition ECHILD : Z := 12.
Definition ECONNABORTED : Z := 13.
Definition ECONNREFUSED : Z := 14.
Definition ECONNRESET : Z := 15.
Definition EDEADLK : Z := 16.
Definition EDESTADDRREQ : Z := 17.
Definition EDOM : Z := 18.
Definition EDQUOT : Z := 19.
Definition EEXIST : Z := 20.
Definition EFAULT : Z := 21.
Definition EFBIG : Z := 22.
Definition EHOSTUNREACH : Z := 23.
Definition EIDRM : Z := 24.
Definition EILSEQ : Z := 25.
Definition EINPROGRESS : Z := 26.
Definition EINTR : Z := 27.
Definition EINVAL : Z := 28.
Definition EIO : Z := 29.
Definition EISCONN : Z := 30.
Definition EISDIR : Z := 31.
Definition ELOOP : Z := 32.
Definition EMFILE : Z := 33.
Definition EMLINK : Z := 34.
Definition EMSGSIZE : Z := 35.
Definition EMULTIHOP : Z := 36.
Definition ENAMETOOLONG : Z := 37.
Definition ENETDOWN : Z := 38.
Definition ENETRESET : Z := 39.
Definition ENETUNREACH : Z := 40.
Definition ENFILE : Z := 41.
Definition ENOBUFS : Z := 42.
Definition ENODATA : Z := 43.
Definition ENODEV : Z := 44.
Definition ENOENT : Z := 45.
Definition ENOEXEC : Z := 46.
Definition ENOLCK : Z := 47.
Definition ENOLINK : Z := 48.
Definition ENOMEM : Z := 49.
Definition ENOMSG : Z := 50.
Definition ENOPROTOOPT : Z := 51.
Definition ENOSPC : Z := 52.
Definition ENOSR : Z := 53.
Definition ENOSTR : Z := 54.
Definition ENOSYS : Z := 55.
Definition ENOTCONN : Z := 56.
Definition ENOTDIR : Z := 57.
Definition ENOTEMPTY : Z := 58.
Definition ENOTRECOVERABLE : Z := 59.
Definition ENOTSOCK : Z := 60.
Definition ENOTSUP : Z := 61.
Definition ENOTTY : Z := 62.
Definition ENXIO : Z := 63.
Definition EOPNOTSUPP : Z := 64.
Definition EOVERFLOW : Z := 65.
Definition EOWNERDEAD : Z := 66.
Definition EPERM : Z := 67.
Definition EPIPE : Z := 68.
Definition EPROTO : Z := 69.
Definition EPROTONOSUPPORT : Z := 70.
Definition EPROTOTYPE : Z := 71.
Definition ERANGE : Z := 72.
Definition EROFS : Z := 73.
Definition ESPIPE : Z := 74.
Definition ESRCH : Z := 75.
Definition ESTALE : Z := 76.
Definition ETIME : Z := 77.
Definition ETIMEDOUT : Z := 78.
Definition ETXTBSY : Z := 79.
Definition EWOULDBLOCK : Z := 80.
Definition EXDEV : Z := 81.

Definition SIGNULL : Z := 0.
Definition SIGABRT : Z := 1.
Definition SIGALRM : Z := 2.
Definition SIGBUS : Z := 3.
Definition SIGCHLD : Z := 4.
Definition SIGCONT : Z := 5.
Definition SIGFPE : Z := 6.
Definition SIGHUP : Z := 7.
Definition SIGILL : Z := 8.
Definition SIGINT : Z := 9.
Definition SIGKILL : Z := 10.
Definition SIGPIPE : Z := 11.
Definition SIGQUIT : Z := 12.
Definition SIGSEGV : Z := 13.
Definition SIGSTOP : Z := 14.
Definition SIGTERM : Z := 15.
Definition SIGTSTP : Z := 16.
Definition SIGTTIN : Z := 17.
Definition SIGTTOU : Z := 18.
Definition SIGUSR1 : Z := 19.
Definition SIGUSR2 : Z := 20.
Definition SIGPOLL : Z := 21.
Definition SIGPROF : Z := 22.
Definition SIGSYS : Z := 23.
Definition SIGTRAP : Z := 24.
Definition SIGURG : Z := 25.
Definition SIGVTALRM : Z := 26.
Definition SIGXCPU : Z := 27.
Definition SIGXFSZ : Z := 28.

(** ** Messages *)

Fixpoint switch {A} (cases : list (Z * A)) (dflt : A) (n : Z) : A :=
  match cases with
  | [] => dflt
  | (k, v) :: cases => if n =? k then v else switch cases dflt n
  end.

Definition strerror_cases : list (Z * string) := [
  (EOK, "No error");
  (E2BIG, "Argument list too long");
  (EACCES, "Permission denied");
  (EADDRINUSE, "Address in use");
  (EADDRNOTAVAIL, "Address not available");
  (EAFNOSUPPORT, "Address family not supported");
  (EAGAIN, "Resource unavailable, try again");
  (EALREADY, "Connection already in progress");
  (EBADF, "Bad file descriptor");
  (EBADMSG, "Bad message");
  (EBUSY, "Device or resource busy");
  (ECANCELED, "Operation canceled");
  (ECHILD, "No child processes");
  (ECONNABORTED, "Connection aborted");
  (ECONNREFUSED, "Connection refused");
  (ECONNRESET, "Connection reset");
  (EDEADLK, "Resource deadlock would occur");
  (EDESTADDRREQ, "Destination address required");
  (EDOM, "Mathematics argument out of domain of function");
  (EDQUOT, "Reserved");
  (EEXIST, "File exists");
  (EFAULT, "Bad address");
  (EFBIG, "File too large");
  (EHOSTUNREACH, "Host is unreachable");
  (EIDRM, "Identifier removed");
  (EILSEQ, "Illegal byte sequence");
  (EINPROGRESS, "Operation in progress");
  (EINTR, "Interrupted function");
  (EINVAL, "Invalid argument");
  (EIO, "I/O error");
  (EISCONN, "Socket is connected");
  (EISDIR, "Is a directory");
  (ELOOP, "Too many levels of symbolic links");
  (EMFILE, "File descriptor value too large");
  (EMLINK, "Too many links");
  (EMSGSIZE, "Message too large");
  (EMULTIHOP, "Reserved");
  (ENAMETOOLONG, "Filename too long");
  (ENETDOWN, "Network is down");
  (ENETRESET, "Connection aborted by network");
  (ENETUNREACH, "Network unreachable");
  (ENFILE, "Too many files open in system");
  (ENOBUFS, "No buffer space available");
  (ENODATA, "No message available on the STREAM head read queue");
  (ENODEV, "No such device");
  (ENOENT, "No such file or directory");
  (ENOEXEC, "Executable file format error");
  (ENOLCK, "No locks available");
  (ENOLINK, "Reserved");
  (ENOMEM, "Not enough space");
  (ENOMSG, "No message of the desired type");
  (ENOPROTOOPT, "Protocol not available");
  (ENOSPC, "No space left on device");
  (ENOSR, "No STREAM resources");
  (ENOSTR, "Not a STREAM");
  (ENOSYS, "Functionality not supported");
  (ENOTCONN, "The socket is not connected");
  (ENOTDIR, "Not a directory or a symbolic link to a directory");
  (ENOTEMPTY, "Directory not empty");
  (ENOTRECOVERABLE, "State not recoverable");
  (ENOTSOCK, "Not a socket");
  (ENOTSUP, "Not supported");
  (ENOTTY, "Inappropriate I/O control operation");
  (ENXIO, "No such device or address");
  (EOPNOTSUPP, "Operation not supported on socket");
  (EOVERFLOW, "Value too large to be stored in data type");
  (EOWNERDEAD, "Previous owner died");
  (EPERM, "Operation not permitted");
  (EPIPE, "Broken pipe");
  (EPROTO, "Protocol error");
  (EPROTONOSUPPORT, "Protocol not supported");
  (EPROTOTYPE, "Protocol wrong type for socket");
  (ERANGE, "Result too large");
  (EROFS, "Read-only file system");
  (ESPIPE, "Invalid seek");
  (ESRCH, "No such process");
  (ESTALE, "Reserved");
  (ETIME, "Stream ioctl() timeout");
  (ETIMEDOUT, "Connection timed out");
  (ETXTBSY, "Text file busy");
  (EWOULDBLOCK, "Operation would block");
  (EXDEV, "Cross-device link")
].

Definition strerror (errnum : Z) : string :=
  let errnum := if errnum <? 0 then s32 (- errnum) else errnum in
  switch strerror_cases "Unknown error" errnum.

Definition strsignal (signum : Z) : string := switch [
  (SIGNULL, "NULL signal");
  (SIGABRT, "Aborted");
  (SIGALRM, "Alarm clock");
  (SIGBUS, "Bus error");
  (SIGCHLD, "Child status changed");
  (SIGCONT, "Continued");
  (SIGFPE, "Arithmetic exception");
  (SIGHUP, "Hangup");
  (SIGILL, "Illegal instruction");
  (SIGINT, "Interrupt");
  (SIGKILL, "Killed");
  (SIGPIPE, "Broken pipe");
  (SIGQUIT, "Quit");
  (SIGSEGV, "Segmentation fault");
  (SIGSTOP, "Stopped (signal)");
  (SIGTERM, "Terminated");
  (SIGTSTP, "Stopped (user)");
  (SIGTTIN, "Stopped (tty input)");
  (SIGTTOU, "Stopped (tty output)");
  (SIGUSR1, "User defined signal 1");
  (SIGUSR2, "User defined signal 2");
  (SIGPOLL, "Pollable event occurred");
  (SIGPROF, "Profiling timer expired");
  (SIGSYS, "Bad system call");
  (SIGTRAP, "Trace/breakpoint trap");
  (SIGURG, "Urgent I/O condition");
  (SIGVTALRM, "Virtual timer expired");
  (SIGXCPU, "CPU time limit exceeded");
  (SIGXFSZ, "File size limit exceeded")
] "Unknown signal" signum.

(** ** The status of a system call

    [status] and [err] have the width of a pointer; [errno] is the thread's
    [CurrentError].  The result is the value for the caller and the new
    [errno]. *)

Definition check_errno (errno status err : Z) : Z * Z :=
  if s32 status >=? EOK then (status, errno) else (err, s32 status).

Definition MAP_FAILED : Z := -1.

(** [mmap] and [munmap] of [sys/mman.c], given the system call's result. *)
Definition mmap (errno sys_result : Z) : Z * Z := check_errno errno sys_result MAP_FAILED.
Definition munmap (errno sys_result : Z) : Z * Z := check_errno errno sys_result (-1).

(** ** Laws *)

Lemma switch_in {A} (cases : list (Z * A)) dflt n :
  (exists v, (n, v) ∈ cases /\ switch cases dflt n = v) \/
  (n ∉ cases.*1 /\ switch cases dflt n = dflt).
Proof.
  induction cases as [|[k v] cases IH]; cbn [switch fmap list_fmap].
  - right. split; [apply not_elem_of_nil|done].
  - destruct (Z.eqb_spec n k) as [->|Hn].
    + left. exists v. split; [apply list_elem_of_here|done].
    + destruct IH as [(w & Hin & Hw)|[Hni Hw]]; [left|right].
      * exists w. split; [by apply list_elem_of_further|done].
      * split; [|done]. cbn. by apply not_elem_of_cons.
Qed.

(** Every number from 0 to 81 has a case, and no case gives the default. *)
Lemma strerror_cases_complete n : 0 <= n <= 81 -> n ∈ strerror_cases.*1.
Proof.
  intros Hn. assert (H : forallb (fun k => bool_decide (Z.of_nat k ∈ strerror_cases.*1)) (seq 0 82) = true)
    by (vm_compute; reflexivity).
  rewrite forallb_forall in H. specialize (H (Z.to_nat n)). rewrite Z2Nat.id in H by lia.
  eapply bool_decide_eq_true_1, H, in_seq. lia.
Qed.

Lemma strerror_cases_sound : Forall (fun p => 0 <= p.1 <= 81 /\ p.2 <> "Unknown error") strerror_cases.
Proof.
  assert (H : forallb (fun p => bool_decide (0 <= p.1 <= 81) && negb (String.eqb p.2 "Unknown error"))
                strerror_cases = true) by (vm_compute; reflexivity).
  apply Forall_forall. rewrite forallb_forall in H. intros p Hp.
  apply H, andb_prop in Hp as [H1 H2].
  apply bool_decide_eq_true in H1. split; [done|]. intros He. by rewrite He in H2.
Qed.

(** ** The properties *)

(** [strerror] has a message for exactly the error numbers 0 to 81 of the
    ABI, gives Unknown error for every other [int] but never for those, and
    gives the same message for a number and its negation, the form in which
    the kernel reports it. *)
Theorem strerror_complete e : - 2 ^ 31 < e < 2 ^ 31 ->
  (strerror e = "Unknown error" <-> 81 < Z.abs e) /\ strerror (- e) = strerror e.
Proof.
  intros He. assert (Ha : forall n, - 2 ^ 31 < n < 2 ^ 31 ->
    strerror n = switch strerror_cases "Unknown error" (Z.abs n)).
  { intros n Hn. unfold strerror. destruct (Z.ltb_spec n 0).
    - rewrite sw_small by (unfold in_s; lia). by replace (Z.abs n) with (- n) by lia.
    - by replace (Z.abs n) with n by lia. }
  rewrite !Ha by lia. rewrite Z.abs_opp. split; [|done].
  destruct (switch_in strerror_cases "Unknown error" (Z.abs e)) as [(v & Hin & ->)|[Hni ->]].
  - pose proof strerror_cases_sound as Hs. rewrite Forall_forall in Hs.
    specialize (Hs _ (proj1 (list_elem_of_In _ _) Hin)). cbn in Hs. split; [intros; naive_solver|lia].
  - split; [|done]. intros _. destruct (Z_lt_le_dec 81 (Z.abs e)); [done|].
    destruct Hni. apply strerror_cases_complete. lia.
Qed.

Lemma strerror_witness :
  (strerror ENOENT = "Unknown error" <-> 81 < Z.abs ENOENT) /\ strerror (- ENOENT) = strerror ENOENT.
Proof. apply (strerror_complete ENOENT); vm_compute; done. Defined.

(** [__check_errno] on the results that fit an [int]: a non-negative
    status goes to the caller and leaves [errno] alone; a negative one becomes
    [errno], still negative, and the caller gets the error value; [strerror]
    of that [errno] is the message of the positive error number. *)
Theorem check_errno_spec errno status err : - 2 ^ 31 < status < 2 ^ 31 ->
  check_errno errno status err = (if status <? 0 then (err, status) else (status, errno)) /\
  (status < 0 -> strerror (snd (check_errno errno status err)) = strerror (- status)).
Proof.
  intros Hs. unfold check_errno. rewrite sw_small by (unfold in_s; lia).
  change EOK with 0. rewrite Z.geb_leb. destruct (Z.leb_spec 0 status), (Z.ltb_spec status 0); try lia.
  - split; [done|lia].
  - split; [done|]. intros _. cbn [snd]. unfold strerror.
    destruct (Z.ltb_spec status 0), (Z.ltb_spec (- status) 0); try lia.
    rewrite sw_small by (unfold in_s; lia). done.
Qed.

Lemma check_errno_witness :
  check_errno 0 (- ENOENT) (-1) = (-1, - ENOENT) /\
  (- ENOENT < 0 -> strerror (snd (check_errno 0 (- ENOENT) (-1))) = strerror (- - ENOENT)).
Proof. apply (check_errno_spec 0 (- ENOENT) (-1)); vm_compute; done. Defined.

(** Only the low 32 bits of the status are looked at: a mapping whose
    address has bit 31 set is reported as failed, with the low half of the
    address as [errno]. *)
Theorem mmap_bit31_address_lost errno a : 0 <= a < 2 ^ 63 -> Z.testbit a 31 = true ->
  mmap errno a = (MAP_FAILED, s32 a) /\ s32 a < 0.
Proof.
  intros Ha Hb. assert (Hn : s32 a < 0).
  { rewrite Z.testbit_eqb in Hb by lia. apply Z.eqb_eq in Hb.
    set (q := a / 2 ^ 31) in *. pose proof (Z.mod_pos_bound a (2 ^ 31) ltac:(lia)).
    assert (Hq : a = 2 ^ 31 * q + a mod 2 ^ 31) by (apply Z.div_mod; lia).
    assert (Hq2 : q = 2 * (q / 2) + 1) by (rewrite <- Hb; apply Z.div_mod; lia).
    unfold sw. replace (a + 2 ^ (32 - 1)) with (a mod 2 ^ 31 + (q / 2 + 1) * 2 ^ 32) by lia.
    rewrite Z_mod_plus_full, Z.mod_small by lia. lia. }
  split; [|done]. unfold mmap, check_errno. change EOK with 0. rewrite Z.geb_leb.
  destruct (Z.leb_spec 0 (s32 a)); [lia|done].
Qed.

Lemma mmap_bit31_witness : mmap 0 (2 ^ 32 + 2 ^ 31) = (MAP_FAILED, s32 (2 ^ 32 + 2 ^ 31)) /\
  s32 (2 ^ 32 + 2 ^ 31) < 0.
Proof. apply (mmap_bit31_address_lost 0 (2 ^ 32 + 2 ^ 31)); [lia|reflexivity]. Defined.
