(* ===== verification/LibcString.v ===== *)
(** * The C library's string.h

    Model of [Userspace/libc/src/std/string.c]: every function of the file
    that has a body, on the byte memory of [CMem].  A pointer is an address,
    the null pointer is 0; a [char] is its byte, so that a comparison of two
    [char] values is a comparison of bytes.  [strerror] and [strsignal] are in
    [LibcErrno].  [restrict] pointers are not
    assumed disjoint by the definitions, only by the theorems that need it. *)

From S2P Require Import Prelude CMem LibcErrno.

(** ** Memory blocks *)

Fixpoint memccpy_loop (n : nat) (m : mem) (dest src uc : Z) : outcome (Z * mem) :=
  match n with
  | O => Ret (0, m)
  | S n =>
      let! b := load8 m src in
      let! m := store8 m dest b in
      let! b := load8 m src in
      if b =? uc then Ret (dest + 1, m) else memccpy_loop n m (dest + 1) (src + 1) uc
  end.

Definition memccpy (m : mem) (s1 s2 c n : Z) : outcome (Z * mem) :=
  memccpy_loop (Z.to_nat n) m s1 s2 (u8 c).

Fixpoint memchr_loop (n : nat) (m : mem) (src uc : Z) : outcome Z :=
  match n with
  | O => Ret 0
  | S n =>
      let! b := load8 m src in
      if b =? uc then Ret src else memchr_loop n m (src + 1) uc
  end.

Definition memchr (m : mem) (s c n : Z) : outcome Z := memchr_loop (Z.to_nat n) m s (u8 c).

Fixpoint memcmp_loop (n : nat) (m : mem) (p1 p2 : Z) : outcome Z :=
  match n with
  | O => Ret 0
  | S n =>
      let! a := load8 m p1 in
      let! b := load8 m p2 in
      if negb (a =? b) then Ret (a - b) else memcmp_loop n m (p1 + 1) (p2 + 1)
  end.

Definition memcmp (m : mem) (s1 s2 n : Z) : outcome Z := memcmp_loop (Z.to_nat n) m s1 s2.

Definition memcpy (m : mem) (s1 s2 n : Z) : outcome (Z * mem) :=
  let k := n / 8 in
  let! m := copy_words 8 (Z.to_nat k) m s1 s2 in
  let! m := copy_up (Z.to_nat (n mod 8)) m (s1 + 8 * k) (s2 + 8 * k) in
  Ret (s1, m).

Fixpoint memmem_loop (turns : nat) (m : mem) (h n needlelen : Z) : outcome Z :=
  match turns with
  | O => Ret 0
  | S turns =>
      let! r := memcmp m h n needlelen in
      if r =? 0 then Ret h else memmem_loop turns m (h + 1) n needlelen
  end.

Definition memmem (m : mem) (haystack haystacklen needle needlelen : Z) : outcome Z :=
  if needlelen =? 0 then Ret haystack
  else if haystacklen <? needlelen then Ret 0
  else memmem_loop (Z.to_nat (haystacklen - needlelen + 1)) m haystack needle needlelen.

Definition memmove (m : mem) (s1 s2 n : Z) : outcome (Z * mem) :=
  let! m :=
    if s1 <? s2 then copy_up (Z.to_nat n) m s1 s2
    else copy_down (Z.to_nat n) m (s1 + n) (s2 + n) in
  Ret (s1, m).

Fixpoint memset_loop (n : nat) (m : mem) (p c : Z) : outcome mem :=
  match n with
  | O => Ret m
  | S n => let! m := store8 m p (u8 c) in memset_loop n m (p + 1) c
  end.

Definition memset (m : mem) (s c n : Z) : outcome (Z * mem) :=
  let! m := memset_loop (Z.to_nat n) m s c in Ret (s, m).

(** ** Length and search *)

(** [while ( *s) s++;] *)
Fixpoint find_end (fuel : nat) (m : mem) (s : Z) : outcome Z :=
  match fuel with
  | O => OutOfFuel
  | S fuel =>
      let! c := load8 m s in
      if c =? 0 then Ret s else find_end fuel m (s + 1)
  end.

Definition strlen (m : mem) (s : Z) : outcome Z :=
  let! e := find_end (loop_fuel m) m s in Ret (e - s).

Fixpoint strnlen_loop (n : nat) (m : mem) (s len : Z) : outcome Z :=
  match n with
  | O => Ret len
  | S n =>
      let! c := load8 m (s + len) in
      if negb (c =? 0) then strnlen_loop n m s (len + 1) else Ret len
  end.

Definition strnlen (m : mem) (s maxlen : Z) : outcome Z :=
  strnlen_loop (Z.to_nat maxlen) m s 0.

Fixpoint strchr_loop (fuel : nat) (m : mem) (s c : Z) : outcome Z :=
  match fuel with
  | O => OutOfFuel
  | S fuel =>
      let! b := load8 m s in
      if negb (b =? 0) then
        if b =? u8 c then Ret s else strchr_loop fuel m (s + 1) c
      else Ret (if c =? 0 then s else 0)
  end.

Definition strchr (m : mem) (s c : Z) : outcome Z := strchr_loop (loop_fuel m) m s c.

(** [do { if ( *s == (char)c) last = s; } while ( *s++);] *)
Fixpoint strrchr_loop (fuel : nat) (m : mem) (s c last : Z) : outcome Z :=
  match fuel with
  | O => OutOfFuel
  | S fuel =>
      let! b := load8 m s in
      let last := if b =? u8 c then s else last in
      if negb (b =? 0) then strrchr_loop fuel m (s + 1) c last else Ret last
  end.

Definition strrchr (m : mem) (s c : Z) : outcome Z := strrchr_loop (loop_fuel m) m s c 0.

(** ** Comparison *)

Fixpoint strcmp_loop (fuel : nat) (m : mem) (s1 s2 : Z) : outcome Z :=
  match fuel with
  | O => OutOfFuel
  | S fuel =>
      let! a := load8 m s1 in
      if a =? 0 then let! b := load8 m s2 in Ret (a - b)
      else
        let! b := load8 m s2 in
        if a =? b then strcmp_loop fuel m (s1 + 1) (s2 + 1) else Ret (a - b)
  end.

Definition strcmp (m : mem) (s1 s2 : Z) : outcome Z := strcmp_loop (loop_fuel m) m s1 s2.

(** Same body as [strcmp] in the source. *)
Definition strcoll (m : mem) (s1 s2 : Z) : outcome Z := strcmp_loop (loop_fuel m) m s1 s2.

Fixpoint strncmp_loop (n : nat) (m : mem) (s1 s2 : Z) : outcome Z :=
  match n with
  | O => Ret 0
  | S n =>
      let! a := load8 m s1 in
      let! b := load8 m s2 in
      if negb (a =? b) then Ret (a - b)
      else if a =? 0 then Ret 0
      else strncmp_loop n m (s1 + 1) (s2 + 1)
  end.

Definition strncmp (m : mem) (s1 s2 n : Z) : outcome Z := strncmp_loop (Z.to_nat n) m s1 s2.

(** ** Copying *)

Fixpoint stpcpy_loop (fuel : nat) (m : mem) (s1 s2 : Z) : outcome (Z * mem) :=
  match fuel with
  | O => OutOfFuel
  | S fuel =>
      let! c := load8 m s2 in
      let! m := store8 m s1 c in
      if negb (c =? 0) then stpcpy_loop fuel m (s1 + 1) (s2 + 1) else Ret (s1, m)
  end.

Definition stpcpy (m : mem) (s1 s2 : Z) : outcome (Z * mem) :=
  stpcpy_loop (loop_fuel m) m s1 s2.

(** [k] characters are left of [n]; a NUL fills the rest with zeros. *)
Fixpoint stpncpy_loop (k : nat) (m : mem) (s1 s2 i n : Z) : outcome (Z * mem) :=
  match k with
  | O => Ret (s1 + n, m)
  | S k =>
      let! buf := load8 m (s2 + i) in
      let! m := store8 m (s1 + i) buf in
      if negb (buf =? 0) then stpncpy_loop k m s1 s2 (i + 1) n
      else
        let! m := memset_loop k m (s1 + (i + 1)) 0 in
        Ret (s1 + i, m)
  end.

Definition stpncpy (m : mem) (s1 s2 n : Z) : outcome (Z * mem) :=
  stpncpy_loop (Z.to_nat n) m s1 s2 0 n.

(** [while (( *dest++ = *s2++));] *)
Definition strcat (m : mem) (s1 s2 : Z) : outcome (Z * mem) :=
  let! dest := find_end (loop_fuel m) m s1 in
  let! r := stpcpy_loop (loop_fuel m) m dest s2 in
  Ret (s1, snd r).

Fixpoint strcpy_loop (fuel : nat) (m : mem) (dest s2 : Z) : outcome (Z * mem) :=
  match fuel with
  | O => OutOfFuel
  | S fuel =>
      let! c := load8 m s2 in
      if c =? 0 then Ret (dest, m)
      else let! m := store8 m dest c in strcpy_loop fuel m (dest + 1) (s2 + 1)
  end.

Definition strcpy (m : mem) (s1 s2 : Z) : outcome (Z * mem) :=
  let! r := strcpy_loop (loop_fuel m) m s1 s2 in
  let! m := store8 (snd r) (fst r) 0 in
  Ret (s1, m).

(** [while (n-- && *s2) *dest++ = *s2++;] *)
Fixpoint strncat_loop (n : nat) (m : mem) (dest s2 : Z) : outcome (Z * mem) :=
  match n with
  | O => Ret (dest, m)
  | S n =>
      let! c := load8 m s2 in
      if c =? 0 then Ret (dest, m)
      else let! m := store8 m dest c in strncat_loop n m (dest + 1) (s2 + 1)
  end.

Definition strncat (m : mem) (s1 s2 n : Z) : outcome (Z * mem) :=
  let! dest := find_end (loop_fuel m) m s1 in
  let! r := strncat_loop (Z.to_nat n) m dest s2 in
  let! m := store8 (snd r) (fst r) 0 in
  Ret (s1, m).

(** [while (n && ( *dest++ = *s2++)) n--;] then [if (n) while (--n) *dest++ = 0;]
    The loop stops with [n] equal to the number of characters not yet counted,
    the stored NUL included. *)
Fixpoint strncpy_loop (n : nat) (m : mem) (dest s2 : Z) : outcome mem :=
  match n with
  | O => Ret m
  | S n' =>
      let! c := load8 m s2 in
      let! m := store8 m dest c in
      if negb (c =? 0) then strncpy_loop n' m (dest + 1) (s2 + 1)
      else memset_loop n' m (dest + 1) 0
  end.

Definition strncpy (m : mem) (s1 s2 n : Z) : outcome (Z * mem) :=
  let! m := strncpy_loop (Z.to_nat n) m s1 s2 in Ret (s1, m).

Definition strlcat (m : mem) (dst src dstsize : Z) : outcome (Z * mem) :=
  let! dst_len := strnlen m dst dstsize in
  let! src_len := strlen m src in
  if dst_len =? dstsize then Ret (dstsize + src_len, m)
  else
    let! m :=
      if src_len <? dstsize - dst_len then
        let! r := memcpy m (dst + dst_len) src (src_len + 1) in Ret (snd r)
      else
        let! r := memcpy m (dst + dst_len) src (dstsize - dst_len - 1) in
        store8 (snd r) (dst + (dstsize - 1)) 0 in
    Ret (dst_len + src_len, m).

Definition strlcpy (m : mem) (dst src dstsize : Z) : outcome (Z * mem) :=
  let! src_len := strlen m src in
  if negb (dstsize =? 0) then
    let copy_len := if src_len >=? dstsize then dstsize - 1 else src_len in
    let! r := memcpy m dst src copy_len in
    let! m := store8 (snd r) (dst + copy_len) 0 in
    Ret (src_len, m)
  else Ret (src_len, m).

(** [strxfrm]: [n - 1] is computed in [size_t]. *)
Fixpoint strxfrm_copy (fuel : nat) (m : mem) (s1 s2 n len : Z) : outcome (Z * mem) :=
  match fuel with
  | O => OutOfFuel
  | S fuel =>
      let! c := load8 m (s2 + len) in
      if negb (c =? 0) && (len <? u64 (n - 1)) then
        let! m := store8 m (s1 + len) c in
        strxfrm_copy fuel m s1 s2 n (len + 1)
      else Ret (len, m)
  end.

Definition strxfrm (m : mem) (s1 s2 n : Z) : outcome (Z * mem) :=
  let! r := strxfrm_copy (loop_fuel m) m s1 s2 n 0 in
  let '(len, m) := r in
  let! m := if n >? 0 then store8 m (s1 + len) 0 else Ret m in
  let! e := find_end (loop_fuel m) m (s2 + len) in
  Ret (e - s2, m).

(** ** Sets of characters *)

(** The inner loops of [strcspn], [strspn] and [strpbrk]: is [c] one of the
    characters of the string at [s]? *)
Fixpoint char_in (fuel : nat) (m : mem) (s c : Z) : outcome bool :=
  match fuel with
  | O => OutOfFuel
  | S fuel =>
      let! sc := load8 m s in
      if sc =? 0 then Ret false
      else if sc =? c then Ret true else char_in fuel m (s + 1) c
  end.

Fixpoint strcspn_loop (fuel : nat) (m : mem) (p s1 s2 : Z) : outcome Z :=
  match fuel with
  | O => OutOfFuel
  | S fuel =>
      let! c := load8 m p in
      if c =? 0 then Ret (p + 1 - 1 - s1)
      else
        let! b := char_in (loop_fuel m) m s2 c in
        if b then Ret (p + 1 - 1 - s1) else strcspn_loop fuel m (p + 1) s1 s2
  end.

Definition strcspn (m : mem) (s1 s2 : Z) : outcome Z := strcspn_loop (loop_fuel m) m s1 s1 s2.

Fixpoint strspn_loop (fuel : nat) (m : mem) (p s1 s2 : Z) : outcome Z :=
  match fuel with
  | O => OutOfFuel
  | S fuel =>
      let! c := load8 m p in
      let! b := char_in (loop_fuel m) m s2 c in
      if b then strspn_loop fuel m (p + 1) s1 s2 else Ret (p + 1 - 1 - s1)
  end.

Definition strspn (m : mem) (s1 s2 : Z) : outcome Z := strspn_loop (loop_fuel m) m s1 s1 s2.

Fixpoint strpbrk_loop (fuel : nat) (m : mem) (s1 s2 : Z) : outcome Z :=
  match fuel with
  | O => OutOfFuel
  | S fuel =>
      let! c := load8 m s1 in
      if c =? 0 then Ret 0
      else
        let! b := char_in (loop_fuel m) m s2 c in
        if b then Ret s1 else strpbrk_loop fuel m (s1 + 1) s2
  end.

Definition strpbrk (m : mem) (s1 s2 : Z) : outcome Z := strpbrk_loop (loop_fuel m) m s1 s2.

(** ** Substrings and tokens *)

(** [while ( *h && *n && *h == *n) { h++; n++; }], then [!*n]. *)
Fixpoint strstr_match (fuel : nat) (m : mem) (h n : Z) : outcome bool :=
  match fuel with
  | O => OutOfFuel
  | S fuel =>
      let! a := load8 m h in
      let! b := load8 m n in
      if negb (a =? 0) && negb (b =? 0) && (a =? b) then strstr_match fuel m (h + 1) (n + 1)
      else Ret (b =? 0)
  end.

Fixpoint strstr_loop (fuel : nat) (m : mem) (s1 s2 : Z) : outcome Z :=
  match fuel with
  | O => OutOfFuel
  | S fuel =>
      let! a := load8 m s1 in
      if a =? 0 then Ret 0
      else
        let! b := strstr_match (loop_fuel m) m s1 s2 in
        if b then Ret s1 else strstr_loop fuel m (s1 + 1) s2
  end.

Definition strstr (m : mem) (s1 s2 : Z) : outcome Z :=
  let! c := load8 m s2 in
  if c =? 0 then Ret s1 else strstr_loop (loop_fuel m) m s1 s2.

(** The result is the token, the new [*state] and the memory. *)
Definition strtok_r (m : mem) (s sep state : Z) : outcome (Z * Z * mem) :=
  let s := if s =? 0 then state else s in
  let! n := strspn m s sep in
  let s := s + n in
  let! c := load8 m s in
  if c =? 0 then Ret (0, s, m)
  else
    let start := s in
    let! e := strpbrk m start sep in
    if negb (e =? 0) then
      let! m := store8 m e 0 in
      Ret (start, e + 1, m)
    else
      let! len := strlen m start in
      Ret (start, start + len, m).

(** [strtok] keeps the state in its static variable [last]. *)
Definition strtok (m : mem) (s sep last : Z) : outcome (Z * Z * mem) := strtok_r m s sep last.

(** ** Functions that use other components *)

(** [strerror] of [errno.c]: the address of the message of an error number. *)
Definition strerror_r (strerror : Z -> Z) (m : mem) (errnum buf buflen : Z) : outcome (Z * mem) :=
  let errmsg := strerror errnum in
  let! len := strlen m errmsg in
  if len >=? buflen then
    let! m :=
      if buflen >? 0 then
        let! r := strncpy m buf errmsg (buflen - 1) in
        store8 (snd r) (buf + (buflen - 1)) 0
      else Ret m in
    Ret (ERANGE, m)
  else
    let! r := strcpy m buf errmsg in
    Ret (0, snd r).

(** What string.c asks of the allocator: [malloc] gives the null pointer or a
    fresh mapped block, and leaves the rest of the memory alone. *)
Class Malloc := {
  malloc : mem -> Z -> outcome (Z * mem);
  malloc_spec m n : 0 <= n ->
    exists p m', malloc m n = Ret (p, m') /\
      (p = 0 /\ m' = m \/
       p <> 0 /\ mapped m' p n /\ (forall i, 0 <= i < n -> m !! (p + i) = None) /\
       forall x, is_Some (m !! x) -> m' !! x = m !! x)
}.

Section duplicates.
Context `{Malloc}.

Definition strdup (m : mem) (s : Z) : outcome (Z * mem) :=
  let! len := strlen m s in
  let! r := malloc m (len + 1) in
  let '(new_str, m) := r in
  if new_str =? 0 then Ret (0, m)
  else
    let! r := memcpy m new_str s (len + 1) in
    Ret (new_str, snd r).

Definition strndup (m : mem) (s size : Z) : outcome (Z * mem) :=
  let! len := strnlen m s size in
  let! r := malloc m (len + 1) in
  let '(new_str, m) := r in
  if new_str =? 0 then Ret (0, m)
  else
    let! r := memcpy m new_str s len in
    let! m := store8 (snd r) (new_str + len) 0 in
    Ret (new_str, m).
End duplicates.

(** ** Laws of the block loops *)

Section blocks.
Implicit Types (m : mem) (l : list Z).

Lemma memcpy_spec m d s l n :
  n = Z.of_nat (length l) -> bytes_at m s l -> mapped m d n -> disjoint_range d n s n ->
  memcpy m d s n = Ret (d, write_bytes m d l).
Proof.
  intros -> Hs Hd Ho. unfold memcpy. set (n := Z.of_nat (length l)) in *.
  assert (Hn : 8 * (n / 8) + n mod 8 = n) by (symmetry; apply Z.div_mod; lia).
  pose proof (Z.mod_pos_bound n 8 ltac:(lia)).
  assert (0 <= n / 8) by (apply Z.div_pos; lia).
  destruct (list_split_at l (8 * Z.to_nat (n / 8))) as (l1 & l2 & -> & Hl1); [lia|].
  assert (Hl2 : length l2 = Z.to_nat (n mod 8)) by (unfold n in *; rewrite length_app in *; lia).
  clearbody n.
  apply bytes_at_app in Hs as [H1 H2]. unfold disjoint_range in Ho.
  rewrite (copy_words_spec 8 _ _ _ _ l1) by
    (done || (unfold disjoint_range; lia) || (apply (mapped_sub _ _ _ _ _ Hd); lia)).
  cbn [obind]. rewrite <- Hl2. replace (8 * (n / 8)) with (Z.of_nat (length l1)) by lia.
  rewrite copy_up_spec.
  - cbn [obind]. by rewrite write_bytes_app.
  - apply bytes_at_write_out; [unfold disjoint_range; lia|done].
  - apply mapped_write. apply (mapped_sub _ _ _ _ _ Hd); lia.
  - lia.
Qed.

Lemma memset_loop_spec n m p c : mapped m p (Z.of_nat n) ->
  memset_loop n m p c = Ret (write_bytes m p (replicate n (u8 c))).
Proof.
  revert m p. induction n as [|n IH]; intros m p Hp; [done|].
  cbn [memset_loop replicate write_bytes].
  rewrite (store8_mapped _ _ _ _ Hp) by (lia || (apply uw_range; lia)). cbn [obind].
  apply IH. change (<[p := u8 c]> m) with (write_bytes m p [u8 c]). apply mapped_write.
  apply (mapped_sub _ _ _ _ _ Hp); lia.
Qed.
End blocks.

(** ** Laws of the string loops *)

Section strings.
Implicit Types (m : mem) (l : list Z).

Lemma cstr_cons m a b l : cstr m a (b :: l) <-> byte b /\ b <> 0 /\ m !! a = Some b /\ cstr m (a + 1) l.
Proof.
  unfold cstr. cbn [app]. rewrite bytes_at_cons, not_elem_of_cons. naive_solver.
Qed.

Lemma cstr_nil m a : cstr m a [] <-> m !! a = Some 0.
Proof.
  unfold cstr. cbn [app]. rewrite bytes_at_cons. split; [tauto|]. intros H.
  split; [|apply not_elem_of_nil]. split_and!; [done..|]. apply bytes_at_nil.
Qed.

Lemma cstr_load m a l : cstr m a l -> load8 m a = Ret (hd 0 l).
Proof.
  unfold load8. destruct l as [|b l]; [intros ->%cstr_nil|intros (_ & _ & -> & _)%cstr_cons]; done.
Qed.

Lemma cstr_drop m a l (n : nat) : (n <= length l)%nat -> cstr m a l -> cstr m (a + Z.of_nat n) (drop n l).
Proof.
  revert a l. induction n as [|n IH]; intros a l Hn H; [by rewrite Z.add_0_r|].
  destruct l as [|b l]; [cbn in Hn; lia|]. apply cstr_cons in H as (_ & _ & _ & H).
  cbn [drop length] in *. replace (a + Z.of_nat (S n)) with (a + 1 + Z.of_nat n) by lia.
  apply IH; [lia|done].
Qed.

Lemma cstr_bytes m a l : cstr m a l -> bytes_at m a (l ++ [0]).
Proof. by intros []. Qed.

Lemma cstr_ext m m' a l :
  (forall x, a <= x <= a + Z.of_nat (length l) -> m' !! x = m !! x) -> cstr m a l -> cstr m' a l.
Proof.
  intros H [Hb H0]. split; [|done]. eapply bytes_at_ext; [|done].
  intros x Hx. apply H. lens. cbn [length] in Hx. lia.
Qed.

Lemma find_end_spec m s l fuel : cstr m s l -> (length l < fuel)%nat ->
  find_end fuel m s = Ret (s + Z.of_nat (length l)).
Proof.
  revert s fuel. induction l as [|b l IH]; intros s fuel H Hf;
    (destruct fuel as [|fuel]; [cbn in Hf; lia|]); cbn [find_end length] in *;
    rewrite (cstr_load _ _ _ H); cbn [obind hd].
  - by rewrite Z.add_0_r.
  - apply cstr_cons in H as (_ & Hb & _ & H). destruct (Z.eqb_spec b 0); [done|].
    rewrite IH by (done || lia). f_equal. lia.
Qed.

Lemma strlen_spec m s l : cstr m s l -> strlen m s = Ret (Z.of_nat (length l)).
Proof.
  intros H. unfold strlen. rewrite (find_end_spec _ _ l) by (done || by apply cstr_fuel in H).
  cbn [obind]. f_equal. lia.
Qed.

(** [strnlen] looks at no byte past [maxlen]. *)
Lemma strnlen_loop_spec n m s len k l :
  len = Z.of_nat k -> (k <= length l)%nat -> cstr m s l ->
  strnlen_loop n m s len = Ret (Z.of_nat (Nat.min (k + n) (length l))).
Proof.
  revert len k. induction n as [|n IH]; intros len k -> Hk H; cbn [strnlen_loop].
  { f_equal. lia. }
  rewrite (cstr_load _ _ (drop k l)) by (by apply cstr_drop). cbn [obind].
  destruct (decide (k = length l)) as [->|].
  - rewrite drop_all. cbn. f_equal. lia.
  - destruct (drop k l) as [|b l'] eqn:Hd.
    { apply (f_equal length) in Hd. rewrite length_drop in Hd. cbn in Hd. lia. }
    pose proof (cstr_drop _ _ _ k Hk H) as Hc. rewrite Hd in Hc.
    apply cstr_cons in Hc as (_ & Hb & _ & _). cbn [hd].
    destruct (Z.eqb_spec b 0); [done|]. cbn [negb].
    rewrite (IH _ (S k)) by (done || lia). f_equal. lia.
Qed.

Lemma strnlen_unterminated n m s len k l :
  len = Z.of_nat k -> bytes_at m s l -> 0 ∉ l -> (k + n = length l)%nat ->
  strnlen_loop n m s len = Ret (Z.of_nat (length l)).
Proof.
  revert len k. induction n as [|n IH]; intros len k -> H H0 Hk; cbn [strnlen_loop].
  { f_equal. lia. }
  destruct (lookup_lt_is_Some_2 l k) as [b Hb]; [lia|].
  rewrite (load8_at _ _ _ _ _ H Hb). cbn [obind].
  destruct (Z.eqb_spec b 0) as [->|]; [by apply list_elem_of_lookup_2 in Hb|].
  cbn [negb]. apply (IH _ (S k)); [lia|done|done|lia].
Qed.
End strings.

(** ** Comparison *)

(** The difference of the first characters that differ, a shorter string
    continuing with NUL. *)
Fixpoint first_diff (l1 l2 : list Z) : Z :=
  match l1, l2 with
  | [], [] => 0
  | [], b :: _ => 0 - b
  | a :: _, [] => a - 0
  | a :: l1, b :: l2 => if a =? b then first_diff l1 l2 else a - b
  end.

(** Dictionary order on strings of bytes. *)
Definition lex_lt (l1 l2 : list Z) : Prop :=
  exists p, (exists b t, l1 = p /\ l2 = p ++ b :: t) \/
            (exists a b t1 t2, l1 = p ++ a :: t1 /\ l2 = p ++ b :: t2 /\ a < b).

Section compare.
Implicit Types (m : mem) (l : list Z).

Lemma first_diff_lex l1 l2 : Forall byte l1 -> Forall byte l2 -> 0 ∉ l1 -> 0 ∉ l2 ->
  (first_diff l1 l2 = 0 /\ l1 = l2) \/ (first_diff l1 l2 < 0 /\ lex_lt l1 l2) \/
  (0 < first_diff l1 l2 /\ lex_lt l2 l1).
Proof.
  unfold byte. revert l2. induction l1 as [|a l1 IH]; intros [|b l2] F1 F2 N1 N2; cbn [first_diff].
  - by left.
  - right; left. apply Forall_cons_iff in F2 as [? _]. apply not_elem_of_cons in N2 as [? _].
    split; [lia|]. exists []. left. by exists b, l2.
  - right; right. apply Forall_cons_iff in F1 as [? _]. apply not_elem_of_cons in N1 as [? _].
    split; [lia|]. exists []. left. by exists a, l1.
  - apply Forall_cons_iff in F1 as [? F1]. apply Forall_cons_iff in F2 as [? F2].
    apply not_elem_of_cons in N1 as [? N1]. apply not_elem_of_cons in N2 as [? N2].
    destruct (Z.eqb_spec a b) as [->|Hab].
    + destruct (IH l2 F1 F2 N1 N2) as [[? ->]|[[? Hl]|[? Hl]]]; [by left|right; left|right; right];
        (split; [done|]); destruct Hl as (p & [(c & t & -> & ->)|(c & d & t1 & t2 & -> & -> & ?)]);
        exists (b :: p); [left|right|left|right]; naive_solver.
    + right. destruct (Z_lt_le_dec a b); [left|right]; (split; [lia|]); exists []; right.
      * by exists a, b, l1, l2.
      * exists b, a, l2, l1. split_and!; [done..|lia].
Qed.

Lemma first_diff_swap l1 l2 : first_diff l1 l2 = - first_diff l2 l1.
Proof.
  revert l2. induction l1 as [|a l1 IH]; intros [|b l2]; cbn [first_diff]; try lia.
  rewrite (Z.eqb_sym b a). destruct (a =? b); [apply IH|lia].
Qed.

Lemma first_diff_app p l1 l2 : first_diff (p ++ l1) (p ++ l2) = first_diff l1 l2.
Proof. induction p as [|a p IH]; [done|]. cbn. by rewrite Z.eqb_refl. Qed.

Lemma lex_lt_first_diff l1 l2 : Forall byte l2 -> 0 ∉ l2 -> lex_lt l1 l2 -> first_diff l1 l2 < 0.
Proof.
  intros F N (p & [(b & t & -> & ->)|(a & b & t1 & t2 & -> & -> & ?)]).
  - rewrite <- (app_nil_r p) at 1. rewrite first_diff_app. cbn.
    apply Forall_app in F as [_ F]. apply Forall_cons_iff in F as [? _]. unfold byte in *.
    apply not_elem_of_app in N as [_ N]. apply not_elem_of_cons in N as [? _]. lia.
  - rewrite first_diff_app. cbn. destruct (Z.eqb_spec a b); lia.
Qed.

Lemma first_diff_order l1 l2 : Forall byte l1 -> Forall byte l2 -> 0 ∉ l1 -> 0 ∉ l2 ->
  (first_diff l1 l2 = 0 <-> l1 = l2) /\ (first_diff l1 l2 < 0 <-> lex_lt l1 l2) /\
  (0 < first_diff l1 l2 <-> lex_lt l2 l1).
Proof.
  intros F1 F2 N1 N2. pose proof (lex_lt_first_diff l1 l2 F2 N2) as L12.
  pose proof (lex_lt_first_diff l2 l1 F1 N1) as L21. rewrite first_diff_swap in L21.
  assert (l1 = l2 -> first_diff l1 l2 = 0).
  { intros ->. pose proof (first_diff_app l2 [] []) as H. by rewrite app_nil_r in H. }
  destruct (first_diff_lex l1 l2 F1 F2 N1 N2) as [[? ?]|[[? ?]|[? ?]]];
    split_and!; split; intros; try done; try lia; naive_solver lia.
Qed.

Lemma cstr_byte m a l : cstr m a l -> Forall byte l.
Proof. intros [[H _] _]. by apply Forall_app in H as [H _]. Qed.

Lemma cstr_no_nul m a l : cstr m a l -> 0 ∉ l.
Proof. by intros []. Qed.

Lemma take_no_nul l n : 0 ∉ l -> 0 ∉ take n l.
Proof. intros H Hin. apply H. eapply elem_of_subseteq; [|exact Hin]. apply subseteq_take. Qed.

Lemma strcmp_loop_spec fuel m s1 s2 l1 l2 : cstr m s1 l1 -> cstr m s2 l2 ->
  (length l1 < fuel)%nat -> strcmp_loop fuel m s1 s2 = Ret (first_diff l1 l2).
Proof.
  revert fuel s1 s2 l2. induction l1 as [|a l1 IH]; intros fuel s1 s2 l2 H1 H2 Hf;
    (destruct fuel as [|fuel]; [cbn in Hf; lia|]); cbn [strcmp_loop length] in *;
    rewrite (cstr_load _ _ _ H1), (cstr_load _ _ _ H2); cbn [obind hd].
  - by destruct l2.
  - apply cstr_cons in H1 as (_ & Ha & _ & H1). destruct (Z.eqb_spec a 0); [done|].
    destruct l2 as [|b l2]; cbn [hd first_diff].
    + by destruct (Z.eqb_spec a 0).
    + apply cstr_cons in H2 as (_ & Hb & _ & H2). destruct (a =? b); [|done].
      apply IH; [done|done|lia].
Qed.

Lemma strncmp_loop_spec n m s1 s2 l1 l2 : cstr m s1 l1 -> cstr m s2 l2 ->
  strncmp_loop n m s1 s2 = Ret (first_diff (take n l1) (take n l2)).
Proof.
  revert s1 s2 l1 l2. induction n as [|n IH]; intros s1 s2 l1 l2 H1 H2; cbn [strncmp_loop]; [done|].
  rewrite (cstr_load _ _ _ H1), (cstr_load _ _ _ H2); cbn [obind].
  destruct l1 as [|a l1], l2 as [|b l2]; cbn [hd take first_diff].
  - done.
  - apply cstr_cons in H2 as (_ & Hb & _ & H2). by destruct (Z.eqb_spec 0 b).
  - apply cstr_cons in H1 as (_ & Hb & _ & H1). by destruct (Z.eqb_spec a 0).
  - apply cstr_cons in H1 as (_ & Ha & _ & H1). apply cstr_cons in H2 as (_ & Hb & _ & H2).
    destruct (Z.eqb_spec a b); cbn [negb]; [|done]. destruct (Z.eqb_spec a 0); [done|].
    by apply IH.
Qed.
End compare.

(** ** Copies *)

Section copies.
Implicit Types (m : mem) (l : list Z).

Lemma cstr_take_bytes m a l n : cstr m a l -> (n <= length l)%nat -> bytes_at m a (take n l).
Proof.
  intros H%cstr_bytes Hn. rewrite <- (take_drop n l), <- app_assoc in H.
  by apply bytes_at_app in H as [H _].
Qed.

Lemma strlcpy_spec m dst src size l :
  cstr m src l -> 0 < size -> mapped m dst size ->
  disjoint_range dst size src (Z.of_nat (length l) + 1) ->
  strlcpy m dst src size
    = Ret (Z.of_nat (length l), write_bytes m dst (take (Z.to_nat (size - 1)) l ++ [0])).
Proof.
  intros Hs Hz Hd Ho. unfold strlcpy. rewrite (strlen_spec _ _ l) by done. cbn [obind].
  destruct (Z.eqb_spec size 0); [lia|]. cbn [negb].
  set (k := if Z.of_nat (length l) >=? size then size - 1 else Z.of_nat (length l)).
  assert (Hk : k = Z.of_nat (length (take (Z.to_nat (size - 1)) l))).
  { rewrite length_take. unfold k. zcases; lia. }
  assert (Hb : bytes_at m src (take (Z.to_nat (size - 1)) l)).
  { destruct (decide (Z.to_nat (size - 1) <= length l)%nat); [by apply cstr_take_bytes|].
    rewrite take_ge by lia. rewrite <- (firstn_all l). apply cstr_take_bytes; done. }
  assert (k <= size - 1 /\ k <= Z.of_nat (length l)) by (unfold k; zcases; lia).
  clearbody k. unfold disjoint_range in Ho.
  rewrite (memcpy_spec _ _ _ (take (Z.to_nat (size - 1)) l)); [|done..| |unfold disjoint_range; lia].
  2:{ apply (mapped_sub _ _ _ _ _ Hd); lia. }
  cbn [obind snd]. rewrite (store8_mapped _ _ 1); [|apply mapped_write|lia|done].
  2:{ apply (mapped_sub _ _ _ _ _ Hd); lia. }
  cbn [obind]. do 2 f_equal. rewrite write_bytes_app. cbn [write_bytes]. by rewrite Hk.
Qed.

Lemma strlcat_spec m dst src size l1 l2 :
  cstr m dst l1 -> cstr m src l2 -> Z.of_nat (length l1) < size -> mapped m dst size ->
  disjoint_range dst size src (Z.of_nat (length l2) + 1) ->
  strlcat m dst src size
    = Ret (Z.of_nat (length l1) + Z.of_nat (length l2),
           write_bytes m (dst + Z.of_nat (length l1))
             (take (Z.to_nat (size - Z.of_nat (length l1) - 1)) l2 ++ [0])).
Proof.
  intros H1 H2 Hz Hd Ho. unfold strlcat, strnlen.
  rewrite (strnlen_loop_spec _ _ _ _ 0 l1) by (done || lia). cbn [obind].
  rewrite (strlen_spec _ _ l2) by done. cbn [obind].
  replace (Z.of_nat (Nat.min _ _)) with (Z.of_nat (length l1)) by lia.
  destruct (Z.eqb_spec (Z.of_nat (length l1)) size); [lia|].
  unfold disjoint_range in Ho.
  destruct (Z.ltb_spec (Z.of_nat (length l2)) (size - Z.of_nat (length l1))).
  - rewrite (memcpy_spec _ _ _ (l2 ++ [0])) by
      ((lens; cbn [length]; lia) || (by apply cstr_bytes) || (unfold disjoint_range; lia) ||
       (apply (mapped_sub _ _ _ _ _ Hd); lia)).
    cbn [obind snd]. by rewrite take_ge by lia.
  - rewrite (memcpy_spec _ _ _ (take (Z.to_nat (size - Z.of_nat (length l1) - 1)) l2)).
    2:{ rewrite length_take. lia. }
    2:{ apply cstr_take_bytes; [done|lia]. }
    2:{ apply (mapped_sub _ _ _ _ _ Hd); lia. }
    2:{ unfold disjoint_range; lia. }
    cbn [obind snd]. rewrite (store8_mapped _ _ 1); [|apply mapped_write|lia|done].
    2:{ apply (mapped_sub _ _ _ _ _ Hd); lia. }
    cbn [obind]. do 2 f_equal. rewrite write_bytes_app, length_take. cbn [write_bytes].
    f_equal. lia.
Qed.

(** [strncpy]: the string cut at [n], padded with NULs up to [n]. *)
Lemma strncpy_loop_spec n m d s l :
  cstr m s l -> mapped m d (Z.of_nat n) ->
  disjoint_range d (Z.of_nat n) s (Z.of_nat (length l) + 1) ->
  strncpy_loop n m d s
    = Ret (write_bytes m d (take n (l ++ replicate n 0))).
Proof.
  revert m d s l. induction n as [|n IH]; intros m d s l Hs Hd Ho; cbn [strncpy_loop]; [done|].
  rewrite (cstr_load _ _ _ Hs). cbn [obind]. unfold disjoint_range in Ho.
  destruct l as [|b l]; cbn [hd app length] in *.
  - rewrite (store8_mapped _ _ _ _ Hd) by (lia || done). cbn [obind negb Z.eqb].
    rewrite memset_loop_spec.
    2:{ change (<[d := 0]> m) with (write_bytes m d [0]). apply mapped_write.
        apply (mapped_sub _ _ _ _ _ Hd); lia. }
    change (u8 0) with 0. cbn [replicate take write_bytes]. by rewrite take_ge by (rewrite length_replicate; lia).
  - apply cstr_cons in Hs as (Hb & Hb0 & _ & Hs).
    rewrite (store8_mapped _ _ _ _ Hd) by (lia || done). cbn [obind].
    destruct (Z.eqb_spec b 0); [done|]. cbn [negb take write_bytes].
    change (<[d := b]> m) with (write_bytes m d [b]).
    rewrite (IH _ _ _ l).
    + do 2 f_equal. cbn [replicate].
      assert (He : forall k : nat, (n <= k)%nat -> take n (l ++ replicate k 0) = take n (l ++ replicate n 0)).
      { intros k Hk. rewrite !take_app. f_equal. rewrite !take_replicate. f_equal. lia. }
      symmetry. by apply (He (S n)); lia.
    + eapply cstr_ext; [|done]. intros x Hx. apply lookup_write_bytes_out. cbn [length]. lia.
    + apply mapped_write. apply (mapped_sub _ _ _ _ _ Hd); lia.
    + unfold disjoint_range. lia.
Qed.
End copies.

(** ** Character sets *)

Fixpoint take_while (p : Z -> bool) (l : list Z) : list Z :=
  match l with [] => [] | b :: l => if p b then b :: take_while p l else [] end.
Fixpoint drop_while (p : Z -> bool) (l : list Z) : list Z :=
  match l with [] => [] | b :: l' => if p b then drop_while p l' else l end.

Definition is_sep (ds : list Z) (c : Z) : bool := bool_decide (c ∈ ds).
Definition not_sep (ds : list Z) (c : Z) : bool := negb (is_sep ds c).

Section sets.
Implicit Types (m : mem) (l ds : list Z).

Lemma take_drop_while p l : take_while p l ++ drop_while p l = l.
Proof. induction l as [|b l IH]; [done|]. cbn. destruct (p b); [|done]. cbn. by rewrite IH. Qed.

Lemma drop_while_drop p l : drop_while p l = drop (length (take_while p l)) l.
Proof. induction l as [|b l IH]; [done|]. cbn. by destruct (p b). Qed.

Lemma take_while_length p l : (length (take_while p l) <= length l)%nat.
Proof. induction l as [|b l IH]; cbn; [lia|]. destruct (p b); cbn; lia. Qed.

Lemma take_while_all p l : Forall (fun b => p b = true) (take_while p l).
Proof. induction l as [|b l IH]; cbn; [constructor|]. destruct (p b) eqn:E; by constructor. Qed.

Lemma drop_while_hd p l : match drop_while p l with [] => True | b :: _ => p b = false end.
Proof. induction l as [|b l IH]; cbn; [done|]. by destruct (p b) eqn:E. Qed.

Lemma char_in_spec fuel m s ds c : cstr m s ds -> (length ds < fuel)%nat ->
  char_in fuel m s c = Ret (is_sep ds c).
Proof.
  revert fuel s. induction ds as [|d ds IH]; intros fuel s H Hf;
    (destruct fuel as [|fuel]; [cbn in Hf; lia|]); cbn [char_in length] in *;
    rewrite (cstr_load _ _ _ H); cbn [obind hd].
  - done.
  - apply cstr_cons in H as (_ & Hd & _ & H). destruct (Z.eqb_spec d 0); [done|].
    unfold is_sep. destruct (Z.eqb_spec d c) as [->|].
    + by rewrite bool_decide_true by (apply list_elem_of_here).
    + rewrite IH by (done || lia). f_equal. apply bool_decide_ext. rewrite elem_of_cons. naive_solver.
Qed.

Lemma strspn_loop_spec fuel m p s1 s2 l ds : cstr m p l -> cstr m s2 ds -> (length l < fuel)%nat ->
  strspn_loop fuel m p s1 s2 = Ret (p - s1 + Z.of_nat (length (take_while (is_sep ds) l))).
Proof.
  intros Hp Hs. revert fuel p Hp. induction l as [|b l IH]; intros fuel p Hp Hf;
    (destruct fuel as [|fuel]; [cbn in Hf; lia|]); cbn [strspn_loop length take_while] in *;
    rewrite (cstr_load _ _ _ Hp); cbn [obind hd];
    rewrite (char_in_spec _ _ _ ds) by (done || by apply cstr_fuel in Hs); cbn [obind].
  - unfold is_sep. rewrite bool_decide_false by (apply Hs). f_equal. cbn. lia.
  - apply cstr_cons in Hp as (_ & _ & _ & Hp). destruct (is_sep ds b); cbn [length].
    + rewrite IH by (done || lia). f_equal. lia.
    + f_equal. lia.
Qed.

Lemma strcspn_loop_spec fuel m p s1 s2 l ds : cstr m p l -> cstr m s2 ds -> (length l < fuel)%nat ->
  strcspn_loop fuel m p s1 s2 = Ret (p - s1 + Z.of_nat (length (take_while (not_sep ds) l))).
Proof.
  intros Hp Hs. revert fuel p Hp. induction l as [|b l IH]; intros fuel p Hp Hf;
    (destruct fuel as [|fuel]; [cbn in Hf; lia|]); cbn [strcspn_loop length take_while] in *;
    rewrite (cstr_load _ _ _ Hp); cbn [obind hd].
  - cbn. f_equal. lia.
  - apply cstr_cons in Hp as (_ & Hb & _ & Hp). destruct (Z.eqb_spec b 0); [done|].
    rewrite (char_in_spec _ _ _ ds) by (done || by apply cstr_fuel in Hs). cbn [obind].
    unfold not_sep at 1. destruct (is_sep ds b); cbn [length negb].
    + f_equal. lia.
    + rewrite IH by (done || lia). f_equal. lia.
Qed.

Lemma strpbrk_loop_spec fuel m s1 s2 l ds : cstr m s1 l -> cstr m s2 ds -> (length l < fuel)%nat ->
  strpbrk_loop fuel m s1 s2 = Ret (match drop_while (not_sep ds) l with
    | [] => 0 | _ => s1 + Z.of_nat (length (take_while (not_sep ds) l)) end).
Proof.
  intros Hp Hs. revert fuel s1 Hp. induction l as [|b l IH]; intros fuel s1 Hp Hf;
    (destruct fuel as [|fuel]; [cbn in Hf; lia|]); cbn [strpbrk_loop length take_while drop_while] in *;
    rewrite (cstr_load _ _ _ Hp); cbn [obind hd]; [done|].
  apply cstr_cons in Hp as (_ & Hb & _ & Hp). destruct (Z.eqb_spec b 0); [done|].
  rewrite (char_in_spec _ _ _ ds) by (done || by apply cstr_fuel in Hs). cbn [obind].
  unfold not_sep. destruct (is_sep ds b); cbn [length negb]; fold (not_sep ds).
  - f_equal. lia.
  - rewrite IH by (done || lia). f_equal. destruct (drop_while _ l); [done|]. lia.
Qed.

Lemma strspn_spec m s1 s2 l ds : cstr m s1 l -> cstr m s2 ds ->
  strspn m s1 s2 = Ret (Z.of_nat (length (take_while (is_sep ds) l))).
Proof.
  intros H1 H2. unfold strspn. rewrite (strspn_loop_spec _ _ _ _ _ l ds)
    by (done || by apply cstr_fuel in H1). f_equal. lia.
Qed.
End sets.

(** ** Tokens *)

(** The maximal runs of characters that are not separators. *)
Fixpoint tokens_from (ds cur l : list Z) : list (list Z) :=
  match l with
  | [] => match cur with [] => [] | _ => [reverse cur] end
  | b :: l =>
      if is_sep ds b then
        match cur with [] => tokens_from ds [] l | _ => reverse cur :: tokens_from ds [] l end
      else tokens_from ds (b :: cur) l
  end.

Definition tokens (ds l : list Z) : list (list Z) := tokens_from ds [] l.

(** The loop of the callers: [strtok_r(s, sep, &state)] until it gives NULL. *)
Fixpoint strtok_run (fuel : nat) (m : mem) (s sep state : Z) : outcome (list Z * mem) :=
  match fuel with
  | O => OutOfFuel
  | S fuel =>
      let! r := strtok_r m s sep state in
      let '(t, state, m) := r in
      if t =? 0 then Ret ([], m)
      else
        let! r := strtok_run fuel m 0 sep state in
        Ret (t :: fst r, snd r)
  end.

Section tokens.
Implicit Types (m : mem) (l ds : list Z).

Lemma tokens_skip ds l : tokens ds l = tokens ds (drop_while (is_sep ds) l).
Proof.
  unfold tokens. induction l as [|b l IH]; [done|]. cbn [drop_while tokens_from].
  destruct (is_sep ds b) eqn:E; [done|]. cbn [tokens_from]. by rewrite E.
Qed.

Lemma tokens_from_run ds cur l :
  tokens_from ds cur l = tokens_from ds (reverse (take_while (not_sep ds) l) ++ cur)
                           (drop_while (not_sep ds) l).
Proof.
  revert cur. induction l as [|b l IH]; intros cur; [done|].
  cbn [tokens_from take_while drop_while]. unfold not_sep at 1 3.
  destruct (is_sep ds b) eqn:E; cbn [negb].
  - cbn [reverse rev_append app tokens_from]. by rewrite E.
  - rewrite IH, reverse_cons, <- app_assoc. done.
Qed.

Lemma tokens_cons ds b l : is_sep ds b = false ->
  tokens ds (b :: l) = take_while (not_sep ds) (b :: l) :: tokens ds (tail (drop_while (not_sep ds) (b :: l))).
Proof.
  intros Hb. unfold tokens. rewrite tokens_from_run, app_nil_r.
  set (t := take_while _ _). assert (t <> []).
  { unfold t. cbn. unfold not_sep. by rewrite Hb. }
  assert (Hr : reverse t <> []).
  { intros Hr. apply (f_equal reverse) in Hr. by rewrite reverse_involutive in Hr. }
  destruct (drop_while _ _) as [|c r] eqn:Ed; cbn [tokens_from tail].
  - destruct (reverse t) eqn:E; [done|]. by rewrite <- E, reverse_involutive.
  - assert (is_sep ds c = true) as ->.
    { clear -Ed. induction (b :: l) as [|x k IH]; [done|]. cbn [drop_while] in Ed.
      unfold not_sep at 1 in Ed. destruct (is_sep ds x) eqn:E; cbn [negb] in Ed; [by simplify_eq|auto]. }
    destruct (reverse t) eqn:E; [done|]. by rewrite <- E, reverse_involutive.
Qed.

(** One call of [strtok_r]. *)
Lemma strtok_r_step m s sep state p l ds (l' := drop_while (is_sep ds) l) :
  p = (if s =? 0 then state else s) -> 0 < p -> cstr m p l -> cstr m sep ds ->
  disjoint_range p (Z.of_nat (length l) + 1) sep (Z.of_nat (length ds) + 1) ->
  match l' with
  | [] => strtok_r m s sep state = Ret (0, p + Z.of_nat (length l), m)
  | _ :: _ =>
      let t := take_while (not_sep ds) l' in
      let rest := tail (drop_while (not_sep ds) l') in
      exists start state' m', strtok_r m s sep state = Ret (start, state', m') /\
        p <= start /\ start + Z.of_nat (length t) <= state' /\
        state' + Z.of_nat (length rest) <= p + Z.of_nat (length l) /\
        (forall x, x < start + Z.of_nat (length t) \/ state' <= x -> m' !! x = m !! x) /\
        cstr m' start t /\ cstr m' state' rest /\ cstr m' sep ds
  end.
Proof.
  intros Hp Hp0 Hl Hs Ho. unfold strtok_r. rewrite <- Hp. clear Hp.
  rewrite (strspn_spec _ _ _ l ds) by done. cbn [obind].
  pose proof (take_while_length (is_sep ds) l) as Hn. unfold l'. rewrite drop_while_drop.
  pose proof (f_equal length (take_drop_while (is_sep ds) l)) as Hlen.
  rewrite length_app, drop_while_drop in Hlen.
  set (n := length (take_while (is_sep ds) l)) in *. clearbody n. clear l'.
  pose proof (cstr_drop _ _ _ n Hn Hl) as Hc. rewrite (cstr_load _ _ _ Hc). cbn [obind].
  unfold disjoint_range in Ho.
  destruct (drop n l) as [|b k] eqn:Ek.
  { cbn [hd Z.eqb]. cbn [length] in Hlen. do 3 f_equal. lia. }
  pose proof Hc as (_ & Hb & _ & _)%cstr_cons. cbn [hd].
  destruct (Z.eqb_spec b 0); [done|]. clear Hb.
  set (l' := b :: k) in *. set (q := p + Z.of_nat n) in *.
  unfold strpbrk. rewrite (strpbrk_loop_spec _ _ _ _ l' ds) by (done || by apply cstr_fuel in Hc).
  cbn [obind]. pose proof (f_equal length (take_drop_while (not_sep ds) l')) as Hlen2.
  rewrite length_app in Hlen2. pose proof (take_while_length (not_sep ds) l') as Ht.
  pose proof (cstr_drop _ _ _ _ Ht Hc) as Hd. rewrite <- drop_while_drop in Hd.
  pose proof (take_drop_while (not_sep ds) l') as Happ.
  set (t := take_while (not_sep ds) l') in *.
  destruct (drop_while (not_sep ds) l') as [|c r] eqn:Ed; cbn [tail length] in *.
  - cbn [Z.eqb negb]. rewrite (strlen_spec _ _ l') by done. cbn [obind]. rewrite app_nil_r in Happ.
    eexists _, _, _. split; [done|]. rewrite Happ. cbn [length]. split_and!; try done; try lia.
    apply cstr_nil. destruct Hc as [Hc _]. apply bytes_at_app in Hc as [_ Hc].
    by apply bytes_at_cons in Hc as (_ & ? & _).
  - destruct (Z.eqb_spec (q + Z.of_nat (length t)) 0); [lia|]. cbn [negb].
    apply cstr_cons in Hd as (_ & _ & Hx & Hr).
    rewrite (store8_mapped _ _ 1); [|intros i Hi; replace i with 0 by lia;
      rewrite Z.add_0_r; eauto|lia|done]. cbn [obind].
    eexists _, _, _. split; [done|]. split_and!; try lia.
    + intros x Hx'. rewrite lookup_insert_ne; [done|lia].
    + split.
      * apply bytes_at_app. split.
        -- pose proof (cstr_take_bytes _ _ l' (length t) Hc Ht) as Hbt.
           rewrite <- Happ, take_app_length in Hbt.
           eapply bytes_at_ext; [|exact Hbt]. intros y Hy. rewrite lookup_insert_ne; [done|lia].
        -- apply bytes_at_cons. split_and!; [done| |apply bytes_at_nil]. apply lookup_insert_eq.
      * intros Hin. destruct Hc as [_ Hc]. apply Hc. rewrite <- Happ. apply elem_of_app. by left.
    + eapply cstr_ext; [|exact Hr]. intros y Hy. rewrite lookup_insert_ne; [done|lia].
    + eapply cstr_ext; [|exact Hs]. intros y Hy. rewrite lookup_insert_ne; [done|lia].
Qed.

(** All calls together: the tokens, each ended by a NUL in the string itself. *)
Lemma strtok_run_spec fuel m s sep state p l ds :
  p = (if s =? 0 then state else s) -> 0 < p -> cstr m p l -> cstr m sep ds ->
  disjoint_range p (Z.of_nat (length l) + 1) sep (Z.of_nat (length ds) + 1) ->
  (length l < fuel)%nat ->
  exists ps m', strtok_run fuel m s sep state = Ret (ps, m') /\
    Forall2 (fun a t => p <= a /\ cstr m' a t) ps (tokens ds l) /\
    forall x, x <= p \/ p + Z.of_nat (length l) <= x -> m' !! x = m !! x.
Proof.
  revert m s state p l. induction fuel as [|fuel IH]; intros m s state p l Hp H0 Hl Hs Ho Hf; [lia|].
  cbn [strtok_run]. pose proof (strtok_r_step m s sep state p l ds Hp H0 Hl Hs Ho) as Hstep.
  rewrite (tokens_skip ds l). pose proof (drop_while_hd (is_sep ds) l) as Hhd.
  pose proof (take_drop_while (is_sep ds) l) as Hlen. apply (f_equal length) in Hlen.
  rewrite length_app in Hlen.
  destruct (drop_while (is_sep ds) l) as [|b k] eqn:Ek.
  { rewrite Hstep. cbn [obind Z.eqb]. exists [], m. split_and!; [done|constructor|done]. }
  destruct Hstep as (start & state' & m1 & -> & Hst & Hst' & Hend & Hfr & Ht & Hrest & Hsep).
  cbn [obind]. destruct (Z.eqb_spec start 0); [lia|]. rewrite tokens_cons by done.
  assert (Htl : (0 < length (take_while (not_sep ds) (b :: k)))%nat).
  { cbn. unfold not_sep. rewrite Hhd. cbn. lia. }
  set (t := take_while _ _) in *. set (rest := tail _) in *. unfold disjoint_range in Ho.
  destruct (IH m1 0 state' state' rest) as (ps & m' & -> & HF & Hfr');
    [done|lia|done|done|unfold disjoint_range; lia|lia|].
  cbn [obind fst snd]. exists (start :: ps), m'. split_and!; [done| |].
  - constructor.
    + split; [lia|]. eapply cstr_ext; [|exact Ht]. intros x Hx. apply Hfr'. lia.
    + eapply Forall2_impl; [|exact HF]. intros a u [? ?]. split; [lia|done].
  - intros x Hx. rewrite Hfr' by lia. apply Hfr. lia.
Qed.
End tokens.

(** ** Substrings *)

(** The string [n] stands in [h] at index [i]. *)
Definition occurs (n h : list Z) (i : nat) : Prop :=
  (i <= length h)%nat /\ n `prefix_of` drop i h.

Section substrings.
Implicit Types (m : mem) (l : list Z).

Lemma strstr_match_spec fuel m h n lh ln : cstr m h lh -> cstr m n ln -> (length ln < fuel)%nat ->
  strstr_match fuel m h n = Ret (bool_decide (ln `prefix_of` lh)).
Proof.
  revert fuel h n lh. induction ln as [|b ln IH]; intros fuel h n lh Hh Hn Hf;
    (destruct fuel as [|fuel]; [cbn in Hf; lia|]); cbn [strstr_match length] in *;
    rewrite (cstr_load _ _ _ Hh), (cstr_load _ _ _ Hn); cbn [obind hd].
  - rewrite andb_false_r. cbn. by rewrite bool_decide_true by apply prefix_nil.
  - apply cstr_cons in Hn as (_ & Hb & _ & Hn). destruct (Z.eqb_spec b 0) as [|_]; [done|].
    destruct lh as [|a lh]; cbn [hd].
    { cbn. rewrite bool_decide_false by (by intros ?%prefix_nil_not). done. }
    apply cstr_cons in Hh as (_ & Ha & _ & Hh). destruct (Z.eqb_spec a 0) as [|_]; [done|].
    cbn [negb andb]. destruct (Z.eqb_spec a b) as [->|Hab].
    + rewrite (IH _ _ _ lh) by (done || lia). f_equal. apply bool_decide_ext. split.
      * apply prefix_cons.
      * apply prefix_cons_inv_2.
    + rewrite bool_decide_false; [done|]. intros H. by apply prefix_cons_inv_1 in H.
Qed.

Lemma strstr_loop_spec fuel m s1 s2 l1 l2 : cstr m s1 l1 -> cstr m s2 l2 -> l2 <> [] ->
  (length l1 < fuel)%nat ->
  (exists i, occurs l2 l1 i /\ (forall j, occurs l2 l1 j -> (i <= j)%nat) /\
     strstr_loop fuel m s1 s2 = Ret (s1 + Z.of_nat i)) \/
  ((forall i, ~ occurs l2 l1 i) /\ strstr_loop fuel m s1 s2 = Ret 0).
Proof.
  intros H1 H2 Hne. revert fuel s1 H1.
  induction l1 as [|a l1 IH]; intros fuel s1 H1 Hf;
    (destruct fuel as [|fuel]; [cbn in Hf; lia|]); cbn [strstr_loop length] in *;
    rewrite (cstr_load _ _ _ H1); cbn [obind hd].
  - right. split; [|done]. intros i [_ Hp]. rewrite drop_nil in Hp.
    destruct l2; [done|]. by apply prefix_nil_not in Hp.
  - rewrite (strstr_match_spec _ _ _ _ (a :: l1) l2) by (done || by apply cstr_fuel in H2).
    pose proof H1 as (_ & Ha & _ & H1')%cstr_cons. destruct (Z.eqb_spec a 0); [done|]. cbn [obind].
    case_bool_decide as Hp.
    + left. exists 0%nat. split_and!; [split; [lia|done]|lia|]. by rewrite Z.add_0_r.
    + destruct (IH fuel (s1 + 1) H1' ltac:(lia)) as [(i & Hi & Hmin & ->)|[Hno ->]]; [left|right].
      * exists (S i). split_and!; [destruct Hi; split; cbn; [lia|done]| |f_equal; lia].
        intros [|j] [Hj Hpj]; [done|]. cbn in Hj. apply le_n_S, Hmin. split; [lia|done].
      * split; [|done]. intros [|j] [Hj Hpj]; [done|]. cbn in Hj. apply (Hno j). split; [lia|done].
Qed.
End substrings.

(** ** Duplicates *)

Section duplicate_laws.
Context `{Malloc}.
Implicit Types (m : mem) (l : list Z).

(** A fresh block and a mapped one do not overlap. *)
Lemma fresh_disjoint m p n s k : 0 < n -> 0 < k -> (forall i, 0 <= i < n -> m !! (p + i) = None) -> mapped m s k ->
  disjoint_range p n s k.
Proof.
  intros Hn Hk Hf Hm. unfold disjoint_range. destruct (decide (p + n <= s \/ s + k <= p)); [done|].
  destruct (Z_le_dec p s).
  - destruct (Hm 0) as [b Hb]; [lia|]. specialize (Hf (s - p)).
    replace (p + (s - p)) with (s + 0) in Hf by lia. rewrite Hf in Hb by lia. done.
  - destruct (Hm (p - s)) as [b Hb]; [lia|]. specialize (Hf 0).
    replace (s + (p - s)) with (p + 0) in Hb by lia. rewrite Hf in Hb by lia. done.
Qed.

Lemma strdup_spec m s l : cstr m s l ->
  exists p m', strdup m s = Ret (p, m') /\
    (p = 0 /\ m' = m \/
     p <> 0 /\ cstr m' p l /\ (forall i, 0 <= i <= Z.of_nat (length l) -> m !! (p + i) = None) /\
     forall x, is_Some (m !! x) -> m' !! x = m !! x).
Proof.
  intros Hs. unfold strdup. rewrite (strlen_spec _ _ l) by done. cbn [obind].
  set (n := Z.of_nat (length l) + 1). assert (Hl : n = Z.of_nat (length (l ++ [0]))).
  { rewrite length_app. cbn. lia. }
  destruct (malloc_spec m n ltac:(lia)) as (p & m' & -> & Hp). cbn [obind].
  destruct Hp as [[-> ->]|(Hp & Hm & Hf & Hfr)].
  { exists 0, m. auto. }
  destruct (Z.eqb_spec p 0); [done|].
  pose proof (bytes_at_mapped _ _ _ (cstr_bytes _ _ _ Hs)) as Hsm. rewrite <- Hl in Hsm.
  pose proof (fresh_disjoint m p n s n ltac:(lia) ltac:(lia) Hf Hsm) as Hd.
  assert (Hc : cstr m' s l).
  { eapply cstr_ext; [|exact Hs]. intros x Hx. apply Hfr.
    replace x with (s + (x - s)) by lia. apply Hsm. lia. }
  rewrite (memcpy_spec _ _ _ (l ++ [0])) by (done || by apply cstr_bytes). cbn [obind snd].
  eexists _, _. split; [done|]. right. split_and!; [done| | |].
  - split; [|by destruct Hc]. apply bytes_at_write. by destruct Hc as [[? _] _].
  - intros i Hi. apply Hf. lia.
  - intros x Hx. rewrite lookup_write_bytes_out; [by apply Hfr|]. rewrite <- Hl.
    destruct (decide (x < p \/ p + n <= x)); [done|]. specialize (Hf (x - p)).
    replace (p + (x - p)) with x in Hf by lia. rewrite Hf in Hx by lia. by destruct Hx.
Qed.
End duplicate_laws.

(** ** The properties *)

(** A memory for the witnesses: the string a;bc at 16, the separator string ; at
    32, a free block of 16 bytes at 48. *)
Definition demo : mem :=
  write_bytes (write_bytes (write_bytes ∅ 16 [97; 59; 98; 99; 0]) 32 [59; 0]) 48 (replicate 16 7).

Ltac demo_tac := first [ apply cstr_checked; vm_compute; reflexivity
  | apply bytes_at_checked; vm_compute; reflexivity
  | apply mapped_checked; vm_compute; reflexivity
  | unfold disjoint_range; cbn; lia | cbn; lia | discriminate ].

(** [memmove] is right for every overlap of the two blocks: the
    destination ends up with the bytes the source had before the call, and
    nothing else changes. *)
Theorem memmove_correct m s1 s2 l :
  bytes_at m s2 l -> mapped m s1 (Z.of_nat (length l)) ->
  memmove m s1 s2 (Z.of_nat (length l)) = Ret (s1, write_bytes m s1 l).
Proof.
  intros Hs Hd. unfold memmove. rewrite Nat2Z.id. destruct (Z.ltb_spec s1 s2).
  - rewrite copy_up_spec by (done || lia). done.
  - rewrite copy_down_spec by (done || lia). done.
Qed.

Lemma memmove_witness :
  memmove demo 17 16 4 = Ret (17, write_bytes demo 17 [97; 59; 98; 99]).
Proof. apply (memmove_correct demo 17 16 [97; 59; 98; 99]); demo_tac. Defined.

(** The word-at-a-time [memcpy] copies exactly the [n] bytes of two blocks
    that do not overlap, whatever [n] is modulo the word size, and [memset]
    fills exactly [n] bytes with the low byte of its argument. *)
Theorem memcpy_memset_correct m s1 s2 c l (n := Z.of_nat (length l)) :
  bytes_at m s2 l -> mapped m s1 n -> disjoint_range s1 n s2 n ->
  memcpy m s1 s2 n = Ret (s1, write_bytes m s1 l) /\
  memset m s1 c n = Ret (s1, write_bytes m s1 (replicate (length l) (u8 c))).
Proof.
  intros Hs Hd Ho. split; [by apply memcpy_spec|].
  unfold memset, n. by rewrite Nat2Z.id, memset_loop_spec.
Qed.

Lemma memcpy_memset_witness :
  memcpy demo 50 48 0 = Ret (50, demo) /\
  (memcpy demo 49 16 5 = Ret (49, write_bytes demo 49 [97; 59; 98; 99; 0]) /\
   memset demo 49 (-1) 5 = Ret (49, write_bytes demo 49 (replicate 5 255))).
Proof.
  split; [vm_compute; reflexivity|].
  apply (memcpy_memset_correct demo 49 16 (-1) [97; 59; 98; 99; 0]); demo_tac.
Defined.

(** The comparisons agree with the dictionary order on bytes: the sign of
    [strcmp] says which string comes first and 0 that they are equal, and
    [strncmp] does the same for the prefixes of [n] characters. *)
Theorem strcmp_lexicographic m s1 s2 l1 l2 n :
  cstr m s1 l1 -> cstr m s2 l2 ->
  (exists r, strcmp m s1 s2 = Ret r /\
     (r = 0 <-> l1 = l2) /\ (r < 0 <-> lex_lt l1 l2) /\ (0 < r <-> lex_lt l2 l1)) /\
  (exists r, strncmp m s1 s2 n = Ret r /\
     let k := Z.to_nat n in
     (r = 0 <-> take k l1 = take k l2) /\ (r < 0 <-> lex_lt (take k l1) (take k l2)) /\
     (0 < r <-> lex_lt (take k l2) (take k l1))).
Proof.
  intros H1 H2. split.
  - exists (first_diff l1 l2). split.
    + apply strcmp_loop_spec; [done..|by apply cstr_fuel in H1].
    + apply first_diff_order; by eauto using cstr_byte, cstr_no_nul.
  - eexists. split; [by apply strncmp_loop_spec|].
    apply first_diff_order; try apply Forall_take; eauto using cstr_byte, take_no_nul, cstr_no_nul.
Qed.

Lemma strcmp_witness :
  (exists r, strcmp demo 16 18 = Ret r /\
     (r = 0 <-> [97; 59; 98; 99] = [98; 99]) /\ (r < 0 <-> lex_lt [97; 59; 98; 99] [98; 99]) /\
     (0 < r <-> lex_lt [98; 99] [97; 59; 98; 99])) /\
  (exists r, strncmp demo 16 18 1 = Ret r /\
     (r = 0 <-> [97] = [98]) /\ (r < 0 <-> lex_lt [97] [98]) /\ (0 < r <-> lex_lt [98] [97])).
Proof. apply (strcmp_lexicographic demo 16 18 [97; 59; 98; 99] [98; 99] 1); demo_tac. Defined.

(** C26: bounded copies.  [strlcpy] and [strlcat] write inside the [size] bytes
    of the destination only, always end it with a NUL, cut the source where it
    does not fit and return the length the untruncated result would have;
    [strncpy] writes exactly [size] bytes, the string cut or padded with NULs. *)
Theorem bounded_copies_correct m dst src size l1 l2 :
  cstr m src l2 -> cstr m dst l1 -> Z.of_nat (length l1) < size -> mapped m dst size ->
  disjoint_range dst size src (Z.of_nat (length l2) + 1) ->
  let n1 := Z.of_nat (length l1) in
  strlcpy m dst src size
    = Ret (Z.of_nat (length l2), write_bytes m dst (take (Z.to_nat (size - 1)) l2 ++ [0])) /\
  strlcat m dst src size
    = Ret (n1 + Z.of_nat (length l2),
           write_bytes m (dst + n1) (take (Z.to_nat (size - n1 - 1)) l2 ++ [0])) /\
  strncpy m dst src size
    = Ret (dst, write_bytes m dst (take (Z.to_nat size) (l2 ++ replicate (Z.to_nat size) 0))).
Proof.
  intros H2 H1 Hz Hm Hd n1. split_and!.
  - apply strlcpy_spec; (done || lia).
  - by apply strlcat_spec.
  - unfold strncpy. rewrite (strncpy_loop_spec _ _ _ _ l2); rewrite ?Z2Nat.id by lia; done.
Qed.

Lemma bounded_copies_witness :
  strlcpy demo 32 16 2 = Ret (4, write_bytes demo 32 [97; 0]) /\
  strlcat demo 32 16 2 = Ret (5, write_bytes demo 33 [0]) /\
  strncpy demo 32 16 2 = Ret (32, write_bytes demo 32 [97; 59]).
Proof. apply (bounded_copies_correct demo 32 16 2 [59] [97; 59; 98; 99]); demo_tac. Defined.

(** [strstr] returns the address of the first occurrence of the second
    string in the first, and NULL exactly when there is none; an empty second
    string is found at once. *)
Theorem strstr_first_occurrence m s1 s2 l1 l2 :
  cstr m s1 l1 -> cstr m s2 l2 ->
  (exists i, occurs l2 l1 i /\ (forall j, occurs l2 l1 j -> (i <= j)%nat) /\
     strstr m s1 s2 = Ret (s1 + Z.of_nat i)) \/
  ((forall i, ~ occurs l2 l1 i) /\ strstr m s1 s2 = Ret 0).
Proof.
  intros H1 H2. unfold strstr. rewrite (cstr_load _ _ _ H2). cbn [obind].
  destruct l2 as [|b l2]; cbn [hd].
  - left. exists 0%nat. split_and!; [split; [lia|apply prefix_nil]|lia|]. by rewrite Z.add_0_r.
  - pose proof H2 as (_ & Hb & _ & _)%cstr_cons. destruct (Z.eqb_spec b 0); [done|].
    apply strstr_loop_spec; [done..|by apply cstr_fuel in H1].
Qed.

Lemma strstr_witness :
  (exists i, occurs [98; 99] [97; 59; 98; 99] i /\
     (forall j, occurs [98; 99] [97; 59; 98; 99] j -> (i <= j)%nat) /\
     strstr demo 16 18 = Ret (16 + Z.of_nat i)) \/
  ((forall i, ~ occurs [98; 99] [97; 59; 98; 99] i) /\ strstr demo 16 18 = Ret 0).
Proof. apply (strstr_first_occurrence demo 16 18 [97; 59; 98; 99] [98; 99]); demo_tac. Defined.

(** C27: calling [strtok_r] until it gives NULL terminates and splits the
    string into its maximal runs of characters that are not separators, in
    order, each one a NUL-terminated string inside the original buffer; no byte
    outside the buffer changes. *)
Theorem strtok_splits m s sep l ds :
  0 < s -> cstr m s l -> cstr m sep ds ->
  disjoint_range s (Z.of_nat (length l) + 1) sep (Z.of_nat (length ds) + 1) ->
  exists ps m', strtok_run (S (length l)) m s sep 0 = Ret (ps, m') /\
    Forall2 (fun a t => s <= a /\ cstr m' a t) ps (tokens ds l) /\
    forall x, x <= s \/ s + Z.of_nat (length l) <= x -> m' !! x = m !! x.
Proof.
  intros H0 H1 H2 Hd. apply strtok_run_spec; try done; [|lia].
  destruct (Z.eqb_spec s 0); [lia|done].
Qed.

Lemma strtok_witness :
  tokens [59] [97; 59; 98; 99] = [[97]; [98; 99]] /\
  exists ps m', strtok_run 5 demo 16 32 0 = Ret (ps, m') /\
    Forall2 (fun a t => 16 <= a /\ cstr m' a t) ps [[97]; [98; 99]] /\
    forall x, x <= 16 \/ 20 <= x -> m' !! x = demo !! x.
Proof. split; [reflexivity|]. apply (strtok_splits demo 16 32 [97; 59; 98; 99] [59]); demo_tac. Defined.

(** Against every allocator that keeps the promise of [Malloc], [strdup]
    returns NULL and changes nothing, or returns a fresh block that holds a
    copy of the string, leaving every byte that was mapped before as it was. *)
Theorem strdup_copies `{Malloc} m s l : cstr m s l ->
  exists p m', strdup m s = Ret (p, m') /\
    (p = 0 /\ m' = m \/
     p <> 0 /\ cstr m' p l /\ (forall i, 0 <= i <= Z.of_nat (length l) -> m !! (p + i) = None) /\
     forall x, is_Some (m !! x) -> m' !! x = m !! x).
Proof. apply strdup_spec. Qed.

(** An allocator that puts each block after everything that is mapped. *)
#[local] Program Instance bump_malloc : Malloc := {|
  malloc m n := Ret (mem_top m, write_bytes m (mem_top m) (replicate (Z.to_nat n) 170)) |}.
Next Obligation.
  intros m n Hn. destruct (mem_top_spec m) as [H1 H2]. cbn. do 2 eexists. split; [done|]. right.
  split_and!; [lia| | |].
  - intros i Hi. rewrite lookup_write_bytes, length_replicate, decide_True by lia.
    apply lookup_lt_is_Some_2. rewrite length_replicate. lia.
  - intros i Hi. destruct (m !! (mem_top m + i)) eqn:E; [|done].
    assert (mem_top m + i < mem_top m) by eauto. lia.
  - intros x Hx. apply lookup_write_bytes_out. specialize (H2 x Hx). lia.
Qed.

Lemma strdup_witness : exists p m', strdup demo 16 = Ret (p, m') /\
  (p = 0 /\ m' = demo \/
   p <> 0 /\ cstr m' p [97; 59; 98; 99] /\ (forall i, 0 <= i <= 4 -> demo !! (p + i) = None) /\
   forall x, is_Some (demo !! x) -> m' !! x = demo !! x).
Proof. apply (strdup_copies demo 16 [97; 59; 98; 99]); demo_tac. Defined.
