(* ===== verification/KernelMemop.v ===== *)
(** * The kernel's memory block operations

    Model of [Kernel/library/memop.c]: [memcpy_unsafe], [memset_unsafe] and
    [memmove_unsafe] in their [__GNUC__], little-endian, 64-bit form.  A
    pointer is an address, [n] is a [size_t]; accesses through [u32], [u64] and
    [WT] are little-endian accesses of 4 and 8 bytes. *)

From S2P Require Import Prelude CMem.

(** ** memcpy_unsafe *)

(** [for (; (uintptr_t)s % 4 && n; n--) *d++ = *s++;] *)
Fixpoint align_source (n : nat) (m : mem) (d s : Z) : outcome (mem * Z * Z * Z) :=
  match n with
  | O => Ret (m, d, s, 0)
  | S n' =>
      if s mod 4 =? 0 then Ret (m, d, s, Z.of_nat n)
      else
        let! m := copy_up 1 m d s in
        align_source n' m (d + 1) (s + 1)
  end.

(** The statements under [if (n & k)] move both pointers by [k] bytes. *)
Definition if_bit (n k : Z) (copy : mem -> Z -> Z -> outcome mem)
    (st : mem * Z * Z) : outcome (mem * Z * Z) :=
  let '(m, d, s) := st in
  if negb (Z.land n k =? 0) then let! m := copy m d s in Ret (m, d + k, s + k)
  else Ret st.

(** [for (; n >= 16; s += 16, d += 16, n -= 16)] with four word copies. *)
Fixpoint copy_16 (fuel : nat) (m : mem) (d s n : Z) : outcome (mem * Z * Z * Z) :=
  match fuel with
  | O => OutOfFuel
  | S fuel =>
      if n >=? 16 then
        let! m := copy_words 4 4 m d s in
        copy_16 fuel m (d + 16) (s + 16) (n - 16)
      else Ret (m, d, s, n)
  end.

Definition copy_aligned (m : mem) (d s n : Z) : outcome mem :=
  let! r := copy_16 (S (Z.to_nat n)) m d s n in
  let '(m, d, s, n) := r in
  let! st := if_bit n 8 (copy_words 4 2) (m, d, s) in
  let! st := if_bit n 4 (copy_words 4 1) st in
  let! st := if_bit n 2 (copy_up 2) st in
  let! st := if_bit n 1 (copy_up 1) st in
  Ret (fst (fst st)).

(** One assignment of the shifting loops: read the next word at [s + off] and
    store at [d + at] the bytes the two words have there.  [sl] and [sr] are
    the shifts of [LS] and [RS]. *)
Definition shift_word (off sl sr at_ : Z) (m : mem) (d s w : Z) : outcome (mem * Z) :=
  let! x := load_le m (s + (off + at_)) 4 in
  let! m := store_le m (d + at_) 4 (u32 (Z.lor (Z.shiftr w sl) (u32 (Z.shiftl x sr)))) in
  Ret (m, x).

(** [for (; n >= 16 + off; s += 16, d += 16, n -= 16)] *)
Fixpoint shift_16 (fuel : nat) (off sl sr : Z) (m : mem) (d s n w : Z)
    : outcome (mem * Z * Z * Z) :=
  match fuel with
  | O => OutOfFuel
  | S fuel =>
      if n >=? 16 + off then
        let! r := shift_word off sl sr 0 m d s w in let '(m, x) := r in
        let! r := shift_word off sl sr 4 m d s x in let '(m, w) := r in
        let! r := shift_word off sl sr 8 m d s w in let '(m, x) := r in
        let! r := shift_word off sl sr 12 m d s x in let '(m, w) := r in
        shift_16 fuel off sl sr m (d + 16) (s + 16) (n - 16) w
      else Ret (m, d, s, n)
  end.

(** A case of the switch: [head] single bytes, then the shifting loop. *)
Definition shift_case (head : nat) (off sl sr : Z) (m : mem) (d s n : Z)
    : outcome (mem * Z * Z * Z) :=
  let! w := load_le m s 4 in
  let! m := copy_up head m d s in
  shift_16 (S (Z.to_nat n)) off sl sr m (d + Z.of_nat head) (s + Z.of_nat head)
    (n - Z.of_nat head) w.

Definition copy_shifted (m : mem) (d s n : Z) : outcome (mem * Z * Z * Z) :=
  if n >=? 32 then
    if d mod 4 =? 1 then shift_case 3 1 24 8 m d s n
    else if d mod 4 =? 2 then shift_case 2 2 16 16 m d s n
    else if d mod 4 =? 3 then shift_case 1 3 8 24 m d s n
    else Ret (m, d, s, n)
  else Ret (m, d, s, n).

(** The last bytes of the unaligned case. *)
Definition copy_rest (m : mem) (d s n : Z) : outcome mem :=
  let! st := if_bit n 16 (copy_up 16) (m, d, s) in
  let! st := if_bit n 8 (copy_up 8) st in
  let! st := if_bit n 4 (copy_up 4) st in
  let! st := if_bit n 2 (copy_up 2) st in
  let! st := if_bit n 1 (copy_up 1) st in
  Ret (fst (fst st)).

Definition memcpy_unsafe (m : mem) (dest src n : Z) : outcome (Z * mem) :=
  let! r := align_source (Z.to_nat n) m dest src in
  let '(m, d, s, n) := r in
  if d mod 4 =? 0 then
    let! m := copy_aligned m d s n in Ret (dest, m)
  else
    let! r := copy_shifted m d s n in
    let '(m, d, s, n) := r in
    let! m := copy_rest m d s n in Ret (dest, m).

(** ** memset_unsafe *)

(** [u32 c32 = ((u32)-1) / 255 * (unsigned char)c] *)
Definition c32_of (c : Z) : Z := u32 ((2 ^ 32 - 1) / 255 * u8 c).

(** [c32 | ((u64)c32 << 32)] *)
Definition c64_of (c32 : Z) : Z := Z.lor c32 (u64 (Z.shiftl c32 32)).

(** [for (; n >= 32; n -= 32, s += 32)] with four 8-byte stores. *)
Fixpoint set_32 (fuel : nat) (m : mem) (s n c64 : Z) : outcome mem :=
  match fuel with
  | O => OutOfFuel
  | S fuel =>
      if n >=? 32 then
        let! m := store_le m (s + 0) 8 c64 in
        let! m := store_le m (s + 8) 8 c64 in
        let! m := store_le m (s + 16) 8 c64 in
        let! m := store_le m (s + 24) 8 c64 in
        set_32 fuel m (s + 32) (n - 32) c64
      else Ret m
  end.

(** The word stores after the alignment of [s], with their early returns. *)
Definition memset_words (m : mem) (s n c : Z) : outcome mem :=
  let c32 := c32_of c in
  let! m := store_le m (s + 0) 4 c32 in
  let! m := store_le m (s + n - 4) 4 c32 in
  if n <=? 8 then Ret m else
  let! m := store_le m (s + 4) 4 c32 in
  let! m := store_le m (s + 8) 4 c32 in
  let! m := store_le m (s + n - 12) 4 c32 in
  let! m := store_le m (s + n - 8) 4 c32 in
  if n <=? 24 then Ret m else
  let! m := store_le m (s + 12) 4 c32 in
  let! m := store_le m (s + 16) 4 c32 in
  let! m := store_le m (s + 20) 4 c32 in
  let! m := store_le m (s + 24) 4 c32 in
  let! m := store_le m (s + n - 28) 4 c32 in
  let! m := store_le m (s + n - 24) 4 c32 in
  let! m := store_le m (s + n - 20) 4 c32 in
  let! m := store_le m (s + n - 16) 4 c32 in
  let k := 24 + Z.land s 4 in
  set_32 (S (Z.to_nat n)) m (s + k) (n - k) (c64_of c32).

Definition memset_unsafe (m : mem) (dest c n : Z) : outcome (Z * mem) :=
  let s := dest in
  if n =? 0 then Ret (dest, m) else
  let! m := store8 m (s + 0) c in
  let! m := store8 m (s + (n - 1)) c in
  if n <=? 2 then Ret (dest, m) else
  let! m := store8 m (s + 1) c in
  let! m := store8 m (s + 2) c in
  let! m := store8 m (s + (n - 2)) c in
  let! m := store8 m (s + (n - 3)) c in
  if n <=? 6 then Ret (dest, m) else
  let! m := store8 m (s + 3) c in
  let! m := store8 m (s + (n - 4)) c in
  if n <=? 8 then Ret (dest, m) else
  let k := Z.land (u64 (- s)) 3 in
  let s := s + k in
  let n := Z.land (n - k) (u64 (-4)) in
  let! m := memset_words m s n c in Ret (dest, m).

(** ** memmove_unsafe *)

(** The [memcpy] that [memmove_unsafe] calls is chosen when the kernel starts
    (the SIMD variants or [memcpy_unsafe]); this is what it promises. *)
Class KernelMemcpy := {
  kernel_memcpy : mem -> Z -> Z -> Z -> outcome (Z * mem);
  memcpy_law m d s l (n := Z.of_nat (length l)) :
    0 < n -> bytes_at m s l -> mapped m d n -> disjoint_range d n s n ->
    kernel_memcpy m d s n = Ret (d, write_bytes m d l)
}.

(** [while ((uintptr_t)d % WS) { if (!n--) return dest; *d++ = *s++; }]:
    [None] is the early return. *)
Fixpoint align_up (n : nat) (m : mem) (d s : Z) : outcome (mem * option (Z * Z * Z)) :=
  if d mod 8 =? 0 then Ret (m, Some (d, s, Z.of_nat n))
  else
    match n with
    | O => Ret (m, None)
    | S n => let! m := copy_up 1 m d s in align_up n m (d + 1) (s + 1)
    end.

(** [while ((uintptr_t)(d + n) % WS) { if (!n--) return dest; d[n] = s[n]; }] *)
Fixpoint align_down (n : nat) (m : mem) (d s : Z) : outcome (mem * option Z) :=
  if (d + Z.of_nat n) mod 8 =? 0 then Ret (m, Some (Z.of_nat n))
  else
    match n with
    | O => Ret (m, None)
    | S n =>
        let! b := load8 m (s + Z.of_nat n) in
        let! m := store8 m (d + Z.of_nat n) b in
        align_down n m d s
    end.

(** [while (n >= WS) n -= WS, *(WT * )(d + n) = *(WT * )(s + n);] *)
Fixpoint words_down (fuel : nat) (m : mem) (d s n : Z) : outcome (mem * Z) :=
  match fuel with
  | O => OutOfFuel
  | S fuel =>
      if n >=? 8 then
        let n := n - 8 in
        let! v := load_le m (s + n) 8 in
        let! m := store_le m (d + n) 8 v in
        words_down fuel m d s n
      else Ret (m, n)
  end.

(** [for (; n >= WS; n -= WS, d += WS, s += WS)] *)
Definition words_up (m : mem) (d s n : Z) : outcome (mem * Z * Z * Z) :=
  let k := n / 8 in
  let! m := copy_words 8 (Z.to_nat k) m d s in
  Ret (m, d + 8 * k, s + 8 * k, n - 8 * k).

(** The two branches of [memmove_unsafe] for overlapping blocks. *)
Definition move_up (m : mem) (dest src n : Z) : outcome (Z * mem) :=
  let d := dest in
  let s := src in
  if s mod 8 =? d mod 8 then
    let! r := align_up (Z.to_nat n) m d s in
    match r with
    | (m, None) => Ret (dest, m)
    | (m, Some (d, s, n)) =>
        let! r := words_up m d s n in
        let '(m, d, s, n) := r in
        let! m := copy_up (Z.to_nat n) m d s in Ret (dest, m)
    end
  else let! m := copy_up (Z.to_nat n) m d s in Ret (dest, m).

Definition move_down (m : mem) (dest src n : Z) : outcome (Z * mem) :=
  let d := dest in
  let s := src in
  if s mod 8 =? d mod 8 then
    let! r := align_down (Z.to_nat n) m d s in
    match r with
    | (m, None) => Ret (dest, m)
    | (m, Some n) =>
        let! r := words_down (S (Z.to_nat n)) m d s n in
        let '(m, n) := r in
        let! m := copy_down (Z.to_nat n) m (d + n) (s + n) in Ret (dest, m)
    end
  else let! m := copy_down (Z.to_nat n) m (d + n) (s + n) in Ret (dest, m).

Section move.
Context `{KernelMemcpy}.

Definition memmove_unsafe (m : mem) (dest src n : Z) : outcome (Z * mem) :=
  let d := dest in
  let s := src in
  if d =? s then Ret (d, m)
  else if u64 (u64 (s - d) - n) <=? u64 (-2 * n) then kernel_memcpy m d s n
  else if d <? s then move_up m dest src n
  else move_down m dest src n.
End move.

(** ** Laws of memcpy_unsafe *)

(** The copy of [l] from [s] to [d] may start: what every step of the copying
    routines needs and hands to the next. *)
Definition block_ok (m : mem) (d s : Z) (l : list Z) : Prop :=
  bytes_at m s l /\ mapped m d (Z.of_nat (length l)) /\
  disjoint_range d (Z.of_nat (length l)) s (Z.of_nat (length l)).

Section blocks.
Implicit Types (m : mem) (l : list Z).

Lemma block_ok_app m d s l1 l2 : block_ok m d s (l1 ++ l2) ->
  block_ok m d s l1 /\
  block_ok (write_bytes m d l1) (d + Z.of_nat (length l1)) (s + Z.of_nat (length l1)) l2.
Proof.
  intros (Hs & Hd & Ho). apply bytes_at_app in Hs as [H1 H2]. unfold disjoint_range in Ho.
  rewrite length_app in *. split; split_and!; try done; try (unfold disjoint_range; lia).
  - apply (mapped_sub _ _ _ _ _ Hd); lia.
  - apply bytes_at_write_out; [unfold disjoint_range; lia|done].
  - apply mapped_write. apply (mapped_sub _ _ _ _ _ Hd); lia.
Qed.

Lemma block_copy_up m d s l n : n = length l -> block_ok m d s l ->
  copy_up n m d s = Ret (write_bytes m d l).
Proof. intros -> (? & ? & Ho). apply copy_up_spec; [done..|]. unfold disjoint_range in Ho. lia. Qed.

Lemma block_copy_words w k m d s l : length l = (w * k)%nat -> block_ok m d s l ->
  copy_words w k m d s = Ret (write_bytes m d l).
Proof.
  intros Hl (? & ? & Ho). apply copy_words_spec; [done..|]. intros Hk. unfold disjoint_range in Ho.
  destruct k; [lia|]. rewrite Nat.mul_succ_r in Hl. lia.
Qed.

(** A conditional step of [k] bytes: [n] has the bit [k] or not. *)
Lemma if_bit_spec n (i : nat) k copy m d s l1 l2 :
  k = 2 ^ Z.of_nat i ->
  (forall l, length l = Z.to_nat k -> block_ok m d s l -> copy m d s = Ret (write_bytes m d l)) ->
  length l1 = (if Z.testbit n (Z.of_nat i) then Z.to_nat k else 0%nat) ->
  block_ok m d s (l1 ++ l2) ->
  if_bit n k copy (m, d, s)
    = Ret (write_bytes m d l1, d + Z.of_nat (length l1), s + Z.of_nat (length l1)).
Proof.
  intros -> Hc Hl (H1 & _)%block_ok_app. unfold if_bit.
  assert (Hb : negb (Z.land n (2 ^ Z.of_nat i) =? 0) = Z.testbit n (Z.of_nat i)).
  { rewrite Z.land_comm. destruct (Z.testbit n (Z.of_nat i)) eqn:E.
    - destruct (Z.eqb_spec (Z.land (2 ^ Z.of_nat i) n) 0) as [E0|]; [|done].
      apply (f_equal (fun x => Z.testbit x (Z.of_nat i))) in E0.
      rewrite Z.land_spec, Z.pow2_bits_true, E, Z.bits_0 in E0 by lia. done.
    - destruct (Z.eqb_spec (Z.land (2 ^ Z.of_nat i) n) 0) as [|E0]; [done|]. destruct E0.
      apply Z.bits_inj'. intros j Hj. rewrite Z.land_spec, Z.bits_0, Z.pow2_bits_eqb by lia.
      destruct (Z.eqb_spec (Z.of_nat i) j) as [<-|]; [by rewrite E|done]. }
  rewrite Hb. assert (0 < 2 ^ Z.of_nat i) by (apply Z.pow_pos_nonneg; lia).
  destruct (Z.testbit n (Z.of_nat i)).
  - rewrite (Hc l1) by done. cbn [obind]. rewrite Hl, Z2Nat.id by lia. done.
  - destruct l1; [|done]. cbn [length]. by rewrite !Z.add_0_r.
Qed.

Lemma bits_total n (i : nat) : 0 <= n < 2 ^ Z.of_nat (S i) ->
  n = (if Z.testbit n (Z.of_nat i) then 2 ^ Z.of_nat i else 0) + n mod 2 ^ Z.of_nat i.
Proof.
  intros Hn. rewrite Nat2Z.inj_succ, Z.pow_succ_r in Hn by lia.
  assert (0 < 2 ^ Z.of_nat i) by (apply Z.pow_pos_nonneg; lia).
  rewrite Z.testbit_eqb by lia. rewrite (Z.div_mod n (2 ^ Z.of_nat i)) at 1 by lia.
  assert (0 <= n / 2 ^ Z.of_nat i < 2) by (split; [apply Z.div_pos|apply Z.div_lt_upper_bound]; lia).
  rewrite (Z.mod_small (n / _) 2) by lia. destruct (Z.eqb_spec (n / 2 ^ Z.of_nat i) 1); lia.
Qed.

Lemma align_source_spec n m d s l : length l = n -> block_ok m d s l ->
  exists l1 l2, l = l1 ++ l2 /\
    align_source n m d s = Ret (write_bytes m d l1, d + Z.of_nat (length l1),
                                s + Z.of_nat (length l1), Z.of_nat (length l2)) /\
    (l2 = [] \/ (s + Z.of_nat (length l1)) mod 4 = 0).
Proof.
  revert m d s l. induction n as [|n IH]; intros m d s l Hl H; cbn [align_source].
  { destruct l; [|done]. exists [], []. cbn. rewrite !Z.add_0_r. auto. }
  destruct (Z.eqb_spec (s mod 4) 0).
  { exists [], l. cbn [length Z.of_nat app write_bytes]. rewrite !Z.add_0_r, Hl. auto. }
  destruct l as [|b l]; [done|]. change (b :: l) with ([b] ++ l) in *.
  apply block_ok_app in H as [H1 H2]. rewrite (block_copy_up _ _ _ [b]) by done. cbn [obind].
  change (Z.of_nat (length [b])) with 1 in H2.
  injection Hl as Hl. destruct (IH _ _ _ l Hl H2) as (l1 & l2 & -> & -> & Hm).
  exists ([b] ++ l1), l2. split; [done|]. rewrite !length_app, Nat2Z.inj_add, !Z.add_assoc.
  split; [by rewrite write_bytes_app|done].
Qed.
End blocks.

Section copies.
Implicit Types (m : mem) (l : list Z).

(** One statement of a chain [if (n & 16) ... if (n & 8) ...]. *)
Lemma bit_step n (i : nat) k copy m d s l :
  length l = Z.to_nat (n mod 2 ^ Z.of_nat (S i)) -> block_ok m d s l -> k = 2 ^ Z.of_nat i ->
  (forall l, length l = Z.to_nat k -> block_ok m d s l -> copy m d s = Ret (write_bytes m d l)) ->
  exists l1 l2, l = l1 ++ l2 /\
    if_bit n k copy (m, d, s)
      = Ret (write_bytes m d l1, d + Z.of_nat (length l1), s + Z.of_nat (length l1)) /\
    length l2 = Z.to_nat (n mod 2 ^ Z.of_nat i) /\
    block_ok (write_bytes m d l1) (d + Z.of_nat (length l1)) (s + Z.of_nat (length l1)) l2.
Proof.
  intros Hl Hb Hk Hc. assert (0 < 2 ^ Z.of_nat i) by (apply Z.pow_pos_nonneg; lia).
  assert (0 < 2 ^ Z.of_nat (S i)) by (apply Z.pow_pos_nonneg; lia).
  pose proof (Z.mod_pos_bound n (2 ^ Z.of_nat (S i)) ltac:(lia)) as Hr.
  pose proof (bits_total (n mod 2 ^ Z.of_nat (S i)) i Hr) as Hn.
  rewrite Z.mod_pow2_bits_low in Hn by lia. rewrite Z.mod_mod_divide in Hn by (exists 2; rewrite Nat2Z.inj_succ, Z.pow_succ_r; lia).
  pose proof (Z.mod_pos_bound n (2 ^ Z.of_nat i) ltac:(lia)).
  destruct (list_split_at l (if Z.testbit n (Z.of_nat i) then Z.to_nat k else 0%nat))
    as (l1 & l2 & -> & Hl1).
  { subst k. destruct (Z.testbit n (Z.of_nat i)); lia. }
  exists l1, l2. split; [done|]. split; [|split].
  - by apply (if_bit_spec n i k copy m d s l1 l2).
  - rewrite length_app in Hl. subst k. destruct (Z.testbit n (Z.of_nat i)); lia.
  - by apply block_ok_app in Hb as [_ ?].
Qed.

Lemma copy_rest_spec m d s n l : Z.of_nat (length l) = n -> n < 32 -> block_ok m d s l ->
  copy_rest m d s n = Ret (write_bytes m d l).
Proof.
  intros Hn Hlt Hb. unfold copy_rest.
  assert (Hl : length l = Z.to_nat (n mod 2 ^ Z.of_nat 5)) by (change (2 ^ Z.of_nat 5) with 32; rewrite Z.mod_small; lia).
  destruct (bit_step n 4 16 (copy_up 16) m d s l Hl Hb) as (l1 & k1 & -> & -> & Hl1 & B1); [done|intros; by apply block_copy_up|].
  cbn [obind].
  destruct (bit_step n 3 8 (copy_up 8) _ _ _ _ Hl1 B1) as (l2 & k2 & -> & -> & Hl2 & B2); [done|intros; by apply block_copy_up|]. cbn [obind].
  destruct (bit_step n 2 4 (copy_up 4) _ _ _ _ Hl2 B2) as (l3 & k3 & -> & -> & Hl3 & B3); [done|intros; by apply block_copy_up|]. cbn [obind].
  destruct (bit_step n 1 2 (copy_up 2) _ _ _ _ Hl3 B3) as (l4 & k4 & -> & -> & Hl4 & B4); [done|intros; by apply block_copy_up|]. cbn [obind].
  destruct (bit_step n 0 1 (copy_up 1) _ _ _ _ Hl4 B4) as (l5 & k5 & -> & -> & Hl5 & B5); [done|intros; by apply block_copy_up|]. cbn [obind fst snd].
  change (2 ^ Z.of_nat 0) with 1 in Hl5. rewrite Z.mod_1_r in Hl5. destruct k5; [|done].
  by rewrite app_nil_r, !write_bytes_app.
Qed.

(** The word loop leaves less than 16 bytes. *)
Lemma copy_16_spec fuel m d s n l : Z.of_nat (length l) = n -> (length l < fuel)%nat ->
  block_ok m d s l ->
  exists l1 l2, l = l1 ++ l2 /\
    copy_16 fuel m d s n = Ret (write_bytes m d l1, d + Z.of_nat (length l1),
                                s + Z.of_nat (length l1), Z.of_nat (length l2)) /\
    Z.of_nat (length l2) < 16 /\
    block_ok (write_bytes m d l1) (d + Z.of_nat (length l1)) (s + Z.of_nat (length l1)) l2.
Proof.
  revert m d s n l. induction fuel as [|fuel IH]; intros m d s n l Hn Hf Hb; [lia|].
  cbn [copy_16]. rewrite Z.geb_leb. destruct (Z.leb_spec 16 n).
  - destruct (list_split_at l 16) as (l1 & l2 & -> & Hl1); [lia|].
    rewrite length_app in Hf, Hn. apply block_ok_app in Hb as [B1 B2]. rewrite Hl1 in B2.
    rewrite (block_copy_words _ _ _ _ _ l1) by done. cbn [obind].
    destruct (IH _ _ _ (n - 16) l2 ltac:(lia) ltac:(lia) B2) as (l3 & l4 & -> & Heq & Hlt & B3).
    change (Z.of_nat 16) with 16 in *.
    exists (l1 ++ l3), l4. rewrite app_assoc, length_app, Nat2Z.inj_add, Hl1, !Z.add_assoc.
    split; [done|]. rewrite Heq, write_bytes_app, Hl1. done.
  - exists [], l. cbn [length Z.of_nat app write_bytes]. rewrite !Z.add_0_r, Hn. auto.
Qed.

Lemma copy_aligned_spec m d s n l : Z.of_nat (length l) = n -> block_ok m d s l ->
  copy_aligned m d s n = Ret (write_bytes m d l).
Proof.
  intros Hn Hb. unfold copy_aligned.
  destruct (copy_16_spec (S (Z.to_nat n)) m d s n l Hn ltac:(lia) Hb) as (l0 & k0 & -> & -> & Hlt & B0).
  cbn [obind]. clear Hn Hb n. remember (Z.of_nat (length k0)) as n eqn:Hn0.
  assert (Hl1 : length k0 = Z.to_nat (n mod 2 ^ Z.of_nat 4)) by (change (2 ^ Z.of_nat 4) with 16; rewrite Z.mod_small; lia).
  destruct (bit_step n 3 8 (copy_words 4 2) _ _ _ _ Hl1 B0) as (l2 & k2 & -> & -> & Hl2 & B2); [done|intros; by apply block_copy_words|]. cbn [obind].
  destruct (bit_step n 2 4 (copy_words 4 1) _ _ _ _ Hl2 B2) as (l3 & k3 & -> & -> & Hl3 & B3); [done|intros; by apply block_copy_words|]. cbn [obind].
  destruct (bit_step n 1 2 (copy_up 2) _ _ _ _ Hl3 B3) as (l4 & k4 & -> & -> & Hl4 & B4); [done|intros; by apply block_copy_up|]. cbn [obind].
  destruct (bit_step n 0 1 (copy_up 1) _ _ _ _ Hl4 B4) as (l5 & k5 & -> & -> & Hl5 & B5); [done|intros; by apply block_copy_up|]. cbn [obind fst snd].
  change (2 ^ Z.of_nat 0) with 1 in Hl5. rewrite Z.mod_1_r in Hl5. destruct k5; [|done].
  by rewrite app_nil_r, !write_bytes_app.
Qed.
End copies.

Section shifted.
Implicit Types (m : mem) (l : list Z).

(** The word put together from the end of one source word and the start of the
    next one. *)
Lemma shifted_word q r t : Forall byte (q ++ r ++ t) -> (length q + length r = 4)%nat ->
  length t = length q ->
  u32 (Z.lor (of_bytes q) (u32 (Z.shiftl (of_bytes (r ++ t)) (8 * Z.of_nat (length q)))))
    = of_bytes (q ++ r).
Proof.
  intros [Hq [Hr Ht]%Forall_app]%Forall_app Hl Hlt.
  pose proof (of_bytes_range _ Hq). pose proof (of_bytes_range _ Hr). pose proof (of_bytes_range _ Ht).
  assert (Hqr : 0 <= of_bytes (q ++ r) < 2 ^ 32).
  { replace 32 with (8 * Z.of_nat (length (q ++ r))) by (rewrite length_app; lia).
    apply of_bytes_range. by apply Forall_app. }
  assert (Hx : u32 (Z.shiftl (of_bytes (r ++ t)) (8 * Z.of_nat (length q)))
    = Z.shiftl (of_bytes r) (8 * Z.of_nat (length q))).
  { rewrite of_bytes_app in *. rewrite !Z.shiftl_mul_pow2 by lia. unfold uw.
    rewrite Z.mul_add_distr_r, <- Z.mul_assoc, <- Z.pow_add_r by lia.
    replace (8 * Z.of_nat (length r) + 8 * Z.of_nat (length q)) with 32 by lia.
    rewrite Z_mod_plus_full, Z.mod_small; [done|].
    assert (0 <= of_bytes r * 2 ^ (8 * Z.of_nat (length q))) by (apply Z.mul_nonneg_nonneg; lia). lia. }
  rewrite Hx, lor_split by lia. rewrite <- of_bytes_app. by apply uw_small.
Qed.

(** [off] bytes of the previous word are carried over; a step stores four
    bytes and carries the [off] bytes that follow. *)
Lemma shift_word_spec (off : nat) sl sr (i : nat) m d s w l1 l2 l3 :
  (0 < off < 4)%nat -> sl = 8 * (4 - Z.of_nat off) -> sr = 8 * Z.of_nat off ->
  length l1 = i -> length l2 = 4%nat -> length l3 = off ->
  block_ok m d s (l1 ++ l2 ++ l3) ->
  Z.shiftr w sl = of_bytes (take off l2) ->
  exists x, shift_word (Z.of_nat off) sl sr (Z.of_nat i) (write_bytes m d l1) d s w
      = Ret (write_bytes m d (l1 ++ l2), x) /\
    Z.shiftr x sl = of_bytes l3.
Proof.
  intros Hoff -> -> Hi Hl2 Hl3 B Hw. unfold shift_word.
  pose proof B as ((HF & _) & _ & _). apply Forall_app in HF as [_ HF].
  pose proof B as (_ & B1)%block_ok_app. rewrite Hi in B1.
  destruct B1 as (Hs & Hd & _). rewrite <- (take_drop off l2), <- app_assoc in Hs.
  apply bytes_at_app in Hs as [_ Hs]. rewrite length_take, Hl2 in Hs.
  set (q := take off l2) in *. set (r := drop off l2) in *.
  assert (Hq : length q = off) by (unfold q; rewrite length_take; lia).
  assert (Hr : length r = (4 - off)%nat) by (unfold r; rewrite length_drop; lia).
  assert (Hl2q : l2 = q ++ r) by (unfold q, r; by rewrite take_drop).
  rewrite (load_le_at _ _ (r ++ l3)).
  2:{ rewrite length_app. lia. }
  2:{ replace (s + (Z.of_nat off + Z.of_nat i)) with (s + Z.of_nat i + Z.of_nat (off `min` 4)) by lia. done. }
  cbn [obind]. rewrite Hw. rewrite Hl2q in HF. rewrite <- app_assoc in HF.
  replace (8 * Z.of_nat off) with (8 * Z.of_nat (length q)) by lia.
  rewrite shifted_word by (done || lia).
  rewrite (store_le_at _ _ (q ++ r)).
  2:{ rewrite length_app. lia. }
  2:{ rewrite app_assoc in HF. by apply Forall_app in HF as [? _]. }
  2:{ apply (mapped_sub _ _ _ _ _ Hd); [lia|]. rewrite length_app, Hl2, Hl3. lia. }
  cbn [obind]. eexists. split.
  - rewrite Hl2q. rewrite (write_bytes_app _ _ l1), Hi. done.
  - replace (8 * (4 - Z.of_nat off)) with (8 * Z.of_nat (length r)) by lia.
    rewrite of_bytes_shiftr, drop_app_length; [done|]. by apply Forall_app in HF as [_ ?].
Qed.

Lemma shift_turn (off : nat) sl sr m d s w l l' :
  (0 < off < 4)%nat -> sl = 8 * (4 - Z.of_nat off) -> sr = 8 * Z.of_nat off ->
  length l = 16%nat -> length l' = off -> block_ok m d s (l ++ l') ->
  Z.shiftr w sl = of_bytes (take off l) ->
  exists w', (forall A (k : mem * Z -> outcome A),
    (let! r := shift_word (Z.of_nat off) sl sr 0 m d s w in let '(m, x) := r in
     let! r := shift_word (Z.of_nat off) sl sr 4 m d s x in let '(m, w) := r in
     let! r := shift_word (Z.of_nat off) sl sr 8 m d s w in let '(m, x) := r in
     let! r := shift_word (Z.of_nat off) sl sr 12 m d s x in k r) = k (write_bytes m d l, w')) /\
    Z.shiftr w' sl = of_bytes l'.
Proof.
  intros Hoff Hsl Hsr Hl Hl' B Hw.
  destruct (list_split_at l 4) as (l1 & r1 & -> & H1); [lia|]. rewrite length_app in Hl.
  destruct (list_split_at r1 4) as (l2 & r2 & -> & H2); [lia|]. rewrite length_app in Hl.
  destruct (list_split_at r2 4) as (l3 & l4 & -> & H3); [lia|]. rewrite length_app in Hl.
  assert (H4 : length l4 = 4%nat) by lia. clear Hl.
  assert (Hstep : forall i p k k' w, length p = i -> length k = 4%nat -> (off <= length k')%nat ->
    p ++ k ++ k' = (l1 ++ l2 ++ l3 ++ l4) ++ l' ->
    Z.shiftr w sl = of_bytes (take off k) ->
    exists x, shift_word (Z.of_nat off) sl sr (Z.of_nat i) (write_bytes m d p) d s w
      = Ret (write_bytes m d (p ++ k), x) /\ Z.shiftr x sl = of_bytes (take off k')).
  { intros i p k k' v Hp Hk Hk' He Hv. destruct (list_split_at k' off) as (u & u' & -> & Hu); [done|].
    rewrite <- Hu, take_app_length, Hu.
    apply (shift_word_spec off sl sr i m d s v p k u); try done.
    rewrite <- He, !app_assoc in B. apply block_ok_app in B as [B _]. by rewrite <- app_assoc in B. }
  destruct (Hstep 0%nat [] l1 (l2 ++ l3 ++ l4 ++ l') w) as (x1 & E1 & W1);
    [done|done|rewrite !length_app; lia|by rewrite <- !app_assoc|by rewrite take_app_le in Hw by lia|].
  destruct (Hstep 4%nat l1 l2 (l3 ++ l4 ++ l') x1) as (x2 & E2 & W2);
    [done|done|rewrite !length_app; lia|by rewrite <- !app_assoc|by rewrite take_app_le in W1 by lia|].
  destruct (Hstep 8%nat (l1 ++ l2) l3 (l4 ++ l') x2) as (x3 & E3 & W3);
    [rewrite length_app; lia|done|rewrite !length_app; lia|by rewrite <- !app_assoc|by rewrite take_app_le in W2 by lia|].
  destruct (Hstep 12%nat ((l1 ++ l2) ++ l3) l4 l' x3) as (x4 & E4 & W4);
    [rewrite !length_app; lia|done|lia|by rewrite <- !app_assoc|by rewrite take_app_le in W3 by lia|].
  exists x4. split; [|by rewrite take_ge in W4 by lia].
  intros A k. cbn [write_bytes app] in E1. change (Z.of_nat 0) with 0 in E1. change (Z.of_nat 4) with 4 in E2.
  change (Z.of_nat 8) with 8 in E3. change (Z.of_nat 12) with 12 in E4.
  rewrite E1. cbn [obind]. rewrite E2. cbn [obind]. rewrite E3. cbn [obind]. rewrite E4. cbn [obind].
  by rewrite <- !app_assoc.
Qed.

Lemma shift_16_spec fuel (off : nat) sl sr m d s n w l :
  (0 < off < 4)%nat -> sl = 8 * (4 - Z.of_nat off) -> sr = 8 * Z.of_nat off ->
  Z.of_nat (length l) = n -> Z.of_nat off <= n -> (length l < fuel)%nat -> block_ok m d s l ->
  Z.shiftr w sl = of_bytes (take off l) ->
  exists l1 l2, l = l1 ++ l2 /\
    shift_16 fuel (Z.of_nat off) sl sr m d s n w
      = Ret (write_bytes m d l1, d + Z.of_nat (length l1), s + Z.of_nat (length l1),
             Z.of_nat (length l2)) /\
    Z.of_nat (length l2) < 16 + Z.of_nat off /\
    block_ok (write_bytes m d l1) (d + Z.of_nat (length l1)) (s + Z.of_nat (length l1)) l2.
Proof.
  intros Hoff Hsl Hsr. revert m d s n w l.
  induction fuel as [|fuel IH]; intros m d s n w l Hn Hno Hf B Hw; [lia|].
  cbn [shift_16]. rewrite Z.geb_leb. destruct (Z.leb_spec (16 + Z.of_nat off) n).
  - destruct (list_split_at l 16) as (l1 & l2 & -> & H1); [lia|]. rewrite length_app in Hf, Hn.
    destruct (list_split_at l2 off) as (c & l3 & -> & Hc); [lia|].
    pose proof B as B'. rewrite app_assoc in B'. apply block_ok_app in B' as [B' _].
    rewrite take_app_le in Hw by lia.
    destruct (shift_turn off sl sr m d s w l1 c) as (w' & -> & Hw'); [done..|].
    apply block_ok_app in B as [_ B]. rewrite H1 in B.
    destruct (IH _ _ _ (n - 16) w' (c ++ l3) ltac:(lia) ltac:(lia) ltac:(lia) B)
      as (l4 & l5 & -> & E & Hlt & B2).
    { by rewrite <- Hc, take_app_length. }
    change (Z.of_nat 16) with 16 in *.
    exists (l1 ++ l4), l5. rewrite app_assoc, length_app, Nat2Z.inj_add, H1, !Z.add_assoc.
    split; [done|]. rewrite E, write_bytes_app, H1. done.
  - exists [], l. cbn [length Z.of_nat app write_bytes]. rewrite !Z.add_0_r, Hn. auto.
Qed.

Lemma shift_case_spec (head off : nat) sl sr m d s n l :
  (0 < off < 4)%nat -> (head = 4 - off)%nat -> sl = 8 * (4 - Z.of_nat off) -> sr = 8 * Z.of_nat off ->
  Z.of_nat (length l) = n -> 32 <= n -> block_ok m d s l ->
  exists l1 l2, l = l1 ++ l2 /\
    shift_case head (Z.of_nat off) sl sr m d s n
      = Ret (write_bytes m d l1, d + Z.of_nat (length l1), s + Z.of_nat (length l1),
             Z.of_nat (length l2)) /\
    Z.of_nat (length l2) < 32 /\
    block_ok (write_bytes m d l1) (d + Z.of_nat (length l1)) (s + Z.of_nat (length l1)) l2.
Proof.
  intros Hoff Hh Hsl Hsr Hn Hlt B. unfold shift_case.
  destruct (list_split_at l head) as (h & r & -> & Hhl); [lia|]. rewrite length_app in Hn.
  destruct (list_split_at r off) as (c & r' & -> & Hc); [lia|].
  pose proof B as ((HF & Hs) & _ & _).
  assert (Hw : bytes_at m s (h ++ c)).
  { pose proof B as (Hb & _ & _). rewrite app_assoc in Hb. by apply bytes_at_app in Hb as [? _]. }
  rewrite (load_le_at _ _ (h ++ c)) by (done || (rewrite length_app; lia)). cbn [obind].
  apply block_ok_app in B as [B1 B2]. rewrite (block_copy_up _ _ _ h) by done. cbn [obind].
  rewrite Hhl in B2.
  destruct (shift_16_spec (S (Z.to_nat n)) off sl sr _ _ _ (n - Z.of_nat head) (of_bytes (h ++ c)) (c ++ r')
    Hoff Hsl Hsr ltac:(lia) ltac:(lia) ltac:(lia) B2) as (l1 & l2 & E & E1 & Hlt2 & B3).
  { rewrite <- Hc, take_app_length. rewrite Hsl.
    replace (8 * (4 - Z.of_nat off)) with (8 * Z.of_nat (length h)) by lia.
    rewrite of_bytes_shiftr, drop_app_length; [done|]. by destruct Hw. }
  exists (h ++ l1), l2. rewrite E, app_assoc, length_app, Nat2Z.inj_add, Hhl, !Z.add_assoc.
  split; [done|]. rewrite E1, write_bytes_app, Hhl. split; [done|]. split; [lia|done].
Qed.

Lemma copy_shifted_spec m d s n l : d mod 4 <> 0 -> Z.of_nat (length l) = n -> block_ok m d s l ->
  exists l1 l2, l = l1 ++ l2 /\
    copy_shifted m d s n
      = Ret (write_bytes m d l1, d + Z.of_nat (length l1), s + Z.of_nat (length l1),
             Z.of_nat (length l2)) /\
    Z.of_nat (length l2) < 32 /\
    block_ok (write_bytes m d l1) (d + Z.of_nat (length l1)) (s + Z.of_nat (length l1)) l2.
Proof.
  intros Hd Hn B. unfold copy_shifted. rewrite Z.geb_leb. destruct (Z.leb_spec 32 n).
  - pose proof (Z.mod_pos_bound d 4 ltac:(lia)).
    destruct (Z.eqb_spec (d mod 4) 1); [apply (shift_case_spec 3 1 24 8); done || lia|].
    destruct (Z.eqb_spec (d mod 4) 2); [apply (shift_case_spec 2 2 16 16); done || lia|].
    destruct (Z.eqb_spec (d mod 4) 3); [apply (shift_case_spec 1 3 8 24); done || lia|lia].
  - exists [], l. cbn [length Z.of_nat app write_bytes]. rewrite !Z.add_0_r, Hn. auto.
Qed.

Lemma memcpy_unsafe_spec m d s l n :
  n = Z.of_nat (length l) -> block_ok m d s l ->
  memcpy_unsafe m d s n = Ret (d, write_bytes m d l).
Proof.
  intros -> B. unfold memcpy_unsafe. rewrite Nat2Z.id.
  destruct (align_source_spec (length l) m d s l eq_refl B) as (l1 & l2 & -> & -> & _). cbn [obind].
  apply block_ok_app in B as [_ B].
  destruct (Z.eqb_spec ((d + Z.of_nat (length l1)) mod 4) 0) as [|Hd].
  - rewrite (copy_aligned_spec _ _ _ _ l2) by done. cbn [obind]. by rewrite write_bytes_app.
  - destruct (copy_shifted_spec _ _ _ (Z.of_nat (length l2)) l2 Hd eq_refl B) as (l3 & l4 & -> & -> & Hlt & B2).
    cbn [obind]. rewrite (copy_rest_spec _ _ _ _ l4) by done. cbn [obind]. by rewrite !write_bytes_app.
Qed.
End shifted.

(** ** Laws of memset_unsafe *)

(** The memory after the ranges [rs] have been filled with the byte [c]. *)
Definition paint (c : Z) (rs : list (Z * nat)) (m : mem) : mem :=
  foldl (fun m r => write_bytes m (fst r) (replicate (snd r) c)) m rs.

Definition covers (x : Z) (r : Z * nat) : Prop := fst r <= x < fst r + Z.of_nat (snd r).
Definition inside (a n : Z) (r : Z * nat) : Prop := a <= fst r /\ fst r + Z.of_nat (snd r) <= a + n.

Section paint.
Implicit Types (m : mem) (rs : list (Z * nat)).

#[local] Instance covers_dec x r : Decision (covers x r).
Proof. unfold covers. apply _. Defined.

Lemma paint_app c rs1 rs2 m : paint c (rs1 ++ rs2) m = paint c rs2 (paint c rs1 m).
Proof. apply foldl_app. Qed.

Lemma lookup_paint c rs m x :
  paint c rs m !! x = if decide (Exists (covers x) rs) then Some c else m !! x.
Proof.
  induction rs as [|[a k] rs IH] using rev_ind.
  { rewrite decide_False; [done|]. by intros ?%Exists_nil. }
  rewrite paint_app. cbn [paint foldl fst snd]. rewrite lookup_write_bytes, length_replicate.
  destruct (decide (a <= x < a + Z.of_nat k)) as [H|H].
  - rewrite lookup_replicate_2 by lia. rewrite decide_True; [done|].
    apply Exists_app. right. apply Exists_cons_hd. done.
  - rewrite IH. apply decide_ext. rewrite Exists_app, Exists_cons, Exists_nil. unfold covers at 3. cbn [fst snd]. tauto.
Qed.

(** Ranges inside a block that cover it fill it. *)
Lemma paint_fill c rs m a n : 0 <= n -> Forall (inside a n) rs ->
  (forall x, a <= x < a + n -> Exists (covers x) rs) ->
  paint c rs m = write_bytes m a (replicate (Z.to_nat n) c).
Proof.
  intros Hn Hin Hcov. apply map_eq. intros x.
  rewrite lookup_paint, lookup_write_bytes, length_replicate, Z2Nat.id by done.
  destruct (decide (a <= x < a + n)) as [Hx|Hx].
  - rewrite decide_True by auto. by rewrite lookup_replicate_2 by lia.
  - rewrite decide_False; [done|]. rewrite Exists_exists. intros (r & Hr & Hc). apply Hx.
    rewrite Forall_forall in Hin. specialize (Hin r Hr). unfold inside, covers in *. lia.
Qed.

Lemma mapped_paint c rs m a n : mapped m a n -> mapped (paint c rs m) a n.
Proof. intros H i Hi. rewrite lookup_paint. case_decide; [by eexists|by apply H]. Qed.

Lemma paint_store8 c rs m a0 n0 a v : mapped m a0 n0 -> a0 <= a < a0 + n0 -> u8 v = c ->
  store8 (paint c rs m) a v = Ret (paint c (rs ++ [(a, 1%nat)]) m).
Proof.
  intros Hm Ha Hv. unfold store8. destruct (mapped_paint c rs m a0 n0 Hm (a - a0)) as [b Hb]; [lia|].
  replace (a0 + (a - a0)) with a in Hb by lia. rewrite Hb, paint_app, Hv. done.
Qed.

Lemma paint_store_le c rs m a0 n0 a k v : mapped m a0 n0 -> inside a0 n0 (a, k) -> byte c ->
  v = of_bytes (replicate k c) ->
  store_le (paint c rs m) a k v = Ret (paint c (rs ++ [(a, k)]) m).
Proof.
  intros Hm [H1 H2] Hc ->. cbn [fst snd] in *. rewrite (store_le_at _ _ (replicate k c)).
  - by rewrite paint_app.
  - apply length_replicate.
  - by apply Forall_replicate.
  - apply mapped_paint. apply (mapped_sub _ _ _ _ _ Hm); lia.
Qed.

Lemma land_align4 x : 0 <= x < 2 ^ 64 -> Z.land x (u64 (-4)) = x - x mod 4.
Proof.
  intros Hx. change (u64 (-4)) with (0 + Z.ones 62 * 2 ^ 2).
  pose proof (Z.mod_pos_bound x (2 ^ 2) ltac:(lia)).
  rewrite (Z.div_mod x (2 ^ 2)) at 1 by lia.
  replace (2 ^ 2 * (x / 2 ^ 2) + x mod 2 ^ 2) with (x mod 2 ^ 2 + x / 2 ^ 2 * 2 ^ 2) by lia.
  rewrite land_split by lia. rewrite Z.land_0_r, Z.land_ones by lia.
  rewrite Z.mod_small by (split; [apply Z.div_pos|apply Z.div_lt_upper_bound]; lia).
  change (2 ^ 2) with 4. dlia.
Qed.

Lemma c32_of_bytes c : c32_of c = of_bytes (replicate 4 (u8 c)).
Proof.
  unfold c32_of. pose proof (uw_range 8 c ltac:(lia)) as H. unfold in_u in H. set (b := u8 c) in *.
  cbn [replicate of_bytes]. change ((2 ^ 32 - 1) / 255) with 16843009.
  rewrite uw_small by (unfold in_u; lia). lia.
Qed.

Lemma c64_of_bytes c : c64_of (c32_of c) = of_bytes (replicate 8 (u8 c)).
Proof.
  change 8%nat with (4 + 4)%nat. rewrite replicate_add, of_bytes_app, length_replicate, c32_of_bytes.
  unfold c64_of. assert (Hr : 0 <= of_bytes (replicate 4 (u8 c)) < 2 ^ 32).
  { change 32 with (8 * Z.of_nat 4). rewrite <- (length_replicate 4 (u8 c)) at 2. apply of_bytes_range.
    apply Forall_replicate. by apply uw_range. }
  rewrite (uw_small 64) by (unfold in_u; rewrite Z.shiftl_mul_pow2 by lia; lia).
  by rewrite lor_split by lia.
Qed.

Lemma set_32_spec fuel m a0 n0 c rs s n : mapped m a0 n0 -> byte c -> a0 <= s -> s + n <= a0 + n0 ->
  (Z.to_nat n < fuel)%nat ->
  exists rs', set_32 fuel (paint c rs m) s n (of_bytes (replicate 8 c)) = Ret (paint c (rs ++ rs') m) /\
    Forall (inside a0 n0) rs' /\ forall x, s <= x < s + 32 * (n / 32) -> Exists (covers x) rs'.
Proof.
  intros Hm Hc. revert s n rs. induction fuel as [|fuel IH]; intros s n rs Hs Hn Hf; [lia|].
  cbn [set_32]. rewrite Z.geb_leb. destruct (Z.leb_spec 32 n).
  - repeat (rewrite (paint_store_le c _ m a0 n0) by (done || (unfold inside; cbn [fst snd]; lia));
      cbn [obind]).
    rewrite <- !app_assoc. cbn [app].
    edestruct (IH (s + 32) (n - 32)) as (rs' & -> & Hin & Hcov); [lia..|].
    eexists. rewrite <- app_assoc. split; [done|]. split.
    + apply Forall_app. split; [|done]. repeat constructor; cbn [fst snd]; lia.
    + intros x Hx. apply Exists_app. destruct (Z_lt_le_dec x (s + 32)).
      * left. rewrite !Exists_cons. unfold covers. cbn [fst snd]. lia.
      * right. apply Hcov. replace (n / 32) with ((n - 32) / 32 + 1) in Hx; [lia|].
        rewrite <- Z.div_add by lia. f_equal. lia.
  - exists []. rewrite app_nil_r. split; [done|]. split; [constructor|]. intros x Hx.
    assert (n / 32 <= 0) by (apply Z.lt_succ_r, Z.div_lt_upper_bound; lia). lia.
Qed.
End paint.

(** Add the store at the front of the goal to the painted ranges. *)
Ltac paint_step c m a0 n0 :=
  first [ rewrite (paint_store8 c _ m a0 n0) by (done || lia)
        | rewrite (paint_store_le c _ m a0 n0) by (done || (unfold inside; cbn [fst snd]; lia)) ];
  cbn [obind app].
Ltac paint_cover := rewrite !Exists_cons; unfold covers; cbn [fst snd]; lia.

Section memset.
Implicit Types (m : mem) (rs : list (Z * nat)).

(** The word stores cover the aligned block when the bytes before it are
    already painted. *)
Lemma memset_words_spec m a0 n0 v rs s n (c := u8 v) : mapped m a0 n0 ->
  Forall (inside a0 n0) rs -> a0 <= s -> s + n <= a0 + n0 -> s mod 4 = 0 -> n mod 4 = 0 -> 4 <= n ->
  exists rs', memset_words (paint c rs m) s n v = Ret (paint c (rs ++ rs') m) /\
    Forall (inside a0 n0) rs' /\ forall x, s <= x < s + n -> Exists (covers x) rs'.
Proof.
  intros Hm Hrs Hs Hsn Hs4 Hn4 Hn. unfold memset_words. cbv zeta.
  rewrite c64_of_bytes, c32_of_bytes. fold c. assert (Hc : byte c) by (by apply uw_range).
  do 2 paint_step c m a0 n0. destruct (Z.leb_spec n 8).
  { eexists. rewrite <- !app_assoc. cbn [app]. split; [done|]. split.
    - repeat constructor; cbn [fst snd]; lia.
    - intros x Hx. assert (n = 4 \/ n = 8) by dlia. paint_cover. }
  assert (12 <= n) by dlia. do 4 paint_step c m a0 n0. destruct (Z.leb_spec n 24).
  { eexists. rewrite <- !app_assoc. cbn [app]. split; [done|]. split.
    - repeat constructor; cbn [fst snd]; lia.
    - intros x Hx. paint_cover. }
  assert (28 <= n) by dlia. do 8 paint_step c m a0 n0.
  assert (Hk : Z.land s 4 = 0 \/ Z.land s 4 = 4).
  { change 4 with (2 ^ 2). rewrite Z.land_comm. destruct (Z.testbit s 2) eqn:E; [right|left];
      apply Z.bits_inj'; intros j Hj; rewrite Z.land_spec, ?Z.bits_0, Z.pow2_bits_eqb by lia;
      destruct (Z.eqb_spec 2 j) as [<-|]; by rewrite ?E. }
  set (k := 24 + Z.land s 4).
  edestruct (set_32_spec (S (Z.to_nat n)) m a0 n0 c) as (rs' & -> & Hin & Hcov);
    [done|done| | | |]; cycle -1.
  - eexists. rewrite <- !app_assoc. cbn [app]. split; [done|]. split.
    + repeat (constructor; [split; cbn [fst snd]; lia|]). done.
    + intros x Hx. destruct (decide (s + k <= x < s + k + 32 * ((n - k) / 32))).
      * do 14 right. by apply Hcov.
      * pose proof (Z.div_mod (n - k) 32 ltac:(lia)). pose proof (Z.mod_pos_bound (n - k) 32 ltac:(lia)).
        assert ((n - k) mod 32 <= 28) by dlia.
        rewrite !Exists_cons. unfold covers. cbn [fst snd]. lia.
  - lia.
  - lia.
  - lia.
Qed.

Lemma memset_unsafe_spec m d v n : 0 <= d -> 0 <= n < 2 ^ 64 -> d + n <= 2 ^ 64 -> mapped m d n ->
  memset_unsafe m d v n = Ret (d, write_bytes m d (replicate (Z.to_nat n) (u8 v))).
Proof.
  intros Hd Hn Hdn Hm. unfold memset_unsafe. destruct (Z.eqb_spec n 0) as [->|]; [done|].
  set (c := u8 v). assert (Hc : byte c) by (by apply uw_range).
  assert (Hfin : forall rs, Forall (inside d n) rs -> (forall x, d <= x < d + n -> Exists (covers x) rs) ->
    Ret (d, paint c rs m) = Ret (d, write_bytes m d (replicate (Z.to_nat n) c))).
  { intros rs H1 H2. do 2 f_equal. apply paint_fill; [lia|done|done]. }
  change (store8 m) with (store8 (paint c [] m)).
  do 2 paint_step c m d n. destruct (Z.leb_spec n 2).
  { apply Hfin; [repeat constructor; cbn [fst snd]; lia|]. intros x Hx. paint_cover. }
  do 4 paint_step c m d n. destruct (Z.leb_spec n 6).
  { apply Hfin; [repeat constructor; cbn [fst snd]; lia|]. intros x Hx. paint_cover. }
  do 2 paint_step c m d n. destruct (Z.leb_spec n 8).
  { apply Hfin; [repeat constructor; cbn [fst snd]; lia|]. intros x Hx. paint_cover. }
  cbv zeta. assert (Hk : Z.land (u64 (- d)) 3 = (- d) mod 4).
  { change 3 with (Z.ones 2). rewrite Z.land_ones by lia. unfold uw.
    apply Z.mod_mod_divide. exists (2 ^ 62). lia. }
  rewrite Hk. pose proof (Z.mod_pos_bound (- d) 4 ltac:(lia)). set (k := (- d) mod 4) in *.
  assert (Hn4 : Z.land (n - k) (u64 (-4)) = n - k - (n - k) mod 4) by (apply land_align4; lia).
  rewrite Hn4. set (n' := n - k - (n - k) mod 4).
  pose proof (Z.mod_pos_bound (n - k) 4 ltac:(lia)).
  edestruct (memset_words_spec m d n v) as (rs' & -> & Hin & Hcov);
    [done| |..|cbn [obind]; apply Hfin].
  - repeat constructor; cbn [fst snd]; lia.
  - lia.
  - lia.
  - unfold k. clear. dlia.
  - unfold n'. clear. dlia.
  - unfold n'. dlia.
  - apply Forall_app. split; [repeat constructor; cbn [fst snd]; lia|done].
  - intros x Hx. apply Exists_app. destruct (decide (d + k <= x < d + k + n')); [right; auto|left].
    unfold n' in *. paint_cover.
Qed.
End memset.

(** ** Laws of memmove_unsafe *)

Section overlap.
Implicit Types (m : mem) (l : list Z).

(** A block may be written back to front. *)
Lemma write_bytes_app_rev m a l1 l2 :
  write_bytes (write_bytes m (a + Z.of_nat (length l1)) l2) a l1 = write_bytes m a (l1 ++ l2).
Proof.
  rewrite write_bytes_app. apply map_eq. intros x. rewrite !lookup_write_bytes.
  repeat case_decide; try done; lia.
Qed.

(** The copy of [l] may start upwards, or downwards. *)
Definition up_ok m d s l : Prop := bytes_at m s l /\ mapped m d (Z.of_nat (length l)) /\ d <= s.
Definition down_ok m d s l : Prop := bytes_at m s l /\ mapped m d (Z.of_nat (length l)) /\ s <= d.

Lemma up_ok_app m d s l1 l2 : up_ok m d s (l1 ++ l2) ->
  up_ok m d s l1 /\
  up_ok (write_bytes m d l1) (d + Z.of_nat (length l1)) (s + Z.of_nat (length l1)) l2.
Proof.
  intros (Hs & Hd & Ho). apply bytes_at_app in Hs as [H1 H2].
  rewrite length_app in *. split; split_and!; try done; try lia.
  - apply (mapped_sub _ _ _ _ _ Hd); lia.
  - apply bytes_at_write_out; [unfold disjoint_range; lia|done].
  - apply mapped_write. apply (mapped_sub _ _ _ _ _ Hd); lia.
Qed.

Lemma down_ok_app m d s l1 l2 : down_ok m d s (l1 ++ l2) ->
  down_ok m (d + Z.of_nat (length l1)) (s + Z.of_nat (length l1)) l2 /\
  down_ok (write_bytes m (d + Z.of_nat (length l1)) l2) d s l1.
Proof.
  intros (Hs & Hd & Ho). apply bytes_at_app in Hs as [H1 H2].
  rewrite length_app in *. split; split_and!; try done; try lia.
  - apply (mapped_sub _ _ _ _ _ Hd); lia.
  - apply bytes_at_write_out; [unfold disjoint_range; lia|done].
  - apply mapped_write. apply (mapped_sub _ _ _ _ _ Hd); lia.
Qed.

Lemma up_copy m d s l n : n = length l -> up_ok m d s l -> copy_up n m d s = Ret (write_bytes m d l).
Proof. intros -> (? & ? & ?). apply copy_up_spec; [done..|lia]. Qed.

Lemma down_copy m d s l n : n = Z.of_nat (length l) -> down_ok m d s l ->
  copy_down (Z.to_nat n) m (d + n) (s + n) = Ret (write_bytes m d l).
Proof. intros -> (? & ? & ?). rewrite Nat2Z.id. apply copy_down_spec; [done..|lia]. Qed.

Lemma align_up_spec n m d s l : n = length l -> up_ok m d s l ->
  align_up n m d s = Ret (write_bytes m d l, None) \/
  exists l1 l2, l = l1 ++ l2 /\
    align_up n m d s = Ret (write_bytes m d l1,
      Some (d + Z.of_nat (length l1), s + Z.of_nat (length l1), Z.of_nat (length l2))).
Proof.
  revert m d s l. induction n as [|n IH]; intros m d s l Hn B; cbn [align_up];
    destruct (Z.eqb_spec (d mod 8) 0).
  1,3: right; exists [], l; cbn [length Z.of_nat app write_bytes]; rewrite !Z.add_0_r, <- Hn; done.
  - left. by destruct l.
  - destruct l as [|b l]; [done|]. change (b :: l) with ([b] ++ l) in *. injection Hn as Hn.
    apply up_ok_app in B as [B1 B2]. rewrite (up_copy _ _ _ [b]) by done. cbn [obind].
    change (Z.of_nat (length [b])) with 1 in B2.
    destruct (IH _ _ _ l Hn B2) as [->|(l1 & l2 & -> & ->)]; [left|right].
    + by rewrite write_bytes_app.
    + exists ([b] ++ l1), l2. split; [done|]. rewrite write_bytes_app, length_app, Nat2Z.inj_add, !Z.add_assoc.
      done.
Qed.

Lemma align_down_spec n m d s l : n = length l -> down_ok m d s l ->
  align_down n m d s = Ret (write_bytes m d l, None) \/
  exists l1 l2, l = l1 ++ l2 /\
    align_down n m d s = Ret (write_bytes m (d + Z.of_nat (length l1)) l2, Some (Z.of_nat (length l1))).
Proof.
  revert m l. induction n as [|n IH]; intros m l Hn B; cbn [align_down];
    match goal with |- context [?x =? 0] => destruct (Z.eqb_spec x 0) end.
  1,3: right; exists l, []; rewrite app_nil_r, <- Hn; done.
  - left. by destruct l.
  - destruct l as [|b l _] using rev_ind; [done|]. rewrite length_app, Nat.add_1_r in Hn. injection Hn as Hn.
    pose proof B as ([_ Hb]%bytes_at_app & _ & _). apply down_ok_app in B as [B1 B2].
    rewrite Hn, (load8_bytes _ _ _ _ Hb). cbn [obind]. destruct B1 as (Hb1 & Hm & _).
    rewrite (store8_mapped _ _ 1) by (done || lia || by apply bytes_at_cons in Hb1 as (? & _)). cbn [obind].
    change (<[?a := b]> m) with (write_bytes m a [b]). rewrite <- Hn in *.
    destruct (IH _ l Hn B2) as [->|(l1 & l2 & -> & ->)]; [left|right].
    + by rewrite Hn, write_bytes_app_rev.
    + exists l1, (l2 ++ [b]). split; [by rewrite app_assoc|]. do 2 f_equal.
      rewrite Hn, length_app, Nat2Z.inj_add, Z.add_assoc. by rewrite write_bytes_app_rev.
Qed.

Lemma words_down_spec fuel m d s n l : n = Z.of_nat (length l) -> s + 8 <= d -> (length l < fuel)%nat ->
  down_ok m d s l ->
  exists l1 l2, l = l1 ++ l2 /\
    words_down fuel m d s n = Ret (write_bytes m (d + Z.of_nat (length l1)) l2, Z.of_nat (length l1)).
Proof.
  intros Hn Hd. revert m n l Hn. induction fuel as [|fuel IH]; intros m n l Hn Hf B; [lia|].
  cbn [words_down]. rewrite Z.geb_leb. destruct (Z.leb_spec 8 n).
  - destruct (list_split_at l (length l - 8)) as (l1 & l2 & -> & Hl1); [lia|].
    rewrite length_app in *. assert (Hl2 : length l2 = 8%nat) by lia.
    apply down_ok_app in B as [(Hb & Hm & _) B2].
    replace (n - 8) with (Z.of_nat (length l1)) by lia.
    rewrite (load_le_at _ _ l2) by done. cbn [obind].
    rewrite (store_le_at _ _ l2) by (done || eauto with fnx || by rewrite <- Hl2). cbn [obind].
    destruct (IH _ _ l1 eq_refl ltac:(lia) B2) as (l3 & l4 & -> & ->).
    exists l3, (l4 ++ l2). split; [by rewrite app_assoc|].
    rewrite length_app, Nat2Z.inj_add, Z.add_assoc. by rewrite write_bytes_app_rev.
  - exists l, []. rewrite app_nil_r, <- Hn. done.
Qed.

Lemma words_up_spec m d s n l : n = Z.of_nat (length l) -> d + 8 <= s -> up_ok m d s l ->
  exists l1 l2, l = l1 ++ l2 /\
    words_up m d s n = Ret (write_bytes m d l1, d + Z.of_nat (length l1),
                            s + Z.of_nat (length l1), Z.of_nat (length l2)) /\
    up_ok (write_bytes m d l1) (d + Z.of_nat (length l1)) (s + Z.of_nat (length l1)) l2.
Proof.
  intros Hn Hd B. unfold words_up. pose proof (Z.div_mod n 8 ltac:(lia)).
  pose proof (Z.mod_pos_bound n 8 ltac:(lia)). assert (0 <= n / 8) by (apply Z.div_pos; lia).
  destruct (list_split_at l (8 * Z.to_nat (n / 8))) as (l1 & l2 & -> & Hl1); [lia|].
  rewrite length_app in Hn. apply up_ok_app in B as [(Hb & Hm & _) B2].
  rewrite (copy_words_spec 8 _ _ _ _ l1) by (done || lia). cbn [obind]. exists l1, l2. split; [done|].
  split; [|done]. repeat f_equal; lia.
Qed.

Lemma same_mod8_up d s : d < s -> s mod 8 = d mod 8 -> d + 8 <= s.
Proof. intros. dlia. Qed.

Lemma move_up_spec m d s l n : n = Z.of_nat (length l) -> d < s -> up_ok m d s l ->
  move_up m d s n = Ret (d, write_bytes m d l).
Proof.
  intros Hn Hlt B. unfold move_up. destruct (Z.eqb_spec (s mod 8) (d mod 8)) as [H8|H8].
  - apply same_mod8_up in H8; [|done]. rewrite Hn, Nat2Z.id.
    destruct (align_up_spec (length l) m d s l eq_refl B) as [->|(l1 & l2 & -> & ->)]; cbn [obind]; [done|].
    apply up_ok_app in B as [_ B].
    assert (Hd8 : d + Z.of_nat (length l1) + 8 <= s + Z.of_nat (length l1)) by lia.
    destruct (words_up_spec _ _ _ _ l2 eq_refl Hd8 B) as (l3 & l4 & -> & -> & B2).
    cbn [obind]. rewrite (up_copy _ _ _ l4) by (done || lia). cbn [obind]. by rewrite !write_bytes_app.
  - rewrite (up_copy _ _ _ l) by (done || lia). done.
Qed.

Lemma move_down_spec m d s l n : n = Z.of_nat (length l) -> s < d -> down_ok m d s l ->
  move_down m d s n = Ret (d, write_bytes m d l).
Proof.
  intros Hn Hlt B. unfold move_down. destruct (Z.eqb_spec (s mod 8) (d mod 8)) as [H8|H8].
  - symmetry in H8. apply same_mod8_up in H8; [|done]. rewrite Hn, Nat2Z.id.
    destruct (align_down_spec (length l) m d s l eq_refl B) as [->|(l1 & l2 & -> & ->)]; cbn [obind]; [done|].
    apply down_ok_app in B as [_ B].
    destruct (words_down_spec (S (Z.to_nat (Z.of_nat (length l1)))) _ d s _ l1 eq_refl H8 ltac:(lia) B)
      as (l3 & l4 & -> & ->). cbn [obind]. apply down_ok_app in B as [_ B].
    rewrite (down_copy _ _ _ l3) by done. cbn [obind]. by rewrite !write_bytes_app_rev.
  - rewrite (down_copy _ _ _ l) by done. done.
Qed.
End overlap.

(** The test of [memmove_unsafe] on wrapped differences decides whether the two
    blocks overlap. *)
Lemma overlap_test d s n : 0 <= d -> 0 <= s -> 0 < n < 2 ^ 63 -> d + n <= 2 ^ 64 -> s + n <= 2 ^ 64 ->
  u64 (u64 (s - d) - n) <= u64 (-2 * n) <-> disjoint_range d n s n.
Proof.
  intros Hd Hs Hn Hdn Hsn.
  assert (H2 : u64 (-2 * n) = 2 ^ 64 - 2 * n).
  { unfold uw. rewrite <- (Z_mod_plus_full _ 1), Z.mod_small by lia. lia. }
  assert (H1 : u64 (u64 (s - d) - n) = u64 (s - d - n)).
  { unfold uw. by rewrite Zminus_mod_idemp_l. }
  assert (H3 : u64 (s - d - n) = if s - d - n <? 0 then s - d - n + 2 ^ 64 else s - d - n).
  { unfold uw. destruct (Z.ltb_spec (s - d - n) 0); [|apply Z.mod_small; lia].
    rewrite <- (Z_mod_plus_full _ 1), Z.mod_small by lia. lia. }
  rewrite H1, H2, H3. unfold disjoint_range. destruct (Z.ltb_spec (s - d - n) 0); lia.
Qed.

Section move_laws.
Context `{KernelMemcpy}.

Lemma memmove_unsafe_spec m d s l (n := Z.of_nat (length l)) :
  0 <= d < 2 ^ 64 -> 0 <= s < 2 ^ 64 -> n < 2 ^ 63 -> d + n <= 2 ^ 64 -> s + n <= 2 ^ 64 ->
  bytes_at m s l -> mapped m d n ->
  memmove_unsafe m d s n = Ret (d, write_bytes m d l).
Proof.
  intros Hd0 Hs0 Hn Hdn Hsn Hs Hd. unfold memmove_unsafe.
  destruct (Z.eqb_spec d s) as [->|Hne]; [by rewrite write_bytes_id|].
  destruct (Z.leb_spec (u64 (u64 (s - d) - n)) (u64 (-2 * n))) as [Hov|Hov].
  { assert (Hn0 : 0 < n).
    { destruct (decide (n = 0)) as [->|]; [|lia]. exfalso. change (u64 (-2 * 0)) with 0 in Hov.
      rewrite Z.sub_0_r, uw_uw in Hov by lia. unfold uw in Hov.
      destruct (Z_lt_le_dec (s - d) 0).
      - rewrite <- (Z_mod_plus_full _ 1), Z.mod_small in Hov; lia.
      - rewrite Z.mod_small in Hov; lia. }
    apply overlap_test in Hov; [|lia..]. apply memcpy_law; done. }
  destruct (Z.ltb_spec d s).
  - apply move_up_spec; [done|lia|]. split_and!; [done..|lia].
  - apply move_down_spec; [done|lia|]. split_and!; [done..|lia].
Qed.
End move_laws.

(** ** The properties *)

(** The instance of the interface that the kernel uses without SIMD. *)
#[export] Instance memcpy_unsafe_memcpy : KernelMemcpy := {|
  kernel_memcpy := memcpy_unsafe;
  memcpy_law m d s l _ Hs Hd Ho := memcpy_unsafe_spec m d s l _ eq_refl (conj Hs (conj Hd Ho))
|}.

(** C28: [memcpy_unsafe] copies exactly [n] bytes between blocks that do not
    overlap, for every alignment of the two pointers and every length: the
    shift-and-merge loops for misaligned blocks and the unrolled tails together
    equal the plain byte copy, and no byte outside the destination changes. *)
Theorem memcpy_unsafe_correct m d s l (n := Z.of_nat (length l)) :
  bytes_at m s l -> mapped m d n -> disjoint_range d n s n ->
  memcpy_unsafe m d s n = Ret (d, write_bytes m d l).
Proof. intros Hs Hd Ho. by apply memcpy_unsafe_spec. Qed.

Definition demo : mem := write_bytes (write_bytes ∅ 16 (Z.of_nat <$> seq 1 48)) 101 (replicate 48 0).

Lemma memcpy_unsafe_witness :
  memcpy_unsafe demo 103 17 (Z.of_nat (length (Z.of_nat <$> seq 2 40))) = Ret (103, write_bytes demo 103 (Z.of_nat <$> seq 2 40)).
Proof.
  apply (memcpy_unsafe_correct demo 103 17 (Z.of_nat <$> seq 2 40));
    [apply bytes_at_checked; vm_compute; reflexivity|apply mapped_checked; vm_compute; reflexivity|].
  right. vm_compute. discriminate.
Defined.

(** [memset_unsafe] fills exactly the [n] bytes from [dest] on with the low
    byte of [c], for every length and alignment: the overlapping byte and word
    stores from both ends and the 32-byte loop leave no gap and touch nothing
    else. *)
Theorem memset_unsafe_correct m d c n : 0 <= d -> 0 <= n < 2 ^ 64 -> d + n <= 2 ^ 64 -> mapped m d n ->
  memset_unsafe m d c n = Ret (d, write_bytes m d (replicate (Z.to_nat n) (u8 c))).
Proof. apply memset_unsafe_spec. Qed.

Lemma memset_unsafe_witness :
  memset_unsafe demo 17 (-2) 46 = Ret (17, write_bytes demo 17 (replicate 46 254)).
Proof.
  apply (memset_unsafe_correct demo 17 (-2) 46); [lia..|apply mapped_checked; vm_compute; reflexivity].
Defined.

(** With any [memcpy] that keeps its promise on disjoint blocks,
    [memmove_unsafe] is right for every position of two blocks of the address
    space, overlapping or not: the wrapped test that selects [memcpy], the
    alignment loops with their early return and the word loops in both
    directions leave in the destination the bytes the source had. *)
Theorem memmove_unsafe_correct `{KernelMemcpy} m d s l (n := Z.of_nat (length l)) :
  0 <= d < 2 ^ 64 -> 0 <= s < 2 ^ 64 -> n < 2 ^ 63 -> d + n <= 2 ^ 64 -> s + n <= 2 ^ 64 ->
  bytes_at m s l -> mapped m d n ->
  memmove_unsafe m d s n = Ret (d, write_bytes m d l).
Proof. apply memmove_unsafe_spec. Qed.

Lemma memmove_unsafe_witness :
  memmove_unsafe demo 25 17 (Z.of_nat (length (Z.of_nat <$> seq 2 30))) = Ret (25, write_bytes demo 25 (Z.of_nat <$> seq 2 30)).
Proof.
  apply (memmove_unsafe_correct demo 25 17 (Z.of_nat <$> seq 2 30)); [lia|lia|reflexivity|discriminate|discriminate| |];
    [apply bytes_at_checked; vm_compute; reflexivity|apply mapped_checked; vm_compute; reflexivity].
Defined.
