(* ===== verification/LibcStdlib.v ===== *)
(** * The C library's stdlib.h

    Model of [Userspace/libc/src/std/stdlib.c] on the byte memory of [CMem],
    for the 64-bit ABI ([long] and [long long] have 64 bits, [char] is
    signed): number parsing, the exit handlers, the environment, [qsort],
    [reallocarray] and [abs].  [errno] is passed and returned explicitly. *)

From S2P Require Import Prelude CMem LibcErrno LibcString.

(** ** Character classes of ctype.h *)

Definition isdigit (c : Z) : bool := (48 <=? c) && (c <=? 57).
Definition isupper (c : Z) : bool := (65 <=? c) && (c <=? 90).
Definition islower (c : Z) : bool := (97 <=? c) && (c <=? 122).
Definition isalpha (c : Z) : bool := isupper c || islower c.
Definition isspace (c : Z) : bool :=
  (c =? 32) || (c =? 12) || (c =? 10) || (c =? 13) || (c =? 9) || (c =? 11).

Definition LONG_MAX : Z := 2 ^ 63 - 1.
Definition LONG_MIN : Z := - LONG_MAX - 1.
Definition ULONG_MAX : Z := LONG_MAX * 2 + 1.

(** ** Number parsing *)

(** [c = *s] in an [int]: the [char] is sign-extended. *)
Definition load_char (m : mem) (s : Z) : outcome Z :=
  let! b := load8 m s in Ret (s8 b).

(** [do { c = *s++; } while (isspace(c));] *)
Fixpoint skip_space (fuel : nat) (m : mem) (s : Z) : outcome (Z * Z) :=
  match fuel with
  | O => OutOfFuel
  | S fuel =>
      let! c := load_char m s in
      if isspace c then skip_space fuel m (s + 1) else Ret (c, s + 1)
  end.

(** The value of a digit or letter, [None] for the characters that end the
    number. *)
Definition digit_value (c : Z) : option Z :=
  if isdigit c then Some (c - 48)
  else if isalpha c then Some (c - (if isupper c then 65 - 10 else 97 - 10))
  else None.

(** [for (acc = 0, any = 0;; c = *s++)]: the result is [acc], [any] and [s].
    [wrap] is the width of [acc]. *)
Fixpoint acc_loop (fuel : nat) (wrap : Z -> Z) (base cutoff cutlim : Z) (m : mem)
    (c s acc any : Z) : outcome (Z * Z * Z) :=
  match fuel with
  | O => OutOfFuel
  | S fuel =>
      match digit_value c with
      | None => Ret (acc, any, s)
      | Some c =>
          if c >=? base then Ret (acc, any, s)
          else
            let '(acc, any) :=
              if (any <? 0) || (acc >? cutoff) || ((acc =? cutoff) && (c >? cutlim)) then (acc, -1)
              else (wrap (wrap (acc * base) + c), 1) in
            let! c := load_char m s in
            acc_loop fuel wrap base cutoff cutlim m c (s + 1) acc any
      end
  end.

(** [if (endptr != 0) *endptr = e;] *)
Definition set_endptr (m : mem) (endptr e : Z) : outcome mem :=
  if negb (endptr =? 0) then store_le m endptr 8 e else Ret m.

(** The common body of [strtol] and [strtoll]; the result is the value, [errno]
    and the memory. *)
Definition strto_signed (lmin lmax : Z) (m : mem) (errno nptr endptr base : Z)
    : outcome (Z * Z * mem) :=
  let! r := skip_space (loop_fuel m) m nptr in
  let '(c, s) := r in
  let! r :=
    if c =? 45 then let! c := load_char m s in Ret (1, c, s + 1)
    else if c =? 43 then let! c := load_char m s in Ret (0, c, s + 1)
    else Ret (0, c, s) in
  let '(neg, c, s) := r in
  let! hex :=
    if ((base =? 0) || (base =? 16)) && (c =? 48) then
      let! x := load_char m s in Ret ((x =? 120) || (x =? 88))
    else Ret false in
  let! r :=
    if hex then let! c := load_char m (s + 1) in Ret (c, s + 2, 16)
    else if base =? 0 then Ret (c, s, if c =? 48 then 8 else 10)
    else Ret (c, s, base) in
  let '(c, s, base) := r in
  let cutoff := if neg =? 1 then lmin else lmax in
  let cutlim := Z.rem cutoff base in
  let cutoff := Z.quot cutoff base in
  let '(cutlim, cutoff) :=
    if neg =? 1 then
      let '(cutlim, cutoff) :=
        if cutlim >? 0 then (cutlim - base, cutoff + 1) else (cutlim, cutoff) in
      (- cutlim, cutoff)
    else (cutlim, cutoff) in
  let! r := acc_loop (loop_fuel m) s64 base cutoff cutlim m c s 0 0 in
  let '(acc, any, s) := r in
  let '(acc, errno) :=
    if any <? 0 then (if neg =? 1 then lmin else lmax, ERANGE)
    else if neg =? 1 then (s64 (- acc), errno) else (acc, errno) in
  let! m := set_endptr m endptr (if any =? 0 then nptr else s - 1) in
  Ret (acc, errno, m).

Definition strtol := strto_signed LONG_MIN LONG_MAX.
Definition strtoll := strto_signed LONG_MIN LONG_MAX.

Definition atoi (m : mem) (errno str : Z) : outcome (Z * Z * mem) :=
  let! r := strtol m errno str 0 10 in
  let '(v, errno, m) := r in Ret (s32 v, errno, m).

(** [while (isspace((unsigned char) *s)) s++;] *)
Fixpoint skip_space_u (fuel : nat) (m : mem) (s : Z) : outcome Z :=
  match fuel with
  | O => OutOfFuel
  | S fuel => let! c := load8 m s in if isspace c then skip_space_u fuel m (s + 1) else Ret s
  end.

(** The common body of [strtoul] and [strtoull].  [c0] is what the variable [c]
    holds when the loop starts: the source does not assign it before. *)
Definition strto_unsigned (umax : Z) (c0 : Z) (m : mem) (errno str endptr base : Z)
    : outcome (Z * Z * mem) :=
  if (base <? 0) || (base =? 1) || (base >? 36) then
    let! m := set_endptr m endptr str in Ret (0, EINVAL, m)
  else
    let! s := skip_space_u (loop_fuel m) m str in
    let! c := load_char m s in
    if c =? 45 then let! m := set_endptr m endptr str in Ret (0, EINVAL, m)
    else
      let s := if c =? 43 then s + 1 else s in
      let! d := load_char m s in
      let! hex :=
        if ((base =? 0) || (base =? 16)) && (d =? 48) then
          let! x := load_char m (s + 1) in Ret ((x =? 120) || (x =? 88))
        else Ret false in
      let '(s, base) :=
        if hex then (s + 2, 16)
        else if base =? 0 then (s, if d =? 48 then 8 else 10) else (s, base) in
      let cutoff := umax / base in
      let cutlim := umax mod base in
      let! r := acc_loop (S (loop_fuel m)) u64 base cutoff cutlim m c0 s 0 0 in
      let '(acc, any, s) := r in
      let '(acc, errno) :=
        if any <? 0 then (umax, ERANGE) else if any =? 0 then (acc, EINVAL) else (acc, errno) in
      let! m := set_endptr m endptr (if any =? 0 then str else s - 1) in
      Ret (acc, errno, m).

Definition strtoul := strto_unsigned ULONG_MAX.
Definition strtoull := strto_unsigned ULONG_MAX.

(** ** Exit handlers and small functions *)

Definition MAX_ATEXIT_FUNCS : Z := 32.

(** [__atexit_funcs] up to [__num_atexit_funcs], for functions named by [F]. *)
Definition atexit {F} (funcs : list F) (func : F) : Z * list F :=
  if Z.of_nat (length funcs) >=? MAX_ATEXIT_FUNCS then (-1, funcs) else (0, funcs ++ [func]).

(** [exit]: the handlers in the order in which they are called, before [_exit]. *)
Definition exit_calls {F} (funcs : list F) : list F := reverse funcs.

Definition abs (i : Z) : Z := if i <? 0 then s32 (- i) else i.

(** [reallocarray] over the allocator's [realloc]. *)
Definition reallocarray {A} (realloc : Z -> Z -> A) (null : A) (errno ptr nelem elsize : Z) : A * Z :=
  if negb (nelem =? 0) && (elsize >? (2 ^ 64 - 1) / nelem) then (null, ENOMEM)
  else (realloc ptr (u64 (nelem * elsize)), errno).

(** ** The environment *)

(** [environ] is an array of pointers ended by a null pointer. *)
Fixpoint getenv_loop (fuel : nat) (m : mem) (env name len : Z) : outcome Z :=
  match fuel with
  | O => OutOfFuel
  | S fuel =>
      let! thisEnv := load_le m env 8 in
      if thisEnv =? 0 then Ret 0
      else
        let! r := strncmp m thisEnv name len in
        let! c := if r =? 0 then load8 m (thisEnv + len) else Ret 0 in
        if (r =? 0) && (c =? 61) then Ret (thisEnv + len + 1)
        else getenv_loop fuel m (env + 8) name len
  end.

Definition getenv (m : mem) (environ name : Z) : outcome Z :=
  if name =? 0 then Ret 0
  else
    let! len := strlen m name in
    getenv_loop (loop_fuel m) m environ name len.

(** ** qsort

    The array is the list of its elements; a pointer is the index of the
    element it points to, so [width] is one.  [compar] sees the elements that
    its two pointers point to.  An index outside the list is a fault. *)

Section qsort.
Context {A : Type} (compar : A -> A -> Z).

Definition get (a : list A) (i : Z) : outcome A :=
  if i <? 0 then Fault else match a !! Z.to_nat i with Some x => Ret x | None => Fault end.

Definition set (a : list A) (i : Z) (x : A) : list A := <[Z.to_nat i := x]> a.

Definition cmp_at (a : list A) (i j : Z) : outcome Z :=
  let! x := get a i in let! y := get a j in Ret (compar x y).

(** [while (compar(left, pivot) < 0) left += width;] *)
Fixpoint scan_left (fuel : nat) (a : list A) (left pivot : Z) : outcome Z :=
  match fuel with
  | O => OutOfFuel
  | S fuel =>
      let! c := cmp_at a left pivot in
      if c <? 0 then scan_left fuel a (left + 1) pivot else Ret left
  end.

(** [while (compar(right, pivot) > 0) right -= width;] *)
Fixpoint scan_right (fuel : nat) (a : list A) (right pivot : Z) : outcome Z :=
  match fuel with
  | O => OutOfFuel
  | S fuel =>
      let! c := cmp_at a right pivot in
      if c >? 0 then scan_right fuel a (right - 1) pivot else Ret right
  end.

Definition swap (a : list A) (i j : Z) : outcome (list A) :=
  let! x := get a i in let! y := get a j in Ret (set (set a i y) j x).

(** The outer loop: the array and the final [left] and [right]. *)
Fixpoint partition_loop (fuel : nat) (a : list A) (left right pivot : Z)
    : outcome (list A * Z * Z) :=
  match fuel with
  | O => OutOfFuel
  | S fuel =>
      if left <=? right then
        let! left := scan_left (S (length a)) a left pivot in
        let! right := scan_right (S (length a)) a right pivot in
        if left <=? right then
          let! a := swap a left right in
          partition_loop fuel a (left + 1) (right - 1) pivot
        else partition_loop fuel a left right pivot
      else Ret (a, left, right)
  end.

Fixpoint qsort (fuel : nat) (a : list A) (base nel : Z) : outcome (list A) :=
  match fuel with
  | O => OutOfFuel
  | S fuel =>
      if nel <? 2 then Ret a
      else
        let pivot := base + nel / 2 in
        let! r := partition_loop (S (S (Z.to_nat nel))) a base (base + (nel - 1)) pivot in
        let '(a, l, r) := r in
        let left_size := u64 (r - base + 1) in
        let right_size := u64 (nel - left_size - 1) in
        let! a := qsort fuel a base left_size in
        qsort fuel a l right_size
  end.
End qsort.

(** ** Laws of number parsing *)

Definition is_digit (base b : Z) : bool :=
  match digit_value b with Some d => d <? base | None => false end.

Definition digit (b : Z) : Z := default 0 (digit_value b).

(** The number that the digits [ds] continue [acc] to. *)
Definition number (base acc : Z) (ds : list Z) : Z :=
  foldl (fun a b => a * base + digit b) acc ds.

(** The text after the digits does not continue the number. *)
Definition stops (base : Z) (rest : list Z) : Prop :=
  is_digit base (hd 0 rest) = false.

Section parsing.
Implicit Types (m : mem) (l ds rest : list Z).

Lemma s8_byte b : byte b -> s8 b = if b <? 128 then b else b - 256.
Proof.
  unfold byte, sw. intros Hb. destruct (Z.ltb_spec b 128).
  - rewrite Z.mod_small; lia.
  - replace (b + 2 ^ (8 - 1)) with (b - 128 + 1 * 2 ^ 8) by lia. rewrite Z_mod_plus_full, Z.mod_small; lia.
Qed.

(** Sign extension does not matter for the character classes. *)
Lemma digit_value_s8 b : byte b -> digit_value (s8 b) = digit_value b.
Proof.
  intros Hb. rewrite s8_byte by done. unfold byte in Hb. destruct (Z.ltb_spec b 128); [done|].
  unfold digit_value, isalpha, isdigit, isupper, islower. zprune; done.
Qed.

Lemma isspace_s8 b : byte b -> isspace (s8 b) = isspace b.
Proof.
  intros Hb. rewrite s8_byte by done. unfold byte in Hb. destruct (Z.ltb_spec b 128); [done|].
  unfold isspace. zprune; done.
Qed.

Lemma digit_range base b : is_digit base b = true -> 0 <= digit b < base /\ digit_value b = Some (digit b).
Proof.
  unfold is_digit, digit, digit_value, isalpha, isdigit, isupper, islower.
  intros H. zcases; cbn in H |- *; try done; apply Z.ltb_lt in H; split; try done; lia.
Qed.

Lemma load_char_cstr m s l : cstr m s l -> load_char m s = Ret (s8 (hd 0 l)).
Proof. intros H. unfold load_char. by rewrite (cstr_load _ _ _ H). Qed.

Lemma cstr_hd_byte m s l : cstr m s l -> byte (hd 0 l).
Proof. destruct l; [done|]. by intros (? & _)%cstr_cons. Qed.

Lemma cstr_split m s l1 l2 : cstr m s (l1 ++ l2) -> cstr m (s + Z.of_nat (length l1)) l2.
Proof.
  intros H. rewrite <- (drop_app_length l1 l2). apply cstr_drop; [rewrite length_app; lia|done].
Qed.

Lemma cstr_next m s b l : cstr m s (b :: l) -> cstr m (s + 1) l.
Proof. by intros (_ & _ & _ & ?)%cstr_cons. Qed.

Lemma skip_space_spec fuel m s sp l : cstr m s (sp ++ l) -> Forall (fun b => isspace b = true) sp ->
  isspace (hd 0 l) = false -> (length sp < fuel)%nat ->
  skip_space fuel m s = Ret (s8 (hd 0 l), s + Z.of_nat (length sp) + 1).
Proof.
  intros Hc Hsp Hl. revert fuel s Hc. induction Hsp as [|b sp Hb Hsp IH]; intros fuel s Hc Hf;
    (destruct fuel as [|fuel]; [cbn in Hf; lia|]); cbn [skip_space app length] in *;
    rewrite (load_char_cstr _ _ _ Hc); cbn [obind hd];
    rewrite isspace_s8 by (by apply cstr_hd_byte in Hc).
  - rewrite Hl. do 2 f_equal. lia.
  - rewrite Hb. apply cstr_next in Hc. rewrite IH by (done || lia). do 2 f_equal. lia.
Qed.

(** The overflow test by [cutoff] and [cutlim] is exact. *)
Lemma cutoff_exact lmax base acc d : 0 < base -> 0 <= d < base ->
  (acc >? lmax / base) || ((acc =? lmax / base) && (d >? lmax mod base)) = (lmax <? acc * base + d).
Proof.
  intros Hb Hd. pose proof (Z.div_mod lmax base ltac:(lia)).
  pose proof (Z.mod_pos_bound lmax base ltac:(lia)).
  rewrite Z.gtb_ltb, Z.gtb_ltb. destruct (Z.ltb_spec (lmax / base) acc); cbn [orb].
  - destruct (Z.ltb_spec lmax (acc * base + d)); [done|nia].
  - destruct (Z.eqb_spec acc (lmax / base)) as [->|]; cbn [andb].
    + destruct (Z.ltb_spec (lmax mod base) d), (Z.ltb_spec lmax (lmax / base * base + d)); lia || done.
    + destruct (Z.ltb_spec lmax (acc * base + d)); [nia|done].
Qed.

Lemma number_ge base acc ds : 2 <= base -> 0 <= acc -> Forall (fun b => is_digit base b = true) ds ->
  acc <= number base acc ds.
Proof.
  intros Hb. revert acc. induction ds as [|b ds IH]; intros acc Ha Hds; [done|].
  apply Forall_cons_iff in Hds as [H Hds]. apply digit_range in H as [H _]. cbn [number foldl].
  specialize (IH (acc * base + digit b) ltac:(nia) Hds). unfold number in IH. nia.
Qed.

(** After an overflow the loop only skips the digits. *)
Lemma acc_loop_failed fuel wrap base cutoff cutlim m s acc ds rest :
  cstr m s (ds ++ rest) -> Forall (fun b => is_digit base b = true) ds -> stops base rest ->
  (length ds < fuel)%nat ->
  acc_loop fuel wrap base cutoff cutlim m (s8 (hd 0 (ds ++ rest))) (s + 1) acc (-1)
    = Ret (acc, -1, s + Z.of_nat (length ds) + 1).
Proof.
  intros Hc Hds Hst. revert fuel s Hc. induction Hds as [|b ds Hb Hds IH]; intros fuel s Hc Hf;
    (destruct fuel as [|fuel]; [cbn in Hf; lia|]); cbn [acc_loop app length hd] in *;
    rewrite digit_value_s8 by (by apply cstr_hd_byte in Hc).
  - rewrite Z.add_0_r. unfold stops, is_digit in Hst. destruct (digit_value (hd 0 rest)); [|done].
    rewrite Z.geb_leb. apply Z.ltb_ge in Hst. by destruct (Z.leb_spec base z); [|lia].
  - apply digit_range in Hb as [Hb ->]. rewrite Z.geb_leb.
    destruct (Z.leb_spec base (digit b)); [lia|]. cbn [orb Z.ltb Z.compare].
    apply cstr_next in Hc. rewrite (load_char_cstr _ _ _ Hc). cbn [obind].
    rewrite IH by (done || lia). do 2 f_equal. lia.
Qed.

(** On a run of digits the loop is exact up to [lmax], [any] is -1 above. *)
Lemma acc_loop_spec fuel wrap base lmax m s acc any ds rest :
  2 <= base -> (forall x, 0 <= x <= lmax -> wrap x = x) ->
  cstr m s (ds ++ rest) -> Forall (fun b => is_digit base b = true) ds -> stops base rest ->
  0 <= acc <= lmax -> 0 <= any -> (length ds < fuel)%nat ->
  exists acc' any',
    acc_loop fuel wrap base (lmax / base) (lmax mod base) m (s8 (hd 0 (ds ++ rest))) (s + 1) acc any
      = Ret (acc', any', s + Z.of_nat (length ds) + 1) /\
    if number base acc ds <=? lmax
    then acc' = number base acc ds /\ any' = (match ds with [] => any | _ => 1 end)
    else any' = -1.
Proof.
  intros Hb Hw Hc Hds Hst. revert fuel s acc any Hc.
  induction Hds as [|b ds Hbd Hds IH]; intros fuel s acc any Hc Ha Hany Hf;
    (destruct fuel as [|fuel]; [cbn in Hf; lia|]); cbn [acc_loop app length hd] in *;
    rewrite digit_value_s8 by (by apply cstr_hd_byte in Hc).
  - exists acc, any. cbn [number foldl]. destruct (Z.leb_spec acc lmax); [|lia]. split; [|done].
    rewrite Z.add_0_r. unfold stops, is_digit in Hst. destruct (digit_value (hd 0 rest)); [|done].
    rewrite Z.geb_leb. apply Z.ltb_ge in Hst. by destruct (Z.leb_spec base z); [|lia].
  - apply digit_range in Hbd as [Hbd ->]. rewrite Z.geb_leb.
    destruct (Z.leb_spec base (digit b)); [lia|]. destruct (Z.ltb_spec any 0); [lia|]. cbn [orb].
    rewrite cutoff_exact by lia. apply cstr_next in Hc. change (number base acc (b :: ds)) with (number base (acc * base + digit b) ds).
    destruct (Z.ltb_spec lmax (acc * base + digit b)).
    + rewrite (load_char_cstr _ _ _ Hc). cbn [obind]. exists acc, (-1).
      rewrite (acc_loop_failed _ _ _ _ _ _ _ _ ds rest) by (done || lia).
      split; [do 2 f_equal; lia|].
      pose proof (number_ge base (acc * base + digit b) ds Hb ltac:(lia) Hds).
      destruct (Z.leb_spec (number base (acc * base + digit b) ds) lmax); [lia|done].
    + rewrite (load_char_cstr _ _ _ Hc). cbn [obind].
      rewrite (Hw (acc * base)) by nia. rewrite Hw by nia.
      destruct (IH fuel (s + 1) (acc * base + digit b) 1) as (acc' & any' & -> & Hr); [done|nia|lia|lia|].
      exists acc', any'. split; [do 2 f_equal; lia|].
      destruct (number base (acc * base + digit b) ds <=? lmax); [|done]. destruct Hr as [-> ->].
      split; [done|]. by destruct ds.
Qed.
End parsing.

Section signed.
Implicit Types (m : mem) (l ds rest : list Z).

Lemma digit_char base b : is_digit base b = true -> 48 <= b <= 122 /\ isspace b = false.
Proof.
  unfold is_digit, digit_value, isalpha, isdigit, isupper, islower, isspace.
  zprune; intros ?; first [done | split; [lia|done] | exfalso; lia].
Qed.

(** What precedes the digits: spaces, then nothing, a plus or a minus. *)
Definition sign_text (neg : bool) (sg : list Z) : Prop :=
  if neg then sg = [45] else sg = [] \/ sg = [43].

Record numeral m s base neg sp sg ds rest : Prop := {
  num_base : 2 <= base <= 36 /\ base <> 16;
  num_text : cstr m s (sp ++ sg ++ ds ++ rest);
  num_space : Forall (fun b => isspace b = true) sp;
  num_sign : sign_text neg sg;
  num_digits : Forall (fun b => is_digit base b = true) ds;
  num_some : ds <> [];
  num_stop : stops base rest
}.

(** The text up to the first digit is skipped, and the base stays as given. *)
Lemma strto_signed_prefix lmin lmax m errno nptr endptr base neg sp sg ds rest :
  numeral m nptr base neg sp sg ds rest ->
  let p := nptr + Z.of_nat (length sp) + Z.of_nat (length sg) in
  strto_signed lmin lmax m errno nptr endptr base =
    (let cut := if neg then lmin else lmax in
     let '(cutlim, cutoff) :=
       if neg then
         let '(l, c) := if Z.rem cut base >? 0 then (Z.rem cut base - base, Z.quot cut base + 1)
                        else (Z.rem cut base, Z.quot cut base) in (- l, c)
       else (Z.rem cut base, Z.quot cut base) in
     let! r := acc_loop (loop_fuel m) s64 base cutoff cutlim m (s8 (hd 0 (ds ++ rest))) (p + 1) 0 0 in
     let '(acc, any, s) := r in
     let '(acc, errno) :=
       if any <? 0 then (if neg then lmin else lmax, ERANGE)
       else if neg then (s64 (- acc), errno) else (acc, errno) in
     let! m := set_endptr m endptr (if any =? 0 then nptr else s - 1) in
     Ret (acc, errno, m)) /\ cstr m p (ds ++ rest).
Proof.
  intros [Hb Hc Hsp Hsg Hds Hne _] p.
  pose proof (cstr_fuel _ _ _ Hc) as Hf. rewrite !length_app in Hf.
  assert (Hc2 : cstr m p (ds ++ rest)) by (unfold p; apply cstr_split, cstr_split; done).
  split; [|done]. unfold strto_signed. destruct ds as [|d ds]; [done|].
  apply Forall_cons_iff in Hds as [Hd _]. apply digit_char in Hd as [Hd Hds].
  assert (Hd8 : s8 d = d) by (rewrite s8_byte by (unfold byte; lia); destruct (Z.ltb_spec d 128); lia).
  pose proof (cstr_split _ _ _ _ Hc) as Hc1.
  rewrite (skip_space_spec _ _ _ sp (sg ++ (d :: ds) ++ rest)); [|done|done| |lia].
  2:{ destruct neg; cbn in Hsg; [by rewrite Hsg|]. by destruct Hsg as [-> | ->]. }
  cbn [obind].
  assert (H0 : (base =? 0) || (base =? 16) = false) by (zcases; lia || done).
  assert (H00 : (base =? 0) = false) by (apply Z.eqb_neq; lia).
  rewrite H00 in *. cbn [orb] in H0.
  destruct neg; cbn in Hsg.
  - subst sg. cbn [app hd length] in *. change (s8 45 =? 45) with true. cbv iota.
    apply cstr_next in Hc1. rewrite (load_char_cstr _ _ _ Hc1). cbn [obind hd].
    rewrite H0. cbn [orb andb obind Z.eqb Pos.eqb].
    replace (nptr + Z.of_nat (length sp) + 1 + 1) with (p + 1) by (unfold p; lia). done.
  - destruct Hsg as [-> | ->]; cbn [app hd length] in *.
    + rewrite Hd8. destruct (Z.eqb_spec d 45), (Z.eqb_spec d 43); try lia. cbn [obind].
      rewrite H0. cbn [orb andb obind Z.eqb Pos.eqb].
      replace (nptr + Z.of_nat (length sp) + 1) with (p + 1) by (unfold p; lia). done.
    + change (s8 43 =? 45) with false. change (s8 43 =? 43) with true. cbv iota.
      apply cstr_next in Hc1. rewrite (load_char_cstr _ _ _ Hc1). cbn [obind hd].
      rewrite H0. cbn [orb andb obind Z.eqb Pos.eqb].
      replace (nptr + Z.of_nat (length sp) + 1 + 1) with (p + 1) by (unfold p; lia). done.
Qed.

Lemma strto_signed_pos m errno nptr base sp sg ds rest :
  numeral m nptr base false sp sg ds rest ->
  strto_signed LONG_MIN LONG_MAX m errno nptr 0 base
    = Ret (if number base 0 ds <=? LONG_MAX then (number base 0 ds, errno, m) else (LONG_MAX, ERANGE, m)).
Proof.
  intros H. destruct (strto_signed_prefix LONG_MIN LONG_MAX m errno nptr 0 base false sp sg ds rest H) as [-> Hc].
  destruct H as [Hb _ _ _ Hds Hne Hst]. cbv zeta.
  rewrite Z.rem_mod_nonneg, Z.quot_div_nonneg by (unfold LONG_MAX; lia).
  pose proof (cstr_fuel _ _ _ Hc) as Hf. rewrite length_app in Hf.
  destruct (acc_loop_spec (loop_fuel m) s64 base LONG_MAX m _ 0 0 ds rest ltac:(lia)
    ltac:(intros x Hx; apply sw_small; unfold in_s, LONG_MAX in *; lia) Hc Hds Hst
    ltac:(unfold LONG_MAX; lia) ltac:(lia) ltac:(lia)) as (acc & any & -> & Hr).
  cbn [obind]. destruct (number base 0 ds <=? LONG_MAX).
  - destruct Hr as [-> ->]. destruct ds; [done|]. done.
  - subst any. done.
Qed.

(** For a minus sign the limit is negative and the first digit overflows. *)
Lemma strto_signed_neg m errno nptr base sp sg ds rest :
  numeral m nptr base true sp sg ds rest ->
  strto_signed LONG_MIN LONG_MAX m errno nptr 0 base = Ret (LONG_MIN, ERANGE, m).
Proof.
  intros H. destruct (strto_signed_prefix LONG_MIN LONG_MAX m errno nptr 0 base true sp sg ds rest H) as [-> Hc].
  destruct H as [Hb _ _ _ Hds Hne Hst]. cbv zeta.
  assert (Hq : Z.quot LONG_MIN base < 0).
  { replace LONG_MIN with (- (2 ^ 63)) by (unfold LONG_MIN, LONG_MAX; lia).
    rewrite Z.quot_opp_l, Z.quot_div_nonneg by lia.
    assert (1 <= 2 ^ 63 / base) by (apply Z.div_le_lower_bound; lia). lia. }
  assert (Hr : Z.rem LONG_MIN base <= 0).
  { replace LONG_MIN with (- (2 ^ 63)) by (unfold LONG_MIN, LONG_MAX; lia).
    rewrite Z.rem_opp_l, Z.rem_mod_nonneg by lia. pose proof (Z.mod_pos_bound (2 ^ 63) base). lia. }
  rewrite Z.gtb_ltb. destruct (Z.ltb_spec 0 (Z.rem LONG_MIN base)); [lia|].
  pose proof (cstr_fuel _ _ _ Hc) as Hf. rewrite length_app in Hf.
  destruct ds as [|d ds]; [done|]. cbn [app hd length] in *.
  apply Forall_cons_iff in Hds as [Hd Hds]. destruct (loop_fuel m) as [|fuel]; [lia|]. cbn [acc_loop].
  rewrite digit_value_s8 by (by apply cstr_hd_byte in Hc). apply digit_range in Hd as [Hd ->].
  rewrite Z.geb_leb. destruct (Z.leb_spec base (digit d)); [lia|]. rewrite Z.gtb_ltb.
  destruct (Z.ltb_spec (Z.quot LONG_MIN base) 0); [|lia]. cbn [orb Z.ltb Z.compare].
  apply cstr_next in Hc. rewrite (load_char_cstr _ _ _ Hc). cbn [obind].
  rewrite (acc_loop_failed _ _ _ _ _ _ _ _ ds rest) by (done || lia). done.
Qed.
End signed.

(** ** Laws of qsort *)

Section sorting.
Context {A : Type} (cmp : A -> A -> Z).
Context (cmp_sym : forall x y, cmp x y <= 0 <-> 0 <= cmp y x).
Implicit Types (a : list A).

Definition at_ a (i : Z) (x : A) : Prop := 0 <= i /\ a !! Z.to_nat i = Some x.

Lemma get_at a i x : at_ a i x -> get a i = Ret x.
Proof. intros [Hi Hx]. unfold get. destruct (Z.ltb_spec i 0); [lia|]. by rewrite Hx. Qed.

Lemma at_lt a i x : at_ a i x -> 0 <= i < Z.of_nat (length a).
Proof. intros [Hi Hx]. apply lookup_lt_Some in Hx. lia. Qed.

Lemma at_exists a i : 0 <= i < Z.of_nat (length a) -> exists x, at_ a i x.
Proof.
  intros Hi. destruct (lookup_lt_is_Some_2 a (Z.to_nat i)) as [x Hx]; [lia|]. exists x. split; [lia|done].
Qed.

Lemma at_inj a i x y : at_ a i x -> at_ a i y -> x = y.
Proof. intros [_ Hx] [_ Hy]. congruence. Qed.

Lemma cmp_refl x : cmp x x = 0.
Proof. pose proof (cmp_sym x x). lia. Qed.

Lemma scan_left_spec fuel a l p v k y : 0 <= l <= k -> at_ a p v -> at_ a k y -> 0 <= cmp y v ->
  k - l < Z.of_nat fuel ->
  exists i x, scan_left cmp fuel a l p = Ret i /\ l <= i <= k /\ at_ a i x /\ 0 <= cmp x v /\
    forall j, l <= j < i -> exists z, at_ a j z /\ cmp z v < 0.
Proof.
  revert l. induction fuel as [|fuel IH]; intros l Hl Hp Hk Hy Hf; [lia|].
  cbn [scan_left]. destruct (at_exists a l) as [x Hx]; [apply at_lt in Hk; lia|].
  unfold cmp_at. rewrite (get_at _ _ _ Hx), (get_at _ _ _ Hp). cbn [obind].
  destruct (Z.ltb_spec (cmp x v) 0).
  - destruct (decide (l = k)) as [->|].
    { pose proof (at_inj _ _ _ _ Hx Hk) as ->. lia. }
    destruct (IH (l + 1)) as (i & w & -> & Hi & Hw & Hc & Hb); [lia|done|done|done|lia|].
    exists i, w. split_and!; [done|lia|lia|done|done|].
    intros j Hj. destruct (decide (j = l)) as [->|]; [by exists x|]. apply Hb. lia.
  - exists l, x. split_and!; [done|lia|lia|done|done|]. intros j Hj. lia.
Qed.

Lemma scan_right_spec fuel a r p v k y : 0 <= k <= r -> r < Z.of_nat (length a) ->
  at_ a p v -> at_ a k y -> cmp y v <= 0 -> r - k < Z.of_nat fuel ->
  exists j x, scan_right cmp fuel a r p = Ret j /\ k <= j <= r /\ at_ a j x /\ cmp x v <= 0 /\
    forall i, j < i <= r -> exists z, at_ a i z /\ 0 < cmp z v.
Proof.
  revert r. induction fuel as [|fuel IH]; intros r Hl Hr Hp Hk Hy Hf; [lia|].
  cbn [scan_right]. destruct (at_exists a r) as [x Hx]; [lia|].
  unfold cmp_at. rewrite (get_at _ _ _ Hx), (get_at _ _ _ Hp). cbn [obind].
  rewrite Z.gtb_ltb. destruct (Z.ltb_spec 0 (cmp x v)).
  - destruct (decide (r = k)) as [->|].
    { pose proof (at_inj _ _ _ _ Hx Hk) as ->. lia. }
    destruct (IH (r - 1)) as (i & w & -> & Hi & Hw & Hc & Hb); [lia|lia|done|done|done|lia|].
    exists i, w. split_and!; [done|lia|lia|done|done|].
    intros j Hj. destruct (decide (j = r)) as [->|]; [by exists x|]. apply Hb. lia.
  - exists r, x. split_and!; [done|lia|lia|done|done|]. intros j Hj. lia.
Qed.

(** [a'] is [a] with elements of the range [lo, hi) exchanged. *)
Definition shuffled (lo hi : Z) a a' : Prop :=
  a' ≡ₚ a /\ forall i, 0 <= i -> i < lo \/ hi <= i -> a' !! Z.to_nat i = a !! Z.to_nat i.

Lemma shuffled_refl lo hi a : shuffled lo hi a a.
Proof. by split. Qed.

Lemma shuffled_trans lo hi a1 a2 a3 : shuffled lo hi a1 a2 -> shuffled lo hi a2 a3 -> shuffled lo hi a1 a3.
Proof.
  intros [P1 H1] [P2 H2]. split; [by rewrite P2|]. intros i Hi Ho. rewrite H2, H1; done.
Qed.

Lemma shuffled_sub lo hi lo' hi' a a' : lo' <= lo -> hi <= hi' -> shuffled lo hi a a' -> shuffled lo' hi' a a'.
Proof. intros Hl Hh [P H]. split; [done|]. intros i Hi Ho. apply H; lia. Qed.

Lemma swap_spec a i j x y lo hi : at_ a i x -> at_ a j y -> lo <= i < hi -> lo <= j < hi ->
  exists a', swap a i j = Ret a' /\ shuffled lo hi a a' /\ at_ a' i y /\ at_ a' j x /\
    forall k z, k <> i -> k <> j -> at_ a k z -> at_ a' k z.
Proof.
  intros Hi Hj Hil Hjl. unfold swap. rewrite (get_at _ _ _ Hi), (get_at _ _ _ Hj). cbn [obind].
  eexists. split; [done|]. destruct Hi as [Hi0 Hi], Hj as [Hj0 Hj]. unfold set.
  pose proof (lookup_lt_Some _ _ _ Hi). pose proof (lookup_lt_Some _ _ _ Hj). split.
  { split; [by apply Permutation_insert_swap|]. intros k Hk Ho. rewrite !list_lookup_insert_ne by lia. done. }
  split; [|split].
  - split; [done|]. destruct (decide (i = j)) as [->|].
    + rewrite list_lookup_insert_eq by (rewrite length_insert; lia). congruence.
    + rewrite list_lookup_insert_ne, list_lookup_insert_eq by lia. done.
  - split; [done|]. by rewrite list_lookup_insert_eq by (rewrite length_insert; lia).
  - intros k z Hki Hkj [Hk0 Hk]. split; [done|]. by rewrite !list_lookup_insert_ne by lia.
Qed.

(** Between two turns the pivot slot is still between the two pointers, or the
    elements just outside them stop the next scans. *)
Definition between a (lo hi p l r : Z) : Prop :=
  lo <= l <= p /\ p <= r < hi \/
  lo < l /\ lo <= r /\ r + 1 < hi /\ l <= r + 2 /\ (p < l \/ r < p) /\
  exists v x y, at_ a p v /\ at_ a (l - 1) x /\ at_ a (r + 1) y /\ cmp x v <= 0 /\ 0 <= cmp y v.

Lemma partition_turn a lo hi p l r : 0 <= lo -> hi <= Z.of_nat (length a) -> lo < p < hi ->
  between a lo hi p l r -> l <= r ->
  exists i j, scan_left cmp (S (length a)) a l p = Ret i /\ scan_right cmp (S (length a)) a r p = Ret j /\
    (i <= j /\ l <= i /\ j <= r /\
       (exists a', swap a i j = Ret a' /\ shuffled lo hi a a' /\ between a' lo hi p (i + 1) (j - 1)) \/
     j < i /\ lo <= j <= hi - 2 /\ i = j + 1).
Proof.
  intros Hlo Hhi Hp [[Hl Hr]|(Hl & Hlr & Hr & _ & Hpo & v & x & y & Hv & Hx & Hy & Hxv & Hyv)] Hle.
  - destruct (at_exists a p) as [v Hv]; [lia|]. pose proof (cmp_refl v) as Hvv.
    destruct (scan_left_spec (S (length a)) a l p v p v) as (i & x & -> & Hi & Hx & Hxv & _); [lia|done|done|lia|lia|].
    destruct (scan_right_spec (S (length a)) a r p v p v) as (j & y & -> & Hj & Hy & Hyv & _); [lia|lia|done|done|lia|lia|].
    exists i, j. split; [done|]. split; [done|]. left. split_and!; try lia.
    destruct (swap_spec a i j x y lo hi Hx Hy) as (a' & Ha & Hsh & Hi' & Hj' & Ho); [lia|lia|].
    exists a'. split; [done|]. split; [done|].
    destruct (decide (i < p < j)); [left; lia|right]. split_and!; try lia.
    replace (i + 1 - 1) with i by lia. replace (j - 1 + 1) with j by lia.
    destruct (decide (i = p)) as [->|].
    + pose proof (at_inj _ _ _ _ Hx Hv) as ->. exists y, y, v.
      pose proof (cmp_refl y). split_and!; [apply Hi'|apply Hi'|apply Hj'|lia|].
      by apply cmp_sym.
    + assert (j = p) as -> by lia. pose proof (at_inj _ _ _ _ Hy Hv) as ->. exists x, v, x.
      pose proof (cmp_refl x). split_and!; [apply Hj'|apply Hi'|apply Hj'| |lia].
      by apply cmp_sym.
  - destruct (scan_left_spec (S (length a)) a l p v (r + 1) y) as (i & x' & -> & Hi & Hx' & Hxv' & Hbi); [lia|done|done|done|lia|].
    destruct (scan_right_spec (S (length a)) a r p v (l - 1) x) as (j & y' & -> & Hj & Hy' & Hyv' & Hbj); [lia|lia|done|done|done|lia|].
    exists i, j. split; [done|]. split; [done|]. destruct (Z_le_dec i j); [left|right].
    + split_and!; try lia.
      destruct (swap_spec a i j x' y' lo hi Hx' Hy') as (a' & Ha & Hsh & Hi' & Hj' & Ho); [lia|lia|].
      exists a'. split; [done|]. split; [done|]. right. split_and!; try lia. exists v, y', x'.
      replace (i + 1 - 1) with i by lia. replace (j - 1 + 1) with j by lia.
      assert (Hv' : at_ a' p v) by (apply Ho; [lia|lia|done]).
      split_and!; [apply Hv'|apply Hi'|apply Hj'|done|done].
    + split; [lia|]. split; [lia|]. destruct (decide (i = j + 1)); [done|exfalso].
      destruct (Hbi (j + 1)) as (z & Hz & Hzv); [lia|]. destruct (Hbj (j + 1)) as (z' & Hz' & Hzv'); [lia|].
      pose proof (at_inj _ _ _ _ Hz Hz') as ->. lia.
Qed.

Lemma partition_loop_spec fuel a lo hi p l r : 0 <= lo -> hi <= Z.of_nat (length a) -> lo < p < hi ->
  between a lo hi p l r -> r - l + 2 < Z.of_nat fuel -> (0 < fuel)%nat ->
  exists a' l' r', partition_loop cmp fuel a l r p = Ret (a', l', r') /\ shuffled lo hi a a' /\
    lo <= r' <= hi - 2 /\ r' + 1 <= l' <= r' + 2.
Proof.
  intros Hlo Hhi Hp. revert a l r Hhi. induction fuel as [|fuel IH]; intros a l r Hhi Hb Hf Hf0; [lia|].
  cbn [partition_loop]. destruct (Z.leb_spec l r) as [Hle|Hgt].
  - destruct (partition_turn a lo hi p l r) as (i & j & -> & -> & Hij); [done..|]. cbn [obind].
    destruct Hij as [(Hij & Hi & Hj & a1 & Ha & Hsh & Hb1)|(Hij & Hj & ->)].
    + destruct (Z.leb_spec i j); [|lia]. rewrite Ha. cbn [obind].
      destruct (IH a1 (i + 1) (j - 1)) as (a' & l' & r' & -> & Hsh' & Hr); [|done|lia|lia|].
      { destruct Hsh as [HP _]. by rewrite HP. }
      exists a', l', r'. split; [done|]. split; [by apply (shuffled_trans _ _ _ a1)|done].
    + destruct (Z.leb_spec (j + 1) j); [lia|]. destruct fuel as [|fuel]; [lia|]. cbn [partition_loop].
      destruct (Z.leb_spec (j + 1) j); [lia|]. exists a, (j + 1), j.
      split; [done|]. split; [apply shuffled_refl|]. lia.
  - exists a, l, r. split; [done|]. split; [apply shuffled_refl|]. destruct Hb as [|(? & ? & ? & ? & _)]; lia.
Qed.

Lemma qsort_spec fuel a base nel : 0 <= base -> 0 <= nel -> base + nel <= Z.of_nat (length a) ->
  Z.of_nat (length a) < 2 ^ 64 -> nel < Z.of_nat fuel ->
  exists a', qsort cmp fuel a base nel = Ret a' /\ shuffled base (base + nel) a a'.
Proof.
  revert a base nel. induction fuel as [|fuel IH]; intros a base nel Hb Hn Hl Hlen Hf; [lia|].
  cbn [qsort]. destruct (Z.ltb_spec nel 2). { exists a. split; [done|apply shuffled_refl]. }
  assert (0 < nel / 2 < nel) by (split; [apply Z.div_str_pos|apply Z.div_lt]; lia).
  destruct (partition_loop_spec (S (S (Z.to_nat nel))) a base (base + nel) (base + nel / 2) base (base + (nel - 1)))
    as (a1 & l & r & -> & Hsh & Hr & Hlr); [lia|lia|lia|left; lia|lia|lia|]. cbn [obind].
  rewrite (uw_small 64 (r - base + 1)) by (unfold in_u; lia).
  rewrite (uw_small 64 (nel - _ - 1)) by (unfold in_u; lia).
  assert (Hl1 : length a1 = length a) by (destruct Hsh as [HP _]; by rewrite HP).
  destruct (IH a1 base (r - base + 1)) as (a2 & -> & Hs2); [lia..|]. cbn [obind].
  assert (Hl2 : length a2 = length a1) by (destruct Hs2 as [HP _]; by rewrite HP).
  destruct (IH a2 l (nel - (r - base + 1) - 1)) as (a3 & -> & Hs3); [lia..|].
  exists a3. split; [done|]. apply (shuffled_trans _ _ _ a1); [done|]. apply (shuffled_trans _ _ _ a2).
  - eapply shuffled_sub; [| |exact Hs2]; lia.
  - eapply shuffled_sub; [| |exact Hs3]; lia.
Qed.
End sorting.

(** ** Laws of the unsigned parsers *)

Section unsigned.
Implicit Types (m : mem) (l ds rest : list Z).

Lemma skip_space_u_spec fuel m s sp l : cstr m s (sp ++ l) -> Forall (fun b => isspace b = true) sp ->
  isspace (hd 0 l) = false -> (length sp < fuel)%nat ->
  skip_space_u fuel m s = Ret (s + Z.of_nat (length sp)).
Proof.
  intros Hc Hsp Hl. revert fuel s Hc. induction Hsp as [|b sp Hb Hsp IH]; intros fuel s Hc Hf;
    (destruct fuel as [|fuel]; [cbn in Hf; lia|]); cbn [skip_space_u app length] in *;
    rewrite (cstr_load _ _ _ Hc); cbn [obind hd].
  - rewrite Hl, Z.add_0_r. done.
  - rewrite Hb. apply cstr_next in Hc. rewrite IH by (done || lia). f_equal. lia.
Qed.

(** Up to the loop everything is as in the signed parsers. *)
Lemma strto_unsigned_prefix umax c0 m errno str base sp sg ds rest :
  numeral m str base false sp sg ds rest ->
  let p := str + Z.of_nat (length sp) + Z.of_nat (length sg) in
  strto_unsigned umax c0 m errno str 0 base =
    (let! r := acc_loop (S (loop_fuel m)) u64 base (umax / base) (umax mod base) m c0 p 0 0 in
     let '(acc, any, _) := r in
     Ret (if any <? 0 then (umax, ERANGE, m) else if any =? 0 then (acc, EINVAL, m) else (acc, errno, m)))
  /\ cstr m p (ds ++ rest).
Proof.
  intros [Hb Hc Hsp Hsg Hds Hne _] p.
  pose proof (cstr_fuel _ _ _ Hc) as Hf. rewrite !length_app in Hf.
  assert (Hc2 : cstr m p (ds ++ rest)) by (unfold p; apply cstr_split, cstr_split; done).
  split; [|done]. unfold strto_unsigned. destruct ds as [|d ds]; [done|].
  apply Forall_cons_iff in Hds as [Hd _]. apply digit_char in Hd as [Hd Hds].
  assert (Hd8 : s8 d = d) by (rewrite s8_byte by (unfold byte; lia); destruct (Z.ltb_spec d 128); lia).
  pose proof (cstr_split _ _ _ _ Hc) as Hc1.
  assert (H36 : (base <? 0) || (base =? 1) || (base >? 36) = false).
  { rewrite Z.gtb_ltb. zcases; lia || done. }
  rewrite H36. rewrite (skip_space_u_spec _ _ _ sp (sg ++ (d :: ds) ++ rest)); [|done|done| |lia].
  2:{ cbn in Hsg. by destruct Hsg as [-> | ->]. }
  cbn [obind]. rewrite (load_char_cstr _ _ _ Hc1). cbn [obind].
  assert (H0 : (base =? 0) || (base =? 16) = false) by (zcases; lia || done).
  assert (H00 : (base =? 0) = false) by (apply Z.eqb_neq; lia).
  assert (Hp : (if s8 (hd 0 (sg ++ (d :: ds) ++ rest)) =? 43 then str + Z.of_nat (length sp) + 1
                else str + Z.of_nat (length sp)) = p /\ (s8 (hd 0 (sg ++ (d :: ds) ++ rest)) =? 45) = false).
  { unfold p. cbn in Hsg. destruct Hsg as [-> | ->]; cbn [app hd length].
    - rewrite Hd8. destruct (Z.eqb_spec d 43), (Z.eqb_spec d 45); lia || (split; [lia|done]).
    - change (s8 43) with 43. split; [cbn [Z.eqb Pos.eqb]; lia|done]. }
  destruct Hp as [Hp ->]. rewrite Hp. rewrite (load_char_cstr _ _ _ Hc2). cbn [obind].
  rewrite H0. cbn [andb obind]. rewrite H00.
  destruct (acc_loop _ _ _ _ _ _ _ _ _ _) as [[[acc any] s']| |]; cbn [obind]; try done.
  by destruct (any <? 0), (any =? 0).
Qed.

Lemma strto_unsigned_zero m errno str base sp sg ds rest :
  numeral m str base false sp sg ds rest ->
  strto_unsigned ULONG_MAX 48 m errno str 0 base
    = Ret (if number base 0 ds <=? ULONG_MAX then (number base 0 ds, errno, m) else (ULONG_MAX, ERANGE, m)).
Proof.
  intros H. destruct (strto_unsigned_prefix ULONG_MAX 48 m errno str base sp sg ds rest H) as [-> Hc].
  destruct H as [Hb _ _ _ Hds Hne Hst]. cbn [acc_loop digit_value isdigit Z.leb Z.compare Pos.compare Pos.compare_cont andb Z.sub Z.add Z.opp Z.pos_sub].
  change (48 - 48) with 0. rewrite Z.geb_leb. destruct (Z.leb_spec base 0); [lia|].
  assert (Hq : 0 < ULONG_MAX / base) by (apply Z.div_str_pos; unfold ULONG_MAX, LONG_MAX; lia).
  cbn [Z.ltb Z.compare orb]. rewrite Z.gtb_ltb. destruct (Z.ltb_spec (ULONG_MAX / base) 0); [lia|].
  destruct (Z.eqb_spec 0 (ULONG_MAX / base)); [lia|]. cbn [orb andb].
  rewrite (load_char_cstr _ _ _ Hc). cbn [obind]. change (u64 (u64 (0 * base) + 0)) with 0.
  pose proof (cstr_fuel _ _ _ Hc) as Hf. rewrite length_app in Hf.
  destruct (acc_loop_spec (loop_fuel m) u64 base ULONG_MAX m _ 0 1 ds rest ltac:(lia)
    ltac:(intros x Hx; apply uw_small; unfold in_u, ULONG_MAX, LONG_MAX in *; lia) Hc Hds Hst
    ltac:(unfold ULONG_MAX, LONG_MAX; lia) ltac:(lia) ltac:(lia)) as (acc & any & -> & Hr).
  cbn [obind]. destruct (number base 0 ds <=? ULONG_MAX); [destruct Hr as [-> ->]|by subst any].
  by destruct ds.
Qed.
End unsigned.

(** ** Laws of the environment *)

(** An environment: the pointers and the strings they point to. *)
Fixpoint environ_at (m : mem) (env : Z) (es : list (Z * list Z)) : Prop :=
  match es with
  | [] => bytes_at m env (le_bytes 8 0)
  | (p, e) :: es =>
      0 < p < 2 ^ 64 /\ bytes_at m env (le_bytes 8 p) /\ cstr m p e /\ environ_at m (env + 8) es
  end.

Section environment.
Implicit Types (m : mem) (es : list (Z * list Z)).

Lemma of_le_bytes n v : 0 <= v < 2 ^ (8 * Z.of_nat n) -> of_bytes (le_bytes n v) = v.
Proof.
  intros Hv. destruct (of_bytes_split n v) as (l & <- & Hl & ->); [done|]. by rewrite le_bytes_of_bytes.
Qed.

Lemma environ_fuel m env es : environ_at m env es -> (length es < loop_fuel m)%nat.
Proof.
  intros H. assert (Hb : exists l, length l = (8 * length es + 8)%nat /\ bytes_at m env l).
  { revert env H. induction es as [|[p e] es IH]; intros env H; cbn [environ_at] in H.
    - eexists. split; [|exact H]. done.
    - destruct H as (_ & Hp & _ & H). destruct (IH _ H) as (l & Hl & Hb).
      exists (le_bytes 8 p ++ l). rewrite length_app, le_bytes_length, Hl. split; [cbn; lia|].
      apply bytes_at_app. rewrite le_bytes_length. done. }
  destruct Hb as (l & Hl & Hb). apply bytes_at_size in Hb. unfold loop_fuel. lia.
Qed.

(** The comparison of [getenv] on one entry. *)
Lemma getenv_entry m p name e n : cstr m p e -> cstr m name n ->
  exists r, strncmp m p name (Z.of_nat (length n)) = Ret r /\
    (r = 0 -> exists c, load8 m (p + Z.of_nat (length n)) = Ret c /\
       (c = 61 <-> (n ++ [61]) `prefix_of` e)) /\
    (r <> 0 -> ~ (n ++ [61]) `prefix_of` e).
Proof.
  intros He Hn. unfold strncmp. rewrite Nat2Z.id. eexists.
  split; [by apply strncmp_loop_spec|]. rewrite take_ge with (l := n) by done.
  destruct (first_diff_order (take (length n) e) n) as (H0 & _ & _);
    [apply Forall_take; by eapply cstr_byte|by eapply cstr_byte|eapply take_no_nul; by eapply cstr_no_nul|
     by eapply cstr_no_nul|].
  split; intros Hr.
  - apply H0 in Hr. rewrite <- (take_drop (length n) e), Hr in He |- *.
    apply cstr_split in He. rewrite (cstr_load _ _ _ He). eexists. split; [done|].
    destruct (drop (length n) e) as [|c e']; cbn [hd]; split; intros H.
    + done.
    + by apply prefix_app_inv, prefix_nil_not in H.
    + rewrite H. apply prefix_app, prefix_cons, prefix_nil.
    + by apply prefix_app_inv, prefix_cons_inv_1 in H.
  - intros [k Hk]. apply Hr, H0. by rewrite Hk, <- app_assoc, take_app_length.
Qed.

Lemma getenv_loop_spec fuel m env name n es : environ_at m env es -> cstr m name n ->
  (length es < fuel)%nat ->
  (Forall (fun pe => ~ (n ++ [61]) `prefix_of` snd pe) es /\
     getenv_loop fuel m env name (Z.of_nat (length n)) = Ret 0) \/
  (exists es1 p v es2, es = es1 ++ (p, n ++ [61] ++ v) :: es2 /\
     Forall (fun pe => ~ (n ++ [61]) `prefix_of` snd pe) es1 /\
     getenv_loop fuel m env name (Z.of_nat (length n)) = Ret (p + Z.of_nat (length n) + 1) /\
     cstr m (p + Z.of_nat (length n) + 1) v).
Proof.
  intros H Hn. revert fuel env H. induction es as [|[p e] es IH]; intros fuel env H Hf;
    (destruct fuel as [|fuel]; [cbn in Hf; lia|]); cbn [getenv_loop environ_at length] in *.
  { left. split; [constructor|]. by rewrite (load_le_at _ _ _ 8 (le_bytes_length 8 0) H). }
  destruct H as (Hp & Hb & He & H).
  rewrite (load_le_at _ _ _ 8 (le_bytes_length 8 p) Hb), of_le_bytes by (cbn; lia). cbn [obind].
  destruct (Z.eqb_spec p 0); [lia|].
  destruct (getenv_entry m p name e n He Hn) as (r & -> & Hr0 & Hr1). cbn [obind].
  assert (Hnext : ~ (n ++ [61]) `prefix_of` e -> (Forall (fun pe => ~ (n ++ [61]) `prefix_of` snd pe) ((p, e) :: es) /\
     getenv_loop fuel m (env + 8) name (Z.of_nat (length n)) = Ret 0) \/
    (exists es1 q v es2, (p, e) :: es = es1 ++ (q, n ++ [61] ++ v) :: es2 /\
     Forall (fun pe => ~ (n ++ [61]) `prefix_of` snd pe) es1 /\
     getenv_loop fuel m (env + 8) name (Z.of_nat (length n)) = Ret (q + Z.of_nat (length n) + 1) /\
     cstr m (q + Z.of_nat (length n) + 1) v)).
  { intros Hno. destruct (IH fuel (env + 8) H ltac:(lia)) as [[HF ->]|(es1 & q & v & es2 & -> & HF & -> & Hv)].
    - left. split; [by constructor|done].
    - right. exists ((p, e) :: es1), q, v, es2. split; [done|]. split; [by constructor|done]. }
  destruct (Z.eqb_spec r 0) as [->|Hr]; cbn [andb obind]; [|by apply Hnext, Hr1].
  destruct (Hr0 eq_refl) as (c & -> & Hc). cbn [obind]. destruct (Z.eqb_spec c 61) as [->|Hc61].
  - destruct (proj1 Hc eq_refl) as [v Hv]. right. exists [], p, v, es. rewrite <- app_assoc in Hv.
    split; [by rewrite Hv|]. split; [constructor|]. split; [done|].
    rewrite Hv in He. apply cstr_split in He. apply cstr_next in He. done.
  - apply Hnext. intros Hpre. by apply Hc61, Hc.
Qed.
End environment.

(** ** The properties *)

(** [strtol] and [strtoll] on a number without a minus sign, in any base
    from 2 to 36 except 16: spaces and a plus are skipped, the value is the
    exact number up to [LONG_MAX], and [LONG_MAX] with [ERANGE] above. *)
Theorem strtol_nonnegative m errno nptr base sp sg ds rest :
  numeral m nptr base false sp sg ds rest ->
  strtol m errno nptr 0 base
    = Ret (if number base 0 ds <=? LONG_MAX then (number base 0 ds, errno, m) else (LONG_MAX, ERANGE, m)) /\
  strtoll m errno nptr 0 base = strtol m errno nptr 0 base.
Proof. intros H. split; [by apply (strto_signed_pos _ _ _ _ sp sg ds rest)|done]. Qed.

(** The strings (space)+123x and -5 for the witnesses. *)
Definition num_demo : mem := write_bytes (write_bytes ∅ 16 [32; 43; 49; 50; 51; 120; 0]) 32 [45; 53; 0].

Lemma strtol_nonnegative_witness :
  strtol num_demo 0 16 0 10 = Ret (123, 0, num_demo) /\
  strtoll num_demo 0 16 0 10 = strtol num_demo 0 16 0 10.
Proof.
  apply (strtol_nonnegative num_demo 0 16 10 [32] [43] [49; 50; 51] [120]). constructor;
    [lia|apply cstr_checked; vm_compute; reflexivity|by constructor|by right|by repeat constructor|done|done].
Defined.

(** Every number with a minus sign, however small, is taken for an
    overflow: [strtol] gives [LONG_MIN] with [ERANGE], and [atoi] gives 0. *)
Theorem strtol_negative_overflows m errno nptr base sp sg ds rest :
  numeral m nptr base true sp sg ds rest ->
  strtol m errno nptr 0 base = Ret (LONG_MIN, ERANGE, m) /\
  (base = 10 -> atoi m errno nptr = Ret (0, ERANGE, m)).
Proof.
  intros H. assert (Hs : strtol m errno nptr 0 base = Ret (LONG_MIN, ERANGE, m))
    by (by apply (strto_signed_neg _ _ _ _ sp sg ds rest)).
  split; [done|]. intros ->. unfold atoi. rewrite Hs. done.
Qed.

Lemma strtol_negative_witness :
  strtol num_demo 0 32 0 10 = Ret (LONG_MIN, ERANGE, num_demo) /\
  (10 = 10 -> atoi num_demo 0 32 = Ret (0, ERANGE, num_demo)).
Proof.
  apply (strtol_negative_overflows num_demo 0 32 10 [] [45] [53] []). constructor;
    [lia|apply cstr_checked; vm_compute; reflexivity|by constructor|done|by repeat constructor|done|done].
Defined.

(** [strtoul] enters its loop with the variable [c] unassigned.  When it
    happens to hold the character 0 the value is right, exact up to
    [ULONG_MAX]; when it holds anything that is not a digit or a letter, every
    number is refused with [EINVAL]. *)
Theorem strtoul_depends_on_c m errno str base c0 sp sg ds rest :
  numeral m str base false sp sg ds rest -> digit_value c0 = None ->
  strtoul 48 m errno str 0 base
    = Ret (if number base 0 ds <=? ULONG_MAX then (number base 0 ds, errno, m) else (ULONG_MAX, ERANGE, m)) /\
  strtoul c0 m errno str 0 base = Ret (0, EINVAL, m).
Proof.
  intros H Hc. split; [by apply (strto_unsigned_zero _ _ _ _ sp sg ds rest)|].
  unfold strtoul. destruct (strto_unsigned_prefix ULONG_MAX c0 m errno str base sp sg ds rest H) as [-> _].
  cbn [acc_loop]. by rewrite Hc.
Qed.

Lemma strtoul_witness :
  strtoul 48 num_demo 0 16 0 10 = Ret (123, 0, num_demo) /\
  strtoul (-1) num_demo 0 16 0 10 = Ret (0, EINVAL, num_demo).
Proof.
  apply (strtoul_depends_on_c num_demo 0 16 10 (-1) [32] [43] [49; 50; 51] [120]); [|done]. constructor;
    [lia|apply cstr_checked; vm_compute; reflexivity|by constructor|by right|by repeat constructor|done|done].
Defined.

(** C29: for every comparison function whose two directions agree, [qsort]
    terminates on every part of every array, never looks outside it, and leaves
    a permutation of the elements, with those outside the part untouched. *)
Theorem qsort_permutes {A} (cmp : A -> A -> Z) (a : list A) base nel :
  (forall x y, cmp x y <= 0 <-> 0 <= cmp y x) ->
  0 <= base -> 0 <= nel -> base + nel <= Z.of_nat (length a) -> Z.of_nat (length a) < 2 ^ 64 ->
  exists a', qsort cmp (S (Z.to_nat nel)) a base nel = Ret a' /\ a' ≡ₚ a /\
    forall i, 0 <= i -> i < base \/ base + nel <= i -> a' !! Z.to_nat i = a !! Z.to_nat i.
Proof. intros Hc ? ? ? ?. apply qsort_spec; [done..|lia]. Qed.

Lemma qsort_witness : exists a', qsort Z.sub 4 [3; 1; 2; 0] 0 3 = Ret a' /\ a' ≡ₚ [3; 1; 2; 0] /\
  forall i, 0 <= i -> i < 0 \/ 0 + 3 <= i -> a' !! Z.to_nat i = [3; 1; 2; 0] !! Z.to_nat i.
Proof. apply (qsort_permutes Z.sub [3; 1; 2; 0] 0 3); cbn; intros; lia. Defined.

(** The result of [qsort] need not be sorted: the pivot is read through a
    pointer into the array while its elements move, and the last element is
    left out of the second recursive call. *)
Theorem qsort_unsorted : qsort Z.sub 4 [3; 1; 2] 0 3 = Ret [1; 3; 2].
Proof. reflexivity. Qed.

(** [getenv] gives the value of the first entry of the environment that is
    the name followed by an equals sign, as a string inside that entry, and
    NULL exactly when there is no such entry. *)
Theorem getenv_first_match m environ name n es :
  environ_at m environ es -> cstr m name n -> name <> 0 ->
  (Forall (fun pe => ~ (n ++ [61]) `prefix_of` snd pe) es /\ getenv m environ name = Ret 0) \/
  (exists es1 p v es2, es = es1 ++ (p, n ++ [61] ++ v) :: es2 /\
     Forall (fun pe => ~ (n ++ [61]) `prefix_of` snd pe) es1 /\
     getenv m environ name = Ret (p + Z.of_nat (length n) + 1) /\
     cstr m (p + Z.of_nat (length n) + 1) v).
Proof.
  intros He Hn H0. unfold getenv. destruct (Z.eqb_spec name 0); [done|].
  rewrite (strlen_spec _ _ n) by done. cbn [obind].
  apply getenv_loop_spec; [done..|by apply environ_fuel in He].
Qed.

(** The environment A=b, AB=c with the names A at 200. *)
Definition env_demo : mem :=
  write_bytes (write_bytes (write_bytes (write_bytes ∅ 100 (le_bytes 8 300 ++ le_bytes 8 310 ++ le_bytes 8 0))
    200 [65; 0]) 300 [65; 66; 61; 99; 0]) 310 [65; 61; 98; 0].

Lemma getenv_witness :
  (Forall (fun pe => ~ ([65] ++ [61]) `prefix_of` snd pe) [(300, [65; 66; 61; 99]); (310, [65; 61; 98])] /\
     getenv env_demo 100 200 = Ret 0) \/
  (exists es1 p v es2, [(300, [65; 66; 61; 99]); (310, [65; 61; 98])] = es1 ++ (p, [65] ++ [61] ++ v) :: es2 /\
     Forall (fun pe => ~ ([65] ++ [61]) `prefix_of` snd pe) es1 /\
     getenv env_demo 100 200 = Ret (p + Z.of_nat (length [65]) + 1) /\
     cstr env_demo (p + Z.of_nat (length [65]) + 1) v).
Proof.
  apply (getenv_first_match env_demo 100 200 [65] [(300, [65; 66; 61; 99]); (310, [65; 61; 98])]);
    [|apply cstr_checked; vm_compute; reflexivity|done].
  cbn [environ_at]. split_and!; try lia;
    first [apply bytes_at_checked; vm_compute; reflexivity | apply cstr_checked; vm_compute; reflexivity].
Defined.

(** Registering handlers one after the other: the results and the table. *)
Definition register_all {F} (fs : list F) : list Z * list F :=
  foldl (fun st f => let '(r, funcs) := atexit (snd st) f in (fst st ++ [r], funcs)) ([], []) fs.

(** [atexit] accepts the first 32 handlers and refuses the others without
    disturbing the table, and [exit] calls the accepted ones in the reverse of
    the order of registration. *)
Theorem exit_handlers_reversed {F} (fs : list F) :
  fst (register_all fs) = replicate (Nat.min 32 (length fs)) 0 ++ replicate (length fs - 32) (-1) /\
  exit_calls (snd (register_all fs)) = reverse (take 32 fs).
Proof.
  unfold exit_calls, register_all. induction fs as [|f fs IH] using rev_ind; [done|].
  rewrite foldl_app. set (st := foldl _ ([], []) fs) in *. cbn [foldl].
  destruct IH as [IH1 IH2]. apply (f_equal reverse) in IH2. rewrite !reverse_involutive in IH2.
  unfold atexit. rewrite IH2, length_take, Z.geb_leb, length_app. unfold MAX_ATEXIT_FUNCS. cbn [length].
  destruct (Z.leb_spec 32 (Z.of_nat (32 `min` length fs))); cbn [fst snd].
  - rewrite IH1, take_app_le by lia. split; [|done].
    replace (length fs + 1 - 32)%nat with (length fs - 32 + 1)%nat by lia.
    rewrite replicate_add. cbn [replicate]. rewrite app_assoc. do 3 f_equal. lia.
  - rewrite IH1, (take_ge fs), (take_ge (fs ++ [f])) by (rewrite ?length_app; cbn [length]; lia). split; [|done].
    replace (length fs + 1 - 32)%nat with 0%nat by lia. replace (length fs - 32)%nat with 0%nat by lia.
    replace (32 `min` (length fs + 1))%nat with (32 `min` length fs + 1)%nat by lia.
    rewrite replicate_add. cbn [replicate]. by rewrite !app_nil_r.
Qed.

(** [reallocarray] hands the exact product to [realloc] when it fits a
    [size_t], and fails with [ENOMEM] without calling it exactly when the
    product would wrap. *)
Theorem reallocarray_no_wrap {A} (realloc : Z -> Z -> A) null errno ptr nelem elsize :
  in_u 64 nelem -> in_u 64 elsize ->
  reallocarray realloc null errno ptr nelem elsize
    = if nelem * elsize <? 2 ^ 64 then (realloc ptr (nelem * elsize), errno) else (null, ENOMEM).
Proof.
  unfold in_u, reallocarray. intros Hn He. rewrite Z.gtb_ltb. destruct (Z.eqb_spec nelem 0) as [->|]; [done|].
  cbn [negb andb]. destruct (Z.ltb_spec ((2 ^ 64 - 1) / nelem) elsize) as [Hlt|Hge].
  - assert (2 ^ 64 - 1 < nelem * elsize).
    { pose proof (Z.div_mod (2 ^ 64 - 1) nelem ltac:(lia)).
      pose proof (Z.mod_pos_bound (2 ^ 64 - 1) nelem ltac:(lia)). nia. }
    destruct (Z.ltb_spec (nelem * elsize) (2 ^ 64)); [lia|done].
  - assert (nelem * elsize <= 2 ^ 64 - 1).
    { pose proof (Z.mul_div_le (2 ^ 64 - 1) nelem ltac:(lia)). nia. }
    destruct (Z.ltb_spec (nelem * elsize) (2 ^ 64)); [|lia]. rewrite uw_small by (unfold in_u; nia). done.
Qed.

Lemma reallocarray_witness :
  reallocarray (fun p n => (p, n)) (0, 0) 0 5 (2 ^ 40) (2 ^ 24) = ((0, 0), ENOMEM).
Proof. apply (reallocarray_no_wrap (fun p n => (p, n)) (0, 0) 0 5 (2 ^ 40) (2 ^ 24)); unfold in_u; lia. Defined.
