(* ===== verification/Crc32.v ===== *)
(** * The kernel's CRC-32

    Model of [Kernel/library/crc32.c].  The buffer is the list of the [Length]
    bytes that are read (the loop [while (Length--)] assumes a non-negative
    length).  The reference is the polynomial division bit by bit. *)

From S2P Require Import Prelude.

Definition LookupTable : list Z :=
  [0x00000000; 0x04c11db7; 0x09823b6e; 0x0d4326d9;
   0x130476dc; 0x17c56b6b; 0x1a864db2; 0x1e475005;
   0x2608edb8; 0x22c9f00f; 0x2f8ad6d6; 0x2b4bcb61;
   0x350c9b64; 0x31cd86d3; 0x3c8ea00a; 0x384fbdbd;
   0x4c11db70; 0x48d0c6c7; 0x4593e01e; 0x4152fda9;
   0x5f15adac; 0x5bd4b01b; 0x569796c2; 0x52568b75;
   0x6a1936c8; 0x6ed82b7f; 0x639b0da6; 0x675a1011;
   0x791d4014; 0x7ddc5da3; 0x709f7b7a; 0x745e66cd;
   0x9823b6e0; 0x9ce2ab57; 0x91a18d8e; 0x95609039;
   0x8b27c03c; 0x8fe6dd8b; 0x82a5fb52; 0x8664e6e5;
   0xbe2b5b58; 0xbaea46ef; 0xb7a96036; 0xb3687d81;
   0xad2f2d84; 0xa9ee3033; 0xa4ad16ea; 0xa06c0b5d;
   0xd4326d90; 0xd0f37027; 0xddb056fe; 0xd9714b49;
   0xc7361b4c; 0xc3f706fb; 0xceb42022; 0xca753d95;
   0xf23a8028; 0xf6fb9d9f; 0xfbb8bb46; 0xff79a6f1;
   0xe13ef6f4; 0xe5ffeb43; 0xe8bccd9a; 0xec7dd02d;
   0x34867077; 0x30476dc0; 0x3d044b19; 0x39c556ae;
   0x278206ab; 0x23431b1c; 0x2e003dc5; 0x2ac12072;
   0x128e9dcf; 0x164f8078; 0x1b0ca6a1; 0x1fcdbb16;
   0x018aeb13; 0x054bf6a4; 0x0808d07d; 0x0cc9cdca;
   0x7897ab07; 0x7c56b6b0; 0x71159069; 0x75d48dde;
   0x6b93dddb; 0x6f52c06c; 0x6211e6b5; 0x66d0fb02;
   0x5e9f46bf; 0x5a5e5b08; 0x571d7dd1; 0x53dc6066;
   0x4d9b3063; 0x495a2dd4; 0x44190b0d; 0x40d816ba;
   0xaca5c697; 0xa864db20; 0xa527fdf9; 0xa1e6e04e;
   0xbfa1b04b; 0xbb60adfc; 0xb6238b25; 0xb2e29692;
   0x8aad2b2f; 0x8e6c3698; 0x832f1041; 0x87ee0df6;
   0x99a95df3; 0x9d684044; 0x902b669d; 0x94ea7b2a;
   0xe0b41de7; 0xe4750050; 0xe9362689; 0xedf73b3e;
   0xf3b06b3b; 0xf771768c; 0xfa325055; 0xfef34de2;
   0xc6bcf05f; 0xc27dede8; 0xcf3ecb31; 0xcbffd686;
   0xd5b88683; 0xd1799b34; 0xdc3abded; 0xd8fba05a;
   0x690ce0ee; 0x6dcdfd59; 0x608edb80; 0x644fc637;
   0x7a089632; 0x7ec98b85; 0x738aad5c; 0x774bb0eb;
   0x4f040d56; 0x4bc510e1; 0x46863638; 0x42472b8f;
   0x5c007b8a; 0x58c1663d; 0x558240e4; 0x51435d53;
   0x251d3b9e; 0x21dc2629; 0x2c9f00f0; 0x285e1d47;
   0x36194d42; 0x32d850f5; 0x3f9b762c; 0x3b5a6b9b;
   0x0315d626; 0x07d4cb91; 0x0a97ed48; 0x0e56f0ff;
   0x1011a0fa; 0x14d0bd4d; 0x19939b94; 0x1d528623;
   0xf12f560e; 0xf5ee4bb9; 0xf8ad6d60; 0xfc6c70d7;
   0xe22b20d2; 0xe6ea3d65; 0xeba91bbc; 0xef68060b;
   0xd727bbb6; 0xd3e6a601; 0xdea580d8; 0xda649d6f;
   0xc423cd6a; 0xc0e2d0dd; 0xcda1f604; 0xc960ebb3;
   0xbd3e8d7e; 0xb9ff90c9; 0xb4bcb610; 0xb07daba7;
   0xae3afba2; 0xaafbe615; 0xa7b8c0cc; 0xa379dd7b;
   0x9b3660c6; 0x9ff77d71; 0x92b45ba8; 0x9675461f;
   0x8832161a; 0x8cf30bad; 0x81b02d74; 0x857130c3;
   0x5d8a9099; 0x594b8d2e; 0x5408abf7; 0x50c9b640;
   0x4e8ee645; 0x4a4ffbf2; 0x470cdd2b; 0x43cdc09c;
   0x7b827d21; 0x7f436096; 0x7200464f; 0x76c15bf8;
   0x68860bfd; 0x6c47164a; 0x61043093; 0x65c52d24;
   0x119b4be9; 0x155a565e; 0x18197087; 0x1cd86d30;
   0x029f3d35; 0x065e2082; 0x0b1d065b; 0x0fdc1bec;
   0x3793a651; 0x3352bbe6; 0x3e119d3f; 0x3ad08088;
   0x2497d08d; 0x2056cd3a; 0x2d15ebe3; 0x29d4f654;
   0xc5a92679; 0xc1683bce; 0xcc2b1d17; 0xc8ea00a0;
   0xd6ad50a5; 0xd26c4d12; 0xdf2f6bcb; 0xdbee767c;
   0xe3a1cbc1; 0xe760d676; 0xea23f0af; 0xeee2ed18;
   0xf0a5bd1d; 0xf464a0aa; 0xf9278673; 0xfde69bc4;
   0x89b8fd09; 0x8d79e0be; 0x803ac667; 0x84fbdbd0;
   0x9abc8bd5; 0x9e7d9662; 0x933eb0bb; 0x97ffad0c;
   0xafb010b1; 0xab710d06; 0xa6322bdf; 0xa2f33668;
   0xbcb4666d; 0xb8757bda; 0xb5365d03; 0xb1f740b4].

(** One turn of the loop. *)
Definition crc32_step (ret b : Z) : Z :=
  Z.lxor (u32 (Z.shiftl ret 8)) (nth (Z.to_nat (Z.land (Z.lxor (Z.shiftr ret 24) b) 255)) LookupTable 0).

Definition crc32 (Buffer : list Z) : Z := foldl crc32_step 0xffffffff Buffer.

(** ** The reference: division by the polynomial, most significant bit first *)

Definition crc_poly : Z := 0x04c11db7.

(** Shift one bit out of the remainder and subtract the polynomial if it was 1. *)
Definition crc_shift (r : Z) : Z :=
  Z.lxor (u32 (Z.shiftl r 1)) (if Z.testbit r 31 then crc_poly else 0).

(** The byte is added at the top and its eight bits are divided out. *)
Definition crc_byte (r b : Z) : Z := Nat.iter 8 crc_shift (Z.lxor r (Z.shiftl b 24)).

Definition crc_reference (l : list Z) : Z := foldl crc_byte 0xffffffff l.

(** ** Laws *)

Section crc.

Lemma lxor_range w x y : 0 <= w -> in_u w x -> in_u w y -> in_u w (Z.lxor x y).
Proof.
  unfold in_u. intros Hw Hx Hy. assert (0 <= Z.lxor x y) by (apply Z.lxor_nonneg; lia).
  split; [done|]. destruct (Z.eq_dec (Z.lxor x y) 0) as [->|]; [apply Z.pow_pos_nonneg; lia|].
  apply Z.log2_lt_pow2; [lia|]. eapply Z.le_lt_trans; [apply Z.log2_lxor; lia|].
  destruct (Z.eq_dec w 0) as [->|]; [change (2 ^ 0) with 1 in *; assert (x = 0) as -> by lia; assert (y = 0) as -> by lia; done|].
  assert (forall z, 0 <= z < 2 ^ w -> Z.log2 z < w).
  { intros z Hz. destruct (Z.eq_dec z 0) as [->|]; [cbn; lia|]. apply Z.log2_lt_pow2; lia. }
  apply Z.max_lub_lt; auto.
Qed.

Lemma crc_shift_range r : in_u 32 r -> in_u 32 (crc_shift r).
Proof.
  intros Hr. apply lxor_range; [lia|by apply uw_range|]. destruct (Z.testbit r 31); done.
Qed.

(** The division step is linear over exclusive or. *)
Lemma crc_shift_lxor x y : crc_shift (Z.lxor x y) = Z.lxor (crc_shift x) (crc_shift y).
Proof.
  unfold crc_shift. rewrite Z.lxor_spec, Z.shiftl_lxor.
  assert (H : u32 (Z.lxor (Z.shiftl x 1) (Z.shiftl y 1)) = Z.lxor (u32 (Z.shiftl x 1)) (u32 (Z.shiftl y 1))).
  { apply Z.bits_inj'. intros i Hi. unfold uw. rewrite Z.lxor_spec, !testbit_mod, Z.lxor_spec by lia.
    destruct (i <? 32); done. }
  rewrite H. set (a := u32 _). set (b := u32 _).
  destruct (Z.testbit x 31), (Z.testbit y 31); cbn [xorb];
    apply Z.bits_inj'; intros i Hi; rewrite !Z.lxor_spec, ?Z.bits_0; btauto.
Qed.

Lemma crc_iter_lxor n x y :
  Nat.iter n crc_shift (Z.lxor x y) = Z.lxor (Nat.iter n crc_shift x) (Nat.iter n crc_shift y).
Proof. induction n as [|n IH]; [done|]. cbn [Nat.iter nat_rect]. unfold Nat.iter in IH. rewrite IH. apply crc_shift_lxor. Qed.

(** Small remainders are only shifted. *)
Lemma crc_iter_small (n : nat) x : (n <= 32)%nat -> 0 <= x < 2 ^ (32 - Z.of_nat n) ->
  Nat.iter n crc_shift x = x * 2 ^ Z.of_nat n.
Proof.
  intros Hn. induction n as [|n IH]; intros Hx; [cbn; lia|].
  cbn [Nat.iter nat_rect]. unfold Nat.iter in IH.
  assert (Hp : 2 ^ (32 - Z.of_nat n) = 2 * 2 ^ (32 - Z.of_nat (S n))).
  { rewrite <- Z.pow_succ_r by lia. f_equal. lia. }
  rewrite IH by lia. set (y := x * 2 ^ Z.of_nat n).
  assert (Hy : 0 <= y < 2 ^ 31).
  { unfold y. replace (2 ^ 31) with (2 ^ (32 - Z.of_nat (S n)) * 2 ^ Z.of_nat n)
      by (rewrite <- Z.pow_add_r by lia; f_equal; lia).
    assert (0 < 2 ^ Z.of_nat n) by (apply Z.pow_pos_nonneg; lia). nia. }
  unfold crc_shift. assert (Z.testbit y 31 = false) as ->.
  { rewrite <- (Z.mod_small y (2 ^ 31)) by done. by rewrite Z.mod_pow2_bits_high by lia. }
  rewrite Z.lxor_0_r, Z.shiftl_mul_pow2, uw_small by (unfold in_u in *; lia).
  unfold y. rewrite Nat2Z.inj_succ, Z.pow_succ_r by lia. ring.
Qed.

(** The table holds the remainders of the 256 bytes. *)
Lemma table_correct i : 0 <= i < 256 ->
  nth (Z.to_nat i) LookupTable 0 = Nat.iter 8 crc_shift (i * 2 ^ 24).
Proof.
  intros Hi. assert (H : forallb (fun k => nth k LookupTable 0 =? Nat.iter 8 crc_shift (Z.of_nat k * 2 ^ 24)) (seq 0 256) = true)
    by (vm_compute; reflexivity).
  rewrite forallb_forall in H. specialize (H (Z.to_nat i)). rewrite Z2Nat.id in H by lia.
  apply Z.eqb_eq, H, in_seq. lia.
Qed.

Lemma crc32_step_correct r b : in_u 32 r -> byte b -> crc32_step r b = crc_byte r b.
Proof.
  intros Hr Hb. unfold crc32_step, crc_byte, in_u, byte in *.
  set (h := r / 2 ^ 24). set (l := r mod 2 ^ 24).
  assert (Hl : 0 <= l < 2 ^ 24) by (apply Z.mod_pos_bound; lia).
  assert (Hh : 0 <= h < 256) by (split; [apply Z.div_pos|apply Z.div_lt_upper_bound]; lia).
  assert (Hrd : r = l + h * 2 ^ 24) by (unfold h, l; rewrite (Z.div_mod r (2 ^ 24)) at 1 by lia; lia).
  assert (Hx : in_u 8 (Z.lxor h b)) by (apply lxor_range; [lia|done..]).
  rewrite Z.shiftr_div_pow2 by lia. fold h. change 255 with (Z.ones 8).
  rewrite Z.land_ones, Z.mod_small by (lia || done). rewrite table_correct by done.
  assert (Hsplit : Z.lxor r (Z.shiftl b 24) = Z.lxor l (Z.lxor h b * 2 ^ 24)).
  { rewrite Hrd, <- lor_split, <- Z.shiftl_mul_pow2, Z.shiftl_lxor by lia.
    rewrite <- Z.lxor_assoc. f_equal. apply Z.bits_inj'. intros i Hi.
    rewrite Z.lor_spec, Z.lxor_spec, testbit_shl by lia.
    destruct (Z.leb_spec 24 i); [|rewrite (Z.testbit_neg_r h) by lia; btauto].
    rewrite <- (Z.mod_small l (2 ^ 24)), Z.mod_pow2_bits_high by lia. by destruct (Z.testbit h (i - 24)). }
  rewrite Hsplit, crc_iter_lxor, (crc_iter_small 8 l) by (cbn; lia).
  f_equal. rewrite Z.shiftl_mul_pow2, Hrd by lia. unfold uw.
  replace ((l + h * 2 ^ 24) * 2 ^ 8) with (l * 2 ^ 8 + h * 2 ^ 32) by lia.
  rewrite Z_mod_plus_full, Z.mod_small; [done|lia].
Qed.

Lemma crc_byte_range r b : in_u 32 r -> byte b -> in_u 32 (crc_byte r b).
Proof.
  intros Hr Hb. unfold crc_byte. assert (H : in_u 32 (Z.lxor r (Z.shiftl b 24))).
  { apply lxor_range; [lia|done|]. unfold in_u, byte in *. rewrite Z.shiftl_mul_pow2; lia. }
  revert H. generalize (Z.lxor r (Z.shiftl b 24)). intros z Hz.
  assert (Hn : forall n, in_u 32 (Nat.iter n crc_shift z)).
  { induction n as [|n IH]; [done|]. by apply crc_shift_range. }
  apply Hn.
Qed.
End crc.

(** ** The properties *)

(** C30: the table-driven [crc32] computes, for every buffer, the remainder of
    the bitwise division by the CRC-32 polynomial, started from all ones. *)
Theorem crc32_correct l : Forall byte l -> crc32 l = crc_reference l.
Proof.
  intros Hl. unfold crc32, crc_reference. assert (Hr : in_u 32 0xffffffff) by done.
  revert Hr. generalize 0xffffffff. induction Hl as [|b l Hb Hl IH]; intros r Hr; [done|].
  cbn [foldl]. rewrite crc32_step_correct by done. apply IH. by apply crc_byte_range.
Qed.

Lemma crc32_witness : crc32 [49; 50; 51] = crc_reference [49; 50; 51].
Proof. apply (crc32_correct [49; 50; 51]); repeat constructor; lia. Defined.
