(* ===== verification/DigestSpec.v ===== *)
(** * MD5 and SHA-512 as their standards define them

    The digests of RFC 1321 and of FIPS 180-4, written from the text of the
    standards and not from the code: the constants come from the sine, and from
    the roots of the first primes; words are sums of bytes and shifts are
    multiplications.  [Digests] proves that the kernel's code computes them. *)

From S2P Require Import Prelude.

(** ** What the two have in common *)

(** The complement of a word of [w] bits *)
Definition complement (w x : Z) : Z := (2 ^ w - 1 - x) mod 2 ^ w.

(** The bytes of the number [x], [n] of them, the least significant first *)
Definition little_endian (n : nat) (x : Z) : list Z := map (fun k => x / 256 ^ Z.of_nat k mod 256) (seq 0 n).
Definition big_endian (n : nat) (x : Z) : list Z := rev (little_endian n x).

(** The number that bytes stand for *)
Definition from_little (l : list Z) : Z := foldr (fun b x => b + 256 * x) 0 l.
Definition from_big (l : list Z) : Z := foldl (fun x b => 256 * x + b) 0 l.

(** [l] in pieces of [n] *)
Definition pieces (n : nat) (l : list Z) : list (list Z) :=
  map (fun i => take n (drop (n * i) l)) (seq 0 (length l / n)).

(** A one bit and as few zeros as bring [len] bytes to [rest] modulo [block]. *)
Definition pad (block rest len : nat) : list Z :=
  let zeros := match List.find (fun k => ((len + 1 + k) mod block =? rest)%nat) (seq 0 block) with Some k => k | None => O end in
  128 :: replicate zeros 0.

Module RFC1321.

(** The sine of [x] times [one], by its power series: [term] is the next term,
    x^(k-1) / (k-1)!, with its sign. *)
Definition one : Z := 2 ^ 150.
Fixpoint sine_series (fuel : nat) (x k term sum : Z) : Z :=
  match fuel with
  | O => sum
  | S fuel =>
    if Z.abs term <=? 1 then sum
    else sine_series fuel x (k + 2) (- (term * (x * x)) / (k * (k + 1))) (sum + term)
  end.

(** Section 3.4: "T[i] ... is equal to the integer part of 4294967296 times
    abs(sin(i)), where i is in radians" *)
Definition T (i : Z) : Z := 2 ^ 32 * Z.abs (sine_series 200 i 2 (one * i) 0) / one.

Definition F (x y z : Z) : Z := Z.lor (Z.land x y) (Z.land (complement 32 x) z).
Definition G (x y z : Z) : Z := Z.lor (Z.land x z) (Z.land y (complement 32 z)).
Definition H (x y z : Z) : Z := Z.lxor (Z.lxor x y) z.
Definition I (x y z : Z) : Z := Z.lxor y (Z.lor x (complement 32 z)).

Definition rotate (x s : Z) : Z := x * 2 ^ s mod 2 ^ 32 + x / 2 ^ (32 - s).

Record registers : Type := Registers { A : Z; B : Z; C : Z; D : Z }.

(** "Let [abcd k s i] denote the operation
    a = b + ((a + F(b,c,d) + X[k] + T[i]) <<< s)": the round tells the function,
    the order of the letters which register is set. *)
Inductive order : Type := ABCD | DABC | CDAB | BCDA.
Record operation : Type := Op { o_round : nat; o_order : order; o_k : nat; o_s : Z; o_i : Z }.

Definition function (round : nat) : Z -> Z -> Z -> Z :=
  match round with 1%nat => F | 2%nat => G | 3%nat => H | _ => I end.

Definition set (X : list Z) (o : operation) (a b c d : Z) : Z :=
  (b + rotate ((a + function (o_round o) b c d + nth (o_k o) X 0 + T (o_i o)) mod 2 ^ 32) (o_s o)) mod 2 ^ 32.

Definition perform (X : list Z) (r : registers) (o : operation) : registers :=
  match o_order o with
  | ABCD => Registers (set X o (A r) (B r) (C r) (D r)) (B r) (C r) (D r)
  | DABC => Registers (A r) (B r) (C r) (set X o (D r) (A r) (B r) (C r))
  | CDAB => Registers (A r) (B r) (set X o (C r) (D r) (A r) (B r)) (D r)
  | BCDA => Registers (A r) (set X o (B r) (C r) (D r) (A r)) (C r) (D r)
  end.

(** The sixteen operations of a round, with the words and the shifts in the
    order in which the standard lists them *)
Definition round (n : nat) (ks : list nat) (ss : list Z) : list operation :=
  map (fun j => Op n (nth (j mod 4) [ABCD; DABC; CDAB; BCDA] ABCD) (nth j ks O) (nth (j mod 4) ss 0) (Z.of_nat (16 * (n - 1) + j) + 1))
    (seq 0 16).

Definition operations : list operation :=
  round 1 [0; 1; 2; 3; 4; 5; 6; 7; 8; 9; 10; 11; 12; 13; 14; 15]%nat [7; 12; 17; 22] ++
  round 2 [1; 6; 11; 0; 5; 10; 15; 4; 9; 14; 3; 8; 13; 2; 7; 12]%nat [5; 9; 14; 20] ++
  round 3 [5; 8; 11; 14; 1; 4; 7; 10; 13; 0; 3; 6; 9; 12; 15; 2]%nat [4; 11; 16; 23] ++
  round 4 [0; 7; 14; 5; 12; 3; 10; 1; 8; 15; 6; 13; 4; 11; 2; 9]%nat [6; 10; 15; 21].

(** One block of sixteen words *)
Definition process (r : registers) (block : list Z) : registers :=
  let r' := foldl (perform (map from_little (pieces 4 block))) r operations in
  Registers ((A r + A r') mod 2 ^ 32) ((B r + B r') mod 2 ^ 32) ((C r + C r') mod 2 ^ 32) ((D r + D r') mod 2 ^ 32).

Definition initial : registers :=
  Registers (from_little [0x01; 0x23; 0x45; 0x67]) (from_little [0x89; 0xab; 0xcd; 0xef])
    (from_little [0xfe; 0xdc; 0xba; 0x98]) (from_little [0x76; 0x54; 0x32; 0x10]).

Definition padded (msg : list Z) : list Z :=
  msg ++ pad 64 56 (length msg) ++ little_endian 8 (8 * Z.of_nat (length msg)).

Definition md5 (msg : list Z) : list Z :=
  let r := foldl process initial (pieces 64 (padded msg)) in
  little_endian 4 (A r) ++ little_endian 4 (B r) ++ little_endian 4 (C r) ++ little_endian 4 (D r).
End RFC1321.

Module FIPS180.

(** ** Section 4: functions and constants of SHA-512 *)

Definition SHR (n x : Z) : Z := x / 2 ^ n.
Definition ROTR (n x : Z) : Z := Z.lor (x / 2 ^ n) (x * 2 ^ (64 - n) mod 2 ^ 64).

Definition Ch (x y z : Z) : Z := Z.lxor (Z.land x y) (Z.land (complement 64 x) z).
Definition Maj (x y z : Z) : Z := Z.lxor (Z.lxor (Z.land x y) (Z.land x z)) (Z.land y z).
Definition Sigma0 (x : Z) : Z := Z.lxor (Z.lxor (ROTR 28 x) (ROTR 34 x)) (ROTR 39 x).
Definition Sigma1 (x : Z) : Z := Z.lxor (Z.lxor (ROTR 14 x) (ROTR 18 x)) (ROTR 41 x).
Definition sigma0 (x : Z) : Z := Z.lxor (Z.lxor (ROTR 1 x) (ROTR 8 x)) (SHR 7 x).
Definition sigma1 (x : Z) : Z := Z.lxor (Z.lxor (ROTR 19 x) (ROTR 61 x)) (SHR 6 x).

Definition is_prime (n : Z) : bool := forallb (fun d => negb (n mod d =? 0)) (seqZ 2 (Z.sqrt n - 1)).

(** The first eighty prime numbers: the last of them is 409. *)
Definition primes : list Z := List.filter is_prime (seqZ 2 408).

(** The largest number whose cube is at most [n], bit by bit *)
Definition cube_root (n : Z) : Z :=
  foldl (fun r i => let r' := r + 2 ^ i in if r' * r' * r' <=? n then r' else r) 0 (rev (seqZ 0 67)).

(** "the first sixty-four bits of the fractional parts of the cube roots of the
    first eighty prime numbers", and of the square roots of the first eight *)
Definition constants : list Z := map (fun p => cube_root (p * 2 ^ 192) mod 2 ^ 64) primes.
Definition initial_hash : list Z := map (fun p => Z.sqrt (p * 2 ^ 128) mod 2 ^ 64) (take 8 primes).

(** ** Section 6.4: the computation *)

(** The message schedule, its last word first *)
Definition next_word (W : list Z) : list Z :=
  (sigma1 (nth 1 W 0) + nth 6 W 0 + sigma0 (nth 14 W 0) + nth 15 W 0) mod 2 ^ 64 :: W.
Definition schedule (M : list Z) : list Z := rev (Nat.iter 64 next_word (rev M)).

Record variables : Type := Vars { a : Z; b : Z; c : Z; d : Z; e : Z; f : Z; g : Z; h : Z }.

Definition turn (W : list Z) (v : variables) (t : nat) : variables :=
  let T1 := (h v + Sigma1 (e v) + Ch (e v) (f v) (g v) + nth t constants 0 + nth t W 0) mod 2 ^ 64 in
  let T2 := (Sigma0 (a v) + Maj (a v) (b v) (c v)) mod 2 ^ 64 in
  Vars ((T1 + T2) mod 2 ^ 64) (a v) (b v) (c v) ((d v + T1) mod 2 ^ 64) (e v) (f v) (g v).

Definition process (v : variables) (block : list Z) : variables :=
  let v' := foldl (turn (schedule (map from_big (pieces 8 block)))) v (seq 0 80) in
  Vars ((a v + a v') mod 2 ^ 64) ((b v + b v') mod 2 ^ 64) ((c v + c v') mod 2 ^ 64) ((d v + d v') mod 2 ^ 64)
    ((e v + e v') mod 2 ^ 64) ((f v + f v') mod 2 ^ 64) ((g v + g v') mod 2 ^ 64) ((h v + h v') mod 2 ^ 64).

Definition to_vars (l : list Z) : variables :=
  Vars (nth 0 l 0) (nth 1 l 0) (nth 2 l 0) (nth 3 l 0) (nth 4 l 0) (nth 5 l 0) (nth 6 l 0) (nth 7 l 0).
Definition of_vars (v : variables) : list Z := [a v; b v; c v; d v; e v; f v; g v; h v].

(** The digest of a message that is padded with the length [length_field] *)
Definition sha512_with (length_field msg : list Z) : list Z :=
  let p := msg ++ pad 128 112 (length msg) ++ length_field in
  concat (map (big_endian 8) (of_vars (foldl process (to_vars initial_hash) (pieces 128 p)))).

(** Section 5.1.2: the length in bits, in sixteen bytes *)
Definition sha512 (msg : list Z) : list Z := sha512_with (big_endian 16 (8 * Z.of_nat (length msg))) msg.
End FIPS180.
