(* ===== verification/Digests.v ===== *)
(** * The kernel's message digests

    Models of [Kernel/library/md5.c] (64-bit build) and
    [Kernel/library/sha512.c].  A message is its list of bytes; a context keeps
    the block buffer with whatever it held before, so that bytes the code does
    not write stay visible.

    The lemmas reduce the streams to the code's own compression of the blocks of
    the padded message ([md5_blocks], [sha_blocks]); that these are the digests
    of the standards is proved in [DigestTheorems]. *)

From S2P Require Import Prelude.

(** [~x] at width [w]. *)
Definition bit_not (w x : Z) : Z := uw w (Z.lnot x).

(** ** Feeding bytes into blocks

    The loop that [md5Update] and [sha512_update] share: store the byte, and
    when the block is full run the compression function and start over.  [St]
    is the chaining state, [B] the block size. *)

Section feed.
Context {St : Type} (B : nat) (compress : St -> list Z -> St).

Fixpoint feed (l : list Z) (buf : list Z) (off : nat) (st : St) : list Z * nat * St :=
  match l with
  | [] => (buf, off, st)
  | b :: l =>
      let buf := <[off := b]> buf in
      let off := S off in
      if (off =? B)%nat then feed l buf 0 (compress st buf) else feed l buf off st
  end.
End feed.

(** ** MD5 *)

Definition md5_S : list Z :=
  [7; 12; 17; 22; 7; 12; 17; 22; 7; 12; 17; 22; 7; 12; 17; 22;
   5; 9; 14; 20; 5; 9; 14; 20; 5; 9; 14; 20; 5; 9; 14; 20;
   4; 11; 16; 23; 4; 11; 16; 23; 4; 11; 16; 23; 4; 11; 16; 23;
   6; 10; 15; 21; 6; 10; 15; 21; 6; 10; 15; 21; 6; 10; 15; 21].

Definition md5_K : list Z :=
  [0xd76aa478; 0xe8c7b756; 0x242070db; 0xc1bdceee;
   0xf57c0faf; 0x4787c62a; 0xa8304613; 0xfd469501;
   0x698098d8; 0x8b44f7af; 0xffff5bb1; 0x895cd7be;
   0x6b901122; 0xfd987193; 0xa679438e; 0x49b40821;
   0xf61e2562; 0xc040b340; 0x265e5a51; 0xe9b6c7aa;
   0xd62f105d; 0x02441453; 0xd8a1e681; 0xe7d3fbc8;
   0x21e1cde6; 0xc33707d6; 0xf4d50d87; 0x455a14ed;
   0xa9e3e905; 0xfcefa3f8; 0x676f02d9; 0x8d2a4c8a;
   0xfffa3942; 0x8771f681; 0x6d9d6122; 0xfde5380c;
   0xa4beea44; 0x4bdecfa9; 0xf6bb4b60; 0xbebfbc70;
   0x289b7ec6; 0xeaa127fa; 0xd4ef3085; 0x04881d05;
   0xd9d4d039; 0xe6db99e5; 0x1fa27cf8; 0xc4ac5665;
   0xf4292244; 0x432aff97; 0xab9423a7; 0xfc93a039;
   0x655b59c3; 0x8f0ccc92; 0xffeff47d; 0x85845dd1;
   0x6fa87e4f; 0xfe2ce6e0; 0xa3014314; 0x4e0811a1;
   0xf7537e82; 0xbd3af235; 0x2ad7d2bb; 0xeb86d391].

Definition rotateLeft (x n : Z) : Z := Z.lor (u32 (Z.shiftl x n)) (Z.shiftr x (32 - n)).

Definition md5_F (X Y Z_ : Z) : Z := Z.lor (Z.land X Y) (Z.land (bit_not 32 X) Z_).
Definition md5_G (X Y Z_ : Z) : Z := Z.lor (Z.land X Z_) (Z.land Y (bit_not 32 Z_)).
Definition md5_H (X Y Z_ : Z) : Z := Z.lxor (Z.lxor X Y) Z_.
Definition md5_I (X Y Z_ : Z) : Z := Z.lxor Y (Z.lor X (bit_not 32 Z_)).

Record words4 := W4 { w_a : Z; w_b : Z; w_c : Z; w_d : Z }.

(** One turn of the loop of [md5Step]. *)
Definition md5_round (input : list Z) (st : words4) (i : nat) : words4 :=
  let '(W4 AA BB CC DD) := st in
  let '(E, j) :=
    match (i / 16)%nat with
    | 0%nat => (md5_F BB CC DD, i)
    | 1%nat => (md5_G BB CC DD, (i * 5 + 1) mod 16)%nat
    | 2%nat => (md5_H BB CC DD, (i * 3 + 5) mod 16)%nat
    | _ => (md5_I BB CC DD, (i * 7) mod 16)%nat
    end in
  W4 DD (u32 (BB + rotateLeft (u32 (AA + E + nth i md5_K 0 + nth j input 0)) (nth i md5_S 0))) BB CC.

Definition md5Step (buffer : words4) (input : list Z) : words4 :=
  let '(W4 AA BB CC DD) := foldl (md5_round input) buffer (seq 0 64) in
  W4 (u32 (w_a buffer + AA)) (u32 (w_b buffer + BB)) (u32 (w_c buffer + CC)) (u32 (w_d buffer + DD)).

(** [input[j] = ctx->input[j * 4 + 3] << 24 | ...] *)
Definition le_word (bytes : list Z) (j : nat) : Z :=
  Z.lor (Z.lor (Z.lor (u32 (Z.shiftl (nth (j * 4 + 3) bytes 0) 24)) (u32 (Z.shiftl (nth (j * 4 + 2) bytes 0) 16)))
    (u32 (Z.shiftl (nth (j * 4 + 1) bytes 0) 8))) (nth (j * 4) bytes 0).

Record MD5Context := {
  md5_size : Z;
  md5_buffer : words4;
  md5_input : list Z;
  md5_digest : list Z
}.

(** [md5Init] leaves [input] and [digest] as they are. *)
Definition md5Init (ctx : MD5Context) : MD5Context := {|
  md5_size := 0;
  md5_buffer := W4 0x67452301 0xefcdab89 0x98badcfe 0x10325476;
  md5_input := md5_input ctx;
  md5_digest := md5_digest ctx |}.

(** A full block goes through [md5Step] as sixteen words. *)
Definition md5_compress (buffer : words4) (block : list Z) : words4 :=
  md5Step buffer (map (le_word block) (seq 0 16)).

Definition md5Update (ctx : MD5Context) (l : list Z) : MD5Context :=
  let offset := Z.to_nat (md5_size ctx mod 64) in
  let '(input, _, buffer) := feed 64 md5_compress l (md5_input ctx) offset (md5_buffer ctx) in
  {| md5_size := u64 (md5_size ctx + Z.of_nat (length l));
     md5_buffer := buffer; md5_input := input; md5_digest := md5_digest ctx |}.

Definition PADDING : list Z := 0x80 :: replicate 63 0.

Definition word_digest (w : Z) : list Z :=
  [Z.land w 0x000000ff; Z.shiftr (Z.land w 0x0000ff00) 8;
   Z.shiftr (Z.land w 0x00ff0000) 16; Z.shiftr (Z.land w 0xff000000) 24].

Definition md5Finalize (ctx : MD5Context) : MD5Context :=
  let offset := md5_size ctx mod 64 in
  let padding_length := if offset <? 56 then 56 - offset else 56 + 64 - offset in
  let ctx := md5Update ctx (take (Z.to_nat padding_length) PADDING) in
  let size := u64 (md5_size ctx - padding_length) in
  let input := map (le_word (md5_input ctx)) (seq 0 14)
                 ++ [u32 (u64 (size * 8)); u32 (Z.shiftr (u64 (size * 8)) 32)] in
  let buffer := md5Step (md5_buffer ctx) input in
  {| md5_size := size; md5_buffer := buffer; md5_input := md5_input ctx;
     md5_digest := word_digest (w_a buffer) ++ word_digest (w_b buffer)
       ++ word_digest (w_c buffer) ++ word_digest (w_d buffer) |}.

(** [md5String] on the characters of the string; [ctx0] is the content of the
    local variable. *)
Definition md5String (ctx0 : MD5Context) (input : list Z) : list Z :=
  md5_digest (md5Finalize (md5Update (md5Init ctx0) input)).

(** [md5File] feeds chunks of 1024 bytes. *)
Fixpoint md5_chunks (fuel : nat) (ctx : MD5Context) (l : list Z) : MD5Context :=
  match fuel with
  | O => ctx
  | S fuel =>
      match l with
      | [] => ctx
      | _ => md5_chunks fuel (md5Update ctx (take 1024 l)) (drop 1024 l)
      end
  end.

Definition md5File (ctx0 : MD5Context) (buffer : list Z) : list Z :=
  md5_digest (md5Finalize (md5_chunks (length buffer) (md5Init ctx0) buffer)).

(** ** SHA-512 *)

Definition sha512_K : list Z :=
  [0x428a2f98d728ae22; 0x7137449123ef65cd; 0xb5c0fbcfec4d3b2f; 0xe9b5dba58189dbbc;
   0x3956c25bf348b538; 0x59f111f1b605d019; 0x923f82a4af194f9b; 0xab1c5ed5da6d8118;
   0xd807aa98a3030242; 0x12835b0145706fbe; 0x243185be4ee4b28c; 0x550c7dc3d5ffb4e2;
   0x72be5d74f27b896f; 0x80deb1fe3b1696b1; 0x9bdc06a725c71235; 0xc19bf174cf692694;
   0xe49b69c19ef14ad2; 0xefbe4786384f25e3; 0x0fc19dc68b8cd5b5; 0x240ca1cc77ac9c65;
   0x2de92c6f592b0275; 0x4a7484aa6ea6e483; 0x5cb0a9dcbd41fbd4; 0x76f988da831153b5;
   0x983e5152ee66dfab; 0xa831c66d2db43210; 0xb00327c898fb213f; 0xbf597fc7beef0ee4;
   0xc6e00bf33da88fc2; 0xd5a79147930aa725; 0x06ca6351e003826f; 0x142929670a0e6e70;
   0x27b70a8546d22ffc; 0x2e1b21385c26c926; 0x4d2c6dfc5ac42aed; 0x53380d139d95b3df;
   0x650a73548baf63de; 0x766a0abb3c77b2a8; 0x81c2c92e47edaee6; 0x92722c851482353b;
   0xa2bfe8a14cf10364; 0xa81a664bbc423001; 0xc24b8b70d0f89791; 0xc76c51a30654be30;
   0xd192e819d6ef5218; 0xd69906245565a910; 0xf40e35855771202a; 0x106aa07032bbd1b8;
   0x19a4c116b8d2d0c8; 0x1e376c085141ab53; 0x2748774cdf8eeb99; 0x34b0bcb5e19b48a8;
   0x391c0cb3c5c95a63; 0x4ed8aa4ae3418acb; 0x5b9cca4f7763e373; 0x682e6ff3d6b2b8a3;
   0x748f82ee5defb2fc; 0x78a5636f43172f60; 0x84c87814a1f0ab72; 0x8cc702081a6439ec;
   0x90befffa23631e28; 0xa4506cebde82bde9; 0xbef9a3f7b2c67915; 0xc67178f2e372532b;
   0xca273eceea26619c; 0xd186b8c721c0c207; 0xeada7dd6cde0eb1e; 0xf57d4f7fee6ed178;
   0x06f067aa72176fba; 0x0a637dc5a2c898a6; 0x113f9804bef90dae; 0x1b710b35131c471b;
   0x28db77f523047d84; 0x32caab7b40c72493; 0x3c9ebe0a15c9bebc; 0x431d67c49c100d4c;
   0x4cc5d4becb3e42b6; 0x597f299cfc657e2a; 0x5fcb6fab3ad6faec; 0x6c44198c4a475817].

Definition ROTR (x n : Z) : Z := Z.lor (Z.shiftr x n) (u64 (Z.shiftl x (64 - n))).
Definition CH (x y z : Z) : Z := Z.lxor (Z.land x y) (Z.land (bit_not 64 x) z).
Definition MAJ (x y z : Z) : Z := Z.lxor (Z.lxor (Z.land x y) (Z.land x z)) (Z.land y z).
Definition SIGMA0 (x : Z) : Z := Z.lxor (Z.lxor (ROTR x 28) (ROTR x 34)) (ROTR x 39).
Definition SIGMA1 (x : Z) : Z := Z.lxor (Z.lxor (ROTR x 14) (ROTR x 18)) (ROTR x 41).
Definition sigma0 (x : Z) : Z := Z.lxor (Z.lxor (ROTR x 1) (ROTR x 8)) (Z.shiftr x 7).
Definition sigma1 (x : Z) : Z := Z.lxor (Z.lxor (ROTR x 19) (ROTR x 61)) (Z.shiftr x 6).

Definition sha512_H0 : list Z :=
  [0x6a09e667f3bcc908; 0xbb67ae8584caa73b; 0x3c6ef372fe94f82b; 0xa54ff53a5f1d36f1;
   0x510e527fade682d1; 0x9b05688c2b3e6c1f; 0x1f83d9abfb41bd6b; 0x5be0cd19137e2179].

(** [m[i] = data[i * 8] << 56 | ...] *)
Definition be_word (data : list Z) (i : nat) : Z :=
  foldl (fun w k => Z.lor w (u64 (Z.shiftl (nth (i * 8 + k) data 0) (8 * (7 - Z.of_nat k))))) 0 (seq 0 8).

(** [for (; i < 80; ++i) m[i] = sigma1(m[i - 2]) + m[i - 7] + sigma0(m[i - 15]) + m[i - 16];] *)
Fixpoint sha_schedule (n : nat) (m : list Z) : list Z :=
  match n with
  | O => m
  | S n =>
      let i := length m in
      sha_schedule n (m ++ [u64 (sigma1 (nth (i - 2) m 0) + nth (i - 7) m 0
                                 + sigma0 (nth (i - 15) m 0) + nth (i - 16) m 0)])
  end.

Definition sha_round (m : list Z) (st : list Z) (i : nat) : list Z :=
  match st with
  | [a; b; c; d; e; f; g; h] =>
      let t1 := u64 (h + SIGMA1 e + CH e f g + nth i sha512_K 0 + nth i m 0) in
      let t2 := u64 (SIGMA0 a + MAJ a b c) in
      [u64 (t1 + t2); a; b; c; u64 (d + t1); e; f; g]
  | _ => st
  end.

Definition sha512_transform (state : list Z) (data : list Z) : list Z :=
  let m := sha_schedule 64 (map (be_word data) (seq 0 16)) in
  zip_with (fun s x => u64 (s + x)) state (foldl (sha_round m) state (seq 0 80)).

Record SHA512_CTX := {
  sha_state : list Z;
  sha_bitlen : Z;
  sha_data : list Z;
  sha_datalen : nat
}.

Definition sha512_init (ctx : SHA512_CTX) : SHA512_CTX :=
  {| sha_state := sha512_H0; sha_bitlen := 0; sha_data := sha_data ctx; sha_datalen := 0 |}.

(** A full block: [sha512_transform] and [bitlen += datalen * 8]. *)
Definition sha_block (st : list Z * Z) (data : list Z) : list Z * Z :=
  (sha512_transform (fst st) data, u64 (snd st + 128 * 8)).

Definition sha512_update (ctx : SHA512_CTX) (l : list Z) : SHA512_CTX :=
  let '(data, datalen, (state, bitlen)) :=
    feed 128 sha_block l (sha_data ctx) (sha_datalen ctx) (sha_state ctx, sha_bitlen ctx) in
  {| sha_state := state; sha_bitlen := bitlen; sha_data := data; sha_datalen := datalen |}.

(** [while (ctx->datalen < limit) ctx->data[ctx->datalen++] = 0x00;] *)
Fixpoint zero_fill (n : nat) (data : list Z) (datalen : nat) : list Z :=
  match n with
  | O => data
  | S n => zero_fill n (<[datalen := 0]> data) (S datalen)
  end.

(** [for (i = 0; i < 8; ++i) ctx->data[127 - i] = ctx->bitlen >> (i * 8);] *)
Definition store_bitlen (data : list Z) (bitlen : Z) : list Z :=
  foldl (fun data (i : nat) => <[(127 - i)%nat := u8 (Z.shiftr bitlen (8 * Z.of_nat i))]> data) data (seq 0 8).

Definition be_bytes (w : Z) : list Z :=
  map (fun k => Z.land (Z.shiftr w (8 * (7 - Z.of_nat k))) 0xff) (seq 0 8).

Definition sha512_final (ctx : SHA512_CTX) : SHA512_CTX * list Z :=
  let bitlen := u64 (sha_bitlen ctx + Z.of_nat (sha_datalen ctx) * 8) in
  let data := <[sha_datalen ctx := 0x80]> (sha_data ctx) in
  let datalen := S (sha_datalen ctx) in
  let '(data, datalen, state) :=
    if (112 <? datalen)%nat then
      let data := zero_fill (128 - datalen) data datalen in
      (data, 0%nat, sha512_transform (sha_state ctx) data)
    else (data, datalen, sha_state ctx) in
  let data := zero_fill (112 - datalen) data datalen in
  let data := store_bitlen data bitlen in
  let state := sha512_transform state data in
  ({| sha_state := state; sha_bitlen := bitlen; sha_data := data; sha_datalen := 112 |},
   concat (map be_bytes state)).

(** [sha512_sum] when its [malloc] succeeds; [ctx0] is the content of the local
    variable. *)
Definition sha512_sum (ctx0 : SHA512_CTX) (input : list Z) : list Z :=
  snd (sha512_final (sha512_update (sha512_init ctx0) input)).

(** ** Padded messages block by block *)

Section absorb.
Context {St : Type} (B : nat) (compress : St -> list Z -> St).

(** Compress the first [k] blocks of [l]. *)
Fixpoint absorb (k : nat) (l : list Z) (st : St) : St :=
  match k with
  | O => st
  | S k => absorb k (drop B l) (compress st (take B l))
  end.

Lemma absorb_app k1 k2 l1 l2 st : length l1 = (B * k1)%nat ->
  absorb (k1 + k2) (l1 ++ l2) st = absorb k2 l2 (absorb k1 l1 st).
Proof.
  revert l1 st. induction k1 as [|k1 IH]; intros l1 st Hl; cbn [Nat.add absorb].
  { rewrite Nat.mul_0_r in Hl. by destruct l1. }
  rewrite Nat.mul_succ_r in Hl. rewrite take_app_le, drop_app_le by lia.
  apply IH. rewrite length_drop. lia.
Qed.

Lemma absorb_one l st : length l = B -> absorb 1 l st = compress st l.
Proof. intros Hl. cbn [absorb]. by rewrite take_ge by lia. Qed.

(** What the buffer holds: [t] are the bytes of the block being filled. *)
Definition holds (buf t : list Z) : Prop :=
  length buf = B /\ (length t < B)%nat /\ take (length t) buf = t.

Lemma holds_snoc buf t b : holds buf t -> (S (length t) < B)%nat ->
  holds (<[length t := b]> buf) (t ++ [b]) /\
  drop (length (t ++ [b])) (<[length t := b]> buf) = drop (length (t ++ [b])) buf.
Proof.
  intros (Hl & Ht & Htk) Hs. unfold holds. rewrite length_insert, length_app, Nat.add_1_r. cbn [length].
  split; [split; [done|]; split; [done|]|].
  - rewrite (take_S_r _ _ b) by (apply list_lookup_insert_eq; lia).
    by rewrite take_insert_ge, Htk by lia.
  - by rewrite drop_insert_lt by lia.
Qed.

Lemma holds_full buf t b : holds buf t -> S (length t) = B -> <[length t := b]> buf = t ++ [b].
Proof.
  intros (Hl & Ht & Htk) Hs. rewrite insert_take_drop by lia. rewrite Htk, drop_ge by lia. done.
Qed.

(** The bytes of the buffer after those of the current block: what was there
    before, or what the last full block had. *)
Definition behind (buf full : list Z) (n : nat) : list Z :=
  drop n (match full with [] => buf | _ => drop (length full - B) full end).

Lemma feed_spec l buf t st : (0 < B)%nat -> holds buf t ->
  exists k full t' buf', t ++ l = full ++ t' /\ length full = (B * k)%nat /\
    feed B compress l buf (length t) st = (buf', length t', absorb k full st) /\
    holds buf' t' /\ drop (length t') buf' = behind buf full (length t').
Proof.
  intros HB. revert buf t st. induction l as [|b l IH]; intros buf t st Hh; cbn [feed].
  { exists 0%nat, [], t, buf. rewrite app_nil_r, Nat.mul_0_r. done. }
  destruct (Nat.eqb_spec (S (length t)) B) as [He|He].
  - rewrite (holds_full buf t b) by done.
    destruct (IH (t ++ [b]) [] (compress st (t ++ [b]))) as (k & full & t' & buf' & Hl & Hf & Heq & Hh' & Hd).
    { split; [rewrite length_app; cbn; lia|]. done. }
    cbn [length] in Heq. rewrite Heq. clear Heq.
    cbn [app] in Hl. subst l.
    exists (S k), ((t ++ [b]) ++ full), t', buf'. split; [by rewrite <- !app_assoc|]. split.
    { rewrite !length_app, Hf. cbn [length]. lia. }
    split.
    { f_equal. change (S k) with (1 + k)%nat. rewrite absorb_app by (rewrite length_app; cbn [length]; lia).
      by rewrite absorb_one by (rewrite length_app; cbn [length]; lia). }
    split; [done|]. rewrite Hd. unfold behind. f_equal.
    destruct full as [|f full]; [rewrite app_nil_r|].
    + destruct (t ++ [b]) eqn:E; [by destruct t|]. rewrite <- E.
      replace (length (t ++ [b]) - B)%nat with 0%nat by (rewrite length_app; cbn [length]; lia). done.
    + destruct ((t ++ [b]) ++ f :: full) eqn:E; [by destruct t|]. rewrite <- E.
      rewrite drop_app_ge, !length_app; cbn [length] in *.
      * f_equal. lia.
      * destruct k; [lia|]. rewrite !length_app. cbn [length]. lia.
  - pose proof Hh as (_ & Ht & _). destruct (holds_snoc buf t b Hh ltac:(lia)) as [Hh1 Hd1].
    replace (S (length t)) with (length (t ++ [b])) by (rewrite length_app; cbn; lia).
    destruct (IH _ _ st Hh1) as (k & full & t' & buf' & Hl & Hf & -> & Hh' & Hd).
    exists k, full, t', buf'. rewrite <- app_assoc in Hl. split; [done|]. split; [done|].
    split; [done|]. split; [done|]. rewrite Hd. unfold behind.
    destruct full as [|f full]; [|done].
    assert (length (t ++ [b]) <= length t')%nat.
    { apply (f_equal length) in Hl. rewrite !length_app in *. cbn [length] in *. lia. }
    replace (length t') with (length (t ++ [b]) + (length t' - length (t ++ [b])))%nat by lia.
    by rewrite <- !drop_drop, Hd1.
Qed.
End absorb.

(** ** The blocks of MD5 *)

Definition md5_state0 : words4 := W4 0x67452301 0xefcdab89 0x98badcfe 0x10325476.

(** The padded message: a one bit, zeros up to 56 bytes modulo 64, the length
    in bits in eight bytes. *)
Definition md5_pad (len : nat) : list Z :=
  0x80 :: replicate (Z.to_nat ((55 - Z.of_nat len) mod 64)) 0.

Definition md5_blocks (msg : list Z) : list Z :=
  let p := (msg ++ md5_pad (length msg)) ++ le_bytes 8 (8 * Z.of_nat (length msg)) in
  let st := absorb 64 md5_compress (length p / 64) p md5_state0 in
  word_digest (w_a st) ++ word_digest (w_b st) ++ word_digest (w_c st) ++ word_digest (w_d st).

(** The context after the bytes [msg]. *)
Definition md5_after (ctx : MD5Context) (msg : list Z) : Prop :=
  md5_size ctx = u64 (Z.of_nat (length msg)) /\
  exists k full t, msg = full ++ t /\ length full = (64 * k)%nat /\
    md5_buffer ctx = absorb 64 md5_compress k full md5_state0 /\ holds 64 (md5_input ctx) t.

Section md5.

Lemma md5_after_init ctx : length (md5_input ctx) = 64%nat -> md5_after (md5Init ctx) [].
Proof.
  intros H. split; [done|]. exists 0%nat, [], []. split; [done|]. split; [done|]. split; [done|].
  split; [done|]. split; [cbn; lia|done].
Qed.

Lemma md5_offset ctx (msg full t : list Z) k : md5_size ctx = u64 (Z.of_nat (length msg)) -> msg = full ++ t ->
  length full = (64 * k)%nat -> (length t < 64)%nat -> md5_size ctx mod 64 = Z.of_nat (length t).
Proof.
  intros -> -> Hf Ht. unfold uw. rewrite Z.mod_mod_divide by (exists (2 ^ 58); lia).
  rewrite length_app, Hf, Nat2Z.inj_add, Nat2Z.inj_mul, Z.add_comm, Z.mul_comm.
  change (Z.of_nat 64) with 64. rewrite Z_mod_plus_full. apply Z.mod_small. lia.
Qed.

Lemma md5_after_update ctx msg l : md5_after ctx msg -> md5_after (md5Update ctx l) (msg ++ l).
Proof.
  intros (Hs & k & full & t & Hm & Hf & Hb & Hh). pose proof Hh as (_ & Ht & _).
  pose proof (md5_offset _ _ _ _ _ Hs Hm Hf Ht) as Ho. unfold md5Update. rewrite Ho, Nat2Z.id.
  destruct (feed_spec 64 md5_compress l (md5_input ctx) t (md5_buffer ctx) ltac:(lia) Hh)
    as (k' & full' & t' & buf' & Hl & Hf' & -> & Hh' & _).
  split; cbn [md5_size md5_buffer md5_input].
  - rewrite Hs, length_app, Nat2Z.inj_add. unfold uw. by rewrite Zplus_mod_idemp_l.
  - exists (k + k')%nat, (full ++ full'), t'. split; [by rewrite Hm, <- !app_assoc, Hl|].
    split; [rewrite length_app; lia|]. split; [|done]. by rewrite absorb_app, Hb by lia.
Qed.

Lemma lor_bytes b0 b1 b2 b3 : byte b0 -> byte b1 -> byte b2 -> byte b3 ->
  Z.lor (Z.lor (Z.lor (u32 (Z.shiftl b3 24)) (u32 (Z.shiftl b2 16))) (u32 (Z.shiftl b1 8))) b0
    = of_bytes [b0; b1; b2; b3].
Proof.
  unfold byte. intros B0 B1 B2 B3. rewrite !uw_small by (unfold in_u; rewrite Z.shiftl_mul_pow2; lia).
  rewrite (Z.lor_comm _ b0), (Z.lor_comm (Z.lor _ _) (Z.shiftl b1 8)), (Z.lor_comm (Z.shiftl b3 24)).
  assert (H1 : Z.lor (Z.shiftl b2 16) (Z.shiftl b3 24) = Z.shiftl (b2 + b3 * 2 ^ 8) 16).
  { rewrite <- lor_split, Z.shiftl_lor, Z.shiftl_shiftl by lia. done. }
  assert (H2 : Z.lor (Z.shiftl b1 8) (Z.shiftl (b2 + b3 * 2 ^ 8) 16) = Z.shiftl (b1 + (b2 + b3 * 2 ^ 8) * 2 ^ 8) 8).
  { rewrite <- (lor_split b1 (b2 + b3 * 2 ^ 8)), Z.shiftl_lor, Z.shiftl_shiftl by lia. done. }
  rewrite H1, H2, lor_split by lia. cbn [of_bytes]. lia.
Qed.

(** The two length words of the last block. *)
Lemma le_word_length t v : length t = 56%nat -> 0 <= v ->
  le_word (t ++ le_bytes 8 v) 14 = u32 v /\ le_word (t ++ le_bytes 8 v) 15 = u32 (v / 2 ^ 32).
Proof.
  intros Ht Hv. unfold le_word.
  assert (Hn : forall i, nth (56 + i) (t ++ le_bytes 8 v) 0 = nth i (le_bytes 8 v) 0).
  { intros i. rewrite app_nth2 by lia. f_equal. lia. }
  change (14 * 4 + 3)%nat with (56 + 3)%nat. change (14 * 4 + 2)%nat with (56 + 2)%nat.
  change (14 * 4 + 1)%nat with (56 + 1)%nat. change (14 * 4)%nat with (56 + 0)%nat.
  change (15 * 4 + 3)%nat with (56 + 7)%nat. change (15 * 4 + 2)%nat with (56 + 6)%nat.
  change (15 * 4 + 1)%nat with (56 + 5)%nat. change (15 * 4)%nat with (56 + 4)%nat.
  rewrite !Hn. cbn [le_bytes nth].
  rewrite !lor_bytes by (apply Z.mod_pos_bound; lia). cbn [of_bytes]. unfold uw. split; dlia.
Qed.

Lemma le_word_ext l1 l2 j : take 56 l1 = take 56 l2 -> (j < 14)%nat -> le_word l1 j = le_word l2 j.
Proof.
  intros H Hj. unfold le_word. assert (Hn : forall i, (i < 56)%nat -> nth i l1 0 = nth i l2 0).
  { intros i Hi. rewrite !nth_lookup. f_equal. rewrite <- (lookup_take_lt l1 56), H by lia.
    by rewrite lookup_take_lt by lia. }
  rewrite !Hn by lia. done.
Qed.

Lemma md5_pad_take n : 0 <= n < 64 ->
  take (Z.to_nat (if n <? 56 then 56 - n else 56 + 64 - n)) PADDING
    = 0x80 :: replicate (Z.to_nat ((55 - n) mod 64)) 0.
Proof.
  intros Hn. unfold PADDING. assert (Hm : (55 - n) mod 64 = if n <? 56 then 55 - n else 119 - n).
  { destruct (Z.ltb_spec n 56); [apply Z.mod_small; lia|].
    rewrite <- (Z_mod_plus_full _ 1), Z.mod_small by lia. lia. }
  rewrite Hm. destruct (Z.ltb_spec n 56).
  - replace (Z.to_nat (56 - n)) with (S (Z.to_nat (55 - n))) by lia. cbn [take]. rewrite take_replicate. do 2 f_equal. lia.
  - replace (Z.to_nat (56 + 64 - n)) with (S (Z.to_nat (119 - n))) by lia. cbn [take]. rewrite take_replicate. do 2 f_equal. lia.
Qed.

(** The final block is the one of the padded message. *)
Lemma md5_last_block input t v : take 56 input = t -> length t = 56%nat -> 0 <= v ->
  map (le_word input) (seq 0 14) ++ [u32 (u64 v); u32 (Z.shiftr (u64 v) 32)]
    = map (le_word (t ++ le_bytes 8 v)) (seq 0 16).
Proof.
  intros Hi Ht Hv. change (seq 0 16) with (seq 0 14 ++ [14%nat; 15%nat]). rewrite map_app. f_equal.
  - apply map_ext_in. intros j Hj%in_seq. apply le_word_ext; [|lia].
    rewrite take_app_le, Hi by lia. by rewrite take_ge by lia.
  - cbn [map]. destruct (le_word_length t v Ht Hv) as [-> ->]. rewrite Z.shiftr_div_pow2 by lia.
    unfold uw. rewrite Z.mod_mod_divide by (exists (2 ^ 32); lia). do 2 f_equal.
    change (2 ^ 64) with (2 ^ 32 * 2 ^ 32). rewrite Z.rem_mul_r by lia. rewrite Z.add_comm, Z.mul_comm.
    pose proof (Z.mod_pos_bound v (2 ^ 32) ltac:(lia)).
    rewrite Z.div_add_l, (Z.div_small (v mod 2 ^ 32)), Z.add_0_r, Z.mod_mod by lia. done.
Qed.

Lemma md5_finalize_spec ctx msg : md5_after ctx msg -> md5_digest (md5Finalize ctx) = md5_blocks msg.
Proof.
  intros Ha. pose proof Ha as (Hs & k & full & t & Hm & Hf & Hb & Hh). pose proof Hh as (_ & Ht & _).
  pose proof (md5_offset _ _ _ _ _ Hs Hm Hf Ht) as Ho.
  unfold md5Finalize. rewrite Ho. set (padding_length := if Z.of_nat (length t) <? 56 then _ else _).
  assert (Hp : take (Z.to_nat padding_length) PADDING = md5_pad (length msg)).
  { unfold padding_length. rewrite md5_pad_take by lia. unfold md5_pad. do 3 f_equal.
    rewrite Hm, length_app, Hf. rewrite Nat2Z.inj_add, Nat2Z.inj_mul. change (Z.of_nat 64) with 64.
    replace (55 - (64 * Z.of_nat k + Z.of_nat (length t))) with (55 - Z.of_nat (length t) + - Z.of_nat k * 64) by lia.
    by rewrite Z_mod_plus_full. }
  rewrite Hp. pose proof (md5_after_update ctx msg (md5_pad (length msg)) Ha) as Ha'.
  set (ctx' := md5Update ctx (md5_pad (length msg))) in *.
  destruct Ha' as (Hs' & k' & full' & t' & Hm' & Hf' & Hb' & Hh'). pose proof Hh' as (_ & Ht' & Htk').
  assert (Hlen : (length msg + length (md5_pad (length msg)) = length full' + length t')%nat).
  { rewrite <- !length_app. by rewrite Hm'. }
  assert (Hpl : Z.of_nat (length (md5_pad (length msg))) = 1 + (55 - Z.of_nat (length msg)) mod 64).
  { unfold md5_pad. cbn [length]. rewrite length_replicate. pose proof (Z.mod_pos_bound (55 - Z.of_nat (length msg)) 64). lia. }
  assert (H56 : length t' = 56%nat) by dlia.
  assert (Hsz : u64 (md5_size ctx' - padding_length) = u64 (Z.of_nat (length msg))).
  { rewrite Hs', length_app, Nat2Z.inj_add. rewrite <- Hp, length_take.
    assert (0 < padding_length <= 64) by (unfold padding_length; zcases; lia).
    replace (Z.of_nat (Z.to_nat padding_length `min` length PADDING)) with padding_length by (cbn; lia).
    unfold uw. rewrite Zminus_mod_idemp_l. f_equal. lia. }
  rewrite Hsz. assert (H8 : u64 (u64 (Z.of_nat (length msg)) * 8) = u64 (8 * Z.of_nat (length msg))).
  { unfold uw. rewrite Z.mul_comm, Zmult_mod_idemp_r. done. }
  rewrite H8. rewrite H56 in Htk'. cbn [md5_digest].
  rewrite (md5_last_block _ t' (8 * Z.of_nat (length msg)) Htk' H56 ltac:(lia)).
  fold (md5_compress (md5_buffer ctx') (t' ++ le_bytes 8 (8 * Z.of_nat (length msg)))).
  unfold md5_blocks. rewrite Hm', <- app_assoc.
  replace (length (full' ++ t' ++ le_bytes 8 (8 * Z.of_nat (length msg))) / 64)%nat with (k' + 1)%nat.
  - rewrite absorb_app by done. rewrite absorb_one by (rewrite length_app, le_bytes_length; lia). by rewrite Hb'.
  - rewrite !length_app, le_bytes_length, Hf', H56. replace (64 * k' + (56 + 8))%nat with ((k' + 1) * 64)%nat by lia.
    symmetry. apply Nat.div_mul. lia.
Qed.

Lemma md5_updates ctx msg chunks : md5_after ctx msg ->
  md5_after (foldl md5Update ctx chunks) (msg ++ concat chunks).
Proof.
  revert ctx msg. induction chunks as [|c chunks IH]; intros ctx msg H; cbn [foldl concat].
  - by rewrite app_nil_r.
  - rewrite app_assoc. by apply IH, md5_after_update.
Qed.

Lemma md5_chunks_spec fuel ctx msg l : (length l <= fuel)%nat -> md5_after ctx msg ->
  md5_after (md5_chunks fuel ctx l) (msg ++ l).
Proof.
  revert ctx msg l. induction fuel as [|fuel IH]; intros ctx msg l Hl H; cbn [md5_chunks].
  { destruct l; [by rewrite app_nil_r|cbn in Hl; lia]. }
  destruct l as [|b l]; [by rewrite app_nil_r|].
  rewrite <- (take_drop 1024 (b :: l)) at 3. rewrite app_assoc. apply IH; [|by apply md5_after_update].
  rewrite length_drop. cbn [length] in *. lia.
Qed.
End md5.

(** ** The blocks of SHA-512 *)

(** The padding: a one bit, zeros up to 112 bytes modulo 128, then sixteen
    bytes of length, of which the upper eight are [high]. *)
Definition sha_pad (len : nat) : list Z :=
  0x80 :: replicate (Z.to_nat ((111 - Z.of_nat len) mod 128)) 0.

Definition sha_blocks (high : list Z) (msg : list Z) : list Z :=
  let p := (msg ++ sha_pad (length msg)) ++ high ++ be_bytes (u64 (8 * Z.of_nat (length msg))) in
  concat (map be_bytes (absorb 128 sha512_transform (length p / 128) p sha512_H0)).

(** Bytes 112 to 119 of the block before the last one, or of the buffer as it
    was given when there is no such block. *)
Definition stale_bytes (ctx0 : SHA512_CTX) (msg : list Z) : list Z :=
  let p := msg ++ sha_pad (length msg) in
  take 8 (if (length p <? 128)%nat then drop 112 (sha_data ctx0) else drop (length p - 128) p).

Definition sha_after (ctx0 ctx : SHA512_CTX) (msg : list Z) : Prop :=
  exists k full t, msg = full ++ t /\ length full = (128 * k)%nat /\
    sha_bitlen ctx = u64 (1024 * Z.of_nat k) /\
    sha_state ctx = absorb 128 sha512_transform k full sha512_H0 /\
    sha_datalen ctx = length t /\ holds 128 (sha_data ctx) t /\
    drop (length t) (sha_data ctx) = behind 128 (sha_data ctx0) full (length t).

Section sha512.

Lemma sha_after_init ctx0 : length (sha_data ctx0) = 128%nat -> sha_after ctx0 (sha512_init ctx0) [].
Proof.
  intros H. exists 0%nat, [], []. split; [done|]. split; [done|]. split; [done|]. split; [done|].
  split; [done|]. split; [|done]. split; [done|]. split; [cbn; lia|done].
Qed.

(** The bit counter goes along with the blocks. *)
Lemma absorb_sha_block k l st n :
  absorb 128 sha_block k l (st, u64 n) = (absorb 128 sha512_transform k l st, u64 (n + 1024 * Z.of_nat k)).
Proof.
  revert l st n. induction k as [|k IH]; intros l st n; cbn [absorb].
  - do 2 f_equal. lia.
  - unfold sha_block at 2. cbn [fst snd].
    replace (u64 (u64 n + 128 * 8)) with (u64 (n + 1024)) by (unfold uw; by rewrite Zplus_mod_idemp_l).
    rewrite IH. do 2 f_equal. lia.
Qed.

Lemma behind_app buf0 buf full full' t n : holds 128 buf t ->
  drop (length t) buf = behind 128 buf0 full (length t) ->
  (full' = [] -> (length t <= n)%nat) -> (exists k, length full = (128 * k)%nat) ->
  (full' = [] \/ (128 <= length full')%nat) ->
  behind 128 buf full' n = behind 128 buf0 (full ++ full') n.
Proof.
  intros Hh Hd Hn [k Hk] Hf. unfold behind. destruct full' as [|f full'].
  - rewrite app_nil_r. specialize (Hn eq_refl).
    replace n with (length t + (n - length t))%nat by lia. rewrite <- !drop_drop.
    unfold behind in Hd. by rewrite Hd.
  - destruct Hf as [|Hf]; [done|]. f_equal. destruct (full ++ f :: full') eqn:E; [by destruct full|].
    rewrite <- E, drop_app_ge, length_app by (rewrite length_app; lia). f_equal. lia.
Qed.

Lemma sha_after_update ctx0 ctx msg l : sha_after ctx0 ctx msg ->
  sha_after ctx0 (sha512_update ctx l) (msg ++ l).
Proof.
  intros (k & full & t & Hm & Hf & Hb & Hs & Hd & Hh & Hbe). unfold sha512_update.
  destruct (feed_spec 128 sha_block l (sha_data ctx) t (sha_state ctx, sha_bitlen ctx) ltac:(lia) Hh)
    as (k' & full' & t' & buf' & Hl & Hf' & Heq & Hh' & Hbe').
  rewrite Hd, Heq, Hb, absorb_sha_block.
  exists (k + k')%nat, (full ++ full'), t'. cbn [sha_bitlen sha_state sha_datalen sha_data].
  split; [by rewrite Hm, <- !app_assoc, Hl|]. split; [rewrite length_app; lia|].
  split; [f_equal; lia|]. split; [by rewrite absorb_app, Hs by lia|]. split; [done|]. split; [done|].
  rewrite Hbe'. apply (behind_app _ _ _ _ t); [done|done| |by exists k|].
  - intros ->. cbn [app] in Hl. apply (f_equal length) in Hl. rewrite length_app in Hl. lia.
  - destruct k'; [left; destruct full'; [done|cbn in Hf'; lia]|right; lia].
Qed.

(** The zero loops of [sha512_final] feed zeros. *)
Lemma feed_zeros {St} (c : St -> list Z -> St) n data off st : (off + n <= 128)%nat -> (off < 128)%nat ->
  feed 128 c (replicate n 0) data off st
    = if (off + n =? 128)%nat then (zero_fill n data off, 0%nat, c st (zero_fill n data off))
      else (zero_fill n data off, (off + n)%nat, st).
Proof.
  revert data off. induction n as [|n IH]; intros data off Hn Ho; cbn [replicate feed zero_fill].
  - rewrite Nat.add_0_r. destruct (Nat.eqb_spec off 128); [lia|done].
  - destruct (Nat.eqb_spec (S off) 128).
    + destruct n; [|lia]. cbn [replicate feed zero_fill].
      replace (off + 1 =? 128)%nat with true by (symmetry; apply Nat.eqb_eq; lia). done.
    + rewrite IH by lia. by rewrite Nat.add_succ_r.
Qed.

Lemma feed_app {St} B (c : St -> list Z -> St) l1 l2 data off st :
  feed B c (l1 ++ l2) data off st
    = let '(data, off, st) := feed B c l1 data off st in feed B c l2 data off st.
Proof.
  revert data off st. induction l1 as [|b l1 IH]; intros data off st; [done|].
  cbn [app feed]. by destruct (S off =? B)%nat; rewrite IH.
Qed.

(** Up to the length, [sha512_final] feeds the padding. *)
Lemma final_feeds_padding data off st : (off < 128)%nat ->
  (let data := <[off := 0x80]> data in
   let datalen := S off in
   let '(data, datalen, state) :=
     if (112 <? datalen)%nat then
       let data := zero_fill (128 - datalen) data datalen in
       (data, 0%nat, sha512_transform st data)
     else (data, datalen, st) in
   (zero_fill (112 - datalen) data datalen, 112%nat, state))
  = feed 128 sha512_transform (sha_pad off) data off st.
Proof.
  intros Ho. unfold sha_pad. cbn [feed].
  assert (Hm : (111 - Z.of_nat off) mod 128 = if (off <? 112)%nat then 111 - Z.of_nat off else 239 - Z.of_nat off).
  { destruct (Nat.ltb_spec off 112); [apply Z.mod_small; lia|].
    rewrite <- (Z_mod_plus_full _ 1), Z.mod_small by lia. lia. }
  rewrite Hm. destruct (Nat.ltb_spec 112 (S off)), (Nat.ltb_spec off 112); try lia.
  - replace (Z.to_nat (239 - Z.of_nat off)) with (128 - S off + 112)%nat by lia.
    rewrite replicate_add. cbn zeta. destruct (Nat.eqb_spec (S off) 128) as [E|E].
    + replace (128 - S off)%nat with 0%nat by lia. change (replicate 0 0 ++ ?l) with l.
      change (zero_fill 0 ?d ?o) with d. rewrite feed_zeros by lia. done.
    + rewrite feed_app, feed_zeros by lia.
      replace (S off + (128 - S off) =? 128)%nat with true by (symmetry; apply Nat.eqb_eq; lia).
      rewrite feed_zeros by lia. done.
  - destruct (Nat.eqb_spec (S off) 128); [lia|]. rewrite feed_zeros by lia.
    replace (Z.to_nat (111 - Z.of_nat off)) with (112 - S off)%nat by lia.
    destruct (Nat.eqb_spec (S off + (112 - S off)) 128); [lia|]. do 2 f_equal. lia.
Qed.

Lemma store_bitlen_spec x y v : length x = 120%nat -> length y = 8%nat ->
  store_bitlen (x ++ y) v = x ++ be_bytes v.
Proof.
  intros Hx Hy. do 8 (destruct y as [|? y]; [done|]). destruct y; [|done].
  assert (Hl : forall a, Z.land a 0xff = u8 a) by (intros a; exact (Z.land_ones a 8 ltac:(lia))).
  unfold store_bitlen, be_bytes. cbn [seq foldl map]. rewrite !Hl.
  repeat rewrite insert_app_r_alt by lia. rewrite Hx. cbn [Nat.sub insert list_insert]. done.
Qed.

Lemma sha_pad_mod n k off : n = (128 * k + off)%nat -> sha_pad n = sha_pad off.
Proof.
  intros ->. unfold sha_pad. do 3 f_equal. rewrite Nat2Z.inj_add, Nat2Z.inj_mul. change (Z.of_nat 128) with 128.
  replace (111 - (128 * Z.of_nat k + Z.of_nat off)) with (111 - Z.of_nat off + - Z.of_nat k * 128) by lia.
  by rewrite Z_mod_plus_full.
Qed.

Lemma sha_pad_length n : Z.of_nat (length (sha_pad n)) = 1 + (111 - Z.of_nat n) mod 128.
Proof.
  unfold sha_pad. cbn [length]. rewrite length_replicate.
  pose proof (Z.mod_pos_bound (111 - Z.of_nat n) 128). lia.
Qed.

(** The bytes after the zeros are those of the block before. *)
Lemma stale_behind ctx0 msg full t : msg ++ sha_pad (length msg) = full ++ t -> length t = 112%nat ->
  (exists k, length full = (128 * k)%nat) -> length (sha_data ctx0) = 128%nat ->
  stale_bytes ctx0 msg = take 8 (behind 128 (sha_data ctx0) full 112) /\
  length (behind 128 (sha_data ctx0) full 112) = 16%nat.
Proof.
  intros Hp Ht [k Hk] H0. unfold stale_bytes, behind. rewrite Hp, length_app, Ht.
  destruct full as [|f full].
  - cbn [length Nat.add app]. change (112 <? 128)%nat with true. split; [done|]. rewrite length_drop. lia.
  - set (F := f :: full) in *. assert (128 <= length F)%nat by (destruct k; [cbn in Hk; lia|lia]).
    destruct (Nat.ltb_spec (length F + 112) 128); [lia|]. rewrite drop_drop, drop_app_le by lia.
    replace (length F - 128 + 112)%nat with (length F + 112 - 128)%nat by lia.
    split; [|rewrite length_drop; lia]. apply take_app_le. rewrite length_drop. lia.
Qed.

(** What the padding leaves in the buffer and in the state. *)
Lemma sha_padding ctx0 ctx msg : sha_after ctx0 ctx msg ->
  exists k full t buf, msg ++ sha_pad (length msg) = full ++ t /\ length full = (128 * k)%nat /\
    length t = 112%nat /\ holds 128 buf t /\ drop 112 buf = behind 128 (sha_data ctx0) full 112 /\
    feed 128 sha512_transform (sha_pad (sha_datalen ctx)) (sha_data ctx) (sha_datalen ctx) (sha_state ctx)
      = (buf, 112%nat, absorb 128 sha512_transform k full sha512_H0) /\
    (sha_datalen ctx < 128)%nat /\
    u64 (sha_bitlen ctx + Z.of_nat (sha_datalen ctx) * 8) = u64 (8 * Z.of_nat (length msg)).
Proof.
  intros (k & full & t & Hm & Hf & Hb & Hs & Hd & Hh & Hbe). rewrite Hd.
  assert (Hlen : length msg = (128 * k + length t)%nat) by (rewrite Hm, length_app; lia).
  destruct (feed_spec 128 sha512_transform (sha_pad (length t)) (sha_data ctx) t (sha_state ctx) ltac:(lia) Hh)
    as (k' & full' & t' & buf' & Hl & Hf' & Heq & Hh' & Hbe').
  rewrite (sha_pad_mod (length msg) k (length t)) by done.
  assert (Ht' : length t' = 112%nat).
  { apply (f_equal length) in Hl. rewrite !length_app, Hf' in Hl. pose proof (sha_pad_length (length t)).
    destruct Hh' as (_ & ? & _). dlia. }
  exists (k + k')%nat, (full ++ full'), t', buf'.
  split; [by rewrite Hm, <- !app_assoc, Hl|]. split; [rewrite length_app; lia|]. split; [done|].
  split; [done|]. split.
  { rewrite Ht' in Hbe'. rewrite Hbe'. apply (behind_app _ _ _ _ t); [done|done| |by exists k|].
    - intros ->. cbn [app] in Hl. apply (f_equal length) in Hl. rewrite length_app in Hl. lia.
    - destruct k'; [left; destruct full'; [done|cbn in Hf'; lia]|right; lia]. }
  split; [by rewrite Heq, Ht', absorb_app, Hs by lia|]. split; [by destruct Hh as (_ & ? & _)|].
  rewrite Hb, Hlen. unfold uw. rewrite Zplus_mod_idemp_l. f_equal. lia.
Qed.

Lemma sha_last_block ctx0 msg full t buf k :
  msg ++ sha_pad (length msg) = full ++ t -> length full = (128 * k)%nat -> length t = 112%nat ->
  holds 128 buf t -> drop 112 buf = behind 128 (sha_data ctx0) full 112 ->
  length (sha_data ctx0) = 128%nat ->
  concat (map be_bytes (sha512_transform (absorb 128 sha512_transform k full sha512_H0)
    (store_bitlen buf (u64 (8 * Z.of_nat (length msg))))))
  = sha_blocks (stale_bytes ctx0 msg) msg.
Proof.
  intros Hp Hf Ht Hh Hbe H0.
  destruct (stale_behind ctx0 msg full t Hp Ht ltac:(by exists k) H0) as [Hstale Hbl16].
  assert (Hbuf : buf = (t ++ stale_bytes ctx0 msg) ++ drop 8 (drop 112 buf)).
  { rewrite <- (take_drop 112 buf) at 1. destruct Hh as (_ & _ & Htk). rewrite Ht in Htk.
    rewrite Htk, <- app_assoc. f_equal. rewrite Hstale, <- Hbe. by rewrite take_drop. }
  rewrite Hbuf, store_bitlen_spec.
  2:{ rewrite length_app, Hstale, length_take, Hbl16, Ht. done. }
  2:{ rewrite Hbe, length_drop, Hbl16. done. }
  unfold sha_blocks. rewrite Hp. do 2 f_equal.
  assert (Hl1 : length ((t ++ stale_bytes ctx0 msg) ++ be_bytes (u64 (8 * Z.of_nat (length msg)))) = 128%nat).
  { rewrite !length_app, Hstale, length_take, Hbl16, Ht. done. }
  rewrite <- (absorb_one 128 sha512_transform _ _ Hl1), <- absorb_app by done.
  rewrite <- !app_assoc in *. f_equal. rewrite length_app, Hl1, Hf.
  replace (128 * k + 128)%nat with ((k + 1) * 128)%nat by lia. symmetry. apply Nat.div_mul. lia.
Qed.

Lemma sha_final_spec ctx0 ctx msg : sha_after ctx0 ctx msg -> length (sha_data ctx0) = 128%nat ->
  snd (sha512_final ctx) = sha_blocks (stale_bytes ctx0 msg) msg.
Proof.
  intros Ha H0. destruct (sha_padding _ _ _ Ha) as (k & full & t & buf & Hp & Hf & Ht & Hh & Hbe & Heq & Hd & Hbl).
  pose proof (final_feeds_padding (sha_data ctx) (sha_datalen ctx) (sha_state ctx) Hd) as Hfin.
  rewrite Heq in Hfin. unfold sha512_final. rewrite Hbl. cbv zeta in Hfin |- *.
  destruct (112 <? S (sha_datalen ctx))%nat; apply pair_eq in Hfin as [[Hd1 _]%pair_eq Hst];
    cbn [snd]; rewrite Hd1, Hst; clear Hd1 Hst.
  all: by apply (sha_last_block ctx0 msg full t buf k).
Qed.
End sha512.
