(* ===== verification/DigestTheorems.v ===== *)
(** * The digests are those of the standards

    The kernel's MD5 is that of RFC 1321, and its SHA-512 that of FIPS 180-4
    except for the upper half of the length field, which the code does not
    write. *)

From S2P Require Import Prelude DigestSpec Digests.

(** ** Words, bytes and blocks *)

Lemma bit_not_complement w x : 0 <= w -> bit_not w x = complement w x.
Proof.
  intros Hw. unfold bit_not, complement, uw, Z.lnot, Z.pred. rewrite <- (Z_mod_plus_full (- x + -1) 1 (2 ^ w)). f_equal. lia.
Qed.

Lemma le_bytes_little n : forall v, 0 <= v -> le_bytes n v = little_endian n v.
Proof.
  induction n as [|n IH]; intros v Hv; [done|]. cbn [le_bytes]. rewrite IH by (apply Z.div_pos; lia).
  unfold little_endian. cbn [seq map]. f_equal; [by rewrite Z.div_1_r|]. rewrite <- (seq_shift n 0), map_map. apply map_ext. intros k.
  rewrite Nat2Z.inj_succ, Z.pow_succ_r, Z.div_div by lia. done.
Qed.

Lemma little_endian_snoc n v : little_endian (S n) v = little_endian n v ++ [v / 256 ^ Z.of_nat n mod 256].
Proof. unfold little_endian. by rewrite seq_S, map_app. Qed.

Lemma of_bytes_little l : of_bytes l = from_little l.
Proof. induction l as [|b l IH]; [done|]. cbn [of_bytes from_little foldr]. rewrite IH. unfold from_little. lia. Qed.

Lemma absorb_pieces {St} (B : nat) (compress : St -> list Z -> St) k : forall l st, (0 < B)%nat -> length l = (B * k)%nat ->
  absorb B compress k l st = foldl compress st (pieces B l).
Proof.
  induction k as [|k IH]; intros l st HB Hl; cbn [absorb]; unfold pieces; rewrite Hl, Nat.mul_comm, Nat.div_mul by lia; [done|].
  cbn [seq map foldl]. rewrite Nat.mul_0_r, drop_0. rewrite IH by (try rewrite length_drop; lia). unfold pieces.
  rewrite length_drop, Hl. replace (B * S k - B)%nat with (k * B)%nat by lia. rewrite Nat.div_mul by lia.
  rewrite <- (seq_shift k 0), map_map. f_equal. apply map_ext. intros i. rewrite drop_drop. do 2 f_equal. lia.
Qed.

(** Compressions that agree on blocks of bytes, up to a view of the state *)
Lemma foldl_pieces {S1 S2} (B : nat) (view : S1 -> S2) (c1 : S1 -> list Z -> S1) (c2 : S2 -> list Z -> S2) (P : S1 -> Prop) k : forall l st,
  (0 < B)%nat -> length l = (B * k)%nat -> Forall byte l -> P st ->
  (forall st b, P st -> length b = B -> Forall byte b -> P (c1 st b) /\ view (c1 st b) = c2 (view st) b) ->
  P (absorb B c1 k l st) /\ view (absorb B c1 k l st) = absorb B c2 k l (view st).
Proof.
  induction k as [|k IH]; intros l st HB Hl Hb Hst Hc; cbn [absorb]; [done|].
  destruct (Hc st (take B l) Hst) as [H1 H2]; [rewrite length_take; lia|by apply Forall_take|].
  rewrite <- H2. apply IH; [done|rewrite length_drop; lia|by apply Forall_drop|done|done].
Qed.

(** The padding *)
Lemma pad_spec (block rest len zeros : nat) : (rest < block)%nat -> (zeros < block)%nat -> ((len + 1 + zeros) mod block = rest)%nat ->
  pad block rest len = 128 :: replicate zeros 0.
Proof.
  intros Hr Hz Hm. unfold pad. do 2 f_equal.
  destruct (List.find _ (seq 0 block)) as [k|] eqn:E.
  - apply find_some in E as [Hk%in_seq E]. apply Nat.eqb_eq in E. rewrite <- Hm in E.
    pose proof (Nat.div_mod (len + 1 + k) block ltac:(lia)) as H1. pose proof (Nat.div_mod (len + 1 + zeros) block ltac:(lia)) as H2.
    rewrite E in H1. revert H1 H2. generalize ((len + 1 + k) / block)%nat ((len + 1 + zeros) / block)%nat ((len + 1 + zeros) mod block)%nat.
    intros q1 q2 r H1 H2. destruct (Nat.lt_trichotomy q1 q2) as [Hq|[->|Hq]]; [|lia|]; exfalso.
    + assert (block * (q1 + 1) <= block * q2)%nat by (apply Nat.mul_le_mono_l; lia). lia.
    + assert (block * (q2 + 1) <= block * q1)%nat by (apply Nat.mul_le_mono_l; lia). lia.
  - apply (find_none _ _) with (x := zeros) in E; [|apply in_seq; lia]. by apply Nat.eqb_neq in E.
Qed.

(** ** MD5 *)

Section md5.

(** The table of the code is the table of sines. *)
Lemma md5_K_sines : forallb (fun n => nth n md5_K 0 =? RFC1321.T (Z.of_nat n + 1)) (seq 0 64) = true.
Proof. vm_compute. reflexivity. Qed.

(** The functions, words and shifts of the code are those of the operations. *)
Definition same_choice (n : nat) (o : RFC1321.operation) : bool :=
  let j := match (n / 16)%nat with
           | 0%nat => n
           | 1%nat => (n * 5 + 1) mod 16
           | 2%nat => (n * 3 + 5) mod 16
           | _ => (n * 7) mod 16
           end%nat in
  (RFC1321.o_round o =? n / 16 + 1)%nat && (RFC1321.o_k o =? j)%nat && (RFC1321.o_s o =? nth n md5_S 0) &&
  (RFC1321.o_i o =? Z.of_nat n + 1) && (0 <? RFC1321.o_s o) && (RFC1321.o_s o <? 32) &&
  match (n mod 4)%nat, RFC1321.o_order o with
  | 0%nat, RFC1321.ABCD | 1%nat, RFC1321.DABC | 2%nat, RFC1321.CDAB | 3%nat, RFC1321.BCDA => true
  | _, _ => false
  end.

Lemma md5_choices : (length RFC1321.operations =? 64)%nat &&
  forallb (fun p => same_choice (fst p) (snd p)) (combine (seq 0 64) RFC1321.operations) = true.
Proof. vm_compute. reflexivity. Qed.

Lemma rotateLeft_rotate x s : 0 <= x < 2 ^ 32 -> 0 < s < 32 -> rotateLeft x s = RFC1321.rotate x s.
Proof.
  intros Hx Hs. unfold rotateLeft, RFC1321.rotate. rewrite Z.lor_comm, Z.shiftr_div_pow2, Z.shiftl_mul_pow2 by lia.
  assert (E : u32 (x * 2 ^ s) = Z.shiftl (x mod 2 ^ (32 - s)) s).
  { rewrite Z.shiftl_mul_pow2 by lia. unfold uw. replace (2 ^ 32) with (2 ^ (32 - s) * 2 ^ s) by (rewrite <- Z.pow_add_r by lia; f_equal; lia).
    rewrite Z.mul_mod_distr_r; [done| |]; apply Z.pow_nonzero; lia. }
  rewrite E, lor_split; [|lia|].
  - unfold uw in E. rewrite E, Z.shiftl_mul_pow2 by lia. lia.
  - split; [apply Z.div_pos; [lia|apply Z.pow_pos_nonneg; lia]|]. apply Z.div_lt_upper_bound; [apply Z.pow_pos_nonneg; lia|].
    rewrite <- Z.pow_add_r by lia. replace (32 - s + s) with 32 by lia. lia.
Qed.

(** The registers of the code move on by one with every operation. *)
Definition moved (n : nat) (r : RFC1321.registers) : words4 :=
  match (n mod 4)%nat with
  | 0%nat => W4 (RFC1321.A r) (RFC1321.B r) (RFC1321.C r) (RFC1321.D r)
  | 1%nat => W4 (RFC1321.D r) (RFC1321.A r) (RFC1321.B r) (RFC1321.C r)
  | 2%nat => W4 (RFC1321.C r) (RFC1321.D r) (RFC1321.A r) (RFC1321.B r)
  | _ => W4 (RFC1321.B r) (RFC1321.C r) (RFC1321.D r) (RFC1321.A r)
  end.

Lemma md5_round_set X n o aa bb cc dd : (n < 64)%nat -> same_choice n o = true ->
  md5_round X (W4 aa bb cc dd) n = W4 dd (RFC1321.set X o aa bb cc dd) bb cc.
Proof.
  intros Hn Ho. unfold same_choice in Ho. rewrite !andb_true_iff, !Nat.eqb_eq, !Z.eqb_eq, !Z.ltb_lt in Ho.
  destruct Ho as ((((((Hr & Hk) & Hs) & Hi) & Hs1) & Hs2) & _).
  pose proof (proj1 (forallb_forall _ _) md5_K_sines n ltac:(apply in_seq; lia)) as HK. cbv beta in HK. apply Z.eqb_eq in HK.
  unfold md5_round, RFC1321.set. rewrite HK, Hr, Hk, Hi, <- Hs. unfold md5_F, md5_G, md5_H, md5_I. rewrite !bit_not_complement by lia.
  assert (Hset : forall E x t s, 0 < s < 32 -> u32 (bb + rotateLeft (u32 (aa + E + t + x)) s) =
    (bb + RFC1321.rotate ((aa + E + x + t) mod 2 ^ 32) s) mod 2 ^ 32).
  { intros E x t s Hb. rewrite rotateLeft_rotate by (done || apply Z.mod_pos_bound; lia). unfold uw. by replace (aa + E + t + x) with (aa + E + x + t) by lia. }
  assert (H4 : (n / 16 < 4)%nat) by (apply Nat.Div0.div_lt_upper_bound; lia).
  replace (n / 16 + 1)%nat with (S (n / 16)) by lia. destruct (n / 16)%nat as [|[|[|[|?]]]]; [..|lia]; by rewrite Hset by done.
Qed.

Lemma md5_round_perform X n r o : (n < 64)%nat -> same_choice n o = true ->
  md5_round X (moved n r) n = moved (S n) (RFC1321.perform X r o).
Proof.
  intros Hn Ho. assert (Hord := Ho). unfold same_choice in Hord. apply andb_true_iff in Hord as [_ Hord].
  assert (Hm : ((S n) mod 4 = match n mod 4 with 3 => 0 | k => S k end)%nat).
  { pose proof (Nat.mod_upper_bound n 4 ltac:(lia)) as Hb. rewrite <- Nat.add_1_r, Nat.Div0.add_mod by lia.
    destruct (n mod 4)%nat as [|[|[|[|?]]]]; [..|lia]; done. }
  unfold moved, RFC1321.perform. rewrite Hm. pose proof (Nat.mod_upper_bound n 4 ltac:(lia)) as Hb.
  destruct (n mod 4)%nat as [|[|[|[|?]]]]; [..|lia]; destruct (RFC1321.o_order o); try done; by rewrite (md5_round_set X n o) by done.
Qed.

Lemma md5_rounds X os : forall n r, Forall (fun p => (fst p < 64)%nat /\ same_choice (fst p) (snd p) = true) (combine (seq n (length os)) os) ->
  foldl (md5_round X) (moved n r) (seq n (length os)) = moved (n + length os) (foldl (RFC1321.perform X) r os).
Proof.
  induction os as [|o os IH]; intros n r Hos; cbn [length seq foldl]; [by rewrite Nat.add_0_r|].
  apply Forall_cons_1 in Hos as [[Hn Ho] Hos]. cbn [fst snd] in *. rewrite (md5_round_perform X n r o Hn Ho), IH by done. f_equal. lia.
Qed.

Lemma take_nth (l : list Z) (i n : nat) : (i + n <= length l)%nat -> take n (drop i l) = map (fun k => nth (i + k) l 0) (seq 0 n).
Proof.
  revert l i. induction n as [|n IH]; intros l i Hl; [done|].
  rewrite (drop_S l (nth i l 0) i) by (destruct (lookup_lt_is_Some_2 l i) as [x Hx]; [lia|]; rewrite Hx; f_equal; symmetry; by apply nth_lookup_Some). cbn [take seq map]. rewrite Nat.add_0_r. f_equal.
  rewrite IH by lia. rewrite <- (seq_shift n 0), map_map. apply map_ext. intros k. f_equal. lia.
Qed.

Lemma nth_byte (l : list Z) i : Forall byte l -> byte (nth i l 0).
Proof.
  intros Hl. destruct (nth_in_or_default i l 0) as [H| ->]; [|unfold byte; lia].
  rewrite list.Forall_forall in Hl. by apply Hl, list_elem_of_In.
Qed.

Lemma md5_words block : length block = 64%nat -> Forall byte block ->
  map (le_word block) (seq 0 16) = map from_little (pieces 4 block).
Proof.
  intros Hl Hb. unfold pieces. rewrite Hl, map_map. change (64 / 4)%nat with 16%nat. apply map_ext_in. intros j Hj%in_seq.
  rewrite take_nth by lia. cbn [seq map]. unfold le_word. rewrite lor_bytes by (by apply nth_byte). rewrite of_bytes_little.
  by replace (j * 4)%nat with (4 * j)%nat by lia; rewrite Nat.add_0_r.
Qed.

Definition to_registers (w : words4) : RFC1321.registers := RFC1321.Registers (w_a w) (w_b w) (w_c w) (w_d w).

Lemma md5_compress_process st block : length block = 64%nat -> Forall byte block ->
  to_registers (md5_compress st block) = RFC1321.process (to_registers st) block.
Proof.
  intros Hl Hb. unfold md5_compress, RFC1321.process. rewrite (md5_words block Hl Hb). set (X := map from_little (pieces 4 block)).
  pose proof md5_choices as Hc. apply andb_true_iff in Hc as [Hlen%Nat.eqb_eq Hc]. rewrite forallb_forall in Hc.
  pose proof (md5_rounds X RFC1321.operations 0 (to_registers st)) as Hr. rewrite Hlen in Hr.
  unfold md5Step. replace (foldl (md5_round X) st (seq 0 64)) with (foldl (md5_round X) (moved 0 (to_registers st)) (seq 0 64)) by (by destruct st).
  rewrite Hr; [done|]. apply list.Forall_forall. intros [n o] Hin%list_elem_of_In. split; [|by apply (Hc (n, o))].
  apply in_combine_l, in_seq in Hin. cbn. lia.
Qed.

Lemma word_digest_little w : word_digest w = little_endian 4 w.
Proof.
  unfold word_digest, little_endian. cbn [seq map].
  assert (H : forall k, 0 <= k -> Z.shiftr (Z.land w (Z.shiftl 255 k)) k = w / 2 ^ k mod 256).
  { intros k Hk. rewrite Z.shiftr_land, Z.shiftr_shiftl_l, Z.sub_diag, Z.shiftr_div_pow2 by lia. exact (Z.land_ones (w / 2 ^ k) 8 ltac:(lia)). }
  pose proof (H 0 ltac:(lia)) as H0. pose proof (H 8 ltac:(lia)) as H1. pose proof (H 16 ltac:(lia)) as H2. pose proof (H 24 ltac:(lia)) as H3.
  change (Z.shiftl 255 0) with 0x000000ff in H0. change (Z.shiftl 255 8) with 0x0000ff00 in H1.
  change (Z.shiftl 255 16) with 0x00ff0000 in H2. change (Z.shiftl 255 24) with 0xff000000 in H3. rewrite Z.shiftr_0_r in H0. by rewrite H0, H1, H2, H3.
Qed.

Lemma md5_pad_spec len : md5_pad len = pad 64 56 len.
Proof.
  unfold md5_pad. pose proof (Z.mod_pos_bound (55 - Z.of_nat len) 64 ltac:(lia)) as Hb. symmetry. apply pad_spec; [lia|lia|].
  apply Nat2Z.inj. rewrite Nat2Z.inj_mod, !Nat2Z.inj_add, Z2Nat.id by lia. dlia.
Qed.

(** The code's blocks make the digest of the standard. *)
Lemma md5_blocks_spec msg : Forall byte msg -> md5_blocks msg = RFC1321.md5 msg.
Proof.
  intros Hb. unfold md5_blocks, RFC1321.md5. rewrite md5_pad_spec, le_bytes_little, <- app_assoc by lia. fold (RFC1321.padded msg). set (p := RFC1321.padded msg).
  assert (Hp : Forall byte p /\ exists k, length p = (64 * k)%nat).
  { unfold p, RFC1321.padded. rewrite <- md5_pad_spec. split.
    - apply Forall_app; split; [done|]. apply Forall_app; split; [constructor; [done|]; by apply Forall_replicate|].
      apply list.Forall_forall. intros x Hx%list_elem_of_In%in_map_iff. destruct Hx as (k & <- & _). apply Z.mod_pos_bound. lia.
    - rewrite !length_app. unfold md5_pad, little_endian. cbn [length]. rewrite length_replicate, length_map, length_seq.
      exists (Z.to_nat ((Z.of_nat (length msg) + 1 + (55 - Z.of_nat (length msg)) mod 64 + 8) / 64)). dlia. }
  destruct Hp as [Hbp [k Hk]]. rewrite Hk, (Nat.mul_comm 64), Nat.div_mul by lia.
  destruct (foldl_pieces 64 to_registers md5_compress RFC1321.process (fun _ => True) k p md5_state0) as [_ E]; try done; [lia| |].
  { intros st b _ Hl Hbb. split; [done|]. by apply md5_compress_process. }
  rewrite (absorb_pieces 64 RFC1321.process) in E by (done || lia). change (to_registers md5_state0) with RFC1321.initial in E.
  rewrite <- E. cbv zeta. destruct (absorb 64 md5_compress k p md5_state0) as [wa wb wc wd]. by rewrite !word_digest_little.
Qed.
End md5.

(** ** SHA-512 *)

Section sha512.

Lemma sha512_K_roots : bool_decide (sha512_K = FIPS180.constants) && bool_decide (sha512_H0 = FIPS180.initial_hash) = true.
Proof. vm_compute. reflexivity. Qed.

Lemma sha512_constants : sha512_K = FIPS180.constants.
Proof. pose proof sha512_K_roots as H. apply andb_true_iff in H as [H _]. by apply bool_decide_eq_true in H. Qed.

Lemma sha512_initial : sha512_H0 = FIPS180.initial_hash.
Proof. pose proof sha512_K_roots as H. apply andb_true_iff in H as [_ H]. by apply bool_decide_eq_true in H. Qed.

Lemma ROTR_spec x n : 0 <= n <= 64 -> ROTR x n = FIPS180.ROTR n x.
Proof. intros Hn. unfold ROTR, FIPS180.ROTR, uw. by rewrite Z.shiftr_div_pow2, Z.shiftl_mul_pow2 by lia. Qed.

Lemma sha_functions x y z : CH x y z = FIPS180.Ch x y z /\ MAJ x y z = FIPS180.Maj x y z /\ SIGMA0 x = FIPS180.Sigma0 x /\
  SIGMA1 x = FIPS180.Sigma1 x /\ sigma0 x = FIPS180.sigma0 x /\ sigma1 x = FIPS180.sigma1 x.
Proof.
  unfold CH, SIGMA0, SIGMA1, sigma0, sigma1. rewrite bit_not_complement, !ROTR_spec, !Z.shiftr_div_pow2 by lia. done.
Qed.

(** The schedule grows at its end, there at its front. *)
Lemma sha_schedule_spec n : forall m, (16 <= length m)%nat -> sha_schedule n m = rev (Nat.iter n FIPS180.next_word (rev m)).
Proof.
  induction n as [|n IH]; intros m Hm; cbn [sha_schedule]; [change (Nat.iter 0 FIPS180.next_word (rev m)) with (rev m); by rewrite rev_involutive|]. rewrite IH by (rewrite length_app; lia).
  f_equal. rewrite Nat.iter_succ_r. f_equal. rewrite rev_app_distr. cbn [rev app]. unfold FIPS180.next_word.
  rewrite !rev_nth by lia. do 2 f_equal.
  destruct (sha_functions (nth (length m - 2) m 0) 0 0) as (_ & _ & _ & _ & _ & ->).
  destruct (sha_functions (nth (length m - 15) m 0) 0 0) as (_ & _ & _ & _ & -> & _). done.
Qed.

Lemma sha_turn W v t : sha_round W (FIPS180.of_vars v) t = FIPS180.of_vars (FIPS180.turn W v t).
Proof.
  destruct v as [va vb vc vd ve vf vg vh]. unfold FIPS180.of_vars, FIPS180.turn. cbn [FIPS180.a FIPS180.b FIPS180.c FIPS180.d FIPS180.e FIPS180.f FIPS180.g FIPS180.h sha_round].
  destruct (sha_functions ve vf vg) as (-> & _ & _ & -> & _ & _). destruct (sha_functions va vb vc) as (_ & -> & -> & _ & _ & _).
  by rewrite sha512_constants.
Qed.

Lemma sha_turns W ts : forall v, foldl (sha_round W) (FIPS180.of_vars v) ts = FIPS180.of_vars (foldl (FIPS180.turn W) v ts).
Proof. induction ts as [|t ts IH]; intros v; [done|]. cbn [foldl]. by rewrite sha_turn, IH. Qed.

(** The first [n] of the eight bytes of a word *)
Lemma be_word_prefix (data : nat -> Z) n : (n <= 8)%nat -> (forall k, byte (data k)) ->
  foldl (fun w k => Z.lor w (u64 (Z.shiftl (data k) (8 * (7 - Z.of_nat k))))) 0 (seq 0 n) = Z.shiftl (from_big (map data (seq 0 n))) (8 * (8 - Z.of_nat n)).
Proof.
  intros Hn Hd. induction n as [|n IH]; [done|]. rewrite seq_S, foldl_app, map_app, IH by lia. cbn [foldl map Nat.add]. unfold from_big at 2. rewrite foldl_app.
  fold (from_big (map data (seq 0 n))). cbn [foldl]. set (x := from_big (map data (seq 0 n))). pose proof (Hd n) as Hb. unfold byte in Hb.
  rewrite uw_small.
  - replace (8 * (8 - Z.of_nat n)) with (8 + 8 * (7 - Z.of_nat n)) by lia. replace (8 * (8 - Z.of_nat (S n))) with (8 * (7 - Z.of_nat n)) by lia.
    rewrite <- Z.shiftl_shiftl, <- Z.shiftl_lor by lia. f_equal. rewrite Z.lor_comm, lor_split by lia. lia.
  - rewrite Z.shiftl_mul_pow2 by lia. split; [apply Z.mul_nonneg_nonneg; [lia|apply Z.pow_nonneg; lia]|].
    apply Z.lt_le_trans with (2 ^ 8 * 2 ^ (8 * (7 - Z.of_nat n))); [apply Z.mul_lt_mono_pos_r; [apply Z.pow_pos_nonneg; lia|lia]|].
    rewrite <- Z.pow_add_r by lia. apply Z.pow_le_mono_r; lia.
Qed.

Lemma sha_words block : length block = 128%nat -> Forall byte block ->
  map (be_word block) (seq 0 16) = map from_big (pieces 8 block).
Proof.
  intros Hl Hb. unfold pieces. rewrite Hl, map_map. change (128 / 8)%nat with 16%nat. apply map_ext_in. intros i Hi%in_seq.
  rewrite take_nth by lia. unfold be_word. rewrite (be_word_prefix (fun k => nth (i * 8 + k) block 0) 8); [|lia|intros k; by apply nth_byte].
  rewrite Z.shiftl_0_r. by replace (i * 8)%nat with (8 * i)%nat by lia.
Qed.

Lemma sha512_transform_process v block : length block = 128%nat -> Forall byte block ->
  sha512_transform (FIPS180.of_vars v) block = FIPS180.of_vars (FIPS180.process v block).
Proof.
  intros Hl Hb. unfold sha512_transform, FIPS180.process. rewrite (sha_words block Hl Hb).
  rewrite sha_schedule_spec by (rewrite length_map; unfold pieces; rewrite length_map, length_seq, Hl; done).
  unfold FIPS180.schedule. cbv zeta. by rewrite sha_turns.
Qed.

Lemma be_bytes_big w : be_bytes w = big_endian 8 w.
Proof.
  unfold be_bytes, big_endian, little_endian. cbn [seq map rev app].
  assert (H : forall k, 0 <= k -> Z.land (Z.shiftr w k) 0xff = w / 2 ^ k mod 256).
  { intros k Hk. rewrite Z.shiftr_div_pow2 by lia. exact (Z.land_ones (w / 2 ^ k) 8 ltac:(lia)). }
  by rewrite !H by lia.
Qed.

Lemma sha_pad_spec len : sha_pad len = pad 128 112 len.
Proof.
  unfold sha_pad. pose proof (Z.mod_pos_bound (111 - Z.of_nat len) 128 ltac:(lia)) as Hb. symmetry. apply pad_spec; [lia|lia|].
  apply Nat2Z.inj. rewrite Nat2Z.inj_mod, !Nat2Z.inj_add, Z2Nat.id by lia. dlia.
Qed.

Lemma big_endian_bytes n x : Forall byte (big_endian n x).
Proof.
  apply Forall_rev, list.Forall_forall. intros y Hy%list_elem_of_In%in_map_iff. destruct Hy as (k & <- & _). apply Z.mod_pos_bound. lia.
Qed.

Lemma sha_blocks_spec high msg : length high = 8%nat -> Forall byte high -> Forall byte msg ->
  sha_blocks high msg = FIPS180.sha512_with (high ++ big_endian 8 (8 * Z.of_nat (length msg))) msg.
Proof.
  intros Hh Hhb Hb. unfold sha_blocks, FIPS180.sha512_with.
  assert (Hlow : be_bytes (u64 (8 * Z.of_nat (length msg))) = big_endian 8 (8 * Z.of_nat (length msg))).
  { rewrite be_bytes_big. unfold big_endian, little_endian. f_equal. apply map_ext_in. intros k Hk%in_seq.
    change 256 with (2 ^ 8) at 1 3. rewrite <- !Z.pow_mul_r by lia. change 256 with (2 ^ 8).
    rewrite <- !Z.land_ones, <- !Z.shiftr_div_pow2 by lia. unfold uw. rewrite <- Z.land_ones by lia.
    rewrite Z.shiftr_land, <- Z.land_assoc. f_equal. apply Z.bits_inj'. intros i Hi. rewrite Z.land_spec, Z.shiftr_spec by lia.
    destruct (Z_lt_le_dec i 8); [|by rewrite (Z.ones_spec_high 8) by lia; apply andb_false_r]. rewrite (Z.ones_spec_low 64) by lia. done. }
  rewrite Hlow, sha_pad_spec, <- app_assoc. set (p := msg ++ pad 128 112 (length msg) ++ high ++ big_endian 8 (8 * Z.of_nat (length msg))).
  assert (Hp : Forall byte p /\ exists k, length p = (128 * k)%nat).
  { unfold p. rewrite <- sha_pad_spec. split.
    - rewrite !Forall_app. split_and!; [done| |done|apply big_endian_bytes]. constructor; [done|]. by apply Forall_replicate.
    - rewrite !length_app, Hh. pose proof (sha_pad_length (length msg)) as Hs. unfold big_endian, little_endian. rewrite length_rev, length_map, length_seq.
      exists (Z.to_nat ((Z.of_nat (length msg) + 1 + (111 - Z.of_nat (length msg)) mod 128 + 16) / 128)). dlia. }
  destruct Hp as [Hbp [k Hk]]. rewrite Hk, (Nat.mul_comm 128), Nat.div_mul by lia.
  assert (E : absorb 128 sha512_transform k p sha512_H0 = FIPS180.of_vars (absorb 128 FIPS180.process k p (FIPS180.to_vars FIPS180.initial_hash))).
  { rewrite <- sha512_initial. change sha512_H0 with (FIPS180.of_vars (FIPS180.to_vars sha512_H0)) at 1.
    symmetry. apply (foldl_pieces 128 FIPS180.of_vars FIPS180.process sha512_transform (fun _ => True)); try done; [lia|].
    intros v b _ Hlb Hbb. split; [done|]. symmetry. by apply sha512_transform_process. }
  rewrite E, (absorb_pieces 128 FIPS180.process) by (done || lia). f_equal. apply map_ext. intros w. apply be_bytes_big.
Qed.
Lemma sha_updates ctx0 ctx msg chunks : sha_after ctx0 ctx msg -> sha_after ctx0 (foldl sha512_update ctx chunks) (msg ++ concat chunks).
Proof.
  revert ctx msg. induction chunks as [|c chunks IH]; intros ctx msg H; cbn [foldl concat]; [by rewrite app_nil_r|].
  rewrite app_assoc. by apply IH, sha_after_update.
Qed.

(** The length of a message that is not enormous, in sixteen bytes *)
Lemma length_field n : Z.of_nat n < 2 ^ 61 -> replicate 8 0 ++ big_endian 8 (8 * Z.of_nat n) = big_endian 16 (8 * Z.of_nat n).
Proof.
  intros Hn. set (x := 8 * Z.of_nat n). assert (Hx : 0 <= x < 256 ^ 8) by (change (256 ^ 8) with (2 ^ 64); lia).
  unfold big_endian. change (replicate 8 0) with (rev (replicate 8 0)). rewrite <- rev_app_distr. f_equal. unfold little_endian.
  change (seq 0 16) with (seq 0 8 ++ seq 8 8). rewrite map_app. f_equal. change (replicate 8 0) with (map (fun _ : nat => 0) (seq 8 8)). symmetry. apply map_ext_in. intros k Hk%in_seq.
  rewrite Z.div_small; [done|]. split; [lia|]. apply Z.lt_le_trans with (256 ^ 8); [lia|]. apply Z.pow_le_mono_r; lia.
Qed.
End sha512.

(** ** The properties *)

(** C31: MD5 as a stream.  For every way of cutting a message of less than 2^32
    bytes into chunks, and whatever the context held before, [md5Init], one
    [md5Update] per chunk and [md5Finalize] give the digest of the message that
    RFC 1321 defines ([RFC1321.md5]: table of sines, operations, padding and
    byte order from the text of the standard); [md5String] and [md5File] give
    the same. *)
Theorem md5_correct ctx0 chunks (msg := concat chunks) :
  length (md5_input ctx0) = 64%nat -> Forall byte msg -> Z.of_nat (length msg) < 2 ^ 32 ->
  md5_digest (md5Finalize (foldl md5Update (md5Init ctx0) chunks)) = RFC1321.md5 msg /\
  md5String ctx0 msg = RFC1321.md5 msg /\ md5File ctx0 msg = RFC1321.md5 msg.
Proof.
  intros H0 Hb _. rewrite <- (md5_blocks_spec msg Hb). pose proof (md5_after_init ctx0 H0) as Hi. split; [|split].
  - apply md5_finalize_spec. by apply (md5_updates _ []).
  - apply md5_finalize_spec. by apply (md5_after_update _ []).
  - apply md5_finalize_spec. by apply (md5_chunks_spec _ _ []).
Qed.

Definition md5_junk : MD5Context :=
  {| md5_size := 5; md5_buffer := W4 1 2 3 4; md5_input := replicate 64 7; md5_digest := [] |}.

Lemma md5_witness :
  md5_digest (md5Finalize (foldl md5Update (md5Init md5_junk) [[97]; [98; 99]])) = RFC1321.md5 [97; 98; 99] /\
  md5String md5_junk [97; 98; 99] = RFC1321.md5 [97; 98; 99] /\
  md5File md5_junk [97; 98; 99] = RFC1321.md5 [97; 98; 99].
Proof. apply (md5_correct md5_junk [[97]; [98; 99]]); [done|by repeat constructor|done]. Defined.

(** The test suite of RFC 1321 has this digest of abc. *)
Example md5_abc : md5_blocks [97; 98; 99]
  = [0x90; 0x01; 0x50; 0x98; 0x3c; 0xd2; 0x4f; 0xb0; 0xd6; 0x96; 0x3f; 0x7d; 0x28; 0xe1; 0x7f; 0x72].
Proof. vm_compute. reflexivity. Qed.

Lemma stale_bytes_ok ctx0 msg : length (sha_data ctx0) = 128%nat -> Forall byte (sha_data ctx0) -> Forall byte msg ->
  length (stale_bytes ctx0 msg) = 8%nat /\ Forall byte (stale_bytes ctx0 msg).
Proof.
  intros Hl Hd Hm. unfold stale_bytes. set (p := msg ++ sha_pad (length msg)).
  assert (Hp : Forall byte p) by (apply Forall_app; split; [done|]; constructor; [done|]; by apply Forall_replicate).
  split; [|by destruct (length p <? 128)%nat; apply Forall_take, Forall_drop].
  rewrite length_take. destruct (Nat.ltb_spec (length p) 128); rewrite length_drop; lia.
Qed.

(** C32: SHA-512 as a stream, exactly.  For every way of cutting a message into
    chunks the digest is the one that FIPS 180-4 defines ([FIPS180.sha512_with]:
    constants from the roots of primes, functions, schedule and padding from the
    text of the standard) with one difference: the upper eight bytes of the
    length field, which [sha512_final] never writes and which are zero in the
    standard, are those that the buffer holds there, the bytes 112 to 119 of the
    previous block or of the uninitialised context.  When these are zero the
    digest is that of the standard. *)
Theorem sha512_exact ctx0 chunks (msg := concat chunks) : length (sha_data ctx0) = 128%nat -> Forall byte (sha_data ctx0) -> Forall byte msg ->
  let digest := FIPS180.sha512_with (stale_bytes ctx0 msg ++ big_endian 8 (8 * Z.of_nat (length msg))) msg in
  snd (sha512_final (foldl sha512_update (sha512_init ctx0) chunks)) = digest /\ sha512_sum ctx0 msg = digest /\
  (stale_bytes ctx0 msg = replicate 8 0 -> Z.of_nat (length msg) < 2 ^ 61 -> digest = FIPS180.sha512 msg).
Proof.
  intros H0 Hd Hb digest. pose proof (sha_after_init ctx0 H0) as Hi. destruct (stale_bytes_ok ctx0 msg H0 Hd Hb) as [Hl Hs].
  assert (Hdig : digest = sha_blocks (stale_bytes ctx0 msg) msg) by (symmetry; by apply sha_blocks_spec).
  split; [|split].
  - rewrite Hdig. apply sha_final_spec; [|done]. by apply (sha_updates ctx0 _ []).
  - rewrite Hdig. apply sha_final_spec; [|done]. by apply (sha_after_update ctx0 _ []).
  - intros Hz Hlen. unfold digest, FIPS180.sha512. rewrite Hz. f_equal. by apply length_field.
Qed.

Definition sha_clean : SHA512_CTX :=
  {| sha_state := []; sha_bitlen := 0; sha_data := replicate 128 0; sha_datalen := 0 |}.

Lemma sha512_exact_witness :
  snd (sha512_final (foldl sha512_update (sha512_init sha_clean) [[97]; [98; 99]])) = FIPS180.sha512 [97; 98; 99] /\
  sha512_sum sha_clean [97; 98; 99] = FIPS180.sha512 [97; 98; 99].
Proof.
  destruct (sha512_exact sha_clean [[97]; [98; 99]]) as (H1 & H2 & H3); [done|by apply Forall_replicate|by repeat constructor|].
  split; [exact (eq_trans H1 (H3 eq_refl eq_refl))|exact (eq_trans H2 (H3 eq_refl eq_refl))].
Defined.

(** For a message of 128 bytes of the letter a the digest is wrong even with
    a cleared context, since the length field takes over bytes of the message. *)
Theorem sha512_wrong_digest : sha512_sum sha_clean (replicate 128 97) <> FIPS180.sha512 (replicate 128 97).
Proof.
  unfold FIPS180.sha512. rewrite <- length_field, <- sha_blocks_spec; [|done|by apply Forall_replicate|by apply Forall_replicate|done].
  assert (E : (nth 0 (sha512_sum sha_clean (replicate 128 97)) 0 =? nth 0 (sha_blocks (replicate 8 0) (replicate 128 97)) 0) = false)
    by (vm_compute; reflexivity).
  intros H. rewrite H, Z.eqb_refl in E. discriminate E.
Qed.

(** The digest of abc in FIPS 180-4 starts with ddaf35a193617aba. *)
Example sha512_abc : take 8 (sha_blocks (replicate 8 0) [97; 98; 99]) = [0xdd; 0xaf; 0x35; 0xa1; 0x93; 0x61; 0x7a; 0xba].
Proof. vm_compute. reflexivity. Qed.
