(* ===== verification/LibcTime.v ===== *)
(** * The C library's calendar

    Model of the calendar functions of [Userspace/libc/src/std/time.c]:
    [gmtime_r], [localtime_r], [mktime] and [tzset], with the proleptic
    Gregorian calendar in closed form as reference.  [time_t] and [long] have
    64 bits, [int] has 32: the wraps are written where the operands can reach
    them, that is for the year, the carries, the time zone and the day of the
    month; the other sums are of the lengths of months and years, of which there
    are at most 2^32, and of times of day.  The theorems bound the times so that
    the year stays an [int]. *)

From Stdlib Require Import String.
From S2P Require Import Prelude CMem LibcStdlib.
Open Scope string_scope.
Open Scope list_scope.
Open Scope Z_scope.

Definition is_leap (year : Z) : bool :=
  (Z.rem year 4 =? 0) && (negb (Z.rem year 100 =? 0) || (Z.rem year 400 =? 0)).

(** [__is_leap(year) ? 366 : 365] *)
Definition year_days (year : Z) : Z := if is_leap year then 366 else 365.

Definition mdays : list Z := [31; 28; 31; 30; 31; 30; 31; 31; 30; 31; 30; 31].

Record tm := {
  tm_sec : Z; tm_min : Z; tm_hour : Z; tm_mday : Z; tm_mon : Z; tm_year : Z;
  tm_wday : Z; tm_yday : Z; tm_isdst : Z; tm_gmtoff : Z; tm_zone : string
}.

(** ** gmtime_r *)

(** [while (days < 0 || days >= (__is_leap(year) ? 366 : 365))] *)
Fixpoint year_loop (fuel : nat) (year days : Z) : outcome (Z * Z) :=
  match fuel with
  | O => OutOfFuel
  | S fuel =>
      if (days <? 0) || (days >=? year_days year) then
        let yd := year_days year in
        if days >=? yd then year_loop fuel (s32 (year + 1)) (s64 (days - yd))
        else
          let year := s32 (year - 1) in
          year_loop fuel year (s64 (days + year_days year))
      else Ret (year, days)
  end.

(** [for (mon = 0; mon < 12; mon++)]: [ms] are the months from [mon] on. *)
Fixpoint month_loop (ms : list Z) (leap : bool) (mon days : Z) : Z * Z :=
  match ms with
  | [] => (mon, days)
  | dim :: ms =>
      let dim := if (mon =? 1) && leap then dim + 1 else dim in
      if days >=? dim then month_loop ms leap (mon + 1) (days - dim) else (mon, days)
  end.

Definition gmtime_r (t : Z) : outcome tm :=
  let rem := Z.rem t 86400 in
  let days := Z.quot t 86400 in
  let '(rem, days) := if rem <? 0 then (rem + 86400, days - 1) else (rem, days) in
  let hour := Z.quot rem 3600 in
  let rem := Z.rem rem 3600 in
  let wday := Z.rem (4 + days) 7 in
  let wday := if wday <? 0 then wday + 7 else wday in
  let! r := year_loop (S (S (Z.to_nat (Z.abs days)))) 1970 days in
  let '(year, yday) := r in
  let '(mon, days) := month_loop mdays (is_leap year) 0 yday in
  Ret {| tm_sec := Z.rem rem 60; tm_min := Z.quot rem 60; tm_hour := hour; tm_mday := days + 1;
         tm_mon := mon; tm_year := s32 (year - 1900); tm_wday := wday; tm_yday := yday;
         tm_isdst := 0; tm_gmtoff := 0; tm_zone := "UTC" |}.

(** The global variable [timezone] is passed explicitly. *)
Definition localtime_r (timezone t : Z) : outcome tm := gmtime_r (s64 (t - timezone)).

(** ** mktime *)

(** [if (x >= n || x < 0) { carry += x / n; x %= n; if (x < 0) { x += n; carry--; } }] *)
Definition carry (x n up : Z) : Z * Z :=
  if (x >=? n) || (x <? 0) then
    let up := s32 (up + Z.quot x n) in
    let x := Z.rem x n in
    if x <? 0 then (x + n, s32 (up - 1)) else (x, up)
  else (x, up).

(** [for (int y = from; y < to; y++) days += __is_leap(y) ? 366 : 365;] *)
Fixpoint sum_years (n : nat) (y days : Z) : Z :=
  match n with O => days | S n => sum_years n (y + 1) (days + year_days y) end.

(** The loop of the years before 1970 subtracts. *)
Fixpoint sub_years (n : nat) (y days : Z) : Z :=
  match n with O => days | S n => sub_years n (y + 1) (days - year_days y) end.

(** [for (int i = 0; i < mon; i++)] *)
Fixpoint sum_months (ms : list Z) (leap : bool) (i mon days : Z) : Z :=
  match ms with
  | [] => days
  | dim :: ms =>
      if i <? mon then
        let days := days + dim in
        let days := if (i =? 1) && leap then days + 1 else days in
        sum_months ms leap (i + 1) mon days
      else days
  end.

(** The result is the time and the new content of [*timeptr]. *)
Definition mktime (timezone : Z) (timeptr : tm) : outcome (Z * tm) :=
  let year := s32 (tm_year timeptr + 1900) in
  let '(sec, min) := carry (tm_sec timeptr) 60 (tm_min timeptr) in
  let '(min, hour) := carry min 60 (tm_hour timeptr) in
  let '(hour, day) := carry hour 24 (tm_mday timeptr) in
  let '(mon, year) := carry (tm_mon timeptr) 12 year in
  let days :=
    if year >=? 1970 then sum_years (Z.to_nat (year - 1970)) 1970 0
    else sub_years (Z.to_nat (1970 - year)) year 0 in
  let days := sum_months mdays (is_leap year) 0 mon days in
  let days := days + s32 (day - 1) in
  let t := days * 86400 + hour * 3600 + min * 60 + sec in
  let t := s64 (s64 (t + timezone) - (if tm_isdst timeptr >? 0 then 3600 else 0)) in
  let! temp := localtime_r timezone t in
  Ret (t, temp).

(** ** tzset *)

Record tz_state := {
  tz_std : list Z; tz_dst : list Z; tz_timezone : Z; tz_daylight : Z
}.

Definition is_letter (c : Z) : bool := ((65 <=? c) && (c <=? 90)) || ((97 <=? c) && (c <=? 122)).

(** The loops that copy letters into a [char[16]]: the letters and the rest of
    the text.  Writing at index 16 or beyond is a fault, also for the NUL that
    ends the name. *)
Fixpoint copy_name (i : nat) (tz : list Z) : outcome (list Z * list Z) :=
  match tz with
  | c :: tz' =>
      if is_letter c then
        if (i <? 16)%nat then let! r := copy_name (S i) tz' in Ret (c :: fst r, snd r) else Fault
      else if (i <? 16)%nat then Ret ([], tz) else Fault
  | [] => if (i <? 16)%nat then Ret ([], []) else Fault
  end.

(** [while (tz[i] && tz[i] >= '0' && tz[i] <= '9')] with the [int] arithmetic. *)
Fixpoint tz_offset (offset : Z) (tz : list Z) : Z * list Z :=
  match tz with
  | c :: tz' => if isdigit c then tz_offset (s32 (offset * 10 + (c - 48))) tz' else (offset, tz)
  | [] => (offset, [])
  end.

Definition UTC : list Z := [85; 84; 67].

(** [tz] is the value of the variable TZ, [None] when it is not set. *)
Definition tzset (tz : option (list Z)) : outcome tz_state :=
  match tz with
  | None | Some [] => Ret {| tz_std := UTC; tz_dst := UTC; tz_timezone := 0; tz_daylight := 0 |}
  | Some tz =>
      let! r := copy_name 0 tz in
      let '(std, tz) := r in
      let '(sign, tz) :=
        match tz with
        | c :: tz' => if c =? 45 then (-1, tz') else if c =? 43 then (1, tz') else (1, tz)
        | [] => (1, tz)
        end in
      let '(offset, tz) := tz_offset 0 tz in
      let timezone := s32 (s32 (offset * 3600) * sign) in
      match tz with
      | [] => Ret {| tz_std := std; tz_dst := std; tz_timezone := timezone; tz_daylight := 0 |}
      | _ =>
          let! r := copy_name 0 tz in
          Ret {| tz_std := std; tz_dst := fst r; tz_timezone := timezone; tz_daylight := 1 |}
      end
  end.

(** ** The reference calendar *)

(** Days from 1 January 1970 to 1 January of a year, by counting leap years. *)
Definition days_before_year (y : Z) : Z :=
  365 * (y - 1970) + (y - 1969) / 4 - (y - 1901) / 100 + (y - 1601) / 400.

Definition days_before_month (leap : bool) (mon : Z) : Z :=
  nth (Z.to_nat mon) [0; 31; 59; 90; 120; 151; 181; 212; 243; 273; 304; 334] 0
    + (if leap && (1 <? mon) then 1 else 0).

(** Seconds since 1970 of a date and time of day. *)
Definition civil_seconds (year mon mday hour min sec : Z) : Z :=
  86400 * (days_before_year year + days_before_month (is_leap year) mon + (mday - 1))
    + 3600 * hour + 60 * min + sec.

(** ** Laws *)

Section calendar.

Lemma is_leap_mod y : is_leap y = (y mod 4 =? 0) && (negb (y mod 100 =? 0) || (y mod 400 =? 0)).
Proof.
  assert (H : forall n, 0 < n -> (Z.rem y n =? 0) = (y mod n =? 0)).
  { intros n Hn. pose proof (Z.rem_divide y n ltac:(lia)) as H1. pose proof (Z.mod_divide y n ltac:(lia)) as H2.
    destruct (Z.eqb_spec (Z.rem y n) 0), (Z.eqb_spec (y mod n) 0); tauto. }
  unfold is_leap. by rewrite !H by lia.
Qed.

Lemma div_step x n : 0 < n -> (x + 1) / n = x / n + (if (x + 1) mod n =? 0 then 1 else 0).
Proof.
  intros Hn. pose proof (Z.div_mod x n ltac:(lia)). pose proof (Z.mod_pos_bound x n Hn).
  pose proof (Z.div_mod (x + 1) n ltac:(lia)). pose proof (Z.mod_pos_bound (x + 1) n Hn).
  destruct (Z.eqb_spec ((x + 1) mod n) 0); nia.
Qed.

Lemma mod_shift y k n : 0 < n -> (y - k * n) mod n = y mod n.
Proof. intros Hn. replace (y - k * n) with (y + - k * n) by lia. apply Z_mod_plus_full. Qed.

(** The closed form grows by the length of the year. *)
Lemma days_before_year_succ y : days_before_year (y + 1) = days_before_year y + year_days y.
Proof.
  unfold days_before_year, year_days. rewrite is_leap_mod.
  replace (y + 1 - 1969) with (y - 1969 + 1) by lia. replace (y + 1 - 1901) with (y - 1901 + 1) by lia.
  replace (y + 1 - 1601) with (y - 1601 + 1) by lia. rewrite !div_step by lia.
  replace ((y - 1969 + 1) mod 4) with (y mod 4) by (rewrite <- (mod_shift y 492 4) by lia; f_equal; lia).
  replace ((y - 1901 + 1) mod 100) with (y mod 100) by (rewrite <- (mod_shift y 19 100) by lia; f_equal; lia).
  replace ((y - 1601 + 1) mod 400) with (y mod 400) by (rewrite <- (mod_shift y 4 400) by lia; f_equal; lia).
  assert (y mod 400 = 0 -> y mod 100 = 0) by dlia. assert (y mod 100 = 0 -> y mod 4 = 0) by dlia.
  destruct (Z.eqb_spec (y mod 4) 0), (Z.eqb_spec (y mod 100) 0), (Z.eqb_spec (y mod 400) 0); cbn [andb orb negb]; lia.
Qed.

Lemma days_before_year_1970 : days_before_year 1970 = 0.
Proof. reflexivity. Qed.

Lemma year_days_range y : 365 <= year_days y <= 366.
Proof. unfold year_days. destruct (is_leap y); lia. Qed.

(** The times whose year is an [int], with room to spare. *)
Definition max_time : Z := 3 * 2 ^ 54.
Definition max_days : Z := max_time / 86400 + 1.

Lemma year_upper y : days_before_year y <= max_days -> y <= 2 ^ 31 - 4000.
Proof. unfold days_before_year. change max_days with 625499948246. intros H. dlia. Qed.

Lemma year_lower y : - max_days - 366 <= days_before_year y -> - 2 ^ 31 + 4000 <= y.
Proof. unfold days_before_year. change max_days with 625499948246. intros H. dlia. Qed.

Lemma year_loop_up fuel y d : 0 <= d -> d < Z.of_nat fuel -> - max_days <= days_before_year y -> days_before_year y + d <= max_days ->
  exists y' d', year_loop fuel y d = Ret (y', d') /\ 0 <= d' < year_days y' /\
    days_before_year y' + d' = days_before_year y + d.
Proof.
  revert y d. induction fuel as [|fuel IH]; intros y d Hd Hf Hlo Hhi; [lia|]. cbn [year_loop].
  pose proof (year_days_range y). rewrite Z.geb_leb.
  destruct (Z.ltb_spec d 0); [lia|]. cbn [orb]. destruct (Z.leb_spec (year_days y) d).
  - pose proof (days_before_year_succ y) as Hs. pose proof (year_upper (y + 1) ltac:(lia)). pose proof (year_lower y ltac:(lia)).
    assert (Hmd : max_days = 625499948246) by reflexivity. rewrite !sw_small by (unfold in_s; lia).
    destruct (IH (y + 1) (d - year_days y)) as (y' & d' & -> & Hr & He); [lia..|].
    exists y', d'. split; [done|]. split; [done|]. rewrite He, days_before_year_succ. lia.
  - by exists y, d.
Qed.

Lemma year_loop_spec fuel y d : Z.abs d + 1 < Z.of_nat fuel -> - max_days <= days_before_year y <= max_days ->
  - max_days <= days_before_year y + d <= max_days ->
  exists y' d', year_loop fuel y d = Ret (y', d') /\ 0 <= d' < year_days y' /\
    days_before_year y' + d' = days_before_year y + d.
Proof.
  revert y d. induction fuel as [|fuel IH]; intros y d Hf Hy HD; [lia|].
  destruct (Z_lt_le_dec d 0) as [Hd|Hd]; [|apply year_loop_up; lia].
  cbn [year_loop]. pose proof (year_days_range y). pose proof (year_days_range (y - 1)). rewrite Z.geb_leb.
  destruct (Z.ltb_spec d 0); [|lia]. cbn [orb]. destruct (Z.leb_spec (year_days y) d); [lia|].
  pose proof (days_before_year_succ (y - 1)) as Hs. replace (y - 1 + 1) with y in Hs by lia.
  pose proof (year_upper y ltac:(lia)). pose proof (year_lower (y - 1) ltac:(lia)).
  assert (Hmd : max_days = 625499948246) by reflexivity. rewrite !sw_small by (unfold in_s; lia).
  destruct (decide (0 <= d + year_days (y - 1))) as [Hp|Hp].
  - destruct fuel as [|fuel]; [lia|]. cbn [year_loop]. rewrite Z.geb_leb.
    destruct (Z.ltb_spec (d + year_days (y - 1)) 0), (Z.leb_spec (year_days (y - 1)) (d + year_days (y - 1))); try lia.
    cbn [orb]. exists (y - 1), (d + year_days (y - 1)). split; [done|]. lia.
  - destruct (IH (y - 1) (d + year_days (y - 1))) as (y' & d' & -> & Hr & He); [lia..|].
    exists y', d'. split; [done|]. split; [done|]. lia.
Qed.

(** The twelve turns of the month loop, checked for every day of a year. *)
Definition month_ok (leap : bool) (d : Z) : bool :=
  let '(mon, r) := month_loop mdays leap 0 d in
  (0 <=? mon) && (mon <? 12) && (0 <=? r) && (r <? 31) && (days_before_month leap mon + r =? d)
  && (r <? nth (Z.to_nat mon) mdays 0 + (if (mon =? 1) && leap then 1 else 0)).

Lemma month_loop_spec (leap : bool) d : 0 <= d < (if leap then 366 else 365) ->
  exists mon r, month_loop mdays leap 0 d = (mon, r) /\ 0 <= mon < 12 /\ 0 <= r < 31 /\
    days_before_month leap mon + r = d /\
    r < nth (Z.to_nat mon) mdays 0 + (if (mon =? 1) && leap then 1 else 0).
Proof.
  intros Hd. assert (H : forallb (fun k => month_ok true (Z.of_nat k)) (seq 0 366) &&
                         forallb (fun k => month_ok false (Z.of_nat k)) (seq 0 365) = true)
    by (vm_compute; reflexivity).
  apply andb_prop in H as [H1 H2]. rewrite forallb_forall in H1, H2.
  assert (Hok : month_ok leap d = true).
  { destruct leap; [specialize (H1 (Z.to_nat d)) as H|specialize (H2 (Z.to_nat d)) as H];
      rewrite Z2Nat.id in H by lia; apply H, in_seq; lia. }
  unfold month_ok in Hok. destruct (month_loop mdays leap 0 d) as [mon r]. exists mon, r. split; [done|].
  repeat (apply andb_prop in Hok as [Hok ?]).
  repeat match goal with
  | H : (_ <=? _) = true |- _ => apply Z.leb_le in H
  | H : (_ <? _) = true |- _ => apply Z.ltb_lt in H
  | H : (_ =? _) = true |- _ => apply Z.eqb_eq in H
  end. done.
Qed.

Lemma sum_years_spec n y d : sum_years n y d = d + days_before_year (y + Z.of_nat n) - days_before_year y.
Proof.
  revert y d. induction n as [|n IH]; intros y d; cbn [sum_years].
  - rewrite Z.add_0_r. lia.
  - rewrite IH, days_before_year_succ. replace (y + 1 + Z.of_nat n) with (y + Z.of_nat (S n)) by lia. lia.
Qed.

Lemma sub_years_spec n y d : sub_years n y d = d - (days_before_year (y + Z.of_nat n) - days_before_year y).
Proof.
  revert y d. induction n as [|n IH]; intros y d; cbn [sub_years].
  - rewrite Z.add_0_r. lia.
  - rewrite IH, days_before_year_succ. replace (y + 1 + Z.of_nat n) with (y + Z.of_nat (S n)) by lia. lia.
Qed.

Lemma years_spec y :
  (if y >=? 1970 then sum_years (Z.to_nat (y - 1970)) 1970 0 else sub_years (Z.to_nat (1970 - y)) y 0)
    = days_before_year y.
Proof.
  rewrite Z.geb_leb. destruct (Z.leb_spec 1970 y).
  - rewrite sum_years_spec, days_before_year_1970. replace (1970 + Z.of_nat (Z.to_nat (y - 1970))) with y by lia. lia.
  - rewrite sub_years_spec. replace (y + Z.of_nat (Z.to_nat (1970 - y))) with 1970 by lia.
    rewrite days_before_year_1970. lia.
Qed.

Lemma sum_months_add ms leap i mon d : sum_months ms leap i mon d = d + sum_months ms leap i mon 0.
Proof.
  revert i d. induction ms as [|dim ms IH]; intros i d; cbn [sum_months]; [lia|].
  destruct (i <? mon); [|lia]. rewrite IH. destruct ((i =? 1) && leap); rewrite (IH _ (_ + _)); lia.
Qed.

Lemma sum_months_spec leap mon d : 0 <= mon < 12 ->
  sum_months mdays leap 0 mon d = d + days_before_month leap mon.
Proof.
  intros Hm. assert (Hc : mon = 0 \/ mon = 1 \/ mon = 2 \/ mon = 3 \/ mon = 4 \/ mon = 5 \/ mon = 6 \/
    mon = 7 \/ mon = 8 \/ mon = 9 \/ mon = 10 \/ mon = 11) by lia.
  rewrite sum_months_add. f_equal. destruct leap; repeat destruct Hc as [-> | Hc]; try subst mon; reflexivity.
Qed.

(** Quotient and remainder, corrected to round down. *)
Lemma floor_div x n : 0 < n ->
  (if Z.rem x n <? 0 then (Z.rem x n + n, Z.quot x n - 1) else (Z.rem x n, Z.quot x n)) = (x mod n, x / n).
Proof.
  intros Hn. pose proof (Z.quot_rem x n ltac:(lia)) as Hqr. destruct (Z_lt_le_dec x 0) as [Hx|Hx].
  - assert (- n < Z.rem x n <= 0).
    { replace x with (- - x) by lia. rewrite Z.rem_opp_l, Z.rem_mod_nonneg by lia.
      pose proof (Z.mod_pos_bound (- x) n Hn). lia. }
    destruct (Z.ltb_spec (Z.rem x n) 0).
    + rewrite <- (Z.mod_unique x n (Z.quot x n - 1) (Z.rem x n + n)) by lia.
      by rewrite <- (Z.div_unique x n (Z.quot x n - 1) (Z.rem x n + n)) by lia.
    + rewrite <- (Z.mod_unique x n (Z.quot x n) (Z.rem x n)) by lia.
      by rewrite <- (Z.div_unique x n (Z.quot x n) (Z.rem x n)) by lia.
  - rewrite Z.rem_mod_nonneg, Z.quot_div_nonneg by lia. pose proof (Z.mod_pos_bound x n Hn).
    by destruct (Z.ltb_spec (x mod n) 0); [lia|].
Qed.

(** The carries are floor divisions. *)
Lemma carry_small x n up : 0 <= x < n -> carry x n up = (x, up).
Proof. intros Hx. unfold carry. rewrite Z.geb_leb. by destruct (Z.leb_spec n x), (Z.ltb_spec x 0); try lia. Qed.


Lemma civil_time_of_day s : 0 <= s < 86400 ->
  3600 * (s / 3600) + 60 * (s mod 3600 / 60) + s mod 3600 mod 60 = s /\
  0 <= s / 3600 <= 23 /\ 0 <= s mod 3600 / 60 <= 59 /\ 0 <= s mod 3600 mod 60 <= 59.
Proof. intros Hs. dlia. Qed.

(** A broken-down time in its ranges, for the days and seconds of [t]. *)
Record tm_of (t : Z) (r : tm) : Prop := {
  of_seconds : civil_seconds (tm_year r + 1900) (tm_mon r) (tm_mday r) (tm_hour r) (tm_min r) (tm_sec r) = t;
  of_sec : 0 <= tm_sec r <= 59;
  of_min : 0 <= tm_min r <= 59;
  of_hour : 0 <= tm_hour r <= 23;
  of_mon : 0 <= tm_mon r < 12;
  of_mday : 1 <= tm_mday r <= nth (Z.to_nat (tm_mon r)) mdays 0
              + (if (tm_mon r =? 1) && is_leap (tm_year r + 1900) then 1 else 0);
  of_wday : tm_wday r = (4 + t / 86400) mod 7;
  of_yday : tm_yday r = t / 86400 - days_before_year (tm_year r + 1900);
  of_fixed : tm_isdst r = 0 /\ tm_gmtoff r = 0 /\ tm_zone r = "UTC"
}.

Lemma gmtime_spec t : - max_time <= t <= max_time ->
  exists r, gmtime_r t = Ret r /\ tm_of t r /\ - 2 ^ 31 + 4000 <= tm_year r + 1900 <= 2 ^ 31 - 4000.
Proof.
  intros Hbound. unfold gmtime_r. rewrite (floor_div t) by lia. set (days := t / 86400). set (s := t mod 86400).
  assert (Hs : 0 <= s < 86400) by (apply Z.mod_pos_bound; lia).
  assert (Ht : t = 86400 * days + s) by (apply Z.div_mod; lia).
  assert (Hmt : max_time = 54043195528445952) by reflexivity. assert (Hmd : max_days = 625499948246) by reflexivity.
  destruct (civil_time_of_day s Hs) as (Htod & Hh & Hm & Hsec).
  rewrite (Z.quot_div_nonneg s), (Z.rem_mod_nonneg s) by lia.
  rewrite Z.quot_div_nonneg, Z.rem_mod_nonneg by (try lia; apply Z.mod_pos_bound; lia).
  destruct (year_loop_spec (S (S (Z.to_nat (Z.abs days)))) 1970 days) as (y & d & -> & Hd & Hy);
    [lia|rewrite days_before_year_1970; lia..|].
  cbn [obind]. pose proof (year_days_range y) as Hyd. rewrite days_before_year_1970 in Hy.
  pose proof (year_upper y ltac:(lia)) as Hup. pose proof (year_lower y ltac:(lia)) as Hlow. unfold year_days in Hd.
  destruct (month_loop_spec (is_leap y) d Hd) as (mon & r & -> & Hmon & Hr & Hdm & Hlt).
  rewrite sw_small by (unfold in_s; lia). eexists. split; [done|]. split; [|cbn; lia].
  constructor; cbn [tm_sec tm_min tm_hour tm_mday tm_mon tm_year tm_wday tm_yday tm_isdst tm_gmtoff tm_zone];
    try replace (y - 1900 + 1900) with y by lia; try lia; try done.
  - unfold civil_seconds. lia.
  - pose proof (floor_div (4 + days) 7 ltac:(lia)) as Hf. fold days. by destruct (Z.rem (4 + days) 7 <? 0); injection Hf as -> _.
Qed.

End calendar.

Section parse_tz.

Lemma copy_name_spec i l rest : Forall (fun c => is_letter c = true) l ->
  match rest with [] => True | c :: _ => is_letter c = false end ->
  copy_name i (l ++ rest) = if (i + length l <? 16)%nat then Ret (l, rest) else Fault.
Proof.
  intros Hl Hr. revert i. induction Hl as [|c l Hc Hl IH]; intros i; cbn [app length].
  - rewrite Nat.add_0_r. destruct rest as [|c rest]; cbn [copy_name]; [done|]. by rewrite Hr.
  - cbn [copy_name]. rewrite Hc, IH, Nat.add_succ_r. cbn [Nat.add].
    destruct (Nat.ltb_spec i 16), (Nat.ltb_spec (S (i + length l)) 16); try lia; done.
Qed.

Lemma tz_digit_number base acc ds : Forall (fun c => isdigit c = true) ds ->
  number base acc ds = foldl (fun a c => a * base + (c - 48)) acc ds.
Proof.
  intros H. revert acc. induction H as [|c ds Hc H IH]; intros acc; [done|].
  cbn [number foldl]. unfold number in IH. rewrite IH. do 2 f_equal.
  unfold digit, digit_value. by rewrite Hc.
Qed.

Lemma isdigit_is_digit ds : Forall (fun c => isdigit c = true) ds -> Forall (fun c => is_digit 10 c = true) ds.
Proof.
  apply Forall_impl. intros c Hc. unfold is_digit, digit_value. rewrite Hc.
  unfold isdigit in Hc. apply andb_prop in Hc as [H1 H2]. apply Z.leb_le in H1, H2.
  apply Z.ltb_lt. lia.
Qed.

Lemma tz_offset_spec acc ds rest : 0 <= acc -> Forall (fun c => isdigit c = true) ds ->
  match rest with [] => True | c :: _ => isdigit c = false end ->
  number 10 acc ds < 2 ^ 31 -> tz_offset acc (ds ++ rest) = (number 10 acc ds, rest).
Proof.
  intros Ha Hds Hr. revert acc Ha. induction Hds as [|c ds Hc Hds IH]; intros acc Ha Hn; cbn [app tz_offset].
  - destruct rest as [|c rest]; [done|]. cbn [tz_offset]. by rewrite Hr.
  - rewrite Hc. assert (Hd : digit c = c - 48) by (unfold digit, digit_value; by rewrite Hc).
    assert (Hc9 : 48 <= c <= 57).
    { unfold isdigit in Hc. apply andb_prop in Hc as [H1 H2]. apply Z.leb_le in H1, H2. lia. }
    change (number 10 acc (c :: ds)) with (number 10 (acc * 10 + digit c) ds) in *. rewrite Hd in *.
    pose proof (number_ge 10 (acc * 10 + (c - 48)) ds ltac:(lia) ltac:(lia) (isdigit_is_digit _ Hds)).
    rewrite sw_small by (unfold in_s; lia). apply IH; lia.
Qed.
End parse_tz.

(** ** The properties *)

(** C33: [gmtime_r] ends for every time of at most [max_time] seconds before or
    after 1970 (some 1.7 thousand million years: the year is an [int], and no
    wrap-around happens), and breaks it down as the proleptic Gregorian calendar
    does: every field is in its range, the fields stand for exactly the given
    number of seconds since 1970, also before 1970, and the day of the week and
    of the year agree with the closed form. *)
Theorem gmtime_correct t : - max_time <= t <= max_time ->
  exists r, gmtime_r t = Ret r /\ tm_of t r /\ - 2 ^ 31 <= tm_year r < 2 ^ 31.
Proof. intros Ht. destruct (gmtime_spec t Ht) as (r & Hr & Ho & Hy). exists r. split_and!; [done|done|lia|lia]. Qed.

(** The last second before 1970 *)
Lemma gmtime_witness : exists r, gmtime_r (-1) = Ret r /\ tm_of (-1) r /\ - 2 ^ 31 <= tm_year r < 2 ^ 31.
Proof. apply (gmtime_correct (-1)). split; vm_compute; discriminate. Defined.



(** C35: the round trip.  In every zone, [mktime] of what [localtime_r] gives
    returns the original time and leaves the broken-down time unchanged, for the
    local times of at most [max_time] seconds before or after 1970. *)
Theorem mktime_localtime timezone t : in_s 64 t -> - max_time <= t - timezone <= max_time -> exists r,
  localtime_r timezone t = Ret r /\ mktime timezone r = Ret (t, r).
Proof.
  intros Ht64 Ht. assert (Hmt : max_time = 54043195528445952) by reflexivity.
  assert (Hz : s64 (t - timezone) = t - timezone) by (apply sw_small; unfold in_s; lia).
  destruct (gmtime_spec (t - timezone) Ht) as (r & Hr & Ho & Hy). exists r. unfold mktime, localtime_r. rewrite Hz. split; [done|].
  destruct Ho as [Hs Hsec Hmin Hhour Hmon Hmday _ _ (Hdst & _ & _)]. rewrite (sw_small 32 (tm_year r + 1900)) by (unfold in_s; lia).
  rewrite !carry_small by lia. rewrite Hdst. cbn [Z.gtb Z.compare]. rewrite sum_months_spec by lia.
  assert (Hmd : forallb (fun k => nth k mdays 0 <=? 31) (seq 0 12) = true) by reflexivity.
  rewrite forallb_forall in Hmd. specialize (Hmd (Z.to_nat (tm_mon r)) ltac:(apply in_seq; lia)). apply Z.leb_le in Hmd.
  rewrite (sw_small 32) by (unfold in_s; destruct ((tm_mon r =? 1) && is_leap (tm_year r + 1900)); lia).
  set (y := tm_year r + 1900) in *. rewrite years_spec. unfold civil_seconds in Hs.
  match goal with |- context [s64 (?X + timezone)] => replace (X + timezone) with t by lia end.
  rewrite (sw_small 64 t) by done. rewrite Z.sub_0_r, (sw_small 64 t) by done. cbv zeta. by rewrite Hz, Hr.
Qed.

Lemma mktime_localtime_witness : exists r, localtime_r 18000 1709251199 = Ret r /\ mktime 18000 r = Ret (1709251199, r).
Proof. apply (mktime_localtime 18000 1709251199); [by split|split; vm_compute; discriminate]. Defined.

(** [tzset] on a TZ value made of a name, an optional sign, a number of hours
    and an optional second name: the zone is the signed number of seconds, and
    the names are taken over when they have at most 15 letters; a first name of
    16 letters or more writes past the end of its buffer. *)
Theorem tzset_correct std sg ds dst (neg : bool) :
  Forall (fun c => is_letter c = true) std -> Forall (fun c => is_letter c = true) dst ->
  (if neg then sg = [45] else sg = [] \/ sg = [43]) ->
  ds <> [] -> Forall (fun c => isdigit c = true) ds -> number 10 0 ds * 3600 < 2 ^ 31 ->
  tzset (Some (std ++ sg ++ ds ++ dst)) =
    (if (length std <? 16)%nat && (length dst <? 16)%nat then
       Ret {| tz_std := std; tz_dst := match dst with [] => std | _ => dst end;
              tz_timezone := (if neg then -1 else 1) * (3600 * number 10 0 ds);
              tz_daylight := match dst with [] => 0 | _ => 1 end |}
     else Fault).
Proof.
  intros Hstd Hdst Hsg Hne Hds Hn. destruct ds as [|d ds]; [done|].
  assert (Hd : isdigit d = true) by (by inversion Hds).
  assert (Hd9 : 48 <= d <= 57).
  { unfold isdigit in Hd. apply andb_prop in Hd as [H1 H2]. apply Z.leb_le in H1, H2. lia. }
  pose proof (number_ge 10 0 (d :: ds) ltac:(lia) ltac:(lia) (isdigit_is_digit _ Hds)) as Hn0.
  assert (Hcn : copy_name 0 (std ++ sg ++ (d :: ds) ++ dst)
    = if (length std <? 16)%nat then Ret (std, sg ++ (d :: ds) ++ dst) else Fault).
  { apply (copy_name_spec 0); [done|]. unfold is_letter.
    destruct neg; [subst sg|destruct Hsg as [-> | ->]]; cbn [app]; zprune; done. }
  assert (Hsign : match sg ++ (d :: ds) ++ dst with
      | c :: tz' => if c =? 45 then (-1, tz') else if c =? 43 then (1, tz') else (1, sg ++ (d :: ds) ++ dst)
      | [] => (1, sg ++ (d :: ds) ++ dst) end = ((if neg then -1 else 1), (d :: ds) ++ dst)).
  { destruct neg; [subst sg; done|destruct Hsg as [-> | ->]; [|done]]. cbn [app].
    destruct (Z.eqb_spec d 45), (Z.eqb_spec d 43); try lia. done. }
  assert (Hoff : tz_offset 0 ((d :: ds) ++ dst) = (number 10 0 (d :: ds), dst)).
  { apply tz_offset_spec; [lia|done| |lia]. destruct Hdst as [|c dst Hc _]; [done|].
    unfold is_letter in Hc. unfold isdigit. revert Hc. zprune; done. }
  unfold tzset. destruct (std ++ sg ++ (d :: ds) ++ dst) as [|c0 l0] eqn:E.
  { by destruct std, sg. }
  rewrite Hcn. destruct (Nat.ltb_spec (length std) 16); cbn [obind andb]; [|done].
  rewrite Hsign, Hoff. set (n := number 10 0 (d :: ds)) in *.
  assert (Hz : s32 (s32 (n * 3600) * (if neg then -1 else 1)) = (if neg then -1 else 1) * (3600 * n)).
  { rewrite (sw_small 32 (n * 3600)) by (unfold in_s; lia). rewrite sw_small by (unfold in_s; destruct neg; lia). lia. }
  rewrite Hz. destruct Hdst as [|c dst Hc Hdst]; [done|].
  pose proof (copy_name_spec 0 (c :: dst) [] ltac:(by constructor) I) as Hcd. rewrite app_nil_r in Hcd.
  rewrite Hcd. cbn [Nat.add]. by destruct (length (c :: dst) <? 16)%nat.
Qed.

Lemma tzset_witness : tzset (Some [69; 83; 84; 53; 69; 68; 84])
  = Ret {| tz_std := [69; 83; 84]; tz_dst := [69; 68; 84]; tz_timezone := 18000; tz_daylight := 1 |}.
Proof.
  apply (tzset_correct [69; 83; 84] [] [53] [69; 68; 84] false);
    [by repeat constructor|by repeat constructor|by left|done|by repeat constructor|vm_compute; reflexivity].
Defined.
