(* ===== verification/CStruct.v ===== *)
(** * C structures in byte memory

    A structure is a fixed sequence of unsigned little-endian fields.  The
    class [Layout] connects a record with its bytes; reading a member is a
    projection of [rd], assigning members is [upd], which rewrites the fields
    that are not assigned with the values they already have. *)

From S2P Require Import Prelude CMem.

(** ** Sequences of fields *)

Fixpoint enc_fields (ws : list nat) (vs : list Z) : list Z :=
  match ws, vs with
  | w :: ws, v :: vs => le_bytes w v ++ enc_fields ws vs
  | _, _ => []
  end.

Fixpoint dec_fields (ws : list nat) (l : list Z) : list Z :=
  match ws with
  | [] => []
  | w :: ws => of_bytes (take w l) :: dec_fields ws (drop w l)
  end.

Definition in_fields (ws : list nat) (vs : list Z) : Prop := Forall2 (fun w v => in_u (8 * Z.of_nat w) v) ws vs.

Lemma enc_fields_length ws vs : length vs = length ws -> length (enc_fields ws vs) = sum_list ws.
Proof.
  revert vs. induction ws as [|w ws IH]; intros [|v vs] H; try done. cbn.
  rewrite length_app, le_bytes_length, IH by (cbn in H; lia). done.
Qed.

Lemma enc_fields_bytes ws vs : Forall byte (enc_fields ws vs).
Proof.
  revert vs. induction ws as [|w ws IH]; intros [|v vs]; cbn; try constructor.
  apply Forall_app. split; [apply le_bytes_bytes|apply IH].
Qed.

Lemma dec_fields_enc ws vs : in_fields ws vs -> dec_fields ws (enc_fields ws vs) = vs.
Proof.
  induction 1 as [|w v ws vs Hv _ IH]; [done|]. cbn [dec_fields enc_fields].
  rewrite take_app_length', drop_app_length', IH by (by rewrite le_bytes_length). f_equal.
  destruct (of_bytes_split w v Hv) as (l & <- & Hl & ->). by rewrite le_bytes_of_bytes.
Qed.

Lemma dec_fields_in ws l : Forall byte l -> length l = sum_list ws -> in_fields ws (dec_fields ws l).
Proof.
  revert l. induction ws as [|w ws IH]; intros l Hl Hn; [constructor|]. cbn in Hn. constructor.
  - pose proof (of_bytes_range (take w l) (Forall_take _ _ _ Hl)) as H.
    rewrite length_take_le in H by lia. exact H.
  - apply IH; [by apply Forall_drop|]. rewrite length_drop. lia.
Qed.

(** ** Structures *)

Class Layout (A : Type) := {
  widths : list nat;
  to_fields : A -> list Z;
  of_fields : list Z -> A;
  to_fields_length x : length (to_fields x) = length widths;
  of_to_fields x : of_fields (to_fields x) = x;
  to_of_fields vs : length vs = length widths -> to_fields (of_fields vs) = vs;
}.

Section structures.
Context {A : Type} {LA : Layout A}.
Implicit Types (m : mem) (a : Z) (x : A).

Definition sizeof : nat := sum_list widths.

Definition rd m a : outcome A :=
  let! l := load_bytes m a sizeof in Ret (of_fields (dec_fields widths l)).
Definition wr m a x : outcome mem := store_bytes m a (enc_fields widths (to_fields x)).
Definition upd m a (f : A -> A) : outcome mem := let! x := rd m a in wr m a (f x).

(** The members fit their fields. *)
Definition wf x : Prop := in_fields widths (to_fields x).
End structures.

(** Mapped memory that holds bytes. *)
Definition cells (m : mem) (a n : Z) : Prop :=
  forall x, a <= x < a + n -> exists b, m !! x = Some b /\ byte b.

(** [m'] is [m] but for the [n] bytes at [a], and still holds bytes there. *)
Definition touched (a n : Z) (m m' : mem) : Prop :=
  (forall x, x < a \/ a + n <= x -> m' !! x = m !! x) /\
  (forall x b, m !! x = Some b -> byte b -> exists b', m' !! x = Some b' /\ byte b').

Lemma touched_cells a n m m' b k : touched a n m m' -> cells m b k -> cells m' b k.
Proof. intros [_ H] Hc x Hx. destruct (Hc x Hx) as (v & Hv & Hb). by apply (H x v). Qed.

Lemma cells_sub m a n b k : cells m a n -> a <= b -> b + k <= a + n -> cells m b k.
Proof. intros H ? ? x Hx. apply H. lia. Qed.

Lemma cells_bytes m a (n : nat) : cells m a (Z.of_nat n) -> exists l, length l = n /\ bytes_at m a l.
Proof.
  revert a. induction n as [|n IH]; intros a H.
  { exists []. split; [done|apply bytes_at_nil]. }
  destruct (H a) as (b & Hb & Hbb); [lia|]. destruct (IH (a + 1)) as (l & <- & Hl).
  { apply (cells_sub m a (Z.of_nat (S n))); [done|lia|lia]. }
  exists (b :: l). split; [done|]. by apply bytes_at_cons.
Qed.

Definition cells_check (m : mem) (a n : Z) : bool :=
  forallb (fun x => match m !! x with Some b => bool_decide (0 <= b < 256) | None => false end) (seqZ a n).

Lemma cells_checked m a n : cells_check m a n = true -> cells m a n.
Proof.
  unfold cells_check. rewrite forallb_forall. intros H x Hx.
  specialize (H x ltac:(by apply list_elem_of_In, elem_of_seqZ)). destruct (m !! x) as [b|]; [|done].
  exists b. split; [done|]. by apply bool_decide_eq_true in H.
Qed.

Section structure_laws.
Context {A : Type} {LA : Layout A}.
Implicit Types (m : mem) (a : Z) (x : A).

Lemma rd_cells m a : cells m a (Z.of_nat sizeof) -> exists x, rd m a = Ret x /\ wf x.
Proof.
  intros (l & Hn & Hl)%cells_bytes. unfold rd. rewrite <- Hn, load_bytes_at by done. cbn.
  eexists. split; [done|]. unfold wf. rewrite to_of_fields.
  - apply dec_fields_in; [by apply bytes_at_byte in Hl|by rewrite Hn].
  - clear. generalize l. induction widths as [|w ws IH]; intros k; [done|]. cbn. by rewrite IH.
Qed.

Lemma rd_wf m a x : rd m a = Ret x -> cells m a (Z.of_nat sizeof) -> wf x.
Proof. intros Hr Hc. destruct (rd_cells m a Hc) as (y & Hy & Hw). rewrite Hr in Hy. by injection Hy as <-. Qed.

Lemma rd_ext m m' a : (forall y, a <= y < a + Z.of_nat sizeof -> m' !! y = m !! y) -> rd m' a = rd m a.
Proof.
  intros H. unfold rd. f_equal. revert a H. generalize sizeof as n. induction n as [|n IH]; intros a H; [done|].
  cbn. unfold load8. rewrite H by lia. destruct (m !! a); [|done]. cbn. rewrite IH; [done|].
  intros y Hy. apply H. lia.
Qed.

Lemma wr_spec m a x : wf x -> cells m a (Z.of_nat sizeof) ->
  exists m', wr m a x = Ret m' /\ rd m' a = Ret x /\ touched a (Z.of_nat sizeof) m m'.
Proof.
  intros Hx Hc. unfold wr.
  pose proof (enc_fields_bytes widths (to_fields x)) as Hb.
  assert (Hn : length (enc_fields widths (to_fields x)) = sizeof)
    by (apply enc_fields_length, to_fields_length).
  rewrite store_bytes_mapped; [|done|].
  2:{ rewrite Hn. intros i Hi. destruct (Hc (a + i)) as (b & Hbb & _); [lia|]. by eexists. }
  eexists. split; [done|]. split; [|split].
  - unfold rd. rewrite <- Hn, load_bytes_at by (by apply bytes_at_write). cbn.
    by rewrite dec_fields_enc, of_to_fields.
  - intros y Hy. apply lookup_write_bytes_out. by rewrite Hn.
  - intros y b Hy Hyb. rewrite lookup_write_bytes. case_decide; [|by exists b].
    destruct (lookup_lt_is_Some_2 (enc_fields widths (to_fields x)) (Z.to_nat (y - a))) as [v Hv]; [lia|].
    exists v. split; [done|]. by apply (Forall_lookup_1 _ _ _ _ Hb Hv).
Qed.

Lemma upd_spec m a f x : rd m a = Ret x -> wf (f x) -> cells m a (Z.of_nat sizeof) ->
  exists m', upd m a f = Ret m' /\ rd m' a = Ret (f x) /\ touched a (Z.of_nat sizeof) m m'.
Proof. intros Hr Hf Hc. unfold upd. rewrite Hr. by apply wr_spec. Qed.
End structure_laws.

(** ** Words in memory *)

Definition word_at (m : mem) (a v : Z) : mem := write_bytes m a (le_bytes 8 v).

Lemma store_word m a v : cells m a 8 -> store_le m a 8 v = Ret (word_at m a v).
Proof.
  intros H. unfold store_le. apply store_bytes_mapped; [apply le_bytes_bytes|]. rewrite le_bytes_length.
  intros i Hi. destruct (H (a + i)) as (b & Hb & _); [lia|by eexists].
Qed.

Lemma word_at_touched m a v : cells m a 8 -> touched a 8 m (word_at m a v).
Proof.
  intros Hc. split.
  - intros x Hx. apply lookup_write_bytes_out. rewrite le_bytes_length. lia.
  - intros x b Hb Hbb. unfold word_at. rewrite lookup_write_bytes, le_bytes_length. case_decide; [|by exists b].
    destruct (lookup_lt_is_Some_2 (le_bytes 8 v) (Z.to_nat (x - a))) as [w Hw]; [rewrite le_bytes_length; lia|].
    exists w. split; [done|]. by apply (Forall_lookup_1 _ _ _ _ (le_bytes_bytes 8 v) Hw).
Qed.

Lemma load_le_ext m m' a n : (forall x, a <= x < a + Z.of_nat n -> m' !! x = m !! x) -> load_le m' a n = load_le m a n.
Proof.
  intros H. unfold load_le. f_equal. revert a H. induction n as [|n IH]; intros a H; [done|].
  cbn. unfold load8. rewrite H by lia. destruct (m !! a); [|done]. cbn. rewrite IH; [done|]. intros x Hx. apply H. lia.
Qed.

Lemma load_word_at m a v : load_le (word_at m a v) a 8 = Ret (u64 v).
Proof.
  unfold word_at. erewrite (load_le_at _ _ (le_bytes 8 v)); [|apply le_bytes_length|apply bytes_at_write, le_bytes_bytes].
  f_equal. cbn [le_bytes of_bytes]. unfold uw. dlia.
Qed.
