(* ===== verification/KernelMem.v ===== *)
(** * The kernel's memory calls

    What the programs of the C library ask of the kernel, as a class, and a
    kernel that satisfies it.  The kernel itself is not modelled here. *)

From S2P Require Import Prelude CMem CStruct LibcErrno.

(** What the C library asks of the kernel: [MemoryMap] gives a negative error
    or the page-aligned address of [len] bytes that were not mapped before;
    [MemoryProtect] returns a status; [MemoryUnmap] removes the mapping. *)
Class Kernel := {
  sys_MemoryMap : mem -> Z -> Z * mem;
  sys_MemoryProtect : mem -> Z -> Z -> Z;
  sys_MemoryUnmap : mem -> Z -> Z -> Z * mem;
  sys_MemoryMap_spec m len : 0 < len ->
    let '(r, m') := sys_MemoryMap m len in
    - 4096 < r < 0 /\ m' = m \/
    0 < r /\ r mod 4096 = 0 /\ r + len < 2 ^ 63 /\ cells m' r len /\
    (forall x, r <= x < r + len -> m !! x = None) /\
    (forall x, x < r \/ r + len <= x -> m' !! x = m !! x);
  sys_MemoryProtect_spec m a len : - 4096 < sys_MemoryProtect m a len <= 0;
  sys_MemoryUnmap_spec m a len : 0 < a -> 0 < len ->
    forall x, snd (sys_MemoryUnmap m a len) !! x
      = if decide (a <= x < a + len) then None else m !! x
}.

(** ** A kernel *)

Fixpoint unmap (m : mem) (a : Z) (n : nat) : mem :=
  match n with O => m | S n => unmap (delete a m) (a + 1) n end.

Lemma lookup_unmap n : forall m a x, unmap m a n !! x = if decide (a <= x < a + Z.of_nat n) then None else m !! x.
Proof.
  induction n as [|n IH]; intros m a x; cbn [unmap]; [by rewrite decide_False by lia|].
  rewrite IH. destruct (decide (a = x)) as [<-|Hne].
  - rewrite decide_False, lookup_delete_eq by lia. by rewrite decide_True by lia.
  - rewrite lookup_delete_ne by done. repeat case_decide; try lia; done.
Qed.

Lemma cells_zeros m a n : 0 <= n -> cells (write_bytes m a (replicate (Z.to_nat n) 0)) a n.
Proof.
  intros Hn x Hx. exists 0. rewrite lookup_write_bytes, decide_True by (rewrite length_replicate; lia).
  split; [apply lookup_replicate_2; lia|unfold byte; lia].
Qed.

(** Each mapping goes to the pages after everything that is mapped. *)
#[refine] Definition bump_kernel : Kernel := {|
  sys_MemoryMap m len :=
    let r := (mem_top m / 4096 + 1) * 4096 in
    if r + len <? 2 ^ 63 then (r, write_bytes m r (replicate (Z.to_nat len) 0)) else (- ENOMEM, m);
  sys_MemoryProtect _ _ _ := 0;
  sys_MemoryUnmap m a len := (0, unmap m a (Z.to_nat len)) |}.
Proof.
  - intros m len Hlen. destruct (mem_top_spec m) as [H1 H2]. cbv zeta. set (r := (mem_top m / 4096 + 1) * 4096).
    assert (Hr : mem_top m < r /\ 0 < r) by (unfold r; dlia).
    destruct (Z.ltb_spec (r + len) (2 ^ 63)); [right|left; split; [vm_compute; done|done]].
    split_and!; [lia|apply Z_mod_mult|done|apply cells_zeros; lia| |].
    + intros x Hx. destruct (m !! x) eqn:E; [|done]. specialize (H2 x ltac:(by eexists)). lia.
    + intros x Hx. apply lookup_write_bytes_out. rewrite length_replicate. lia.
  - intros m a len. lia.
  - intros m a len Ha Hlen x. cbn [snd]. rewrite lookup_unmap. by rewrite Z2Nat.id by lia.
Defined.
