(* ===== verification/LinkedList.v ===== *)
(** * Doubly linked lists in a store of structures

    The structures that the C code links with [prev] and [next] pointers, and
    the relation between the store and the list of addresses and contents it
    represents.  A pointer is an address, the null pointer is 0. *)

From S2P Require Import Prelude.

Record node (A : Type) : Type := Node { prev : Z; next : Z; data : A }.
Arguments Node {A} prev next data.
Arguments prev {A} n.
Arguments next {A} n.
Arguments data {A} n.

Section dll.
Context {A : Type}.
Implicit Types (h : Z -> option (node A)) (l : list (Z * A)) (a x p : Z).

(** First and last address of a list, or what stands at its ends. *)
Definition first_of l (nx : Z) : Z := match l with [] => nx | (a, _) :: _ => a end.
Fixpoint last_of (pv : Z) l : Z := match l with [] => pv | (a, _) :: l => last_of a l end.

(** The segment [l], entered from [pv] and left to [nx]. *)
Fixpoint dll h (pv : Z) l (nx : Z) : Prop :=
  match l with
  | [] => True
  | (a, d) :: l => a <> 0 /\ h a = Some (Node pv (first_of l nx) d) /\ dll h a l nx
  end.

Lemma last_of_in pv l : l <> [] -> last_of pv l ∈ l.*1.
Proof.
  revert pv. induction l as [|[a d] l IH]; intros pv Hl; [done|]. cbn.
  destruct l as [|[b e] l]; [apply list_elem_of_here|]. apply list_elem_of_further. by apply IH.
Qed.

Lemma last_of_app pv l1 l2 : last_of pv (l1 ++ l2) = last_of (last_of pv l1) l2.
Proof.
  revert pv. induction l1 as [|[a d] l1 IH]; intros pv; [done|].
  cbn [app last_of]. by rewrite IH.
Qed.

Lemma first_of_app l1 l2 nx : first_of (l1 ++ l2) nx = first_of l1 (first_of l2 nx).
Proof. by destruct l1 as [|[a d] l1]. Qed.

Lemma dll_app h pv l1 l2 nx :
  dll h pv (l1 ++ l2) nx <-> dll h pv l1 (first_of l2 nx) /\ dll h (last_of pv l1) l2 nx.
Proof.
  revert pv. induction l1 as [|[a d] l1 IH]; intros pv; cbn [app dll]; [tauto|].
  rewrite IH, first_of_app. tauto.
Qed.

Lemma dll_frame h h' pv l nx : (forall a, a ∈ l.*1 -> h' a = h a) -> dll h pv l nx -> dll h' pv l nx.
Proof.
  revert pv. induction l as [|[a d] l IH]; intros pv Hf; cbn [dll fmap list_fmap] in *; [done|].
  intros (Ha & Hl & H). split; [done|]. split.
  - rewrite Hf; [done|]. cbn. apply list_elem_of_here.
  - apply IH; [|done]. intros b Hb. apply Hf. by apply list_elem_of_further.
Qed.

(** One node of the list. *)
Lemma dll_lookup h pv l1 a d l2 nx : dll h pv (l1 ++ (a, d) :: l2) nx ->
  a <> 0 /\ h a = Some (Node (last_of pv l1) (first_of l2 nx) d).
Proof. intros [_ (Ha & Hl & _)]%dll_app. done. Qed.

Lemma dll_nonzero h pv l nx a : dll h pv l nx -> a ∈ l.*1 -> a <> 0.
Proof.
  intros H (y & -> & Hy)%list_elem_of_fmap. apply list_elem_of_split in Hy as (l1 & l2 & ->).
  destruct y as [b d]. by apply dll_lookup in H as [? _].
Qed.

Lemma dll_in h pv l nx a : dll h pv l nx -> a ∈ l.*1 -> is_Some (h a).
Proof.
  intros H (y & -> & Hy)%list_elem_of_fmap. apply list_elem_of_split in Hy as (l1 & l2 & ->).
  destruct y as [b d]. apply dll_lookup in H as [_ ?]. by eexists.
Qed.

(** Let the segment leave to, or be entered from, another node. *)
Lemma dll_retarget_next h h' pv l nx nx' : dll h pv l nx -> NoDup l.*1 ->
  (forall a n, a ∈ l.*1 -> h a = Some n ->
     h' a = Some (Node (prev n) (if a =? last_of pv l then nx' else next n) (data n))) ->
  dll h' pv l nx'.
Proof.
  revert pv. induction l as [|[a d] l IH]; intros pv H Hnd Hr; [done|].
  cbn in Hnd. apply list.NoDup_cons in Hnd as [Ha Hnd]. destruct H as (H0 & Hl & H). cbn [dll].
  split; [done|]. split.
  - erewrite Hr; [|cbn; apply list_elem_of_here|exact Hl]. cbn. destruct l as [|[b e] l].
    + cbn. by rewrite Z.eqb_refl.
    + destruct (Z.eqb_spec a (last_of a ((b, e) :: l))) as [E|]; [|done].
      exfalso. apply Ha. rewrite E. by apply last_of_in.
  - apply IH; [done|done|]. intros b n Hb Hn. apply Hr; [cbn; by apply list_elem_of_further|done].
Qed.

Lemma dll_retarget_prev h h' pv pv' l nx : dll h pv l nx -> NoDup l.*1 ->
  (forall a n, a ∈ l.*1 -> h a = Some n ->
     h' a = Some (Node (if a =? first_of l nx then pv' else prev n) (next n) (data n))) ->
  dll h' pv' l nx.
Proof.
  destruct l as [|[a d] l]; [done|]. intros (H0 & Hl & H) Hnd Hr. cbn in Hnd.
  apply list.NoDup_cons in Hnd as [Ha Hnd]. cbn [dll]. split; [done|]. split.
  - erewrite Hr; [|cbn; apply list_elem_of_here|exact Hl]. cbn. by rewrite Z.eqb_refl.
  - apply (dll_frame h); [|done]. intros b Hb. pose proof (dll_in _ _ _ _ _ H Hb) as [n Hn].
    rewrite Hn. erewrite Hr; [|cbn; by apply list_elem_of_further|exact Hn]. cbn.
    destruct (Z.eqb_spec b a) as [->|]; [done|]. by destruct n.
Qed.

(** The pointers of node [a] when [before] is made to point to [nx] and [after]
    back to [pv]. *)
Definition relink (before after pv nx : Z) (a : Z) (n : node A) : node A :=
  Node (if a =? after then pv else prev n) (if a =? before then nx else next n) (data n).

(** The neighbours of two adjacent segments, for lists in which no address
    occurs twice and whose ends are null. *)
Lemma seam_apart h l1 l2 : dll h 0 l1 (first_of l2 0) -> dll h (last_of 0 l1) l2 0 -> NoDup (l1 ++ l2).*1 ->
  NoDup l1.*1 /\ NoDup l2.*1 /\
  (forall a, a ∈ l1.*1 -> a <> first_of l2 0) /\ (forall a, a ∈ l2.*1 -> a <> last_of 0 l1).
Proof.
  intros H1 H2 Hnd. rewrite fmap_app in Hnd. apply list.NoDup_app in Hnd as (Hn1 & Hd & Hn2).
  split; [done|]. split; [done|]. split; intros a Ha ->.
  - destruct l2 as [|[b e] l2]; [by apply (dll_nonzero _ _ _ _ _ H1 Ha)|]. apply (Hd _ Ha). apply list_elem_of_here.
  - destruct l1 as [|[b e] l1]; [by apply (dll_nonzero _ _ _ _ _ H2 Ha)|].
    apply (Hd _ (last_of_in 0 ((b, e) :: l1) ltac:(done)) Ha).
Qed.

(** Linking in a new node between two segments. *)
Lemma dll_insert h h' l1 x d l2 : dll h 0 (l1 ++ l2) 0 -> NoDup (l1 ++ l2).*1 -> x <> 0 ->
  h' x = Some (Node (last_of 0 l1) (first_of l2 0) d) ->
  (forall a n, a ∈ (l1 ++ l2).*1 -> h a = Some n ->
     h' a = Some (relink (last_of 0 l1) (first_of l2 0) x x a n)) ->
  dll h' 0 (l1 ++ (x, d) :: l2) 0.
Proof.
  intros H Hnd Hx Hh Hr. apply dll_app in H as [H1 H2].
  destruct (seam_apart h l1 l2 H1 H2 Hnd) as (Hn1 & Hn2 & Ha1 & Ha2). rewrite fmap_app in Hr.
  apply dll_app. split; [|cbn; split; [done|]; split; [done|]].
  - eapply (dll_retarget_next h); [exact H1|done|]. intros a n Ha Hn.
    rewrite (Hr a n) by (done || set_solver). unfold relink.
    destruct (Z.eqb_spec a (first_of l2 0)); [exfalso; by apply (Ha1 a)|done].
  - eapply (dll_retarget_prev h); [exact H2|done|]. intros a n Ha Hn.
    rewrite (Hr a n) by (done || set_solver). unfold relink.
    destruct (Z.eqb_spec a (last_of 0 l1)); [exfalso; by apply (Ha2 a)|done].
Qed.

(** Unlinking a node. *)
Lemma dll_remove h h' l1 x d l2 : dll h 0 (l1 ++ (x, d) :: l2) 0 -> NoDup (l1 ++ (x, d) :: l2).*1 ->
  (forall a n, a ∈ (l1 ++ l2).*1 -> h a = Some n ->
     h' a = Some (relink (last_of 0 l1) (first_of l2 0) (last_of 0 l1) (first_of l2 0) a n)) ->
  dll h' 0 (l1 ++ l2) 0.
Proof.
  intros H Hnd Hr. apply dll_app in H as [H1 (H0 & Hl & H2)].
  rewrite fmap_app in Hnd, Hr. cbn in Hnd. apply list.NoDup_app in Hnd as (Hn1 & Hd & Hn2).
  apply list.NoDup_cons in Hn2 as [Hx2 Hn2].
  assert (Ha1 : forall a, a ∈ l1.*1 -> a <> first_of l2 0).
  { intros a Ha ->. destruct l2 as [|[b e] l2]; [by apply (dll_nonzero _ _ _ _ _ H1 Ha)|].
    apply (Hd _ Ha). apply list_elem_of_further, list_elem_of_here. }
  assert (Ha2 : forall a, a ∈ l2.*1 -> a <> last_of 0 l1).
  { intros a Ha ->. destruct l1 as [|[b e] l1]; [by apply (dll_nonzero _ _ _ _ _ H2 Ha)|].
    apply (Hd _ (last_of_in 0 ((b, e) :: l1) ltac:(done))). by apply list_elem_of_further. }
  apply dll_app. split.
  - eapply (dll_retarget_next h); [exact H1|done|]. intros a n Ha Hn.
    rewrite (Hr a n) by (done || set_solver). unfold relink.
    destruct (Z.eqb_spec a (first_of l2 0)); [exfalso; by apply (Ha1 a)|done].
  - eapply (dll_retarget_prev h); [exact H2|done|]. intros a n Ha Hn.
    rewrite (Hr a n) by (done || set_solver). unfold relink.
    destruct (Z.eqb_spec a (last_of 0 l1)); [exfalso; by apply (Ha2 a)|done].
Qed.

(** Changing the contents of a node. *)
Lemma dll_update h h' l1 x d d' l2 pv nx : dll h pv (l1 ++ (x, d) :: l2) nx -> NoDup (l1 ++ (x, d) :: l2).*1 ->
  h' x = Some (Node (last_of pv l1) (first_of l2 nx) d') ->
  (forall a, a ∈ (l1 ++ l2).*1 -> h' a = h a) ->
  dll h' pv (l1 ++ (x, d') :: l2) nx.
Proof.
  intros H Hnd Hx Hf. rewrite fmap_app in Hf. apply dll_app in H as [H1 (H0 & Hl & H2)]. apply dll_app. split.
  - apply (dll_frame h); [|done]. intros a Ha. apply Hf. set_solver.
  - cbn. split; [done|]. split; [done|]. apply (dll_frame h); [|done]. intros a Ha. apply Hf. set_solver.
Qed.
End dll.
