(* ===== verification/Liballoc.v ===== *)
(** * The allocator of the C library

    [src/Userspace/libc/src/mem/liballoc_1_1.c] with its hooks in
    [liballoc.c], which take pages from the kernel through [sys/mman.h].

    A system block ("major") starts with a [liballoc_major]; the allocations
    in it ("minors") start with a [liballoc_minor].  Both are linked in both
    directions, live in the byte memory and are read and written there; the
    static variables of the two files are the record [heap].  The kernel's
    memory calls are the class [Kernel] of [KernelMem]. *)

From S2P Require Import Prelude CMem CStruct LinkedList LibcErrno KernelMem.

(** ** Data *)

Record major_d := Major { maj_pages : Z; maj_size : Z; maj_usage : Z; maj_pad : Z; maj_first : Z }.
Record minor_d := Minor { min_block : Z; min_magic : Z; min_size : Z; min_req_size : Z }.

(** [struct liballoc_major]: four bytes of padding before [first]. *)
Abbreviation major := (node major_d).
(** [struct liballoc_minor]: four bytes of padding at the end. *)
Abbreviation minor := (node minor_d).

#[export, refine] Instance major_layout : Layout major := {|
  widths := [8; 8; 4; 4; 4; 4; 8]%nat;
  to_fields n := let '(Node p x (Major pages size usage pad first)) := n in [p; x; pages; size; usage; pad; first];
  of_fields l :=
    match l with
    | [p; x; pages; size; usage; pad; first] => Node p x (Major pages size usage pad first)
    | _ => Node 0 0 (Major 0 0 0 0 0)
    end |}.
Proof.
  - by intros [p x []].
  - by intros [p x []].
  - intros vs H. by destruct vs as [|? [|? [|? [|? [|? [|? [|? [|? ?]]]]]]]].
Defined.

#[export, refine] Instance minor_layout : Layout minor := {|
  widths := [8; 8; 8; 4; 4; 4]%nat;
  to_fields n := let '(Node p x (Minor block magic size req)) := n in [p; x; block; magic; size; req];
  of_fields l :=
    match l with
    | [p; x; block; magic; size; req] => Node p x (Minor block magic size req)
    | _ => Node 0 0 (Minor 0 0 0 0)
    end |}.
Proof.
  - by intros [p x []].
  - by intros [p x []].
  - intros vs H. by destruct vs as [|? [|? [|? [|? [|? [|? [|? ?]]]]]]].
Defined.

(** [sizeof] of both structures, padding included. *)
Definition HDR : Z := 40.

Definition ALIGNMENT : Z := 16.
Definition ALIGN_INFO : Z := 16.
Definition LIBALLOC_MAGIC : Z := 0xc001c0de.
Definition LIBALLOC_DEAD : Z := 0xdeaddead.
Definition l_pageSize : Z := 4096.
Definition l_pageCount : Z := 16.

(** The static variables, the mutex, [errno] and the memory. *)
Record heap := Heap {
  mm : mem;
  l_memRoot : Z;
  l_bestBet : Z;
  l_allocated : Z;
  l_inuse : Z;
  l_warningCount : Z;
  l_errorCount : Z;
  l_possibleOverruns : Z;
  mutex : Z;
  page_size : Z;
  cur_errno : Z
}.

Definition set_mm (s : heap) m := Heap m (l_memRoot s) (l_bestBet s) (l_allocated s) (l_inuse s) (l_warningCount s)
  (l_errorCount s) (l_possibleOverruns s) (mutex s) (page_size s) (cur_errno s).
Definition set_memRoot (s : heap) r := Heap (mm s) r (l_bestBet s) (l_allocated s) (l_inuse s) (l_warningCount s)
  (l_errorCount s) (l_possibleOverruns s) (mutex s) (page_size s) (cur_errno s).
Definition set_bestBet (s : heap) b := Heap (mm s) (l_memRoot s) b (l_allocated s) (l_inuse s) (l_warningCount s)
  (l_errorCount s) (l_possibleOverruns s) (mutex s) (page_size s) (cur_errno s).
Definition set_allocated (s : heap) v := Heap (mm s) (l_memRoot s) (l_bestBet s) v (l_inuse s) (l_warningCount s)
  (l_errorCount s) (l_possibleOverruns s) (mutex s) (page_size s) (cur_errno s).
Definition set_inuse (s : heap) v := Heap (mm s) (l_memRoot s) (l_bestBet s) (l_allocated s) v (l_warningCount s)
  (l_errorCount s) (l_possibleOverruns s) (mutex s) (page_size s) (cur_errno s).
Definition warn (s : heap) := Heap (mm s) (l_memRoot s) (l_bestBet s) (l_allocated s) (l_inuse s)
  (s64 (l_warningCount s + 1)) (l_errorCount s) (l_possibleOverruns s) (mutex s) (page_size s) (cur_errno s).
Definition set_errors (s : heap) e o := Heap (mm s) (l_memRoot s) (l_bestBet s) (l_allocated s) (l_inuse s)
  (l_warningCount s) e o (mutex s) (page_size s) (cur_errno s).
Definition set_mutex (s : heap) v := Heap (mm s) (l_memRoot s) (l_bestBet s) (l_allocated s) (l_inuse s)
  (l_warningCount s) (l_errorCount s) (l_possibleOverruns s) v (page_size s) (cur_errno s).
Definition set_os (s : heap) m ps e := Heap m (l_memRoot s) (l_bestBet s) (l_allocated s) (l_inuse s)
  (l_warningCount s) (l_errorCount s) (l_possibleOverruns s) (mutex s) ps e.

(** Reading a structure, assigning its members. *)
Definition get_maj (s : heap) (a : Z) : outcome major := rd (mm s) a.
Definition get_min (s : heap) (a : Z) : outcome minor := rd (mm s) a.
Definition upd_maj (s : heap) (a : Z) (f : major -> major) : outcome heap :=
  let! m := upd (mm s) a f in Ret (set_mm s m).
Definition upd_min (s : heap) (a : Z) (f : minor -> minor) : outcome heap :=
  let! m := upd (mm s) a f in Ret (set_mm s m).

Definition set_prev {A} (p : Z) (n : node A) : node A := Node p (next n) (data n).
Definition set_next {A} (x : Z) (n : node A) : node A := Node (prev n) x (data n).
Definition set_first (f : Z) (n : major) : major :=
  let d := data n in Node (prev n) (next n) (Major (maj_pages d) (maj_size d) (maj_usage d) (maj_pad d) f).
Definition set_usage (u : Z) (n : major) : major :=
  let d := data n in Node (prev n) (next n) (Major (maj_pages d) (maj_size d) u (maj_pad d) (maj_first d)).
Definition set_magic (v : Z) (n : minor) : minor :=
  let d := data n in Node (prev n) (next n) (Minor (min_block d) v (min_size d) (min_req_size d)).
Definition set_req_size (v : Z) (n : minor) : minor :=
  let d := data n in Node (prev n) (next n) (Minor (min_block d) (min_magic d) (min_size d) v).

(** ** The mutex, pthread.c and liballoc.c *)

Definition pthread_mutex_lock (mutex : Z) : Z * Z :=
  if negb (mutex =? 0) then (EBUSY, mutex) else (0, 1).

Definition pthread_mutex_unlock (mutex : Z) : Z * Z :=
  if mutex =? 0 then (EPERM, mutex) else (0, 0).

Definition liballoc_lock (s : heap) : Z * heap := (0, set_mutex s (snd (pthread_mutex_lock (mutex s)))).
Definition liballoc_unlock (s : heap) : Z * heap := (0, set_mutex s (snd (pthread_mutex_unlock (mutex s)))).

Definition getpagesize : Z := 0x1000.

Section allocator.
Context {K : Kernel}.

(** ** Pages from the kernel, liballoc.c *)

Definition liballoc_alloc (s : heap) (pages : Z) : Z * heap :=
  let ps := if page_size s <? 0 then getpagesize else page_size s in
  let sz := u32 (s32 pages * ps) in
  let '(r, m) := sys_MemoryMap (mm s) sz in
  let '(p2, e) := mmap (cur_errno s) r in
  let s := set_os s m ps e in
  if p2 =? MAP_FAILED then (0, s)
  else
    let '(st, e) := check_errno (cur_errno s) (sys_MemoryProtect (mm s) p2 sz) (-1) in
    let s := set_os s (mm s) ps e in
    if negb (st =? 0) then
      let '(r, m) := sys_MemoryUnmap (mm s) p2 sz in
      (0, set_os s m ps (snd (munmap (cur_errno s) r)))
    else (p2, s).

Definition liballoc_free (s : heap) (ptr pages : Z) : Z * heap :=
  let '(r, m) := sys_MemoryUnmap (mm s) ptr (u64 (s32 pages * page_size s)) in
  let '(st, e) := munmap (cur_errno s) r in
  (st, set_os s m (page_size s) e).

(** ** Helpers *)

(** [for (i = 0; i < n; i++) s[i] = c;] with an [unsigned int i] and a
    [size_t n]: the loop ends only for [n < 2^32]. *)
Fixpoint memset_loop (fuel : nat) (m : mem) (p c n i : Z) : outcome mem :=
  match fuel with
  | O => OutOfFuel
  | S fuel =>
      if i <? n then let! m := store8 m (u64 (p + i)) c in memset_loop fuel m p c n (u32 (i + 1))
      else Ret m
  end.

Definition liballoc_memset (s : heap) (p c n : Z) : outcome (Z * heap) :=
  let! m := memset_loop (S (Z.to_nat n)) (mm s) p c n 0 in Ret (p, set_mm s m).

Definition liballoc_memcpy (s : heap) (s1 s2 n : Z) : outcome (Z * heap) :=
  let k := n / 4 in
  let! m := copy_words 4 (Z.to_nat k) (mm s) s1 s2 in
  let! m := copy_up (Z.to_nat (n - 4 * k)) m (s1 + 4 * k) (s2 + 4 * k) in
  Ret (s1, set_mm s m).

(** The macros [ALIGN] and [UNALIGN]. *)
Definition ALIGN (s : heap) (ptr : Z) : outcome (Z * heap) :=
  let ptr := u64 (ptr + ALIGN_INFO) in
  let diff := Z.land ptr (ALIGNMENT - 1) in
  let '(ptr, diff) :=
    if negb (diff =? 0) then let diff := ALIGNMENT - diff in (u64 (ptr + diff), diff) else (ptr, diff) in
  let! m := store8 (mm s) (u64 (ptr - ALIGN_INFO)) (diff + ALIGN_INFO) in
  Ret (ptr, set_mm s m).

Definition UNALIGN (s : heap) (ptr : Z) : outcome Z :=
  let! b := load8 (mm s) (u64 (ptr - ALIGN_INFO)) in
  let diff := u64 (s8 b) in
  if diff <? ALIGNMENT + ALIGN_INFO then Ret (u64 (ptr - diff)) else Ret ptr.

Definition allocate_new_page (s : heap) (sz : Z) : outcome (Z * heap) :=
  let st := u32 (u32 sz + HDR) in
  let st := u32 (st + HDR) in
  let st := if st mod l_pageSize =? 0 then st / l_pageSize else u32 (st / l_pageSize + 1) in
  let st := if st <? l_pageCount then l_pageCount else st in
  let '(maj, s) := liballoc_alloc s st in
  if maj =? 0 then Ret (0, warn s)
  else
    let! s := upd_maj s maj (fun n => Node 0 0 (Major st (u32 (st * l_pageSize)) HDR (maj_pad (data n)) 0)) in
    Ret (maj, set_allocated s (u64 (l_allocated s + u32 (st * l_pageSize)))).

(** ** malloc *)

(** The end of every successful case: the usage counts and the pointer. *)
Definition finish (s : heap) (maj new_min sz : Z) : outcome (Z * heap) :=
  let! s := upd_maj s maj (fun n => set_usage (u32 (maj_usage (data n) + u64 (sz + HDR))) n) in
  let s := set_inuse s (u64 (l_inuse s + sz)) in
  let! r := ALIGN s (u64 (new_min + HDR)) in
  let '(p, s) := r in
  Ret (p, snd (liballoc_unlock s)).

Definition case2 (s : heap) (maj sz req_size : Z) : outcome (Z * heap) :=
  let fst := u64 (maj + HDR) in
  let! s := upd_maj s maj (set_first fst) in
  let! s := upd_min s fst (fun _ => Node 0 0 (Minor maj LIBALLOC_MAGIC (u32 sz) (u32 req_size))) in
  finish s maj fst sz.

Definition case3 (s : heap) (maj old_first sz req_size : Z) : outcome (Z * heap) :=
  let fst := u64 (maj + HDR) in
  let! s := upd_min s old_first (set_prev fst) in
  let! s := upd_min s fst (set_next old_first) in
  let! s := upd_maj s maj (set_first fst) in
  let! s := upd_min s fst (fun n => Node 0 (next n) (Minor maj LIBALLOC_MAGIC (u32 sz) (u32 req_size))) in
  finish s maj fst sz.

Definition case4_1 (s : heap) (maj min sz req_size : Z) : outcome (Z * heap) :=
  let! n := get_min s min in
  let new_min := u64 (min + HDR + min_size (data n)) in
  let! s := upd_min s min (set_next new_min) in
  let! s := upd_min s new_min (fun _ => Node min 0 (Minor maj LIBALLOC_MAGIC (u32 sz) (u32 req_size))) in
  finish s maj new_min sz.

Definition case4_2 (s : heap) (maj min sz req_size : Z) : outcome (Z * heap) :=
  let! n := get_min s min in
  let new_min := u64 (min + HDR + min_size (data n)) in
  let! s := upd_min s new_min (fun _ => Node min (next n) (Minor maj LIBALLOC_MAGIC (u32 sz) (u32 req_size))) in
  let! s := upd_min s (next n) (set_prev new_min) in
  let! s := upd_min s min (set_next new_min) in
  finish s maj new_min sz.

(** CASE 4: the loop over the minors of one major; [None] when none of the
    gaps is big enough. *)
Fixpoint minors_loop (fuel : nat) (s : heap) (maj sz req_size min : Z) : outcome (option (Z * heap)) :=
  match fuel with
  | O => OutOfFuel
  | S fuel =>
      if min =? 0 then Ret None
      else
        let! n := get_min s min in
        if next n =? 0 then
          let! d := get_maj s maj in
          let diff := u64 (maj + maj_size (data d) - min - HDR - min_size (data n)) in
          if diff >=? u64 (sz + HDR) then let! r := case4_1 s maj min sz req_size in Ret (Some r)
          else minors_loop fuel s maj sz req_size (next n)
        else
          let diff := u64 (next n - min - HDR - min_size (data n)) in
          if diff >=? u64 (sz + HDR) then let! r := case4_2 s maj min sz req_size in Ret (Some r)
          else minors_loop fuel s maj sz req_size (next n)
  end.

(** Where the loop over the majors goes after CASE 1. *)
Inductive flow :=
| Continue (maj startedBet : Z)
| Break
| Through (maj : Z).

(** [maj->next = allocate_new_page(size); if (maj->next == NULL) break;
    maj->next->prev = maj;] *)
Definition append_page (s : heap) (maj sz : Z) : outcome (Z * heap) :=
  let! r := allocate_new_page s sz in
  let '(np, s) := r in
  let! s := upd_maj s maj (set_next np) in
  if np =? 0 then Ret (0, s)
  else let! s := upd_maj s np (set_prev maj) in Ret (np, s).

Definition case1 (s : heap) (maj nx startedBet diff sz : Z) : outcome (flow * heap) :=
  if diff <? u64 (sz + HDR) then
    if negb (nx =? 0) then Ret (Continue nx startedBet, s)
    else if startedBet =? 1 then Ret (Continue (l_memRoot s) 0, s)
    else
      let! r := append_page s maj sz in
      let '(np, s) := r in
      Ret (if np =? 0 then Break else Through np, s)
  else Ret (Through maj, s).

(** CASE 2 to CASE 4 in one major; [None] when the block is full. *)
Definition try_major (s : heap) (maj sz req_size : Z) : outcome (option (Z * heap)) :=
  let! n := get_maj s maj in
  let fst := maj_first (data n) in
  if fst =? 0 then let! r := case2 s maj sz req_size in Ret (Some r)
  else
    let diff := u64 (fst - maj - HDR) in
    if diff >=? u64 (sz + HDR) then let! r := case3 s maj fst sz req_size in Ret (Some r)
    else minors_loop (loop_fuel (mm s)) s maj sz req_size fst.

(** CASE 5. *)
Definition case5 (s : heap) (maj startedBet sz : Z) : outcome (flow * heap) :=
  let! n := get_maj s maj in
  if next n =? 0 then
    if startedBet =? 1 then Ret (Continue (l_memRoot s) 0, s)
    else
      let! r := append_page s maj sz in
      let '(np, s) := r in
      Ret (if np =? 0 then Break else Continue np startedBet, s)
  else Ret (Continue (next n) startedBet, s).

Fixpoint majors_loop (fuel : nat) (s : heap) (maj startedBet bestSize sz req_size : Z) : outcome (Z * heap) :=
  match fuel with
  | O => OutOfFuel
  | S fuel =>
      if maj =? 0 then Ret (0, snd (liballoc_unlock s))
      else
        let! n := get_maj s maj in
        let diff := u32 (maj_size (data n) - maj_usage (data n)) in
        let '(s, bestSize) := if bestSize <? diff then (set_bestBet s maj, diff) else (s, bestSize) in
        let! r := case1 s maj (next n) startedBet diff sz in
        let '(fl, s) := r in
        match fl with
        | Continue maj startedBet => majors_loop fuel s maj startedBet bestSize sz req_size
        | Break => Ret (0, snd (liballoc_unlock s))
        | Through maj =>
            let! r := try_major s maj sz req_size in
            match r with
            | Some r => Ret r
            | None =>
                let! r := case5 s maj startedBet sz in
                let '(fl, s) := r in
                match fl with
                | Continue maj startedBet => majors_loop fuel s maj startedBet bestSize sz req_size
                | _ => Ret (0, snd (liballoc_unlock s))
                end
            end
        end
  end.

(** Where the search starts. *)
Definition start_at (s : heap) (sz : Z) : outcome (Z * Z * Z) :=
  if negb (l_bestBet s =? 0) then
    let! n := get_maj s (l_bestBet s) in
    let bestSize := u32 (maj_size (data n) - maj_usage (data n)) in
    Ret (if bestSize >? u64 (sz + HDR) then (l_bestBet s, 1, bestSize) else (l_memRoot s, 0, bestSize))
  else Ret (l_memRoot s, 0, 0).

(** From the test of [l_memRoot] on, for [size != 0] and the lock taken. *)
Definition malloc_sized (s : heap) (req_size sz : Z) : outcome (Z * heap) :=
  let! r :=
    if l_memRoot s =? 0 then let! r := allocate_new_page s sz in Ret (snd r, fst r)
    else Ret (s, l_memRoot s) in
  let '(s, root) := r in
  let s := set_memRoot s root in
  if root =? 0 then Ret (0, snd (liballoc_unlock s))
  else
    let! r := start_at s sz in
    let '(maj, startedBet, bestSize) := r in
    majors_loop (2 * loop_fuel (mm s) + 2) s maj startedBet bestSize sz req_size.

Definition malloc (s : heap) (req_size : Z) : outcome (Z * heap) :=
  let sz := u64 (req_size + (ALIGNMENT + ALIGN_INFO)) in
  let s := snd (liballoc_lock s) in
  if sz =? 0 then
    let s := snd (liballoc_unlock (warn s)) in
    let s := snd (liballoc_lock s) in
    malloc_sized s 1 (u64 (1 + (ALIGNMENT + ALIGN_INFO)))
  else malloc_sized s req_size sz.

(** ** free *)

(** The counters of a bad magic number. *)
Definition bad_magic (s : heap) (magic : Z) : heap :=
  let o :=
    if (Z.land magic 0xFFFFFF =? Z.land LIBALLOC_MAGIC 0xFFFFFF)
       || (Z.land magic 0xFFFF =? Z.land LIBALLOC_MAGIC 0xFFFF)
       || (Z.land magic 0xFF =? Z.land LIBALLOC_MAGIC 0xFF)
    then s64 (l_possibleOverruns s + 1) else l_possibleOverruns s in
  set_errors s (s64 (l_errorCount s + 1)) o.

(** Unlinking the minor from its block. *)
Definition unlink_minor (s : heap) (maj min : Z) : outcome heap :=
  let! n := get_min s min in
  let! s := if negb (next n =? 0) then upd_min s (next n) (set_prev (prev n)) else Ret s in
  let! s := if negb (prev n =? 0) then upd_min s (prev n) (set_next (next n)) else Ret s in
  if prev n =? 0 then upd_maj s maj (set_first (next n)) else Ret s.

(** The block is completely unused. *)
Definition release_major (s : heap) (maj : Z) : outcome heap :=
  let! d := get_maj s maj in
  let s := if l_memRoot s =? maj then set_memRoot s (next d) else s in
  let s := if l_bestBet s =? maj then set_bestBet s 0 else s in
  let! s := if negb (prev d =? 0) then upd_maj s (prev d) (set_next (next d)) else Ret s in
  let! s := if negb (next d =? 0) then upd_maj s (next d) (set_prev (prev d)) else Ret s in
  let s := set_allocated s (u64 (l_allocated s - maj_size (data d))) in
  Ret (snd (liballoc_free s maj (maj_pages (data d)))).

Definition update_bestBet (s : heap) (maj : Z) : outcome heap :=
  if negb (l_bestBet s =? 0) then
    let! b := get_maj s (l_bestBet s) in
    let! d := get_maj s maj in
    let bestSize := s32 (maj_size (data b) - maj_usage (data b)) in
    let majSize := s32 (maj_size (data d) - maj_usage (data d)) in
    Ret (if majSize >? bestSize then set_bestBet s maj else s)
  else Ret s.

Definition free (s : heap) (ptr : Z) : outcome heap :=
  if ptr =? 0 then Ret (warn s)
  else
    let! ptr := UNALIGN s ptr in
    let s := snd (liballoc_lock s) in
    let min := u64 (ptr - HDR) in
    let! n := get_min s min in
    if negb (min_magic (data n) =? LIBALLOC_MAGIC) then
      Ret (snd (liballoc_unlock (bad_magic s (min_magic (data n)))))
    else
      let maj := min_block (data n) in
      let s := set_inuse s (u64 (l_inuse s - min_size (data n))) in
      let! s := upd_maj s maj (fun d => set_usage (u32 (maj_usage (data d) - (min_size (data n) + HDR))) d) in
      let! s := upd_min s min (set_magic LIBALLOC_DEAD) in
      let! s := unlink_minor s maj min in
      let! d := get_maj s maj in
      let! s := if maj_first (data d) =? 0 then release_major s maj else update_bestBet s maj in
      Ret (snd (liballoc_unlock s)).

(** ** calloc and realloc *)

Definition calloc (s : heap) (nobj sz : Z) : outcome (Z * heap) :=
  let real_size := s32 (nobj * sz) in
  let! r := malloc s (u64 real_size) in
  let '(p, s) := r in
  let! r := liballoc_memset s p 0 (u64 real_size) in
  Ret (p, snd r).

Definition realloc (s : heap) (p sz : Z) : outcome (Z * heap) :=
  if sz =? 0 then let! s := free s p in Ret (0, s)
  else if p =? 0 then malloc s sz
  else
    let! ptr := UNALIGN s p in
    let s := snd (liballoc_lock s) in
    let min := u64 (ptr - HDR) in
    let! n := get_min s min in
    if negb (min_magic (data n) =? LIBALLOC_MAGIC) then
      Ret (0, snd (liballoc_unlock (bad_magic s (min_magic (data n)))))
    else
      let real_size := min_req_size (data n) in
      if real_size >=? sz then
        let! s := upd_min s min (set_req_size (u32 sz)) in
        Ret (p, snd (liballoc_unlock s))
      else
        let s := snd (liballoc_unlock s) in
        let! r := malloc s sz in
        let '(ptr, s) := r in
        let! r := liballoc_memcpy s ptr p real_size in
        let! s := free (snd r) p in
        Ret (ptr, s).
End allocator.

(** ** The heap as lists of blocks *)

(** The structure at an address, when memory is mapped there. *)
Definition view {A} `{Layout A} (m : mem) (a : Z) : option A :=
  match rd m a with Ret n => Some n | _ => None end.

Record block := Block { b_at : Z; b_maj : major_d; b_mins : list (Z * minor_d) }.

Definition majors (H : list block) : list (Z * major_d) := (fun b => (b_at b, b_maj b)) <$> H.

(** The allocations lie in order and apart between [lo] and [hi]. *)
Fixpoint fits (lo : Z) (ms : list (Z * minor_d)) (hi : Z) : Prop :=
  match ms with
  | [] => lo <= hi
  | (x, d) :: ms => lo <= x /\ 0 <= min_size d /\ fits (x + HDR + min_size d) ms hi
  end.

Fixpoint end_of (lo : Z) (ms : list (Z * minor_d)) : Z :=
  match ms with
  | [] => lo
  | (x, d) :: ms => end_of (x + HDR + min_size d) ms
  end.

Definition used (ms : list (Z * minor_d)) : Z := foldr (fun e t => min_size e.2 + HDR + t) 0 ms.
Definition total (H : list block) : Z := foldr (fun b t => maj_size (b_maj b) + t) 0 H.
Definition payload (ms : list (Z * minor_d)) : Z := foldr (fun e t => min_size e.2 + t) 0 ms.
Definition inuse_of (H : list block) : Z := foldr (fun b t => payload (b_mins b) + t) 0 H.

(** The pointer handed out for the minor at [x]: the first multiple of 16 that
    leaves room for the alignment byte. *)
Definition user_ptr (x : Z) : Z := 16 * ((x + HDR + ALIGN_INFO + 15) / 16).

Record minor_ok (m : mem) (a x : Z) (d : minor_d) : Prop := {
  mi_block : min_block d = a;
  mi_magic : min_magic d = LIBALLOC_MAGIC;
  mi_req : 0 <= min_req_size d;
  mi_size : min_req_size d + 32 <= min_size d < 2 ^ 32;
  mi_align : m !! (user_ptr x - ALIGN_INFO) = Some (user_ptr x - (x + HDR))
}.

Record major_ok (m : mem) (b : block) : Prop := {
  mj_low : 4096 <= b_at b;
  mj_high : b_at b + maj_size (b_maj b) < 2 ^ 63;
  mj_pages : maj_size (b_maj b) = maj_pages (b_maj b) * l_pageSize;
  mj_size : 0 < maj_size (b_maj b) < 2 ^ 31;
  mj_usage : maj_usage (b_maj b) = HDR + used (b_mins b);
  mj_pad : in_u 32 (maj_pad (b_maj b));
  mj_first : maj_first (b_maj b) = first_of (b_mins b) 0;
  mj_list : dll (view m) 0 (b_mins b) 0;
  mj_fits : fits (b_at b + HDR) (b_mins b) (b_at b + maj_size (b_maj b));
  mj_minors : Forall (fun e => minor_ok m (b_at b) e.1 e.2) (b_mins b);
  mj_cells : cells m (b_at b) (maj_size (b_maj b))
}.

(** No two blocks overlap. *)
Definition apart (H : list block) : Prop :=
  NoDup (b_at <$> H) /\
  forall b1 b2, b1 ∈ H -> b2 ∈ H -> b_at b1 = b_at b2 \/
    disjoint_range (b_at b1) (maj_size (b_maj b1)) (b_at b2) (maj_size (b_maj b2)).

Record inv (s : heap) (H : list block) : Prop := {
  iv_list : dll (view (mm s)) 0 (majors H) 0;
  iv_apart : apart H;
  iv_blocks : Forall (major_ok (mm s)) H;
  iv_root : l_memRoot s = first_of (majors H) 0;
  iv_best : l_bestBet s = 0 \/ l_bestBet s ∈ b_at <$> H;
  iv_page : (H = [] /\ page_size s < 0) \/ page_size s = l_pageSize;
  iv_allocated : l_allocated s = u64 (total H);
  iv_inuse : l_inuse s = u64 (inuse_of H)
}.

(** ** Memory touched at structures *)

(** [m'] is [m] but for the structures at the addresses [S]. *)
Definition only (S : list Z) (m m' : mem) : Prop :=
  (forall y, Forall (fun a => y < a \/ a + HDR <= y) S -> m' !! y = m !! y) /\
  (forall y b, m !! y = Some b -> byte b -> exists b', m' !! y = Some b' /\ byte b').

Lemma only_refl S m : only S m m.
Proof. split; [done|]. intros y b Hb Hby. by exists b. Qed.

Lemma only_trans S1 S2 m1 m2 m3 : only S1 m1 m2 -> only S2 m2 m3 -> only (S1 ++ S2) m1 m3.
Proof.
  intros [H1 C1] [H2 C2]. split.
  - intros y [Hy1 Hy2]%Forall_app. rewrite H2, H1; done.
  - intros y b Hb Hby. destruct (C1 y b Hb Hby) as (b' & Hb' & Hby'). by apply (C2 y b').
Qed.

Lemma only_incl S S' m m' : (forall a, a ∈ S -> a ∈ S') -> only S m m' -> only S' m m'.
Proof.
  intros Hi [H C]. split; [|done]. intros y Hy. apply H. rewrite list.Forall_forall in *. auto.
Qed.

Lemma only_cells S m m' a n : only S m m' -> cells m a n -> cells m' a n.
Proof. intros [_ C] Hc x Hx. destruct (Hc x Hx) as (b & Hb & Hby). by apply (C x b). Qed.

Lemma only_view {A} `{Layout A} S m m' b : Z.of_nat sizeof <= HDR -> only S m m' ->
  Forall (fun a => b + HDR <= a \/ a + HDR <= b) S -> view m' b = view m b.
Proof.
  intros Hs [Ho _] Hb. unfold view. rewrite (rd_ext m); [done|]. intros y Hy. apply Ho.
  eapply Forall_impl; [|exact Hb]. cbn. lia.
Qed.

Lemma touched_only {A} `{Layout A} a m m' : Z.of_nat sizeof <= HDR ->
  touched a (Z.of_nat sizeof) m m' -> only [a] m m'.
Proof. intros Hs [H1 H2]. split; [|done]. intros y [Hy _]%list.Forall_cons. apply H1. lia. Qed.

Lemma view_cells {A} `{Layout A} m a : cells m a (Z.of_nat sizeof) -> exists x : A, view m a = Some x /\ wf x.
Proof. intros (x & Hx & Hw)%rd_cells. exists x. unfold view. by rewrite Hx. Qed.

Lemma view_rd {A} `{Layout A} m a (x : A) : view m a = Some x -> rd m a = Ret x.
Proof. unfold view. destruct (rd m a); congruence. Qed.

Lemma upd_maj_spec s a f (n : major) : view (mm s) a = Some n -> wf (f n) -> cells (mm s) a HDR ->
  exists m', upd_maj s a f = Ret (set_mm s m') /\ view m' a = Some (f n) /\ only [a] (mm s) m'.
Proof.
  intros Hv Hw Hc. destruct (upd_spec (mm s) a f n (view_rd _ _ _ Hv) Hw Hc) as (m' & Hu & Hr & Ht).
  exists m'. unfold upd_maj, view. rewrite Hu, Hr. split_and!; [done|done|].
  by apply (touched_only (A := major)).
Qed.

Lemma upd_min_spec s a f (n : minor) : view (mm s) a = Some n -> wf (f n) -> cells (mm s) a HDR ->
  exists m', upd_min s a f = Ret (set_mm s m') /\ view m' a = Some (f n) /\ only [a] (mm s) m'.
Proof.
  intros Hv Hw Hc. destruct (upd_spec (mm s) a f n (view_rd _ _ _ Hv) Hw) as (m' & Hu & Hr & Ht).
  { eapply cells_sub; [exact Hc|lia|]. cbn. unfold HDR. lia. }
  exists m'. unfold upd_min, view. rewrite Hu, Hr. split_and!; [done|done|].
  by apply (touched_only (A := minor)).
Qed.

Lemma wf_major p x pages sz usage pad fst :
  wf (Node p x (Major pages sz usage pad fst)) <->
  in_u 64 p /\ in_u 64 x /\ in_u 32 pages /\ in_u 32 sz /\ in_u 32 usage /\ in_u 32 pad /\ in_u 64 fst.
Proof.
  unfold wf, in_fields. cbn [widths to_fields major_layout].
  rewrite !list.Forall2_cons. cbn -[in_u]. intuition constructor.
Qed.

Lemma wf_minor p x blk magic sz req :
  wf (Node p x (Minor blk magic sz req)) <->
  in_u 64 p /\ in_u 64 x /\ in_u 64 blk /\ in_u 32 magic /\ in_u 32 sz /\ in_u 32 req.
Proof.
  unfold wf, in_fields. cbn [widths to_fields minor_layout].
  rewrite !list.Forall2_cons. cbn -[in_u]. intuition constructor.
Qed.

Lemma view_wf {A} `{Layout A} m a (n : A) : view m a = Some n -> cells m a (Z.of_nat sizeof) -> wf n.
Proof. intros Hv (n' & Hv' & Hw)%(view_cells (A := A)). rewrite Hv in Hv'. by injection Hv' as ->. Qed.

(** ** Lists of allocations *)

Section fitting.
Implicit Types (ms : list (Z * minor_d)) (lo hi x : Z).

Lemma fits_app lo ms1 ms2 hi :
  fits lo (ms1 ++ ms2) hi <-> fits lo ms1 (first_of ms2 hi) /\ fits (end_of lo ms1) ms2 hi.
Proof.
  revert lo. induction ms1 as [|[x d] ms1 IH]; intros lo; cbn [app fits end_of].
  - destruct ms2 as [|[y e] ms2]; cbn; tauto.
  - rewrite IH. tauto.
Qed.

Lemma fits_end lo ms hi : fits lo ms hi <-> fits lo ms (end_of lo ms) /\ end_of lo ms <= hi.
Proof.
  revert lo. induction ms as [|[x d] ms IH]; intros lo; cbn [fits end_of]; [lia|].
  rewrite (IH (x + HDR + min_size d)). tauto.
Qed.

Lemma fits_le lo ms hi : fits lo ms hi -> lo <= hi.
Proof.
  revert lo. induction ms as [|[x d] ms IH]; intros lo; cbn [fits]; [done|].
  intros (Hx & Hd & Hf). apply IH in Hf. unfold HDR in Hf. lia.
Qed.

Lemma fits_in lo ms hi x d : fits lo ms hi -> (x, d) ∈ ms -> lo <= x /\ 0 <= min_size d /\ x + HDR + min_size d <= hi.
Proof.
  revert lo. induction ms as [|[y e] ms IH]; intros lo Hf Hin; [by apply not_elem_of_nil in Hin|].
  cbn [fits] in Hf. destruct Hf as (Hy & He & Hf). apply elem_of_cons in Hin as [Heq|Hin].
  - injection Heq as -> ->. pose proof (fits_le _ _ _ Hf). lia.
  - destruct (IH _ Hf Hin). unfold HDR in *. lia.
Qed.

Lemma fits_weaken lo lo' ms hi hi' : fits lo ms hi -> lo' <= lo -> hi <= hi' -> fits lo' ms hi'.
Proof.
  revert lo lo'. induction ms as [|[x d] ms IH]; intros lo lo' Hf Hlo Hhi; cbn [fits] in *; [lia|].
  destruct Hf as (Hx & Hd & Hf). split_and!; [lia|lia|]. by eapply IH.
Qed.

(** Putting a new allocation into a gap. *)
Lemma fits_insert lo ms1 ms2 hi x d : fits lo (ms1 ++ ms2) hi -> end_of lo ms1 <= x -> 0 <= min_size d ->
  x + HDR + min_size d <= first_of ms2 hi -> fits lo (ms1 ++ (x, d) :: ms2) hi.
Proof.
  intros [H1 H2]%fits_app Hx Hd Hg. apply fits_app. cbn [first_of fits]. split.
  - apply fits_end in H1 as [H1 _]. apply fits_end. tauto.
  - split_and!; [done|done|]. destruct ms2 as [|[y e] ms2]; cbn in *; [done|]. tauto.
Qed.

Lemma fits_remove lo ms1 x d ms2 hi : fits lo (ms1 ++ (x, d) :: ms2) hi -> fits lo (ms1 ++ ms2) hi.
Proof.
  intros [H1 (Hx & Hd & H2)]%fits_app. cbn in H1. apply fits_end in H1 as [H1 He]. apply fits_app.
  pose proof (fits_le _ _ _ H2). unfold HDR in *. split.
  - apply fits_end. split; [done|]. destruct ms2 as [|[y e] ms2]; cbn in *; lia.
  - eapply fits_weaken; [exact H2|lia|lia].
Qed.

(** Where the members lie with respect to a gap or to each other. *)
Lemma fits_beside lo ms1 ms2 hi x n y e : fits lo (ms1 ++ ms2) hi -> end_of lo ms1 <= x ->
  x + n <= first_of ms2 hi -> 0 <= n -> (y, e) ∈ ms1 ++ ms2 ->
  y + HDR + min_size e <= x \/ x + n <= y.
Proof.
  intros [H1 H2]%fits_app Hx Hg Hn [Hin|Hin]%elem_of_app.
  - apply fits_end in H1 as [H1 _]. destruct (fits_in _ _ _ _ _ H1 Hin). lia.
  - right. destruct ms2 as [|[z f] ms2]; [by apply not_elem_of_nil in Hin|]. cbn in Hg.
    cbn [fits] in H2. assert (fits z ((z, f) :: ms2) hi) as H3 by (cbn [fits]; split_and!; [lia|tauto|tauto]).
    destruct (fits_in _ _ _ _ _ H3 Hin). lia.
Qed.

Lemma fits_apart lo ms1 x d ms2 hi y e : fits lo (ms1 ++ (x, d) :: ms2) hi -> (y, e) ∈ ms1 ++ ms2 ->
  y + HDR + min_size e <= x \/ x + HDR + min_size d <= y.
Proof.
  intros Hf Hin. pose proof (fits_remove _ _ _ _ _ _ Hf) as Hr. apply fits_app in Hf as [H1 (Hx & Hd & H2)].
  rewrite <- (Z.add_assoc x). eapply fits_beside; [exact Hr|done| |unfold HDR; lia|done].
  rewrite Z.add_assoc. apply fits_le in H2 as Hle. destruct ms2 as [|[z f] ms2]; [done|]. cbn in *. tauto.
Qed.

Lemma fits_NoDup lo ms hi : fits lo ms hi -> NoDup ms.*1.
Proof.
  revert lo. induction ms as [|[x d] ms IH]; intros lo Hf; cbn; [constructor|]. destruct Hf as (Hx & Hd & Hf).
  constructor; [|by eapply IH]. intros ([y e] & Heq & Hin)%list_elem_of_fmap. cbn in Heq. subst y.
  destruct (fits_in _ _ _ _ _ Hf Hin). unfold HDR in *. lia.
Qed.

Lemma used_app ms1 ms2 : used (ms1 ++ ms2) = used ms1 + used ms2.
Proof. unfold used. induction ms1 as [|e ms1 IH]; [done|]. cbn [app foldr]. rewrite IH. lia. Qed.

Lemma payload_app ms1 ms2 : payload (ms1 ++ ms2) = payload ms1 + payload ms2.
Proof. unfold payload. induction ms1 as [|e ms1 IH]; [done|]. cbn [app foldr]. rewrite IH. lia. Qed.

Lemma fits_used lo ms hi : fits lo ms hi -> 0 <= used ms <= hi - lo.
Proof.
  unfold used. revert lo. induction ms as [|[x d] ms IH]; intros lo Hf; cbn [fits foldr] in *; [lia|].
  destruct Hf as (Hx & Hd & Hf). apply IH in Hf. cbn [snd]. unfold HDR in *. lia.
Qed.
End fitting.
