(* ===== verification/LiballocBlocks.v ===== *)
(** * Allocations inside a block of the allocator

    The gaps of a block, and what CASE 2 to CASE 4 of [malloc] do with the
    first one that is big enough: the new structure is linked in, the counts
    are updated, and nothing else of the heap changes. *)

From S2P Require Import Prelude CMem CStruct LinkedList LibcErrno KernelMem Liballoc.

(** Inclusion of explicit lists. *)
Ltac in_lists := intros ?; cbn [app]; rewrite ?elem_of_app, !elem_of_cons, ?elem_of_nil; tauto.

Lemma elem_of_mid {T} (A : list T) b B c : c ∈ A ++ b :: B <-> c = b \/ c ∈ A ++ B.
Proof. rewrite !elem_of_app, elem_of_cons. tauto. Qed.

Lemma fits_distinct lo ms hi y e z f : fits lo ms hi -> (y, e) ∈ ms -> (z, f) ∈ ms ->
  (y = z /\ e = f) \/ y + HDR + min_size e <= z \/ z + HDR + min_size f <= y.
Proof.
  intros Hf Hy Hz. apply list_elem_of_split in Hz as (ms1 & ms2 & ->).
  apply elem_of_app in Hy as [Hy|[Hy|Hy]%elem_of_cons].
  - right. by apply (fits_apart lo ms1 z f ms2 hi); [|apply elem_of_app; left].
  - left. by injection Hy as -> ->.
  - right. by apply (fits_apart lo ms1 z f ms2 hi); [|apply elem_of_app; right].
Qed.

Lemma user_ptr_bounds x : x + HDR + 16 <= user_ptr x <= x + HDR + 31 /\ user_ptr x mod 16 = 0.
Proof.
  unfold user_ptr, HDR, ALIGN_INFO. split; [dlia|]. rewrite Z.mul_comm. apply Z_mod_mult.
Qed.

(** Only what lies in a block after its header matters for its contents. *)
Lemma major_ok_frame m m' b : major_ok m b ->
  (forall y, b_at b + HDR <= y < b_at b + maj_size (b_maj b) -> m' !! y = m !! y) ->
  cells m' (b_at b) (maj_size (b_maj b)) -> major_ok m' b.
Proof.
  intros [] Hf Hc. constructor; try done.
  - eapply dll_frame; [|exact mj_list]. intros y ([z e] & -> & Hin)%list_elem_of_fmap. cbn.
    destruct (fits_in _ _ _ _ _ mj_fits Hin) as (? & ? & ?).
    unfold view. rewrite (rd_ext m); [done|]. intros w Hw. apply Hf. cbn in Hw. unfold HDR in *. lia.
  - rewrite list.Forall_forall in *. intros [y e] Hin. destruct (mj_minors _ Hin). cbn [fst snd] in *.
    destruct (fits_in _ _ _ _ _ mj_fits Hin) as (? & ? & ?).
    constructor; try done. rewrite <- mi_align. apply Hf.
    pose proof (user_ptr_bounds y). unfold HDR, ALIGN_INFO in *. lia.
Qed.

Section operations.
Context {K : Kernel}.

Lemma ALIGN_spec s x : 0 <= x -> x + HDR + 32 < 2 ^ 64 -> cells (mm s) (x + HDR) 32 ->
  ALIGN s (u64 (x + HDR))
    = Ret (user_ptr x, set_mm s (<[user_ptr x - ALIGN_INFO := user_ptr x - (x + HDR)]> (mm s))).
Proof.
  intros Hx Hb Hc. unfold ALIGN, HDR, ALIGNMENT, ALIGN_INFO in *.
  rewrite (uw_small 64 (x + 40)), (uw_small 64 (x + 40 + 16)) by lia.
  change (16 - 1) with (Z.ones 4). rewrite Z.land_ones by lia. change (2 ^ 4) with 16.
  set (r := (x + 40 + 16) mod 16).
  assert (Hu : user_ptr x = x + 40 + 16 + (if r =? 0 then 0 else 16 - r)).
  { unfold user_ptr, HDR, ALIGN_INFO, r. zcases; dlia. }
  assert (0 <= r < 16) by (apply Z.mod_pos_bound; lia).
  destruct (Hc (user_ptr x - 16)) as (b & Hv & _); [rewrite Hu; zcases; lia|].
  destruct (Z.eqb_spec r 0) as [E|E]; cbn [negb].
  - rewrite E in *. rewrite Z.add_0_r in Hu. rewrite <- Hu in *. rewrite uw_small by lia.
    unfold store8. rewrite Hv. cbn [obind]. rewrite uw_small by lia. do 4 f_equal; lia.
  - rewrite <- Hu. rewrite (uw_small 64 (user_ptr x)) by lia.
    rewrite uw_small by lia. unfold store8. rewrite Hv. cbn [obind].
    rewrite uw_small by lia. do 4 f_equal; lia.
Qed.

Lemma UNALIGN_spec s x : 0 <= x -> x + HDR + 32 < 2 ^ 64 ->
  mm s !! (user_ptr x - ALIGN_INFO) = Some (user_ptr x - (x + HDR)) -> UNALIGN s (user_ptr x) = Ret (x + HDR).
Proof.
  intros Hx Hb Hm. pose proof (user_ptr_bounds x) as [Hu _]. unfold UNALIGN, ALIGNMENT, ALIGN_INFO in *.
  rewrite (uw_small 64 (user_ptr x - 16)) by (unfold HDR in *; lia).
  unfold load8. rewrite Hm. cbn [obind]. rewrite sw_small by (unfold in_s, HDR in *; lia).
  rewrite uw_small by (unfold HDR in *; lia).
  destruct (Z.ltb_spec (user_ptr x - (x + HDR)) (16 + 16)); [|unfold HDR in *; lia].
  rewrite uw_small by (unfold HDR in *; lia). f_equal. lia.
Qed.
End operations.

Lemma first_of_in {A} (l : list (Z * A)) nx : l <> [] -> first_of l nx ∈ l.*1.
Proof. destruct l as [|[a d] l]; [done|]. intros _. apply list_elem_of_here. Qed.

Lemma last_of_cases {A} (l : list (Z * A)) pv : last_of pv l = pv \/ exists d, (last_of pv l, d) ∈ l.
Proof.
  destruct l as [|[a d] l]; [by left|]. right. pose proof (last_of_in pv ((a, d) :: l) ltac:(done)) as Hin.
  apply list_elem_of_fmap in Hin as ([z e] & Heq & Hin). cbn [fst] in Heq. rewrite Heq. by exists e.
Qed.

Lemma first_of_cases {A} (l : list (Z * A)) nx : first_of l nx = nx \/ exists d, (first_of l nx, d) ∈ l.
Proof. destruct l as [|[a d] l]; [by left|]. right. exists d. apply list_elem_of_here. Qed.

(** What an operation leaves alone: the memory of the allocations. *)
Definition keeps (H : list block) (m m' : mem) : Prop :=
  forall b y e z, b ∈ H -> (y, e) ∈ b_mins b -> y + HDR <= z < y + HDR + min_size e -> m' !! z = m !! z.

(** A gap of a block: [n] bytes at [x] between the minors [ms1] and [ms2]. *)
Section gap.
Context (b : block) (ms1 ms2 : list (Z * minor_d)) (x n : Z).
Hypothesis Hfit : fits (b_at b + HDR) (ms1 ++ ms2) (b_at b + maj_size (b_maj b)).
Hypothesis Hlow : 4096 <= b_at b.
Hypothesis Hlo : end_of (b_at b + HDR) ms1 <= x.
Hypothesis Hhi : x + n <= first_of ms2 (b_at b + maj_size (b_maj b)).
Hypothesis Hn : HDR + 32 <= n.

(** The structures that linking in a new minor writes to. *)
Definition seam : list Z := [b_at b; x; last_of 0 ms1; first_of ms2 0].

Lemma gap_in : b_at b + HDR <= x /\ x + n <= b_at b + maj_size (b_maj b).
Proof.
  pose proof Hfit as [H1 H2]%fits_app. split.
  - apply fits_end in H1 as [H1 _]. apply fits_le in H1. lia.
  - destruct ms2 as [|[y e] l2]; [done|]. cbn [first_of] in Hhi.
    destruct (fits_in _ _ _ y e H2) as (? & ? & ?); [apply list_elem_of_here|]. unfold HDR in *. lia.
Qed.

Lemma gap_beside y e : (y, e) ∈ ms1 ++ ms2 -> y + HDR + min_size e <= x \/ x + n <= y.
Proof. intros Hin. eapply fits_beside; [apply Hfit|done|done| |done]. unfold HDR in *. lia. Qed.

Lemma gap_member y e : (y, e) ∈ ms1 ++ ms2 ->
  b_at b + HDR <= y /\ 0 <= min_size e /\ y + HDR + min_size e <= b_at b + maj_size (b_maj b).
Proof. intros Hin. eapply fits_in; [apply Hfit|done]. Qed.

Lemma seam_member a : a ∈ seam -> a = b_at b \/ a = x \/ a = 0 \/ exists e, (a, e) ∈ ms1 ++ ms2.
Proof.
  unfold seam. intros [->|[->|[->|[->|Ha]%elem_of_cons]%elem_of_cons]%elem_of_cons]%elem_of_cons; [auto|auto| | |].
  - destruct (last_of_cases ms1 0) as [->|[e He]]; [auto|]. do 3 right. exists e. apply elem_of_app. by left.
  - destruct (first_of_cases ms2 0) as [->|[e He]]; [auto|]. do 3 right. exists e. apply elem_of_app. by right.
  - by apply not_elem_of_nil in Ha.
Qed.

(** Payload of the other minors, and their headers, are clear of the seam. *)
Lemma seam_payload y e z : (y, e) ∈ ms1 ++ ms2 -> y + HDR <= z < y + HDR + min_size e ->
  Forall (fun a => z < a \/ a + HDR <= z) seam.
Proof.
  intros Hin Hz. apply list.Forall_forall. intros a Ha. pose proof (gap_member _ _ Hin).
  pose proof (gap_beside _ _ Hin).
  destruct (seam_member a Ha) as [->|[->|[->|[f Hf]]]]; [unfold HDR in *; lia..|].
  pose proof (gap_member _ _ Hf). destruct (fits_distinct _ _ _ _ _ _ _ Hfit Hin Hf) as [[-> ->]|?]; unfold HDR in *; lia.
Qed.

Lemma seam_header y e : (y, e) ∈ ms1 ++ ms2 -> y <> last_of 0 ms1 -> y <> first_of ms2 0 ->
  Forall (fun a => y + HDR <= a \/ a + HDR <= y) seam.
Proof.
  intros Hin Hp Hq. apply list.Forall_forall. intros a Ha. pose proof (gap_member _ _ Hin).
  pose proof (gap_beside _ _ Hin).
  assert (y <> a \/ a = b_at b \/ a = x \/ a = 0) as Hya.
  { unfold seam in Ha. rewrite !elem_of_cons in Ha. destruct Ha as [->|[->|[->|[->|Ha]]]]; [auto..|].
    by apply not_elem_of_nil in Ha. }
  destruct (seam_member a Ha) as [->|[->|[->|[f Hf]]]]; [unfold HDR in *; lia..|].
  pose proof (gap_member _ _ Hf). pose proof (gap_beside _ _ Hf).
  destruct (fits_distinct _ _ _ _ _ _ _ Hfit Hin Hf) as [[-> ->]|?]; unfold HDR in *; lia.
Qed.

(** Outside of the block nothing is written. *)
Lemma seam_outside z : z < b_at b \/ b_at b + maj_size (b_maj b) <= z -> 4096 <= z ->
  Forall (fun a => z < a \/ a + HDR <= z) seam.
Proof.
  intros Hz Hz0. apply list.Forall_forall. intros a Ha. pose proof gap_in.
  destruct (seam_member a Ha) as [->|[->|[->|[f Hf]]]]; [unfold HDR in *; lia..|].
  pose proof (gap_member _ _ Hf). unfold HDR in *. lia.
Qed.

Lemma link_minor m m1 d : dll (view m) 0 (ms1 ++ ms2) 0 -> only seam m m1 ->
  view m1 x = Some (Node (last_of 0 ms1) (first_of ms2 0) d) ->
  (forall k : minor, last_of 0 ms1 <> 0 -> view m (last_of 0 ms1) = Some k -> view m1 (last_of 0 ms1) = Some (set_next x k)) ->
  (forall k : minor, first_of ms2 0 <> 0 -> view m (first_of ms2 0) = Some k -> view m1 (first_of ms2 0) = Some (set_prev x k)) ->
  dll (view m1) 0 (ms1 ++ (x, d) :: ms2) 0.
Proof.
  intros Hl Ho Hx Hp Hq.
  pose proof (fits_NoDup _ _ _ Hfit) as Hnd. pose proof gap_in as Hg.
  eapply dll_insert; [exact Hl|exact Hnd|unfold HDR in *; lia|exact Hx|].
  intros a k Ha Hk. pose proof (dll_nonzero _ _ _ _ _ Hl Ha) as Ha0. unfold relink.
  apply dll_app in Hl as Hl2. destruct Hl2 as [Hl1 Hl2].
  destruct (seam_apart _ _ _ Hl1 Hl2 Hnd) as (_ & _ & Hd1 & _).
  destruct (Z.eqb_spec a (last_of 0 ms1)) as [->|Hap].
  - rewrite (Hp k) by done. destruct (Z.eqb_spec (last_of 0 ms1) (first_of ms2 0)) as [E|]; [|done].
    exfalso. apply (Hd1 (last_of 0 ms1)); [|done]. apply last_of_in. by intros ->.
  - destruct (Z.eqb_spec a (first_of ms2 0)) as [->|Haq]; [by rewrite (Hq k)|].
    apply list_elem_of_fmap in Ha as ([y e] & -> & Hin). cbn [fst] in *.
    rewrite (only_view seam m m1 y); [rewrite Hk; by destruct k|unfold HDR; cbn; lia|done|].
    by apply (seam_header y e).
Qed.
End gap.

(** ** Replacing one block *)

Lemma apart_ext H H' :
  (fun b => (b_at b, maj_size (b_maj b))) <$> H' = (fun b => (b_at b, maj_size (b_maj b))) <$> H -> apart H -> apart H'.
Proof.
  intros He [Hnd Ha]. assert (Hat : b_at <$> H' = b_at <$> H).
  { apply (f_equal (fmap (M := list) fst)) in He. by rewrite <- !list_fmap_compose in He. }
  assert (Hin : forall b', b' ∈ H' -> exists b, b ∈ H /\ b_at b = b_at b' /\ maj_size (b_maj b) = maj_size (b_maj b')).
  { intros b' Hb'. apply (list_elem_of_fmap_2 (fun b => (b_at b, maj_size (b_maj b)))) in Hb'.
    rewrite He in Hb'. apply list_elem_of_fmap in Hb' as (b & Hb & Hi). injection Hb as -> ->. by exists b. }
  split; [by rewrite Hat|]. intros b1 b2 H1 H2.
  destruct (Hin b1 H1) as (c1 & Hc1 & <- & <-), (Hin b2 H2) as (c2 & Hc2 & <- & <-). by apply Ha.
Qed.

Lemma apart_other A b B b2 : apart (A ++ b :: B) -> b2 ∈ A ++ B ->
  disjoint_range (b_at b2) (maj_size (b_maj b2)) (b_at b) (maj_size (b_maj b)).
Proof.
  intros [Hnd Ha] Hin. destruct (Ha b2 b) as [E|?]; [apply elem_of_mid; by right|apply elem_of_mid; by left| |done].
  exfalso. rewrite <- Permutation_middle in Hnd. cbn in Hnd. apply list.NoDup_cons in Hnd as [Hni _].
  apply Hni. rewrite <- E. by apply list_elem_of_fmap_2.
Qed.

Lemma majors_app A B : majors (A ++ B) = majors A ++ majors B.
Proof. apply fmap_app. Qed.

Lemma majors_mid A b B : majors (A ++ b :: B) = majors A ++ (b_at b, b_maj b) :: majors B.
Proof. apply majors_app. Qed.

Lemma majors_at H : (majors H).*1 = b_at <$> H.
Proof. unfold majors. by rewrite <- list_fmap_compose. Qed.

Lemma total_app A B : total (A ++ B) = total A + total B.
Proof. unfold total. induction A as [|b A IH]; [done|]. cbn [app foldr]. rewrite IH. lia. Qed.

Lemma inuse_of_app A B : inuse_of (A ++ B) = inuse_of A + inuse_of B.
Proof. unfold inuse_of. induction A as [|b A IH]; [done|]. cbn [app foldr]. rewrite IH. lia. Qed.

Lemma inv_block s A b B : inv s (A ++ b :: B) -> major_ok (mm s) b.
Proof. intros Hi. pose proof (iv_blocks _ _ Hi) as Hb. by apply Forall_app in Hb as [_ [? _]%list.Forall_cons]. Qed.

Lemma inv_view s A b B : inv s (A ++ b :: B) ->
  view (mm s) (b_at b) = Some (Node (last_of 0 (majors A)) (first_of (majors B) 0) (b_maj b)).
Proof.
  intros Hi. pose proof (iv_list _ _ Hi) as Hl. rewrite majors_app in Hl. by apply dll_lookup in Hl as [_ ?].
Qed.

(** The headers of the other blocks are out of reach. *)
Lemma inv_frame m m' A b B : apart (A ++ b :: B) -> Forall (major_ok m) (A ++ b :: B) ->
  (forall z, 4096 <= z -> z < b_at b \/ b_at b + maj_size (b_maj b) <= z -> m' !! z = m !! z) ->
  Forall (major_ok m') (A ++ B) /\ forall a, a ∈ b_at <$> A ++ B -> view (A := major) m' a = view m a.
Proof.
  intros Hap Hok Hout.
  assert (Hin : forall b2, b2 ∈ A ++ B -> major_ok m b2 /\
    forall z, b_at b2 <= z < b_at b2 + maj_size (b_maj b2) -> m' !! z = m !! z).
  { intros b2 Hb2. pose proof (apart_other A b B b2 Hap Hb2) as Hd.
    assert (Hm2 : major_ok m b2).
    { rewrite <- Permutation_middle in Hok. apply list.Forall_cons in Hok as [_ Hok].
      rewrite list.Forall_forall in Hok. by apply Hok. }
    split; [done|]. intros z Hz. pose proof (mj_low _ _ Hm2). apply Hout; [lia|].
    unfold disjoint_range in Hd. lia. }
  split.
  - apply list.Forall_forall. intros b2 Hb2. destruct (Hin b2 Hb2) as [Hm2 He].
    eapply major_ok_frame; [exact Hm2| |].
    + intros y Hy. apply He. unfold HDR in *. lia.
    + intros y Hy. rewrite He by done. by apply (mj_cells _ _ Hm2).
  - intros a (b2 & -> & Hb2)%list_elem_of_fmap. destruct (Hin b2 Hb2) as [Hm2 He].
    unfold view. rewrite (rd_ext m); [done|]. intros y Hy. apply He. cbn in Hy.
    pose proof (mj_size _ _ Hm2). pose proof (mj_pages _ _ Hm2). unfold l_pageSize in *. lia.
Qed.

Lemma inv_replace s s' A b b' B : inv s (A ++ b :: B) ->
  b_at b' = b_at b -> maj_size (b_maj b') = maj_size (b_maj b) -> major_ok (mm s') b' ->
  view (mm s') (b_at b) = Some (Node (last_of 0 (majors A)) (first_of (majors B) 0) (b_maj b')) ->
  (forall z, 4096 <= z -> z < b_at b \/ b_at b + maj_size (b_maj b) <= z -> mm s' !! z = mm s !! z) ->
  l_memRoot s' = l_memRoot s -> (l_bestBet s' = l_bestBet s \/ l_bestBet s' = b_at b) -> page_size s' = page_size s ->
  l_allocated s' = l_allocated s ->
  l_inuse s' = u64 (l_inuse s + payload (b_mins b') - payload (b_mins b)) ->
  inv s' (A ++ b' :: B).
Proof.
  intros Hi Hat Hsz Hok' Hv Hout Hr Hb Hp Hal Hin. pose proof (iv_apart _ _ Hi) as Hap.
  destruct (inv_frame (mm s) (mm s') A b B Hap (iv_blocks _ _ Hi) Hout) as [Hoth Hvw].
  assert (Hat' : b_at <$> A ++ b' :: B = b_at <$> A ++ b :: B) by (by rewrite !fmap_app, !fmap_cons, Hat).
  pose proof (iv_list _ _ Hi) as Hl. rewrite majors_mid in Hl.
  constructor.
  - rewrite majors_mid, Hat. eapply (dll_update (view (mm s))); [exact Hl| |exact Hv|].
    + rewrite <- majors_mid, majors_at. apply Hap.
    + intros a Ha. apply Hvw. rewrite <- majors_at, majors_app. exact Ha.
  - eapply apart_ext; [|exact Hap]. by rewrite !fmap_app, !fmap_cons, Hat, Hsz.
  - apply Forall_app in Hoth as [? ?]. apply Forall_app. split; [done|]. by constructor.
  - rewrite Hr, (iv_root _ _ Hi), !majors_app, !first_of_app. by destruct A; cbn; rewrite ?Hat.
  - rewrite Hat'. destruct Hb as [->| ->]; [apply (iv_best _ _ Hi)|right].
    rewrite fmap_app, fmap_cons. apply elem_of_app. right. apply list_elem_of_here.
  - right. rewrite Hp. destruct (iv_page _ _ Hi) as [[E _]|?]; [by destruct A|done].
  - rewrite Hal, (iv_allocated _ _ Hi), !total_app. unfold total. cbn [foldr]. by rewrite Hsz.
  - rewrite Hin, (iv_inuse _ _ Hi), !inuse_of_app. unfold inuse_of. cbn [foldr]. unfold uw.
    rewrite <- Z.add_sub_assoc, Zplus_mod_idemp_l. f_equal. lia.
Qed.

(** ** Placing a new allocation *)

Section placing.
Context {K : Kernel}.

(** The block after the minor [(x, d)] has been put between [ms1] and [ms2]. *)
Definition grown (b : block) (ms1 : list (Z * minor_d)) (x : Z) (d : minor_d) (ms2 : list (Z * minor_d)) : block :=
  let ms := ms1 ++ (x, d) :: ms2 in
  Block (b_at b)
    (Major (maj_pages (b_maj b)) (maj_size (b_maj b)) (maj_usage (b_maj b) + (min_size d + HDR)) (maj_pad (b_maj b))
       (first_of ms 0)) ms.

Lemma user_byte_in x : x + HDR <= user_ptr x - ALIGN_INFO < x + HDR + 32.
Proof. pose proof (user_ptr_bounds x). unfold ALIGN_INFO. lia. Qed.

Lemma other_payload s A b B b2 y e z : inv s (A ++ b :: B) -> b2 ∈ A ++ B -> (y, e) ∈ b_mins b2 ->
  y + HDR <= z < y + HDR + min_size e -> 4096 <= z /\ (z < b_at b \/ b_at b + maj_size (b_maj b) <= z).
Proof.
  intros Hi Hb2 Hy Hz. pose proof (apart_other A b B b2 (iv_apart _ _ Hi) Hb2) as Hd.
  assert (Hok2 : major_ok (mm s) b2).
  { pose proof (iv_blocks _ _ Hi) as Hbs. rewrite list.Forall_forall in Hbs. apply Hbs, elem_of_mid. by right. }
  destruct (fits_in _ _ _ _ _ (mj_fits _ _ Hok2) Hy) as (? & ? & ?). pose proof (mj_low _ _ Hok2).
  unfold disjoint_range, HDR in *. lia.
Qed.

Lemma keeps_block s A b B m' : inv s (A ++ b :: B) ->
  (forall z, 4096 <= z -> z < b_at b \/ b_at b + maj_size (b_maj b) <= z -> m' !! z = mm s !! z) ->
  (forall y e z, (y, e) ∈ b_mins b -> y + HDR <= z < y + HDR + min_size e -> m' !! z = mm s !! z) ->
  keeps (A ++ b :: B) (mm s) m'.
Proof.
  intros Hi Hout Hin b2 y e z [->|Hb2]%elem_of_mid Hy Hz; [by apply (Hin y e)|].
  destruct (other_payload s A b B b2 y e z Hi Hb2 Hy Hz). by apply Hout.
Qed.

Section with_gap.
Context (s : heap) (A : list block) (b : block) (B : list block) (ms1 ms2 : list (Z * minor_d)) (x sz req : Z).
Hypothesis Hi : inv s (A ++ b :: B).
Hypothesis Hms : b_mins b = ms1 ++ ms2.
Hypothesis Hlo : end_of (b_at b + HDR) ms1 <= x.
Hypothesis Hhi : x + (HDR + sz) <= first_of ms2 (b_at b + maj_size (b_maj b)).
Hypothesis Hreq : 0 <= req.
Hypothesis Hsz : sz = req + 32.

Definition new_minor : minor_d := Minor (b_at b) LIBALLOC_MAGIC sz req.

Lemma place_ok m1 m3 : only (seam b ms1 ms2 x) (mm s) m1 ->
  dll (view m1) 0 (ms1 ++ (x, new_minor) :: ms2) 0 ->
  (forall z, b_at b + HDR <= z -> z <> user_ptr x - ALIGN_INFO -> m3 !! z = m1 !! z) ->
  m3 !! (user_ptr x - ALIGN_INFO) = Some (user_ptr x - (x + HDR)) ->
  cells m3 (b_at b) (maj_size (b_maj b)) ->
  major_ok m3 (grown b ms1 x new_minor ms2).
Proof.
  intros Ho Hl H3 Hu Hc. pose proof (inv_block _ _ _ _ Hi) as Hok.
  pose proof (mj_low _ _ Hok) as Hlow. pose proof (mj_fits _ _ Hok) as Hfit. pose proof (mj_list _ _ Hok) as Hold.
  rewrite Hms in Hfit, Hold. assert (Hn : HDR + 32 <= HDR + sz) by lia.
  pose proof (gap_in b ms1 ms2 x _ Hfit Hlo Hhi) as Hg.
  pose proof (user_byte_in x) as Hub. pose proof (mj_size _ _ Hok) as Hszb.
  assert (Hf' : fits (b_at b + HDR) (ms1 ++ (x, new_minor) :: ms2) (b_at b + maj_size (b_maj b))).
  { apply fits_insert; cbn; [done|done|lia|lia]. }
  assert (Hms3 : forall y e z, (y, e) ∈ ms1 ++ ms2 -> y + HDR <= z < y + HDR + min_size e -> m3 !! z = mm s !! z).
  { intros y e z Hin Hz. pose proof (gap_beside b ms1 ms2 x _ Hfit Hlo Hhi Hn y e Hin).
    pose proof (gap_member b ms1 ms2 Hfit y e Hin).
    rewrite H3 by (unfold HDR in *; lia). apply Ho.
    by apply (seam_payload b ms1 ms2 x _ Hfit Hlow Hlo Hhi Hn y e). }
  constructor; cbn [b_at b_maj b_mins grown maj_size maj_usage maj_pad maj_first maj_pages]; try apply Hok; try done.
  - rewrite (mj_usage _ _ Hok), Hms, !used_app. unfold used. cbn [foldr snd]. lia.
  - eapply dll_frame; [|exact Hl]. intros a ([y e] & -> & Hin)%list_elem_of_fmap. cbn [fst].
    destruct (fits_in _ _ _ _ _ Hf' Hin) as (? & ? & ?).
    unfold view. rewrite (rd_ext m1); [done|]. intros z Hz. apply H3; [lia|]. cbn in Hz.
    apply elem_of_mid in Hin as [Heq|Hin']; [injection Heq as -> ->; unfold HDR in *; lia|].
    pose proof (gap_beside b ms1 ms2 x _ Hfit Hlo Hhi Hn y e Hin'). unfold HDR in *; lia.
  - pose proof (mj_minors _ _ Hok) as Hmm. rewrite Hms in Hmm.
    assert (Hothers : forall e, e ∈ ms1 ++ ms2 -> minor_ok m3 (b_at b) e.1 e.2).
    { intros [y e] Hin. rewrite list.Forall_forall in Hmm. destruct (Hmm _ Hin). constructor; try done.
      cbn [fst snd] in *. rewrite <- mi_align. apply (Hms3 y e); [done|].
      pose proof (user_byte_in y). lia. }
    apply list.Forall_forall. intros [y e] [Heq|Hin]%elem_of_mid; [|by apply Hothers].
    injection Heq as -> ->. constructor; cbn; [done|done|done|unfold HDR in *; lia|done].
Qed.

(** The final assignments of a successful [malloc]. *)
Lemma place m1 : only (seam b ms1 ms2 x) (mm s) m1 ->
  view m1 x = Some (Node (last_of 0 ms1) (first_of ms2 0) new_minor) ->
  (forall k : minor, last_of 0 ms1 <> 0 -> view (mm s) (last_of 0 ms1) = Some k -> view m1 (last_of 0 ms1) = Some (set_next x k)) ->
  (forall k : minor, first_of ms2 0 <> 0 -> view (mm s) (first_of ms2 0) = Some k -> view m1 (first_of ms2 0) = Some (set_prev x k)) ->
  view m1 (b_at b) = Some (set_first (first_of (ms1 ++ (x, new_minor) :: ms2) 0)
    (Node (last_of 0 (majors A)) (first_of (majors B) 0) (b_maj b))) ->
  exists s', finish (set_mm s m1) (b_at b) x sz = Ret (user_ptr x, s') /\
    inv s' (A ++ grown b ms1 x new_minor ms2 :: B) /\ mutex s' = 0 /\ keeps (A ++ b :: B) (mm s) (mm s').
Proof.
  intros Ho Hx Hp Hq Hv. pose proof (inv_block _ _ _ _ Hi) as Hok.
  pose proof (mj_low _ _ Hok) as Hlow. pose proof (mj_fits _ _ Hok) as Hfit. pose proof (mj_list _ _ Hok) as Hold.
  rewrite Hms in Hfit, Hold. assert (Hn : HDR + 32 <= HDR + sz) by lia.
  pose proof (gap_in b ms1 ms2 x _ Hfit Hlo Hhi) as Hg.
  pose proof (mj_size _ _ Hok) as Hszb. pose proof (mj_high _ _ Hok).
  pose proof (user_byte_in x) as Hub.
  pose proof (link_minor b ms1 ms2 x _ Hfit Hlow Hlo Hhi Hn _ m1 new_minor Hold Ho Hx Hp Hq) as Hl.
  pose proof (only_cells _ _ _ _ _ Ho (mj_cells _ _ Hok)) as Hc1.
  assert (Hus : 0 <= HDR + used (ms1 ++ (x, new_minor) :: ms2) <= maj_size (b_maj b)).
  { assert (Hf' : fits (b_at b + HDR) (ms1 ++ (x, new_minor) :: ms2) (b_at b + maj_size (b_maj b))).
    { apply fits_insert; cbn; [|done|lia|lia]. rewrite <- Hms. apply Hok. }
    apply fits_used in Hf'. unfold HDR in *. lia. }
  assert (Hu : maj_usage (b_maj b) + (sz + HDR) = HDR + used (ms1 ++ (x, new_minor) :: ms2)).
  { rewrite (mj_usage _ _ Hok), Hms, !used_app. unfold used. cbn [foldr snd new_minor min_size]. lia. }
  assert (Hus0 : 0 <= maj_usage (b_maj b)).
  { rewrite (mj_usage _ _ Hok). pose proof (fits_used _ _ _ (mj_fits _ _ Hok)). unfold HDR in *. lia. }
  unfold finish.
  assert (Hwn : u32 (maj_usage (b_maj b) + u64 (sz + HDR)) = maj_usage (b_maj b) + (sz + HDR)).
  { rewrite (uw_small 64) by (unfold HDR in *; lia). apply uw_small. unfold HDR in *; lia. }
  destruct (upd_maj_spec (set_mm s m1) (b_at b)
    (fun n => set_usage (u32 (maj_usage (data n) + u64 (sz + HDR))) n) _ Hv) as (m2 & Hu2 & Hv2 & Ho2).
  - assert (Hw := view_wf _ _ _ Hv). cbn [set_first set_usage data prev next] in *.
    apply wf_major in Hw as (?&?&?&?&?&?&?); [|eapply cells_sub; [exact Hc1|lia|cbn; unfold HDR in *; lia]].
    apply wf_major. split_and!; try done. unfold in_u. cbn [maj_usage]. rewrite Hwn. unfold HDR in *. lia.
  - eapply cells_sub; [exact Hc1|lia|unfold HDR in *; lia].
  - rewrite Hu2. cbn [obind mm set_mm]. cbn [set_usage set_first data maj_usage prev next maj_pages maj_size maj_pad maj_first] in Hv2.
    rewrite Hwn in Hv2. assert (Ho' : only (seam b ms1 ms2 x) (mm s) m2).
    { eapply only_incl; [|eapply only_trans; [exact Ho|exact Ho2]]. unfold seam; in_lists. }
    pose proof (only_cells _ _ _ _ _ Ho2 Hc1) as Hc2.
    rewrite ALIGN_spec; [|unfold HDR in *; lia|unfold HDR in *; lia|].
    2:{ eapply cells_sub; [exact Hc2|unfold HDR in *; lia|unfold HDR in *; lia]. }
    cbn [obind]. eexists. split; [done|].
    set (m3 := <[user_ptr x - ALIGN_INFO := user_ptr x - (x + HDR)]> m2).
    assert (Hout : forall z, 4096 <= z -> z < b_at b \/ b_at b + maj_size (b_maj b) <= z -> m3 !! z = mm s !! z).
    { intros z Hz Hz'. unfold m3. rewrite lookup_insert_ne by (unfold HDR in *; lia). apply Ho'.
      by apply (seam_outside b ms1 ms2 x _ Hfit Hlo Hhi). }
    assert (Hmu : mutex (snd (liballoc_unlock (set_mm (set_inuse (set_mm s m2) (u64 (l_inuse s + sz))) m3))) = 0).
    { cbn. unfold pthread_mutex_unlock. destruct (Z.eqb_spec (mutex s) 0); done. }
    split; [|split; [exact Hmu|]].
    + eapply (inv_replace s); [exact Hi|done|done| | |exact Hout|done|by left|done|done|].
      * cbn [mm set_mm set_mutex snd liballoc_unlock set_inuse].
        eapply place_ok; [exact Ho|exact Hl| | |].
        -- intros z Hz Hzu. unfold m3. rewrite lookup_insert_ne by done. apply Ho2.
           constructor; [|done]. unfold HDR in *. lia.
        -- unfold m3. apply lookup_insert_eq.
        -- intros z Hz. unfold m3. destruct (decide (z = user_ptr x - ALIGN_INFO)) as [->|Hne].
           ++ rewrite lookup_insert_eq. eexists. split; [done|]. pose proof (user_ptr_bounds x).
              unfold byte, HDR in *. lia.
           ++ rewrite lookup_insert_ne by done. by apply Hc2.
      * cbn [mm set_mm set_mutex snd liballoc_unlock set_inuse]. transitivity (view (A := major) m2 (b_at b)); [|exact Hv2]. unfold view.
        rewrite (rd_ext m2); [done|]. intros z Hz. unfold m3. apply lookup_insert_ne. cbn in Hz. unfold HDR in *. lia.
      * cbn [l_inuse set_mm set_mutex snd liballoc_unlock set_inuse grown b_mins]. f_equal.
        rewrite Hms, !payload_app. unfold payload. cbn [foldr snd new_minor min_size]. lia.
    + apply keeps_block; [done|exact Hout|]. intros y e z Hin Hz. rewrite Hms in Hin.
      cbn [mm set_mm set_mutex snd liballoc_unlock set_inuse].
      pose proof (gap_beside b ms1 ms2 x _ Hfit Hlo Hhi Hn y e Hin).
      unfold m3. rewrite lookup_insert_ne by (unfold HDR in *; lia). apply Ho'.
      by apply (seam_payload b ms1 ms2 x _ Hfit Hlow Hlo Hhi Hn y e).
Qed.
End with_gap.
End placing.

(** ** The cases of malloc *)

Lemma wf_set_prev (k : minor) x : wf k -> in_u 64 x -> wf (set_prev x k).
Proof. destruct k as [p n []]. unfold set_prev. cbn. rewrite !wf_minor. tauto. Qed.
Lemma wf_set_next (k : minor) x : wf k -> in_u 64 x -> wf (set_next x k).
Proof. destruct k as [p n []]. unfold set_next. cbn. rewrite !wf_minor. tauto. Qed.
Lemma wf_maj_prev (k : major) x : wf k -> in_u 64 x -> wf (set_prev x k).
Proof. destruct k as [p n []]. unfold set_prev. cbn. rewrite !wf_major. tauto. Qed.
Lemma wf_maj_next (k : major) x : wf k -> in_u 64 x -> wf (set_next x k).
Proof. destruct k as [p n []]. unfold set_next. cbn. rewrite !wf_major. tauto. Qed.
Lemma wf_set_first (k : major) x : wf k -> in_u 64 x -> wf (set_first x k).
Proof. destruct k as [p n []]. unfold set_first. cbn. rewrite !wf_major. tauto. Qed.
Lemma wf_set_usage (k : major) x : wf k -> in_u 32 x -> wf (set_usage x k).
Proof. destruct k as [p n []]. unfold set_usage. cbn. rewrite !wf_major. tauto. Qed.
Lemma wf_set_magic (k : minor) x : wf k -> in_u 32 x -> wf (set_magic x k).
Proof. destruct k as [p n []]. unfold set_magic. cbn. rewrite !wf_minor. tauto. Qed.
Lemma wf_set_req_size (k : minor) x : wf k -> in_u 32 x -> wf (set_req_size x k).
Proof. destruct k as [p n []]. unfold set_req_size. cbn. rewrite !wf_minor. tauto. Qed.

#[export] Hint Resolve wf_set_prev wf_set_next wf_maj_prev wf_maj_next wf_set_first wf_set_usage wf_set_magic
  wf_set_req_size : fnx.

Lemma only_view1 {A} `{Layout A} a m m' b : Z.of_nat sizeof <= HDR -> only [a] m m' ->
  b + HDR <= a \/ a + HDR <= b -> view m' b = view m b.
Proof. intros Hs Ho Hb. eapply only_view; [done|exact Ho|]. by constructor. Qed.

Lemma view_wf_maj m a (k : major) : view m a = Some k -> cells m a HDR -> wf k.
Proof. intros Hv Hc. exact (view_wf m a k Hv Hc). Qed.
Lemma view_wf_min m a (k : minor) : view m a = Some k -> cells m a HDR -> wf k.
Proof. intros Hv Hc. eapply view_wf; [exact Hv|]. eapply cells_sub; [exact Hc|lia|cbn; unfold HDR; lia]. Qed.
Lemma view_min m a : cells m a HDR -> exists k : minor, view m a = Some k /\ wf k.
Proof. intros Hc. apply view_cells. eapply cells_sub; [exact Hc|lia|cbn; unfold HDR; lia]. Qed.
Lemma view_maj m a : cells m a HDR -> exists k : major, view m a = Some k /\ wf k.
Proof. exact (view_cells (A := major) m a). Qed.

#[export] Hint Resolve view_wf_maj view_wf_min : fnx.

(** Arithmetic about positions of structures. *)
Ltac hlia := unfold disjoint_range, HDR, in_u, byte in *; lia.

Lemma set_mm2 s m1 m2 : set_mm (set_mm s m1) m2 = set_mm s m2.
Proof. done. Qed.
Lemma mm_set s m : mm (set_mm s m) = m.
Proof. done. Qed.

Section cases.
Context {K : Kernel}.

(** The outcome [o] of a search is a new allocation [x] of block [b]. *)
Definition placed (s : heap) A b B ms1 x sz req ms2 (o : outcome (Z * heap)) : Prop :=
  exists s', o = Ret (user_ptr x, s') /\
    inv s' (A ++ grown b ms1 x (Minor (b_at b) LIBALLOC_MAGIC sz req) ms2 :: B) /\ mutex s' = 0 /\
    keeps (A ++ b :: B) (mm s) (mm s').

Section in_block.
Context (s : heap) (A : list block) (b : block) (B : list block) (sz req : Z).
Hypothesis Hi : inv s (A ++ b :: B).
Hypothesis Hreq : 0 <= req.
Hypothesis Hsz : sz = req + 32.
Hypothesis Hbound : sz < 2 ^ 31.

Lemma at_header : cells (mm s) (b_at b) HDR /\ 4096 <= b_at b /\ b_at b + maj_size (b_maj b) < 2 ^ 63.
Proof using Hi.
  clear Hbound Hsz Hreq.
  pose proof (inv_block _ _ _ _ Hi) as Hok. destruct Hok. split; [|done].
  eapply cells_sub; [exact mj_cells|lia|]. unfold l_pageSize in *. hlia.
Qed.

Lemma in_cells a n : b_at b <= a -> a + n <= b_at b + maj_size (b_maj b) -> cells (mm s) a n.
Proof using Hi.
  clear Hbound Hsz Hreq. intros ? ?. eapply cells_sub; [apply (mj_cells _ _ (inv_block _ _ _ _ Hi))|lia|lia]. Qed.

Lemma case2_spec : b_mins b = [] -> sz + HDR <= maj_size (b_maj b) - HDR ->
  placed s A b B [] (b_at b + HDR) sz req [] (case2 s (b_at b) sz req).
Proof.
  intros Hms Hfit. destruct at_header as (Hc & Hlow & Hhigh). pose proof (inv_view _ _ _ _ Hi) as Hv.
  pose proof (mj_size _ _ (inv_block _ _ _ _ Hi)).
  unfold case2. set (x := b_at b + HDR) in *.
  rewrite !(uw_small 64), !(uw_small 32) by hlia.
  assert (Hcx : cells (mm s) x HDR) by (apply in_cells; hlia).
  destruct (upd_maj_spec s (b_at b) (set_first x) _ Hv) as (m1 & -> & Hv1 & Ho1); [|done|].
  { apply wf_set_first; [eauto with fnx|hlia]. }
  pose proof (only_cells _ _ _ _ _ Ho1 Hcx) as Hcx1. destruct (view_min _ _ Hcx1) as (k & Hk & Hwk).
  cbn [obind].
  destruct (upd_min_spec (set_mm s m1) x (fun _ => Node 0 0 (Minor (b_at b) LIBALLOC_MAGIC sz req)) k Hk)
    as (m2 & -> & Hv2 & Ho2); [|done|].
  { apply wf_minor. unfold LIBALLOC_MAGIC. hlia. }
  cbn [obind mm set_mm] in *.
  apply (place s A b B [] [] x sz req Hi Hms); [done|cbn; hlia|done|done| |exact Hv2|done|done|].
  - eapply only_incl; [|eapply only_trans; [exact Ho1|exact Ho2]]. unfold seam; cbn [last_of first_of]; in_lists.
  - rewrite (only_view1 x m1); [exact Hv1|done|exact Ho2|]. hlia.
Qed.

Lemma minor_view ms1 y e ms2 : b_mins b = ms1 ++ (y, e) :: ms2 ->
  view (mm s) y = Some (Node (last_of 0 ms1) (first_of ms2 0) e) /\
  b_at b + HDR <= y /\ 0 <= min_size e /\ y + HDR + min_size e <= b_at b + maj_size (b_maj b) /\ cells (mm s) y HDR.
Proof using Hi.
  clear Hbound Hsz Hreq.
  intros Hms. pose proof (inv_block _ _ _ _ Hi) as Hok. pose proof (mj_list _ _ Hok) as Hl.
  pose proof (mj_fits _ _ Hok) as Hf. rewrite Hms in Hl, Hf. apply dll_lookup in Hl as [_ Hl].
  destruct (fits_in _ _ _ y e Hf) as (? & ? & ?); [apply elem_of_mid; by left|].
  split_and!; [done|done|done|done|]. apply in_cells; hlia.
Qed.

Lemma case3_spec f e ms : b_mins b = (f, e) :: ms -> sz + HDR <= f - b_at b - HDR ->
  placed s A b B [] (b_at b + HDR) sz req ((f, e) :: ms) (case3 s (b_at b) f sz req).
Proof.
  intros Hms Hfit. destruct at_header as (Hc & Hlow & Hhigh). pose proof (inv_view _ _ _ _ Hi) as Hv.
  pose proof (mj_size _ _ (inv_block _ _ _ _ Hi)).
  destruct (minor_view [] f e ms Hms) as (Hvf & Hf1 & Hf2 & Hf3 & Hcf). cbn [last_of] in Hvf.
  unfold case3. set (x := b_at b + HDR) in *.
  rewrite !(uw_small 64), !(uw_small 32) by hlia.
  assert (Hcx : cells (mm s) x HDR) by (apply in_cells; hlia).
  destruct (upd_min_spec s f (set_prev x) _ Hvf) as (m1 & -> & Hv1 & Ho1); [|done|].
  { apply wf_set_prev; [eauto with fnx|hlia]. }
  pose proof (only_cells _ _ _ _ _ Ho1 Hcx) as Hcx1. destruct (view_min _ _ Hcx1) as (k & Hk & Hwk).
  cbn [obind].
  destruct (upd_min_spec (set_mm s m1) x (set_next f) k Hk) as (m2 & -> & Hv2 & Ho2); [|done|].
  { apply wf_set_next; [done|hlia]. }
  cbn [obind]. rewrite set_mm2, mm_set in *.
  assert (Ho12 : only [f; x] (mm s) m2) by exact (only_trans [f] [x] _ _ _ Ho1 Ho2).
  assert (Hva2 : view (A := major) m2 (b_at b) = view (mm s) (b_at b)).
  { eapply only_view; [done|exact Ho12|]. constructor; [hlia|constructor; [hlia|done]]. }
  rewrite Hv in Hva2. pose proof (only_cells _ _ _ _ _ Ho12 Hc) as Hc2.
  destruct (upd_maj_spec (set_mm s m2) (b_at b) (set_first x) _ Hva2) as (m3 & -> & Hv3 & Ho3); [|done|].
  { apply wf_set_first; [eauto with fnx|hlia]. }
  cbn [obind]. rewrite set_mm2, mm_set in *.
  assert (Hx3 : view m3 x = Some (set_next f k)).
  { rewrite (only_view1 (b_at b) m2); [exact Hv2|cbn; hlia|exact Ho3|hlia]. }
  pose proof (only_cells _ _ _ _ _ Ho3 (only_cells _ _ _ _ _ Ho12 Hcx)) as Hcx3.
  destruct (upd_min_spec (set_mm s m3) x
    (fun n => Node 0 (next n) (Minor (b_at b) LIBALLOC_MAGIC sz req)) _ Hx3) as (m4 & -> & Hv4 & Ho4); [|done|].
  { apply wf_minor. unfold LIBALLOC_MAGIC. cbn [next set_next]. hlia. }
  cbn [obind set_next next] in *. rewrite set_mm2, mm_set in *.
  assert (Ho : only (seam b [] ((f, e) :: ms) x) (mm s) m4).
  { eapply only_incl; [|eapply only_trans; [exact Ho12|eapply only_trans; [exact Ho3|exact Ho4]]].
    unfold seam; cbn [last_of first_of]; in_lists. }
  apply (place s A b B [] ((f, e) :: ms) x sz req Hi Hms); [done|cbn; hlia|done|done|done|exact Hv4|done| |].
  - cbn [first_of]. intros k' _ Hk'. rewrite Hvf in Hk'. injection Hk' as <-. rewrite <- Hv1.
    rewrite (only_view1 x m3); [|cbn; hlia|exact Ho4|hlia].
    rewrite (only_view1 (b_at b) m2); [|cbn; hlia|exact Ho3|hlia].
    apply (only_view1 x); [cbn; hlia|exact Ho2|hlia].
  - rewrite (only_view1 x m3); [exact Hv3|done|exact Ho4|hlia].
Qed.

(** The gap after the minor [(y, e)]. *)
Section after_minor.
Context (l1 : list (Z * minor_d)) (y : Z) (e : minor_d) (l2 : list (Z * minor_d)).
Hypothesis Hms : b_mins b = l1 ++ (y, e) :: l2.
Let x := y + HDR + min_size e.
Let ms1 := l1 ++ [(y, e)].
Hypothesis Hgap : x + (HDR + sz) <= first_of l2 (b_at b + maj_size (b_maj b)).

Lemma after_mins : b_mins b = ms1 ++ l2.
Proof. unfold ms1. rewrite Hms, <- app_assoc. done. Qed.

Lemma after_last : last_of 0 ms1 = y.
Proof. unfold ms1. by rewrite last_of_app. Qed.

Lemma after_end lo : end_of lo ms1 = x.
Proof. unfold ms1. clear. revert lo. induction l1 as [|[z f] l IH]; intros lo; [done|apply IH]. Qed.

Lemma after_first d : set_first (first_of (ms1 ++ (x, d) :: l2) 0)
    (Node (last_of 0 (majors A)) (first_of (majors B) 0) (b_maj b))
  = Node (last_of 0 (majors A)) (first_of (majors B) 0) (b_maj b).
Proof.
  pose proof (mj_first _ _ (inv_block _ _ _ _ Hi)) as Hf. rewrite after_mins in Hf.
  unfold set_first. cbn [data prev next]. destruct (b_maj b) as [pg si us pd fi].
  cbn [maj_pages maj_size maj_usage maj_pad maj_first] in *. rewrite Hf. do 2 f_equal.
  unfold ms1. by destruct l1 as [|[] ?].
Qed.

Lemma after_bounds : b_at b + HDR <= y /\ y + HDR <= x /\ x + HDR + sz <= b_at b + maj_size (b_maj b) /\
  cells (mm s) x HDR.
Proof.
  destruct (minor_view l1 y e l2 Hms) as (Hvy & Hy1 & Hy2 & Hy3 & Hcy).
  assert (Hend : x + HDR + sz <= b_at b + maj_size (b_maj b)).
  { destruct l2 as [|[z f] l]; [cbn in Hgap; lia|]. cbn in Hgap.
    destruct (minor_view (l1 ++ [(y, e)]) z f l) as (_ & ? & ? & ? & _); [by rewrite Hms, <- app_assoc|]. hlia. }
  split_and!; [done|unfold x; lia|done|]. apply in_cells; unfold x in *; hlia.
Qed.

Lemma case4_1_spec : l2 = [] -> placed s A b B ms1 x sz req l2 (case4_1 s (b_at b) y sz req).
Proof.
  intros Hl2. destruct at_header as (Hc & Hlow & Hhigh). pose proof (inv_view _ _ _ _ Hi) as Hv.
  pose proof (mj_size _ _ (inv_block _ _ _ _ Hi)). destruct after_bounds as (Hy1 & Hyx & Hxe & Hcx).
  destruct (minor_view l1 y e l2 Hms) as (Hvy & _ & _ & _ & Hcy).
  rewrite Hl2 in Hvy. cbn [first_of] in Hvy. pose proof Hgap as Hgap'. rewrite Hl2 in Hgap'. cbn [first_of] in Hgap'.
  assert (Hms' : b_mins b = ms1 ++ []) by (rewrite after_mins, Hl2; done).
  rewrite Hl2. unfold case4_1, get_min. rewrite (view_rd _ _ _ Hvy). cbn [obind data min_size]. fold x.
  rewrite !(uw_small 64), !(uw_small 32) by hlia.
  destruct (upd_min_spec s y (set_next x) _ Hvy) as (m1 & -> & Hv1 & Ho1); [|done|].
  { apply wf_set_next; [eauto with fnx|hlia]. }
  pose proof (only_cells _ _ _ _ _ Ho1 Hcx) as Hcx1. destruct (view_min _ _ Hcx1) as (k & Hk & Hwk).
  cbn [obind].
  destruct (upd_min_spec (set_mm s m1) x (fun _ => Node y 0 (Minor (b_at b) LIBALLOC_MAGIC sz req)) k Hk)
    as (m2 & -> & Hv2 & Ho2); [|done|].
  { apply wf_minor. unfold LIBALLOC_MAGIC. hlia. }
  cbn [obind]. rewrite set_mm2, mm_set in *.
  apply (place s A b B ms1 [] x sz req Hi Hms'); [rewrite after_end; lia|done|done|done| | | |done|].
  - eapply only_incl; [|eapply only_trans; [exact Ho1|exact Ho2]].
    unfold seam; rewrite after_last; cbn [first_of]; in_lists.
  - rewrite after_last. exact Hv2.
  - rewrite after_last. intros k' _ Hk'. rewrite Hvy in Hk'. injection Hk' as <-. rewrite <- Hv1.
    apply (only_view1 x); [cbn; hlia|exact Ho2|hlia].
  - rewrite <- Hl2, after_first, <- Hv. rewrite (only_view1 x m1); [|done|exact Ho2|hlia].
    apply (only_view1 y); [done|exact Ho1|hlia].
Qed.

Lemma case4_2_spec z f l : l2 = (z, f) :: l -> placed s A b B ms1 x sz req l2 (case4_2 s (b_at b) y sz req).
Proof.
  intros Hl2. destruct at_header as (Hc & Hlow & Hhigh). pose proof (inv_view _ _ _ _ Hi) as Hv.
  pose proof (mj_size _ _ (inv_block _ _ _ _ Hi)). destruct after_bounds as (Hy1 & Hyx & Hxe & Hcx).
  destruct (minor_view l1 y e l2 Hms) as (Hvy & _ & _ & _ & Hcy).
  assert (Hms' : b_mins b = ms1 ++ (z, f) :: l) by (rewrite after_mins, Hl2; done).
  destruct (minor_view ms1 z f l Hms') as (Hvz & Hz1 & Hz2 & Hz3 & Hcz).
  pose proof Hgap as Hgap'. rewrite Hl2 in Hgap'. cbn [first_of] in Hgap'. rewrite after_last in Hvz.
  unfold case4_2, get_min. rewrite (view_rd _ _ _ Hvy). rewrite Hl2. cbn [obind data min_size next first_of].
  fold x. rewrite !(uw_small 64), !(uw_small 32) by hlia. destruct (view_min _ _ Hcx) as (k & Hk & Hwk).
  destruct (upd_min_spec s x (fun _ => Node y z (Minor (b_at b) LIBALLOC_MAGIC sz req)) k Hk)
    as (m1 & -> & Hv1 & Ho1); [|done|].
  { apply wf_minor. unfold LIBALLOC_MAGIC. hlia. }
  cbn [obind].
  assert (Hvz1 : view m1 z = Some (Node y (first_of l 0) f)).
  { rewrite (only_view1 x (mm s)); [exact Hvz|cbn; hlia|exact Ho1|hlia]. }
  destruct (upd_min_spec (set_mm s m1) z (set_prev x) _ Hvz1) as (m2 & -> & Hv2 & Ho2).
  { apply wf_set_prev; [eapply view_wf_min; [exact Hvz|done]|hlia]. }
  { by apply (only_cells _ _ _ _ _ Ho1). }
  cbn [obind]. rewrite set_mm2, mm_set in *.
  assert (Ho12 : only [x; z] (mm s) m2) by exact (only_trans [x] [z] _ _ _ Ho1 Ho2).
  assert (Hvy2 : view m2 y = Some (Node (last_of 0 l1) (first_of l2 0) e)).
  { rewrite (only_view [x; z] (mm s)); [exact Hvy|cbn; hlia|exact Ho12|].
    constructor; [hlia|constructor; [hlia|done]]. }
  destruct (upd_min_spec (set_mm s m2) y (set_next x) _ Hvy2) as (m3 & -> & Hv3 & Ho3).
  { apply wf_set_next; [eapply view_wf_min; [exact Hvy|done]|hlia]. }
  { by apply (only_cells _ _ _ _ _ Ho12). }
  cbn [obind]. rewrite set_mm2, mm_set in *.
  apply (place s A b B ms1 ((z, f) :: l) x sz req Hi Hms'); [rewrite after_end; lia|done|done|done| | | | |].
  - eapply only_incl; [|eapply only_trans; [exact Ho12|exact Ho3]].
    unfold seam; rewrite after_last; cbn [first_of]; in_lists.
  - rewrite after_last. cbn [first_of]. rewrite (only_view1 y m2); [|cbn; hlia|exact Ho3|hlia].
    rewrite (only_view1 z m1); [exact Hv1|cbn; hlia|exact Ho2|hlia].
  - rewrite after_last. intros k' _ Hk'. rewrite Hvy in Hk'. injection Hk' as <-. done.
  - cbn [first_of]. intros k' _ Hk'. rewrite Hvz in Hk'. injection Hk' as <-. rewrite <- Hv2.
    apply (only_view1 y); [cbn; hlia|exact Ho3|hlia].
  - rewrite <- Hl2, after_first, <- Hv. rewrite (only_view1 y m2); [|done|exact Ho3|hlia].
    apply (only_view [x; z]); [done|exact Ho12|]. constructor; [hlia|constructor; [hlia|done]].
Qed.
End after_minor.
End in_block.
End cases.

(** ** The search inside a block *)

(** No list of mapped addresses is longer than the memory. *)
Lemma mapped_length (m : mem) (l : list Z) : NoDup l -> (forall a, a ∈ l -> is_Some (m !! a)) -> (length l <= size m)%nat.
Proof.
  intros Hnd Hm. rewrite <- (size_list_to_set (C := gset Z)) by done. rewrite <- size_dom. 
  apply subseteq_size. intros a Ha. apply elem_of_list_to_set in Ha. by apply elem_of_dom, Hm.
Qed.

Section search.
Context {K : Kernel}.

Definition placed_somewhere (s : heap) A b B sz req (o : outcome (Z * heap)) : Prop :=
  exists ms1 ms2 x, b_mins b = ms1 ++ ms2 /\ placed s A b B ms1 x sz req ms2 o.

Section in_block.
Context (s : heap) (A : list block) (b : block) (B : list block) (sz req : Z).
Hypothesis Hi : inv s (A ++ b :: B).
Hypothesis Hreq : 0 <= req.
Hypothesis Hsz : sz = req + 32.
Hypothesis Hbound : sz < 2 ^ 31.

Lemma minors_fuel : (length (b_mins b) < loop_fuel (mm s))%nat.
Proof.
  pose proof (inv_block _ _ _ _ Hi) as Hok. unfold loop_fuel. rewrite <- (length_fmap fst). apply Nat.lt_succ_r.
  apply mapped_length; [apply (fits_NoDup _ _ _ (mj_fits _ _ Hok))|].
  intros a ([y e] & -> & Hin)%list_elem_of_fmap. destruct (fits_in _ _ _ _ _ (mj_fits _ _ Hok) Hin) as (? & ? & ?).
  destruct (mj_cells _ _ Hok y) as (v & Hv & _); [hlia|]. by exists v.
Qed.

Lemma minors_loop_spec fuel l1 ms : b_mins b = l1 ++ ms -> (length ms < fuel)%nat ->
  minors_loop fuel s (b_at b) sz req (first_of ms 0) = Ret None \/
  exists r, minors_loop fuel s (b_at b) sz req (first_of ms 0) = Ret (Some r) /\
    placed_somewhere s A b B sz req (Ret r).
Proof.
  revert l1 fuel. induction ms as [|[y e] ms IH]; intros l1 fuel Hms Hfuel; (destruct fuel as [|fuel]; [cbn in Hfuel; lia|]).
  { by left. }
  destruct (minor_view s A b B Hi l1 y e ms Hms) as (Hvy & Hy1 & Hy2 & Hy3 & Hcy).
  pose proof (inv_block _ _ _ _ Hi) as Hok. pose proof (mj_low _ _ Hok). pose proof (mj_high _ _ Hok).
  pose proof (inv_view _ _ _ _ Hi) as Hv. cbn [minors_loop first_of].
  destruct (Z.eqb_spec y 0); [hlia|]. unfold get_min. rewrite (view_rd _ _ _ Hvy). cbn [obind next data].
  assert (Hstep : minors_loop fuel s (b_at b) sz req (first_of ms 0) = Ret None \/
    exists r, minors_loop fuel s (b_at b) sz req (first_of ms 0) = Ret (Some r) /\
      placed_somewhere s A b B sz req (Ret r)).
  { apply (IH (l1 ++ [(y, e)])); [by rewrite Hms, <- app_assoc|cbn in Hfuel; lia]. }
  rewrite (uw_small 64 (sz + HDR)) by hlia. destruct ms as [|[z f] ms].
  - cbn [first_of Z.eqb]. unfold get_maj. rewrite (view_rd _ _ _ Hv). cbn [obind data].
    rewrite uw_small by hlia. rewrite Z.geb_leb. destruct (Z.leb_spec (sz + HDR) (b_at b + maj_size (b_maj b) - y - HDR - min_size e)); [|exact Hstep].
    right. destruct (case4_1_spec s A b B sz req Hi Hreq Hsz Hbound l1 y e [] Hms) as (s' & Hs' & Hrest); [cbn; hlia|done|].
    rewrite Hs'. cbn [obind]. eexists. split; [done|]. exists (l1 ++ [(y, e)]), [], (y + HDR + min_size e).
    split; [by rewrite Hms, app_nil_r|]. exists s'. by split.
  - destruct (minor_view s A b B Hi (l1 ++ [(y, e)]) z f ms) as (_ & Hz1 & Hz2 & Hz3 & _); [by rewrite Hms, <- app_assoc|].
    assert (Hyz : y + HDR + min_size e <= z).
    { pose proof (mj_fits _ _ Hok) as Hf. rewrite Hms in Hf. apply fits_app in Hf as [_ Hf]. apply Hf. }
    cbn [first_of] in *. destruct (Z.eqb_spec z 0); [hlia|]. rewrite uw_small by hlia. rewrite Z.geb_leb.
    destruct (Z.leb_spec (sz + HDR) (z - y - HDR - min_size e)); [|exact Hstep].
    right. destruct (case4_2_spec s A b B sz req Hi Hreq Hsz Hbound l1 y e ((z, f) :: ms) Hms) with (z := z) (f := f) (l := ms)
      as (s' & Hs' & Hrest); [cbn; hlia|done|].
    rewrite Hs'. cbn [obind]. eexists. split; [done|]. exists (l1 ++ [(y, e)]), ((z, f) :: ms), (y + HDR + min_size e).
    split; [by rewrite Hms, <- app_assoc|]. exists s'. by split.
Qed.

Lemma try_major_spec : sz + HDR <= maj_size (b_maj b) - maj_usage (b_maj b) ->
  (try_major s (b_at b) sz req = Ret None /\ b_mins b <> []) \/
  exists r, try_major s (b_at b) sz req = Ret (Some r) /\ placed_somewhere s A b B sz req (Ret r).
Proof.
  intros Hfree. pose proof (inv_block _ _ _ _ Hi) as Hok. pose proof (mj_low _ _ Hok). pose proof (mj_high _ _ Hok).
  pose proof (inv_view _ _ _ _ Hi) as Hv. unfold try_major, get_maj. rewrite (view_rd _ _ _ Hv). cbn [obind data].
  rewrite (mj_first _ _ Hok). destruct (b_mins b) as [|[f e] ms] eqn:Hms.
  - cbn [first_of Z.eqb]. right. pose proof (mj_usage _ _ Hok) as Hu. rewrite Hms in Hu. unfold used in Hu. cbn in Hu.
    destruct (case2_spec s A b B sz req Hi Hreq Hsz Hbound Hms) as (s' & Hs' & Hrest); [hlia|].
    rewrite Hs'. cbn [obind]. eexists. split; [done|]. exists [], [], (b_at b + HDR). split; [done|]. exists s'. by split.
  - destruct (minor_view s A b B Hi [] f e ms Hms) as (_ & Hf1 & Hf2 & Hf3 & _). cbn [first_of].
    destruct (Z.eqb_spec f 0); [hlia|]. rewrite !(uw_small 64) by hlia. rewrite Z.geb_leb.
    destruct (Z.leb_spec (sz + HDR) (f - b_at b - HDR)).
    + right. destruct (case3_spec s A b B sz req Hi Hreq Hsz Hbound f e ms Hms) as (s' & Hs' & Hrest); [hlia|].
      rewrite Hs'. cbn [obind]. eexists. split; [done|]. exists [], ((f, e) :: ms), (b_at b + HDR).
      split; [done|]. exists s'. by split.
    + destruct (minors_loop_spec (loop_fuel (mm s)) [] ((f, e) :: ms) Hms) as [Hl|Hr];
        [rewrite <- Hms; apply minors_fuel|by left|by right].
Qed.
End in_block.
End search.

