(* ===== verification/LiballocMalloc.v ===== *)
(** * malloc keeps the heap well formed

    Pages from the kernel, the search over the blocks, and the specification
    of [malloc] in terms of the lists of blocks. *)

From S2P Require Import Prelude CMem CStruct LinkedList LibcErrno KernelMem Liballoc LiballocBlocks.

(** ** Pages from the kernel *)

(** The mapped memory is kept; more may have become mapped. *)
Definition ext (m m' : mem) : Prop := forall x, is_Some (m !! x) -> m' !! x = m !! x.

Lemma ext_refl m : ext m m.
Proof. done. Qed.

Lemma ext_cells m m' a n : ext m m' -> cells m a n -> cells m' a n.
Proof. intros He Hc x Hx. destruct (Hc x Hx) as (b & Hb & Hbb). exists b. rewrite He; [done|by exists b]. Qed.

Lemma ext_view {A} `{Layout A} m m' a : ext m m' -> cells m a (Z.of_nat sizeof) -> view m' a = view m a.
Proof.
  intros He Hc. unfold view. rewrite (rd_ext m); [done|]. intros y Hy. apply He.
  destruct (Hc y Hy) as (b & Hb & _). by exists b.
Qed.

Lemma major_ok_ext m m' b : ext m m' -> major_ok m b -> major_ok m' b.
Proof.
  intros He Hok. apply (major_ok_frame m); [done| |by eapply ext_cells, Hok].
  intros y Hy. apply He. destruct (mj_cells _ _ Hok y) as (v & Hv & _); [hlia|]. by exists v.
Qed.

Lemma in_block_of s H b : inv s H -> b ∈ H -> major_ok (mm s) b.
Proof. intros Hi Hb. pose proof (iv_blocks _ _ Hi) as Hbs. rewrite list.Forall_forall in Hbs. by apply Hbs. Qed.

Lemma block_header m b : major_ok m b -> cells m (b_at b) HDR.
Proof.
  intros []. eapply cells_sub; [exact mj_cells|lia|]. unfold l_pageSize in *. hlia.
Qed.

(** The invariant under more memory and for other values of the kernel's part
    of the state. *)
Lemma inv_ext s s' H : inv s H -> ext (mm s) (mm s') ->
  l_memRoot s' = l_memRoot s -> l_bestBet s' = l_bestBet s -> l_allocated s' = l_allocated s ->
  l_inuse s' = l_inuse s -> (page_size s' = page_size s \/ page_size s' = l_pageSize) -> inv s' H.
Proof.
  intros Hi He Hr Hb Ha Hu Hp. constructor.
  - eapply dll_frame; [|apply (iv_list _ _ Hi)]. intros a Ha'. rewrite majors_at in Ha'.
    apply list_elem_of_fmap in Ha' as (b & -> & Hin). apply ext_view; [done|].
    apply block_header, (in_block_of _ _ _ Hi Hin).
  - apply Hi.
  - eapply Forall_impl; [|apply Hi]. intros b. by apply major_ok_ext.
  - rewrite Hr. apply Hi.
  - rewrite Hb. apply Hi.
  - destruct Hp as [->| ->]; [apply Hi|by right].
  - rewrite Ha. apply Hi.
  - rewrite Hu. apply Hi.
Qed.

Lemma ext_keeps s H m' : inv s H -> ext (mm s) m' -> keeps H (mm s) m'.
Proof.
  intros Hi He b y e z Hb Hy Hz. pose proof (in_block_of _ _ _ Hi Hb) as Hok. apply He.
  destruct (fits_in _ _ _ _ _ (mj_fits _ _ Hok) Hy) as (? & ? & ?).
  destruct (mj_cells _ _ Hok z) as (v & Hv & _); [hlia|]. by exists v.
Qed.

Lemma keeps_trans H m1 m2 m3 : keeps H m1 m2 -> keeps H m2 m3 -> keeps H m1 m3.
Proof. intros H1 H2 b y e z Hb Hy Hz. rewrite (H2 b y e z), (H1 b y e z); done. Qed.

Lemma keeps_incl H H' m m' : (forall b, b ∈ H -> b ∈ H') -> keeps H' m m' -> keeps H m m'.
Proof. intros Hi Hk b y e z Hb. apply Hk. by apply Hi. Qed.

Section pages.
Context {K : Kernel}.

Lemma liballoc_alloc_spec s pages : 0 < pages -> pages * l_pageSize < 2 ^ 31 ->
  (page_size s < 0 \/ page_size s = l_pageSize) ->
  let len := pages * l_pageSize in
  exists p m' e, liballoc_alloc s pages = (p, set_os s m' l_pageSize e) /\ ext (mm s) m' /\
    (p = 0 \/
     4096 <= p /\ p + len < 2 ^ 63 /\ cells m' p len /\ (forall x, p <= x < p + len -> mm s !! x = None)).
Proof.
  intros Hp Hlen Hps. cbv zeta. unfold liballoc_alloc.
  assert ((if page_size s <? 0 then getpagesize else page_size s) = l_pageSize) as ->.
  { destruct (Z.ltb_spec (page_size s) 0); [done|lia]. }
  unfold l_pageSize in *. rewrite (sw_small 32) by (unfold in_s; lia). rewrite uw_small by lia.
  set (len := pages * 4096) in *.
  pose proof (sys_MemoryMap_spec (mm s) len ltac:(lia)) as Hmap.
  destruct (sys_MemoryMap (mm s) len) as [r m'].
  destruct (mmap (cur_errno s) r) as [p2 e] eqn:Em. unfold mmap, check_errno in Em. rewrite Z.geb_leb in Em.
  change EOK with 0 in Em.
  destruct Hmap as [[Hr ->]|(Hr0 & Hral & Hrb & Hcells & Hfresh & Hsame)].
  { rewrite (sw_small 32) in Em by (unfold in_s; lia). destruct (Z.leb_spec 0 r); [lia|]. injection Em as <- <-.
    exists 0, (mm s), r. split_and!; [done|done|by left]. }
  assert (Hext : ext (mm s) m').
  { intros x [v Hv]. apply Hsame. destruct (decide (r <= x < r + len)); [|lia]. by rewrite Hfresh in Hv. }
  destruct (Z.leb_spec 0 (s32 r)); injection Em as <- <-.
  2:{ exists 0, m', (s32 r). split_and!; [done|done|by left]. }
  destruct (Z.eqb_spec r MAP_FAILED) as [E|_]; [unfold MAP_FAILED in E; lia|].
  cbn [mm set_os cur_errno]. pose proof (sys_MemoryProtect_spec m' r len) as Hprot.
  destruct (check_errno (cur_errno s) (sys_MemoryProtect m' r len) (-1)) as [st e] eqn:Ec.
  destruct (Z.eqb_spec st 0) as [->|Hst]; cbn [negb].
  - exists r, m', e. split_and!; [done|done|]. right. pose proof (Z.mod_divide r 4096 ltac:(lia)) as [Hd _].
    destruct (Hd Hral) as [q Hq]. split_and!; [lia|done|done|done].
  - destruct (sys_MemoryUnmap m' r len) as [r2 m2] eqn:Eu. eexists 0, m2, _. split_and!; [done| |by left].
    intros x Hx. pose proof (sys_MemoryUnmap_spec m' r len Hr0 ltac:(lia) x) as Hm. rewrite Eu in Hm. cbn in Hm.
    rewrite Hm. case_decide as Hd; [|by apply Hext]. destruct Hx as [v Hv]. by rewrite Hfresh in Hv.
Qed.

(** What [allocate_new_page] hands over: a block of its own, not yet linked. *)
Definition fresh_block (s : heap) (H : list block) (sz : Z) (b : block) : Prop :=
  b_mins b = [] /\ major_ok (mm s) b /\ sz + HDR <= maj_size (b_maj b) - HDR /\
  view (mm s) (b_at b) = Some (Node 0 0 (b_maj b)) /\
  forall b2, b2 ∈ H -> disjoint_range (b_at b2) (maj_size (b_maj b2)) (b_at b) (maj_size (b_maj b)).

Definition pages_for (sz : Z) : Z := Z.max l_pageCount ((sz + 2 * HDR + (l_pageSize - 1)) / l_pageSize).

Lemma pages_for_bounds sz : 0 <= sz < 2 ^ 31 - 8192 ->
  16 <= pages_for sz /\ pages_for sz * l_pageSize < 2 ^ 31 /\ sz + 2 * HDR <= pages_for sz * l_pageSize.
Proof. intros Hsz. unfold pages_for, l_pageSize, l_pageCount, HDR. dlia. Qed.

Lemma pages_for_code sz : 0 <= sz < 2 ^ 31 - 8192 ->
  (let st := u32 (u32 sz + HDR) in
   let st := u32 (st + HDR) in
   let st := if st mod l_pageSize =? 0 then st / l_pageSize else u32 (st / l_pageSize + 1) in
   if st <? l_pageCount then l_pageCount else st) = pages_for sz.
Proof.
  intros Hsz. cbv zeta. unfold HDR. rewrite !(uw_small 32 sz), !(uw_small 32 (sz + 40)), !(uw_small 32 (sz + 40 + 40)) by lia.
  unfold pages_for, l_pageSize, l_pageCount, HDR.
  rewrite (uw_small 32 ((sz + 40 + 40) / 4096 + 1)) by dlia.
  destruct (Z.eqb_spec ((sz + 40 + 40) mod 4096) 0); zcases; dlia.
Qed.
End pages.

Lemma eta_node {A} (k : node A) : Node (prev k) (next k) (data k) = k.
Proof. by destruct k. Qed.

Section new_pages.
Context {K : Kernel}.

Lemma allocate_new_page_spec s H sz : inv s H -> 0 <= sz < 2 ^ 31 - 8192 ->
  exists np s', allocate_new_page s sz = Ret (np, s') /\ mutex s' = mutex s /\ ext (mm s) (mm s') /\
    (np = 0 /\ inv s' H \/
     exists b, np = b_at b /\ fresh_block s' H sz b /\ inv (set_allocated s' (l_allocated s)) H /\
       page_size s' = l_pageSize /\ l_allocated s' = u64 (l_allocated s + maj_size (b_maj b)) /\
       maj_size (b_maj b) = pages_for sz * l_pageSize).
Proof.
  intros Hi Hsz. unfold allocate_new_page. cbv zeta. pose proof (pages_for_code sz Hsz) as Hst. cbv zeta in Hst.
  rewrite Hst. destruct (pages_for_bounds sz Hsz) as (Hp1 & Hp2 & Hp3).
  destruct (liballoc_alloc_spec s (pages_for sz)) as (p & m' & e & -> & Hext & Hp); [lia|done| |].
  { destruct (iv_page _ _ Hi) as [[_ ?]|?]; auto. }
  set (len := pages_for sz * l_pageSize) in *. destruct (Z.eqb_spec p 0) as [->|Hp0].
  { eexists _, _. split; [done|]. split; [done|]. split; [exact Hext|]. left. split; [done|].
    eapply inv_ext; [exact Hi|exact Hext|done..|by right]. }
  destruct Hp as [?|(Hlow & Hhigh & Hcells & Hfresh)]; [done|].
  assert (Hch : cells m' p HDR) by (eapply cells_sub; [exact Hcells|lia|hlia]).
  destruct (view_maj m' p Hch) as (k & Hk & Hwk).
  assert (Hlen : u32 len = len) by (apply uw_small; hlia).
  assert (Hpad : in_u 32 (maj_pad (data k))) by (destruct k as [? ? []]; apply wf_major in Hwk; cbn; tauto).
  destruct (upd_maj_spec (set_os s m' l_pageSize e) p
    (fun n => Node 0 0 (Major (pages_for sz) (u32 len) HDR (maj_pad (data n)) 0)) k Hk) as (m2 & -> & Hv2 & Ho2); [|done|].
  { apply wf_major. rewrite Hlen. unfold l_pageSize in *. hlia. }
  cbn [obind mm set_os] in *. rewrite Hlen in *.
  assert (Hext2 : ext (mm s) m2).
  { intros x Hx. destruct (decide (p <= x < p + len)); [destruct Hx as [v Hv]; by rewrite Hfresh in Hv|].
    rewrite <- (Hext x Hx). apply Ho2. constructor; [hlia|done]. }
  eexists _, _. split; [done|]. split; [done|]. split; [exact Hext2|]. right.
  exists (Block p (Major (pages_for sz) len HDR (maj_pad (data k)) 0) []). cbn [b_at b_maj b_mins maj_size mm set_mm set_allocated].
  split; [done|]. split; [split_and!|split; [|done]].
  - done.
  - constructor; cbn; try done; [hlia..|]. by eapply only_cells.
  - cbn. hlia.
  - exact Hv2.
  - cbn [b_at b_maj maj_size]. intros b2 Hb2. pose proof (in_block_of _ _ _ Hi Hb2) as Hok2. unfold disjoint_range.
    destruct (decide (b_at b2 + maj_size (b_maj b2) <= p \/ p + len <= b_at b2)) as [?|Hn]; [done|].
    destruct (mj_cells _ _ Hok2 (Z.max p (b_at b2))) as (v & Hv & _); [pose proof (mj_size _ _ Hok2); hlia|].
    rewrite Hfresh in Hv; [done|]. pose proof (mj_size _ _ Hok2). hlia.
  - eapply (inv_ext s); [done|exact Hext2|done..|by right].
Qed.

(** A first block becomes the root. *)
Lemma inv_first s sz b : fresh_block s [] sz b -> page_size s = l_pageSize ->
  inv (set_allocated s 0) [] -> l_allocated s = u64 (maj_size (b_maj b)) ->
  inv (set_memRoot s (b_at b)) [b].
Proof.
  intros (Hms & Hok & _ & Hv & _) Hps Hi Ha. constructor; cbn.
  - split; [pose proof (mj_low _ _ Hok); lia|]. done.
  - split; [apply NoDup_singleton|]. intros b1 b2 ->%list_elem_of_singleton ->%list_elem_of_singleton. by left.
  - by constructor.
  - done.
  - left. destruct (iv_best _ _ Hi) as [?|Hin]; [done|]. by apply not_elem_of_nil in Hin.
  - by right.
  - rewrite Ha. f_equal. lia.
  - rewrite Hms. cbn. apply (iv_inuse _ _ Hi).
Qed.

(** A further block is linked behind the last one. *)
Lemma inv_snoc s s' A b b0 sz : inv (set_allocated s (l_allocated s')) (A ++ [b]) ->
  fresh_block s (A ++ [b]) sz b0 -> page_size s' = l_pageSize ->
  only [b_at b; b_at b0] (mm s) (mm s') ->
  view (mm s') (b_at b) = Some (Node (last_of 0 (majors A)) (b_at b0) (b_maj b)) ->
  view (mm s') (b_at b0) = Some (Node (b_at b) 0 (b_maj b0)) ->
  l_memRoot s' = l_memRoot s -> l_bestBet s' = l_bestBet s -> l_inuse s' = l_inuse s ->
  inv (set_allocated s' (u64 (l_allocated s' + maj_size (b_maj b0)))) (A ++ [b] ++ [b0]).
Proof.
  intros Hi (Hms & Hok0 & Hsz & _ & Hdis) Hps Ho Hv Hv0 Hr Hb Hu.
  pose proof (iv_list _ _ Hi) as Hl. cbn [mm set_allocated] in Hl.
  pose proof (iv_apart _ _ Hi) as [Hnd Hap].
  assert (Hok : forall b2, b2 ∈ A ++ [b] -> major_ok (mm s) b2) by (intros b2; apply (in_block_of _ _ _ Hi)).
  assert (Hbin : b ∈ A ++ [b]) by (apply elem_of_mid; by left).
  assert (Hhdr : forall b2 a, b2 ∈ A ++ [b] -> a = b_at b0 \/ (a = b_at b /\ b_at b2 <> b_at b) ->
    b_at b2 + maj_size (b_maj b2) <= a \/ a + HDR <= b_at b2).
  { intros b2 a Hb2 [->|[-> Hne]].
    - pose proof (Hdis b2 Hb2). pose proof (mj_size _ _ Hok0). pose proof (mj_pages _ _ Hok0). unfold l_pageSize in *. hlia.
    - destruct (Hap b2 b Hb2 Hbin) as [?|?]; [done|].
      pose proof (mj_size _ _ (Hok b Hbin)). pose proof (mj_pages _ _ (Hok b Hbin)). unfold l_pageSize in *. hlia. }
  assert (Hsize : forall b2, major_ok (mm s) b2 -> HDR <= maj_size (b_maj b2)).
  { intros b2 Hb2. pose proof (mj_size _ _ Hb2). pose proof (mj_pages _ _ Hb2). unfold l_pageSize in *. hlia. }
  rewrite app_assoc. constructor; cbn [mm set_allocated l_memRoot l_bestBet l_inuse page_size l_allocated].
  - rewrite majors_app. cbn [majors fmap list_fmap]. eapply dll_insert with (l2 := []).
    + rewrite app_nil_r. exact Hl.
    + rewrite app_nil_r, majors_at. done.
    + pose proof (mj_low _ _ Hok0). lia.
    + rewrite majors_mid, last_of_app. exact Hv0.
    + rewrite app_nil_r, majors_at. intros a k (b2 & -> & Hb2)%list_elem_of_fmap Hk. unfold relink. cbn [first_of].
      rewrite majors_mid, last_of_app. cbn [last_of majors fmap list_fmap]. pose proof (mj_low _ _ (Hok b2 Hb2)).
      destruct (Z.eqb_spec (b_at b2) 0); [lia|]. destruct (Z.eqb_spec (b_at b2) (b_at b)) as [E|E].
      * rewrite E in *. rewrite majors_mid in Hl. apply dll_lookup in Hl as [_ Hl]. rewrite Hl in Hk. injection Hk as <-. exact Hv.
      * rewrite <- (eta_node k) in Hk. rewrite <- Hk. apply (only_view [b_at b; b_at b0]); [done|done|].
        pose proof (Hsize b2 (Hok b2 Hb2)). constructor; [|constructor; [|done]].
        -- destruct (Hhdr b2 (b_at b) Hb2); [by right|hlia|hlia].
        -- destruct (Hhdr b2 (b_at b0) Hb2); [by left|hlia|hlia].
  - split.
    + rewrite fmap_app. apply list.NoDup_app. split; [done|]. split; [|apply NoDup_singleton].
      intros a (b2 & -> & Hb2)%list_elem_of_fmap Ha%list_elem_of_singleton.
      pose proof (Hdis b2 Hb2). pose proof (Hsize b2 (Hok b2 Hb2)). pose proof (Hsize b0 Hok0). hlia.
    + intros b1 b2 H1 H2. rewrite elem_of_app, list_elem_of_singleton in H1, H2.
      destruct H1 as [H1| ->], H2 as [H2| ->]; [by apply Hap| | |by left]; right.
      * by apply Hdis.
      * pose proof (Hdis b2 H2). hlia.
  - apply Forall_app. split; [|constructor; [|done]].
    + apply list.Forall_forall. intros b2 Hb2. apply (major_ok_frame (mm s)); [by apply Hok| |].
      * intros y Hy. apply Ho. constructor; [|constructor; [|done]].
        -- destruct (decide (b_at b2 = b_at b)) as [E|E]; [rewrite <- E; hlia|].
           destruct (Hhdr b2 (b_at b) Hb2); [by right|hlia|hlia].
        -- destruct (Hhdr b2 (b_at b0) Hb2); [by left|hlia|hlia].
      * eapply only_cells; [exact Ho|]. apply (Hok b2 Hb2).
    + apply (major_ok_frame (mm s)); [done| |by eapply only_cells, Hok0].
      intros y Hy. apply Ho. constructor; [|constructor; [hlia|done]].
      pose proof (Hdis b Hbin). pose proof (Hsize b (Hok b Hbin)). hlia.
  - rewrite Hr, majors_app, first_of_app. pose proof (iv_root _ _ Hi) as Hrt. cbn in Hrt. rewrite Hrt.
    rewrite majors_mid. by destruct (majors A) as [|[]].
  - rewrite Hb. destruct (iv_best _ _ Hi) as [?|?]; [by left|right]. rewrite fmap_app. apply elem_of_app. by left.
  - by right.
  - rewrite total_app. pose proof (iv_allocated _ _ Hi) as Ha. cbn in Ha. rewrite Ha. unfold uw, total. cbn [foldr].
    rewrite Zplus_mod_idemp_l. f_equal. lia.
  - rewrite inuse_of_app. unfold inuse_of at 2. cbn [foldr]. rewrite Hms, Hu. cbn. rewrite Z.add_0_r.
    apply (iv_inuse _ _ Hi).
Qed.
End new_pages.

Section appending.
Context {K : Kernel}.

(** Rewriting a block's header with what it already holds. *)
Lemma inv_touch s A b B m' : inv s (A ++ b :: B) -> only [b_at b] (mm s) m' ->
  view (A := major) m' (b_at b) = view (mm s) (b_at b) ->
  inv (set_mm s m') (A ++ b :: B) /\ keeps (A ++ b :: B) (mm s) m'.
Proof.
  intros Hi Ho Hv. pose proof (inv_block _ _ _ _ Hi) as Hok. pose proof (mj_size _ _ Hok). pose proof (mj_pages _ _ Hok).
  unfold l_pageSize in *.
  assert (Hin : forall z, z < b_at b \/ b_at b + HDR <= z -> m' !! z = mm s !! z).
  { intros z Hz. apply Ho. constructor; [done|done]. }
  split.
  - eapply (inv_replace s); [done|done|done| | | |done|by left|done|done|]; cbn [mm set_mm].
    + apply (major_ok_frame (mm s)); [done| |by eapply only_cells, Hok]. intros y Hy. apply Hin. lia.
    + rewrite Hv. by apply inv_view.
    + intros z _ Hz. apply Hin. hlia.
    + cbn. rewrite (iv_inuse _ _ Hi). unfold uw. rewrite <- Z.add_sub_assoc, Z.sub_diag, Z.add_0_r.
      by rewrite Z.mod_mod by lia.
  - apply keeps_block; [done| |].
    + intros z _ Hz. apply Hin. hlia.
    + intros y e z Hy Hz. destruct (fits_in _ _ _ _ _ (mj_fits _ _ Hok) Hy) as (? & ? & ?). apply Hin. hlia.
Qed.

Lemma append_page_spec s A b sz : inv s (A ++ [b]) -> 0 <= sz < 2 ^ 31 - 8192 ->
  exists np s', append_page s (b_at b) sz = Ret (np, s') /\ mutex s' = mutex s /\ keeps (A ++ [b]) (mm s) (mm s') /\
    (np = 0 /\ inv s' (A ++ [b]) \/
     exists b0, np = b_at b0 /\ b_mins b0 = [] /\ sz + HDR <= maj_size (b_maj b0) - HDR /\ inv s' (A ++ [b] ++ [b0]) /\
       maj_size (b_maj b0) = pages_for sz * l_pageSize).
Proof.
  intros Hi Hsz. unfold append_page.
  destruct (allocate_new_page_spec s _ sz Hi Hsz) as (np & s1 & -> & Hmu & Hext & Hcase). cbn [obind].
  pose proof (ext_keeps _ _ _ Hi Hext) as Hk1. destruct Hcase as [[-> Hi1]|(b0 & -> & Hfr & Hi1 & Hps & Hal & Hpg)].
  - pose proof (inv_view _ _ _ _ Hi1) as Hv. pose proof (inv_block _ _ _ _ Hi1) as Hok.
    destruct (upd_maj_spec s1 (b_at b) (set_next 0) _ Hv) as (m2 & -> & Hv2 & Ho2); [|by apply block_header|].
    { apply wf_maj_next; [eapply view_wf_maj; [exact Hv|by apply block_header]|hlia]. }
    cbn [obind Z.eqb]. destruct (inv_touch s1 A b [] m2 Hi1 Ho2) as [Hi2 Hk2]; [by rewrite Hv|].
    eexists _, _. split; [done|]. split; [done|]. split; [by eapply keeps_trans|]. by left.
  - pose proof (inv_view _ _ _ _ Hi1) as Hv. pose proof (inv_block _ _ _ _ Hi1) as Hok. cbn [mm set_allocated] in Hv, Hok.
    pose proof Hfr as (Hms0 & Hok0 & Hsz0 & Hv0 & Hdis).
    pose proof (block_header _ _ Hok) as Hch. pose proof (block_header _ _ Hok0) as Hch0.
    assert (Hd : b_at b + HDR <= b_at b0 \/ b_at b0 + HDR <= b_at b).
    { pose proof (Hdis b ltac:(apply elem_of_mid; by left)). pose proof (mj_size _ _ Hok). pose proof (mj_pages _ _ Hok).
      pose proof (mj_size _ _ Hok0). pose proof (mj_pages _ _ Hok0). unfold l_pageSize in *. hlia. }
    pose proof (mj_low _ _ Hok). pose proof (mj_high _ _ Hok). pose proof (mj_size _ _ Hok).
    pose proof (mj_low _ _ Hok0). pose proof (mj_high _ _ Hok0). pose proof (mj_size _ _ Hok0).
    destruct (upd_maj_spec s1 (b_at b) (set_next (b_at b0)) _ Hv) as (m1 & -> & Hv1 & Ho1); [|done|].
    { apply wf_maj_next; [by eapply view_wf_maj|hlia]. }
    cbn [obind]. destruct (Z.eqb_spec (b_at b0) 0); [hlia|].
    assert (Hv01 : view m1 (b_at b0) = Some (Node 0 0 (b_maj b0))).
    { rewrite (only_view1 (b_at b) (mm s1)); [done|done|done|hlia]. }
    destruct (upd_maj_spec (set_mm s1 m1) (b_at b0) (set_prev (b_at b)) _ Hv01) as (m2 & -> & Hv2 & Ho2).
    { apply wf_maj_prev; [eapply view_wf_maj; [exact Hv0|done]|hlia]. }
    { by eapply only_cells. }
    cbn [obind]. rewrite set_mm2, mm_set in *.
    assert (Ho12 : only [b_at b; b_at b0] (mm s1) m2) by exact (only_trans [b_at b] [b_at b0] _ _ _ Ho1 Ho2).
    assert (Hinv : inv (set_mm s1 m2) (A ++ [b] ++ [b0])).
    { replace (set_mm s1 m2) with (set_allocated (set_allocated (set_mm s1 m2) (l_allocated s))
        (u64 (l_allocated s + maj_size (b_maj b0)))) by (rewrite <- Hal; done).
      apply (inv_snoc s1 (set_allocated (set_mm s1 m2) (l_allocated s)) A b b0 sz); try done. cbn [mm set_mm set_allocated].
      rewrite (only_view1 (b_at b0) m1); [exact Hv1|done|done|hlia]. }
    eexists _, _. split; [done|]. split; [done|]. split; [|right; by exists b0].
    eapply keeps_trans; [exact Hk1|]. intros b2 y e z Hb2 Hy Hz. apply Ho12.
    pose proof (in_block_of _ _ _ Hi1 Hb2) as Hok2. destruct (fits_in _ _ _ _ _ (mj_fits _ _ Hok2) Hy) as (? & ? & ?).
    constructor; [|constructor; [|done]].
    + destruct (proj2 (iv_apart _ _ Hi1) b2 b Hb2 ltac:(apply elem_of_mid; by left)) as [E|?]; [rewrite <- E; hlia|].
      pose proof (mj_pages _ _ Hok). unfold l_pageSize in *. hlia.
    + pose proof (Hdis b2 Hb2). pose proof (mj_pages _ _ Hok0). unfold l_pageSize in *. hlia.
Qed.
End appending.

(** ** The search over the blocks *)

(** The live allocations: the pointers handed out and the sizes asked for. *)
Definition live_in (ms : list (Z * minor_d)) : list (Z * Z) := (fun e => (user_ptr e.1, min_req_size e.2)) <$> ms.
Definition live (H : list block) : list (Z * Z) := concat ((fun b => live_in (b_mins b)) <$> H).

Lemma live_app A B : live (A ++ B) = live A ++ live B.
Proof. unfold live. by rewrite fmap_app, concat_app. Qed.

Lemma live_cons b B : live (b :: B) = live_in (b_mins b) ++ live B.
Proof. done. Qed.

Lemma live_insert A b b' B ms1 x d ms2 : b_mins b = ms1 ++ ms2 -> b_mins b' = ms1 ++ (x, d) :: ms2 ->
  live (A ++ b' :: B) ≡ₚ (user_ptr x, min_req_size d) :: live (A ++ b :: B).
Proof.
  intros Hb Hb'. rewrite !live_app, !live_cons, Hb, Hb'. unfold live_in. rewrite !fmap_app, fmap_cons. cbn [fst snd].
  rewrite <- !app_assoc. cbn [app]. by rewrite <- !Permutation_middle.
Qed.

(** The result of a search: the null pointer and the same allocations, or one
    more allocation; in both cases the other allocations keep their contents and the
    mutex is released. *)
Definition malloc_result (s : heap) (H : list block) (req : Z) (o : outcome (Z * heap)) : Prop :=
  exists p s', o = Ret (p, s') /\ mutex s' = 0 /\ keeps H (mm s) (mm s') /\
    exists H', inv s' H' /\ (p = 0 /\ live H' ≡ₚ live H \/ live H' ≡ₚ (p, req) :: live H).

Lemma inv_same s s' H : inv s H -> mm s' = mm s -> l_memRoot s' = l_memRoot s ->
  (l_bestBet s' = l_bestBet s \/ l_bestBet s' = 0 \/ l_bestBet s' ∈ b_at <$> H) ->
  l_allocated s' = l_allocated s -> l_inuse s' = l_inuse s -> page_size s' = page_size s -> inv s' H.
Proof.
  intros [] Hm Hr Hb Ha Hu Hp. constructor; rewrite ?Hm, ?Hr, ?Ha, ?Hu, ?Hp; try done.
  destruct Hb as [->|?]; done.
Qed.

Lemma last_block s A b B : inv s (A ++ b :: B) -> first_of (majors B) 0 = 0 -> B = [].
Proof.
  intros Hi E. destruct B as [|b2 B2]; [done|]. cbn in E.
  assert (Hb2 : b2 ∈ A ++ b :: b2 :: B2) by (apply elem_of_mid; right; apply elem_of_mid; by left).
  pose proof (mj_low _ _ (in_block_of _ _ b2 Hi Hb2)). lia.
Qed.

Section blocks_loop.
Context {K : Kernel}.

Lemma unlock_mutex s : mutex (snd (liballoc_unlock s)) = 0.
Proof. cbn. unfold pthread_mutex_unlock. by destruct (Z.eqb_spec (mutex s) 0). Qed.

Lemma inv_unlock s H : inv s H -> inv (snd (liballoc_unlock s)) H.
Proof. intros Hi. eapply inv_same; [exact Hi|try done..]. by left. Qed.

Lemma null_result s H req s' : inv s' H -> keeps H (mm s) (mm s') ->
  malloc_result s H req (Ret (0, snd (liballoc_unlock s'))).
Proof.
  intros Hi Hk. eexists _, _. split; [done|]. split; [apply unlock_mutex|]. split; [exact Hk|].
  exists H. split; [by apply inv_unlock|]. by left.
Qed.

Lemma placed_result s s1 H A b B sz req r : keeps H (mm s) (mm s1) -> (forall c, c ∈ H -> c ∈ A ++ b :: B) ->
  live (A ++ b :: B) = live H -> placed_somewhere s1 A b B sz req (Ret r) -> malloc_result s H req (Ret r).
Proof.
  intros Hk Hsub Hl (ms1 & ms2 & x & Hms & s' & Hr & Hi & Hmu & Hk'). eexists _, s'. split; [exact Hr|].
  split; [done|]. split; [eapply keeps_trans; [exact Hk|]; by eapply keeps_incl|]. eexists. split; [exact Hi|].
  right. rewrite <- Hl. by apply (live_insert A b _ B ms1 x (Minor (b_at b) LIBALLOC_MAGIC sz req) ms2).
Qed.

Context (sz req : Z).
Hypothesis Hreq : 0 <= req.
Hypothesis Hsz : sz = req + 32.
Hypothesis Hbound : sz < 2 ^ 31 - 8192.

Lemma block_room m b : major_ok m b -> 0 <= maj_usage (b_maj b) <= maj_size (b_maj b) /\
  u32 (maj_size (b_maj b) - maj_usage (b_maj b)) = maj_size (b_maj b) - maj_usage (b_maj b).
Proof.
  intros Hok. pose proof (mj_usage _ _ Hok). pose proof (fits_used _ _ _ (mj_fits _ _ Hok)). pose proof (mj_size _ _ Hok).
  assert (0 <= maj_usage (b_maj b) <= maj_size (b_maj b)) by hlia. split; [done|]. apply uw_small. lia.
Qed.

(** A block without allocations always takes the request. *)
Lemma fresh_placed s A b0 : inv s (A ++ [b0]) -> b_mins b0 = [] -> sz + HDR <= maj_size (b_maj b0) - HDR ->
  exists r, try_major s (b_at b0) sz req = Ret (Some r) /\ placed_somewhere s A b0 [] sz req (Ret r).
Proof.
  intros Hi Hms Hroom. destruct (try_major_spec s A b0 [] sz req Hi Hreq Hsz) as [[_ Hne]|Hr]; [lia| |done|exact Hr].
  pose proof (mj_usage _ _ (inv_block _ _ _ _ Hi)) as Hu. rewrite Hms in Hu. unfold used in Hu. cbn in Hu. lia.
Qed.

Lemma live_snoc H b0 : b_mins b0 = [] -> live (H ++ [b0]) = live H.
Proof. intros Hms. rewrite live_app, live_cons, Hms. cbn. apply app_nil_r. Qed.

(** The turns that remain when the search stands before the blocks [B]. *)
Definition turns (H B : list block) (sb : Z) : nat :=
  (length B + (if (sb =? 1)%Z then length H else 0))%nat.

(** The search goes on in an unchanged heap with fewer turns, or gives up. *)
Definition advances (s : heap) (H : list block) (n : nat) (fl : flow) (s' : heap) : Prop :=
  match fl with
  | Continue maj sb' =>
      s' = s /\ (sb' = 0 \/ sb' = 1) /\ exists A b B, H = A ++ b :: B /\ maj = b_at b /\ (turns H B sb' < n)%nat
  | Break => inv s' H /\ keeps H (mm s) (mm s')
  | Through _ => False
  end.

(** A block [np] has been added that takes the request. *)
Definition extends (s : heap) (H : list block) (np : Z) (s' : heap) : Prop :=
  exists b0, np = b_at b0 /\ b_mins b0 = [] /\ sz + HDR <= maj_size (b_maj b0) - HDR /\
    inv s' (H ++ [b0]) /\ keeps H (mm s) (mm s').

Section one_turn.
Context (s : heap) (A : list block) (b : block) (B : list block) (sb : Z).
Let H := A ++ b :: B.
Hypothesis Hi : inv s H.
Hypothesis Hsb : sb = 0 \/ sb = 1.

Lemma advance_next nx : nx = first_of (majors B) 0 -> nx <> 0 ->
  advances s H (turns H B sb) (Continue nx sb) s.
Proof.
  intros -> Hnx. split; [done|]. split; [done|]. destruct B as [|b2 B2]; [done|].
  exists (A ++ [b]), b2, B2. split; [by unfold H; rewrite <- app_assoc|]. split; [done|]. unfold turns. cbn. lia.
Qed.

Lemma advance_restart n : sb = 1 -> (length H <= n)%nat -> advances s H n (Continue (l_memRoot s) 0) s.
Proof.
  intros -> Hn. split; [done|]. split; [by left|]. rewrite (iv_root _ _ Hi). unfold H in *.
  destruct A as [|a0 A0]; [exists [], b, B|exists [], a0, (A0 ++ b :: B)];
    (split; [done|]; split; [done|]; unfold turns; cbn in *; lia).
Qed.

Lemma append_turn n : B = [] -> sb <> 1 ->
  exists np s', append_page s (b_at b) sz = Ret (np, s') /\
    (np = 0 /\ advances s H n Break s' \/ np <> 0 /\ extends s H np s').
Proof.
  intros HB _. unfold H in *. rewrite HB in *.
  destruct (append_page_spec s A b sz Hi ltac:(lia)) as (np & s' & -> & _ & Hk & [[-> Hi']|(b0 & -> & Hms & Hroom & Hi' & _)]).
  - exists 0, s'. split; [done|]. left. done.
  - exists (b_at b0), s'. split; [done|]. right. rewrite app_assoc in Hi'. split.
    + pose proof (mj_low _ _ (inv_block _ _ _ _ Hi')). lia.
    + exists b0. by split_and!.
Qed.

Lemma case1_spec : let diff := maj_size (b_maj b) - maj_usage (b_maj b) in
  exists fl s', case1 s (b_at b) (first_of (majors B) 0) sb diff sz = Ret (fl, s') /\
    (fl = Through (b_at b) /\ s' = s /\ sz + HDR <= diff \/
     (exists np, fl = Through np /\ extends s H np s') \/ advances s H (turns H B sb) fl s').
Proof.
  cbv zeta. unfold case1. rewrite (uw_small 64) by hlia.
  destruct (Z.ltb_spec (maj_size (b_maj b) - maj_usage (b_maj b)) (sz + HDR)); [|by eexists _, _; split; [|left]].
  destruct (Z.eqb_spec (first_of (majors B) 0) 0) as [E|E]; cbn [negb].
  2:{ eexists _, _. split; [done|]. right; right. by apply advance_next. }
  pose proof (last_block _ _ _ _ Hi E) as HB.
  destruct (Z.eqb_spec sb 1) as [E1|E1].
  { eexists _, _. split; [done|]. right; right. apply advance_restart; [done|]. unfold turns. rewrite E1. cbn. lia. }
  destruct (append_turn (turns H B sb) HB E1) as (np & s' & -> & [[-> Had]|[Hne Hex]]); cbn [obind Z.eqb].
  - eexists _, _. split; [done|]. by right; right.
  - destruct (Z.eqb_spec np 0); [done|]. eexists _, _. split; [done|]. right; left. by exists np.
Qed.

Lemma case5_spec : exists fl s', case5 s (b_at b) sb sz = Ret (fl, s') /\
    ((exists np, fl = Continue np sb /\ extends s H np s') \/ advances s H (turns H B sb) fl s').
Proof.
  unfold case5, get_maj. rewrite (view_rd _ _ _ (inv_view _ _ _ _ Hi)). cbn [obind next].
  destruct (Z.eqb_spec (first_of (majors B) 0) 0) as [E|E].
  2:{ eexists _, _. split; [done|]. right. by apply advance_next. }
  pose proof (last_block _ _ _ _ Hi E) as HB.
  destruct (Z.eqb_spec sb 1) as [E1|E1].
  { eexists _, _. split; [done|]. right. apply advance_restart; [done|]. unfold turns. rewrite E1. cbn. lia. }
  destruct (append_turn (turns H B sb) HB E1) as (np & s' & -> & [[-> Had]|[Hne Hex]]); cbn [obind Z.eqb].
  - eexists _, _. split; [done|]. by right.
  - destruct (Z.eqb_spec np 0); [done|]. eexists _, _. split; [done|]. left. by exists np.
Qed.
End one_turn.

(** One turn in a block that was just added succeeds. *)
Lemma extends_result s H np s' : extends s H np s' ->
  exists r, try_major s' np sz req = Ret (Some r) /\ malloc_result s H req (Ret r).
Proof.
  intros (b0 & -> & Hms & Hroom & Hi & Hk). destruct (fresh_placed s' H b0 Hi Hms Hroom) as (r & Hr & Hp).
  exists r. split; [done|]. eapply placed_result; [exact Hk| |by apply live_snoc|exact Hp].
  intros c Hc. apply elem_of_mid. right. by rewrite app_nil_r.
Qed.

Lemma extends_loop fuel s H np s' sb best : extends s H np s' ->
  malloc_result s H req (majors_loop (S fuel) s' np sb best sz req).
Proof.
  intros Hex. destruct (extends_result s H np s' Hex) as (r & Hr & Hres).
  destruct Hex as (b0 & -> & Hms & Hroom & Hi & Hk). pose proof (inv_view _ _ _ _ Hi) as Hv.
  pose proof (inv_block _ _ _ _ Hi) as Hok. pose proof (mj_low _ _ Hok). destruct (block_room _ _ Hok) as [_ Hdiff].
  pose proof (mj_usage _ _ Hok) as Hu. rewrite Hms in Hu. unfold used in Hu. cbn in Hu.
  cbn [majors_loop]. destruct (Z.eqb_spec (b_at b0) 0); [lia|]. unfold get_maj. rewrite (view_rd _ _ _ Hv).
  cbn [obind data next]. rewrite Hdiff. destruct (best <? _); unfold case1; rewrite (uw_small 64) by hlia;
    (destruct (Z.ltb_spec (maj_size (b_maj b0) - maj_usage (b_maj b0)) (sz + HDR)); [hlia|]); cbn [obind].
  - assert (Hex2 : extends s H (b_at b0) (set_bestBet s' (b_at b0))).
    { exists b0. split_and!; [done..| |done]. eapply inv_same; [exact Hi|try done..]. right; right. cbn.
      rewrite fmap_app. apply elem_of_app. right. apply list_elem_of_here. }
    destruct (extends_result _ _ _ _ Hex2) as (r2 & -> & Hres2). exact Hres2.
  - rewrite Hr. exact Hres.
Qed.

Lemma result_mm s s1 H o : mm s1 = mm s -> malloc_result s1 H req o -> malloc_result s H req o.
Proof. intros Hm. unfold malloc_result. by rewrite Hm. Qed.

Lemma majors_loop_spec fuel : forall s A b B sb best, inv s (A ++ b :: B) -> (sb = 0 \/ sb = 1) ->
  (turns (A ++ b :: B) B sb + 2 <= fuel)%nat ->
  malloc_result s (A ++ b :: B) req (majors_loop fuel s (b_at b) sb best sz req).
Proof.
  induction fuel as [|fuel IH]; intros s A b B sb best Hi Hsb Hfuel; [lia|].
  pose proof (inv_view _ _ _ _ Hi) as Hv. pose proof (inv_block _ _ _ _ Hi) as Hok.
  destruct (block_room _ _ Hok) as [Hroom Hdiff]. pose proof (mj_low _ _ Hok) as Hlow.
  cbn [majors_loop]. destruct (Z.eqb_spec (b_at b) 0); [lia|]. unfold get_maj. rewrite (view_rd _ _ _ Hv).
  cbn [obind data next]. rewrite Hdiff. set (H := A ++ b :: B) in *.
  assert (exists s1 best1, (if best <? maj_size (b_maj b) - maj_usage (b_maj b)
      then (set_bestBet s (b_at b), maj_size (b_maj b) - maj_usage (b_maj b)) else (s, best)) = (s1, best1) /\
    mm s1 = mm s /\ inv s1 H) as (s1 & best1 & -> & Hm1 & Hi1).
  { destruct (best <? _); eexists _, _; (split; [done|]); [|done]. split; [done|].
    eapply inv_same; [exact Hi|try done..]. right; right. cbn. unfold H. rewrite fmap_app, fmap_cons.
    apply elem_of_app. right. apply list_elem_of_here. }
  apply (result_mm s s1); [done|].
  assert (Hgo : forall fl s', advances s1 H (turns H B sb) fl s' ->
    malloc_result s1 H req (match fl with Continue maj sb' => majors_loop fuel s' maj sb' best1 sz req
      | _ => Ret (0, snd (liballoc_unlock s')) end)).
  { intros [maj sb'| |maj] s' Had; [|by apply null_result; apply Had|done].
    destruct Had as (-> & Hsb' & A' & b' & B' & HH & -> & Ht). unfold H in *. clear H. rewrite HH in Hi1, Ht, Hfuel |- *. apply IH; [done|done|lia]. }
  destruct (case1_spec s1 A b B sb Hi1 Hsb) as (fl & s' & -> & [(-> & -> & Hfit)|[(np & -> & Hex)|Had]]); cbn [obind].
  - destruct (try_major_spec s1 A b B sz req Hi1 Hreq Hsz) as [[-> _]|(r & -> & Hp)]; [lia|done| |]; cbn [obind].
    + destruct (case5_spec s1 A b B sb Hi1 Hsb) as (fl & s' & -> & [(np & -> & Hex)|Had]); cbn [obind].
      * destruct fuel as [|fuel]; [lia|]. by apply extends_loop.
      * specialize (Hgo fl s' Had). by destruct fl.
    + eapply placed_result; [|done|done|exact Hp]. by intros ? ? ? ? ? ? ?.
  - destruct (extends_result s1 H np s' Hex) as (r & -> & Hres). exact Hres.
  - specialize (Hgo fl s' Had). destruct fl; [done|done|by destruct Had].
Qed.
End blocks_loop.

(** ** malloc *)

Section malloc_ok.
Context {K : Kernel}.
Context (sz req : Z).
Hypothesis Hreq : 0 <= req.
Hypothesis Hsz : sz = req + 32.
Hypothesis Hbound : sz < 2 ^ 31 - 8192.

Lemma blocks_fuel s H : inv s H -> (length H <= size (mm s))%nat.
Proof.
  intros Hi. rewrite <- (length_fmap b_at). apply mapped_length; [apply Hi|].
  intros a (b & -> & Hb)%list_elem_of_fmap. pose proof (in_block_of _ _ _ Hi Hb) as Hok.
  pose proof (mj_size _ _ Hok). destruct (mj_cells _ _ Hok (b_at b)) as (v & Hv & _); [lia|]. by exists v.
Qed.

(** The search starts in one of the blocks. *)
Lemma start_at_spec s H : inv s H -> H <> [] ->
  exists A b B sb best, H = A ++ b :: B /\ start_at s sz = Ret (b_at b, sb, best) /\ (sb = 0 \/ sb = 1).
Proof.
  intros Hi Hne. assert (Hroot : exists A b B, H = A ++ b :: B /\ l_memRoot s = b_at b).
  { destruct H as [|b B]; [done|]. exists [], b, B. split; [done|]. by rewrite (iv_root _ _ Hi). }
  destruct Hroot as (A & b & B & HH & Hr). unfold start_at. rewrite Hr.
  destruct (Z.eqb_spec (l_bestBet s) 0) as [E|E]; cbn [negb].
  { exists A, b, B, 0, 0. auto. }
  destruct (iv_best _ _ Hi) as [?|Hin]; [done|]. apply list_elem_of_fmap in Hin as (b2 & E2 & Hb2).
  apply list_elem_of_split in Hb2 as (A2 & B2 & HH2). rewrite E2. assert (Hi2 := Hi). rewrite HH2 in Hi2.
  unfold get_maj. rewrite (view_rd _ _ _ (inv_view _ _ _ _ Hi2)). cbn [obind data].
  destruct (u32 _ >? u64 (sz + HDR)).
  - exists A2, b2, B2. eexists _, _. auto.
  - exists A, b, B. eexists _, _. auto.
Qed.

Lemma malloc_sized_spec s H : inv s H -> malloc_result s H req (malloc_sized s req sz).
Proof.
  intros Hi. assert (Hgo : forall s' H', inv s' H' -> H' <> [] -> malloc_result s' H' req
    (let! r := start_at s' sz in let '(maj, sb, best) := r in
     majors_loop (2 * loop_fuel (mm s') + 2) s' maj sb best sz req)).
  { intros s' H' Hi' Hne. destruct (start_at_spec s' H' Hi' Hne) as (A & b & B & sb & best & -> & -> & Hsb). cbn [obind].
    apply majors_loop_spec; [done..|]. pose proof (blocks_fuel _ _ Hi') as Hf. rewrite length_app in Hf. cbn in Hf.
    unfold turns, loop_fuel. rewrite length_app. cbn [length]. destruct (sb =? 1); lia. }
  unfold malloc_sized. destruct (Z.eqb_spec (l_memRoot s) 0) as [E|E].
  - assert (H = []) as ->.
    { rewrite (iv_root _ _ Hi) in E. destruct H as [|b B]; [done|]. cbn in E.
      pose proof (mj_low _ _ (in_block_of _ _ b Hi ltac:(apply list_elem_of_here))). lia. }
    destruct (allocate_new_page_spec s [] sz Hi ltac:(lia)) as (np & s1 & -> & _ & _ & [[-> Hi1]|(b & -> & Hfr & Hi1 & Hps & Hal & _)]);
      cbn [obind fst snd].
    + cbn [Z.eqb]. apply null_result; [|by intros ? ? ? ? ?%not_elem_of_nil].
      eapply inv_same; [exact Hi1|try done..]; [|by left]. symmetry. apply (iv_root _ _ Hi1).
    + pose proof Hfr as (Hms & Hok & _). pose proof (mj_low _ _ Hok). destruct (Z.eqb_spec (b_at b) 0); [lia|].
      assert (H0 : l_allocated s = 0) by (rewrite (iv_allocated _ _ Hi); done).
      rewrite H0 in Hi1, Hal. pose proof (inv_first s1 sz b Hfr Hps Hi1 Hal) as Hi2.
      destruct (Hgo _ _ Hi2 ltac:(done)) as (p & s' & Ho & Hmu & Hk & Hres).
      exists p, s'. split; [exact Ho|]. split; [done|]. split; [by intros ? ? ? ? ?%not_elem_of_nil|].
      destruct Hres as (H' & Hi3 & Hl). exists H'. split; [done|]. pose proof (live_snoc [] b Hms) as Hl0. cbn [app] in Hl0. by rewrite Hl0 in Hl.
  - cbn [obind]. assert (Hs : set_memRoot s (l_memRoot s) = s) by (by destruct s). rewrite Hs.
    destruct (Z.eqb_spec (l_memRoot s) 0); [done|]. apply Hgo; [done|]. intros ->. by rewrite (iv_root _ _ Hi) in E.
Qed.

Lemma malloc_spec s H : inv s H -> malloc_result s H req (malloc s req).
Proof.
  intros Hi. unfold malloc, ALIGNMENT, ALIGN_INFO. rewrite (uw_small 64) by lia. change (16 + 16) with 32.
  rewrite <- Hsz. destruct (Z.eqb_spec sz 0); [lia|].
  apply (result_mm _ s (snd (liballoc_lock s))); [done|]. apply malloc_sized_spec.
  eapply inv_same; [exact Hi|try done..]. by left.
Qed.
End malloc_ok.
