(* ===== verification/LiballocFree.v ===== *)
(** * free, calloc and realloc keep the heap well formed

    [free] unlinks the allocation and gives an empty block back to the kernel;
    the main theorems describe the four functions by the multiset of live
    allocations. *)

From S2P Require Import Prelude CMem CStruct LinkedList LibcErrno KernelMem Liballoc LiballocBlocks LiballocMalloc.

(** ** Unlinking an allocation *)

(** The block without the minor [(x, d)]. *)
Definition shrunk (b : block) (ms1 : list (Z * minor_d)) (d : minor_d) (ms2 : list (Z * minor_d)) : block :=
  let ms := ms1 ++ ms2 in
  Block (b_at b)
    (Major (maj_pages (b_maj b)) (maj_size (b_maj b)) (maj_usage (b_maj b) - (min_size d + HDR)) (maj_pad (b_maj b))
       (first_of ms 0)) ms.

Lemma snoc_cases {T} (l : list T) : l = [] \/ exists l' y, l = l' ++ [y].
Proof. destruct l as [|y l _] using rev_ind; [by left|right]. by exists l, y. Qed.

(** A guarded assignment to the structure at [c]. *)
Lemma upd_guarded {T} `{Layout T} (put : heap -> Z -> (T -> T) -> outcome heap) s c f :
  (forall k : T, view (mm s) c = Some k -> wf (f k) -> cells (mm s) c HDR ->
     exists m', put s c f = Ret (set_mm s m') /\ view m' c = Some (f k) /\ only [c] (mm s) m') ->
  (c <> 0 -> exists k : T, view (mm s) c = Some k /\ wf (f k) /\ cells (mm s) c HDR) ->
  exists m', (if negb (c =? 0) then put s c f else Ret s) = Ret (set_mm s m') /\ only [c] (mm s) m' /\
    (forall k : T, c <> 0 -> view (mm s) c = Some k -> view m' c = Some (f k)).
Proof.
  intros Hput Hc. destruct (Z.eqb_spec c 0) as [->|Hne]; cbn [negb].
  - exists (mm s). split; [by destruct s|]. split; [apply only_refl|done].
  - destruct (Hc Hne) as (k & Hk & Hw & Hcl). destruct (Hput k Hk Hw Hcl) as (m' & -> & Hv & Ho).
    exists m'. split; [done|]. split; [done|]. intros k' _ Hk'. rewrite Hk in Hk'. by injection Hk' as <-.
Qed.

Section unlinking.
Context (s : heap) (A : list block) (b : block) (B : list block).
Context (ms1 : list (Z * minor_d)) (x : Z) (d : minor_d) (ms2 : list (Z * minor_d)).
Hypothesis Hi : inv s (A ++ b :: B).
Hypothesis Hms : b_mins b = ms1 ++ (x, d) :: ms2.
Let p := last_of 0 ms1.
Let q := first_of ms2 0.

Lemma un_fit : fits (b_at b + HDR) (ms1 ++ ms2) (b_at b + maj_size (b_maj b)).
Proof. pose proof (mj_fits _ _ (inv_block _ _ _ _ Hi)) as Hf. rewrite Hms in Hf. by eapply fits_remove. Qed.

Lemma un_gap : end_of (b_at b + HDR) ms1 <= x /\ x + (HDR + min_size d) <= first_of ms2 (b_at b + maj_size (b_maj b)) /\
  HDR + 32 <= HDR + min_size d.
Proof.
  pose proof (inv_block _ _ _ _ Hi) as Hok. pose proof (mj_fits _ _ Hok) as Hf. rewrite Hms in Hf.
  apply fits_app in Hf as [_ (H1 & H2 & H3)]. split; [done|]. split.
  - apply fits_le in H3 as H4. destruct ms2 as [|[y e] l]; cbn [first_of]; [hlia|]. destruct H3 as (? & _). hlia.
  - pose proof (mj_minors _ _ Hok) as Hm. rewrite Hms in Hm. rewrite list.Forall_forall in Hm.
    destruct (Hm (x, d) ltac:(apply elem_of_mid; by left)). cbn in *. hlia.
Qed.

Lemma un_view y e l1 l2 : ms1 ++ (x, d) :: ms2 = l1 ++ (y, e) :: l2 ->
  view (mm s) y = Some (Node (last_of 0 l1) (first_of l2 0) e) /\ cells (mm s) y HDR.
Proof.
  intros E. destruct (minor_view s A b B Hi l1 y e l2) as (Hv & _ & _ & _ & Hc); [by rewrite Hms|]. done.
Qed.

(** The neighbours of the minor. *)
Lemma un_prev : p <> 0 -> exists e, (p, e) ∈ ms1 ++ ms2 /\
  exists pv, view (mm s) p = Some (Node pv x e) /\ cells (mm s) p HDR.
Proof.
  unfold p. intros Hp. destruct (snoc_cases ms1) as [E|(l & [y e] & E)]; [by rewrite E in Hp|].
  assert (Hy : last_of 0 ms1 = y) by (rewrite E, last_of_app; done). rewrite Hy. exists e.
  split; [rewrite E, !elem_of_app, list_elem_of_singleton; auto|]. exists (last_of 0 l).
  apply (un_view y e l ((x, d) :: ms2)). by rewrite E, <- app_assoc.
Qed.

Lemma un_next : q <> 0 -> exists e, (q, e) ∈ ms1 ++ ms2 /\
  exists nx, view (mm s) q = Some (Node x nx e) /\ cells (mm s) q HDR.
Proof.
  unfold q. intros Hq. assert (exists y e l, ms2 = (y, e) :: l) as (y & e & l & E).
  { destruct ms2 as [|[y e] l]; [done|]. by eexists _, _, _. }
  assert (Hy : first_of ms2 0 = y) by (by rewrite E). rewrite Hy. exists e.
  split; [rewrite E; apply elem_of_mid; by left|]. exists (first_of l 0).
  destruct (un_view y e (ms1 ++ [(x, d)]) l) as [Hv Hc]; [by rewrite E, <- app_assoc|]. by rewrite last_of_app in Hv.
Qed.

(** Where the neighbours, the minor and the block's header lie. *)
Lemma un_apart : b_at b + HDR <= x /\ x + HDR <= b_at b + maj_size (b_maj b) /\
  (p <> 0 -> b_at b + HDR <= p /\ p + HDR <= x) /\
  (q <> 0 -> x + HDR <= q /\ q + HDR <= b_at b + maj_size (b_maj b)).
Proof.
  pose proof un_gap as (Hlo & Hhi & Hn). pose proof un_fit as Hfit.
  pose proof (gap_in b ms1 ms2 x _ Hfit Hlo Hhi) as Hg. split_and!; [hlia|hlia| |].
  - unfold p. intros Hp. destruct (snoc_cases ms1) as [E|(l & [y e] & E)]; [by rewrite E in Hp|].
    assert (Hy : last_of 0 ms1 = y) by (rewrite E, last_of_app; done). rewrite Hy.
    assert (Hin : (y, e) ∈ ms1) by (rewrite E, elem_of_app, list_elem_of_singleton; auto).
    apply fits_app in Hfit as [H1 _]. apply fits_end in H1 as [H1 _]. destruct (fits_in _ _ _ _ _ H1 Hin). hlia.
  - unfold q. intros Hq. destruct (un_next Hq) as (e & Hin & _). unfold q in Hin.
    pose proof (gap_member b ms1 ms2 Hfit _ _ Hin). destruct ms2 as [|[y f] l]; [done|]. cbn [first_of] in *. hlia.
Qed.

Lemma un_first : first_of (ms1 ++ ms2) 0 = (if p =? 0 then q else maj_first (b_maj b)).
Proof.
  rewrite (mj_first _ _ (inv_block _ _ _ _ Hi)), Hms, !first_of_app. unfold p, q.
  destruct (Z.eqb_spec (last_of 0 ms1) 0) as [E|E].
  - destruct ms1 as [|[y e] l] eqn:E1; [done|]. exfalso.
    pose proof (last_of_in 0 ((y, e) :: l) ltac:(done)) as Hin. rewrite E in Hin.
    pose proof (mj_list _ _ (inv_block _ _ _ _ Hi)) as Hl. rewrite Hms in Hl. apply dll_app in Hl as [Hl _].
    by apply (dll_nonzero _ _ _ _ _ Hl Hin).
  - by destruct ms1 as [|[y e] l].
Qed.

Lemma un_usage : 0 <= maj_usage (b_maj b) - (min_size d + HDR) /\
  u32 (maj_usage (b_maj b) - (min_size d + HDR)) = maj_usage (b_maj b) - (min_size d + HDR) /\
  maj_usage (b_maj b) - (min_size d + HDR) = HDR + used (ms1 ++ ms2).
Proof.
  pose proof (inv_block _ _ _ _ Hi) as Hok. destruct (block_room _ _ Hok) as [Hr _]. pose proof (mj_size _ _ Hok).
  pose proof (mj_usage _ _ Hok) as Hu. rewrite Hms, used_app in Hu. unfold used at 2 in Hu. cbn [foldr snd] in Hu.
  fold (used ms2) in Hu. pose proof (fits_used _ _ _ un_fit) as Hf. rewrite used_app in *.
  assert (0 <= maj_usage (b_maj b) - (min_size d + HDR)) by hlia. pose proof un_gap as (_ & _ & Hn).
  split_and!; [done|apply uw_small; hlia|hlia].
Qed.

(** The two assignments to the neighbours. *)
Lemma un_links s2 : only [b_at b; x] (mm s) (mm s2) -> exists m3 m4,
  (if negb (q =? 0) then upd_min s2 q (set_prev p) else Ret s2) = Ret (set_mm s2 m3) /\
  (if negb (p =? 0) then upd_min (set_mm s2 m3) p (set_next q) else Ret (set_mm s2 m3)) = Ret (set_mm s2 m4) /\
  only [q; p] (mm s2) m4 /\
  (forall k : minor, p <> 0 -> view (mm s) p = Some k -> view m4 p = Some (set_next q k)) /\
  (forall k : minor, q <> 0 -> view (mm s) q = Some k -> view m4 q = Some (set_prev p k)).
Proof.
  intros Ho. pose proof (inv_block _ _ _ _ Hi) as Hok. destruct un_apart as (Hx1 & Hx2 & Hp1 & Hq1).
  pose proof (mj_low _ _ Hok) as Hlow. pose proof (mj_high _ _ Hok) as Hhigh.
  assert (Hfar : forall c, c + HDR <= x \/ x + HDR <= c -> b_at b + HDR <= c -> view (A := minor) (mm s2) c = view (mm s) c).
  { intros c Hc1 Hc2. apply (only_view [b_at b; x]); [cbn; hlia|done|].
    constructor; [hlia|constructor; [hlia|done]]. }
  assert (Hpu : in_u 64 p) by (destruct (decide (p = 0)) as [->|Hp]; hlia).
  assert (Hqu : in_u 64 q) by (destruct (decide (q = 0)) as [->|Hq]; hlia).
  destruct (upd_guarded upd_min s2 q (set_prev p) (upd_min_spec _ _ _)) as (m3 & E3 & Ho3 & Hv3).
  { intros Hq. destruct (un_next Hq) as (e & _ & nx & Hvq & Hcq). exists (Node x nx e). rewrite Hfar by hlia.
    split; [done|]. split; [apply wf_set_prev; [exact (view_wf_min _ _ _ Hvq Hcq)|done]|by eapply only_cells]. }
  assert (Hvp3 : p <> 0 -> view (A := minor) m3 p = view (mm s) p).
  { intros Hp. rewrite <- (Hfar p) by hlia. apply (only_view1 q); [cbn; hlia|done|].
    destruct (decide (q = 0)) as [->|Hq]; hlia. }
  destruct (upd_guarded upd_min (set_mm s2 m3) p (set_next q) (upd_min_spec _ _ _)) as (m4 & E4 & Ho4 & Hv4).
  { intros Hp. destruct (un_prev Hp) as (e & _ & pv & Hvp & Hcp). exists (Node pv x e). rewrite mm_set, Hvp3 by done.
    split; [done|]. split; [apply wf_set_next; [exact (view_wf_min _ _ _ Hvp Hcp)|done]|].
    by apply (only_cells _ _ _ _ _ Ho3), (only_cells _ _ _ _ _ Ho). }
  rewrite set_mm2, mm_set in *. exists m3, m4. split; [done|]. split; [done|].
  split; [exact (only_trans [q] [p] _ _ _ Ho3 Ho4)|]. split.
  - intros k Hp Hk. apply Hv4; [done|]. by rewrite Hvp3.
  - intros k Hq Hk. rewrite (only_view1 p m3); [|cbn; hlia|done|destruct (decide (p = 0)) as [->|Hp]; hlia].
    apply Hv3; [done|]. by rewrite Hfar by hlia.
Qed.

Lemma un_steps s0 : mm s0 = mm s -> exists m1 m2 m5,
  upd_maj s0 (b_at b) (fun k => set_usage (u32 (maj_usage (data k) - (min_size d + HDR))) k) = Ret (set_mm s0 m1) /\
  upd_min (set_mm s0 m1) x (set_magic LIBALLOC_DEAD) = Ret (set_mm s0 m2) /\
  unlink_minor (set_mm s0 m2) (b_at b) x = Ret (set_mm s0 m5) /\
  only (seam b ms1 ms2 x) (mm s) m5 /\
  view m5 (b_at b) = Some (Node (last_of 0 (majors A)) (first_of (majors B) 0) (b_maj (shrunk b ms1 d ms2))) /\
  (forall k : minor, p <> 0 -> view (mm s) p = Some k -> view m5 p = Some (set_next q k)) /\
  (forall k : minor, q <> 0 -> view (mm s) q = Some k -> view m5 q = Some (set_prev p k)).
Proof.
  intros Hm0. pose proof (inv_view _ _ _ _ Hi) as Hv. pose proof (inv_block _ _ _ _ Hi) as Hok.
  pose proof (block_header _ _ Hok) as Hch. destruct un_apart as (Hx1 & Hx2 & Hp1 & Hq1).
  destruct un_usage as (Hu0 & Hu & _). pose proof (mj_low _ _ Hok) as Hlow. pose proof (mj_size _ _ Hok) as Hszb.
  pose proof (mj_high _ _ Hok) as Hhigh. destruct (un_view x d ms1 ms2 eq_refl) as [Hvx Hcx]. fold p q in Hvx.
  destruct (upd_maj_spec s0 (b_at b) (fun k => set_usage (u32 (maj_usage (data k) - (min_size d + HDR))) k)
    (Node (last_of 0 (majors A)) (first_of (majors B) 0) (b_maj b))) as (m1 & E1 & Hv1 & Ho1); [by rewrite Hm0| |by rewrite Hm0|].
  { apply wf_set_usage; [exact (view_wf_maj _ _ _ Hv Hch)|]. cbn [data]. rewrite Hu.
    destruct (block_room _ _ Hok). pose proof un_gap. hlia. }
  rewrite Hm0 in Ho1.
  assert (Hvx1 : view m1 x = Some (Node p q d)).
  { rewrite (only_view1 (b_at b) (mm s)); [done|cbn; hlia|done|hlia]. }
  destruct (upd_min_spec (set_mm s0 m1) x (set_magic LIBALLOC_DEAD) _ Hvx1) as (m2 & E2 & Hv2 & Ho2).
  { apply wf_set_magic; [exact (view_wf_min _ _ _ Hvx Hcx)|unfold LIBALLOC_DEAD; hlia]. }
  { by eapply only_cells. }
  rewrite set_mm2, mm_set in *. assert (Ho12 : only [b_at b; x] (mm s) m2) by exact (only_trans [_] [x] _ _ _ Ho1 Ho2).
  destruct (un_links (set_mm s0 m2) Ho12) as (m3 & m4 & E3 & E4 & Ho34 & Hvp & Hvq). rewrite !set_mm2, mm_set in *.
  assert (Hva : view m4 (b_at b) = Some (set_usage (maj_usage (b_maj b) - (min_size d + HDR))
    (Node (last_of 0 (majors A)) (first_of (majors B) 0) (b_maj b)))).
  { rewrite (only_view [x; q; p] m1); [by rewrite <- Hu|done|exact (only_trans [x] [q; p] _ _ _ Ho2 Ho34)|].
    constructor; [hlia|]. constructor; [|constructor; [|done]].
    - destruct (decide (q = 0)) as [->|Hq]; hlia.
    - destruct (decide (p = 0)) as [->|Hp]; hlia. }
  assert (Ho : only (seam b ms1 ms2 x) (mm s) m4).
  { eapply only_incl; [|exact (only_trans [b_at b; x] [q; p] _ _ _ Ho12 Ho34)]. unfold seam. fold p q. in_lists. }
  exists m1, m2. unfold unlink_minor, get_min. rewrite mm_set, (view_rd _ _ _ Hv2). cbn [obind next prev set_magic].
  rewrite E3. cbn [obind]. rewrite E4. cbn [obind].
  pose proof un_first as Hfi. destruct (Z.eqb_spec p 0) as [Ep|Ep].
  - destruct (upd_maj_spec (set_mm s0 m4) (b_at b) (set_first q) _ Hva) as (m5 & E5 & Hv5 & Ho5).
    { apply wf_set_first; [|destruct (decide (q = 0)) as [->|Hq]; hlia].
      apply wf_set_usage; [exact (view_wf_maj _ _ _ Hv Hch)|]. destruct (block_room _ _ Hok). pose proof un_gap. hlia. }
    { by eapply only_cells. }
    rewrite set_mm2, mm_set in *. exists m5. split_and!; [done|done|done| | | |].
    + eapply only_incl; [|exact (only_trans _ [b_at b] _ _ _ Ho Ho5)]. unfold seam. in_lists.
    + rewrite Hv5. unfold shrunk. cbn [b_maj]. by rewrite Hfi.
    + done.
    + intros k Hq Hk. rewrite (only_view1 (b_at b) m4); [by apply Hvq|cbn; hlia|done|hlia].
  - exists m4. split_and!; [done|done|done|done| |done|done]. rewrite Hva. unfold shrunk. cbn [b_maj]. by rewrite Hfi.
Qed.

(** The block after the minor has been unlinked. *)
Lemma un_ok m5 : only (seam b ms1 ms2 x) (mm s) m5 ->
  (forall k : minor, p <> 0 -> view (mm s) p = Some k -> view m5 p = Some (set_next q k)) ->
  (forall k : minor, q <> 0 -> view (mm s) q = Some k -> view m5 q = Some (set_prev p k)) ->
  major_ok m5 (shrunk b ms1 d ms2) /\
  (forall z, 4096 <= z -> z < b_at b \/ b_at b + maj_size (b_maj b) <= z -> m5 !! z = mm s !! z) /\
  (forall y e z, (y, e) ∈ ms1 ++ ms2 -> y + HDR <= z < y + HDR + min_size e -> m5 !! z = mm s !! z).
Proof.
  intros Ho Hvp Hvq. pose proof (inv_block _ _ _ _ Hi) as Hok. pose proof un_fit as Hfit. pose proof un_gap as (Hlo & Hhi & Hn).
  pose proof (mj_low _ _ Hok) as Hlow.
  assert (Hpay : forall y e z, (y, e) ∈ ms1 ++ ms2 -> y + HDR <= z < y + HDR + min_size e -> m5 !! z = mm s !! z).
  { intros y e z Hin Hz. apply Ho. by apply (seam_payload b ms1 ms2 x _ Hfit Hlow Hlo Hhi Hn y e). }
  split; [|split; [intros z Hz Hz'; apply Ho; by apply (seam_outside b ms1 ms2 x _ Hfit Hlo Hhi)|done]].
  pose proof (mj_list _ _ Hok) as Hl. rewrite Hms in Hl.
  pose proof (fits_NoDup _ _ _ (mj_fits _ _ Hok)) as Hnd. rewrite Hms in Hnd.
  constructor; cbn [b_at b_maj b_mins shrunk maj_size maj_usage maj_pad maj_first maj_pages]; try apply Hok; try done.
  - destruct un_usage as (_ & _ & Hu). done.
  - eapply (dll_remove (view (mm s))); [exact Hl|exact Hnd|]. intros a k Ha Hk. unfold relink. fold p q.
    apply list_elem_of_fmap in Ha as ([y e] & -> & Hin). cbn [fst] in *. pose proof (gap_member b ms1 ms2 Hfit y e Hin).
    destruct un_apart as (_ & _ & Hp1 & Hq1).
    destruct (Z.eqb_spec y q) as [E|Eq], (Z.eqb_spec y p) as [E'|Ep].
    + exfalso. hlia.
    + rewrite E in *. by apply Hvq; [hlia|].
    + rewrite E' in *. by apply Hvp; [hlia|].
    + rewrite (only_view (seam b ms1 ms2 x) (mm s) m5 y); [rewrite Hk; by destruct k|cbn; hlia|done|].
      by apply (seam_header b ms1 ms2 x _ Hfit Hlow Hlo Hhi Hn y e).
  - pose proof (mj_minors _ _ Hok) as Hmm. rewrite Hms in Hmm. rewrite list.Forall_forall in *. intros [y e] Hin.
    destruct (Hmm (y, e)); [apply elem_of_mid; by right|]. constructor; try done. cbn [fst snd] in *. rewrite <- mi_align.
    apply (Hpay y e); [done|]. pose proof (user_byte_in y). hlia.
  - eapply only_cells; [exact Ho|apply Hok].
Qed.
End unlinking.

(** ** Giving an empty block back *)

(** What happens to the block of a released allocation: the kernel takes it, or it
    stays mapped. *)
Definition given_back (s s' : heap) (b : block) : Prop :=
  (forall z, b_at b <= z < b_at b + maj_size (b_maj b) -> mm s' !! z = None) /\
  l_allocated s' = u64 (l_allocated s - maj_size (b_maj b)).
Definition kept_block (s s' : heap) (b : block) : Prop :=
  cells (mm s') (b_at b) (maj_size (b_maj b)) /\ l_allocated s' = l_allocated s.

Section releasing.
Context {K : Kernel}.
Context (s : heap) (A : list block) (b : block) (B : list block).
Hypothesis Hi : inv s (A ++ b :: B).
Hypothesis Hempty : b_mins b = [].
Let p := last_of 0 (majors A).
Let q := first_of (majors B) 0.

Lemma re_member c : c <> 0 -> c = p \/ c = q -> exists b2, b2 ∈ A ++ B /\ c = b_at b2.
Proof.
  intros Hc [->| ->].
  - destruct (last_of_cases (majors A) 0) as [E|[e He]]; [done|]. apply list_elem_of_fmap in He as (b2 & E & Hb2).
    exists b2. split; [apply elem_of_app; by left|]. by injection E.
  - destruct (first_of_cases (majors B) 0) as [E|[e He]]; [done|]. apply list_elem_of_fmap in He as (b2 & E & Hb2).
    exists b2. split; [apply elem_of_app; by right|]. by injection E.
Qed.

(** Headers of the other blocks, with respect to each other and to [b]. *)
Lemma re_apart b2 : b2 ∈ A ++ B -> major_ok (mm s) b2 /\ HDR <= maj_size (b_maj b2) /\
  disjoint_range (b_at b2) (maj_size (b_maj b2)) (b_at b) (maj_size (b_maj b)) /\
  (forall c, c <> 0 -> c = p \/ c = q -> b_at b2 <> c ->
     b_at b2 + maj_size (b_maj b2) <= c \/ c + HDR <= b_at b2).
Proof.
  intros Hb2. assert (Hin : forall b3, b3 ∈ A ++ B -> b3 ∈ A ++ b :: B) by (intros b3 ?; apply elem_of_mid; by right).
  assert (Hsz : forall b3, b3 ∈ A ++ B -> HDR <= maj_size (b_maj b3)).
  { intros b3 Hb3. pose proof (in_block_of _ _ _ Hi (Hin b3 Hb3)) as Hok. pose proof (mj_size _ _ Hok).
    pose proof (mj_pages _ _ Hok). unfold l_pageSize in *. hlia. }
  split; [by apply (in_block_of _ _ _ Hi), Hin|]. split; [by apply Hsz|].
  split; [apply (apart_other A b B b2); [apply Hi|done]|].
  intros c Hc Hpq Hne. destruct (re_member c Hc Hpq) as (b3 & Hb3 & ->).
  destruct (proj2 (iv_apart _ _ Hi) b2 b3 (Hin _ Hb2) (Hin _ Hb3)) as [?|Hd]; [done|]. pose proof (Hsz b3 Hb3). hlia.
Qed.

Lemma re_wf c : c <> 0 -> c = p \/ c = q ->
  exists k : major, view (mm s) c = Some k /\ wf k /\ cells (mm s) c HDR.
Proof.
  intros Hc Hpq. destruct (re_member c Hc Hpq) as (b2 & Hb2 & ->). destruct (re_apart b2 Hb2) as (Hok & _).
  pose proof (block_header _ _ Hok) as Hch. destruct (view_maj _ _ Hch) as (k & Hk & Hw). by exists k.
Qed.

Lemma re_in_u : in_u 64 p /\ in_u 64 q /\ (p <> 0 -> q <> 0 -> p + HDR <= q \/ q + HDR <= p) /\
  (p <> 0 -> 4096 <= p) /\ (q <> 0 -> 4096 <= q).
Proof.
  assert (Hlow : forall c, c <> 0 -> c = p \/ c = q -> 4096 <= c < 2 ^ 63).
  { intros c Hc Hpq. destruct (re_member c Hc Hpq) as (b2 & Hb2 & ->). destruct (re_apart b2 Hb2) as (Hok & _).
    pose proof (mj_low _ _ Hok). pose proof (mj_high _ _ Hok). pose proof (mj_size _ _ Hok). hlia. }
  assert (Hu : forall c, c = p \/ c = q -> in_u 64 c).
  { intros c Hpq. destruct (decide (c = 0)) as [->|Hc]; [hlia|]. pose proof (Hlow c Hc Hpq). hlia. }
  split; [by apply Hu; left|]. split; [by apply Hu; right|]. split; [|split].
  - intros Hp Hq. destruct (re_member p Hp ltac:(by left)) as (b2 & Hb2 & E). destruct (re_apart b2 Hb2) as (_ & Hs2 & _ & H2).
    rewrite <- E in *. destruct (H2 q Hq ltac:(by right)) as [?|?]; [|hlia|hlia]. intros Epq.
    pose proof (iv_apart _ _ Hi) as [Hnd _]. rewrite fmap_app, fmap_cons in Hnd.
    apply list.NoDup_app in Hnd as (_ & Hd & _). apply (Hd p).
    + rewrite <- majors_at. apply last_of_in. unfold p in Hp. by intros E2; rewrite E2 in Hp.
    + rewrite Epq. apply elem_of_cons. right. rewrite <- majors_at. apply first_of_in. unfold q in Hq. by intros E2; rewrite E2 in Hq.
  - intros Hp. apply Hlow; [done|by left].
  - intros Hq. apply Hlow; [done|by right].
Qed.

(** The memory and the remaining lists once the kernel has taken the block. *)
Lemma inv_release m4 s' : only [p; q] (mm s) m4 ->
  (forall k : major, p <> 0 -> view (mm s) p = Some k -> view m4 p = Some (set_next q k)) ->
  (forall k : major, q <> 0 -> view (mm s) q = Some k -> view m4 q = Some (set_prev p k)) ->
  (forall z, mm s' !! z = if decide (b_at b <= z < b_at b + maj_size (b_maj b)) then None else m4 !! z) ->
  l_memRoot s' = first_of (majors (A ++ B)) 0 -> (l_bestBet s' = 0 \/ l_bestBet s' ∈ b_at <$> A ++ B) ->
  page_size s' = page_size s -> l_inuse s' = l_inuse s -> l_allocated s' = u64 (l_allocated s - maj_size (b_maj b)) ->
  inv s' (A ++ B) /\ keeps (A ++ B) (mm s) (mm s').
Proof.
  intros Ho Hvp Hvq Hm Hr Hb Hps Hu Ha. pose proof re_in_u as (_ & _ & Hpq & Hp0 & Hq0).
  assert (Hin : forall b2, b2 ∈ A ++ B -> forall z, b_at b2 + HDR <= z < b_at b2 + maj_size (b_maj b2) -> mm s' !! z = mm s !! z).
  { intros b2 Hb2 z Hz. destruct (re_apart b2 Hb2) as (Hok2 & Hs2 & Hd & Hh). pose proof (mj_low _ _ Hok2).
    rewrite Hm, decide_False by hlia. apply Ho. constructor; [|constructor; [|done]].
    - destruct (decide (p = 0)) as [->|Hp]; [hlia|]. destruct (decide (b_at b2 = p)) as [E|E]; [hlia|].
      destruct (Hh p Hp ltac:(by left) E); hlia.
    - destruct (decide (q = 0)) as [->|Hq]; [hlia|]. destruct (decide (b_at b2 = q)) as [E|E]; [hlia|].
      destruct (Hh q Hq ltac:(by right) E); hlia. }
  assert (Hview : forall b2, b2 ∈ A ++ B -> view (A := major) (mm s') (b_at b2) = view m4 (b_at b2)).
  { intros b2 Hb2. destruct (re_apart b2 Hb2) as (Hok2 & Hs2 & Hd & _). unfold view. rewrite (rd_ext m4); [done|].
    intros z Hz. rewrite Hm, decide_False; [done|]. cbn in Hz. hlia. }
  assert (Hcells : forall b2, b2 ∈ A ++ B -> cells (mm s') (b_at b2) (maj_size (b_maj b2))).
  { intros b2 Hb2 z Hz. destruct (re_apart b2 Hb2) as (Hok2 & Hs2 & Hd & _). rewrite Hm, decide_False by hlia.
    by apply (only_cells _ _ _ _ _ Ho (mj_cells _ _ Hok2)). }
  pose proof (iv_list _ _ Hi) as Hl. rewrite majors_mid in Hl. pose proof (iv_apart _ _ Hi) as [Hnd Hap].
  split; [constructor|].
  - rewrite majors_app. eapply (dll_remove (view (mm s))); [exact Hl|by rewrite <- majors_mid, majors_at|].
    rewrite <- majors_app, majors_at. intros a k (b2 & -> & Hb2)%list_elem_of_fmap Hk. unfold relink. fold p q.
    rewrite Hview by done. destruct (re_apart b2 Hb2) as (Hok2 & Hs2 & _ & Hh). pose proof (mj_low _ _ Hok2).
    destruct (Z.eqb_spec (b_at b2) q) as [E|Eq], (Z.eqb_spec (b_at b2) p) as [E'|Ep].
    + exfalso. hlia.
    + rewrite E in *. by apply Hvq; [hlia|].
    + rewrite E' in *. by apply Hvp; [hlia|].
    + rewrite (only_view [p; q] (mm s) m4); [rewrite Hk; by destruct k|done|done|]. constructor; [|constructor; [|done]].
      * destruct (decide (p = 0)) as [->|Hp]; [hlia|]. destruct (Hh p Hp ltac:(by left) Ep); hlia.
      * destruct (decide (q = 0)) as [->|Hq]; [hlia|]. destruct (Hh q Hq ltac:(by right) Eq); hlia.
  - split.
    + rewrite <- Permutation_middle in Hnd. cbn in Hnd. by apply list.NoDup_cons in Hnd as [_ ?].
    + intros b1 b2 H1 H2. apply Hap; apply elem_of_mid; by right.
  - apply list.Forall_forall. intros b2 Hb2. destruct (re_apart b2 Hb2) as (Hok2 & _).
    apply (major_ok_frame (mm s)); [done|by apply Hin|by apply Hcells].
  - done.
  - done.
  - right. rewrite Hps. destruct (iv_page _ _ Hi) as [[E _]|?]; [by destruct A|done].
  - rewrite Ha, (iv_allocated _ _ Hi), !total_app. unfold total. cbn [foldr]. unfold uw. rewrite Zminus_mod_idemp_l.
    f_equal. lia.
  - rewrite Hu, (iv_inuse _ _ Hi), !inuse_of_app. unfold inuse_of at 2. cbn [foldr]. by rewrite Hempty.
  - intros b2 y e z Hb2 Hy Hz. destruct (re_apart b2 Hb2) as (Hok2 & _).
    destruct (fits_in _ _ _ _ _ (mj_fits _ _ Hok2) Hy) as (? & ? & ?). apply (Hin b2 Hb2). hlia.
Qed.

(** The new root. *)
Lemma re_root : (if l_memRoot s =? b_at b then q else l_memRoot s) = first_of (majors (A ++ B)) 0 /\ b_at b <> 0.
Proof.
  pose proof (mj_low _ _ (inv_block _ _ _ _ Hi)). split; [|lia]. rewrite (iv_root _ _ Hi). unfold q.
  destruct A as [|a0 A0]; cbn; [by rewrite Z.eqb_refl|]. destruct (Z.eqb_spec (b_at a0) (b_at b)) as [E|E]; [|done].
  pose proof (iv_apart _ _ Hi) as [Hnd _]. cbn in Hnd. apply list.NoDup_cons in Hnd as [Hni _]. exfalso. apply Hni.
  rewrite E, fmap_app, fmap_cons. apply elem_of_app. right. apply list_elem_of_here.
Qed.

Lemma release_major_spec : exists s', release_major s (b_at b) = Ret s' /\ inv s' (A ++ B) /\
  keeps (A ++ B) (mm s) (mm s') /\ mutex s' = mutex s /\ given_back s s' b.
Proof.
  pose proof (inv_view _ _ _ _ Hi) as Hv. pose proof (inv_block _ _ _ _ Hi) as Hok. fold p q in Hv.
  pose proof re_in_u as (Hpu & Hqu & Hpq & Hp0 & Hq0). unfold release_major, get_maj. rewrite (view_rd _ _ _ Hv).
  cbn [obind next prev data]. set (s1 := if l_memRoot s =? b_at b then set_memRoot s q else s).
  set (s2 := if l_bestBet s1 =? b_at b then set_bestBet s1 0 else s1).
  assert (Hm2 : mm s2 = mm s) by (unfold s2, s1; repeat case_match; done).
  destruct (upd_guarded upd_maj s2 p (set_next q) (upd_maj_spec _ _ _)) as (m3 & -> & Ho3 & Hv3).
  { intros Hp. destruct (re_wf p Hp ltac:(by left)) as (k & Hk & Hw & Hc). exists k. rewrite Hm2. auto with fnx. }
  cbn [obind].
  assert (Hvq3 : q <> 0 -> view (A := major) m3 q = view (mm s) q).
  { intros Hq. rewrite <- Hm2. apply (only_view1 p); [done|done|]. destruct (decide (p = 0)) as [->|Hp]; hlia. }
  destruct (upd_guarded upd_maj (set_mm s2 m3) q (set_prev p) (upd_maj_spec _ _ _)) as (m4 & -> & Ho4 & Hv4).
  { intros Hq. destruct (re_wf q Hq ltac:(by right)) as (k & Hk & Hw & Hc). exists k. rewrite mm_set, Hvq3 by done.
    split; [done|]. split; [auto with fnx|]. rewrite <- Hm2 in Hc. by eapply only_cells. }
  cbn [obind]. rewrite set_mm2, mm_set in *. rewrite Hm2 in *.
  set (s4 := set_allocated (set_mm s2 m4) _).
  eexists. split; [done|].
  assert (Hps : page_size s4 = l_pageSize).
  { unfold s4, s2, s1. destruct (iv_page _ _ Hi) as [[E _]|E]; [by destruct A|]. repeat case_match; done. }
  pose proof (mj_low _ _ Hok). pose proof (mj_size _ _ Hok). pose proof (mj_pages _ _ Hok) as Hpg.
  assert (Hlen : u64 (s32 (maj_pages (b_maj b)) * page_size s4) = maj_size (b_maj b)).
  { rewrite Hps, (sw_small 32) by (unfold in_s, l_pageSize in *; lia). rewrite <- Hpg. apply uw_small. lia. }
  unfold liballoc_free. rewrite Hlen.
  pose proof (sys_MemoryUnmap_spec (mm s4) (b_at b) (maj_size (b_maj b)) ltac:(lia) ltac:(lia)) as Hun.
  destruct (sys_MemoryUnmap (mm s4) (b_at b) (maj_size (b_maj b))) as [r m5]. destruct (munmap _ r) as [st e].
  cbn [snd] in *.
  assert (Hfin : inv (set_os s4 m5 (page_size s4) e) (A ++ B) /\ keeps (A ++ B) (mm s) m5).
  { apply (inv_release m4 (set_os s4 m5 (page_size s4) e)).
    - exact (only_trans [p] [q] _ _ _ Ho3 Ho4).
    - intros k Hp Hk. rewrite (only_view1 q m3); [by apply Hv3|done|done|destruct (decide (q = 0)) as [->|Hq]; hlia].
    - intros k Hq Hk. apply Hv4; [done|]. by rewrite Hvq3.
    - exact Hun.
    - destruct re_root as [<- _]. cbn. unfold s2, s1. by repeat case_match.
    - cbn. unfold s2, s1. pose proof (iv_best _ _ Hi) as Hbest.
      assert (Hother : l_bestBet s <> b_at b -> l_bestBet s = 0 \/ l_bestBet s ∈ b_at <$> A ++ B).
      { intros Hne. destruct Hbest as [?|Hin]; [by left|right]. apply list_elem_of_fmap in Hin as (b2 & E & [->|Hb2]%elem_of_mid); [done|].
        rewrite E. by apply list_elem_of_fmap_2. }
      destruct (Z.eqb_spec (l_memRoot s) (b_at b)); cbn [l_bestBet set_memRoot];
        (destruct (Z.eqb_spec (l_bestBet s) (b_at b)); [by left|by apply Hother]).
    - cbn. unfold s2, s1. by repeat case_match.
    - cbn. unfold s2, s1. by repeat case_match.
    - cbn. unfold s2, s1. by repeat case_match. }
  split; [apply Hfin|]. split; [apply Hfin|]. split; [cbn; unfold s2, s1; by repeat case_match|]. split.
  - intros z Hz. cbn [mm set_os]. by rewrite Hun, decide_True.
  - cbn. unfold s2, s1. by repeat case_match.
Qed.
End releasing.

(** ** free *)

Section free_ok.
Context {K : Kernel}.

Lemma update_bestBet_spec s A b B : inv s (A ++ b :: B) ->
  exists s', update_bestBet s (b_at b) = Ret s' /\ inv s' (A ++ b :: B) /\ mm s' = mm s /\ mutex s' = mutex s /\ l_allocated s' = l_allocated s.
Proof.
  intros Hi. unfold update_bestBet. destruct (Z.eqb_spec (l_bestBet s) 0) as [E|E]; cbn [negb]; [by exists s|].
  destruct (iv_best _ _ Hi) as [?|Hin]; [done|]. apply list_elem_of_fmap in Hin as (b2 & -> & Hb2).
  assert (Hv2 : exists k : major, view (mm s) (b_at b2) = Some k).
  { destruct (view_maj _ _ (block_header _ _ (in_block_of _ _ _ Hi Hb2))) as (k & Hk & _). by exists k. }
  destruct Hv2 as [k Hk]. unfold get_maj. rewrite (view_rd _ _ _ Hk), (view_rd _ _ _ (inv_view _ _ _ _ Hi)). cbn [obind].
  eexists. split; [done|]. destruct (_ >? _); [|done]. split; [|done].
  eapply inv_same; [exact Hi|try done..]. right; right. cbn. rewrite fmap_app, fmap_cons. apply elem_of_app. right.
  apply list_elem_of_here.
Qed.

Section one_minor.
Context (s : heap) (A : list block) (b : block) (B : list block).
Context (ms1 : list (Z * minor_d)) (x : Z) (d : minor_d) (ms2 : list (Z * minor_d)).
Hypothesis Hi : inv s (A ++ b :: B).
Hypothesis Hms : b_mins b = ms1 ++ (x, d) :: ms2.

(** What [UNALIGN] and the header say about a live allocation. *)
Lemma live_header s0 : mm s0 = mm s ->
  UNALIGN s0 (user_ptr x) = Ret (x + HDR) /\ u64 (x + HDR - HDR) = x /\ user_ptr x <> 0 /\
  rd (mm s) x = Ret (Node (last_of 0 ms1) (first_of ms2 0) d) /\ minor_ok (mm s) (b_at b) x d.
Proof.
  intros Hm0. pose proof (inv_block _ _ _ _ Hi) as Hok. pose proof (mj_minors _ _ Hok) as Hmin. rewrite Hms in Hmin.
  rewrite list.Forall_forall in Hmin. specialize (Hmin (x, d) ltac:(apply elem_of_mid; by left)). cbn [fst snd] in Hmin.
  destruct (minor_view s A b B Hi ms1 x d ms2 Hms) as (Hv & Hx1 & Hx2 & Hx3 & _).
  pose proof (mj_low _ _ Hok). pose proof (mj_high _ _ Hok). pose proof (user_ptr_bounds x). destruct Hmin.
  split_and!; [|rewrite uw_small; hlia|hlia|by apply view_rd|by constructor].
  apply UNALIGN_spec; [hlia|hlia|by rewrite Hm0].
Qed.

Lemma live_remove : live (A ++ b :: B) ≡ₚ (user_ptr x, min_req_size d) :: live (A ++ shrunk b ms1 d ms2 :: B).
Proof. apply (live_insert A (shrunk b ms1 d ms2) b B ms1 x d ms2); done. Qed.

Lemma free_spec : exists s' H', free s (user_ptr x) = Ret s' /\ mutex s' = 0 /\ inv s' H' /\
  live (A ++ b :: B) ≡ₚ (user_ptr x, min_req_size d) :: live H' /\ keeps H' (mm s) (mm s') /\
  (ms1 ++ ms2 = [] /\ given_back s s' b \/ ms1 ++ ms2 <> [] /\ kept_block s s' b).
Proof.
  destruct (live_header s eq_refl) as (Hun & Hx & Hne & Hrd & Hmin). pose proof Hmin as [Hblk Hmag _ _ _].
  unfold free. destruct (Z.eqb_spec (user_ptr x) 0); [done|]. rewrite Hun. cbn [obind]. rewrite Hx.
  unfold get_min at 1. cbn [mm set_mutex liballoc_lock snd]. rewrite Hrd. cbn [obind data]. rewrite Hmag, Z.eqb_refl.
  cbn [negb]. rewrite Hblk. set (s0 := set_inuse _ _).
  destruct (un_steps s A b B ms1 x d ms2 Hi Hms s0 eq_refl) as (m1 & m2 & m5 & -> & E2 & E5 & Ho & Hv & Hvp & Hvq).
  cbn [obind]. rewrite E2. cbn [obind]. rewrite E5. cbn [obind]. clear E2 E5.
  destruct (un_ok s A b B ms1 x d ms2 Hi Hms m5 Ho Hvp Hvq) as (Hok5 & Hout & Hpay).
  set (b1 := shrunk b ms1 d ms2) in *.
  assert (Hi1 : inv (set_mm s0 m5) (A ++ b1 :: B)).
  { eapply (inv_replace s); [exact Hi|done|done|exact Hok5|exact Hv|exact Hout|done|by left|done|done|].
    cbn. f_equal. rewrite Hms, !payload_app. unfold payload. cbn [foldr snd]. lia. }
  assert (Hk1 : keeps (A ++ b1 :: B) (mm s) m5).
  { intros b2 y e z [->|Hb2]%elem_of_mid Hy Hz; [by apply (Hpay y e)|].
    destruct (other_payload s A b B b2 y e z Hi Hb2 Hy Hz). by apply Hout. }
  unfold get_maj. rewrite mm_set, (view_rd _ _ _ Hv). cbn [obind data]. rewrite (mj_first _ _ Hok5).
  destruct (Z.eqb_spec (first_of (b_mins b1) 0) 0) as [E|E].
  - assert (Hemp : b_mins b1 = []).
    { destruct (b_mins b1) as [|[y e] l] eqn:E1; [done|]. pose proof (mj_list _ _ Hok5) as Hl. rewrite E1 in Hl. by destruct Hl. }
    destruct (release_major_spec (set_mm s0 m5) A b1 B Hi1 Hemp) as (s' & Er & Hi2 & Hk2 & _ & Hgb). change (b_at b1) with (b_at b) in Er. rewrite Er. cbn [obind].
    eexists _, (A ++ B). split; [done|]. split; [apply unlock_mutex|]. split; [by apply inv_unlock|]. split.
    + rewrite live_remove. fold b1. rewrite !live_app, live_cons, Hemp. done.
    + split; [|by left]. eapply keeps_trans; [|exact Hk2]. eapply keeps_incl; [|exact Hk1]. intros b2 ?. apply elem_of_mid. by right.
  - destruct (update_bestBet_spec _ A b1 B Hi1) as (s' & Er & Hi2 & Hm2 & _ & Ha2). change (b_at b1) with (b_at b) in Er. rewrite Er. cbn [obind].
    eexists _, (A ++ b1 :: B). split; [done|]. split; [apply unlock_mutex|]. split; [by apply inv_unlock|].
    split; [apply live_remove|]. cbn [mm set_mutex liballoc_unlock snd]. split; [by rewrite Hm2|]. right. split.
    + intros E1. apply E. change (b_mins b1) with (ms1 ++ ms2). by rewrite E1.
    + split; [|exact Ha2]. cbn [mm set_mutex liballoc_unlock snd]. rewrite Hm2. exact (mj_cells _ _ Hok5).
Qed.
End one_minor.
End free_ok.

(** ** The heap as a multiset of live allocations *)

(** [heap_of s L]: the allocator's state is well formed, nobody holds the mutex,
    and the live allocations are exactly [L]: pointers with the sizes asked
    for, in any order. *)
Definition heap_of (s : heap) (L : list (Z * Z)) : Prop :=
  mutex s = 0 /\ exists H, inv s H /\ live H ≡ₚ L.

#[export] Instance heap_of_proper : Proper (eq ==> (≡ₚ) ==> iff) heap_of.
Proof.
  intros s ? <- L L' HL. unfold heap_of. split; intros (Hm & H & Hi & Hl); (split; [done|]; exists H; split; [done|]).
  - by rewrite Hl.
  - by rewrite Hl, HL.
Qed.

(** The contents of the allocations [L]. *)
Definition same_contents (L : list (Z * Z)) (m m' : mem) : Prop :=
  forall p n i, (p, n) ∈ L -> 0 <= i < n -> m' !! (p + i) = m !! (p + i).

(** An allocation found in the lists of blocks. *)
Record located (s : heap) (H : list block) (p n : Z) (L : list (Z * Z)) (A : list block) (b : block) (B : list block)
    (ms1 : list (Z * minor_d)) (x : Z) (d : minor_d) (ms2 : list (Z * minor_d)) : Prop := {
  lo_blocks : H = A ++ b :: B;
  lo_minors : b_mins b = ms1 ++ (x, d) :: ms2;
  lo_ptr : p = user_ptr x;
  lo_size : n = min_req_size d;
  lo_rest : L ≡ₚ live (A ++ shrunk b ms1 d ms2 :: B)
}.

Lemma live_elem H p n : (p, n) ∈ live H ->
  exists A b B ms1 x d ms2, H = A ++ b :: B /\ b_mins b = ms1 ++ (x, d) :: ms2 /\ p = user_ptr x /\ n = min_req_size d.
Proof.
  unfold live. intros Hp. apply list_elem_of_In, in_concat in Hp as (l & Hin & Hl).
  apply list_elem_of_In in Hin, Hl.
  apply list_elem_of_fmap in Hin as (b & -> & Hb). apply list_elem_of_fmap in Hl as ([x d] & E & Hx).
  injection E as -> ->. apply list_elem_of_split in Hb as (A & B & ->), Hx as (ms1 & ms2 & Hms).
  by exists A, b, B, ms1, x, d, ms2.
Qed.

Lemma locate s H p n L : inv s H -> live H ≡ₚ (p, n) :: L ->
  exists A b B ms1 x d ms2, located s H p n L A b B ms1 x d ms2.
Proof.
  intros Hi Hl. destruct (live_elem H p n) as (A & b & B & ms1 & x & d & ms2 & -> & Hms & -> & ->).
  { rewrite Hl. apply list_elem_of_here. }
  exists A, b, B, ms1, x, d, ms2. constructor; try done.
  rewrite (live_remove A b B ms1 x d ms2 Hms) in Hl. by apply Permutation_cons_inv in Hl.
Qed.

Section facts.
Context (s : heap) (H : list block) (p n : Z) (L : list (Z * Z)) (A : list block) (b : block) (B : list block).
Context (ms1 : list (Z * minor_d)) (x : Z) (d : minor_d) (ms2 : list (Z * minor_d)).
Hypothesis Hi : inv s H.
Hypothesis Hl : located s H p n L A b B ms1 x d ms2.

Lemma lo_inv : inv s (A ++ b :: B).
Proof. rewrite <- (lo_blocks _ _ _ _ _ _ _ _ _ _ _ _ Hl). exact Hi. Qed.

Lemma lo_range : p mod 16 = 0 /\ 4096 <= p /\ x + HDR + 16 <= p /\ 0 <= n < 2 ^ 31 /\ p + n <= x + HDR + min_size d /\
  b_at b + HDR <= x /\ x + HDR + min_size d <= b_at b + maj_size (b_maj b) /\ p + n < 2 ^ 63 /\ cells (mm s) p n.
Proof.
  pose proof lo_inv as Hi'. pose proof Hl as [_ Hms Ep En _]. rewrite Ep, En. pose proof (inv_block _ _ _ _ Hi') as Hok.
  destruct (minor_view s A b B Hi' ms1 x d ms2 Hms) as (_ & Hx1 & Hx2 & Hx3 & _).
  pose proof (mj_minors _ _ Hok) as Hmin. rewrite Hms in Hmin. rewrite list.Forall_forall in Hmin.
  specialize (Hmin (x, d) ltac:(apply elem_of_mid; by left)). destruct Hmin as [_ _ Hr Hs _]. cbn [fst snd] in *.
  destruct (user_ptr_bounds x) as [Hub Hal]. pose proof (mj_low _ _ Hok). pose proof (mj_high _ _ Hok). pose proof (mj_size _ _ Hok).
  split_and!; [done|hlia|hlia|hlia|hlia|hlia|hlia|hlia|hlia|].
  apply (in_cells s A b B Hi'); hlia.
Qed.

(** The other allocations lie elsewhere. *)
Lemma lo_disjoint q k : (q, k) ∈ L -> disjoint_range p n q k.
Proof.
  intros Hq. pose proof lo_inv as Hi'. pose proof lo_range as (_ & _ & Hp1 & Hn & Hp2 & Hx1 & Hx2 & _).
  pose proof Hl as [_ Hms _ _ Hrest]. rewrite Hrest in Hq. apply live_elem in Hq as (A2 & b2 & B2 & l1 & y & e & l2 & HH & Hms2 & -> & ->).
  destruct (user_ptr_bounds y) as [Hub _].
  assert (Hb2 : b2 ∈ A ++ shrunk b ms1 d ms2 :: B) by (rewrite HH; apply elem_of_mid; by left).
  assert (Hy : (y, e) ∈ b_mins b2) by (rewrite Hms2; apply elem_of_mid; by left).
  pose proof (inv_block _ _ _ _ Hi') as Hok. apply elem_of_mid in Hb2 as [E|Hb2].
  - rewrite E in Hy. cbn in Hy. pose proof (mj_fits _ _ Hok) as Hf. rewrite Hms in Hf.
    pose proof (mj_minors _ _ Hok) as Hmin. rewrite Hms in Hmin. rewrite list.Forall_forall in Hmin.
    destruct (Hmin (y, e)) as [_ _ Hr Hs _]; [apply elem_of_mid; by right|]. cbn [fst snd] in *.
    destruct (fits_apart _ _ _ _ _ _ y e Hf Hy); hlia.
  - assert (Hin2 : b2 ∈ A ++ b :: B) by (apply elem_of_mid; by right). pose proof (in_block_of _ _ _ Hi' Hin2) as Hok2.
    pose proof (apart_other A b B b2 (iv_apart _ _ Hi') Hb2) as Hd.
    destruct (fits_in _ _ _ _ _ (mj_fits _ _ Hok2) Hy) as (? & ? & ?).
    pose proof (mj_minors _ _ Hok2) as Hmin. rewrite list.Forall_forall in Hmin.
    destruct (Hmin (y, e) Hy) as [_ _ Hr Hs _]. cbn [fst snd] in *. hlia.
Qed.

(** Writing to one's own memory leaves the heap well formed. *)
Lemma lo_write m' : (forall z, z < p \/ p + n <= z -> m' !! z = mm s !! z) -> cells m' p n -> inv (set_mm s m') H.
Proof.
  intros Hout Hc. pose proof lo_inv as Hi'. pose proof lo_range as (_ & Hp0 & Hp1 & Hn & Hp2 & Hx1 & Hx2 & _).
  pose proof Hl as [HH Hms Ep _ _]. rewrite HH. pose proof (inv_block _ _ _ _ Hi') as Hok.
  assert (Hf := mj_fits _ _ Hok). rewrite Hms in Hf.
  assert (Hother : forall y e, (y, e) ∈ b_mins b -> y <> x -> y + HDR + min_size e <= x \/ x + HDR + min_size d <= y).
  { intros y e Hy Hne. rewrite Hms in Hy. apply elem_of_mid in Hy as [Hy|Hy]; [by injection Hy as -> ->|].
    by eapply fits_apart. }
  eapply (inv_replace s); [exact Hi'|done|done| | | |done|by left|done|done|]; cbn [mm set_mm].
  - constructor; try apply Hok.
    + eapply dll_frame; [|apply Hok]. intros a ([y e] & -> & Hy)%list_elem_of_fmap. cbn [fst].
      unfold view. rewrite (rd_ext (mm s)); [done|]. intros z Hz. apply Hout. cbn in Hz.
      destruct (fits_in _ _ _ _ _ (mj_fits _ _ Hok) Hy) as (? & ? & ?).
      destruct (decide (y = x)) as [->|Hne]; [hlia|]. destruct (Hother y e Hy Hne); hlia.
    + pose proof (mj_minors _ _ Hok) as Hmin. rewrite list.Forall_forall in *. intros [y e] Hy.
      destruct (Hmin (y, e) Hy) as [Hb Hg Hr Hs Ha]. constructor; try done. cbn [fst snd] in *. rewrite <- Ha. apply Hout.
      pose proof (user_byte_in y). pose proof (user_ptr_bounds x).
      destruct (decide (y = x)) as [->|Hne]; [unfold ALIGN_INFO in *; hlia|]. destruct (Hother y e Hy Hne); hlia.
    + intros z Hz. destruct (decide (p <= z < p + n)) as [?|?]; [by apply Hc|]. rewrite Hout by lia. by apply (mj_cells _ _ Hok).
  - rewrite <- (inv_view _ _ _ _ Hi'). unfold view. rewrite (rd_ext (mm s)); [done|]. intros z Hz. apply Hout. cbn in Hz. hlia.
  - intros z Hz Hz'. apply Hout. hlia.
  - cbn. rewrite (iv_inuse _ _ Hi'). unfold uw. rewrite <- Z.add_sub_assoc, Z.sub_diag, Z.add_0_r. by rewrite Z.mod_mod by lia.
Qed.
End facts.

Lemma keeps_contents s H m m' L : inv s H -> live H ≡ₚ L -> keeps H m m' -> same_contents L m m'.
Proof.
  intros Hi Hl Hk p n i Hp Hn. rewrite <- Hl in Hp. apply elem_of_Permutation in Hp as [L' HL'].
  destruct (locate s H p n L' Hi HL') as (A & b & B & ms1 & x & d & ms2 & Hlo).
  pose proof (lo_range s H p n L' A b B ms1 x d ms2 Hi Hlo) as (_ & _ & ? & ? & ? & _).
  destruct Hlo as [HH Hms _ _ _]. apply (Hk b x d); [rewrite HH; apply elem_of_mid; by left| |hlia].
  rewrite Hms. apply elem_of_mid. by left.
Qed.

Lemma heap_of_head s p n L : heap_of s ((p, n) :: L) ->
  exists H A b B ms1 x d ms2, mutex s = 0 /\ inv s H /\ located s H p n L A b B ms1 x d ms2.
Proof.
  intros (Hm & H & Hi & Hl). destruct (locate s H p n L Hi Hl) as (A & b & B & ms1 & x & d & ms2 & Hlo).
  by exists H, A, b, B, ms1, x, d, ms2.
Qed.

(** What a live allocation is: aligned memory of its own. *)
Lemma heap_of_block s p n L : heap_of s ((p, n) :: L) ->
  p mod 16 = 0 /\ 4096 <= p /\ 0 <= n < 2 ^ 31 /\ p + n < 2 ^ 63 /\ cells (mm s) p n /\
  forall q k, (q, k) ∈ L -> disjoint_range p n q k.
Proof.
  intros (H & A & b & B & ms1 & x & d & ms2 & _ & Hi & Hlo)%heap_of_head.
  pose proof (lo_range _ _ _ _ _ _ _ _ _ _ _ _ Hi Hlo) as (? & ? & ? & ? & ? & ? & ? & ? & ?).
  split_and!; try done; [lia..|]. by apply (lo_disjoint _ _ _ _ _ _ _ _ _ _ _ _ Hi Hlo).
Qed.

Lemma heap_of_write s p n L m' : heap_of s ((p, n) :: L) -> (forall z, z < p \/ p + n <= z -> m' !! z = mm s !! z) ->
  cells m' p n -> heap_of (set_mm s m') ((p, n) :: L) /\ same_contents L (mm s) m'.
Proof.
  intros Hh Ho Hc. pose proof (heap_of_block _ _ _ _ Hh) as (_ & _ & _ & _ & _ & Hd). split.
  - destruct Hh as (Hm & H & Hi & Hl). split; [done|]. exists H. split; [|done].
    destruct (locate s H p n L Hi Hl) as (A & b & B & ms1 & x & d & ms2 & Hlo). by eapply lo_write.
  - intros q k i Hq Hk. apply Ho. pose proof (Hd q k Hq). hlia.
Qed.

Definition max_request : Z := 2 ^ 31 - 8192 - 32.

Section main.
Context {K : Kernel}.

Lemma malloc_heap s L n : heap_of s L -> 0 <= n < max_request ->
  exists p s', malloc s n = Ret (p, s') /\ same_contents L (mm s) (mm s') /\
    (p = 0 /\ heap_of s' L \/ p <> 0 /\ heap_of s' ((p, n) :: L)).
Proof.
  unfold max_request. intros (Hm & H & Hi & Hl) Hn.
  destruct (malloc_spec (n + 32) n ltac:(lia) eq_refl ltac:(lia) s H Hi) as (p & s' & Ho & Hm' & Hk & H' & Hi' & Hcase).
  exists p, s'. split; [done|]. split; [exact (keeps_contents s H _ _ L Hi Hl Hk)|].
  destruct Hcase as [[-> Hl']|Hl'].
  - left. split; [done|]. split; [done|]. exists H'. split; [done|]. by rewrite Hl'.
  - assert (Hh : heap_of s' ((p, n) :: L)) by (split; [done|]; exists H'; split; [done|]; by rewrite Hl', Hl).
    right. split; [|done]. pose proof (heap_of_block _ _ _ _ Hh). lia.
Qed.

(** The block that an address lies in *)
Definition inside (b : block) (q : Z) : Prop := b_at b <= q < b_at b + maj_size (b_maj b).

(** Other allocations are in the block of [p] exactly when its list has others. *)
Lemma others_inside s p n L A b B ms1 x d ms2 : inv s (A ++ b :: B) -> located s (A ++ b :: B) p n L A b B ms1 x d ms2 ->
  inside b p /\ (ms1 ++ ms2 = [] <-> forall q k, (q, k) ∈ L -> ~ inside b q).
Proof.
  intros Hi Hlo. pose proof (lo_range _ _ _ _ _ _ _ _ _ _ _ _ Hi Hlo) as (_ & _ & Hp1 & Hn & Hp2 & Hx1 & Hx2 & _).
  pose proof Hlo as [_ Hms _ _ Hrest]. pose proof (inv_block _ _ _ _ Hi) as Hok.
  assert (Hin : forall b2 y e, b2 ∈ A ++ b :: B -> (y, e) ∈ b_mins b2 -> inside b2 (user_ptr y)).
  { intros b2 y e Hb2 Hy. pose proof (in_block_of _ _ _ Hi Hb2) as Hok2. destruct (fits_in _ _ _ _ _ (mj_fits _ _ Hok2) Hy) as (? & ? & ?).
    pose proof (mj_minors _ _ Hok2) as Hmin. rewrite list.Forall_forall in Hmin. destruct (Hmin (y, e) Hy) as [_ _ Hr Hs _]. cbn [fst snd] in *.
    pose proof (user_ptr_bounds y). unfold inside. hlia. }
  split; [unfold inside; pose proof Hlo as [_ _ -> _ _]; apply (Hin b x d); [apply elem_of_mid; by left|rewrite Hms; apply elem_of_mid; by left]|]. split.
  - intros E q k Hq Hins. rewrite Hrest in Hq. apply live_elem in Hq as (A2 & b2 & B2 & l1 & y & e & l2 & HH & Hms2 & -> & ->).
    assert (Hb2 : b2 ∈ A ++ shrunk b ms1 d ms2 :: B) by (rewrite HH; apply elem_of_mid; by left).
    assert (Hy : (y, e) ∈ b_mins b2) by (rewrite Hms2; apply elem_of_mid; by left).
    apply elem_of_mid in Hb2 as [Eb|Hb2].
    + rewrite Eb in Hy. change (b_mins (shrunk b ms1 d ms2)) with (ms1 ++ ms2) in Hy. rewrite E in Hy. by apply not_elem_of_nil in Hy.
    + assert (Hb3 : b2 ∈ A ++ b :: B) by (apply elem_of_mid; by right). pose proof (Hin b2 y e Hb3 Hy) as Hi2.
      pose proof (apart_other A b B b2 (iv_apart _ _ Hi) Hb2) as Hd. unfold inside, disjoint_range in *. lia.
  - intros Hall. destruct (ms1 ++ ms2) as [|[y e] l] eqn:E; [done|]. exfalso.
    assert (Hy : (y, e) ∈ ms1 ++ ms2) by (rewrite E; apply list_elem_of_here). apply (Hall (user_ptr y) (min_req_size e)).
    + rewrite Hrest. unfold live. rewrite fmap_app, concat_app. apply elem_of_app. right. cbn [fmap list_fmap concat]. apply elem_of_app. left.
      change (b_mins (shrunk b ms1 d ms2)) with (ms1 ++ ms2). apply list_elem_of_fmap. by exists (y, e).
    + apply (Hin b y e); [apply elem_of_mid; by left|]. rewrite Hms. apply elem_of_mid. by right.
Qed.

Lemma free_block s p n L : heap_of s ((p, n) :: L) ->
  exists s' b, free s p = Ret s' /\ heap_of s' L /\ same_contents L (mm s) (mm s') /\
    cells (mm s) (b_at b) (maj_size (b_maj b)) /\ inside b p /\
    ((forall q k, (q, k) ∈ L -> ~ inside b q) /\ given_back s s' b \/
     (exists q k, (q, k) ∈ L /\ inside b q) /\ kept_block s s' b).
Proof.
  intros (H & A & b & B & ms1 & x & d & ms2 & Hm & Hi & Hlo)%heap_of_head. pose proof Hlo as [-> Hms _ _ _].
  destruct (others_inside _ _ _ _ _ _ _ _ _ _ _ Hi Hlo) as [Hins Hoth]. pose proof (mj_cells _ _ (inv_block _ _ _ _ Hi)) as Hcb.
  destruct Hlo as [_ _ -> -> Hrest].
  destruct (free_spec s A b B ms1 x d ms2 Hi Hms) as (s' & H' & Hf & Hm' & Hi' & Hl & Hk & Hcase).
  assert (HL : live H' ≡ₚ L).
  { rewrite (live_remove A b B ms1 x d ms2 Hms) in Hl. apply Permutation_cons_inv in Hl. by rewrite Hrest, Hl. }
  exists s', b. split; [done|]. split; [split; [done|by exists H']|]. split; [exact (keeps_contents s' H' _ _ L Hi' HL Hk)|].
  split; [done|]. split; [done|]. destruct Hcase as [[E Hg]|[E Hg]]; [left|right]; (split; [|exact Hg]). { by apply Hoth. }
  destruct (decide (Exists (fun e => inside b e.1) L)) as [He|He].
  - apply list.Exists_exists in He as ([q k] & Hq & Hqi). by exists q, k.
  - exfalso. apply E, Hoth. intros q k Hq Hqi. apply He, list.Exists_exists. by exists (q, k).
Qed.

Lemma free_heap s p n L : heap_of s ((p, n) :: L) ->
  exists s', free s p = Ret s' /\ heap_of s' L /\ same_contents L (mm s) (mm s').
Proof. intros (s' & b & Hf & Hh & Hs & _)%free_block. by exists s'. Qed.

End main.

(** ** Filling and copying *)

Lemma memset_loop_eq fuel m p c n i : memset_loop (S fuel) m p c n i =
  if i <? n then let! m := store8 m (u64 (p + i)) c in memset_loop fuel m p c n (u32 (i + 1)) else Ret m.
Proof. done. Qed.

Lemma memset_turns_spec c n p : 0 <= n < 2 ^ 32 -> 0 <= p -> p + n < 2 ^ 64 ->
  forall (k : nat) m i, Z.of_nat k = n - i -> 0 <= i -> cells m p n ->
  memset_loop (S k) m p c n i = Ret (write_bytes m (p + i) (replicate k (u8 c))).
Proof.
  intros Hn Hp Hpn. induction k as [|k IH]; intros m i Hk Hi Hc; rewrite memset_loop_eq.
  { by destruct (Z.ltb_spec i n); [lia|]. }
  destruct (Z.ltb_spec i n); [|lia]. rewrite uw_small by lia. destruct (Hc (p + i)) as (v & Hv & _); [lia|].
  unfold store8. rewrite Hv. cbn [obind]. rewrite (uw_small 32) by lia. rewrite IH; [|lia|lia|].
  - cbn [replicate write_bytes]. by replace (p + (i + 1)) with (p + i + 1) by lia.
  - intros z Hz. destruct (decide (z = p + i)) as [->|Hne].
    + rewrite lookup_insert_eq. eexists. split; [done|]. by apply (uw_range 8).
    + rewrite lookup_insert_ne by done. by apply Hc.
Qed.

Lemma liballoc_memset_spec s p c n : 0 <= n < 2 ^ 32 -> 0 <= p -> p + n < 2 ^ 64 -> cells (mm s) p n ->
  liballoc_memset s p c n = Ret (p, set_mm s (write_bytes (mm s) p (replicate (Z.to_nat n) (u8 c)))).
Proof.
  intros Hn Hp Hpn Hc. unfold liballoc_memset.
  rewrite (memset_turns_spec c n p Hn Hp Hpn (Z.to_nat n) (mm s) 0) by (done || lia). by rewrite Z.add_0_r.
Qed.

Lemma cells_mapped m a n : cells m a n -> mapped m a n.
Proof. intros Hc i Hi. destruct (Hc (a + i)) as (b & Hb & _); [lia|]. by exists b. Qed.

Lemma liballoc_memcpy_spec s d p l : bytes_at (mm s) p l -> mapped (mm s) d (Z.of_nat (length l)) ->
  disjoint_range d (Z.of_nat (length l)) p (Z.of_nat (length l)) ->
  liballoc_memcpy s d p (Z.of_nat (length l)) = Ret (d, set_mm s (write_bytes (mm s) d l)).
Proof.
  intros Hl Hm Hd. unfold liballoc_memcpy, disjoint_range in *. remember (Z.of_nat (length l)) as n eqn:En.
  assert (Hk : 0 <= n / 4 /\ 4 * (n / 4) <= n < 4 * (n / 4) + 4) by dlia.
  destruct (list_split_at l (4 * Z.to_nat (n / 4))) as (l1 & l2 & -> & Hl1); [lia|].
  rewrite length_app in En. apply bytes_at_app in Hl as [H1 H2].
  assert (Hn1 : Z.of_nat (length l1) = 4 * (n / 4)) by lia.
  rewrite (copy_words_spec 4 _ (mm s) d p l1 Hl1 H1); [|apply (mapped_sub _ _ _ _ _ Hm); lia|intros Hk0; lia].
  cbn [obind]. replace (Z.to_nat (n - 4 * (n / 4))) with (length l2) by lia.
  rewrite <- Hn1. rewrite (copy_up_spec _ _ _ l2).
  - cbn [obind]. by rewrite write_bytes_app.
  - apply bytes_at_write_out; [|done]. unfold disjoint_range. lia.
  - apply mapped_write. apply (mapped_sub _ _ _ _ _ Hm); lia.
  - lia.
Qed.

(** A new contents for an allocation. *)
Lemma heap_of_fill s p n L l : heap_of s ((p, n) :: L) -> Forall byte l -> Z.of_nat (length l) <= n ->
  heap_of (set_mm s (write_bytes (mm s) p l)) ((p, n) :: L) /\ same_contents L (mm s) (write_bytes (mm s) p l).
Proof.
  intros Hh Hb Hn. apply heap_of_write; [done| |].
  - intros z Hz. apply lookup_write_bytes_out. lia.
  - pose proof (heap_of_block _ _ _ _ Hh) as (_ & _ & _ & _ & Hc & _). intros z Hz. rewrite lookup_write_bytes.
    case_decide; [|by apply Hc]. destruct (lookup_lt_is_Some_2 l (Z.to_nat (z - p))) as [v Hv]; [lia|].
    exists v. split; [done|]. by apply (Forall_lookup_1 _ _ _ _ Hb Hv).
Qed.

Section main2.
Context {K : Kernel}.

Lemma calloc_heap s L nobj sz : heap_of s L -> 0 <= nobj * sz < max_request ->
  (exists s', malloc s (nobj * sz) = Ret (0, s')) \/
  exists p s', calloc s nobj sz = Ret (p, s') /\ p <> 0 /\ heap_of s' ((p, nobj * sz) :: L) /\
    same_contents L (mm s) (mm s') /\ forall i, 0 <= i < nobj * sz -> mm s' !! (p + i) = Some 0.
Proof.
  intros Hh Hn. set (n := nobj * sz) in *. unfold calloc, max_request in *.
  rewrite (sw_small 32), (uw_small 64) by (unfold in_s; lia). fold n.
  destruct (malloc_heap s L n Hh ltac:(unfold max_request; lia)) as (p & s1 & Hm & Hs1 & [[-> _]|[Hp Hh1]]).
  { left. by exists s1. }
  right. rewrite Hm. cbn [obind]. pose proof (heap_of_block _ _ _ _ Hh1) as (_ & Hlow & _ & Hhi & Hc & _).
  rewrite liballoc_memset_spec by (done || lia). cbn [obind snd]. change (u8 0) with 0.
  assert (Hz : Forall byte (replicate (Z.to_nat n) 0)) by (apply Forall_replicate; unfold byte; lia).
  destruct (heap_of_fill s1 p n L (replicate (Z.to_nat n) 0) Hh1 Hz) as [Hh2 Hs2]; [rewrite length_replicate; lia|].
  eexists p, _. split; [done|]. split; [done|]. split; [done|]. split.
  - intros q k i Hq Hi. cbn [mm set_mm]. by rewrite (Hs2 q k i), (Hs1 q k i).
  - intros i Hi. cbn [mm set_mm]. rewrite lookup_write_bytes, decide_True by (rewrite length_replicate; lia).
    apply lookup_replicate_2. lia.
Qed.

Lemma relocked s L : heap_of s L -> heap_of (snd (liballoc_unlock (snd (liballoc_lock s)))) L /\
  mm (snd (liballoc_unlock (snd (liballoc_lock s)))) = mm s.
Proof.
  intros (Hm & H & Hi & Hl). split; [|done]. split; [apply unlock_mutex|]. exists H. split; [|done].
  eapply inv_same; [exact Hi|try done..]. by left.
Qed.

(** A growing [realloc]: a new allocation, a copy, and the release of the old one *)
Lemma realloc_moves s p n L sz : heap_of s ((p, n) :: L) -> 0 < sz -> n < sz ->
  realloc s p sz =
    let! r := malloc (snd (liballoc_unlock (snd (liballoc_lock s)))) sz in
    let '(ptr, s) := r in
    let! r := liballoc_memcpy s ptr p n in
    let! s := free (snd r) p in
    Ret (ptr, s).
Proof.
  intros Hh H0 Hsz. pose proof (heap_of_block _ _ _ _ Hh) as (_ & Hlow & _).
  destruct (heap_of_head _ _ _ _ Hh) as (H & A & b & B & ms1 & x & d & ms2 & Hm & Hi & [-> Hms Hpx Hnd _]).
  destruct (live_header s A b B ms1 x d ms2 Hi Hms s eq_refl) as (Hun & Hx & _ & Hrd & [_ Hmag _ _ _]). rewrite <- Hpx in *.
  unfold realloc. destruct (Z.eqb_spec sz 0); [lia|]. destruct (Z.eqb_spec p 0); [lia|].
  rewrite Hun. cbn [obind]. rewrite Hx. unfold get_min at 1. cbn [mm set_mutex liballoc_lock snd]. rewrite Hrd.
  cbn [obind data]. rewrite Hmag, Z.eqb_refl. cbn [negb]. rewrite <- Hnd, Z.geb_leb. by destruct (Z.leb_spec sz n); [lia|].
Qed.

Lemma copy_to_unmapped s p l : mm s !! 0 = None -> bytes_at (mm s) p l -> l <> [] -> liballoc_memcpy s 0 p (Z.of_nat (length l)) = Fault.
Proof.
  intros H0 Hl Hne. unfold liballoc_memcpy. destruct l as [|b0 l]; [done|]. set (n := Z.of_nat (length (b0 :: l))).
  assert (Hst : forall v k, store_le (mm s) 0 (S k) v = Fault) by (intros v k; unfold store_le; cbn [le_bytes store_bytes]; unfold store8; by rewrite H0).
  destruct (Z.to_nat (n / 4)) as [|k] eqn:Ek.
  - cbn [copy_words obind]. assert (n / 4 = 0) as -> by (assert (0 <= n / 4) by (apply Z.div_pos; unfold n; lia); lia). rewrite !Z.mul_0_r, !Z.add_0_r, Z.sub_0_r.
    replace (Z.to_nat n) with (S (length l)) by (unfold n; cbn; lia). cbn [copy_up]. rewrite (load8_bytes _ _ _ _ Hl). cbn [obind]. unfold store8. by rewrite H0.
  - cbn [copy_words]. assert (Hn4 : (4 <= length (b0 :: l))%nat) by (assert (4 * (n / 4) <= n) by (apply Z.mul_div_le; lia); unfold n in *; lia).
    destruct (list_split_at (b0 :: l) 4 Hn4) as (l1 & l2 & E & Hl1). rewrite E in Hl. apply bytes_at_app in Hl as [Hl _].
    rewrite (load_le_at _ _ l1 4) by done. cbn [obind]. by rewrite Hst.
Qed.

(** Without memory for the new allocation, [realloc] copies to the null pointer. *)
Lemma realloc_null s p n L sz s0 : heap_of s ((p, n) :: L) -> n < sz < max_request ->
  malloc (snd (liballoc_unlock (snd (liballoc_lock s)))) sz = Ret (0, s0) ->
  (forall q s', realloc s p sz = Ret (q, s') -> q = 0) /\ (0 < n -> mm s0 !! 0 = None -> realloc s p sz = Fault).
Proof.
  intros Hh Hsz Hmal. pose proof (heap_of_block _ _ _ _ Hh) as (_ & Hlow & Hn & Hhi & Hc & Hd).
  rewrite (realloc_moves s p n L sz Hh) by lia. rewrite Hmal. cbn [obind]. split.
  - intros q s'. destruct (liballoc_memcpy s0 0 p n) as [r| |]; cbn [obind]; try done. destruct (free (snd r) p); cbn [obind]; try done. by intros [= <- _].
  - intros Hpos H0. destruct (relocked s _ Hh) as [Hh0 Hm0].
    destruct (malloc_heap _ _ sz Hh0 ltac:(lia)) as (q & s1 & Hmal' & Hs1 & _). rewrite Hmal in Hmal'. injection Hmal' as <- <-. rewrite Hm0 in Hs1.
    assert (Hcp : cells (mm s0) p n).
    { intros z Hz. destruct (Hc z Hz) as (v & Hv & Hb). exists v. split; [|done]. rewrite <- Hv.
      replace z with (p + (z - p)) by lia. apply (Hs1 p n); [apply list_elem_of_here|lia]. }
    destruct (cells_bytes (mm s0) p (Z.to_nat n)) as (l & Hll & Hl); [by rewrite Z2Nat.id by lia|].
    assert (Hn' : n = Z.of_nat (length l)) by lia. rewrite Hn', copy_to_unmapped; [done|done|done|]. intros ->. cbn in Hn'. lia.
Qed.

Lemma realloc_grow s p n L sz : heap_of s ((p, n) :: L) -> n < sz < max_request ->
  (exists s', malloc (snd (liballoc_unlock (snd (liballoc_lock s)))) sz = Ret (0, s')) \/
  exists q s', realloc s p sz = Ret (q, s') /\ q <> 0 /\ heap_of s' ((q, sz) :: L) /\
    same_contents L (mm s) (mm s') /\ forall i, 0 <= i < n -> mm s' !! (q + i) = mm s !! (p + i).
Proof.
  intros Hh Hsz. pose proof (heap_of_block _ _ _ _ Hh) as (_ & Hlow & Hn & Hhi & Hc & Hd).
  destruct (heap_of_head _ _ _ _ Hh) as (H & A & b & B & ms1 & x & d & ms2 & Hm & Hi & [-> Hms Hpx Hnd _]).
  destruct (live_header s A b B ms1 x d ms2 Hi Hms s eq_refl) as (Hun & Hx & _ & Hrd & [_ Hmag _ _ _]).
  rewrite <- Hpx in *. destruct (relocked s _ Hh) as [Hh0 Hm0].
  destruct (malloc_heap _ _ sz Hh0 ltac:(lia)) as (q & s1 & Hmal & Hs1 & [[-> _]|[Hq Hh1]]).
  { left. by exists s1. }
  right. unfold realloc. destruct (Z.eqb_spec sz 0); [lia|]. destruct (Z.eqb_spec p 0); [lia|].
  rewrite Hun. cbn [obind]. rewrite Hx. unfold get_min at 1. cbn [mm set_mutex liballoc_lock snd]. rewrite Hrd.
  cbn [obind data]. rewrite Hmag, Z.eqb_refl. cbn [negb]. rewrite <- Hnd, Z.geb_leb. destruct (Z.leb_spec sz n); [lia|].
  cbn [liballoc_lock liballoc_unlock snd] in Hmal. cbn [liballoc_unlock snd]. rewrite Hmal. cbn [obind].
  rewrite Hm0 in Hs1. assert (Hcp : cells (mm s1) p n).
  { intros z Hz. destruct (Hc z Hz) as (v & Hv & Hb). exists v. split; [|done]. rewrite <- Hv.
    replace z with (p + (z - p)) by lia. apply (Hs1 p n); [apply list_elem_of_here|lia]. }
  destruct (cells_bytes (mm s1) p (Z.to_nat n)) as (l & Hll & Hl); [by rewrite Z2Nat.id by lia|].
  pose proof (heap_of_block _ _ _ _ Hh1) as (_ & _ & _ & _ & Hcq & Hdq).
  pose proof (Hdq p n ltac:(apply list_elem_of_here)) as Hpq. assert (Hn' : n = Z.of_nat (length l)) by lia.
  assert (Hcopy : liballoc_memcpy s1 q p n = Ret (q, set_mm s1 (write_bytes (mm s1) q l))).
  { rewrite Hn'. apply liballoc_memcpy_spec; [done| |unfold disjoint_range in *; lia].
    apply cells_mapped. eapply cells_sub; [exact Hcq|lia|lia]. }
  rewrite Hcopy. cbn [obind snd]. destruct (heap_of_fill s1 q sz _ l Hh1 (bytes_at_byte _ _ _ Hl)) as [Hh2 Hs2]; [lia|].
  set (s2 := set_mm s1 _) in *.
  assert (Hh3 : heap_of s2 ((p, n) :: (q, sz) :: L)) by (rewrite (Permutation_swap (q, sz)); exact Hh2).
  destruct (free_heap s2 p n _ Hh3) as (s3 & -> & Hh4 & Hs3). cbn [obind]. eexists q, s3.
  split; [done|]. split; [done|]. split; [done|]. split.
  - intros r k i Hr Hi'. rewrite (Hs3 r k i) by (done || apply elem_of_cons; auto).
    change (mm s2) with (write_bytes (mm s1) q l). by rewrite (Hs2 r k i), (Hs1 r k i) by (done || apply elem_of_cons; auto).
  - intros i Hi'. rewrite (Hs3 q sz i); [|apply list_elem_of_here|lia]. change (mm s2) with (write_bytes (mm s1) q l).
    rewrite lookup_write_bytes, decide_True by lia. replace (Z.to_nat (q + i - q)) with (Z.to_nat i) by lia.
    rewrite <- (Hs1 p n i); [|apply list_elem_of_here|lia].
    destruct (lookup_lt_is_Some_2 l (Z.to_nat i)) as [v Hv]; [lia|]. rewrite Hv. symmetry.
    apply (bytes_at_lookup_Z _ _ _ _ _ Hl); [lia|]. by replace (Z.to_nat (p + i - p)) with (Z.to_nat i) by lia.
Qed.
End main2.

(** ** realloc in place *)

Section resizing.
Context (s : heap) (A : list block) (b : block) (B : list block).
Context (ms1 : list (Z * minor_d)) (x : Z) (d : minor_d) (ms2 : list (Z * minor_d)) (sz : Z).
Hypothesis Hi : inv s (A ++ b :: B).
Hypothesis Hms : b_mins b = ms1 ++ (x, d) :: ms2.
Hypothesis Hsz : 0 <= sz <= min_req_size d.

Definition resized_minor : minor_d := Minor (min_block d) (min_magic d) (min_size d) sz.
Definition resized : block := Block (b_at b) (b_maj b) (ms1 ++ (x, resized_minor) :: ms2).

Lemma resized_ok m' : only [x] (mm s) m' -> view m' x = Some (Node (last_of 0 ms1) (first_of ms2 0) resized_minor) ->
  major_ok m' resized.
Proof.
  intros Ho Hv. pose proof (inv_block _ _ _ _ Hi) as Hok. pose proof (mj_fits _ _ Hok) as Hf. rewrite Hms in Hf.
  assert (Hf' : fits (b_at b + HDR) (ms1 ++ (x, resized_minor) :: ms2) (b_at b + maj_size (b_maj b))).
  { apply fits_app in Hf as [H1 H2]. by apply fits_app. }
  pose proof (mj_list _ _ Hok) as Hl. rewrite Hms in Hl.
  assert (Hold : forall y e, (y, e) ∈ ms1 ++ ms2 -> y + HDR + min_size e <= x \/ x + HDR <= y).
  { intros y e Hy. pose proof (fits_apart _ _ _ _ _ _ y e Hf Hy). destruct (minor_view s A b B Hi ms1 x d ms2 Hms) as (_ & _ & ? & _).
    hlia. }
  constructor; cbn [resized b_at b_maj b_mins]; try apply Hok; try done.
  - rewrite (mj_usage _ _ Hok), Hms, !used_app. done.
  - rewrite (mj_first _ _ Hok), Hms, !first_of_app. done.
  - eapply (dll_update (view (mm s))); [exact Hl| |exact Hv|].
    + rewrite <- Hms. apply (fits_NoDup _ _ _ (mj_fits _ _ Hok)).
    + intros a ([y e] & -> & Hy)%list_elem_of_fmap. cbn [fst]. apply (only_view1 x); [cbn; hlia|done|].
      assert (Hy' : (y, e) ∈ ms1 ++ (x, d) :: ms2) by (apply elem_of_mid; by right).
      destruct (fits_in _ _ _ _ _ Hf Hy') as (_ & ? & _). destruct (Hold y e Hy); hlia.
  - pose proof (mj_minors _ _ Hok) as Hmin. rewrite Hms in Hmin. rewrite list.Forall_forall in *.
    intros [y e] Hy. pose proof (user_byte_in y). apply elem_of_mid in Hy as [Hy|Hy].
    + injection Hy as -> ->. destruct (Hmin (x, d)) as [Hb Hg Hr Hs Ha]; [apply elem_of_mid; by left|].
      cbn [fst snd] in *. constructor; cbn; try done; [lia|lia|]. rewrite <- Ha. apply Ho. constructor; [hlia|done].
    + destruct (Hmin (y, e)) as [Hb Hg Hr Hs Ha]; [apply elem_of_mid; by right|]. cbn [fst snd] in *.
      constructor; try done. rewrite <- Ha. apply Ho. constructor; [|done]. destruct (Hold y e Hy); hlia.
  - eapply only_cells; [exact Ho|apply Hok].
Qed.

Lemma resize_spec s0 : mm s0 = mm s -> exists m', upd_min s0 x (set_req_size sz) = Ret (set_mm s0 m') /\
  inv (set_mm s m') (A ++ resized :: B) /\ keeps (A ++ resized :: B) (mm s) m'.
Proof.
  intros Hm0. pose proof (inv_block _ _ _ _ Hi) as Hok.
  destruct (minor_view s A b B Hi ms1 x d ms2 Hms) as (Hv & Hx1 & Hx2 & Hx3 & Hc).
  pose proof (mj_minors _ _ Hok) as Hmin. rewrite Hms in Hmin. rewrite list.Forall_forall in Hmin.
  destruct (Hmin (x, d)) as [_ _ Hr Hs _]; [apply elem_of_mid; by left|]. cbn [fst snd] in *.
  pose proof (view_wf_min _ _ _ Hv Hc) as Hw. pose proof (mj_low _ _ Hok) as Hlow.
  destruct (upd_min_spec s0 x (set_req_size sz) (Node (last_of 0 ms1) (first_of ms2 0) d)) as (m' & E & Hv' & Ho);
    [by rewrite Hm0|apply wf_set_req_size; [done|hlia]|by rewrite Hm0|].
  rewrite Hm0 in Ho. pose proof (resized_ok m' Ho Hv') as Hok'.
  assert (Hout : forall z, 4096 <= z -> z < b_at b \/ b_at b + maj_size (b_maj b) <= z -> m' !! z = mm s !! z).
  { intros z _ Hz. apply Ho. constructor; [hlia|done]. }
  exists m'. split; [done|]. split.
  - eapply (inv_replace s); [exact Hi|done|done|exact Hok'| |exact Hout|done|by left|done|done|].
    + cbn [mm set_mm]. rewrite (only_view1 x (mm s)); [exact (inv_view _ _ _ _ Hi)|done|done|hlia].
    + cbn [l_inuse set_mm resized b_mins]. rewrite Hms, !payload_app. unfold payload. cbn [foldr snd resized_minor min_size].
      rewrite (iv_inuse _ _ Hi). unfold uw. rewrite <- Z.add_sub_assoc, Z.sub_diag, Z.add_0_r. by rewrite Z.mod_mod by lia.
  - intros b2 y e z [->|Hb2]%elem_of_mid Hy Hz; [|destruct (other_payload s A b B b2 y e z Hi Hb2 Hy Hz); by apply Hout].
    cbn [resized b_mins] in Hy. apply Ho. constructor; [|done].
    apply elem_of_mid in Hy as [Hy|Hy]; [injection Hy as -> ->; hlia|].
    pose proof (mj_fits _ _ Hok) as Hf. rewrite Hms in Hf. destruct (fits_apart _ _ _ _ _ _ y e Hf Hy); hlia.
Qed.

Lemma live_resized : live (A ++ resized :: B) ≡ₚ (user_ptr x, sz) :: live (A ++ shrunk b ms1 d ms2 :: B).
Proof. by apply (live_insert A (shrunk b ms1 d ms2) resized B ms1 x resized_minor ms2). Qed.
End resizing.

Section main3.
Context {K : Kernel}.

Lemma realloc_shrink s p n L sz : heap_of s ((p, n) :: L) -> 0 < sz <= n ->
  exists s', realloc s p sz = Ret (p, s') /\ heap_of s' ((p, sz) :: L) /\ same_contents ((p, sz) :: L) (mm s) (mm s').
Proof.
  intros Hh Hsz. pose proof (heap_of_block _ _ _ _ Hh) as (_ & Hlow & Hn & Hhi & Hc & Hd).
  destruct (heap_of_head _ _ _ _ Hh) as (H & A & b & B & ms1 & x & d & ms2 & Hm & Hi & [-> Hms Hpx Hnd Hrest]).
  destruct (live_header s A b B ms1 x d ms2 Hi Hms s eq_refl) as (Hun & Hx & _ & Hrd & [_ Hmag _ _ _]).
  rewrite <- Hpx in *. unfold realloc. destruct (Z.eqb_spec sz 0); [lia|]. destruct (Z.eqb_spec p 0); [lia|].
  rewrite Hun. cbn [obind]. rewrite Hx. unfold get_min at 1. cbn [mm set_mutex liballoc_lock snd]. rewrite Hrd.
  cbn [obind data]. rewrite Hmag, Z.eqb_refl. cbn [negb]. rewrite <- Hnd, Z.geb_leb. destruct (Z.leb_spec sz n); [|lia].
  rewrite uw_small by lia.
  destruct (resize_spec s A b B ms1 x d ms2 sz Hi Hms ltac:(lia) (snd (liballoc_lock s)) eq_refl) as (m' & E & Hi' & Hk).
  cbn [snd liballoc_lock] in E. rewrite E. cbn [obind].
  pose proof (live_resized A b B ms1 x d ms2 sz) as Hl. rewrite <- Hpx, <- Hrest in Hl.
  eexists. split; [done|]. split.
  - split; [apply unlock_mutex|]. eexists. split; [|exact Hl]. eapply inv_same; [exact Hi'|try done..]. by left.
  - exact (keeps_contents _ _ _ _ _ Hi' Hl Hk).
Qed.

(** A pointer whose header does not carry the magic number: [free] and
    [realloc] count an error and leave the heap alone. *)
Lemma free_bad_magic s x (k : minor) : 0 <= x -> x + HDR + 32 < 2 ^ 64 ->
  mm s !! (user_ptr x - ALIGN_INFO) = Some (user_ptr x - (x + HDR)) -> view (mm s) x = Some k ->
  min_magic (data k) <> LIBALLOC_MAGIC -> mutex s = 0 ->
  exists o, free s (user_ptr x) = Ret (set_mutex (set_errors s (s64 (l_errorCount s + 1)) o) 0).
Proof.
  intros Hx Hb Ha Hk Hmag Hm. pose proof (user_ptr_bounds x). unfold free. destruct (Z.eqb_spec (user_ptr x) 0); [hlia|].
  rewrite UNALIGN_spec by done. cbn [obind]. replace (x + HDR - HDR) with x by lia. rewrite uw_small by hlia.
  unfold get_min. cbn [mm set_mutex liballoc_lock snd]. rewrite (view_rd _ _ _ Hk). cbn [obind].
  destruct (Z.eqb_spec (min_magic (data k)) LIBALLOC_MAGIC); [done|]. cbn [negb]. eexists.
  unfold liballoc_unlock, bad_magic, set_errors, set_mutex, pthread_mutex_lock. cbn. rewrite Hm. cbn. done.
Qed.
End main3.
