(* ===== verification/LiballocTheorems.v ===== *)
(** * What the allocator promises

    The theorems about [malloc], [free], [calloc] and [realloc] in terms of the
    live allocations; the programs that use them as a step relation; a request
    that the allocator cuts short. *)

From S2P Require Import Prelude CMem CStruct LinkedList LibcErrno KernelMem Liballoc LiballocBlocks LiballocMalloc LiballocFree.

(** The static variables before the first call. *)
Definition heap_init (m : mem) : heap := Heap m 0 0 0 0 0 0 0 0 (-1) 0.

Lemma heap_init_of m : heap_of (heap_init m) [].
Proof.
  split; [done|]. exists []. split; [|done]. constructor; cbn; try done.
  - split; [constructor|]. by intros b1 b2 ?%not_elem_of_nil.
  - by left.
  - by left.
Qed.

(** ** Programs *)

Section programs.
Context {K : Kernel}.

(** A program: it allocates, resizes, releases and writes to what it owns. *)
Inductive step : heap * list (Z * Z) -> heap * list (Z * Z) -> Prop :=
| step_malloc s L n p s' :
    0 <= n < max_request -> malloc s n = Ret (p, s') -> p <> 0 -> step (s, L) (s', (p, n) :: L)
| step_malloc_null s L n s' :
    0 <= n < max_request -> malloc s n = Ret (0, s') -> step (s, L) (s', L)
| step_free s L p n L' s' :
    L ≡ₚ (p, n) :: L' -> free s p = Ret s' -> step (s, L) (s', L')
| step_realloc s L p n L' sz q s' :
    L ≡ₚ (p, n) :: L' -> 0 < sz < max_request -> realloc s p sz = Ret (q, s') -> q <> 0 -> step (s, L) (s', (q, sz) :: L')
| step_write s L p n i v :
    (p, n) ∈ L -> 0 <= i < n -> step (s, L) (set_mm s (<[p + i := u8 v]> (mm s)), L).

Lemma step_heap c c' : step c c' -> heap_of c.1 c.2 -> heap_of c'.1 c'.2.
Proof.
  destruct 1 as [s L n p s' Hn Hm Hp|s L n s' Hn Hm|s L p n L' s' HL Hf|s L p n L' sz q s' HL Hsz Hr Hq|s L p n i v Hp Hi];
    cbn [fst snd]; intros Hh.
  - destruct (malloc_heap s L n Hh Hn) as (p2 & s2 & E & _ & Hc). rewrite Hm in E. injection E as <- <-.
    by destruct Hc as [[? _]|[_ ?]].
  - destruct (malloc_heap s L n Hh Hn) as (p2 & s2 & E & _ & Hc). rewrite Hm in E. injection E as <- <-.
    by destruct Hc as [[_ ?]|[? _]].
  - rewrite HL in Hh. destruct (free_heap s p n L' Hh) as (s2 & E & Hh2 & _). rewrite Hf in E. by injection E as <-.
  - rewrite HL in Hh. destruct (Z_le_gt_dec sz n) as [Hle|Hgt].
    + destruct (realloc_shrink s p n L' sz Hh ltac:(lia)) as (s2 & E & Hh2 & _). rewrite Hr in E. by injection E as -> <-.
    + destruct (realloc_grow s p n L' sz Hh ltac:(lia)) as [[s0 Hnull]|(q2 & s2 & E & _ & Hh2 & _)].
      * destruct (realloc_null s p n L' sz s0 Hh ltac:(lia) Hnull) as [H0 _]. by destruct Hq; eapply H0.
      * rewrite Hr in E. by injection E as -> <-.
  - apply elem_of_Permutation in Hp as [L' HL]. rewrite HL in Hh |- *.
    pose proof (heap_of_block _ _ _ _ Hh) as (_ & _ & _ & _ & Hc & _). apply heap_of_write; [done| |].
    + intros z Hz. apply lookup_insert_ne. lia.
    + intros z Hz. destruct (decide (z = p + i)) as [->|Hne].
      * rewrite lookup_insert_eq. eexists. split; [done|]. by apply (uw_range 8).
      * rewrite lookup_insert_ne by done. by apply Hc.
Qed.

Lemma steps_heap c c' : rtc step c c' -> heap_of c.1 c.2 -> heap_of c'.1 c'.2.
Proof. induction 1 as [|c1 c2 c3 H1 _ IH]; [done|]. intros Hh. by eapply IH, step_heap. Qed.
End programs.

(** ** Requests of 4 GiB and more

    [allocate_new_page] takes an [unsigned int]. *)

Section truncation.
Context {K : Kernel}.

Lemma wrap32 sz : u32 (2 ^ 32 + sz) = u32 sz.
Proof. unfold uw. rewrite <- (Z_mod_plus_full sz 1 (2 ^ 32)). f_equal. lia. Qed.

Lemma allocate_wrap s sz : allocate_new_page s (2 ^ 32 + sz) = allocate_new_page s sz.
Proof. unfold allocate_new_page. by rewrite wrap32. Qed.

Lemma append_wrap s maj sz : append_page s maj (2 ^ 32 + sz) = append_page s maj sz.
Proof. unfold append_page. by rewrite allocate_wrap. Qed.

(** CASE 2 does not look at the size of the block. *)
Lemma case2_unchecked s A b B sz req : inv s (A ++ b :: B) -> b_mins b = [] ->
  exists s' d, case2 s (b_at b) sz req = Ret (user_ptr (b_at b + HDR), s') /\
    view (mm s') (b_at b) = Some d /\ maj_size (data (d : major)) = maj_size (b_maj b).
Proof.
  intros Hi Hms. pose proof (inv_block _ _ _ _ Hi) as Hok. pose proof (inv_view _ _ _ _ Hi) as Hv.
  pose proof (block_header _ _ Hok) as Hc. pose proof (mj_low _ _ Hok). pose proof (mj_high _ _ Hok). pose proof (mj_size _ _ Hok).
  pose proof (mj_pages _ _ Hok). unfold l_pageSize in *.
  unfold case2. rewrite (uw_small 64 (b_at b + HDR)) by hlia. set (x := b_at b + HDR) in *.
  assert (Hcb : forall a n, b_at b <= a -> a + n <= b_at b + 4096 -> cells (mm s) a n).
  { intros a n Ha Hn. eapply cells_sub; [apply (mj_cells _ _ Hok)|lia|lia]. }
  destruct (upd_maj_spec s (b_at b) (set_first x) _ Hv) as (m1 & -> & Hv1 & Ho1); [|done|].
  { apply wf_set_first; [by eapply view_wf_maj|hlia]. }
  assert (Hcx : cells (mm s) x HDR) by (apply Hcb; hlia).
  destruct (view_min _ _ (only_cells _ _ _ _ _ Ho1 Hcx)) as (k & Hk & _). cbn [obind].
  destruct (upd_min_spec (set_mm s m1) x (fun _ => Node 0 0 (Minor (b_at b) LIBALLOC_MAGIC (u32 sz) (u32 req))) k Hk)
    as (m2 & -> & _ & Ho2); [|by eapply only_cells|].
  { apply wf_minor. pose proof (uw_range 32 sz). pose proof (uw_range 32 req). unfold LIBALLOC_MAGIC. hlia. }
  cbn [obind]. rewrite set_mm2, mm_set in *. unfold finish.
  assert (Hv2 : view m2 (b_at b) = view (A := major) m1 (b_at b)) by (apply (only_view1 x); [done|done|hlia]).
  rewrite Hv1 in Hv2. pose proof (only_trans [b_at b] [x] _ _ _ Ho1 Ho2) as Ho12.
  destruct (upd_maj_spec (set_mm s m2) (b_at b) (fun n => set_usage (u32 (maj_usage (data n) + u64 (sz + HDR))) n) _ Hv2)
    as (m3 & -> & Hv3 & Ho3); [|by apply (only_cells _ _ _ _ _ Ho12)|].
  { apply wf_set_usage; [|by apply (uw_range 32)]. apply wf_set_first; [exact (view_wf_maj _ _ _ Hv Hc)|hlia]. }
  cbn [obind]. rewrite set_mm2, mm_set in *. rewrite ALIGN_spec; [|hlia|hlia|].
  2:{ cbn [mm set_mm set_inuse]. apply (only_cells _ _ _ _ _ Ho3), (only_cells _ _ _ _ _ Ho12), Hcb; hlia. }
  cbn [obind]. eexists _, _. split; [done|]. split; [|shelve].
  cbn [mm set_mm set_inuse set_mutex liballoc_unlock snd]. transitivity (view (A := major) m3 (b_at b)); [|exact Hv3].
  unfold view. rewrite (rd_ext m3); [done|]. intros z Hz. apply lookup_insert_ne. pose proof (user_byte_in x). cbn in Hz. hlia.
  Unshelve. reflexivity.
Qed.

Lemma malloc_cut_short m k : 0 <= k < 2 ^ 15 ->
  exists p s', malloc (heap_init m) (2 ^ 32 + k) = Ret (p, s') /\
    (p = 0 \/ exists a d, view (mm s') a = Some d /\ maj_size (data (d : major)) = 65536 /\ a < p < a + 65536).
Proof.
  intros Hk. unfold malloc, ALIGNMENT, ALIGN_INFO. rewrite (uw_small 64) by lia.
  set (req := 2 ^ 32 + k). replace (req + (16 + 16)) with (2 ^ 32 + (k + 32)) by (unfold req; lia).
  destruct (Z.eqb_spec (2 ^ 32 + (k + 32)) 0); [lia|]. unfold malloc_sized. set (s0 := snd (liballoc_lock (heap_init m))).
  assert (Hi0 : inv s0 []).
  { destruct (heap_init_of m) as (_ & H & Hi & Hl). assert (H = []) as ->.
    { destruct H as [|b H]; [done|]. pose proof (iv_root _ _ Hi) as Hr. cbn in Hr.
      pose proof (mj_low _ _ (in_block_of _ _ b Hi ltac:(apply list_elem_of_here))). lia. }
    eapply inv_same; [exact Hi|try done..]. by left. }
  change (l_memRoot s0 =? 0) with true. cbn iota. rewrite allocate_wrap.
  assert (Hpf : pages_for (k + 32) * l_pageSize = 65536) by (unfold pages_for, l_pageSize, l_pageCount, HDR; dlia).
  destruct (allocate_new_page_spec s0 [] (k + 32) Hi0 ltac:(lia)) as
    (np & s1 & -> & _ & _ & [[-> _]|(b & -> & Hfr & Hi1 & Hps & Hal & Hpg)]); cbn [obind fst snd Z.eqb].
  { eexists _, _. split; [done|]. by left. }
  pose proof Hfr as (Hms & Hok & _). pose proof (mj_low _ _ Hok) as Hlow. destruct (Z.eqb_spec (b_at b) 0); [lia|].
  pose proof (inv_first s1 _ b Hfr Hps Hi1 Hal) as Hi2. set (s2 := set_memRoot s1 (b_at b)) in *.
  assert (Hbest : l_bestBet s2 = 0) by (destruct (iv_best _ _ Hi1) as [?|?%not_elem_of_nil]; done).
  unfold start_at. rewrite Hbest. cbn [Z.eqb negb obind]. change (l_memRoot s2) with (b_at b).
  replace (2 * loop_fuel (mm s2) + 2)%nat with (S (2 * loop_fuel (mm s2) + 1)) by lia. cbn [majors_loop].
  destruct (Z.eqb_spec (b_at b) 0); [lia|]. unfold get_maj. rewrite (view_rd _ _ _ (inv_view s2 [] b [] Hi2)).
  cbn [obind data next first_of majors fmap list_fmap]. rewrite (proj2 (block_room _ _ Hok)).
  pose proof (mj_usage _ _ Hok) as Hu. rewrite Hms in Hu. unfold used in Hu. cbn in Hu.
  rewrite Hu, Hpg, Hpf. change (0 <? 65536 - (HDR + 0)) with true. cbn iota. unfold case1.
  rewrite (uw_small 64) by hlia. destruct (Z.ltb_spec (65536 - (HDR + 0)) (2 ^ 32 + (k + 32) + HDR)); [|hlia].
  cbn [Z.eqb negb]. rewrite append_wrap.
  assert (Hi3 : inv (set_bestBet s2 (b_at b)) ([] ++ [b])).
  { eapply inv_same; [exact Hi2|try done..]. right; right. apply list_elem_of_here. }
  destruct (append_page_spec _ [] b (k + 32) Hi3 ltac:(lia)) as (np & s4 & -> & _ & _ & [[-> _]|(b0 & -> & Hms0 & _ & Hi4 & Hpg0)]);
    cbn [obind Z.eqb].
  { eexists _, _. split; [done|]. by left. }
  change ([] ++ [b] ++ [b0]) with ([b] ++ [b0]) in Hi4. pose proof (inv_block _ _ _ _ Hi4) as Hok0.
  pose proof (mj_low _ _ Hok0). destruct (Z.eqb_spec (b_at b0) 0); [lia|].
  unfold try_major, get_maj. rewrite (view_rd _ _ _ (inv_view _ _ _ _ Hi4)). cbn [obind data].
  rewrite (mj_first _ _ Hok0), Hms0. cbn [first_of Z.eqb].
  destruct (case2_unchecked s4 [b] b0 [] (2 ^ 32 + (k + 32)) req Hi4 Hms0) as (s5 & d & -> & Hv & Hd). cbn [obind].
  eexists _, _. split; [done|]. right. exists (b_at b0), d. split; [done|]. split; [by rewrite Hd, Hpg0|].
  pose proof (user_ptr_bounds (b_at b0 + HDR)). hlia.
Qed.
End truncation.

(** ** A kernel and a heap in use *)

(** A heap of one page with one allocation of 100 bytes: the block, its header
    and, put into it by CASE 2, the allocation *)
Definition demo_major : major_d := Major 1 4096 HDR 0 0.
Definition demo_block : block := Block 4096 demo_major [].
Definition demo_empty_heap (m0 : mem) : heap :=
  match wr m0 4096 (Node 0 0 demo_major) with Ret m => Heap m 0 0 4096 0 0 0 0 0 l_pageSize 0 | _ => heap_init ∅ end.
Definition demo_heap_in (m0 : mem) : heap :=
  match case2 (set_memRoot (demo_empty_heap m0) 4096) 4096 132 100 with Ret (_, s) => s | _ => heap_init ∅ end.
Definition demo_ptr : Z := user_ptr (4096 + HDR).

Lemma demo_heap_in_of m0 : cells m0 4096 4096 -> heap_of (demo_heap_in m0) [(demo_ptr, 100)].
Proof.
  intros Hc0. assert (Hwf : wf (Node 0 0 demo_major)) by (apply wf_major; hlia).
  destruct (wr_spec m0 4096 (Node 0 0 demo_major) Hwf) as (m1 & Ew & Hr & Ht).
  { eapply cells_sub; [exact Hc0|lia|cbn; lia]. }
  pose proof (touched_cells _ _ _ _ _ _ Ht Hc0) as Hc1. unfold demo_heap_in, demo_empty_heap. rewrite Ew.
  set (s1 := Heap m1 0 0 4096 0 0 0 0 0 l_pageSize 0).
  assert (Hfr : fresh_block s1 [] 132 demo_block).
  { split_and!; [done| |done|unfold view; cbn; by rewrite Hr|by intros ? ?%not_elem_of_nil].
    constructor; cbn; try done; hlia. }
  assert (Hi0 : inv (set_allocated s1 0) []).
  { constructor; cbn; try done; [|by left|by right]. split; [constructor|]. by intros ? ? ?%not_elem_of_nil. }
  pose proof (inv_first s1 132 demo_block Hfr eq_refl Hi0 eq_refl) as Hi1.
  destruct (case2_spec _ [] demo_block [] 132 100 Hi1) as (s' & E & Hi2 & Hm & _); [lia|lia|lia|done|cbn; hlia|].
  change (b_at demo_block) with 4096 in E. rewrite E. split; [done|]. eexists. split; [exact Hi2|]. cbn. reflexivity.
Qed.

Definition demo_heap : heap := demo_heap_in (write_bytes ∅ 4096 (replicate (Z.to_nat 4096) 0)).

Lemma demo_heap_of : heap_of demo_heap [(demo_ptr, 100)].
Proof. apply demo_heap_in_of, cells_zeros. lia. Qed.

(** ** Theorems *)

Section theorems.
Context {K : Kernel}.

(** C1: [malloc] of less than 2^31 - 8224 bytes ([max_request]) on a well-formed
    heap returns: the null pointer with the same
    live allocations, or a 16-byte aligned pointer to [n] mapped bytes that
    overlap no other live allocation; the contents of the others are kept, the
    lists and counters stay consistent and the mutex is free again. *)
Theorem malloc_correct s L n : heap_of s L -> 0 <= n < max_request ->
  exists p s', malloc s n = Ret (p, s') /\ same_contents L (mm s) (mm s') /\
    (p = 0 /\ heap_of s' L \/
     p <> 0 /\ p mod 16 = 0 /\ heap_of s' ((p, n) :: L) /\ cells (mm s') p n /\
     forall q k, (q, k) ∈ L -> disjoint_range p n q k).
Proof.
  intros Hh Hn. destruct (malloc_heap s L n Hh Hn) as (p & s' & Hm & Hs & [Hc|[Hp Hc]]); exists p, s'; auto.
  pose proof (heap_of_block _ _ _ _ Hc) as (? & ? & ? & ? & ? & ?). split_and!; try done. right. by split_and!.
Qed.

(** C12: [free] of a live allocation returns and removes exactly that
    allocation: the others keep their contents, the heap stays well formed and
    the mutex is free again.  When the block of the allocation has no other live
    allocation, the kernel gets all of its memory back, and the count of
    allocated bytes goes down by its size; otherwise the block stays mapped and
    the count stays. *)
Theorem free_correct s p n L : heap_of s ((p, n) :: L) ->
  exists s' b, free s p = Ret s' /\ heap_of s' L /\ same_contents L (mm s) (mm s') /\
    cells (mm s) (b_at b) (maj_size (b_maj b)) /\ inside b p /\
    ((forall q k, (q, k) ∈ L -> ~ inside b q) /\
       (forall z, inside b z -> mm s' !! z = None) /\ l_allocated s' = u64 (l_allocated s - maj_size (b_maj b)) \/
     (exists q k, (q, k) ∈ L /\ inside b q) /\ cells (mm s') (b_at b) (maj_size (b_maj b)) /\ l_allocated s' = l_allocated s).
Proof. apply free_block. Qed.

(** C36: [realloc] of a live allocation to [sz] bytes, with [0 < sz < max_request],
    keeps it in place when it does not grow; when it grows and [malloc] has
    memory, the result is a new allocation that starts with the old contents,
    the old one is released and all others are kept.  When [malloc] has none,
    the code copies to the null pointer: it faults there, and if it returns at
    all it returns null. *)
Theorem realloc_correct s p n L sz : heap_of s ((p, n) :: L) -> 0 < sz < max_request ->
  (n < sz /\ exists s0, malloc (snd (liballoc_unlock (snd (liballoc_lock s)))) sz = Ret (0, s0) /\
     (0 < n -> mm s0 !! 0 = None -> realloc s p sz = Fault) /\ (forall q s', realloc s p sz = Ret (q, s') -> q = 0)) \/
  exists q s', realloc s p sz = Ret (q, s') /\ q <> 0 /\ heap_of s' ((q, sz) :: L) /\
    same_contents L (mm s) (mm s') /\ (sz <= n -> q = p) /\
    forall i, 0 <= i < Z.min n sz -> mm s' !! (q + i) = mm s !! (p + i).
Proof.
  intros Hh Hsz. pose proof (heap_of_block _ _ _ _ Hh) as (_ & Hlow & _). destruct (Z_le_gt_dec sz n) as [Hle|Hgt].
  - right. destruct (realloc_shrink s p n L sz Hh ltac:(lia)) as (s' & Hr & Hh' & Hs). exists p, s'.
    split_and!; [done|lia|done| |done|].
    + intros q k i Hq. apply Hs, elem_of_cons. by right.
    + intros i Hi. apply (Hs p sz i); [apply list_elem_of_here|lia].
  - destruct (realloc_grow s p n L sz Hh ltac:(lia)) as [[s0 Hnull]|(q & s' & Hr & Hq & Hh' & Hs & Hcp)]; [left; split; [lia|]|right].
    + destruct (realloc_null s p n L sz s0 Hh ltac:(lia) Hnull) as [H1 H2]. exists s0. by split_and!.
    + exists q, s'. split_and!; [done|done|done|done|lia|]. intros i Hi. apply Hcp. lia.
Qed.

(** [calloc] gives an allocation of [nobj * sz] zero bytes and keeps the
    others, unless [malloc] has no memory. *)
Theorem calloc_correct s L nobj sz : heap_of s L -> 0 <= nobj * sz < max_request ->
  (exists s', malloc s (nobj * sz) = Ret (0, s')) \/
  exists p s', calloc s nobj sz = Ret (p, s') /\ p <> 0 /\ heap_of s' ((p, nobj * sz) :: L) /\
    same_contents L (mm s) (mm s') /\ forall i, 0 <= i < nobj * sz -> mm s' !! (p + i) = Some 0.
Proof. apply calloc_heap. Qed.

(** C7: from any well-formed heap on, an unused allocator among them
    ([heap_init_of]), whatever a program allocates, resizes, releases and writes
    to its own allocations, with requests below [max_request] bytes: the live
    allocations are pairwise disjoint, [malloc] returns for every further such
    request, and so does [free] of any live pointer.  (A [realloc] for which
    [malloc] has no memory is not a step: [realloc_correct] says what it does.) *)
Theorem allocator_safe s0 L0 s L : heap_of s0 L0 -> rtc step (s0, L0) (s, L) ->
  heap_of s L /\
  (forall p n q k L', L ≡ₚ (p, n) :: (q, k) :: L' -> disjoint_range p n q k) /\
  (forall n, 0 <= n < max_request -> exists r, malloc s n = Ret r) /\
  (forall p n, (p, n) ∈ L -> exists s', free s p = Ret s').
Proof.
  intros H0 Hs. pose proof (steps_heap _ _ Hs H0) as Hh. cbn [fst snd] in Hh. split_and!; [done| | |].
  - intros p n q k L' HL. rewrite HL in Hh. apply (heap_of_block _ _ _ _ Hh), list_elem_of_here.
  - intros n Hn. destruct (malloc_heap s L n Hh Hn) as (p & s' & E & _). by eexists.
  - intros p n Hp. apply elem_of_Permutation in Hp as [L' HL]. rewrite HL in Hh.
    destruct (free_heap s p n L' Hh) as (s' & E & _). by eexists.
Qed.

(** A request for 4 GiB and [k] more bytes: [allocate_new_page] sees only
    the low 32 bits, and CASE 2 does not check the new block again, so that
    the pointer returned lies in a block of 65536 bytes. *)
Theorem malloc_truncates m k : 0 <= k < 2 ^ 15 ->
  exists p s', malloc (heap_init m) (2 ^ 32 + k) = Ret (p, s') /\
    (p = 0 \/ exists a d, view (mm s') a = Some d /\ maj_size (data (d : major)) = 65536 /\ a < p < a + 65536).
Proof. apply malloc_cut_short. Qed.

(** [liballoc_lock] does not wait: while the mutex is held it reports success
    and changes nothing, because [pthread_mutex_lock] returns [EBUSY] and the
    result is dropped. *)
Theorem liballoc_lock_no_exclusion s : mutex s <> 0 -> liballoc_lock s = (0, s).
Proof.
  intros Hm. unfold liballoc_lock, pthread_mutex_lock. destruct (Z.eqb_spec (mutex s) 0); [done|]. by destruct s.
Qed.
End theorems.

(** ** Witnesses *)

Lemma malloc_witness : exists p s', malloc (K := bump_kernel) (heap_init ∅) 100 = Ret (p, s') /\
  same_contents [] (mm (heap_init ∅)) (mm s') /\
  (p = 0 /\ heap_of s' [] \/
   p <> 0 /\ p mod 16 = 0 /\ heap_of s' [(p, 100)] /\ cells (mm s') p 100 /\
   forall q k : Z, (q, k) ∈ [] -> disjoint_range p 100 q k).
Proof. apply (malloc_correct (K := bump_kernel) (heap_init ∅) [] 100 (heap_init_of ∅)). unfold max_request. lia. Defined.

Lemma free_witness : exists s' b, free (K := bump_kernel) demo_heap demo_ptr = Ret s' /\ heap_of s' [] /\ inside b demo_ptr /\
  forall z, inside b z -> mm s' !! z = None.
Proof.
  destruct (free_correct (K := bump_kernel) demo_heap demo_ptr 100 [] demo_heap_of) as (s' & b & E & Hh & _ & _ & Hb & [(_ & Hz & _)|((q & k & Hq & _) & _)]).
  - exists s', b. auto.
  - exfalso. by apply not_elem_of_nil in Hq.
Defined.

(** A second allocation, of 200 bytes, after the first one *)
Lemma demo_grows : exists q s', realloc (K := bump_kernel) demo_heap demo_ptr 200 = Ret (q, s') /\ q <> 0 /\ q <> demo_ptr.
Proof.
  assert (H : match realloc (K := bump_kernel) demo_heap demo_ptr 200 with Ret (q, _) => negb (q =? 0) && negb (q =? demo_ptr) | _ => false end = true)
    by (vm_compute; reflexivity).
  destruct (realloc (K := bump_kernel) demo_heap demo_ptr 200) as [[q s']| |]; try done. exists q, s'. split; [done|]. lia.
Qed.

Lemma realloc_witness : exists q s', realloc (K := bump_kernel) demo_heap demo_ptr 200 = Ret (q, s') /\ q <> demo_ptr /\ heap_of s' [(q, 200)] /\
  forall i, 0 <= i < 100 -> mm s' !! (q + i) = mm demo_heap !! (demo_ptr + i).
Proof.
  destruct demo_grows as (q & s' & E & Hq & Hne).
  destruct (realloc_correct (K := bump_kernel) demo_heap demo_ptr 100 [] 200 demo_heap_of ltac:(unfold max_request; lia))
    as [(_ & s0 & _ & _ & H0)|(q2 & s2 & E2 & _ & Hh & _ & _ & Hi)].
  - destruct Hq. by eapply H0.
  - rewrite E in E2. injection E2 as -> ->. exists q2, s2. auto.
Defined.

Lemma calloc_witness :
  (exists s', malloc (K := bump_kernel) (heap_init ∅) (25 * 4) = Ret (0, s')) \/
  exists p s', calloc (K := bump_kernel) (heap_init ∅) 25 4 = Ret (p, s') /\ p <> 0 /\ heap_of s' [(p, 25 * 4)] /\
    same_contents [] (mm (heap_init ∅)) (mm s') /\ forall i, 0 <= i < 25 * 4 -> mm s' !! (p + i) = Some 0.
Proof. apply (calloc_correct (K := bump_kernel) (heap_init ∅) [] 25 4 (heap_init_of ∅)). unfold max_request. lia. Defined.

(** The program resizes its allocation, which moves it, and releases it. *)
Lemma allocator_witness : exists s1 q s2, rtc (step (K := bump_kernel)) (demo_heap, [(demo_ptr, 100)]) (s1, [(q, 200)]) /\ q <> demo_ptr /\
  (exists s', free (K := bump_kernel) s1 q = Ret s') /\ rtc (step (K := bump_kernel)) (demo_heap, [(demo_ptr, 100)]) (s2, []) /\ heap_of s2 [].
Proof.
  destruct demo_grows as (q & s1 & E & Hq & Hne).
  assert (Hrun : rtc (step (K := bump_kernel)) (demo_heap, [(demo_ptr, 100)]) (s1, [(q, 200)])).
  { apply rtc_once. by apply (step_realloc demo_heap _ demo_ptr 100 [] 200 q s1); [|unfold max_request; lia| |]. }
  destruct (allocator_safe (K := bump_kernel) demo_heap [(demo_ptr, 100)] s1 [(q, 200)] demo_heap_of Hrun) as (_ & _ & _ & Hf).
  destruct (Hf q 200 (list_elem_of_here _ _)) as [s2 E2]. exists s1, q, s2. split_and!; [done|done|by exists s2| |].
  - eapply rtc_r; [exact Hrun|]. by apply (step_free s1 _ q 200 [] s2).
  - apply (allocator_safe (K := bump_kernel) demo_heap [(demo_ptr, 100)] s2 [] demo_heap_of).
    eapply rtc_r; [exact Hrun|]. by apply (step_free s1 _ q 200 [] s2).
Defined.

Lemma truncates_witness : exists p s', malloc (K := bump_kernel) (heap_init ∅) (2 ^ 32 + 0) = Ret (p, s') /\
  (p = 0 \/ exists a d, view (mm s') a = Some d /\ maj_size (data (d : major)) = 65536 /\ a < p < a + 65536).
Proof. apply (malloc_truncates (K := bump_kernel) ∅ 0). lia. Defined.
