(* ===== verification/KPhysical.v ===== *)
(** * The kernel's page frame allocator

    [src/Kernel/library/bitmap.cpp] and [src/Kernel/core/memory/pmm.cpp]: a
    bitmap in physical memory with one bit for each page frame, the memory
    counters, and the operations of [Memory::Physical] on them.

    The kernel addresses physical memory one to one, so a pointer to a frame
    is an address of the memory [kmem].  The operations run under
    [MemoryLock]; the lock is not modelled, and the atomic counters are plain
    64-bit numbers.  Logging is left out. *)

From S2P Require Import Prelude CMem CMonad CStruct.

Definition PAGE_SIZE : Z := 0x1000.
Definition TO_PAGES (d : Z) : Z := u64 (d + PAGE_SIZE - 1) / PAGE_SIZE.
Definition FROM_PAGES (d : Z) : Z := u64 (d * PAGE_SIZE).

(** ** Bitmap *)

Record Bitmap := MkBitmap { Size : Z; Buffer : Z }.

Definition bitIndexer (index : Z) : Z := Z.shiftr 128 (index mod 8).

Definition Bitmap_Get (m : mem) (b : Bitmap) (index : Z) : outcome bool :=
  if index >? u64 (Size b * 8) then Ret false
  else
    let! v := load8 m (u64 (Buffer b + index / 8)) in
    Ret (Z.land v (bitIndexer index) >? 0).

Definition Bitmap_Set (m : mem) (b : Bitmap) (index : Z) (value : bool) : outcome (bool * mem) :=
  if index >? u64 (Size b * 8) then Ret (false, m)
  else
    let a := u64 (Buffer b + index / 8) in
    let! v := load8 m a in
    let! m := store8 m a (Z.land v (Z.lnot (bitIndexer index))) in
    if value then
      let! v := load8 m a in
      let! m := store8 m a (Z.lor v (bitIndexer index)) in
      Ret (true, m)
    else Ret (true, m).

(** ** State *)

Record Physical := MkPhysical {
  TotalMemory : Z; FreeMemory : Z; ReservedMemory : Z; UsedMemory : Z;
  PageBitmapIndex : Z; PageBitmap : Bitmap }.

Record kst := KSt { kmem : mem; kphys : Physical }.

Abbreviation K := (ST kst).

Definition set_kmem (s : kst) (m : mem) : kst := KSt m (kphys s).
Definition set_kphys (f : Physical -> Physical) (s : kst) : kst := KSt (kmem s) (f (kphys s)).

Definition add_free (n : Z) (p : Physical) : Physical :=
  MkPhysical (TotalMemory p) (u64 (FreeMemory p + n)) (ReservedMemory p) (UsedMemory p) (PageBitmapIndex p) (PageBitmap p).
Definition add_reserved (n : Z) (p : Physical) : Physical :=
  MkPhysical (TotalMemory p) (FreeMemory p) (u64 (ReservedMemory p + n)) (UsedMemory p) (PageBitmapIndex p) (PageBitmap p).
Definition add_used (n : Z) (p : Physical) : Physical :=
  MkPhysical (TotalMemory p) (FreeMemory p) (ReservedMemory p) (u64 (UsedMemory p + n)) (PageBitmapIndex p) (PageBitmap p).
Definition set_index (i : Z) (p : Physical) : Physical :=
  MkPhysical (TotalMemory p) (FreeMemory p) (ReservedMemory p) (UsedMemory p) i (PageBitmap p).

Definition klook {A} (f : mem -> outcome A) : K A := fun s => let! a := f (kmem s) in Ret (Go a, s).
Definition kwrite (f : mem -> outcome mem) : K unit := fun s => let! m := f (kmem s) in Ret (Go tt, set_kmem s m).

Definition bitmap_get (index : Z) : K bool := fun s =>
  let! r := Bitmap_Get (kmem s) (PageBitmap (kphys s)) index in Ret (Go r, s).
Definition bitmap_set (index : Z) (value : bool) : K bool := fun s =>
  let! r := Bitmap_Set (kmem s) (PageBitmap (kphys s)) index value in Ret (Go (fst r), set_kmem s (snd r)).
Definition phys (f : Physical -> Physical) : K unit := puts (set_kphys f).

(** [PageBitmap.Size * 8] *)
Definition bits_of (s : kst) : Z := u64 (Size (PageBitmap (kphys s)) * 8).
Definition bits_fuel : K nat := gets (fun s => S (Z.to_nat (bits_of s))).

(** The kernel stops: it panics, kills the current process or halts the CPU. *)
Definition OUT_OF_MEMORY : Z := 1.
Definition ASSERTION : Z := 2.
Definition assert (b : bool) : K unit := if b then mret tt else exits ASSERTION.

(** ** Counters *)

Definition GetTotalMemory : K Z := gets (fun s => TotalMemory (kphys s)).
Definition GetFreeMemory : K Z := gets (fun s => FreeMemory (kphys s)).
Definition GetReservedMemory : K Z := gets (fun s => ReservedMemory (kphys s)).
Definition GetUsedMemory : K Z := gets (fun s => UsedMemory (kphys s)).

(** ** Swapping, which is not implemented in the kernel *)

Definition SwapPage (Address : Z) : K bool := mret false.
Fixpoint swap_loop (one : Z -> K bool) (n : nat) (Address i : Z) : K bool :=
  match n with
  | O => mret false
  | S n => b ← one (u64 (Address + u64 (i * PAGE_SIZE))); if negb b then mret false else swap_loop one n Address (i + 1)
  end.
Definition SwapPages (Address PageCount : Z) : K bool := swap_loop SwapPage (Z.to_nat PageCount) Address 0.
Definition UnswapPage (Address : Z) : K bool := mret false.
Definition UnswapPages (Address PageCount : Z) : K bool := swap_loop UnswapPage (Z.to_nat PageCount) Address 0.

(** ** Locking *)

Definition LockPage (Address : Z) : K unit :=
  let Index := Address / PAGE_SIZE in
  b ← bitmap_get Index;
  if b : bool then mret tt
  else
    ok ← bitmap_set Index true;
    if ok : bool then phys (add_free (- PAGE_SIZE));; phys (add_used PAGE_SIZE) else mret tt.

Definition LockPages (Address PageCount : Z) : K unit :=
  for_loop (Z.to_nat PageCount) 0 (fun i => LockPage (u64 (Address + u64 (i * PAGE_SIZE)))).

(** ** Requests *)

(** [None] when no frame from the cursor on is free. *)
Fixpoint request_page (fuel : nat) : K (option Z) :=
  match fuel with
  | O => no_fuel
  | S fuel =>
      i ← gets (fun s => PageBitmapIndex (kphys s));
      n ← gets bits_of;
      if i <? n then
        b ← bitmap_get i;
        if b : bool then phys (set_index (u64 (i + 1)));; request_page fuel
        else
          LockPage (u64 (i * PAGE_SIZE));;
          i ← gets (fun s => PageBitmapIndex (kphys s));
          mret (Some (u64 (i * PAGE_SIZE)))
      else mret None
  end.

Definition RequestPage : K Z :=
  n ← bits_fuel;
  r ← request_page n;
  match r with
  | Some a => mret a
  | None =>
      i ← gets (fun s => PageBitmapIndex (kphys s));
      b ← SwapPage (u64 (i * PAGE_SIZE));
      if b : bool then LockPage (u64 (i * PAGE_SIZE));; mret (u64 (i * PAGE_SIZE))
      else exits OUT_OF_MEMORY
  end.

(** The innermost loop: are the [n] frames from [Index + i] on free? *)
Fixpoint run_free (n : nat) (Index i : Z) : K bool :=
  match n with
  | O => mret true
  | S n => b ← bitmap_get (u64 (Index + i)); if b : bool then mret false else run_free n Index (i + 1)
  end.

(** The loop over [Index]; a run that is not free is skipped. *)
Fixpoint request_run (fuel : nat) (Index Count : Z) : K (option Z) :=
  match fuel with
  | O => no_fuel
  | S fuel =>
      n ← gets bits_of;
      if Index <? n then
        b ← bitmap_get Index;
        if b : bool then request_run fuel (u64 (Index + 1)) Count
        else
          ok ← run_free (Z.to_nat Count) Index 0;
          if ok : bool then
            LockPages (u64 (Index * PAGE_SIZE)) Count;;
            mret (Some (u64 (Index * PAGE_SIZE)))
          else request_run fuel (u64 (u64 (Index + Count) + 1)) Count
      else mret None
  end.

(** The loop over [PageBitmapIndex]. *)
Fixpoint request_pages (fuel : nat) (Count : Z) : K (option Z) :=
  match fuel with
  | O => no_fuel
  | S fuel =>
      i ← gets (fun s => PageBitmapIndex (kphys s));
      n ← gets bits_of;
      if i <? n then
        b ← bitmap_get i;
        if b : bool then phys (set_index (u64 (i + 1)));; request_pages fuel Count
        else
          k ← bits_fuel;
          r ← request_run k i Count;
          match r with
          | Some a => mret (Some a)
          | None => phys (set_index (u64 (i + 1)));; request_pages fuel Count
          end
      else mret None
  end.

Definition RequestPages (Count : Z) : K Z :=
  n ← bits_fuel;
  r ← request_pages n Count;
  match r with
  | Some a => mret a
  | None =>
      i ← gets (fun s => PageBitmapIndex (kphys s));
      b ← SwapPages (u64 (i * PAGE_SIZE)) Count;
      if b : bool then LockPages (u64 (i * PAGE_SIZE)) Count;; mret (u64 (i * PAGE_SIZE))
      else exits OUT_OF_MEMORY
  end.

(** ** Releases *)

(** [if (PageBitmapIndex > Index) PageBitmapIndex = Index;] *)
Definition lower_index (Index : Z) : K unit :=
  i ← gets (fun s => PageBitmapIndex (kphys s));
  if i >? Index then phys (set_index Index) else mret tt.

Definition FreePage (Address : Z) : K unit :=
  if Address =? 0 then mret tt
  else
    let Index := Address / PAGE_SIZE in
    b ← bitmap_get Index;
    if negb b then mret tt
    else
      ok ← bitmap_set Index false;
      if ok : bool then
        phys (add_free PAGE_SIZE);; phys (add_used (- PAGE_SIZE));; lower_index Index
      else mret tt.

Definition FreePages (Address Count : Z) : K unit :=
  if (Address =? 0) || (Count =? 0) then mret tt
  else for_loop (Z.to_nat Count) 0 (fun t => FreePage (u64 (Address + u64 (t * PAGE_SIZE)))).

(** ** Reservations *)

Definition reserve_index (Index : Z) : K unit :=
  b ← bitmap_get Index;
  if b : bool then mret tt
  else
    ok ← bitmap_set Index true;
    if ok : bool then phys (add_free (- PAGE_SIZE));; phys (add_reserved PAGE_SIZE) else mret tt.

Definition ReservePage (Address : Z) : K unit := reserve_index (if Address =? 0 then 0 else Address / PAGE_SIZE).

Definition ReservePages (Address PageCount : Z) : K unit :=
  for_loop (Z.to_nat PageCount) 0 (fun t => reserve_index (u64 (Address + u64 (t * PAGE_SIZE)) / PAGE_SIZE)).

(** [false] when the frame was not reserved. *)
Definition unreserve_index (Index : Z) : K bool :=
  b ← bitmap_get Index;
  if negb b then mret false
  else
    ok ← bitmap_set Index false;
    (if ok : bool then phys (add_free PAGE_SIZE);; phys (add_reserved (- PAGE_SIZE));; lower_index Index else mret tt);;
    mret true.

Definition UnreservePage (Address : Z) : K unit :=
  unreserve_index (if Address =? 0 then 0 else Address / PAGE_SIZE);; mret tt.

(** The loop returns at the first frame that is not reserved. *)
Fixpoint unreserve_loop (n : nat) (Address t : Z) : K unit :=
  match n with
  | O => mret tt
  | S n =>
      ok ← unreserve_index (u64 (Address + u64 (t * PAGE_SIZE)) / PAGE_SIZE);
      if ok : bool then unreserve_loop n Address (t + 1) else mret tt
  end.

Definition UnreservePages (Address PageCount : Z) : K unit := unreserve_loop (Z.to_nat PageCount) Address 0.
