(* ===== verification/KPmm.v ===== *)
(** * The page frame allocator: laws and theorems

    Who owns the frames of [KPhysical]: [holds s U R] ties the bitmap and the
    counters to the frames in use [U] and the reserved frames [R].  Each
    operation moves frames between the two sets and the free ones and changes
    no memory but the bitmap; the theorems give the requests on every branch
    and the accounting over whole runs of the kernel. *)

From S2P Require Import Prelude CMem CMonad CStruct KPhysical.

(** ** One bit of the bitmap *)

Definition bit (m : mem) (b : Bitmap) (i : Z) : bool :=
  match m !! (Buffer b + i / 8) with Some v => Z.testbit v (7 - i mod 8) | None => false end.

(** The bitmap is in memory, and its frames have 52-bit addresses. *)
Record bitmap_ok (m : mem) (b : Bitmap) : Prop := {
  bo_size : 0 <= Size b <= 2 ^ 37;
  bo_buffer : 0 <= Buffer b /\ Buffer b + Size b < 2 ^ 64;
  bo_cells : cells m (Buffer b) (Size b)
}.

Lemma bitIndexer_pow index : bitIndexer index = 2 ^ (7 - index mod 8).
Proof.
  unfold bitIndexer. pose proof (Z.mod_pos_bound index 8 ltac:(lia)).
  rewrite Z.shiftr_div_pow2 by lia. change 128 with (2 ^ 7). by rewrite <- Z.pow_sub_r by lia.
Qed.

Lemma land_pow2 v k : 0 <= k -> Z.land v (2 ^ k) = if Z.testbit v k then 2 ^ k else 0.
Proof.
  intros Hk. apply Z.bits_inj'. intros i Hi. rewrite Z.land_spec, Z.pow2_bits_eqb by done.
  destruct (Z.eqb_spec k i) as [->|Hne].
  - rewrite andb_true_r. destruct (Z.testbit v i) eqn:E; [|by rewrite Z.bits_0]. by rewrite Z.pow2_bits_true.
  - rewrite andb_false_r. destruct (Z.testbit v k); [|by rewrite Z.bits_0]. rewrite Z.pow2_bits_false; [done|lia].
Qed.

Section bits.
Context (m : mem) (b : Bitmap) (Hb : bitmap_ok m b).

Lemma bits_small : u64 (Size b * 8) = Size b * 8.
Proof using Hb. destruct Hb as [Hs _ _]. apply uw_small. lia. Qed.

Lemma bit_byte i : 0 <= i < Size b * 8 ->
  exists v, m !! (Buffer b + i / 8) = Some v /\ byte v /\ u64 (Buffer b + i / 8) = Buffer b + i / 8.
Proof using Hb.
  intros Hi. destruct Hb as [Hs Hf Hc]. assert (0 <= i / 8 < Size b) by dlia.
  destruct (Hc (Buffer b + i / 8)) as (v & Hv & Hvb); [lia|]. exists v. split_and!; [done|done|]. apply uw_small. lia.
Qed.

Lemma Get_spec i : 0 <= i < Size b * 8 -> Bitmap_Get m b i = Ret (bit m b i).
Proof using Hb.
  intros Hi. destruct (bit_byte i Hi) as (v & Hv & Hvb & Ha). unfold Bitmap_Get, bit.
  rewrite bits_small, Ha, Hv. unfold load8. rewrite Hv. destruct (Z.gtb_spec i (Size b * 8)); [lia|].
  cbn [obind]. pose proof (Z.mod_pos_bound i 8 ltac:(lia)).
  rewrite bitIndexer_pow, land_pow2 by lia. destruct (Z.testbit v _); [|done].
  f_equal. apply Z.gtb_lt. apply Z.pow_pos_nonneg; lia.
Qed.

(** Setting a bit changes one byte of the bitmap, and no other bit. *)
Lemma Set_spec i (value : bool) : 0 <= i < Size b * 8 ->
  exists m', Bitmap_Set m b i value = Ret (true, m') /\ touched (Buffer b + i / 8) 1 m m' /\
    (forall x, m' !! x = None <-> m !! x = None) /\
    forall j, 0 <= j -> bit m' b j = if decide (j = i) then value else bit m b j.
Proof using Hb.
  intros Hi. destruct (bit_byte i Hi) as (v & Hv & Hvb & Ha). unfold Bitmap_Set.
  rewrite bits_small, Ha. destruct (Z.gtb_spec i (Size b * 8)); [lia|]. unfold load8, store8. rewrite Hv. cbn [obind].
  rewrite lookup_insert_eq. pose proof (Z.mod_pos_bound i 8 ltac:(lia)).
  set (w := if value then Z.lor (u8 (Z.land v (Z.lnot (bitIndexer i)))) (bitIndexer i) else Z.land v (Z.lnot (bitIndexer i))).
  set (a := Buffer b + i / 8) in *.
  assert (Hw : forall k, 0 <= k < 8 -> Z.testbit (u8 w) k = if decide (k = 7 - i mod 8) then value else Z.testbit v k).
  { intros k Hk. unfold w. rewrite bitIndexer_pow, testbit_uw by lia. destruct (Z.ltb_spec k 8) as [_|]; [|lia].
    destruct value; rewrite ?Z.lor_spec, ?testbit_uw, Z.land_spec, Z.lnot_spec, Z.pow2_bits_eqb by lia;
      destruct (Z.eqb_spec (7 - i mod 8) k), (Z.ltb_spec k 8); repeat case_decide; try lia; btauto. }
  exists (<[a := u8 w]> m). split_and!.
  - unfold w. destruct value; [|done]. cbn [obind]. by rewrite insert_insert_eq.
  - split.
    + intros x Hx. apply lookup_insert_ne. lia.
    + intros x c Hx Hc. destruct (decide (x = a)) as [->|Hne]; [exists (u8 w); split; [apply lookup_insert_eq|apply uw_range; lia]|].
      exists c. by rewrite lookup_insert_ne.
  - intros x. destruct (decide (x = a)) as [->|Hne]; [by rewrite lookup_insert_eq, Hv|by rewrite lookup_insert_ne].
  - intros j Hj. pose proof (Z.mod_pos_bound j 8 ltac:(lia)). unfold bit at 1.
    destruct (decide (j / 8 = i / 8)) as [Hji|Hji].
    + rewrite Hji. fold a. rewrite lookup_insert_eq, Hw by lia. unfold bit. rewrite Hji. fold a. rewrite Hv.
      repeat case_decide; try done; exfalso; dlia.
    + rewrite lookup_insert_ne by (unfold a; lia). rewrite decide_False by congruence. done.
Qed.
End bits.
(** ** Ownership of the frames

    [U] are the frames in use, [R] the reserved ones; the bitmap marks both,
    and the counters are their sizes. *)

Abbreviation bm s := (PageBitmap (kphys s)).
Definition frames (s : kst) : Z := Size (bm s) * 8.

Record holds (s : kst) (U R : gset Z) : Prop := {
  ho_bitmap : bitmap_ok (kmem s) (bm s);
  ho_apart : U ## R;
  ho_range i : i ∈ U ∪ R -> 0 <= i < frames s;
  ho_bits i : 0 <= i < frames s -> bit (kmem s) (bm s) i = bool_decide (i ∈ U ∪ R);
  ho_index : in_u 64 (PageBitmapIndex (kphys s));
  ho_free : FreeMemory (kphys s) = u64 (TotalMemory (kphys s) - 4096 * (Z.of_nat (size U) + Z.of_nat (size R)));
  ho_used : UsedMemory (kphys s) = 4096 * Z.of_nat (size U);
  ho_reserved : ReservedMemory (kphys s) = 4096 * Z.of_nat (size R)
}.

(** What the allocator leaves alone: all memory but the bitmap. *)
Record outside (s s' : kst) : Prop := {
  ou_bitmap : bm s' = bm s;
  ou_mem x : x < Buffer (bm s) \/ Buffer (bm s) + Size (bm s) <= x -> kmem s' !! x = kmem s !! x;
  ou_none x : kmem s' !! x = None <-> kmem s !! x = None;
  ou_byte x b : kmem s !! x = Some b -> byte b -> exists b', kmem s' !! x = Some b' /\ byte b'
}.

#[export] Instance outside_preorder : PreOrder outside.
Proof.
  split.
  - intros s. split; try done. intros x b Hx Hb. by exists b.
  - intros s1 s2 s3 H12 H23. destruct H12 as [B1 M1 N1 Y1], H23 as [B2 M2 N2 Y2]. split.
    + by rewrite B2.
    + intros x Hx. rewrite M2, M1; [done|done|by rewrite B1].
    + intros x. by rewrite N2.
    + intros x b Hx Hb. destruct (Y1 x b Hx Hb) as (b' & Hx' & Hb'). by apply (Y2 x b').
Qed.

Lemma outside_phys s f : PageBitmap (f (kphys s)) = bm s -> outside s (set_kphys f s).
Proof. intros Hf. split; try done. intros x b Hx Hb. by exists b. Qed.

Lemma outside_cells s s' a n : outside s s' -> cells (kmem s) a n -> cells (kmem s') a n.
Proof. intros H Hc x Hx. destruct (Hc x Hx) as (b & Hb & Hbb). by apply (ou_byte _ _ H x b). Qed.

Lemma outside_frames s s' : outside s s' -> frames s' = frames s.
Proof. intros H. unfold frames. by rewrite (ou_bitmap _ _ H). Qed.

Section holding.
Context (s : kst) (U R : gset Z) (H : holds s U R).

Lemma holds_frames : frames s <= 2 ^ 40 /\ 0 <= frames s.
Proof using H. destruct H as [[Hs _ _] _ _ _ _ _ _ _]. unfold frames. lia. Qed.

Lemma holds_bits_of : bits_of s = frames s.
Proof using H. destruct H as [Hb _ _ _ _ _ _ _]. exact (bits_small _ _ Hb). Qed.

Lemma get_go i : 0 <= i < frames s -> bitmap_get i s = Ret (Go (bool_decide (i ∈ U ∪ R)), s).
Proof using H.
  intros Hi. unfold bitmap_get. rewrite (Get_spec _ _ (ho_bitmap _ _ _ H) i Hi). cbn [obind].
  by rewrite (ho_bits _ _ _ H i Hi).
Qed.

Lemma size_bound : Z.of_nat (size U) + Z.of_nat (size R) <= frames s.
Proof using H.
  destruct H as [_ Hd Hr _ _ _ _ _]. pose proof (size_union _ _ Hd) as E.
  assert (Hs : U ∪ R ⊆ list_to_set (C := gset Z) (seqZ 0 (frames s))).
  { intros i Hi. apply elem_of_list_to_set, elem_of_seqZ. specialize (Hr i Hi). lia. }
  apply subseteq_size in Hs. rewrite size_list_to_set in Hs by apply NoDup_seqZ. rewrite length_seqZ in Hs.
  pose proof holds_frames. lia.
Qed.

(** Marking a frame. *)
Lemma set_go i (v : bool) : 0 <= i < frames s ->
  exists m', bitmap_set i v s = Ret (Go true, set_kmem s m') /\ outside s (set_kmem s m') /\
    bitmap_ok m' (bm s) /\ forall j, 0 <= j < frames s ->
      bit m' (bm s) j = if decide (j = i) then v else bool_decide (j ∈ U ∪ R).
Proof using H.
  intros Hi. destruct (Set_spec _ _ (ho_bitmap _ _ _ H) i v Hi) as (m' & Hm & [Ht1 Ht2] & Hn & Hbit).
  pose proof (ho_bitmap _ _ _ H) as [Hs Hf Hc]. unfold frames in Hi. exists m'. split_and!.
  - unfold bitmap_set. by rewrite Hm.
  - split; try done. intros x Hx. apply Ht1. assert (0 <= i / 8 < Size (bm s)) by dlia. lia.
  - split; [done|done|]. intros x Hx. destruct (Hc x Hx) as (b & Hb & Hbb). by apply (Ht2 x b).
  - intros j Hj. rewrite Hbit by lia. case_decide; [done|]. by apply (ho_bits _ _ _ H).
Qed.
End holding.

(** ** The frame steps

    A frame moves between free, in use and reserved. *)

Lemma holds_move s U R U' R' i v m' p : holds s U R -> 0 <= i < frames s -> bitmap_ok m' (bm s) ->
  (forall j, 0 <= j < frames s -> bit m' (bm s) j = if decide (j = i) then v else bool_decide (j ∈ U ∪ R)) ->
  (forall j, j ∈ U' ∪ R' <-> if decide (j = i) then v = true else j ∈ U ∪ R) -> U' ## R' ->
  PageBitmap p = bm s -> in_u 64 (PageBitmapIndex p) ->
  FreeMemory p = u64 (TotalMemory p - 4096 * (Z.of_nat (size U') + Z.of_nat (size R'))) ->
  UsedMemory p = 4096 * Z.of_nat (size U') -> ReservedMemory p = 4096 * Z.of_nat (size R') ->
  holds (KSt m' p) U' R'.
Proof.
  intros H Hi Hbm Hbit Hin Hd Hp Hix Hf Hu Hr. split; cbn [kmem kphys]; rewrite ?Hp; try done.
  - intros j Hj. unfold frames. cbn. rewrite Hp. change (0 <= j < frames s). apply Hin in Hj.
    case_decide; [congruence|]. by apply (ho_range _ _ _ H).
  - intros j. unfold frames at 1. cbn. rewrite Hp. intros Hj. rewrite Hbit by done. specialize (Hin j). case_decide.
    + destruct v; symmetry; [by apply bool_decide_eq_true, Hin|]. apply bool_decide_eq_false. intros Hj'. by apply Hin in Hj'.
    + apply bool_decide_ext. tauto.
Qed.

(** The counters after a frame has moved. *)
Ltac counters H :=
  pose proof (size_bound _ _ _ H); pose proof (holds_frames _ _ _ H);
  destruct H as [_ _ _ _ _ Fr Us Rs]; cbn [FreeMemory UsedMemory ReservedMemory TotalMemory add_free add_used add_reserved set_index set_kphys set_kmem kphys];
  rewrite ?Fr, ?Us, ?Rs; unfold uw, PAGE_SIZE; rewrite ?Zplus_mod_idemp_l;
  first [ lia | rewrite Z.mod_small by lia; lia | f_equal; lia ].

Lemma size_add (X : gset Z) i : i ∉ X -> size ({[i]} ∪ X) = S (size X).
Proof. intros Hi. rewrite size_union by set_solver. by rewrite size_singleton. Qed.

Lemma size_remove (X : gset Z) i : i ∈ X -> size X = S (size (X ∖ {[i]})).
Proof.
  intros Hi. rewrite <- (size_add (X ∖ {[i]}) i) by set_solver. f_equal.
  apply leibniz_equiv. intros j. rewrite elem_of_union, elem_of_difference, elem_of_singleton.
  destruct (decide (j = i)) as [->|]; naive_solver.
Qed.

Lemma outside_move s m' p : outside s (set_kmem s m') -> PageBitmap p = bm s -> outside s (KSt m' p).
Proof. intros [B M N Y] Hp. by split. Qed.

Lemma page_index i : 4096 * i / PAGE_SIZE = i.
Proof. unfold PAGE_SIZE. dlia. Qed.

Lemma lock_free s U R i : holds s U R -> 0 <= i < frames s -> i ∉ U ∪ R ->
  exists s', LockPage (4096 * i) s = Ret (Go tt, s') /\ holds s' ({[i]} ∪ U) R /\ outside s s' /\
    PageBitmapIndex (kphys s') = PageBitmapIndex (kphys s).
Proof.
  intros H Hi Hf. destruct (set_go s U R H i true Hi) as (m' & Hset & Hout & Hbm & Hbit).
  pose proof (size_add U i ltac:(set_solver)) as Hs. unfold LockPage. rewrite page_index.
  erewrite bind_go by (by eapply get_go). rewrite bool_decide_eq_false_2 by done. cbv beta.
  erewrite bind_go by exact Hset. cbv beta iota. eexists. split; [reflexivity|].
  split_and!; [|by apply outside_move|done]. pose proof (ho_apart _ _ _ H).
  eapply holds_move; try done; [|set_solver|apply H|counters H..]. intros j. case_decide; set_solver.
Qed.

Lemma lock_taken s U R i : holds s U R -> 0 <= i < frames s -> i ∈ U ∪ R -> LockPage (4096 * i) s = Ret (Go tt, s).
Proof.
  intros H Hi Hf. unfold LockPage. rewrite page_index. erewrite bind_go by (by eapply get_go).
  by rewrite bool_decide_eq_true_2.
Qed.

Lemma reserve_go s U R i : holds s U R -> 0 <= i < frames s ->
  exists s', reserve_index i s = Ret (Go tt, s') /\ holds s' U (if decide (i ∈ U ∪ R) then R else {[i]} ∪ R) /\ outside s s' /\
    PageBitmapIndex (kphys s') = PageBitmapIndex (kphys s).
Proof.
  intros H Hi. unfold reserve_index. erewrite bind_go by (by eapply get_go). case_decide as Hf.
  { rewrite bool_decide_eq_true_2 by done. exists s. by split_and!. }
  destruct (set_go s U R H i true Hi) as (m' & Hset & Hout & Hbm & Hbit).
  pose proof (size_add R i ltac:(set_solver)) as Hs. rewrite bool_decide_eq_false_2 by done. cbv beta.
  erewrite bind_go by exact Hset. cbv beta iota. eexists. split; [reflexivity|].
  split_and!; [|by apply outside_move|done]. pose proof (ho_apart _ _ _ H).
  eapply holds_move; try done; [|set_solver|apply H|counters H..]. intros j. case_decide; set_solver.
Qed.

(** Clearing the bit of a frame lowers the cursor to it. *)
Lemma lower_go s i : lower_index i s = Ret (Go tt, set_kphys (set_index (Z.min (PageBitmapIndex (kphys s)) i)) s).
Proof.
  unfold lower_index, gets. erewrite bind_go by reflexivity. cbv beta.
  destruct (Z.gtb_spec (PageBitmapIndex (kphys s)) i).
  - rewrite Z.min_r by lia. done.
  - rewrite Z.min_l by lia. by destruct s as [m []].
Qed.

Lemma free_go s U R i : holds s U R -> i ∈ U -> i <> 0 ->
  exists s', FreePage (4096 * i) s = Ret (Go tt, s') /\ holds s' (U ∖ {[i]}) R /\ outside s s' /\
    PageBitmapIndex (kphys s') = Z.min (PageBitmapIndex (kphys s)) i.
Proof.
  intros H Hu H0. pose proof (ho_range _ _ _ H i ltac:(set_solver)) as Hi.
  destruct (set_go s U R H i false Hi) as (m' & Hset & Hout & Hbm & Hbit).
  pose proof (size_remove U i Hu) as Hs. unfold FreePage. rewrite page_index.
  destruct (Z.eqb_spec (4096 * i) 0); [lia|].
  erewrite bind_go by (by eapply get_go). rewrite bool_decide_eq_true_2 by set_solver. cbn [negb].
  erewrite bind_go by exact Hset. cbv beta iota. erewrite bind_go by reflexivity. erewrite bind_go by reflexivity.
  rewrite lower_go. eexists. split; [reflexivity|].
  split_and!; [|by apply outside_move|done]. pose proof (ho_apart _ _ _ H). pose proof (ho_index _ _ _ H) as Hix.
  pose proof (holds_frames _ _ _ H). unfold in_u in Hix.
  eapply holds_move; try done; [|set_solver|unfold in_u; cbn; lia|counters H..]. intros j. case_decide; set_solver.
Qed.

Lemma unreserve_go s U R i : holds s U R -> i ∈ R ->
  exists s', unreserve_index i s = Ret (Go true, s') /\ holds s' U (R ∖ {[i]}) /\ outside s s' /\
    PageBitmapIndex (kphys s') = Z.min (PageBitmapIndex (kphys s)) i.
Proof.
  intros H Hu. pose proof (ho_range _ _ _ H i ltac:(set_solver)) as Hi.
  destruct (set_go s U R H i false Hi) as (m' & Hset & Hout & Hbm & Hbit).
  pose proof (size_remove R i Hu) as Hs. unfold unreserve_index.
  erewrite bind_go by (by eapply get_go). rewrite bool_decide_eq_true_2 by set_solver. cbn [negb].
  erewrite bind_go by exact Hset. cbv beta iota. erewrite bind_go by (erewrite bind_go by reflexivity;
    erewrite bind_go by reflexivity; apply lower_go). eexists. split; [reflexivity|].
  split_and!; [|by apply outside_move|done]. pose proof (ho_apart _ _ _ H). pose proof (ho_index _ _ _ H) as Hix.
  pose proof (holds_frames _ _ _ H). unfold in_u in Hix.
  eapply holds_move; try done; [|set_solver|unfold in_u; cbn; lia|counters H..]. intros j. case_decide; set_solver.
Qed.
(** ** Requests *)

Lemma holds_index s U R k : holds s U R -> in_u 64 k -> holds (set_kphys (set_index k) s) U R.
Proof. intros [] Hk. by split. Qed.

Lemma outside_index s k : outside s (set_kphys (set_index k) s).
Proof. by apply outside_phys. Qed.

Abbreviation cursor s := (PageBitmapIndex (kphys s)).

Lemma page_address i : 0 <= i < 2 ^ 52 -> u64 (i * PAGE_SIZE) = 4096 * i.
Proof. intros Hi. unfold PAGE_SIZE. rewrite uw_small; lia. Qed.

Lemma next_index s U R i : holds s U R -> 0 <= i < frames s -> u64 (i + 1) = i + 1.
Proof. intros H Hi. pose proof (holds_frames _ _ _ H). apply uw_small. lia. Qed.

Lemma page_search_spec s U R fuel : holds s U R -> (Z.to_nat (frames s - cursor s) < fuel)%nat ->
  (exists i s', request_page fuel s = Ret (Go (Some (4096 * i)), s') /\ cursor s <= i < frames s /\ i ∉ U ∪ R /\
     (forall j, cursor s <= j < i -> j ∈ U ∪ R) /\ holds s' ({[i]} ∪ U) R /\ outside s s' /\ cursor s' = i) \/
  (exists s', request_page fuel s = Ret (Go None, s') /\ (forall j, cursor s <= j < frames s -> j ∈ U ∪ R) /\
     holds s' U R /\ outside s s' /\ kmem s' = kmem s).
Proof.
  revert s. induction fuel as [|fuel IH]; intros s H Hf; [lia|]. cbn [request_page].
  pose proof (holds_frames _ _ _ H) as Hfr. pose proof (ho_index _ _ _ H) as Hix. unfold in_u in Hix.
  erewrite bind_go by reflexivity. cbv beta. erewrite bind_go by reflexivity. cbv beta.
  rewrite (holds_bits_of _ _ _ H). destruct (Z.ltb_spec (cursor s) (frames s)) as [Hlt|Hge].
  2:{ right. exists s. split_and!; [done|intros; lia|done|done|done]. }
  erewrite bind_go by (eapply get_go; [done|lia]). cbv beta. case_bool_decide as Ht.
  - erewrite bind_go by reflexivity. cbv beta. rewrite (next_index _ _ _ _ H) by lia.
    set (s1 := set_kphys (set_index (cursor s + 1)) s).
    assert (H1 : holds s1 U R) by (apply holds_index; [done|unfold in_u; lia]).
    pose proof (outside_index s (cursor s + 1)) as Ho. fold s1 in Ho. change (frames s) with (frames s1) in *.
    change (cursor s1) with (cursor s + 1) in IH.
    destruct (IH s1 H1) as [(i & s' & E & Hi & Hn & Hj & Hh & Ho' & Hc)|(s' & E & Hj & Hh & Ho' & Hm)]; [cbn; lia| |].
    + left. exists i, s'. cbn in Hi, Hj. split_and!; try done; try lia; [|by etrans].
      intros j Hj'. destruct (decide (j = cursor s)) as [->|]; [done|]. apply Hj. lia.
    + right. exists s'. cbn in Hj. split_and!; try done; [|by etrans].
      intros j Hj'. destruct (decide (j = cursor s)) as [->|]; [done|]. apply Hj. lia.
  - left. rewrite page_address by lia. destruct (lock_free s U R (cursor s) H ltac:(lia) Ht) as (s' & E & Hh & Ho & Hc).
    exists (cursor s), s'. erewrite bind_go by exact E. cbv beta. erewrite bind_go by reflexivity. cbv beta.
    rewrite Hc, page_address by lia. split_and!; try done; lia.
Qed.

(** ** Runs of frames *)

Definition run (i n : Z) : gset Z := list_to_set (seqZ i n).

Lemma elem_of_run i n j : j ∈ run i n <-> i <= j < i + n.
Proof. unfold run. rewrite elem_of_list_to_set, elem_of_seqZ. lia. Qed.

Lemma run_S i n : 0 <= n -> run i (n + 1) = {[i + n]} ∪ run i n.
Proof.
  intros Hn. apply leibniz_equiv. intros j. rewrite elem_of_union, elem_of_singleton, !elem_of_run. lia.
Qed.

Lemma run_0 i : run i 0 = ∅.
Proof. done. Qed.

Lemma lock_run s U R i n : holds s U R -> 0 <= i -> 0 <= n -> i + n <= frames s ->
  (forall j, i <= j < i + n -> j ∉ U ∪ R) ->
  exists s', LockPages (4096 * i) n s = Ret (Go tt, s') /\ holds s' (run i n ∪ U) R /\ outside s s' /\ cursor s' = cursor s.
Proof.
  intros H Hi Hn Hr Hf. pose proof (holds_frames _ _ _ H). unfold LockPages.
  destruct (for_loop_inv (fun k s' => holds s' (run i k ∪ U) R /\ outside s s' /\ cursor s' = cursor s)
    (Z.to_nat n) 0 (fun k => LockPage (u64 (4096 * i + u64 (k * PAGE_SIZE)))) s) as (s' & E & HP).
  - rewrite run_0, (left_id_L ∅ (∪)). by split_and!.
  - intros k s1 Hk (H1 & Ho & Hc). rewrite page_address by lia.
    replace (u64 (4096 * i + 4096 * k)) with (4096 * (i + k)) by (symmetry; rewrite uw_small; lia).
    pose proof (outside_frames _ _ Ho) as Efr.
    assert (Hnf : i + k ∉ (run i k ∪ U) ∪ R).
    { intros Hin. apply (Hf (i + k)); [lia|]. rewrite !elem_of_union, elem_of_run in Hin. rewrite elem_of_union.
      destruct Hin as [[?|?]|?]; [lia|by left|by right]. }
    destruct (lock_free s1 _ R (i + k) H1 ltac:(lia) Hnf) as (s2 & E2 & H2 & Ho2 & Hc2). exists s2. split; [done|].
    rewrite run_S, <- (assoc_L (∪)) by lia. split_and!; [done|by etrans|congruence].
  - exists s'. rewrite Z2Nat.id, Z.add_0_l in HP by lia. done.
Qed.
(** ** Requests for runs

    Past the end of the bitmap a frame reads as free, so the search can find
    a run that reaches past the end; then [LockPages] touches the byte behind
    the bitmap. *)

(** What a step that only locks frames keeps in any case. *)
Definition same_shape (s s' : kst) : Prop := bm s' = bm s /\ forall x, kmem s' !! x = None <-> kmem s !! x = None.

Lemma LockPage_shape s a : LockPage a s = Fault \/ exists s', LockPage a s = Ret (Go tt, s') /\ same_shape s s'.
Proof.
  unfold LockPage, bitmap_get, mbind, ST_bind. destruct (Bitmap_Get _ _ _) as [[]| |] eqn:E; cbn [obind].
  - right. by exists s.
  - unfold bitmap_set, Bitmap_Set. destruct (a / PAGE_SIZE >? _); cbn [obind fst snd]; [right; exists s; by destruct s|].
    set (p := u64 (Buffer (bm s) + a / PAGE_SIZE / 8)). unfold load8, store8.
    destruct (kmem s !! p) as [v|] eqn:Ev; cbn [obind]; [|by left]. rewrite lookup_insert_eq. cbn [obind fst snd].
    right. eexists. split; [reflexivity|]. split; [done|]. intros x. cbn. rewrite insert_insert_eq.
    destruct (decide (x = p)) as [->|]; [by rewrite lookup_insert_eq, Ev|by rewrite lookup_insert_ne].
  - by left.
  - exfalso. unfold Bitmap_Get in E. destruct (_ >? _); [done|]. unfold load8 in E. by destruct (_ !! _).
Qed.

Lemma LockPages_shape s a n : LockPages a n s = Fault \/ exists s', LockPages a n s = Ret (Go tt, s') /\ same_shape s s'.
Proof.
  unfold LockPages. generalize 0 as i. generalize (Z.to_nat n) as k. intros k. revert s.
  induction k as [|k IH]; intros s i; cbn [for_loop]; [right; by exists s|].
  destruct (LockPage_shape s (u64 (a + u64 (i * PAGE_SIZE)))) as [E|(s1 & E & B1 & N1)]; [left; by apply bind_fault|].
  erewrite bind_go by exact E. destruct (IH s1 (i + 1)) as [?|(s' & E' & B2 & N2)]; [by left|]. right. exists s'.
  split; [done|]. split; [congruence|]. intros x. by rewrite N2.
Qed.

Lemma bitmap_get_total i s : bitmap_get i s = Fault \/ exists b, bitmap_get i s = Ret (Go b, s).
Proof.
  unfold bitmap_get, Bitmap_Get. destruct (_ >? _); [right; by eexists|]. unfold load8.
  destruct (_ !! _); [right; by eexists|by left].
Qed.

Lemma run_free_total n Index i s : run_free n Index i s = Fault \/ exists b, run_free n Index i s = Ret (Go b, s).
Proof.
  revert i. induction n as [|n IH]; intros i; cbn [run_free]; [right; by exists true|].
  destruct (bitmap_get_total (u64 (Index + i)) s) as [E|[[] E]]; [left; by apply bind_fault|..];
    erewrite bind_go by exact E; [right; by exists false|apply IH].
Qed.

Section search.
Context (s : kst) (U R : gset Z) (Count : Z).
Context (H : holds s U R) (HCount : 0 < Count < 2 ^ 50).

Definition fits (i : Z) : Prop := forall j, i <= j < i + Count -> j ∉ U ∪ R.

(** A frame is looked at: one of the bitmap, or one past its end. *)
Lemma run_free_spec n Index i : 0 <= Index -> 0 <= i -> Index + i + Z.of_nat n < 2 ^ 64 ->
  (exists j, i <= j < i + Z.of_nat n /\ Index + j ∈ U ∪ R) /\ run_free n Index i s = Ret (Go false, s) \/
  (forall j, i <= j < i + Z.of_nat n -> Index + j ∉ U ∪ R) /\ run_free n Index i s = Ret (Go true, s) \/
  frames s < Index + i + Z.of_nat n /\ (forall j, i <= j -> Index + j < frames s -> Index + j ∉ U ∪ R) /\
    (run_free n Index i s = Fault \/ exists b, run_free n Index i s = Ret (Go b, s)).
Proof using H.
  revert i. induction n as [|n IH]; intros i HI Hi Hb.
  { right. left. split; [intros j Hj; lia|done]. }
  destruct (Z_lt_le_dec (Index + i) (frames s)) as [Hlt|Hge].
  - cbn [run_free]. rewrite uw_small by lia. erewrite bind_go by (eapply get_go; [done|lia]). cbv beta. case_bool_decide as Ht.
    { left. split; [|done]. exists i. split; [lia|done]. }
    destruct (IH (i + 1)) as [[(j & Hj & Hin) E]|[[Hall E]|(Hlt' & Hall & E)]]; [lia|lia|lia|..].
    + left. split; [|done]. exists j. split; [lia|done].
    + right. left. split; [|done]. intros j Hj. destruct (decide (j = i)) as [->|]; [done|]. apply Hall. lia.
    + right. right. split_and!; [lia| |done]. intros j Hj Hj'. destruct (decide (j = i)) as [->|]; [done|].
      apply Hall; lia.
  - right. right. split_and!; [lia|intros j Hj Hj'; lia|].
    apply run_free_total.
Qed.

(** A frame past the end is not taken. *)
Lemma fits_tail i : (forall j, i <= j < frames s -> j ∉ U ∪ R) -> fits i.
Proof using H.
  intros Hj j Hb Hin. pose proof (ho_range _ _ _ H j Hin). apply (Hj j); [lia|done].
Qed.

(** The three ways in which the search from [from] on ends: at a run of free
    frames, with nothing, or past the end of the bitmap. *)
Definition found (from i : Z) (r : outcome (control (option Z) * kst)) : Prop :=
  from <= i /\ i + Count <= frames s /\ fits i /\
  exists s', r = Ret (Go (Some (4096 * i)), s') /\ holds s' (run i Count ∪ U) R /\ outside s s' /\ cursor s' = cursor s.
Definition past_end (from i : Z) (r : outcome (control (option Z) * kst)) : Prop :=
  from <= i < frames s /\ frames s < i + Count /\ fits i /\
  (r = Fault \/ exists s', r = Ret (Go (Some (4096 * i)), s') /\ same_shape s s').

Lemma lock_found from i : 0 <= from <= i -> i + Count <= frames s -> fits i ->
  found from i ((LockPages (u64 (i * PAGE_SIZE)) Count;; mret (Some (u64 (i * PAGE_SIZE)))) s).
Proof using H HCount.
  intros Hf Hi Hfit. pose proof (holds_frames _ _ _ H). split_and!; [lia|done|done|]. rewrite page_address by lia.
  destruct (lock_run s U R i Count H ltac:(lia) ltac:(lia) Hi Hfit) as (s' & E & Hh & Ho & Hc).
  exists s'. by erewrite bind_go by exact E.
Qed.

Lemma lock_past from i : 0 <= from <= i -> i < frames s -> frames s < i + Count -> fits i ->
  past_end from i ((LockPages (u64 (i * PAGE_SIZE)) Count;; mret (Some (u64 (i * PAGE_SIZE)))) s).
Proof using H HCount.
  intros Hf Hi Hgt Hfit. pose proof (holds_frames _ _ _ H). split_and!; [lia|done|done|done|].
  rewrite page_address by lia. destruct (LockPages_shape s (4096 * i) Count) as [E|(s' & E & Hs)].
  - left. by apply bind_fault.
  - right. exists s'. by erewrite bind_go by exact E.
Qed.

Lemma request_run_spec fuel Index : 0 <= Index < 2 ^ 60 -> (Z.to_nat (frames s - Index) < fuel)%nat ->
  let r := request_run fuel Index Count s in
  (exists i, found Index i r) /\ (fits Index -> Index + Count <= frames s -> found Index Index r) \/
  r = Ret (Go None, s) /\ (fits Index -> frames s < Index + Count) \/
  (exists i, past_end Index i r) /\ (fits Index -> frames s < Index + Count).
Proof using H HCount.
  revert Index. induction fuel as [|fuel IH]; intros Index HI Hf r; [lia|]. subst r. cbn [request_run].
  pose proof (holds_frames _ _ _ H) as Hfr. erewrite bind_go by reflexivity. cbv beta.
  rewrite (holds_bits_of _ _ _ H). destruct (Z.ltb_spec Index (frames s)) as [Hlt|Hge].
  2:{ right. left. split; [done|]. intros _. lia. }
  assert (Hnext : forall k, Index < k -> k < 2 ^ 60 -> ~ (fits Index /\ Index + Count <= frames s) ->
    let r := request_run fuel k Count s in
    (exists i, found Index i r) /\ (fits Index -> Index + Count <= frames s -> found Index Index r) \/
    r = Ret (Go None, s) /\ (fits Index -> frames s < Index + Count) \/
    (exists i, past_end Index i r) /\ (fits Index -> frames s < Index + Count)).
  { intros k Hk Hk' Hn. assert (Hn' : fits Index -> frames s < Index + Count) by (intros Hfit; apply Z.nle_gt; tauto).
    destruct (IH k) as [[[i Hi] _]|[[E _]|[[i Hi] _]]]; [lia|lia|..].
    - left. split; [|tauto]. exists i. destruct Hi as (? & Hi). split; [lia|done].
    - right. by left.
    - right. right. split; [|done]. exists i. destruct Hi as (? & Hi). split; [lia|done]. }
  erewrite bind_go by (eapply get_go; [done|lia]). cbv beta. case_bool_decide as Ht.
  { rewrite (next_index _ _ _ _ H) by lia. apply Hnext; [lia|lia|]. intros [Hfit _]. apply (Hfit Index); [lia|done]. }
  rewrite (uw_small 64 (Index + Count)), (uw_small 64 (Index + Count + 1)) by lia.
  destruct (run_free_spec (Z.to_nat Count) Index 0) as [[(j & Hj & Hin) E]|[[Hall E]|(Hlt' & Hall & E)]]; [lia|lia|lia|..].
  - erewrite bind_go by exact E. apply Hnext; [lia|lia|]. intros [Hfit _]. apply (Hfit (Index + j)); [lia|done].
  - erewrite bind_go by exact E. assert (Hfit : fits Index).
    { intros j Hj. replace j with (Index + (j - Index)) by lia. apply Hall. lia. }
    destruct (Z_le_gt_dec (Index + Count) (frames s)) as [Hle|Hgt].
    + left. split; [exists Index|intros _ _]; apply lock_found; done || lia.
    + right. right. split; [exists Index; apply lock_past; done || lia|lia].
  - assert (Hfit : fits Index).
    { apply fits_tail. intros j Hj. replace j with (Index + (j - Index)) by lia. apply Hall; lia. }
    destruct E as [E|[b E]].
    + right. right. split; [|lia]. exists Index. split_and!; [lia|done|lia|done|]. left. by apply bind_fault.
    + erewrite bind_go by exact E. destruct b.
      * right. right. split; [|lia]. exists Index. apply lock_past; done || lia.
      * apply Hnext; lia.
Qed.
End search.
(** The whole search, which starts at the cursor and gives up only when no run
    of the bitmap fits. *)
Definition pages_found (s : kst) (U R : gset Z) (Count i : Z) (s' : kst) : Prop :=
  cursor s <= i /\ i + Count <= frames s /\ fits U R Count i /\
  holds s' (run i Count ∪ U) R /\ outside s s' /\ cursor s <= cursor s' <= i.
Definition pages_past (s : kst) (U R : gset Z) (Count i : Z) : Prop :=
  cursor s <= i < frames s /\ frames s < i + Count /\ fits U R Count i.

Lemma request_pages_spec s U R Count fuel : holds s U R -> 0 < Count < 2 ^ 50 ->
  (Z.to_nat (frames s - cursor s) < fuel)%nat ->
  let r := request_pages fuel Count s in
  (exists i s', r = Ret (Go (Some (4096 * i)), s') /\ pages_found s U R Count i s') \/
  (exists s', r = Ret (Go None, s') /\ kmem s' = kmem s /\ holds s' U R /\ outside s s' /\
     forall i, cursor s <= i -> fits U R Count i -> frames s < i + Count) \/
  (exists i, pages_past s U R Count i /\
     (r = Fault \/ exists s', r = Ret (Go (Some (4096 * i)), s') /\ same_shape s s')).
Proof.
  intros H HC. revert s H. induction fuel as [|fuel IH]; intros s H Hf r; [lia|]. subst r. cbn [request_pages].
  pose proof (holds_frames _ _ _ H) as Hfr. pose proof (ho_index _ _ _ H) as Hix. unfold in_u in Hix.
  erewrite bind_go by reflexivity. cbv beta. erewrite bind_go by reflexivity. cbv beta.
  rewrite (holds_bits_of _ _ _ H). destruct (Z.ltb_spec (cursor s) (frames s)) as [Hlt|Hge].
  2:{ right. left. exists s. split_and!; [done|done|done|done|]. intros i Hi _. lia. }
  set (s1 := set_kphys (set_index (u64 (cursor s + 1))) s).
  assert (Ec : cursor s1 = cursor s + 1) by (cbn; by rewrite (next_index _ _ _ _ H) by lia).
  assert (Hnext : ~ (fits U R Count (cursor s) /\ cursor s + Count <= frames s) ->
    let r := request_pages fuel Count s1 in
    (exists i s', r = Ret (Go (Some (4096 * i)), s') /\ pages_found s U R Count i s') \/
    (exists s', r = Ret (Go None, s') /\ kmem s' = kmem s /\ holds s' U R /\ outside s s' /\
       forall i, cursor s <= i -> fits U R Count i -> frames s < i + Count) \/
    (exists i, pages_past s U R Count i /\
       (r = Fault \/ exists s', r = Ret (Go (Some (4096 * i)), s') /\ same_shape s s'))).
  { intros Hn. assert (H1 : holds s1 U R) by (apply holds_index; [done|apply uw_range; lia]).
    pose proof (outside_index s (u64 (cursor s + 1)) : outside s s1) as Ho. pose proof (outside_frames _ _ Ho) as Efr.
    destruct (IH s1 H1) as [(i & s' & E & Hi & Hle & Hfit & Hh & Ho' & Hc)|[(s' & E & Hm & Hh & Ho' & Hall)|(i & (Hi & Hlt' & Hfit) & E)]];
      [lia|..].
    - left. exists i, s'. split; [done|]. rewrite Efr in Hle. split_and!; try done; try lia. by etrans.
    - right. left. exists s'. split_and!; try done; [by etrans|]. intros i Hi Hfit. rewrite <- Efr.
      destruct (decide (i = cursor s)) as [->|]; [|apply Hall; [lia|done]]. apply Z.nle_gt. rewrite Efr. tauto.
    - right. right. exists i. rewrite Efr in *. split; [|done]. split_and!; try done; lia. }
  erewrite bind_go by (eapply get_go; [done|lia]). cbv beta. case_bool_decide as Ht.
  { erewrite bind_go by reflexivity. apply Hnext. intros [Hfit _]. apply (Hfit (cursor s)); [lia|done]. }
  erewrite bind_go by reflexivity. cbv beta. rewrite (holds_bits_of _ _ _ H).
  destruct (request_run_spec s U R Count H HC (S (Z.to_nat (frames s))) (cursor s)) as [[[i Hi] _]|[[E Hn]|[[i Hi] Hn]]];
    [lia|lia|..].
  - destruct Hi as (Hci & Hle & Hfit & s' & E & Hh & Ho & Hc). left. exists i, s'.
    erewrite bind_go by exact E. split; [done|]. split_and!; try done; lia.
  - erewrite bind_go by exact E. cbv beta iota. erewrite bind_go by reflexivity. apply Hnext.
    intros [Hfit Hle]. specialize (Hn Hfit). lia.
  - destruct Hi as (Hci & Hgt & Hfit & E). right. right. exists i. split; [done|].
    destruct E as [E|(s' & E & Hs)]; [left; by apply bind_fault|right; exists s'; by erewrite bind_go by exact E].
Qed.

(** When the frames at the first free one are free, they are the ones that are
    taken. *)
Definition stock (s : kst) (U R : gset Z) (q n : Z) : Prop :=
  cursor s <= q /\ q + n <= frames s /\ fits U R n q /\ forall j, cursor s <= j < q -> j ∈ U ∪ R.

Lemma request_pages_stock s U R Count q fuel : holds s U R -> 0 < Count < 2 ^ 50 -> stock s U R q Count ->
  (Z.to_nat (q - cursor s) < fuel)%nat ->
  exists s', request_pages fuel Count s = Ret (Go (Some (4096 * q)), s') /\ pages_found s U R Count q s' /\ cursor s' = q.
Proof.
  intros H HC. revert s H. induction fuel as [|fuel IH]; intros s H (Hc & Hle & Hfit & Hj) Hf; [lia|]. cbn [request_pages].
  pose proof (holds_frames _ _ _ H) as Hfr. pose proof (ho_index _ _ _ H) as Hix.
  unfold in_u in Hix. erewrite bind_go by reflexivity. cbv beta. erewrite bind_go by reflexivity. cbv beta.
  rewrite (holds_bits_of _ _ _ H). destruct (Z.ltb_spec (cursor s) (frames s)) as [Hlt|]; [|lia].
  erewrite bind_go by (eapply get_go; [done|lia]). cbv beta. destruct (decide (cursor s = q)) as [Hq|Hq].
  - rewrite bool_decide_eq_false_2 by (apply Hfit; lia). erewrite bind_go by reflexivity. cbv beta.
    rewrite (holds_bits_of _ _ _ H).
    assert (Hfo : found s U R Count (cursor s) q (request_run (S (Z.to_nat (frames s))) (cursor s) Count s)).
    { destruct (request_run_spec s U R Count H HC (S (Z.to_nat (frames s))) (cursor s)) as [[_ Hr]|[[_ Hn]|[_ Hn]]];
        rewrite ?Hq in *; [lia|lia|by apply Hr|specialize (Hn Hfit); lia..]. }
    destruct Hfo as (_ & _ & _ & s' & E & Hh & Ho & Hc'). exists s'. erewrite bind_go by exact E.
    unfold pages_found. split_and!; try done; lia.
  - rewrite bool_decide_eq_true_2 by (apply Hj; lia). erewrite bind_go by reflexivity. cbv beta.
    rewrite (next_index _ _ _ _ H) by lia. set (s1 := set_kphys (set_index (cursor s + 1)) s).
    assert (H1 : holds s1 U R) by (apply holds_index; [done|unfold in_u; lia]).
    pose proof (outside_index s (cursor s + 1) : outside s s1) as Ho.
    destruct (IH s1 H1) as (s' & E & (Hi & Hle' & Hfit' & Hh & Ho' & Hc1) & Hc2); [|cbn; lia|].
    + split_and!; [cbn; lia|done|done|]. intros j Hj'. apply Hj. cbn in Hj'. lia.
    + exists s'. cbn in Hc1. unfold pages_found. split_and!; try done; try lia. by etrans.
Qed.

(** ** Theorems *)

(** [s'] is [s] after the frames of [new] have been taken. *)
Definition takes (s : kst) (U R new : gset Z) (s' : kst) : Prop :=
  holds s' (new ∪ U) R /\ outside s s' /\ (forall j, j ∈ new -> j ∉ U ∪ R /\ 0 <= j < frames s).

(** [RequestPage] returns the first free frame from the cursor on, marks
    it, and accounts for it; it changes no memory but the bitmap.  It stops the
    kernel exactly when there is no free frame from the cursor on. *)
Theorem RequestPage_correct s U R : holds s U R ->
  (exists i s', RequestPage s = Ret (Go (4096 * i), s') /\ takes s U R {[i]} s' /\ cursor s' = i /\
     cursor s <= i /\ forall j, cursor s <= j < i -> j ∈ U ∪ R) \/
  (exists s', RequestPage s = Ret (Exit OUT_OF_MEMORY, s') /\ kmem s' = kmem s /\
     forall j, cursor s <= j < frames s -> j ∈ U ∪ R).
Proof.
  intros H. unfold RequestPage. erewrite bind_go by reflexivity. cbv beta. rewrite (holds_bits_of _ _ _ H).
  pose proof (holds_frames _ _ _ H). pose proof (ho_index _ _ _ H) as Hix. unfold in_u in Hix.
  destruct (page_search_spec s U R (S (Z.to_nat (frames s))) H) as
    [(i & s' & E & Hi & Hn & Hj & Hh & Ho & Hc)|(s' & E & Hj & Hh & Ho & Hm)]; [lia|left|right].
  - exists i, s'. erewrite bind_go by exact E. split_and!; try done; [|lia].
    split_and!; [done|done|]. intros j ->%elem_of_singleton. split; [done|]. lia.
  - exists s'. erewrite bind_go by exact E. cbv beta iota. erewrite bind_go by reflexivity. cbv beta.
    by erewrite bind_go by reflexivity.
Qed.

Lemma SwapPages_no a n s : SwapPages a n s = Ret (Go false, s).
Proof. unfold SwapPages. by destruct (Z.to_nat n). Qed.

(** [RequestPages] looks for [Count] frames in a row from the cursor on.
    It returns a run of free frames that it has marked and accounted for, and
    changes no memory but the bitmap; or it stops the kernel, and then no run
    of the bitmap fits; or else it has taken frames past the end of the bitmap
    for free ones, which can only happen when the last frames of the bitmap
    are free. *)
Theorem RequestPages_correct s U R Count : holds s U R -> 0 < Count < 2 ^ 50 ->
  (exists i s', RequestPages Count s = Ret (Go (4096 * i), s') /\ takes s U R (run i Count) s' /\
     cursor s <= cursor s' <= i) \/
  (exists s', RequestPages Count s = Ret (Exit OUT_OF_MEMORY, s') /\ kmem s' = kmem s /\
     forall i, cursor s <= i -> fits U R Count i -> frames s < i + Count) \/
  (exists i, pages_past s U R Count i).
Proof.
  intros H HC. unfold RequestPages. erewrite bind_go by reflexivity. cbv beta. rewrite (holds_bits_of _ _ _ H).
  pose proof (holds_frames _ _ _ H). pose proof (ho_index _ _ _ H) as Hix. unfold in_u in Hix.
  destruct (request_pages_spec s U R Count (S (Z.to_nat (frames s))) H HC) as
    [(i & s' & E & Hi & Hle & Hfit & Hh & Ho & Hc)|[(s' & E & Hm & Hh & Ho & Hall)|(i & Hp & _)]]; [lia|left|right; left|right; right].
  - exists i, s'. erewrite bind_go by exact E. split_and!; try done; try lia.
    split_and!; [done|done|]. intros j Hj%elem_of_run. split; [by apply Hfit|lia].
  - exists s'. erewrite bind_go by exact E. cbv beta iota. erewrite bind_go by reflexivity. cbv beta.
    by erewrite bind_go by apply SwapPages_no.
  - by exists i.
Qed.
(** ** Releases and reservations of runs *)

(** The address of frame [k] of the run at frame [i]. *)
Lemma run_address i k : 0 <= i -> 0 <= k -> i + k < 2 ^ 52 -> u64 (4096 * i + u64 (k * PAGE_SIZE)) = 4096 * (i + k).
Proof. intros. rewrite page_address by lia. rewrite uw_small; lia. Qed.

Lemma minus_run_S (X : gset Z) i k : 0 <= k -> X ∖ run i (k + 1) = X ∖ run i k ∖ {[i + k]}.
Proof. intros Hk. rewrite run_S by done. set_solver. Qed.

Lemma free_run s U R i n : holds s U R -> 0 < i -> 0 <= n -> run i n ⊆ U ->
  exists s', FreePages (4096 * i) n s = Ret (Go tt, s') /\ holds s' (U ∖ run i n) R /\ outside s s' /\
    cursor s' = if decide (n = 0) then cursor s else Z.min (cursor s) i.
Proof.
  intros H Hi Hn Hr. pose proof (holds_frames _ _ _ H) as Hfr. unfold FreePages.
  destruct (Z.eqb_spec (4096 * i) 0); [lia|]. cbn [orb]. destruct (Z.eqb_spec n 0) as [->|Hn0].
  { exists s. rewrite run_0, difference_empty_L. by split_and!. }
  destruct (for_loop_inv (fun k s' => holds s' (U ∖ run i k) R /\ outside s s' /\
      cursor s' = if decide (k = 0) then cursor s else Z.min (cursor s) i)
    (Z.to_nat n) 0 (fun t => FreePage (u64 (4096 * i + u64 (t * PAGE_SIZE)))) s) as (s' & E & HP).
  - rewrite run_0, difference_empty_L. by split_and!.
  - intros k s1 Hk (H1 & Ho & Hc). assert (Hu : i + k ∈ U) by (apply Hr, elem_of_run; lia).
    pose proof (ho_range _ _ _ H (i + k) ltac:(set_solver)) as Hrg. rewrite run_address by lia.
    destruct (free_go s1 _ R (i + k) H1) as (s2 & E2 & H2 & Ho2 & Hc2); [|lia|].
    + rewrite elem_of_difference, elem_of_run. split; [done|lia].
    + exists s2. split; [done|]. rewrite minus_run_S by lia. split_and!; [done|by etrans|].
      rewrite Hc2, Hc. repeat case_decide; lia.
  - exists s'. rewrite Z2Nat.id, Z.add_0_l in HP by lia. split; [done|]. exact HP.
Qed.

Lemma reserve_run s U R i n : holds s U R -> 0 <= i -> 0 <= n -> i + n <= frames s ->
  exists s', ReservePages (4096 * i) n s = Ret (Go tt, s') /\ holds s' U (R ∪ (run i n ∖ U)) /\ outside s s' /\ cursor s' = cursor s.
Proof.
  intros H Hi Hn Hr. pose proof (holds_frames _ _ _ H) as Hfr. unfold ReservePages.
  destruct (for_loop_inv (fun k s' => holds s' U (R ∪ (run i k ∖ U)) /\ outside s s' /\ cursor s' = cursor s)
    (Z.to_nat n) 0 (fun t => reserve_index (u64 (4096 * i + u64 (t * PAGE_SIZE)) / PAGE_SIZE)) s) as (s' & E & HP).
  - replace (R ∪ run i 0 ∖ U) with R by (rewrite run_0; set_solver). by split_and!.
  - intros k s1 Hk (H1 & Ho & Hc). rewrite run_address, page_index by lia. pose proof (outside_frames _ _ Ho) as Efr.
    destruct (reserve_go s1 _ _ (i + k) H1) as (s2 & E2 & H2 & Ho2 & Hc2); [lia|]. exists s2. split; [done|].
    split_and!; [|by etrans|congruence]. rewrite run_S by lia.
    replace (R ∪ ({[i + k]} ∪ run i k) ∖ U) with (if decide (i + k ∈ U ∪ (R ∪ run i k ∖ U)) then R ∪ run i k ∖ U else {[i + k]} ∪ (R ∪ run i k ∖ U)); [done|].
    apply leibniz_equiv. intros j. case_decide as Hd; destruct (decide (j = i + k)) as [->|]; set_solver.
  - exists s'. rewrite Z2Nat.id, Z.add_0_l in HP by lia. done.
Qed.

Lemma unreserve_run s U R i n : holds s U R -> 0 <= i -> 0 <= n -> run i n ⊆ R ->
  exists s', UnreservePages (4096 * i) n s = Ret (Go tt, s') /\ holds s' U (R ∖ run i n) /\ outside s s'.
Proof.
  intros H Hi Hn Hr. pose proof (holds_frames _ _ _ H) as Hfr. unfold UnreservePages.
  assert (Hloop : forall k t s1, Z.of_nat k + t = n -> 0 <= t -> holds s1 U (R ∖ run i t) ->
    exists s', unreserve_loop k (4096 * i) t s1 = Ret (Go tt, s') /\ holds s' U (R ∖ run i n) /\ outside s1 s').
  { induction k as [|k IH]; intros t s1 Ht Ht0 H1; cbn [unreserve_loop].
    { exists s1. replace n with t by lia. by split_and!. }
    assert (Hu : i + t ∈ R) by (apply Hr, elem_of_run; lia).
    pose proof (ho_range _ _ _ H (i + t) ltac:(set_solver)) as Hrg. rewrite run_address, page_index by lia.
    destruct (unreserve_go s1 U _ (i + t) H1) as (s2 & E2 & H2 & Ho2 & _).
    { rewrite elem_of_difference, elem_of_run. split; [done|lia]. }
    rewrite <- minus_run_S in H2 by lia. erewrite bind_go by exact E2. cbv beta iota.
    destruct (IH (t + 1) s2) as (s' & E & Hh & Ho); [lia|lia|done|]. exists s'. split_and!; [done|done|by etrans]. }
  apply Hloop; [lia|lia|]. by rewrite run_0, difference_empty_L.
Qed.

(** ** The life of the allocator

    A run of the kernel: requests, releases of what was requested, and
    reservations, with the list of the live requests as a ghost. *)

Definition runs (L : list (Z * Z)) : gset Z := ⋃ ((fun r => run (fst r) (snd r)) <$> L).

(** A state in which a request for [n] frames is not answered past the end of the
    bitmap: the last frame is taken, or the frames at the first free one suffice. *)
Definition inside_bitmap (s : kst) (U R : gset Z) (n : Z) : Prop := frames s - 1 ∈ U ∪ R \/ exists q, stock s U R q n.

Inductive pmm_step : kst * list (Z * Z) * gset Z -> kst * list (Z * Z) * gset Z -> Prop :=
| step_page s L R a s' : RequestPage s = Ret (Go a, s') -> pmm_step (s, L, R) (s', (a / 4096, 1) :: L, R)
| step_pages s L R n a s' : 0 < n < 2 ^ 50 -> inside_bitmap s (runs L) R n -> RequestPages n s = Ret (Go a, s') ->
    pmm_step (s, L, R) (s', (a / 4096, n) :: L, R)
| step_free s L1 L2 R i n s' : 0 < i -> 0 <= n -> FreePages (4096 * i) n s = Ret (Go tt, s') ->
    pmm_step (s, L1 ++ (i, n) :: L2, R) (s', L1 ++ L2, R)
| step_reserve s L R i n s' : 0 <= i -> 0 <= n -> i + n <= frames s -> ReservePages (4096 * i) n s = Ret (Go tt, s') ->
    pmm_step (s, L, R) (s', L, R ∪ (run i n ∖ runs L))
| step_unreserve s L R i n s' : 0 <= i -> 0 <= n -> run i n ⊆ R -> UnreservePages (4096 * i) n s = Ret (Go tt, s') ->
    pmm_step (s, L, R) (s', L, R ∖ run i n).

Definition disjoint_runs (L : list (Z * Z)) : Prop :=
  forall k l r r', L !! k = Some r -> L !! l = Some r' -> k <> l -> run (fst r) (snd r) ## run (fst r') (snd r').

Lemma runs_cons r L : runs (r :: L) = run (fst r) (snd r) ∪ runs L.
Proof. done. Qed.

Lemma runs_app L L' : runs (L ++ L') = runs L ∪ runs L'.
Proof. unfold runs. by rewrite fmap_app, union_list_app_L. Qed.

Lemma elem_of_runs L i : i ∈ runs L <-> exists k r, L !! k = Some r /\ i ∈ run (fst r) (snd r).
Proof.
  induction L as [|r L IH].
  - split; [intros Hi; change (i ∈ (∅ : gset Z)) in Hi; by apply elem_of_empty in Hi|intros (k & r & Hk & _); done].
  - rewrite runs_cons, elem_of_union, IH. split.
    + intros [Hi|(k & r' & Hk & Hi)]; [by exists 0%nat, r|by exists (S k), r'].
    + intros ([|k] & r' & Hk & Hi); [injection Hk as ->; by left|right; by exists k, r'].
Qed.

Lemma disjoint_runs_cons r L : disjoint_runs L -> run (fst r) (snd r) ## runs L -> disjoint_runs (r :: L).
Proof.
  intros HL Hr [|k] [|l] r1 r2 H1 H2 Hne; cbn in H1, H2; [done| | |apply (HL k l r1 r2 H1 H2); congruence].
  - injection H1 as <-. intros i Hi Hi'. apply (Hr i Hi). apply elem_of_runs. eauto.
  - injection H2 as <-. intros i Hi Hi'. apply (Hr i Hi'). apply elem_of_runs. eauto.
Qed.

Lemma disjoint_runs_remove L1 r L2 : disjoint_runs (L1 ++ r :: L2) ->
  disjoint_runs (L1 ++ L2) /\ runs (L1 ++ L2) = runs (L1 ++ r :: L2) ∖ run (fst r) (snd r).
Proof.
  intros HL. set (up k := if decide (k < length L1)%nat then k else S k).
  assert (Hup : forall k r', (L1 ++ L2) !! k = Some r' -> (L1 ++ r :: L2) !! up k = Some r').
  { intros k r' Hk. unfold up. case_decide as Hd; [by rewrite lookup_app_l in * by lia|].
    rewrite lookup_app_r in Hk by lia. rewrite lookup_app_r by lia.
    by replace (S k - length L1)%nat with (S (k - length L1)) by lia. }
  assert (Hmid : (L1 ++ r :: L2) !! length L1 = Some r) by (by rewrite lookup_app_r, Nat.sub_diag).
  split.
  - intros k l r1 r2 H1 H2 Hne. apply (HL (up k) (up l)); [by apply Hup..|]. unfold up. repeat case_decide; lia.
  - rewrite !runs_app, runs_cons. apply leibniz_equiv. intros i. split; [|set_solver].
    intros Hi. rewrite elem_of_difference. split; [set_solver|]. intros Hr.
    rewrite <- runs_app in Hi. apply elem_of_runs in Hi as (k & r' & Hk & Hi).
    apply (HL (up k) (length L1) r' r (Hup _ _ Hk) Hmid ltac:(unfold up; case_decide; lia) i Hi Hr).
Qed.

(** What a request that returns has done. *)
Lemma RequestPage_law s U R a s' : holds s U R -> RequestPage s = Ret (Go a, s') ->
  exists i, a = 4096 * i /\ cursor s <= i < frames s /\ i ∉ U ∪ R /\ holds s' ({[i]} ∪ U) R /\ outside s s'.
Proof.
  intros H E. unfold RequestPage in E. erewrite bind_go in E by reflexivity. cbv beta in E.
  rewrite (holds_bits_of _ _ _ H) in E. pose proof (holds_frames _ _ _ H). pose proof (ho_index _ _ _ H) as Hix. unfold in_u in Hix.
  destruct (page_search_spec s U R (S (Z.to_nat (frames s))) H) as
    [(i & s1 & E1 & Hi & Hn & Hj & Hh & Ho & Hc)|(s1 & E1 & Hj & Hh & Ho & Hm)]; [lia|..]; erewrite bind_go in E by exact E1.
  - injection E as <- <-. exists i. split_and!; done || lia.
  - cbv beta iota in E. erewrite bind_go in E by reflexivity. cbv beta in E. erewrite bind_go in E by reflexivity. done.
Qed.

Lemma RequestPages_law s U R Count a s' : holds s U R -> 0 < Count < 2 ^ 50 -> RequestPages Count s = Ret (Go a, s') ->
  exists i, a = 4096 * i /\ (pages_found s U R Count i s' \/ pages_past s U R Count i /\ same_shape s s').
Proof.
  intros H HC E. unfold RequestPages in E. erewrite bind_go in E by reflexivity. cbv beta in E.
  rewrite (holds_bits_of _ _ _ H) in E. pose proof (holds_frames _ _ _ H). pose proof (ho_index _ _ _ H) as Hix. unfold in_u in Hix.
  destruct (request_pages_spec s U R Count (S (Z.to_nat (frames s))) H HC) as
    [(i & s1 & E1 & Hf)|[(s1 & E1 & _)|(i & Hp & [E1|(s1 & E1 & Hs)])]]; [lia|..].
  - erewrite bind_go in E by exact E1. injection E as <- <-. exists i. split; [done|by left].
  - erewrite bind_go in E by exact E1. cbv beta iota in E. erewrite bind_go in E by reflexivity. cbv beta in E.
    by erewrite bind_go in E by apply SwapPages_no.
  - by erewrite bind_fault in E by exact E1.
  - erewrite bind_go in E by exact E1. injection E as <- <-. exists i. split; [done|by right].
Qed.

Lemma RequestPages_stock s U R Count q : holds s U R -> 0 < Count < 2 ^ 50 -> stock s U R q Count ->
  exists s', RequestPages Count s = Ret (Go (4096 * q), s') /\ pages_found s U R Count q s' /\ cursor s' = q.
Proof.
  intros H HC Hs. pose proof (ho_index _ _ _ H) as Hix. unfold in_u in Hix. pose proof Hs as (Hc & Hle & _ & _).
  destruct (request_pages_stock s U R Count q (S (Z.to_nat (bits_of s))) H HC Hs) as (s' & E & Hf).
  { rewrite (holds_bits_of _ _ _ H). lia. }
  exists s'. split; [|done]. unfold RequestPages. erewrite bind_go by reflexivity. cbv beta. by erewrite bind_go by exact E.
Qed.

Lemma RequestPages_inside s U R Count a s' : holds s U R -> 0 < Count < 2 ^ 50 -> inside_bitmap s U R Count ->
  RequestPages Count s = Ret (Go a, s') -> exists i, a = 4096 * i /\ pages_found s U R Count i s'.
Proof.
  intros H HC [Hlast|[q Hq]] E.
  - destruct (RequestPages_law _ _ _ _ _ _ H HC E) as (i & -> & [Hf|[(Hi & Hgt & Hfit) _]]); [by exists i|].
    exfalso. apply (Hfit (frames s - 1)); [lia|done].
  - destruct (RequestPages_stock _ _ _ _ _ H HC Hq) as (s1 & E1 & Hf & _). rewrite E1 in E. injection E as <- <-. by exists q.
Qed.

Lemma frame_of i : 4096 * i / 4096 = i.
Proof. dlia. Qed.

Lemma run_1 i : run i 1 = {[i]}.
Proof. apply leibniz_equiv. intros j. rewrite elem_of_run, elem_of_singleton. lia. Qed.

Definition pmm_inv (c : kst * list (Z * Z) * gset Z) : Prop :=
  let '(s, L, R) := c in holds s (runs L) R /\ disjoint_runs L.

Lemma pmm_step_inv c c' : pmm_step c c' -> pmm_inv c -> pmm_inv c'.
Proof.
  intros Hstep. destruct Hstep as [s L R a s' E|s L R n a s' Hn Hins E|s L1 L2 R i n s' Hi Hn E|s L R i n s' Hi Hn Hle E|s L R i n s' Hi Hn Hr E];
    intros [H HL]; cbv beta iota delta [pmm_inv].
  - destruct (RequestPage_law _ _ _ _ _ H E) as (i & -> & Hi & Hf & Hh & _). rewrite frame_of, runs_cons, run_1. split; [done|].
    apply disjoint_runs_cons; [done|]. cbn. rewrite run_1. set_solver.
  - destruct (RequestPages_inside _ _ _ _ _ _ H Hn Hins E) as (i & -> & Hi & _ & Hf & Hh & _). rewrite frame_of in *.
    rewrite runs_cons. split; [done|]. apply disjoint_runs_cons; [done|]. cbn. intros j Hj%elem_of_run. specialize (Hf j Hj). set_solver.
  - destruct (disjoint_runs_remove _ _ _ HL) as [HL' ->]. split; [|done].
    destruct (free_run s _ R i n H Hi Hn) as (s1 & E1 & Hh & _).
    { rewrite runs_app, runs_cons. cbn. set_solver. }
    rewrite E1 in E. by injection E as <-.
  - destruct (reserve_run s _ R i n H Hi Hn Hle) as (s1 & E1 & Hh & _). rewrite E1 in E. by injection E as <-.
  - destruct (unreserve_run s _ R i n H Hi Hn Hr) as (s1 & E1 & Hh & _). rewrite E1 in E. by injection E as <-.
Qed.

(** C8: however the kernel requests, releases, reserves and unreserves frames,
    the bitmap marks exactly the live requests and the reserved frames, no two
    live requests share a frame, and the three counters add up to the memory
    of the machine.  The requests of several frames are those made in a state
    where the last frame of the bitmap is taken or the run at the first free
    frame is long enough ([inside_bitmap]): elsewhere the search can go past the
    end of the bitmap, as [RequestPages_past_bitmap] shows. *)
Theorem page_frames_accounted s0 R0 s L R : holds s0 ∅ R0 -> rtc pmm_step (s0, [], R0) (s, L, R) ->
  disjoint_runs L /\ holds s (runs L) R /\
  u64 (FreeMemory (kphys s) + UsedMemory (kphys s) + ReservedMemory (kphys s)) = u64 (TotalMemory (kphys s)).
Proof.
  intros H0 Hrtc. assert (Hinv : pmm_inv (s, L, R)).
  { assert (Hi : pmm_inv (s0, [], R0)) by (split; [done|intros k l r r' Hk; done]).
    revert Hi. generalize dependent (s0, @nil (Z * Z), R0). intros c Hrtc. induction Hrtc as [|c1 c2 c3 Hs _ IH]; [done|].
    intros Hi. by eapply IH, pmm_step_inv. }
  destruct Hinv as [H HL]. split_and!; [done|done|].
  rewrite (ho_free _ _ _ H), (ho_used _ _ _ H), (ho_reserved _ _ _ H). unfold uw.
  rewrite <- Z.add_assoc, Zplus_mod_idemp_l. f_equal. lia.
Qed.

(** ** Examples *)

Definition holds_check (s : kst) (U R : gset Z) : bool :=
  let b := bm s in let p := kphys s in
  bool_decide (0 <= Size b <= 2 ^ 37 /\ 0 <= Buffer b /\ Buffer b + Size b < 2 ^ 64) &&
  cells_check (kmem s) (Buffer b) (Size b) && bool_decide (U ## R) &&
  bool_decide (set_Forall (fun i => 0 <= i < frames s) (U ∪ R)) &&
  forallb (fun i => eqb (bit (kmem s) b i) (bool_decide (i ∈ U ∪ R))) (seqZ 0 (frames s)) &&
  bool_decide (0 <= PageBitmapIndex p < 2 ^ 64) &&
  (FreeMemory p =? u64 (TotalMemory p - 4096 * (Z.of_nat (size U) + Z.of_nat (size R)))) &&
  (UsedMemory p =? 4096 * Z.of_nat (size U)) && (ReservedMemory p =? 4096 * Z.of_nat (size R)).

Lemma holds_checked s U R : holds_check s U R = true -> holds s U R.
Proof.
  unfold holds_check. rewrite !andb_true_iff, !bool_decide_eq_true, !Z.eqb_eq, forallb_forall.
  intros [[[[[[[[Hs Hc] Hd] Hr] Hb] Hi] Hf] Hu] Hz]. split; try done.
  - split; [lia|lia|by apply cells_checked].
  - intros i Hin. specialize (Hb i ltac:(apply list_elem_of_In, elem_of_seqZ; lia)). by apply eqb_prop.
Qed.

(** Sixteen frames, of which the first three are reserved: the bitmap itself is
    in frame 1. *)
Definition demo_frames : kst :=
  KSt (write_bytes ∅ 4096 [0xE0; 0; 0]) (MkPhysical 65536 (65536 - 3 * 4096) (3 * 4096) 0 0 (MkBitmap 2 4096)).

Lemma demo_frames_ok : holds demo_frames ∅ {[0; 1; 2]}.
Proof. apply holds_checked. vm_compute. reflexivity. Qed.

Lemma RequestPage_witness :
  (exists i s', RequestPage demo_frames = Ret (Go (4096 * i), s') /\ takes demo_frames ∅ {[0; 1; 2]} {[i]} s' /\ cursor s' = i /\
     0 <= i /\ forall j, 0 <= j < i -> j ∈ (∅ ∪ {[0; 1; 2]} : gset Z)) \/
  (exists s', RequestPage demo_frames = Ret (Exit OUT_OF_MEMORY, s') /\ kmem s' = kmem demo_frames /\
     forall j, 0 <= j < 16 -> j ∈ (∅ ∪ {[0; 1; 2]} : gset Z)).
Proof. apply (RequestPage_correct demo_frames ∅ {[0; 1; 2]}). exact demo_frames_ok. Defined.

Lemma RequestPages_witness :
  (exists i s', RequestPages 4 demo_frames = Ret (Go (4096 * i), s') /\ takes demo_frames ∅ {[0; 1; 2]} (run i 4) s' /\
     0 <= cursor s' <= i) \/
  (exists s', RequestPages 4 demo_frames = Ret (Exit OUT_OF_MEMORY, s') /\ kmem s' = kmem demo_frames /\
     forall i, 0 <= i -> fits ∅ {[0; 1; 2]} 4 i -> 16 < i + 4) \/
  (exists i, pages_past demo_frames ∅ {[0; 1; 2]} 4 i).
Proof. apply (RequestPages_correct demo_frames ∅ {[0; 1; 2]} 4); [exact demo_frames_ok|lia]. Defined.

(** Two frames are requested and released again. *)
Definition ok_state (r : outcome (control unit * kst)) : kst := match r with Ret (_, s) => s | _ => demo_frames end.
Definition demo_taken : kst := ok_state ((RequestPages 2;; mret tt) demo_frames).
Definition demo_released : kst := ok_state (FreePages (4096 * 3) 2 demo_taken).

Lemma demo_first_run : stock demo_frames (runs []) {[0; 1; 2]} 3 2.
Proof.
  split_and!; [by vm_compute|by vm_compute|..].
  - intros j Hj. change (j ∉ (∅ ∪ {[0; 1; 2]} : gset Z)). set_unfold. lia.
  - intros j Hj. change (0 <= j < 3) in Hj. change (j ∈ (∅ ∪ {[0; 1; 2]} : gset Z)). set_unfold. lia.
Qed.

Lemma page_frames_witness :
  disjoint_runs [] /\ holds demo_released (runs []) {[0; 1; 2]} /\
  u64 (FreeMemory (kphys demo_released) + UsedMemory (kphys demo_released) + ReservedMemory (kphys demo_released))
    = u64 (TotalMemory (kphys demo_released)).
Proof.
  apply (page_frames_accounted demo_frames {[0; 1; 2]} demo_released [] {[0; 1; 2]}); [exact demo_frames_ok|].
  eapply rtc_l; [apply (step_pages demo_frames [] _ 2 (4096 * 3) demo_taken); [lia|right; exists 3; apply demo_first_run|vm_compute; reflexivity]|].
  apply rtc_once. apply (step_free demo_taken [] [] _ 3 2 demo_released); [lia|lia|vm_compute; reflexivity].
Defined.

(** The last frame of the bitmap is free and nothing else is: the kernel takes
    the frame behind the bitmap for a free one, hands both out, and writes the
    byte behind the bitmap. *)
Definition demo_full : kst :=
  KSt (write_bytes ∅ 4096 [0xFF; 0xFE; 0]) (MkPhysical 65536 4096 (15 * 4096) 0 0 (MkBitmap 2 4096)).

Theorem RequestPages_past_bitmap :
  holds demo_full ∅ (run 0 15) /\ frames demo_full = 16 /\
  exists s', RequestPages 2 demo_full = Ret (Go (4096 * 15), s') /\
    kmem demo_full !! 4098 = Some 0 /\ kmem s' !! 4098 = Some 128.
Proof.
  split; [apply holds_checked; vm_compute; reflexivity|]. split; [reflexivity|].
  exists (KSt (write_bytes ∅ 4096 [0xFF; 0xFF; 0x80]) (MkPhysical 65536 (2 ^ 64 - 4096) (15 * 4096) 8192 15 (MkBitmap 2 4096))).
  split; [vm_compute; reflexivity|]. split; vm_compute; reflexivity.
Qed.
