(* ===== verification/KPaging.v ===== *)
(** * Page tables

    [Memory::Virtual] on amd64 ([src/Kernel/arch/amd64/memory/vmm.cpp] and
    [pmi.cpp], with the inline operations of [include/memory/virtual.hpp]) and
    [Memory::PageTable] ([core/memory/page_table.cpp]): the four levels of
    tables live in physical memory and are reached one to one; new tables come
    from the page frame allocator.

    The entries of the four levels have the same present bit, address field and
    accessors, so one set of definitions serves all of them.  The translation
    caches and the lock are not modelled. *)

From S2P Require Import Prelude CMem CMonad CStruct KPhysical.

(** ** Entries *)

Definition P : Z := 1.
Definition RW : Z := 2.
Definition US : Z := 4.
Definition G : Z := 0x100.
Definition CoW : Z := 0x200.
Definition KRsv : Z := 0x400.

Definition Present (raw : Z) : bool := Z.testbit raw 0.
Definition PageSize (raw : Z) : bool := Z.testbit raw 7.

Definition SetAddress (raw _Address : Z) : Z :=
  Z.lor (Z.land raw 0xFFF0000000000FFF) (Z.shiftl (Z.land _Address 0xFFFFFFFFFF) 12).
Definition GetAddress (raw : Z) : Z := Z.shiftr (Z.land raw 0x000FFFFFFFFFF000) 12.

(** [GetAddress() << 12]: the table or page that an entry points to. *)
Definition frame (raw : Z) : Z := Z.shiftl (GetAddress raw) 12.

Inductive MapType := NoMapType | FourKiB | TwoMiB | FourMiB | OneGiB.

#[export] Instance MapType_eq_dec : EqDecision MapType.
Proof. solve_decision. Defined.

Record PageMapIndexer := MkIndexer { PMLIndex : Z; PDPTEIndex : Z; PDEIndex : Z; PTEIndex : Z }.

Definition page_map_indexer (VirtualAddress : Z) : K PageMapIndexer :=
  let Address := Z.shiftr VirtualAddress 12 in
  let pte := Z.land Address 0x1FF in
  let Address := Z.shiftr Address 9 in
  let pde := Z.land Address 0x1FF in
  let Address := Z.shiftr Address 9 in
  let pdpte := Z.land Address 0x1FF in
  let Address := Z.shiftr Address 9 in
  let pml := Z.land Address 0x1FF in
  (if VirtualAddress >? PAGE_SIZE then
     assert (negb (pte =? 0) || negb (pde =? 0) || negb (pdpte =? 0) || negb (pml =? 0))
   else mret tt);;
  mret (MkIndexer pml pdpte pde pte).

(** ** Access *)

Definition entry_at (a : Z) : K Z := klook (fun m => load_le m a 8).
Definition set_entry (a v : Z) : K unit := kwrite (fun m => store_le m a 8 v).
Definition upd_entry (a : Z) (f : Z -> Z) : K unit := e ← entry_at a; set_entry a (f e).
Definition kmemset (a c n : Z) : K unit := kwrite (fun m => store_bytes m a (replicate (Z.to_nat n) (u8 c))).

(** [Address &= 0xFFFFFFFFFFFFF000] *)
Definition page_of (VirtualAddress : Z) : Z := Z.land VirtualAddress 0xFFFFFFFFFFFFF000.

(** ** Queries *)

Definition Check (pTable VirtualAddress Flag : Z) : K bool :=
  let has raw := negb (Z.land raw Flag =? 0) in
  idx ← page_map_indexer (page_of VirtualAddress);
  PML4 ← entry_at (pTable + 8 * PMLIndex idx);
  if negb (Present PML4) then mret false
  else
    let PDPTE := frame PML4 in
    if PDPTE =? 0 then mret false
    else
      e ← entry_at (PDPTE + 8 * PDPTEIndex idx);
      if PageSize e then mret (has e)
      else
        let PDE := frame e in
        if PDE =? 0 then mret false
        else
          e ← entry_at (PDE + 8 * PDEIndex idx);
          if PageSize e then mret (has e)
          else
            let PTE := frame e in
            if PTE =? 0 then mret false
            else
              e ← entry_at (PTE + 8 * PTEIndex idx);
              mret (has e).

Definition GetPhysical (pTable VirtualAddress : Z) : K Z :=
  idx ← page_map_indexer (page_of VirtualAddress);
  PML4 ← entry_at (pTable + 8 * PMLIndex idx);
  if negb (Present PML4) then mret 0
  else
    let PDPTE := frame PML4 in
    if PDPTE =? 0 then mret 0
    else
      e ← entry_at (PDPTE + 8 * PDPTEIndex idx);
      if negb (Present e) then mret 0
      else if PageSize e then mret (frame e)
      else
        let PDE := frame e in
        if PDE =? 0 then mret 0
        else
          e ← entry_at (PDE + 8 * PDEIndex idx);
          if negb (Present e) then mret 0
          else if PageSize e then mret (frame e)
          else
            let PTE := frame e in
            if PTE =? 0 then mret 0
            else
              e ← entry_at (PTE + 8 * PTEIndex idx);
              if Present e then mret (frame e) else mret 0.

Definition GetMapType (pTable VirtualAddress : Z) : K MapType :=
  idx ← page_map_indexer (page_of VirtualAddress);
  PML4 ← entry_at (pTable + 8 * PMLIndex idx);
  if negb (Present PML4) then mret NoMapType
  else
    let PDPTE := frame PML4 in
    if PDPTE =? 0 then mret NoMapType
    else
      e ← entry_at (PDPTE + 8 * PDPTEIndex idx);
      if negb (Present e) then mret NoMapType
      else if PageSize e then mret OneGiB
      else
        let PDE := frame e in
        if PDE =? 0 then mret NoMapType
        else
          e ← entry_at (PDE + 8 * PDEIndex idx);
          if negb (Present e) then mret NoMapType
          else if PageSize e then mret TwoMiB
          else
            let PTE := frame e in
            if PTE =? 0 then mret NoMapType
            else
              e ← entry_at (PTE + 8 * PTEIndex idx);
              if Present e then mret FourKiB else mret NoMapType.

(** The [Get] functions return the address of an entry, or null. *)
Definition GetPML5 (pTable VirtualAddress : Z) : K Z := mret 0.

Definition GetPML4 (pTable VirtualAddress : Z) : K Z :=
  idx ← page_map_indexer (page_of VirtualAddress);
  let a := pTable + 8 * PMLIndex idx in
  e ← entry_at a;
  if Present e then mret a else mret 0.

Definition GetPDPTE (pTable VirtualAddress : Z) : K Z :=
  idx ← page_map_indexer (page_of VirtualAddress);
  e ← entry_at (pTable + 8 * PMLIndex idx);
  if negb (Present e) then mret 0
  else
    let a := frame e + 8 * PDPTEIndex idx in
    e ← entry_at a;
    if Present e then mret a else mret 0.

Definition GetPDE (pTable VirtualAddress : Z) : K Z :=
  idx ← page_map_indexer (page_of VirtualAddress);
  e ← entry_at (pTable + 8 * PMLIndex idx);
  if negb (Present e) then mret 0
  else
    e ← entry_at (frame e + 8 * PDPTEIndex idx);
    if negb (Present e) then mret 0
    else
      let a := frame e + 8 * PDEIndex idx in
      e ← entry_at a;
      if Present e then mret a else mret 0.

Definition GetPTE (pTable VirtualAddress : Z) : K Z :=
  idx ← page_map_indexer (page_of VirtualAddress);
  e ← entry_at (pTable + 8 * PMLIndex idx);
  if negb (Present e) then mret 0
  else
    e ← entry_at (frame e + 8 * PDPTEIndex idx);
    if negb (Present e) then mret 0
    else
      e ← entry_at (frame e + 8 * PDEIndex idx);
      if negb (Present e) then mret 0
      else
        let a := frame e + 8 * PTEIndex idx in
        e ← entry_at a;
        if Present e then mret a else mret 0.

(** ** Mapping *)

(** The table below the entry at [a]; it is made when there is none. *)
Definition next_table (a DirectoryFlags : Z) : K Z :=
  e ← entry_at a;
  t ← (if negb (Present e) then
         p ← RequestPages (TO_PAGES (4096 + 1));
         kmemset p 0 4096;;
         upd_entry a (fun raw => Z.setbit raw 0);;
         upd_entry a (fun raw => SetAddress raw (Z.shiftr p 12));;
         mret p
       else mret (frame e));
  upd_entry a (fun raw => Z.lor raw DirectoryFlags);;
  mret t.

Definition Map (pTable VirtualAddress PhysicalAddress Flags : Z) (Type_ : MapType) : K unit :=
  if pTable =? 0 then mret tt
  else
    let Flags := Z.lor Flags P in
    idx ← page_map_indexer VirtualAddress;
    let DirectoryFlags := Z.land Flags 0x3F in
    let set_address raw := SetAddress raw (Z.shiftr PhysicalAddress 12) in
    PDPTEPtr ← next_table (pTable + 8 * PMLIndex idx) DirectoryFlags;
    let PDPTE := PDPTEPtr + 8 * PDPTEIndex idx in
    if decide (Type_ = OneGiB) then
      upd_entry PDPTE (fun raw => Z.lor raw Flags);;
      upd_entry PDPTE (fun raw => Z.setbit raw 7);;
      upd_entry PDPTE set_address
    else
      PDEPtr ← next_table PDPTE DirectoryFlags;
      let PDE := PDEPtr + 8 * PDEIndex idx in
      if decide (Type_ = TwoMiB) then
        upd_entry PDE (fun raw => Z.lor raw Flags);;
        upd_entry PDE (fun raw => Z.setbit raw 7);;
        upd_entry PDE set_address
      else
        PTEPtr ← next_table PDE DirectoryFlags;
        let PTE := PTEPtr + 8 * PTEIndex idx in
        upd_entry PTE (fun raw => Z.setbit raw 0);;
        upd_entry PTE (fun raw => Z.lor raw Flags);;
        upd_entry PTE set_address.

Definition Remap (pTable VirtualAddress PhysicalAddress Flags : Z) (Type_ : MapType) : K unit :=
  if pTable =? 0 then mret tt
  else
    let Flags := Z.lor Flags P in
    idx ← page_map_indexer VirtualAddress;
    let DirectoryFlags := Z.land Flags 0x3F in
    let set_address raw := SetAddress raw (Z.shiftr PhysicalAddress 12) in
    PDPTEPtr ← next_table (pTable + 8 * PMLIndex idx) DirectoryFlags;
    let PDPTE := PDPTEPtr + 8 * PDPTEIndex idx in
    if decide (Type_ = OneGiB) then
      upd_entry PDPTE (fun raw => Z.land raw 0xFFF);;
      upd_entry PDPTE (fun raw => Z.lor raw Flags);;
      upd_entry PDPTE (fun raw => Z.setbit raw 7);;
      upd_entry PDPTE set_address
    else
      PDEPtr ← next_table PDPTE DirectoryFlags;
      let PDE := PDEPtr + 8 * PDEIndex idx in
      if decide (Type_ = TwoMiB) then
        upd_entry PDE (fun raw => Z.land raw 0xFFF);;
        upd_entry PDE (fun raw => Z.lor raw Flags);;
        upd_entry PDE (fun raw => Z.setbit raw 7);;
        upd_entry PDE set_address
      else
        PTEPtr ← next_table PDE DirectoryFlags;
        let PTE := PTEPtr + 8 * PTEIndex idx in
        upd_entry PTE (fun raw => Z.land raw 0xFFF);;
        upd_entry PTE (fun raw => Z.lor raw Flags);;
        upd_entry PTE (fun raw => Z.setbit raw 0);;
        upd_entry PTE set_address.

Definition Unmap (pTable VirtualAddress : Z) (Type_ : MapType) : K unit :=
  if pTable =? 0 then mret tt
  else
    idx ← page_map_indexer VirtualAddress;
    e ← entry_at (pTable + 8 * PMLIndex idx);
    if negb (Present e) then mret tt
    else
      let PDPTE := frame e + 8 * PDPTEIndex idx in
      e ← entry_at PDPTE;
      if negb (Present e) then mret tt
      else if bool_decide (Type_ = OneGiB) && PageSize e then upd_entry PDPTE (fun raw => Z.clearbit raw 0)
      else
        let PDE := frame e + 8 * PDEIndex idx in
        e ← entry_at PDE;
        if negb (Present e) then mret tt
        else if bool_decide (Type_ = TwoMiB) && PageSize e then upd_entry PDE (fun raw => Z.clearbit raw 0)
        else
          let PTE := frame e + 8 * PTEIndex idx in
          e ← entry_at PTE;
          if negb (Present e) then mret tt else set_entry PTE (Z.clearbit e 0).

(** ** Regions *)

Definition page_size (Type_ : MapType) : Z :=
  match Type_ with
  | TwoMiB => 0x200000
  | FourMiB => 0x400000
  | OneGiB => 0x40000000
  | _ => 0x1000
  end.

(** [for (i = 0; i < Length; i += PageSize)], with [i] from [i] on. *)
Fixpoint range_loop (fuel : nat) (PageSize Length i : Z) (body : Z -> K unit) : K unit :=
  match fuel with
  | O => no_fuel
  | S fuel =>
      if i <? Length then body i;; range_loop fuel PageSize Length (u64 (i + PageSize)) body else mret tt
  end.
Definition range_fuel (PageSize Length : Z) : nat := S (S (Z.to_nat (Length / PageSize))).

Definition MapRange (pTable VirtualAddress PhysicalAddress Length Flags : Z) (Type_ : MapType) : K unit :=
  let PageSize := page_size Type_ in
  range_loop (range_fuel PageSize Length) PageSize Length 0 (fun i =>
    Map pTable (u64 (VirtualAddress + i)) (u64 (PhysicalAddress + i)) Flags Type_).

Definition UnmapRange (pTable VirtualAddress Length : Z) (Type_ : MapType) : K unit :=
  let PageSize := page_size Type_ in
  range_loop (range_fuel PageSize Length) PageSize Length 0 (fun i => Unmap pTable (u64 (VirtualAddress + i)) Type_).

Fixpoint check_region (fuel : nat) (pTable VirtualAddress Length Flag i : Z) : K bool :=
  match fuel with
  | O => no_fuel
  | S fuel =>
      if i <? Length then
        b ← Check pTable (u64 (VirtualAddress + i)) Flag;
        if negb b then mret false else check_region fuel pTable VirtualAddress Length Flag (u64 (i + 0x1000))
      else mret true
  end.
Definition CheckRegion (pTable VirtualAddress Length Flag : Z) : K bool :=
  check_region (range_fuel 0x1000 Length) pTable VirtualAddress Length Flag 0.

(** One of the four loops of [OptimizedMap] with [Fit]; the result is what is
    left of the region. *)
Fixpoint fit_loop (fuel : nat) (pTable VirtualAddress PhysicalAddress Length Flags : Z) (Type_ : MapType) : K (Z * Z * Z) :=
  match fuel with
  | O => no_fuel
  | S fuel =>
      let n := page_size Type_ in
      if Length >=? n then
        MapRange pTable VirtualAddress PhysicalAddress Length Flags Type_;;
        fit_loop fuel pTable (u64 (VirtualAddress + n)) (u64 (PhysicalAddress + n)) (Length - n) Flags Type_
      else mret (VirtualAddress, PhysicalAddress, Length)
  end.

Definition OptimizedMap (pTable VirtualAddress PhysicalAddress Length Flags : Z) (Fit FailOnModulo : bool) : K MapType :=
  if Fit then
    let fit r Type_ := let '(va, pa, n) := r in
      fit_loop (range_fuel (page_size Type_) n) pTable va pa n Flags Type_ in
    r ← fit (VirtualAddress, PhysicalAddress, Length) OneGiB;
    r ← fit r FourMiB;
    r ← fit r TwoMiB;
    fit r FourKiB;;
    mret FourKiB
  else
    let Type_ := if Length >=? page_size OneGiB then OneGiB
                 else if Length >=? page_size FourMiB then FourMiB
                 else if Length >=? page_size TwoMiB then TwoMiB
                 else FourKiB in
    if bool_decide (Type_ <> FourKiB) && negb (Length mod page_size Type_ =? 0) && FailOnModulo then mret NoMapType
    else MapRange pTable VirtualAddress PhysicalAddress Length Flags Type_;; mret Type_.

(** ** Tables of processes *)

(** [PageTable::Get]: the physical address of a byte; null when the page is
    not mapped. *)
Definition PageTable_Get (pTable Address : Z) : K Z :=
  PhysAddr ← GetPhysical pTable Address;
  if PhysAddr =? 0 then mret 0 else mret (u64 (PhysAddr + Z.land Address 0xFFF)).

(** [memcpy] of a table. *)
Definition copy_table (new old : Z) : K unit := kwrite (fun m => copy_up 4096 m new old).

(** A new table in a fresh frame for the entry [e], which was copied to [slot];
    [fill] copies the table below. *)
Definition fork_table (fill : Z -> Z -> K unit) (e slot : Z) : K unit :=
  t ← RequestPage;
  upd_entry slot (fun raw => SetAddress raw (Z.shiftr t 12));;
  fill (frame e) t.

(** The loop over the entries of a directory, with [deeper] for an entry that
    points to a table of the level below. *)
Definition fork_entries (deeper : Z -> Z -> K unit) (old new : Z) : K unit :=
  for_loop 512 0 (fun j =>
    e ← entry_at (old + 8 * j);
    set_entry (new + 8 * j) e;;
    if negb (Present e) then mret tt
    else if PageSize e then mret tt
    else deeper e (new + 8 * j)).

(** The loop over the entries of a page table. *)
Definition fork_pages (old new : Z) : K unit :=
  for_loop 512 0 (fun l => e ← entry_at (old + 8 * l); set_entry (new + 8 * l) e).

Definition Fork (pTable : Z) : K Z :=
  NewTable ← RequestPages (TO_PAGES 4096);
  copy_table NewTable pTable;;
  for_loop 512 0 (fun i =>
    e ← entry_at (pTable + 8 * i);
    if negb (Present e) then mret tt
    else fork_table (fork_entries (fork_table (fork_entries (fork_table fork_pages)))) e (NewTable + 8 * i));;
  mret NewTable.
