(* ===== verification/KTree.v ===== *)
(** * Trees of page tables

    What four levels of page tables in memory mean, apart from the code that
    builds them: the translation of the processor ([walk]), the trees of tables
    in which no table is shared ([tree]), and the effect of changing one entry
    of a tree ([focus]). *)

From S2P Require Import Prelude CMem CMonad CStruct KPhysical KPaging.

(** ** Entries *)

Lemma testbit_GetAddress raw k : 0 <= k -> Z.testbit (GetAddress raw) k = (k <? 40) && Z.testbit raw (k + 12).
Proof.
  intros Hk. unfold GetAddress. rewrite Z.shiftr_spec, Z.land_spec by lia.
  replace 0x000FFFFFFFFFF000 with (Z.shiftl (Z.ones 40) 12) by reflexivity.
  rewrite Z.shiftl_spec, Z.testbit_ones_nonneg by lia. replace (k + 12 - 12) with k by lia. apply andb_comm.
Qed.

Lemma testbit_frame raw k : 0 <= k -> Z.testbit (frame raw) k = (12 <=? k) && (k <? 52) && Z.testbit raw k.
Proof.
  intros Hk. unfold frame. rewrite testbit_shl by lia. destruct (Z.leb_spec 12 k).
  - rewrite testbit_GetAddress by lia. replace (k - 12 + 12) with k by lia.
    destruct (Z.ltb_spec (k - 12) 40), (Z.ltb_spec k 52); try lia; done.
  - by rewrite Z.testbit_neg_r by lia.
Qed.

Lemma frame_range raw : 0 <= frame raw < 2 ^ 52 /\ frame raw mod 4096 = 0.
Proof.
  split.
  - apply testbit_bound; [lia|]. intros k Hk. rewrite testbit_frame by lia.
    destruct (Z.ltb_spec k 52); [lia|]. by rewrite andb_false_r.
  - unfold frame. rewrite Z.shiftl_mul_pow2 by lia. apply Z_mod_mult.
Qed.

Lemma testbit_SetAddress raw a k : 0 <= k ->
  Z.testbit (SetAddress raw a) k = if (12 <=? k) && (k <? 52) then Z.testbit a (k - 12) else (k <? 64) && Z.testbit raw k.
Proof.
  intros Hk. unfold SetAddress. rewrite Z.lor_spec, Z.land_spec, testbit_shl, Z.land_spec by lia.
  replace 0xFFF0000000000FFF with (Z.lxor (Z.ones 64) (Z.shiftl (Z.ones 40) 12)) by reflexivity.
  change 0xFFFFFFFFFF with (Z.ones 40).
  rewrite Z.lxor_spec, testbit_shl, (Z.testbit_ones_nonneg 64) by lia.
  destruct (Z.leb_spec 12 k).
  - rewrite !(Z.testbit_ones_nonneg 40) by lia.
    destruct (Z.ltb_spec (k - 12) 40), (Z.ltb_spec k 52), (Z.ltb_spec k 64); try lia; cbn [andb xorb]; btauto.
  - rewrite !(Z.testbit_neg_r _ (k - 12)) by lia. destruct (Z.ltb_spec k 64); try lia; cbn [andb xorb]; btauto.
Qed.

Lemma frame_SetAddress raw p : 0 <= p < 2 ^ 52 -> p mod 4096 = 0 -> frame (SetAddress raw (Z.shiftr p 12)) = p.
Proof.
  intros Hp Hm. apply Z.bits_inj'. intros k Hk. rewrite testbit_frame, testbit_SetAddress by lia.
  destruct (Z.leb_spec 12 k), (Z.ltb_spec k 52); cbn [andb].
  - rewrite Z.shiftr_spec by lia. f_equal. lia.
  - symmetry. by apply (testbit_high p 52).
  - symmetry. rewrite (Z.div_mod p 4096), Hm, Z.add_0_r by lia. change 4096 with (2 ^ 12).
    rewrite Z.mul_comm, Z.mul_pow2_bits_low; [done|lia].
  - lia.
Qed.

Lemma SetAddress_low raw a k : 0 <= k < 12 -> Z.testbit (SetAddress raw a) k = Z.testbit raw k.
Proof.
  intros Hk. rewrite testbit_SetAddress by lia. destruct (Z.leb_spec 12 k), (Z.ltb_spec k 64); try lia. done.
Qed.

Lemma SetAddress_range raw a : in_u 64 (SetAddress raw a).
Proof.
  apply testbit_bound; [lia|]. intros k Hk. rewrite testbit_SetAddress by lia.
  destruct (Z.ltb_spec k 52), (Z.ltb_spec k 64); try lia. by rewrite andb_false_r.
Qed.

(** Flags of a directory leave its address and its page size alone. *)
Lemma lor_directory raw fl k : 6 <= k -> Z.testbit (Z.lor raw (Z.land fl 0x3F)) k = Z.testbit raw k.
Proof.
  intros Hk. rewrite Z.lor_spec, Z.land_spec. change 0x3F with (Z.ones 6). rewrite Z.testbit_ones_nonneg by lia.
  destruct (Z.ltb_spec k 6); [lia|]. by rewrite andb_false_r, orb_false_r.
Qed.

Lemma frame_ext raw raw' : (forall k, 12 <= k -> Z.testbit raw' k = Z.testbit raw k) -> frame raw' = frame raw.
Proof.
  intros H. apply Z.bits_inj'. intros k Hk. rewrite !testbit_frame by lia. destruct (Z.leb_spec 12 k); [|done].
  by rewrite H.
Qed.

Lemma lor_range w a b : 0 <= w -> in_u w a -> in_u w b -> in_u w (Z.lor a b).
Proof.
  intros Hw Ha Hb. apply testbit_bound; [done|]. intros k Hk.
  by rewrite Z.lor_spec, (testbit_high a w), (testbit_high b w).
Qed.

Lemma land_range w a b : 0 <= w -> in_u w a -> in_u w (Z.land a b).
Proof. intros Hw Ha. apply testbit_bound; [done|]. intros k Hk. by rewrite Z.land_spec, (testbit_high a w). Qed.

Lemma setbit_range w a k : 0 <= k < w -> in_u w a -> in_u w (Z.setbit a k).
Proof.
  intros Hk Ha. apply testbit_bound; [lia|]. intros j Hj. rewrite Z.setbit_eqb by lia.
  rewrite (testbit_high a w j Ha Hj). destruct (Z.eqb_spec k j); [lia|done].
Qed.

(** ** What the tables mean

    The translation that the processor makes: from the table [t] of level [l]
    (3 for the root, 0 for a page table) with the page number [vpn] of a
    virtual address.  The result is the entry of the page, with its level; the
    processor also cuts the rights of the page by those of the entries above it,
    which is not part of the result. *)

Definition ent (m : mem) (t i : Z) : Z := match load_le m (t + 8 * i) 8 with Ret v => v | _ => 0 end.

Definition index (l : nat) (vpn : Z) : Z := (vpn / 512 ^ Z.of_nat l) mod 512.

(** Only the two middle levels have large pages. *)
Definition large (l : nat) (e : Z) : bool := match l with 1%nat | 2%nat => PageSize e | _ => false end.
Definition is_dir (l : nat) (e : Z) : bool := Present e && negb (large l e).

Fixpoint walk (m : mem) (l : nat) (t vpn : Z) : option (nat * Z) :=
  let e := ent m t (index l vpn) in
  if Present e then
    match l with
    | O => Some (O, e)
    | S k => if large l e then Some (l, e) else walk m k (frame e) vpn
    end
  else None.

(** [F] are the tables of a tree: each of them is reached in one way only. *)
Definition table_ok (m : mem) (t : Z) : Prop := 0 < t < 2 ^ 52 /\ t mod 4096 = 0 /\ cells m t 4096.

Fixpoint tree (m : mem) (l : nat) (t : Z) (F : gset Z) : Prop :=
  table_ok m t /\
  match l with
  | O => forall x, x ∈ F <-> x = t
  | S k =>
      exists Fs : Z -> gset Z,
        (forall x, x ∈ F <-> x = t \/ exists i, 0 <= i < 512 /\ x ∈ Fs i) /\
        (forall i, 0 <= i < 512 -> ~ t ∈ Fs i) /\
        (forall i j x, 0 <= i < 512 -> 0 <= j < 512 -> x ∈ Fs i -> x ∈ Fs j -> i = j) /\
        (forall i, 0 <= i < 512 ->
          if is_dir l (ent m t i) then tree m k (frame (ent m t i)) (Fs i) else forall x, ~ x ∈ Fs i)
  end.

(** What is below an entry. *)
Definition below (m : mem) (l : nat) (e : Z) (F : gset Z) : Prop :=
  match l with
  | O => forall x, ~ x ∈ F
  | S k => if is_dir l e then tree m k (frame e) F else forall x, ~ x ∈ F
  end.

(** The entries that an address goes through are none of large pages. *)
Fixpoint small (m : mem) (l : nat) (t vpn : Z) : Prop :=
  match l with
  | O => True
  | S k =>
      let e := ent m t (index l vpn) in
      large l e = false /\ (Present e = true -> small m k (frame e) vpn)
  end.

(** The entry of the page of an address, present or not; 0 when there is no
    page table for it. *)
Fixpoint leaf (m : mem) (l : nat) (t vpn : Z) : Z :=
  let e := ent m t (index l vpn) in
  match l with
  | O => e
  | S k => if is_dir l e then leaf m k (frame e) vpn else 0
  end.

(** All three look at the entry where the way down ends. *)
Fixpoint stop (m : mem) (l : nat) (t vpn : Z) : nat * Z :=
  let e := ent m t (index l vpn) in
  match l with
  | O => (O, e)
  | S k => if is_dir l e then stop m k (frame e) vpn else (l, e)
  end.

Definition stop_entry (m : mem) (l : nat) (e vpn : Z) : nat * Z :=
  match l with
  | O => (O, e)
  | S k => if is_dir l e then stop m k (frame e) vpn else (l, e)
  end.

Lemma stop_unfold m l t vpn : stop m l t vpn = stop_entry m l (ent m t (index l vpn)) vpn.
Proof. by destruct l. Qed.

Definition stop_walk (w : nat * Z) : option (nat * Z) := if Present w.2 then Some w else None.
Definition stop_leaf (w : nat * Z) : Z := match w.1 with O => w.2 | S _ => 0 end.
Definition stop_small (w : nat * Z) : Prop := large w.1 w.2 = false.

Lemma walk_stop m l vpn : forall t, walk m l t vpn = stop_walk (stop m l t vpn).
Proof.
  induction l as [|l IH]; intros t; [done|]. cbn [walk stop]. unfold is_dir.
  set (e := ent m t (index (S l) vpn)). destruct (Present e) eqn:Hp; cbn [andb].
  - destruct (large (S l) e); cbn [negb]; [unfold stop_walk; cbn [snd]; by rewrite Hp|apply IH].
  - unfold stop_walk. cbn [snd]. by rewrite Hp.
Qed.

Lemma leaf_stop m l vpn : forall t, leaf m l t vpn = stop_leaf (stop m l t vpn).
Proof.
  induction l as [|l IH]; intros t; [done|]. cbn [leaf stop]. destruct (is_dir _ _); [apply IH|done].
Qed.

Lemma small_stop m l vpn : forall t, small m l t vpn <-> stop_small (stop m l t vpn).
Proof.
  induction l as [|l IH]; intros t; [done|]. cbn [small stop]. unfold is_dir.
  set (e := ent m t (index (S l) vpn)). destruct (Present e); cbn [andb].
  - destruct (large (S l) e) eqn:Hl; cbn [negb].
    + unfold stop_small. cbn [fst snd]. rewrite Hl. split; [by intros [? _]|done].
    + rewrite <- IH. split; [intros [_ H]; by apply H|by split].
  - unfold stop_small. cbn [fst snd]. split; [by intros [? _]|by split].
Qed.

Definition walk_entry (m : mem) (l : nat) (e vpn : Z) : option (nat * Z) :=
  if Present e then
    match l with
    | O => Some (O, e)
    | S k => if large l e then Some (l, e) else walk m k (frame e) vpn
    end
  else None.

Lemma walk_unfold m l t vpn : walk m l t vpn = walk_entry m l (ent m t (index l vpn)) vpn.
Proof. by destruct l. Qed.

(** What an address space shows to its users is kept. *)
Definition same_view (m m' : mem) (root vpn : Z) : Prop :=
  walk m' 3 root vpn = walk m 3 root vpn /\ leaf m' 3 root vpn = leaf m 3 root vpn /\
  (small m 3 root vpn -> small m' 3 root vpn).

Lemma same_view_trans m1 m2 m3 root vpn : same_view m1 m2 root vpn -> same_view m2 m3 root vpn -> same_view m1 m3 root vpn.
Proof. intros (W1 & L1 & S1) (W2 & L2 & S2). split_and!; [by rewrite W2|by rewrite L2|auto]. Qed.

Lemma stop_view m m' root vpn (w := stop m 3 root vpn) (w' := stop m' 3 root vpn) :
  stop_walk w' = stop_walk w -> stop_leaf w' = stop_leaf w -> (stop_small w -> stop_small w') -> same_view m m' root vpn.
Proof. intros. unfold same_view. by rewrite !walk_stop, !leaf_stop, !small_stop. Qed.

Lemma stop_same_view m m' root vpn : stop m' 3 root vpn = stop m 3 root vpn -> same_view m m' root vpn.
Proof. intros H. apply stop_view; by rewrite H. Qed.

(** Tables are whole pages. *)
Definition page_same (m m' : mem) (x : Z) : Prop := forall y, x <= y < x + 4096 -> m' !! y = m !! y.

Lemma index_range l vpn : 0 <= index l vpn < 512.
Proof. unfold index. apply Z.mod_pos_bound. lia. Qed.

Lemma ent_ext m m' t i : 0 <= i < 512 -> page_same m m' t -> ent m' t i = ent m t i.
Proof. intros Hi Hs. unfold ent. by rewrite (load_le_ext m m') by (intros x Hx; apply Hs; lia). Qed.

Lemma tree_root m l t F : tree m l t F -> t ∈ F /\ table_ok m t.
Proof.
  destruct l; intros [Ht H]; (split; [|done]).
  - by apply H.
  - destruct H as (Fs & HF & _). apply HF. by left.
Qed.

Lemma tree_tables m l : forall t F, tree m l t F -> forall x, x ∈ F -> table_ok m x.
Proof.
  induction l as [|l IH]; intros t F [Ht H] x Hx.
  - apply H in Hx as ->. done.
  - destruct H as (Fs & HF & _ & _ & Hc). apply HF in Hx as [->|(i & Hi & Hx)]; [done|].
    specialize (Hc i Hi). destruct (is_dir _ _); [by eapply IH|by apply Hc in Hx].
Qed.

Lemma tree_same m m' l : forall t F, (forall x, x ∈ F -> page_same m m' x) -> (forall x, x ∈ F -> cells m' x 4096) ->
  tree m l t F -> tree m' l t F /\ forall vpn, stop m' l t vpn = stop m l t vpn.
Proof.
  induction l as [|l IH]; intros t F Hs Hc HT; pose proof (tree_root _ _ _ _ HT) as [Ft Ht]; destruct HT as [_ H];
    pose proof (Hs t Ft) as Hst; assert (Ht' : table_ok m' t) by (destruct Ht as (Ha & Hb & _); split; [done|split; [done|by apply Hc]]).
  - split; [by split|]. intros vpn. cbn.
    by rewrite (ent_ext m m') by (apply index_range || done).
  - destruct H as (Fs & HF & Hr & Hd & Hch).
    assert (Hsub : forall i x, 0 <= i < 512 -> x ∈ Fs i -> x ∈ F) by (intros i x Hi Hx; apply HF; right; eauto).
    split.
    + split; [done|]. exists Fs. split_and!; [done|done|done|]. intros i Hi.
      rewrite (ent_ext m m') by done. specialize (Hch i Hi). destruct (is_dir _ _); [|done].
      apply IH; [..|done]; intros x Hx; [apply Hs|apply Hc]; by eapply Hsub.
    + intros vpn. rewrite !stop_unfold, (ent_ext m m') by (apply index_range || done). unfold stop_entry.
      specialize (Hch _ (index_range (S l) vpn)). destruct (is_dir _ _); [|done].
      apply (IH (frame (ent m t (index (S l) vpn))) (Fs (index (S l) vpn))); [..|done]; intros x Hx;
        [apply Hs|apply Hc]; (eapply Hsub; [apply index_range|exact Hx]).
Qed.
(** ** Changing one entry *)

(** The table [c] of level [l'] that the address [vpn] goes through. *)
Inductive reach (m : mem) (vpn : Z) : nat -> Z -> nat -> Z -> Prop :=
| reach_here l t : reach m vpn l t l t
| reach_down l t l' c : is_dir (S l) (ent m t (index (S l) vpn)) = true ->
    reach m vpn l (frame (ent m t (index (S l) vpn))) l' c -> reach m vpn (S l) t l' c.

Lemma reach_level m vpn l t l' c : reach m vpn l t l' c -> (l' <= l)%nat.
Proof. induction 1; lia. Qed.

(** Two addresses that share the entry of level [l'] below level [l]. *)
Definition agree (l l' : nat) (vpn vpn' : Z) : Prop := forall k, (l' <= k <= l)%nat -> index k vpn' = index k vpn.

#[export] Instance agree_dec l l' vpn vpn' : Decision (agree l l' vpn vpn').
Proof.
  destruct (decide (Forall (fun k => index k vpn' = index k vpn) (seq l' (S l - l')))) as [H|H];
    rewrite list.Forall_forall in H; [left|right].
  - intros k Hk. apply H, elem_of_seq. lia.
  - intros Ha. apply H. intros k Hk%elem_of_seq. apply Ha. lia.
Defined.

(** The memory changed in the entry of level [l'] of the table [c] and in what
    is below it only; [G] is below it now. *)
Record retarget (m m' : mem) (vpn : Z) (l' : nat) (c : Z) (F old G : gset Z) : Prop := {
  re_same x : x ∈ F -> ~ x ∈ old -> x <> c -> page_same m m' x;
  re_entry j : 0 <= j < 512 -> j <> index l' vpn -> ent m' c j = ent m c j;
  re_cells x : x ∈ F -> ~ x ∈ old -> cells m' x 4096;
  re_below : below m' l' (ent m' c (index l' vpn)) G;
  re_fresh x : x ∈ G -> x ∈ F -> x ∈ old
}.

Definition retargeted (F old G : gset Z) : gset Z := F ∖ old ∪ G.

Lemma elem_of_retargeted F old G x : x ∈ retargeted F old G <-> x ∈ F /\ ~ x ∈ old \/ x ∈ G.
Proof. unfold retargeted. set_solver. Qed.

Definition focused (m : mem) (vpn : Z) (l : nat) (t : Z) (l' : nat) (c : Z) (F old : gset Z) : Prop :=
  below m l' (ent m c (index l' vpn)) old /\ c ∈ F /\ ~ c ∈ old /\ (forall x, x ∈ old -> x ∈ F) /\
  forall m' G, retarget m m' vpn l' c F old G ->
    tree m' l t (retargeted F old G) /\ reach m' vpn l t l' c /\
    forall vpn', stop m' l t vpn' =
      if decide (agree l l' vpn vpn') then stop_entry m' l' (ent m' c (index l' vpn)) vpn' else stop m l t vpn'.

Lemma focus_here m vpn l t F : tree m l t F -> exists old, focused m vpn l t l t F old.
Proof.
  intros HT. pose proof (tree_root _ _ _ _ HT) as [Ft Ht].
  assert (Hok : forall m', cells m' t 4096 -> table_ok m' t) by (intros m' Hc; destruct Ht as (? & ? & _); by split).
  destruct l as [|l]; destruct HT as [_ HT].
  - exists ∅. split_and!; [intros x Hx; by apply elem_of_empty in Hx|done|set_solver|set_solver|]. intros m' G [Hs He Hc Hb Hf].
    split_and!; [|constructor|].
    + split; [apply Hok, Hc; [done|set_solver]|]. intros x. rewrite elem_of_retargeted, HT. cbn in Hb. specialize (Hb x). set_solver.
    + intros vpn'. rewrite !stop_unfold. case_decide as Ha.
      * by rewrite (Ha 0%nat).
      * assert (Hne : index 0 vpn' <> index 0 vpn).
        { intros E. apply Ha. intros k Hk. by replace k with 0%nat by lia. }
        by rewrite He by (apply index_range || done).
  - destruct HT as (Fs & HF & Hr & Hd & Hch). set (i := index (S l) vpn). pose proof (index_range (S l) vpn) as Hi. fold i in Hi.
    exists (Fs i). split_and!; [exact (Hch i Hi)|done|by apply Hr|intros x Hx; apply HF; eauto|].
    intros m' G [Hs He Hc Hb Hf]. fold i in He, Hb.
    assert (Hsub : forall j x, 0 <= j < 512 -> j <> i -> x ∈ Fs j -> x ∈ F /\ ~ x ∈ Fs i /\ x <> t).
    { intros j x Hj Hne Hx. split_and!; [apply HF; eauto|intros Hx'; by apply Hne, (Hd j i x)|].
      intros ->. by apply (Hr j Hj). }
    assert (Hsib : forall j, 0 <= j < 512 -> j <> i -> forall k, (if is_dir (S l) (ent m t j) then tree m l k (Fs j) else True) ->
      if is_dir (S l) (ent m t j) then tree m' l k (Fs j) /\ (forall vpn, stop m' l k vpn = stop m l k vpn) else True).
    { intros j Hj Hne k. destruct (is_dir _ _); [|done]. apply tree_same.
      - intros x Hx. destruct (Hsub j x Hj Hne Hx) as (? & ? & ?). by apply Hs.
      - intros x Hx. destruct (Hsub j x Hj Hne Hx) as (? & ? & ?). by apply Hc. }
    split_and!; [|constructor|].
    + split; [apply Hok, Hc; [done|by apply Hr]|].
      exists (fun j => if decide (j = i) then G else Fs j). split_and!.
      * intros x. rewrite elem_of_retargeted, HF. split.
        -- intros [[[->|(j & Hj & Hx)] Hn]|Hx]; [by left| |right; exists i; by rewrite decide_True].
           right. exists j. split; [done|]. rewrite decide_False; [done|]. by intros ->.
        -- intros [->|(j & Hj & Hx)]; [left; split; [by left|by apply Hr]|]. case_decide as Hji; [by right|].
           left. split; [right; eauto|]. intros Hx'. by apply Hji, (Hd j i x).
      * intros j Hj Hx. case_decide; [|by apply (Hr j)]. by apply (Hr i), (Hf t).
      * intros j k x Hj Hk Hx Hx'. destruct (decide (j = i)) as [Ej|Ej], (decide (k = i)) as [Ek|Ek]; [congruence|..|by apply (Hd j k x)].
        -- destruct (Hsub k x Hk Ek Hx') as (HFx & Hn & _). by destruct Hn; apply Hf.
        -- destruct (Hsub j x Hj Ej Hx) as (HFx & Hn & _). by destruct Hn; apply Hf.
      * intros j Hj. case_decide as Hji; [subst j; exact Hb|]. rewrite He by done. specialize (Hch j Hj).
        specialize (Hsib j Hj Hji (frame (ent m t j))). destruct (is_dir _ _); [by apply Hsib|done].
    + intros vpn'. rewrite !stop_unfold. case_decide as Ha; [by rewrite (Ha (S l)) by lia|].
      assert (Hne : index (S l) vpn' <> i).
      { intros E. apply Ha. intros k Hk. by replace k with (S l) by lia. }
      pose proof (index_range (S l) vpn') as Hi'. rewrite He by done. unfold stop_entry. specialize (Hch _ Hi').
      specialize (Hsib _ Hi' Hne (frame (ent m t (index (S l) vpn')))). destruct (is_dir _ _); [by apply Hsib|done].
Qed.

(** A change below an entry leaves the rest of a tree as it is. *)
Lemma focus m vpn l t l' c F : tree m l t F -> reach m vpn l t l' c -> exists old, focused m vpn l t l' c F old.
Proof.
  intros HT Hr. revert F HT. induction Hr as [l t|l t l' c Hdir Hr IH]; intros F HT; [by apply focus_here|].
  pose proof (tree_root _ _ _ _ HT) as [Ft Ht]. pose proof (reach_level _ _ _ _ _ _ Hr) as Hl.
  assert (Hok : forall m', cells m' t 4096 -> table_ok m' t) by (intros m' Hc; destruct Ht as (? & ? & _); by split).
  destruct HT as [_ (Fs & HF & Hnt & Hd & Hch)]. set (i := index (S l) vpn) in *.
  pose proof (index_range (S l) vpn) as Hi. fold i in Hi. pose proof (Hch i Hi) as Hci. rewrite Hdir in Hci.
  destruct (IH (Fs i) Hci) as (old & Hb & Hc & Hoc & Hold & Hfoc). exists old.
  assert (Hin : forall x, x ∈ Fs i -> x ∈ F) by (intros x Hx; apply HF; eauto).
  assert (Htc : t <> c) by (intros ->; by apply (Hnt i)).
  assert (Hto : ~ t ∈ old) by (intros Hx; by apply (Hnt i), Hold).
  split_and!; [done|by apply Hin|done|by intros x Hx; apply Hin, Hold|].
  intros m' G [Hs He Hcl Hbl Hf].
  assert (Hsub : forall j x, 0 <= j < 512 -> j <> i -> x ∈ Fs j -> x ∈ F /\ ~ x ∈ old /\ x <> c).
  { intros j x Hj Hne Hx. split_and!; [apply HF; eauto|intros Hx'; by apply Hne, (Hd j i x), Hold|].
    intros ->. by apply Hne, (Hd j i c). }
  assert (Hst : page_same m m' t) by (by apply Hs).
  destruct (Hfoc m' G) as (HT' & Hr' & Hw).
  { split; [..|done|]; [intros x Hx; by apply Hs, Hin|done|intros x Hx; by apply Hcl, Hin|]. intros x Hx Hx'. by apply Hf, Hin. }
  assert (Hent : forall j, 0 <= j < 512 -> ent m' t j = ent m t j) by (intros j Hj; by apply ent_ext).
  split_and!.
  - split; [by apply Hok, Hcl|]. exists (fun j => if decide (j = i) then retargeted (Fs i) old G else Fs j). split_and!.
    + intros x. rewrite elem_of_retargeted, HF. split.
      * intros [[[->|(j & Hj & Hx)] Hn]|Hx]; [by left|right; exists j|right; exists i]; (split; [done|]).
        -- case_decide as Hji; [subst j; apply elem_of_retargeted; auto|done].
        -- rewrite decide_True by done. apply elem_of_retargeted. auto.
      * intros [->|(j & Hj & Hx)]; [left; split; [by left|done]|]. case_decide as Hji.
        -- apply elem_of_retargeted in Hx as [[Hx Hn]|Hx]; [left; split; [right; eauto|done]|by right].
        -- left. split; [right; eauto|]. by apply (Hsub j x).
    + intros j Hj Hx. case_decide as Hji; [|by apply (Hnt j)].
      apply elem_of_retargeted in Hx as [[Hx _]|Hx]; [by apply (Hnt i)|]. by apply Hto, Hf.
    + assert (Hone : forall j x, 0 <= j < 512 -> j <> i -> x ∈ retargeted (Fs i) old G -> x ∈ Fs j -> False).
      { intros j x Hj Hne Hx Hx'. destruct (Hsub j x Hj Hne Hx') as (HFx & Hn & _).
        apply elem_of_retargeted in Hx as [[Hx _]|Hx]; [by apply Hne, (Hd j i x)|by apply Hn, Hf]. }
      intros j k x Hj Hk Hx Hx'. destruct (decide (j = i)) as [Ej|Ej], (decide (k = i)) as [Ek|Ek];
        [congruence|by destruct (Hone k x)|by destruct (Hone j x)|by apply (Hd j k x)].
    + intros j Hj. rewrite Hent by done. case_decide as Hji; [subst j; by rewrite Hdir|]. specialize (Hch j Hj).
      destruct (is_dir (S l) (ent m t j)); [|done]. apply (tree_same m); [..|done]; intros x Hx; destruct (Hsub j x Hj Hji Hx) as (? & ? & ?);
        [by apply Hs|by apply Hcl].
  - apply reach_down; fold i; rewrite Hent by done; done.
  - intros vpn'. rewrite (stop_unfold m'), (stop_unfold m), Hent by apply index_range.
    destruct (decide (index (S l) vpn' = i)) as [Ei|Ei].
    + rewrite Ei. unfold stop_entry at 1 3. rewrite Hdir, Hw. destruct (decide (agree l l' vpn vpn')) as [Ha|Ha].
      * rewrite decide_True; [done|]. intros k Hk. destruct (decide (k = S l)) as [->|]; [done|]. apply Ha. lia.
      * rewrite decide_False; [done|]. intros Ha'. apply Ha. intros k Hk. apply Ha'. lia.
    + rewrite decide_False by (intros Ha; apply Ei, Ha; lia). unfold stop_entry.
      pose proof (index_range (S l) vpn') as Hi'. specialize (Hch _ Hi'). destruct (is_dir (S l) (ent m t (index (S l) vpn'))); [|done].
      apply (tree_same m m' l _ (Fs (index (S l) vpn'))); [..|done]; intros x Hx;
        destruct (Hsub _ x Hi' Ei Hx) as (? & ? & ?); [by apply Hs|by apply Hcl].
Qed.

(** Where an address that goes through an entry ends. *)
Lemma reach_stop m vpn l t l' c vpn' : reach m vpn l t l' c -> agree l l' vpn vpn' ->
  stop m l t vpn' = stop_entry m l' (ent m c (index l' vpn)) vpn'.
Proof.
  induction 1 as [l t|l t l' c Hd Hr IH]; intros Ha; rewrite stop_unfold.
  - by rewrite (Ha l).
  - pose proof (reach_level _ _ _ _ _ _ Hr). rewrite (Ha (S l)) by lia. unfold stop_entry at 1. rewrite Hd.
    apply IH. intros k Hk. apply Ha. lia.
Qed.

Lemma reach_snoc m vpn l t l' c : reach m vpn l t (S l') c -> is_dir (S l') (ent m c (index (S l') vpn)) = true ->
  reach m vpn l t l' (frame (ent m c (index (S l') vpn))).
Proof.
  intros Hr Hd. remember (S l') as k eqn:Hk. induction Hr as [l t|l t k c Hd' Hr IH].
  - subst l. apply reach_down; [done|constructor].
  - apply reach_down; [done|]. by apply IH.
Qed.

Lemma leaf_reach m vpn l t c : reach m vpn l t 0 c -> leaf m l t vpn = ent m c (index 0 vpn).
Proof.
  intros Hr. remember 0%nat as k eqn:Hk. induction Hr as [l t|l t k c Hd Hr IH]; [by subst|].
  cbn [leaf]. rewrite Hd. by apply IH.
Qed.
