(* ===== verification/KVspace.v ===== *)
(** * Address spaces in physical memory

    The tables of an address space as a tree in the memory of the kernel, with
    the frames they take from the allocator ([vspace]), and what the single
    writes of the paging code do to it: setting the flags of a directory
    entry, putting a fresh table below an empty entry, and writing an entry of
    a page table. *)

From S2P Require Import Prelude CMem CMonad CStruct KPhysical KPmm KPaging KTree.

(** ** Entries in memory *)

Section entries.
Implicit Types (s : kst) (m : mem).

Lemma load_cells m a : cells m a 8 -> exists v, load_le m a 8 = Ret v /\ in_u 64 v.
Proof.
  intros (l & Hn & Hl)%(cells_bytes m a 8). exists (of_bytes l). split; [by apply load_le_at|].
  pose proof (of_bytes_range l (bytes_at_byte _ _ _ Hl)) as H. rewrite Hn in H. exact H.
Qed.

Lemma ent_spec m t i : cells m t 4096 -> 0 <= i < 512 -> load_le m (t + 8 * i) 8 = Ret (ent m t i) /\ in_u 64 (ent m t i).
Proof.
  intros Hc Hi. unfold ent. destruct (load_cells m (t + 8 * i)) as (v & -> & Hv); [eapply cells_sub; [exact Hc|lia|lia]|done].
Qed.

Lemma entry_go s t i : cells (kmem s) t 4096 -> 0 <= i < 512 -> entry_at (t + 8 * i) s = Ret (Go (ent (kmem s) t i), s).
Proof. intros Hc Hi. unfold entry_at, klook. by rewrite (proj1 (ent_spec _ _ _ Hc Hi)). Qed.

(** The memory after entry [i] of the table [t] has been set to [v]. *)
Definition put_entry m (t i v : Z) : mem := word_at m (t + 8 * i) v.

Lemma set_go' s t i v : cells (kmem s) t 4096 -> 0 <= i < 512 ->
  set_entry (t + 8 * i) v s = Ret (Go tt, set_kmem s (put_entry (kmem s) t i v)).
Proof.
  intros Hc Hi. unfold set_entry, kwrite, put_entry. rewrite store_word; [done|]. eapply cells_sub; [exact Hc|lia|lia].
Qed.

Lemma upd_go s t i f : cells (kmem s) t 4096 -> 0 <= i < 512 ->
  upd_entry (t + 8 * i) f s = Ret (Go tt, set_kmem s (put_entry (kmem s) t i (f (ent (kmem s) t i)))).
Proof. intros Hc Hi. unfold upd_entry. erewrite bind_go by (by apply entry_go). by apply set_go'. Qed.

Lemma put_entry_touched m t i v : cells m t 4096 -> 0 <= i < 512 -> touched (t + 8 * i) 8 m (put_entry m t i v).
Proof. intros Hc Hi. apply word_at_touched. eapply cells_sub; [exact Hc|lia|lia]. Qed.

Lemma ent_put_same m t i v : ent (put_entry m t i v) t i = u64 v.
Proof. unfold ent, put_entry. by rewrite load_word_at. Qed.

Lemma ent_put_other m t i v j : i <> j -> ent (put_entry m t i v) t j = ent m t j.
Proof.
  intros Hne. unfold ent, put_entry. rewrite (load_le_ext m); [done|]. intros x Hx.
  apply lookup_write_bytes_out. rewrite le_bytes_length. lia.
Qed.

Lemma put_put m t i v w : put_entry (put_entry m t i v) t i w = put_entry m t i w.
Proof.
  unfold put_entry, word_at. apply map_eq. intros x. rewrite !lookup_write_bytes, !le_bytes_length. by case_decide.
Qed.

Lemma put_cells m t i v a n : cells m t 4096 -> 0 <= i < 512 -> cells m a n -> cells (put_entry m t i v) a n.
Proof. intros Hc Hi. eapply touched_cells. by apply put_entry_touched. Qed.

(** Different tables do not overlap. *)
Lemma put_page_same m t i v x : 0 <= i < 512 -> t mod 4096 = 0 -> x mod 4096 = 0 -> x <> t ->
  page_same m (put_entry m t i v) x.
Proof.
  intros Hi Ht Hx Hne y Hy. apply lookup_write_bytes_out. rewrite le_bytes_length. dlia.
Qed.

(** A zeroed page. *)
Definition zero_page m (t : Z) : mem := write_bytes m t (replicate (Z.to_nat 4096) 0).

Lemma memset_go s t : cells (kmem s) t 4096 -> kmemset t 0 4096 s = Ret (Go tt, set_kmem s (zero_page (kmem s) t)).
Proof.
  intros Hc. unfold kmemset, kwrite, zero_page. change (u8 0) with 0. rewrite store_bytes_mapped; [reflexivity| |].
  - apply Forall_replicate. unfold byte. lia.
  - rewrite length_replicate, Z2Nat.id by lia. intros k Hk. destruct (Hc (t + k)) as (b & Hb & _); [lia|by eexists].
Qed.

Lemma lookup_zero_page m t x : zero_page m t !! x = if decide (t <= x < t + 4096) then Some 0 else m !! x.
Proof.
  unfold zero_page. rewrite lookup_write_bytes, length_replicate, Z2Nat.id by lia. case_decide; [|done].
  apply lookup_replicate_2. lia.
Qed.

Lemma ent_zero_page m t i : 0 <= i < 512 -> ent (zero_page m t) t i = 0.
Proof.
  intros Hi. unfold ent, load_le. assert (H : forall n a, t <= a -> a + Z.of_nat n <= t + 4096 ->
    load_bytes (zero_page m t) a n = Ret (replicate n 0)).
  { induction n as [|n IH]; intros a H1 H2; [done|]. cbn [load_bytes]. unfold load8.
    rewrite lookup_zero_page, decide_True by lia. cbn [obind]. rewrite IH by lia. done. }
  rewrite H by lia. done.
Qed.

Lemma zero_page_touched m t : touched t 4096 m (zero_page m t).
Proof.
  split.
  - intros x Hx. rewrite lookup_zero_page, decide_False by lia. done.
  - intros x b Hx Hb. rewrite lookup_zero_page. case_decide; [exists 0; split; [done|unfold byte; lia]|by exists b].
Qed.
End entries.

(** ** Address spaces

    The tables [F] of the address space with the root table [root] form a tree;
    their frames are in use.  Frame 0 and the frames of the bitmap are
    reserved.  [N] is the number of frames that exist: memory ends there, before
    the end of the bitmap. *)

Record vspace (s : kst) (U R : gset Z) (N root : Z) (F : gset Z) : Prop := {
  vs_holds : holds s U R;
  vs_tree : tree (kmem s) 3 root F;
  vs_own x : x ∈ F -> x / 4096 ∈ U;
  vs_bitmap x : Buffer (bm s) <= x < Buffer (bm s) + Size (bm s) -> x / 4096 ∈ R;
  vs_ram i : 0 <= i < N -> i ∉ R -> cells (kmem s) (4096 * i) 4096;
  vs_zero : 0 ∈ R;
  vs_top : N < frames s /\ forall x, 4096 * N <= x -> kmem s !! x = None
}.

(** The memory that belongs neither to the tables [F] nor to the bitmap. *)
Definition elsewhere (s : kst) (F : gset Z) (y : Z) : Prop :=
  (forall x, x ∈ F -> ~ x <= y < x + 4096) /\ ~ Buffer (bm s) <= y < Buffer (bm s) + Size (bm s).

(** [s'] has the same address space as [s], perhaps with more tables, and
    nothing else has changed. *)
Record grows (s : kst) (U : gset Z) (F : gset Z) (s' : kst) (U' : gset Z) (F' : gset Z) (R : gset Z) : Prop := {
  gr_used : U ⊆ U';
  gr_tables x : x ∈ F -> x ∈ F';
  gr_fresh x : x ∈ F' -> x ∈ F \/ x / 4096 ∉ U ∪ R;
  gr_bitmap : bm s' = bm s;
  gr_mem y : elsewhere s F' y -> kmem s' !! y = kmem s !! y
}.


Lemma page_frame x y : x mod 4096 = 0 -> x <= y < x + 4096 -> y / 4096 = x / 4096.
Proof. intros. dlia. Qed.

Lemma page_eq x y : x mod 4096 = 0 -> y mod 4096 = 0 -> x / 4096 = y / 4096 -> x = y.
Proof. intros. dlia. Qed.

Section vspace_laws.
Context (s : kst) (U R : gset Z) (N root : Z) (F : gset Z) (V : vspace s U R N root F).

Lemma vs_table x : x ∈ F -> table_ok (kmem s) x.
Proof using V. exact (tree_tables _ _ _ _ (vs_tree _ _ _ _ _ _ V) x). Qed.

(** A table is no part of the bitmap. *)
Lemma vs_apart x y : x ∈ F -> x <= y < x + 4096 -> ~ Buffer (bm s) <= y < Buffer (bm s) + Size (bm s).
Proof using V.
  intros Hx Hy Hb. destruct (vs_table x Hx) as (_ & Hm & _). pose proof (vs_bitmap _ _ _ _ _ _ V y Hb) as HR.
  rewrite (page_frame x y) in HR by done. pose proof (vs_own _ _ _ _ _ _ V x Hx) as HU.
  by apply (ho_apart _ _ _ (vs_holds _ _ _ _ _ _ V) (x / 4096)).
Qed.

Lemma outside_page s1 x : outside s s1 -> x ∈ F -> page_same (kmem s) (kmem s1) x.
Proof using V.
  intros Ho Hx y Hy. apply Ho. pose proof (vs_apart x y Hx Hy). lia.
Qed.

(** A frame that is not in use is no table. *)
Lemma fresh_table q : q ∉ U ∪ R -> 4096 * q ∉ F.
Proof using V. intros Hq Hx. apply (vs_own _ _ _ _ _ _ V) in Hx. rewrite frame_of in Hx. set_solver. Qed.
End vspace_laws.

Lemma tree_zero m l t : table_ok m t -> (forall i, 0 <= i < 512 -> ent m t i = 0) -> tree m l t {[t]}.
Proof.
  intros Ht Hz. destruct l; (split; [done|]); [set_solver|]. exists (fun _ => ∅). split_and!.
  - set_solver.
  - set_solver.
  - set_solver.
  - intros i Hi. rewrite Hz by done. intros x Hx. by apply elem_of_empty in Hx.
Qed.

Lemma stop_zero m l t vpn : (forall i, 0 <= i < 512 -> ent m t i = 0) -> stop m l t vpn = (l, 0).
Proof. intros Hz. rewrite stop_unfold, Hz by apply index_range. by destruct l as [|[|[|]]]. Qed.

Lemma large_zero l : large l 0 = false.
Proof. by destruct l as [|[|[|]]]. Qed.

Lemma small_zero m l t vpn : (forall i, 0 <= i < 512 -> ent m t i = 0) -> small m l t vpn.
Proof. intros Hz. rewrite small_stop, stop_zero by done. apply large_zero. Qed.

Lemma leaf_zero m l t vpn : (forall i, 0 <= i < 512 -> ent m t i = 0) -> leaf m l t vpn = 0.
Proof. intros Hz. rewrite leaf_stop, stop_zero by done. by destruct l. Qed.

(** ** Changing an entry of an address space *)

(** The same addresses are mapped, and they hold bytes. *)
Definition shape (m m' : mem) : Prop :=
  (forall x, m' !! x = None <-> m !! x = None) /\
  (forall x b, m !! x = Some b -> byte b -> exists b', m' !! x = Some b' /\ byte b').

Lemma shape_cells m m' a n : shape m m' -> cells m a n -> cells m' a n.
Proof. intros [_ H] Hc x Hx. destruct (Hc x Hx) as (b & Hb & Hbb). by apply (H x b). Qed.

Lemma shape_trans m1 m2 m3 : shape m1 m2 -> shape m2 m3 -> shape m1 m3.
Proof.
  intros [N1 B1] [N2 B2]. split; [intros x; by rewrite N2|]. intros x b Hx Hb.
  destruct (B1 x b Hx Hb) as (b' & Hx' & Hb'). by apply (B2 x b').
Qed.

Lemma outside_shape s s' : outside s s' -> shape (kmem s) (kmem s').
Proof. intros [_ _ H1 H2]. by split. Qed.

Lemma touched_shape m m' a n : cells m a n -> touched a n m m' -> shape m m'.
Proof.
  intros Hc [H1 H2]. split; [|done]. intros x. destruct (decide (a <= x < a + n)) as [Hx|Hx].
  - destruct (Hc x Hx) as (b & Hb & Hbb). destruct (H2 x b Hb Hbb) as (b' & Hb' & _). by rewrite Hb, Hb'.
  - by rewrite H1 by lia.
Qed.

Lemma retarget_vspace s U R N root F vpn l c : vspace s U R N root F -> reach (kmem s) vpn 3 root l c ->
  exists old, below (kmem s) l (ent (kmem s) c (index l vpn)) old /\ c ∈ F /\ c ∉ old /\ old ⊆ F /\
    forall s' U' G, holds s' U' R -> bm s' = bm s -> U ⊆ U' -> shape (kmem s) (kmem s') ->
      retarget (kmem s) (kmem s') vpn l c F old G -> (forall x, x ∈ G -> x / 4096 ∈ U') ->
      vspace s' U' R N root (retargeted F old G) /\ reach (kmem s') vpn 3 root l c /\
      forall vpn', stop (kmem s') 3 root vpn' =
        if decide (agree 3 l vpn vpn') then stop_entry (kmem s') l (ent (kmem s') c (index l vpn)) vpn'
        else stop (kmem s) 3 root vpn'.
Proof.
  intros V Hr. destruct (focus _ _ _ _ _ _ _ (vs_tree _ _ _ _ _ _ V) Hr) as (old & Hb & Hc & Hoc & Hold & Hfoc).
  exists old. split_and!; [done|done|done|done|]. intros s' U' G Hh Hbm HU Hs Hre HG.
  destruct (Hfoc _ _ Hre) as (HT & Hr' & Hw). split_and!; [|done|done].
  destruct V as [_ _ Vo Vb Vr Vz [Vt1 Vt2]]. split; try done.
  - intros x [[Hx _]|Hx]%elem_of_retargeted; [by apply HU, Vo|by apply HG].
  - by rewrite Hbm.
  - intros i Hi Hn. eapply shape_cells; [exact Hs|by apply Vr].
  - unfold frames. rewrite Hbm. split; [done|]. intros x Hx. by apply Hs, Vt2.
Qed.

Lemma retargeted_same F old : old ⊆ F -> retargeted F old old = F.
Proof.
  intros H. apply leibniz_equiv. intros x. rewrite elem_of_retargeted. destruct (decide (x ∈ old)); set_solver.
Qed.

Lemma retargeted_new F G : retargeted F ∅ G = F ∪ G.
Proof. unfold retargeted. by rewrite difference_empty_L. Qed.

(** Changes of the memory outside the bitmap do not matter to the frames. *)
Lemma holds_elsewhere s U R m' : holds s U R -> shape (kmem s) m' ->
  (forall y, Buffer (bm s) <= y < Buffer (bm s) + Size (bm s) -> m' !! y = kmem s !! y) -> holds (set_kmem s m') U R.
Proof.
  intros H Hsh Hm. destruct H as [[Hs Hf Hb] A Rg Bt Ix Fr Us Rs]. split; try done.
  - split; [done|done|]. by eapply shape_cells.
  - intros j Hj. change (0 <= j < Size (bm s) * 8) in Hj. rewrite <- Bt by done. unfold bit. cbn [kmem kphys set_kmem].
    rewrite Hm; [done|]. assert (0 <= j / 8 < Size (bm s)) by dlia. lia.
Qed.

(** Writing an entry does not change the frames. *)
Lemma holds_put s U R t i v : holds s U R -> cells (kmem s) t 4096 -> 0 <= i < 512 ->
  (forall y, t <= y < t + 4096 -> ~ Buffer (bm s) <= y < Buffer (bm s) + Size (bm s)) ->
  holds (set_kmem s (put_entry (kmem s) t i v)) U R.
Proof.
  intros H Hc Hi Hy. pose proof (put_entry_touched (kmem s) t i v Hc Hi) as Ht. apply holds_elsewhere; [done| |].
  - eapply touched_shape; [|exact Ht]. eapply cells_sub; [exact Hc|lia|lia].
  - intros y Hb. apply Ht. destruct (decide (t <= y < t + 4096)) as [Hin|]; [|lia]. by destruct (Hy y Hin).
Qed.
(** ** Going down one level *)

#[local] Opaque zero_page put_entry ent.

Section next.
Context (s : kst) (U R : gset Z) (N root vpn : Z) (F : gset Z) (l : nat) (c : Z).
Context (V : vspace s U R N root F) (Hr : reach (kmem s) vpn 3 root (S l) c).
Let i := index (S l) vpn.
Let e := ent (kmem s) c i.

Lemma reach_table : c ∈ F.
Proof using V Hr. destruct (retarget_vspace _ _ _ _ _ _ _ _ _ V Hr) as (old & _ & Hc & _). exact Hc. Qed.

(** The flags of an entry change, and what is below it stays. *)
Lemma change_flags v : in_u 64 v -> is_dir (S l) e = true -> is_dir (S l) v = true -> frame v = frame e ->
  let s' := set_kmem s (put_entry (kmem s) c i v) in
  vspace s' U R N root F /\ grows s U F s' U F R /\ (forall w, same_view (kmem s) (kmem s') root w) /\
  reach (kmem s') vpn 3 root l (frame e) /\ (small (kmem s) l (frame e) vpn -> small (kmem s') l (frame e) vpn) /\
  leaf (kmem s') l (frame e) vpn = leaf (kmem s) l (frame e) vpn.
Proof using V Hr.
  intros Hv He Hd Hf s'. destruct (retarget_vspace _ _ _ _ _ _ _ _ _ V Hr) as (old & Hb & Hc & Hoc & Hold & Hre).
  fold i e in Hb. pose proof (index_range (S l) vpn) as Hi. fold i in Hi.
  destruct (vs_table _ _ _ _ _ _ V c Hc) as (Hc1 & Hc2 & Hc3).
  assert (Hpg : forall x, x ∈ F -> x <> c -> page_same (kmem s) (kmem s') x).
  { intros x Hx Hne. destruct (vs_table _ _ _ _ _ _ V x Hx) as (_ & Hx2 & _). by apply put_page_same. }
  pose proof (put_entry_touched (kmem s) c i v Hc3 Hi) as Ht.
  assert (Hsh : shape (kmem s) (kmem s')) by (eapply touched_shape; [|exact Ht]; eapply cells_sub; [exact Hc3|lia|lia]).
  assert (Hcl : forall x, x ∈ F -> cells (kmem s') x 4096).
  { intros x Hx. eapply shape_cells; [exact Hsh|]. by destruct (vs_table _ _ _ _ _ _ V x Hx) as (_ & _ & ?). }
  assert (Hev : ent (kmem s') c i = v).
  { change (kmem s') with (put_entry (kmem s) c i v). rewrite ent_put_same. by apply uw_small. }
  cbn [below] in Hb. rewrite He in Hb.
  assert (Hbt : tree (kmem s') l (frame e) old /\ forall w, stop (kmem s') l (frame e) w = stop (kmem s) l (frame e) w).
  { apply tree_same; [..|done]; intros x Hx; [apply Hpg; [by apply Hold|by intros ->]|by apply Hcl, Hold]. }
  destruct (Hre s' U old) as (V' & Hr' & Hw).
  - apply holds_put; [apply V|done|done|]. intros y Hy. by eapply vs_apart.
  - done.
  - done.
  - done.
  - split.
    + intros x Hx _ Hne. by apply Hpg.
    + intros j Hj Hne. change (kmem s') with (put_entry (kmem s) c i v). apply ent_put_other. by apply not_eq_sym.
    + intros x Hx _. by apply Hcl.
    + fold i. rewrite Hev. cbn [below]. rewrite Hd, Hf. apply Hbt.
    + done.
  - intros x Hx. eapply vs_own; [exact V|by apply Hold].
  - rewrite retargeted_same in V' by done. fold i in Hw. rewrite Hev in Hw. split_and!; [done| | | | |].
    + split; [done|done|by left|done|]. intros y [Hy _]. apply Ht. specialize (Hy c Hc). lia.
    + intros vpn'. apply stop_same_view. rewrite Hw. case_decide as Ha; [|done].
      rewrite (reach_stop _ _ _ _ _ _ vpn' Hr Ha). fold i e. unfold stop_entry. rewrite Hd, He, Hf. apply Hbt.
    + rewrite <- Hf. rewrite <- Hev. apply reach_snoc; [done|]. fold i. by rewrite Hev.
    + rewrite !small_stop. by rewrite (proj2 Hbt).
    + rewrite !leaf_stop. by rewrite (proj2 Hbt).
Qed.

(** A new table: the fresh page [p], zeroed, is put below an empty entry. *)
Lemma link_table s1 q v : outside s s1 -> holds s1 (run q 2 ∪ U) R -> fits U R 2 q -> 0 <= q < N -> 0 < q < 2 ^ 40 ->
  Present e = false -> in_u 64 v -> is_dir (S l) v = true -> frame v = 4096 * q ->
  let p := 4096 * q in
  let s' := set_kmem s1 (put_entry (zero_page (kmem s1) p) c i v) in
  vspace s' (run q 2 ∪ U) R N root (F ∪ {[p]}) /\ grows s U F s' (run q 2 ∪ U) (F ∪ {[p]}) R /\
  (forall w, same_view (kmem s) (kmem s') root w) /\ reach (kmem s') vpn 3 root l p /\ small (kmem s') l p vpn /\ leaf (kmem s') l p vpn = 0.
Proof using V Hr.
  intros Ho Hh Hfit HqN Hq He Hv Hd Hf p s'.
  destruct (retarget_vspace _ _ _ _ _ _ _ _ _ V Hr) as (old & Hb & Hc & Hoc & Hold & Hre).
  fold i e in Hb. pose proof (index_range (S l) vpn) as Hi. fold i in Hi.
  assert (Ho0 : old = ∅).
  { apply leibniz_equiv. intros x. cbn [below] in Hb. unfold is_dir in Hb. rewrite He in Hb. split; [intros Hx; by destruct (Hb x)|by intros ?%elem_of_empty]. }
  subst old. assert (HpF : p ∉ F) by (eapply fresh_table; [exact V|]; apply Hfit; lia).
  assert (Hpm : p mod 4096 = 0) by (unfold p; dlia). assert (Hpc : p <> c) by (by intros ->).
  assert (HqR : q ∉ R) by (intros HR; apply (Hfit q); [lia|by apply elem_of_union_r]).
  destruct (vs_table _ _ _ _ _ _ V c Hc) as (Hc1 & Hc2 & Hc3).
  pose proof (outside_shape _ _ Ho) as Hsh1. pose proof (shape_cells _ _ _ _ Hsh1 Hc3) as Hc31.
  pose proof (shape_cells _ _ _ _ Hsh1 (vs_ram _ _ _ _ _ _ V q HqN HqR)) as Hp1. fold p in Hp1.
  pose proof (zero_page_touched (kmem s1) p) as Htz. pose proof (touched_shape _ _ _ _ Hp1 Htz) as Hshz.
  pose proof (shape_cells _ _ _ _ Hshz Hc31) as Hc3z.
  pose proof (put_entry_touched _ c i v Hc3z Hi) as Htp.
  assert (Hshp : shape (zero_page (kmem s1) p) (kmem s')) by (eapply touched_shape; [|exact Htp]; eapply cells_sub; [exact Hc3z|lia|lia]).
  assert (Hsh : shape (kmem s) (kmem s')) by (eapply shape_trans; [exact Hsh1|]; by eapply shape_trans).
  assert (Hpz : forall x, x mod 4096 = 0 -> x <> p -> page_same (kmem s1) (zero_page (kmem s1) p) x).
  { intros x Hx Hne y Hy. apply Htz. dlia. }
  assert (Hpg : forall x, x ∈ F -> x <> c -> page_same (kmem s) (kmem s') x).
  { intros x Hx Hne y Hy. destruct (vs_table _ _ _ _ _ _ V x Hx) as (_ & Hx2 & _).
    transitivity (zero_page (kmem s1) p !! y); [by apply (put_page_same _ c i v x)|].
    transitivity (kmem s1 !! y); [apply (Hpz x); [done|by intros ->|done]|]. by eapply (outside_page s). }
  assert (Hev : ent (kmem s') c i = v).
  { change (kmem s') with (put_entry (zero_page (kmem s1) p) c i v). rewrite ent_put_same. by apply uw_small. }
  assert (Hez : forall j, 0 <= j < 512 -> ent (kmem s') p j = 0).
  { intros j Hj. rewrite (ent_ext (zero_page (kmem s1) p)); [by apply ent_zero_page|done|]. by apply put_page_same. }
  assert (Hb' : forall y, Buffer (bm s1) <= y < Buffer (bm s1) + Size (bm s1) -> kmem s' !! y = kmem s1 !! y).
  { intros y Hy. rewrite (ou_bitmap _ _ Ho) in Hy. pose proof (vs_bitmap _ _ _ _ _ _ V y Hy) as HyR.
    transitivity (zero_page (kmem s1) p !! y).
    - apply Htp. pose proof (vs_apart _ _ _ _ _ _ V c y Hc) as Hna. destruct (decide (c <= y < c + 4096)) as [Hin|]; [|lia].
      by destruct (Hna Hin).
    - apply Htz. destruct (Z_lt_le_dec y p), (Z_lt_le_dec y (p + 4096)); [by left|by left| |by right].
      rewrite (page_frame p y Hpm ltac:(lia)) in HyR. unfold p in HyR. rewrite frame_of in HyR. exfalso. exact (HqR HyR). }
  assert (Htp' : table_ok (kmem s') p).
  { split; [unfold p; lia|]. split; [done|]. eapply shape_cells; [exact Hshp|]. exact (shape_cells _ _ _ _ Hshz Hp1). }
  destruct (Hre s' (run q 2 ∪ U) {[p]}) as (V' & Hr' & Hw).
  - apply holds_elsewhere; [done|by eapply shape_trans|exact Hb'].
  - apply Ho.
  - apply union_subseteq_r.
  - done.
  - split.
    + intros x Hx _ Hne. by apply Hpg.
    + intros j Hj Hne. change (kmem s') with (put_entry (zero_page (kmem s1) p) c i v).
      rewrite ent_put_other by (by apply not_eq_sym). apply ent_ext; [done|]. intros y Hy.
      transitivity (kmem s1 !! y); [by apply (Hpz c)|by eapply (outside_page s)].
    + intros x Hx _. eapply shape_cells; [exact Hsh|]. by destruct (vs_table _ _ _ _ _ _ V x Hx) as (_ & _ & ?).
    + fold i. rewrite Hev. cbn [below]. rewrite Hd, Hf. by apply tree_zero.
    + intros x ->%elem_of_singleton Hx. by destruct (HpF Hx).
  - intros x ->%elem_of_singleton. unfold p. rewrite frame_of, elem_of_union, elem_of_run. left. lia.
  - rewrite retargeted_new in V'. fold i in Hw. rewrite Hev in Hw. split_and!; [done| | | | |].
    + split; [apply union_subseteq_r|intros x Hx; by apply elem_of_union_l| |apply Ho|].
      * intros x [Hx| ->%elem_of_singleton]%elem_of_union; [by left|right]. unfold p. rewrite frame_of. apply Hfit. lia.
      * intros y [Hy Hby]. transitivity (zero_page (kmem s1) p !! y).
        { apply Htp. pose proof (Hy c ltac:(by apply elem_of_union_l)). lia. }
        transitivity (kmem s1 !! y); [apply Htz; pose proof (Hy p ltac:(by apply elem_of_union_r, elem_of_singleton)); lia|]. apply Ho. lia.
    + intros vpn'. specialize (Hw vpn'). case_decide as Ha; [|by apply stop_same_view].
      pose proof (reach_stop _ _ _ _ _ _ vpn' Hr Ha) as Hold'. fold i e in Hold'. unfold stop_entry in Hold', Hw.
      assert (He' : is_dir (S l) e = false) by (unfold is_dir; by rewrite He).
      rewrite He' in Hold'. rewrite Hd, Hf in Hw. fold p in Hw. rewrite (stop_zero (kmem s') l p vpn' Hez) in Hw. apply stop_view; rewrite Hw, Hold'.
      * unfold stop_walk. cbn [snd]. by rewrite He.
      * by destruct l.
      * intros _. apply large_zero.
    + unfold p. rewrite <- Hf, <- Hev. apply reach_snoc; [done|]. fold i. by rewrite Hev.
    + by apply small_zero.
    + by apply leaf_zero.
Qed.
End next.

(** An entry of a page table is written. *)
Lemma write_page s U R N root vpn F c v (i := index 0 vpn) : vspace s U R N root F -> reach (kmem s) vpn 3 root 0 c -> in_u 64 v ->
  let s' := set_kmem s (put_entry (kmem s) c i v) in
  vspace s' U R N root F /\ grows s U F s' U F R /\ reach (kmem s') vpn 3 root 0 c /\
  forall vpn', stop (kmem s') 3 root vpn' = if decide (agree 3 0 vpn vpn') then (0%nat, v) else stop (kmem s) 3 root vpn'.
Proof.
  intros V Hr Hv s'. destruct (retarget_vspace _ _ _ _ _ _ _ _ _ V Hr) as (old & Hb & Hc & Hoc & Hold & Hre).
  assert (Ho0 : old = ∅).
  { apply leibniz_equiv. intros x. cbn [below] in Hb. split; [intros Hx; by destruct (Hb x)|by intros ?%elem_of_empty]. }
  subst old. pose proof (index_range 0 vpn) as Hi. fold i in Hi. destruct (vs_table _ _ _ _ _ _ V c Hc) as (Hc1 & Hc2 & Hc3).
  pose proof (put_entry_touched (kmem s) c i v Hc3 Hi) as Ht.
  assert (Hsh : shape (kmem s) (kmem s')) by (eapply touched_shape; [|exact Ht]; eapply cells_sub; [exact Hc3|lia|lia]).
  assert (Hev : ent (kmem s') c i = v).
  { change (kmem s') with (put_entry (kmem s) c i v). rewrite ent_put_same. by apply uw_small. }
  destruct (Hre s' U ∅) as (V' & Hr' & Hw).
  - apply holds_put; [apply V|done|done|]. intros y Hy. by eapply vs_apart.
  - done.
  - done.
  - done.
  - split.
    + intros x Hx _ Hne. destruct (vs_table _ _ _ _ _ _ V x Hx) as (_ & Hx2 & _). by apply put_page_same.
    + intros j Hj Hne. change (kmem s') with (put_entry (kmem s) c i v). apply ent_put_other. by apply not_eq_sym.
    + intros x Hx _. eapply shape_cells; [exact Hsh|]. by destruct (vs_table _ _ _ _ _ _ V x Hx) as (_ & _ & ?).
    + intros x Hx. by apply elem_of_empty in Hx.
    + intros x Hx. by apply elem_of_empty in Hx.
  - intros x Hx. by apply elem_of_empty in Hx.
  - rewrite retargeted_new, union_empty_r_L in V'. fold i in Hw. rewrite Hev in Hw. split_and!; [done| |done|exact Hw].
    split; [done|done|by left|done|]. intros y [Hy _]. apply Ht. specialize (Hy c Hc). lia.
Qed.
