(* ===== verification/KVmm.v ===== *)
(** * Mapping pages: theorems

    [Map], [Remap], [Unmap] and the queries of [KPaging] on address spaces as
    [KVspace] describes them: what the three steps down to a page table do
    ([path_to]), the entry that ends up in the page table, and that the
    processor's walk changes for that page only. *)

From S2P Require Import Prelude CMem CMonad CStruct KPhysical KPmm KPaging KTree KVspace.

(** ** The code of a level *)

Lemma next_table_present s t i DF (e := ent (kmem s) t i) : cells (kmem s) t 4096 -> 0 <= i < 512 -> Present e = true ->
  next_table (t + 8 * i) DF s = Ret (Go (frame e), set_kmem s (put_entry (kmem s) t i (Z.lor e DF))).
Proof.
  intros Hc Hi He. unfold next_table. erewrite bind_go by (by apply entry_go). cbv beta. fold e. rewrite He. cbn [negb].
  erewrite bind_go by reflexivity. cbv beta. by erewrite bind_go by (by apply upd_go).
Qed.

(** The entry of a new table. *)
Definition new_entry (e p DF : Z) : Z := Z.lor (SetAddress (Z.setbit e 0) (Z.shiftr p 12)) DF.

Lemma next_table_absent s s1 t i p DF (e := ent (kmem s) t i) : cells (kmem s) t 4096 -> 0 <= i < 512 -> Present e = false ->
  RequestPages 2 s = Ret (Go p, s1) -> cells (kmem s1) p 4096 -> cells (kmem s1) t 4096 -> page_same (kmem s) (kmem s1) t ->
  t mod 4096 = 0 -> p mod 4096 = 0 -> p <> t ->
  next_table (t + 8 * i) DF s = Ret (Go p, set_kmem s1 (put_entry (zero_page (kmem s1) p) t i (new_entry e p DF))).
Proof.
  intros Hc Hi He Hreq Hp Ht Hs Htm Hpm Hne. unfold next_table. erewrite bind_go by (by apply entry_go). cbv beta. fold e.
  rewrite He. cbn [negb]. change (TO_PAGES (4096 + 1)) with 2. pose proof (zero_page_touched (kmem s1) p) as Htz.
  assert (Hcz : cells (zero_page (kmem s1) p) t 4096) by (by eapply touched_cells).
  assert (Hez : ent (zero_page (kmem s1) p) t i = e).
  { unfold e. rewrite (ent_ext (kmem s1)); [by apply ent_ext|done|]. intros y Hy. apply Htz. dlia. }
  assert (Hb : in_u 64 e) by (exact (proj2 (ent_spec _ _ _ Hc Hi))).
  pose proof (setbit_range 64 e 0 ltac:(lia) Hb) as Hb1.
  pose proof (SetAddress_range (Z.setbit e 0) (Z.shiftr p 12)) as Hb2.
  erewrite bind_go.
  2:{ erewrite bind_go by exact Hreq. cbv beta. erewrite bind_go by (by apply memset_go). cbv beta.
      erewrite bind_go by (by apply upd_go). cbv beta.
      cbn [kmem set_kmem]. rewrite Hez.
      erewrite bind_go by (apply upd_go; [by apply put_cells|done]). cbv beta. cbn [kmem set_kmem].
      rewrite ent_put_same, uw_small by done.
      rewrite put_put. reflexivity. }
  cbv beta. erewrite bind_go by (apply upd_go; [by apply put_cells|done]). cbn [kmem set_kmem].
  rewrite ent_put_same, uw_small by done.
  rewrite put_put. reflexivity.
Qed.

(** Memory past the end faults. *)
Lemma memset_fault s a : kmem s !! a = None -> kmemset a 0 4096 s = Fault.
Proof.
  intros Ha. unfold kmemset, kwrite. change (Z.to_nat 4096) with (S (Z.to_nat 4095)). cbn [replicate store_bytes].
  unfold store8. by rewrite Ha.
Qed.

(** A new table is made in a frame that the allocator has given, and that
    exists. *)
Lemma next_table_request s t i DF t' s' : cells (kmem s) t 4096 -> 0 <= i < 512 -> Present (ent (kmem s) t i) = false ->
  next_table (t + 8 * i) DF s = Ret (Go t', s') ->
  exists p s1 b, RequestPages 2 s = Ret (Go p, s1) /\ kmem s1 !! p = Some b.
Proof.
  intros Hc Hi He E. unfold next_table in E. erewrite bind_go in E by (by apply entry_go). cbv beta in E.
  rewrite He in E. cbn [negb] in E. change (TO_PAGES (4096 + 1)) with 2 in E.
  destruct (RequestPages 2 s) as [[[p|st] s1]| |] eqn:Er.
  - exists p, s1. destruct (kmem s1 !! p) as [b|] eqn:Eb; [by exists b|]. erewrite bind_fault in E; [done|].
    erewrite bind_go by exact Er. apply bind_fault. by apply memset_fault.
  - erewrite bind_exit in E by (by eapply bind_exit). done.
  - erewrite bind_fault in E by (by apply bind_fault). done.
  - erewrite bind_stuck in E by (by apply bind_stuck). done.
Qed.

(** ** The step to the next level of an address space *)

Lemma large_bit l v v' : Z.testbit v' 7 = Z.testbit v 7 -> large l v' = large l v.
Proof. intros H. unfold large, PageSize. by destruct l as [|[|[|]]]. Qed.

Lemma is_dir_directory l v fl : Z.testbit fl 0 = true -> large l v = false -> is_dir l (Z.lor v (Z.land fl 0x3F)) = true.
Proof.
  intros Hfl Hv. unfold is_dir, Present. rewrite Z.lor_spec, Z.land_spec, Hfl. change (Z.testbit 0x3F 0) with true.
  rewrite andb_true_r, orb_true_r. cbn [andb]. rewrite (large_bit l v); [by rewrite Hv|]. by apply lor_directory.
Qed.

Lemma directory_range v fl : in_u 64 v -> in_u 64 (Z.lor v (Z.land fl 0x3F)).
Proof.
  intros Hv. apply lor_range; [lia|done|]. rewrite Z.land_comm. apply land_range; [lia|]. unfold in_u. lia.
Qed.

(** There are pages for [n] more tables. *)
Definition supply (s : kst) (U R : gset Z) (N n : Z) : Prop := exists q, stock s U R q (2 * n) /\ q + 2 * n <= N.

Section level.
Context (s : kst) (U R : gset Z) (N root vpn fl : Z) (F : gset Z) (l : nat) (c : Z).
Context (V : vspace s U R N root F) (Hr : reach (kmem s) vpn 3 root (S l) c).
Context (Hfl : Z.testbit fl 0 = true).
Let i := index (S l) vpn.
Let e := ent (kmem s) c i.
Context (Hsmall : small (kmem s) (S l) c vpn).

Definition descends (t : Z) (s' : kst) (U' F' : gset Z) : Prop :=
  vspace s' U' R N root F' /\ grows s U F s' U' F' R /\ (forall w, same_view (kmem s) (kmem s') root w) /\
  reach (kmem s') vpn 3 root l t /\ small (kmem s') l t vpn /\ leaf (kmem s') l t vpn = leaf (kmem s) (S l) c vpn.

Lemma entry_ok : cells (kmem s) c 4096 /\ 0 <= i < 512 /\ in_u 64 e /\ c mod 4096 = 0.
Proof using V Hr.
  pose proof (reach_table _ _ _ _ _ _ _ _ _ V Hr) as Hc. destruct (vs_table _ _ _ _ _ _ V c Hc) as (_ & Hm & Hcc).
  pose proof (index_range (S l) vpn) as Hi. fold i in Hi. split_and!; try done; try lia. exact (proj2 (ent_spec _ _ _ Hcc Hi)).
Qed.

(** The table exists, *)
Lemma next_table_old : Present e = true ->
  exists s', next_table (c + 8 * i) (Z.land fl 0x3F) s = Ret (Go (frame e), s') /\ descends (frame e) s' U F /\ kphys s' = kphys s.
Proof using V Hr Hfl Hsmall.
  intros He. destruct entry_ok as (Hc & Hi & He64 & Hcm). eexists. split; [by apply next_table_present|]. split; [|done].
  destruct Hsmall as [Hl Hs]. fold i e in Hl, Hs.
  destruct (change_flags _ _ _ _ _ _ _ _ _ V Hr (Z.lor e (Z.land fl 0x3F))) as (V' & Hg & Hw & Hr' & Hs' & Hlf).
  - by apply directory_range.
  - unfold is_dir. fold i e. by rewrite He, Hl.
  - by apply is_dir_directory.
  - apply frame_ext. intros k Hk. apply lor_directory. lia.
  - split_and!; [done|done|done|done|by apply Hs', Hs|].
    etransitivity; [exact Hlf|]. cbn [leaf]. fold i e. unfold is_dir. by rewrite He, Hl.
Qed.

(** or it is made from a fresh frame. *)
Lemma next_table_new s1 q : Present e = false -> RequestPages 2 s = Ret (Go (4096 * q), s1) ->
  pages_found s U R 2 q s1 -> 0 <= q < N ->
  exists s', next_table (c + 8 * i) (Z.land fl 0x3F) s = Ret (Go (4096 * q), s') /\
    descends (4096 * q) s' (run q 2 ∪ U) (F ∪ {[4096 * q]}) /\ kphys s' = kphys s1.
Proof using V Hr Hfl Hsmall.
  intros He Er (Hcq & Hqf & Hfit & Hh & Ho & _) HqN. destruct entry_ok as (Hc & Hi & He64 & Hcm).
  pose proof (vs_holds _ _ _ _ _ _ V) as H. pose proof (holds_frames _ _ _ H) as Hfr.
  assert (Hq0 : q <> 0).
  { intros ->. apply (Hfit 0); [lia|]. apply elem_of_union_r. apply V. }
  destruct (link_table _ _ _ _ _ _ _ _ _ V Hr s1 q (new_entry e (4096 * q) (Z.land fl 0x3F)) Ho Hh Hfit HqN ltac:(lia) He)
    as (V' & Hg & Hw & Hr' & Hs' & Hlf).
  - apply directory_range, SetAddress_range.
  - apply is_dir_directory; [done|]. rewrite (large_bit _ e); [apply Hsmall|].
    rewrite SetAddress_low, Z.setbit_neq by lia. done.
  - rewrite <- (frame_SetAddress (Z.setbit e 0) (4096 * q)) at 2 by (lia || dlia).
    apply frame_ext. intros k Hk. apply lor_directory. lia.
  - exists (set_kmem s1 (put_entry (zero_page (kmem s1) (4096 * q)) c i (new_entry e (4096 * q) (Z.land fl 0x3F)))).
    split; [apply next_table_absent; [done|done|exact He|exact Er|..]|split; [|reflexivity]; split_and!; [exact V'|exact Hg|exact Hw|exact Hr'|exact Hs'|]].
    + eapply outside_cells; [exact Ho|]. apply V; [done|]. intros HR. apply (Hfit q); [lia|by apply elem_of_union_r].
    + by eapply outside_cells.
    + eapply (outside_page s); [exact V|done|]. by eapply reach_table.
    + done.
    + dlia.
    + intros Hpc. apply (fresh_table _ _ _ _ _ _ V q); [apply Hfit; lia|]. rewrite Hpc. by eapply reach_table.
    + etransitivity; [exact Hlf|]. cbn [leaf]. fold i e. unfold is_dir. by rewrite He.
Qed.

(** So the step is right whenever it returns, *)
Lemma next_table_go t s' : next_table (c + 8 * i) (Z.land fl 0x3F) s = Ret (Go t, s') ->
  exists U' F', descends t s' U' F'.
Proof using V Hr Hfl Hsmall.
  intros E. destruct entry_ok as (Hc & Hi & He64 & Hcm). destruct (Present e) eqn:He.
  - destruct (next_table_old He) as (s1 & E1 & Hd & _). rewrite E1 in E. injection E as <- <-. eauto.
  - pose proof (vs_holds _ _ _ _ _ _ V) as H. pose proof (vs_top _ _ _ _ _ _ V) as [HN Htop].
    destruct (next_table_request _ _ _ _ _ _ Hc Hi He E) as (p & s1 & b & Er & Hb).
    destruct (RequestPages_law _ _ _ 2 _ _ H ltac:(lia) Er) as (q & -> & Hq).
    assert (HqN : 0 <= q < N).
    { assert (Hc0 : 0 <= cursor s) by (pose proof (ho_index _ _ _ H) as Hx; unfold in_u in Hx; lia).
      assert (Hnone : forall x, kmem s1 !! x = None <-> kmem s !! x = None).
      { destruct Hq as [(_ & _ & _ & _ & Ho & _)|[_ [_ Hs]]]; [apply Ho|done]. }
      destruct (Z_lt_le_dec q N) as [|Hge]; [destruct Hq as [(? & _)|[(? & _) _]]; lia|].
      rewrite (proj2 (Hnone (4096 * q)) (Htop (4096 * q) ltac:(lia))) in Hb. done. }
    destruct Hq as [Hq|[(? & ? & _) _]]; [|lia].
    destruct (next_table_new s1 q He Er Hq HqN) as (s2 & E2 & Hd & _). rewrite E2 in E. injection E as <- <-. eauto.
Qed.

(** and it returns when there are frames for it. *)
Lemma next_table_supply n : 0 <= n -> supply s U R N (n + 1) ->
  exists t s' U' F', next_table (c + 8 * i) (Z.land fl 0x3F) s = Ret (Go t, s') /\ descends t s' U' F' /\ supply s' U' R N n.
Proof using V Hr Hfl Hsmall.
  intros Hn (q & (Hcq & Hqf & Hfit & Hj) & HqN). pose proof (vs_holds _ _ _ _ _ _ V) as H.
  pose proof (ho_index _ _ _ H) as Hix. unfold in_u in Hix. destruct (Present e) eqn:He.
  - destruct (next_table_old He) as (s1 & E1 & Hd & Hp). exists (frame e), s1, U, F. split_and!; [done|done|].
    pose proof (gr_bitmap _ _ _ _ _ _ _ (proj1 (proj2 Hd))) as Hbm.
    exists q. split; [|lia]. unfold stock, frames. rewrite Hbm, Hp. split_and!; [done|unfold frames in Hqf; lia| |done].
    intros j Hb. apply Hfit. lia.
  - destruct (RequestPages_stock s U R 2 q H ltac:(lia)) as (s1 & Er & Hf & Hc1).
    { split_and!; [done|lia| |done]. intros j Hb. apply Hfit. lia. }
    destruct (next_table_new s1 q He Er Hf ltac:(lia)) as (s2 & E2 & Hd & Hp). eexists _, s2, _, _. split_and!; [done|done|].
    pose proof (gr_bitmap _ _ _ _ _ _ _ (proj1 (proj2 Hd))) as Hbm.
    exists (q + 2). split; [|lia]. unfold stock, frames. rewrite Hbm, Hp, Hc1. unfold frames in Hqf. split_and!; [lia|lia| |].
    + intros j Hb Hin. apply (Hfit j); [lia|]. rewrite !elem_of_union, elem_of_run in Hin. rewrite elem_of_union.
      destruct Hin as [[?|?]|?]; [lia|by left|by right].
    + intros j Hb. rewrite !elem_of_union, elem_of_run. left. left. lia.
Qed.
End level.

(** ** The path to a page table *)

Lemma grows_refl s U F R : grows s U F s U F R.
Proof. split; auto. Qed.

Lemma grows_trans s U F s1 U1 F1 s2 U2 F2 R :
  grows s U F s1 U1 F1 R -> grows s1 U1 F1 s2 U2 F2 R -> grows s U F s2 U2 F2 R.
Proof.
  intros [A1 B1 C1 D1 E1] [A2 B2 C2 D2 E2]. split.
  - by etrans.
  - auto.
  - intros x Hx. destruct (C2 x Hx) as [Hx1|Hx1]; [by apply C1|]. right. intros Hin. apply Hx1.
    apply elem_of_union in Hin as [?|?]; [apply elem_of_union_l; auto|by apply elem_of_union_r].
  - by rewrite D2.
  - intros y [Hy Hb]. rewrite E2, E1; [done| |]; (split; [auto|]); [done|by rewrite D1].
Qed.

(** The number of the page of an address, and the check of [PageMapIndexer]. *)
Definition vpn_of (va : Z) : Z := va / 4096.
Definition indexable (va : Z) : Prop :=
  0 <= va /\ (va <= 4096 \/ index 0 (vpn_of va) <> 0 \/ index 1 (vpn_of va) <> 0 \/ index 2 (vpn_of va) <> 0 \/ index 3 (vpn_of va) <> 0).

Lemma land_511 x : Z.land x 0x1FF = x mod 512.
Proof. change 0x1FF with (Z.ones 9). rewrite Z.land_ones by lia. done. Qed.

Lemma index_shift l vpn : Z.land (Z.shiftr vpn (9 * Z.of_nat l)) 0x1FF = index l vpn.
Proof.
  rewrite land_511. unfold index. rewrite Z.shiftr_div_pow2 by lia. do 2 f_equal.
  replace (2 ^ (9 * Z.of_nat l)) with ((2 ^ 9) ^ Z.of_nat l) by (by rewrite <- Z.pow_mul_r by lia). done.
Qed.

Definition indices (va : Z) : PageMapIndexer :=
  MkIndexer (index 3 (vpn_of va)) (index 2 (vpn_of va)) (index 1 (vpn_of va)) (index 0 (vpn_of va)).

Lemma indexer_go va s : indexable va -> page_map_indexer va s = Ret (Go (indices va), s).
Proof.
  intros [Hva Hi]. unfold page_map_indexer, indices.
  assert (E : forall l, Z.land (Z.shiftr va (12 + 9 * Z.of_nat l)) 0x1FF = index l (vpn_of va)).
  { intros l. rewrite <- index_shift, <- Z.shiftr_shiftr by lia. do 2 f_equal. unfold vpn_of. by rewrite Z.shiftr_div_pow2. }
  assert (E1 : Z.land (Z.shiftr (Z.shiftr va 12) 9) 0x1FF = index 1 (vpn_of va)) by (rewrite !Z.shiftr_shiftr by lia; exact (E 1%nat)).
  assert (E2 : Z.land (Z.shiftr (Z.shiftr (Z.shiftr va 12) 9) 9) 0x1FF = index 2 (vpn_of va)) by (rewrite !Z.shiftr_shiftr by lia; exact (E 2%nat)).
  assert (E3 : Z.land (Z.shiftr (Z.shiftr (Z.shiftr (Z.shiftr va 12) 9) 9) 9) 0x1FF = index 3 (vpn_of va)) by (rewrite !Z.shiftr_shiftr by lia; exact (E 3%nat)).
  pose proof (E 0%nat : Z.land (Z.shiftr va 12) 0x1FF = _) as E0. rewrite E0, E1, E2, E3. unfold PAGE_SIZE.
  destruct (Z.gtb_spec va 0x1000) as [Hgt|Hle]; [|by erewrite bind_go by reflexivity].
  assert (Ha : negb (index 0 (vpn_of va) =? 0) || negb (index 1 (vpn_of va) =? 0) || negb (index 2 (vpn_of va) =? 0)
    || negb (index 3 (vpn_of va) =? 0) = true).
  { destruct (Z.eqb_spec (index 0 (vpn_of va)) 0), (Z.eqb_spec (index 1 (vpn_of va)) 0), (Z.eqb_spec (index 2 (vpn_of va)) 0),
      (Z.eqb_spec (index 3 (vpn_of va)) 0); try done. lia. }
  rewrite Ha. by erewrite bind_go by reflexivity.
Qed.

Section path.
Context (s : kst) (U R : gset Z) (N root va fl : Z) (F : gset Z).
Let vpn := vpn_of va.
Context (V : vspace s U R N root F) (Hsmall : small (kmem s) 3 root vpn) (Hfl : Z.testbit fl 0 = true).

(** The three steps down, in front of what is done with the page table. *)
Definition path_to (k : Z -> K unit) : K unit :=
  t3 ← next_table (root + 8 * index 3 vpn) (Z.land fl 0x3F);
  t2 ← next_table (t3 + 8 * index 2 vpn) (Z.land fl 0x3F);
  t1 ← next_table (t2 + 8 * index 1 vpn) (Z.land fl 0x3F);
  k t1.

Definition at_page_table (c : Z) (s' : kst) (U' F' : gset Z) : Prop :=
  vspace s' U' R N root F' /\ grows s U F s' U' F' R /\ (forall w, same_view (kmem s) (kmem s') root w) /\
  reach (kmem s') vpn 3 root 0 c /\ ent (kmem s') c (index 0 vpn) = leaf (kmem s) 3 root vpn.

Lemma path_go k s' : path_to k s = Ret (Go tt, s') ->
  exists c s3 U' F', at_page_table c s3 U' F' /\ k c s3 = Ret (Go tt, s').
Proof using V Hsmall Hfl.
  intros E. unfold path_to in E.
  apply bind_inv in E as (t3 & s1 & E1 & E). apply bind_inv in E as (t2 & s2 & E2 & E). apply bind_inv in E as (t1 & s3 & E3 & E).
  destruct (next_table_go s U R N root vpn fl F 2 root V (reach_here _ _ _ _) Hfl Hsmall t3 s1 E1) as (U1 & F1 & V1 & G1 & W1 & R1 & S1 & L1).
  destruct (next_table_go s1 U1 R N root vpn fl F1 1 t3 V1 R1 Hfl S1 t2 s2 E2) as (U2 & F2 & V2 & G2 & W2 & R2 & S2 & L2).
  destruct (next_table_go s2 U2 R N root vpn fl F2 0 t2 V2 R2 Hfl S2 t1 s3 E3) as (U3 & F3 & V3 & G3 & W3 & R3 & S3 & L3).
  exists t1, s3, U3, F3. split; [|done]. split_and!; [done| | |done|].
  - eapply grows_trans; [exact G1|]. by eapply grows_trans.
  - intros v. eapply same_view_trans; [apply W1|]. eapply same_view_trans; [apply W2|apply W3].
  - change (leaf (kmem s3) 0 t1 vpn = leaf (kmem s) 3 root vpn). by rewrite L3, L2.
Qed.

Lemma path_supply k n : 0 <= n -> supply s U R N (n + 3) ->
  exists c s3 U' F', at_page_table c s3 U' F' /\ supply s3 U' R N n /\ path_to k s = k c s3.
Proof using V Hsmall Hfl.
  intros Hn Hs. unfold path_to. replace (n + 3) with (n + 2 + 1) in Hs by lia.
  destruct (next_table_supply s U R N root vpn fl F 2 root V (reach_here _ _ _ _) Hfl Hsmall (n + 2)) as (t3 & s1 & U1 & F1 & E1 & (V1 & G1 & W1 & R1 & S1 & L1) & P1); [lia|done|]. replace (n + 2) with (n + 1 + 1) in P1 by lia.
  destruct (next_table_supply s1 U1 R N root vpn fl F1 1 t3 V1 R1 Hfl S1 (n + 1)) as (t2 & s2 & U2 & F2 & E2 & (V2 & G2 & W2 & R2 & S2 & L2) & P2); [lia|done|].
  destruct (next_table_supply s2 U2 R N root vpn fl F2 0 t2 V2 R2 Hfl S2 n) as (t1 & s3 & U3 & F3 & E3 & (V3 & G3 & W3 & R3 & S3 & L3) & P3); [lia|done|].
  exists t1, s3, U3, F3. split.
  - split_and!; [done| | |done|].
    + eapply grows_trans; [exact G1|]. by eapply grows_trans.
    + intros v. eapply same_view_trans; [apply W1|]. eapply same_view_trans; [apply W2|apply W3].
    + change (leaf (kmem s3) 0 t1 vpn = leaf (kmem s) 3 root vpn). by rewrite L3, L2.
  - split; [done|]. erewrite bind_go by exact E1. erewrite bind_go by exact E2. by erewrite bind_go by exact E3.
Qed.
End path.

(** ** Theorems *)

(** The entries that [Map] and [Remap] write; [old] is the entry before. *)
Definition map_entry (old pa Flags : Z) : Z := SetAddress (Z.lor (Z.setbit old 0) (Z.lor Flags P)) (Z.shiftr pa 12).
Definition remap_entry (old pa Flags : Z) : Z := SetAddress (Z.setbit (Z.lor (Z.land old 0xFFF) (Z.lor Flags P)) 0) (Z.shiftr pa 12).

(** [s'] maps the page of [va] with the entry [e], as [s] maps all other pages,
    and nothing but the tables of the address space and the bitmap has changed. *)
Record maps (s : kst) (U R : gset Z) (N root : Z) (F : gset Z) (va : Z) (e : option Z) (s' : kst) (U' F' : gset Z) : Prop := {
  ma_space : vspace s' U' R N root F';
  ma_grows : grows s U F s' U' F' R;
  ma_walk vpn : walk (kmem s') 3 root vpn =
    if decide (agree 3 0 (vpn_of va) vpn) then (fun e => (0%nat, e)) <$> e else walk (kmem s) 3 root vpn;
  ma_leaf vpn : ~ agree 3 0 (vpn_of va) vpn -> leaf (kmem s') 3 root vpn = leaf (kmem s) 3 root vpn;
  ma_small vpn : small (kmem s) 3 root vpn -> small (kmem s') 3 root vpn
}.

(** One entry of a page table has been set, at the end of the path. *)
Lemma maps_stop s U R N root F va v s3 s' U' F' :
  vspace s' U' R N root F' -> grows s U F s' U' F' R -> (forall w, same_view (kmem s) (kmem s3) root w) ->
  (forall vpn, stop (kmem s') 3 root vpn = if decide (agree 3 0 (vpn_of va) vpn) then (0%nat, v) else stop (kmem s3) 3 root vpn) ->
  maps s U R N root F va (if Present v then Some v else None) s' U' F'.
Proof.
  intros V G W Hst. split; [done|done|..]; intros vpn; specialize (Hst vpn); destruct (W vpn) as (W1 & W2 & W3).
  - rewrite walk_stop, Hst. case_decide; [unfold stop_walk; cbn [snd]; by destruct (Present v)|]. by rewrite <- W1, walk_stop.
  - intros Hn. rewrite decide_False in Hst by done. by rewrite leaf_stop, Hst, <- W2, leaf_stop.
  - intros Hs%W3. rewrite small_stop, Hst. case_decide; [done|]. by rewrite <- small_stop.
Qed.

Lemma Present_SetAddress raw a : Present (SetAddress raw a) = Present raw.
Proof. unfold Present. apply SetAddress_low. lia. Qed.

Section updates.
Context (s : kst) (U R : gset Z) (N root va : Z) (F : gset Z) (c : Z).
Context (V : vspace s U R N root F) (Hr : reach (kmem s) (vpn_of va) 3 root 0 c).
Let i := index 0 (vpn_of va).
Let old := ent (kmem s) c i.

Lemma page_entry_ok : cells (kmem s) c 4096 /\ 0 <= i < 512 /\ in_u 64 old.
Proof using V Hr.
  destruct (retarget_vspace _ _ _ _ _ _ _ _ _ V Hr) as (o & _ & Hc & _). destruct (vs_table _ _ _ _ _ _ V c Hc) as (_ & _ & Hcc).
  pose proof (index_range 0 (vpn_of va)) as Hi. fold i in Hi. split; [done|]. split; [done|]. exact (proj2 (ent_spec _ _ _ Hcc Hi)).
Qed.

(** Updates of one entry add up. *)
Lemma upd_last f : upd_entry (c + 8 * i) f s = Ret (Go tt, set_kmem s (put_entry (kmem s) c i (f old))).
Proof using V Hr. destruct page_entry_ok as (Hc & Hi & _). by apply upd_go. Qed.

Lemma upd_next v f : in_u 64 v ->
  upd_entry (c + 8 * i) f (set_kmem s (put_entry (kmem s) c i v)) = Ret (Go tt, set_kmem s (put_entry (kmem s) c i (f v))).
Proof using V Hr.
  intros Hv. destruct page_entry_ok as (Hc & Hi & _). rewrite upd_go; [|by apply put_cells|done].
  cbn [kmem set_kmem]. by rewrite ent_put_same, uw_small, put_put by done.
Qed.
End updates.

Lemma P_bit Flags : Z.testbit (Z.lor Flags P) 0 = true.
Proof. rewrite Z.lor_spec. apply orb_true_r. Qed.

Lemma P_range Flags : in_u 64 Flags -> in_u 64 (Z.lor Flags P).
Proof. intros H. apply lor_range; [lia|done|]. unfold in_u, P. lia. Qed.

Lemma Map_path root va pa Flags s : root <> 0 -> indexable va ->
  Map root va pa Flags FourKiB s = path_to root va (Z.lor Flags P) (fun c =>
    let PTE := c + 8 * index 0 (vpn_of va) in
    upd_entry PTE (fun raw => Z.setbit raw 0);;
    upd_entry PTE (fun raw => Z.lor raw (Z.lor Flags P));;
    upd_entry PTE (fun raw => SetAddress raw (Z.shiftr pa 12))) s.
Proof.
  intros Hroot Hi. unfold Map. apply Z.eqb_neq in Hroot. rewrite Hroot. erewrite bind_go by (by apply indexer_go). reflexivity.
Qed.

Lemma Remap_path root va pa Flags s : root <> 0 -> indexable va ->
  Remap root va pa Flags FourKiB s = path_to root va (Z.lor Flags P) (fun c =>
    let PTE := c + 8 * index 0 (vpn_of va) in
    upd_entry PTE (fun raw => Z.land raw 0xFFF);;
    upd_entry PTE (fun raw => Z.lor raw (Z.lor Flags P));;
    upd_entry PTE (fun raw => Z.setbit raw 0);;
    upd_entry PTE (fun raw => SetAddress raw (Z.shiftr pa 12))) s.
Proof.
  intros Hroot Hi. unfold Remap. apply Z.eqb_neq in Hroot. rewrite Hroot. erewrite bind_go by (by apply indexer_go). reflexivity.
Qed.

(** What a page-table step [k] that sets the entry to [v old] does. *)
Section set_page.
Context (s : kst) (U R : gset Z) (N root va fl : Z) (F : gset Z) (k : Z -> K unit) (v : Z -> Z).
Context (V : vspace s U R N root F) (Hsmall : small (kmem s) 3 root (vpn_of va)) (Hfl : Z.testbit fl 0 = true).
Context (Hv : forall e, in_u 64 (v e) /\ Present (v e) = true).
Context (Hk : forall s U F c, vspace s U R N root F -> reach (kmem s) (vpn_of va) 3 root 0 c ->
  let i := index 0 (vpn_of va) in k c s = Ret (Go tt, set_kmem s (put_entry (kmem s) c i (v (ent (kmem s) c i))))).

Lemma set_page_maps c s3 U' F' : at_page_table s U R N root va F c s3 U' F' ->
  exists s', k c s3 = Ret (Go tt, s') /\ kphys s' = kphys s3 /\
    maps s U R N root F va (Some (v (leaf (kmem s) 3 root (vpn_of va)))) s' U' F'.
Proof using Hv Hk.
  intros (V3 & G3 & W3 & R3 & L3). eexists. split; [by eapply Hk|]. split; [done|]. rewrite L3.
  destruct (Hv (leaf (kmem s) 3 root (vpn_of va))) as [Hr Hp].
  destruct (write_page _ _ _ _ _ _ _ _ _ V3 R3 Hr) as (V4 & G4 & _ & W4).
  pose proof (maps_stop s U R N root F va _ s3 _ U' F' V4 (grows_trans _ _ _ _ _ _ _ _ _ _ G3 G4) W3 W4) as H. by rewrite Hp in H.
Qed.

Lemma set_page_correct :
  (forall n, 0 <= n -> supply s U R N (n + 3) ->
     exists s' U' F', path_to root va fl k s = Ret (Go tt, s') /\
       maps s U R N root F va (Some (v (leaf (kmem s) 3 root (vpn_of va)))) s' U' F' /\ supply s' U' R N n) /\
  (forall s', path_to root va fl k s = Ret (Go tt, s') ->
     exists U' F', maps s U R N root F va (Some (v (leaf (kmem s) 3 root (vpn_of va)))) s' U' F').
Proof using V Hsmall Hfl Hv Hk.
  split.
  - intros n Hn Hs. destruct (path_supply s U R N root va fl F V Hsmall Hfl k n Hn Hs) as (c & s3 & U' & F' & Ha & Hs3 & E).
    destruct (set_page_maps c s3 U' F' Ha) as (s' & E' & Hp & Hm). exists s', U', F'. split; [by rewrite E|]. split; [done|].
    destruct Hs3 as (q & Hst & Hq). exists q. split; [|done]. unfold stock, frames. by rewrite Hp.
  - intros s' E. destruct (path_go s U R N root va fl F V Hsmall Hfl k s' E) as (c & s3 & U' & F' & Ha & E').
    destruct (set_page_maps c s3 U' F' Ha) as (s1 & E1 & _ & Hm). rewrite E1 in E'. injection E' as <-. eauto.
Qed.
End set_page.

Lemma root_nonzero s U R N root F : vspace s U R N root F -> root <> 0.
Proof. intros V. destruct (tree_root _ _ _ _ (vs_tree _ _ _ _ _ _ V)) as [_ (H & _)]. lia. Qed.

Lemma Map_maps s U R N root F va pa Flags : vspace s U R N root F ->
  small (kmem s) 3 root (vpn_of va) -> indexable va -> in_u 64 Flags ->
  let e := map_entry (leaf (kmem s) 3 root (vpn_of va)) pa Flags in
  (forall n, 0 <= n -> supply s U R N (n + 3) ->
     exists s' U' F', Map root va pa Flags FourKiB s = Ret (Go tt, s') /\ maps s U R N root F va (Some e) s' U' F' /\ supply s' U' R N n) /\
  (forall s', Map root va pa Flags FourKiB s = Ret (Go tt, s') -> exists U' F', maps s U R N root F va (Some e) s' U' F').
Proof.
  intros V Hs Hi HF e. pose proof (P_range _ HF) as HFP. setoid_rewrite Map_path; [|by eapply root_nonzero|done|by eapply root_nonzero|done].
  apply (set_page_correct s U R N root va (Z.lor Flags P) F _ (fun old => map_entry old pa Flags)); [done|done|apply P_bit| |].
  - intros old. split; [apply SetAddress_range|]. unfold map_entry. rewrite Present_SetAddress. unfold Present.
    rewrite Z.lor_spec, P_bit. apply orb_true_r.
  - intros s1 U1 F1 c V1 R1 i. cbv beta zeta. destruct (page_entry_ok _ _ _ _ _ _ _ _ V1 R1) as (_ & _ & Ho). fold i in Ho.
    pose proof (setbit_range 64 _ 0 ltac:(lia) Ho) as H1. pose proof (lor_range 64 _ _ ltac:(lia) H1 HFP) as H2.
    erewrite bind_go by exact (upd_last _ _ _ _ _ _ _ _ V1 R1 _). cbv beta.
    erewrite bind_go by exact (upd_next _ _ _ _ _ _ _ _ V1 R1 _ _ H1). cbv beta. exact (upd_next _ _ _ _ _ _ _ _ V1 R1 _ _ H2).
Qed.

(** C5: [Map] of a 4 KiB page in an address space.  Whenever it returns, the
    processor translates the page to the given frame; the flags are the given
    ones, with those that the entry had before; every other address is
    translated as before; the tables form a tree again; the tables that were
    made come from free frames, and no other memory has changed but the bitmap.
    It does return when there are frames for three tables. *)
Theorem Map_correct s U R N root F va pa Flags : vspace s U R N root F ->
  small (kmem s) 3 root (vpn_of va) -> indexable va -> in_u 64 Flags ->
  let e := map_entry (leaf (kmem s) 3 root (vpn_of va)) pa Flags in
  (forall n, 0 <= n -> supply s U R N (n + 3) ->
     exists s' U' F', Map root va pa Flags FourKiB s = Ret (Go tt, s') /\ maps s U R N root F va (Some e) s' U' F' /\ supply s' U' R N n) /\
  (forall s', Map root va pa Flags FourKiB s = Ret (Go tt, s') -> exists U' F', maps s U R N root F va (Some e) s' U' F').
Proof. exact (Map_maps s U R N root F va pa Flags). Qed.

Lemma Remap_maps s U R N root F va pa Flags : vspace s U R N root F ->
  small (kmem s) 3 root (vpn_of va) -> indexable va -> in_u 64 Flags ->
  let e := remap_entry (leaf (kmem s) 3 root (vpn_of va)) pa Flags in
  (forall n, 0 <= n -> supply s U R N (n + 3) ->
     exists s' U' F', Remap root va pa Flags FourKiB s = Ret (Go tt, s') /\ maps s U R N root F va (Some e) s' U' F' /\ supply s' U' R N n) /\
  (forall s', Remap root va pa Flags FourKiB s = Ret (Go tt, s') -> exists U' F', maps s U R N root F va (Some e) s' U' F').
Proof.
  intros V Hs Hi HF e. pose proof (P_range _ HF) as HFP. setoid_rewrite Remap_path; [|by eapply root_nonzero|done|by eapply root_nonzero|done].
  apply (set_page_correct s U R N root va (Z.lor Flags P) F _ (fun old => remap_entry old pa Flags)); [done|done|apply P_bit| |].
  - intros old. split; [apply SetAddress_range|]. unfold remap_entry. rewrite Present_SetAddress. unfold Present.
    by rewrite Z.setbit_eq.
  - intros s1 U1 F1 c V1 R1 i. cbv beta zeta. destruct (page_entry_ok _ _ _ _ _ _ _ _ V1 R1) as (_ & _ & Ho). fold i in Ho.
    pose proof (land_range 64 _ 0xFFF ltac:(lia) Ho) as H1. pose proof (lor_range 64 _ _ ltac:(lia) H1 HFP) as H2.
    pose proof (setbit_range 64 _ 0 ltac:(lia) H2) as H3.
    erewrite bind_go by exact (upd_last _ _ _ _ _ _ _ _ V1 R1 _). cbv beta.
    erewrite bind_go by exact (upd_next _ _ _ _ _ _ _ _ V1 R1 _ _ H1). cbv beta.
    erewrite bind_go by exact (upd_next _ _ _ _ _ _ _ _ V1 R1 _ _ H2). cbv beta. exact (upd_next _ _ _ _ _ _ _ _ V1 R1 _ _ H3).
Qed.

(** [Remap] of a 4 KiB page, in the same way; the entry keeps its twelve low
    bits and gains the given flags, so that no permission is ever taken away. *)
Theorem Remap_correct s U R N root F va pa Flags : vspace s U R N root F ->
  small (kmem s) 3 root (vpn_of va) -> indexable va -> in_u 64 Flags ->
  let e := remap_entry (leaf (kmem s) 3 root (vpn_of va)) pa Flags in
  (forall n, 0 <= n -> supply s U R N (n + 3) ->
     exists s' U' F', Remap root va pa Flags FourKiB s = Ret (Go tt, s') /\ maps s U R N root F va (Some e) s' U' F' /\ supply s' U' R N n) /\
  (forall s', Remap root va pa Flags FourKiB s = Ret (Go tt, s') -> exists U' F', maps s U R N root F va (Some e) s' U' F').
Proof. exact (Remap_maps s U R N root F va pa Flags). Qed.

(** ** Queries *)

Lemma page_of_spec va : in_u 64 va -> page_of va = 4096 * vpn_of va /\ vpn_of (page_of va) = vpn_of va.
Proof.
  intros Hva. assert (E : page_of va = 4096 * vpn_of va).
  { unfold page_of, vpn_of. replace 0xFFFFFFFFFFFFF000 with (Z.shiftl (Z.ones 52) 12) by reflexivity.
    change (4096 * (va / 4096)) with (2 ^ 12 * (va / 2 ^ 12)).
    rewrite Z.mul_comm, <- Z.shiftl_mul_pow2, <- Z.shiftr_div_pow2 by lia.
    apply Z.bits_inj'. intros k Hk. rewrite Z.land_spec, !testbit_shl by lia. destruct (Z_lt_le_dec k 12).
    - rewrite !(Z.testbit_neg_r _ (k - 12)) by lia. by rewrite andb_false_r.
    - rewrite Z.shiftr_spec, Z.testbit_ones_nonneg by lia. replace (k - 12 + 12) with k by lia.
      destruct (Z.ltb_spec (k - 12) 52); [by rewrite andb_true_r|]. rewrite (testbit_high va 64) by (done || lia). done. }
  split; [done|]. rewrite E. unfold vpn_of. dlia.
Qed.

Section queries.
Context (s : kst) (U R : gset Z) (N root va : Z) (F : gset Z).
Let vpn := vpn_of va.
Context (V : vspace s U R N root F) (Hva : in_u 64 va) (Hix : indexable (page_of va)).

Lemma query_index : page_map_indexer (page_of va) s = Ret (Go (indices va), s).
Proof using Hva Hix.
  rewrite indexer_go by done. unfold indices. by rewrite (proj2 (page_of_spec va Hva)).
Qed.

(** The entry of a level, and the table below it. *)
Lemma query_entry l c : reach (kmem s) vpn 3 root l c ->
  let e := ent (kmem s) c (index l vpn) in
  entry_at (c + 8 * index l vpn) s = Ret (Go e, s) /\ in_u 64 e /\
  forall k, l = S k -> is_dir l e = true -> frame e <> 0 /\ reach (kmem s) vpn 3 root k (frame e).
Proof using V.
  intros Hr e. destruct (retarget_vspace _ _ _ _ _ _ _ _ _ V Hr) as (o & Hb & Hc & _ & Ho & _).
  destruct (vs_table _ _ _ _ _ _ V c Hc) as (_ & _ & Hcc). pose proof (index_range l vpn) as Hi.
  split; [by apply entry_go|]. split; [apply (ent_spec _ _ _ Hcc Hi)|].
  intros k -> Hd. split; [|by apply reach_snoc]. cbn [below] in Hb. fold e in Hb. rewrite Hd in Hb.
  destruct (tree_root _ _ _ _ Hb) as [_ (? & _)]. lia.
Qed.

Definition physical (w : option (nat * Z)) : Z := match w with Some (_, e) => frame e | None => 0 end.
Definition map_type (w : option (nat * Z)) : MapType :=
  match w with Some (0%nat, _) => FourKiB | Some (1%nat, _) => TwoMiB | Some (2%nat, _) => OneGiB | _ => NoMapType end.

(** The queries start at the root, and look at the table of one level after
    the other. *)
Ltac start f :=
  unfold f; erewrite bind_go by apply query_index; cbv beta; unfold indices; cbn [PMLIndex PDPTEIndex PDEIndex PTEIndex];
  fold vpn; pose proof (reach_here (kmem s) vpn 3 root) as R3.
Ltac enter l c Hr D :=
  let E := fresh "E" in
  destruct (query_entry l c Hr) as (E & _ & D); erewrite bind_go by exact E; cbv beta zeta; clear E.
Ltac go_down l c D Pr Lr t R :=
  let N := fresh "N" in
  destruct (D l eq_refl) as [N R]; [unfold is_dir; cbn [large]; rewrite ?Pr, ?Lr; done|];
  apply Z.eqb_neq in N; rewrite ?N; clear N D; cbn [negb andb];
  set (t := frame (ent (kmem s) c (index (S l) vpn))) in *.

Lemma GetPhysical_walk : GetPhysical root va s = Ret (Go (physical (walk (kmem s) 3 root vpn)), s).
Proof using V Hva Hix.
  start GetPhysical. enter 3%nat root R3 D3. rewrite walk_unfold. unfold walk_entry. cbn [large].
  destruct (Present (ent _ root _)) eqn:P3; [|done]. go_down 2%nat root D3 P3 P3 t2 R2.
  enter 2%nat t2 R2 D2. rewrite walk_unfold. unfold walk_entry. cbn [large].
  destruct (Present (ent _ t2 _)) eqn:P2; [|done]. cbn [negb]. destruct (PageSize (ent _ t2 _)) eqn:L2; [done|]. go_down 1%nat t2 D2 P2 L2 t1 R1.
  enter 1%nat t1 R1 D1. rewrite walk_unfold. unfold walk_entry. cbn [large].
  destruct (Present (ent _ t1 _)) eqn:P1; [|done]. cbn [negb]. destruct (PageSize (ent _ t1 _)) eqn:L1; [done|]. go_down 0%nat t1 D1 P1 L1 t0 R0.
  enter 0%nat t0 R0 D0. rewrite walk_unfold. unfold walk_entry. by destruct (Present (ent _ t0 _)).
Qed.

Lemma GetMapType_walk : GetMapType root va s = Ret (Go (map_type (walk (kmem s) 3 root vpn)), s).
Proof using V Hva Hix.
  start GetMapType. enter 3%nat root R3 D3. rewrite walk_unfold. unfold walk_entry. cbn [large].
  destruct (Present (ent _ root _)) eqn:P3; [|done]. go_down 2%nat root D3 P3 P3 t2 R2.
  enter 2%nat t2 R2 D2. rewrite walk_unfold. unfold walk_entry. cbn [large].
  destruct (Present (ent _ t2 _)) eqn:P2; [|done]. cbn [negb]. destruct (PageSize (ent _ t2 _)) eqn:L2; [done|]. go_down 1%nat t2 D2 P2 L2 t1 R1.
  enter 1%nat t1 R1 D1. rewrite walk_unfold. unfold walk_entry. cbn [large].
  destruct (Present (ent _ t1 _)) eqn:P1; [|done]. cbn [negb]. destruct (PageSize (ent _ t1 _)) eqn:L1; [done|]. go_down 0%nat t1 D1 P1 L1 t0 R0.
  enter 0%nat t0 R0 D0. rewrite walk_unfold. unfold walk_entry. by destruct (Present (ent _ t0 _)).
Qed.

(** [GetPTE] does not look for large pages. *)
Lemma GetPTE_walk : small (kmem s) 3 root vpn ->
  walk (kmem s) 3 root vpn = None /\ GetPTE root va s = Ret (Go 0, s) \/
  exists c, reach (kmem s) vpn 3 root 0 c /\ Present (ent (kmem s) c (index 0 vpn)) = true /\
    walk (kmem s) 3 root vpn = Some (0%nat, ent (kmem s) c (index 0 vpn)) /\
    GetPTE root va s = Ret (Go (c + 8 * index 0 vpn), s).
Proof using V Hva Hix.
  intros (_ & S3). start GetPTE. enter 3%nat root R3 D3. rewrite walk_unfold. unfold walk_entry. cbn [large].
  destruct (Present (ent _ root _)) eqn:P3; [|by left]. destruct (S3 eq_refl) as (L2 & S2). go_down 2%nat root D3 P3 P3 t2 R2.
  fold t2 in L2, S2. enter 2%nat t2 R2 D2. rewrite walk_unfold. unfold walk_entry. rewrite L2. cbn [large] in L2.
  destruct (Present (ent _ t2 _)) eqn:P2; [|by left]. destruct (S2 eq_refl) as (L1 & _). go_down 1%nat t2 D2 P2 L2 t1 R1.
  fold t1 in L1. enter 1%nat t1 R1 D1. rewrite walk_unfold. unfold walk_entry. rewrite L1. cbn [large] in L1.
  destruct (Present (ent _ t1 _)) eqn:P1; [|by left]. go_down 0%nat t1 D1 P1 L1 t0 R0.
  enter 0%nat t0 R0 D0. rewrite walk_unfold. unfold walk_entry.
  destruct (Present (ent _ t0 _)) eqn:P0; [right|by left]. exists t0. by split_and!.
Qed.

(** [Check] does not look at the present bits of the two middle levels: the
    entries of tables that are not there must be empty. *)
Fixpoint clean (m : mem) (l : nat) (t vpn : Z) : Prop :=
  match l with
  | O => True
  | S k =>
      let e := ent m t (index l vpn) in
      e = 0 \/ Present e = true /\ large l e = false /\ clean m k (frame e) vpn
  end.

Lemma Check_leaf Flag : clean (kmem s) 3 root vpn ->
  Check root va Flag s = Ret (Go (negb (Z.land (leaf (kmem s) 3 root vpn) Flag =? 0)), s).
Proof using V Hva Hix.
  intros C3. start Check. enter 3%nat root R3 D3. cbn [leaf]. unfold is_dir at 1.
  destruct C3 as [->|(P3 & L3 & C2)]; [done|]. rewrite P3, L3. go_down 2%nat root D3 P3 P3 t2 R2. fold t2 in C2.
  enter 2%nat t2 R2 D2. unfold is_dir at 1. destruct C2 as [->|(P2 & L2 & C1)]; [done|]. rewrite P2, L2. cbn [large] in L2. rewrite L2.
  go_down 1%nat t2 D2 P2 L2 t1 R1. fold t1 in C1.
  enter 1%nat t1 R1 D1. unfold is_dir at 1. destruct C1 as [->|(P1 & L1 & _)]; [done|]. rewrite P1, L1. cbn [large] in L1. rewrite L1.
  go_down 0%nat t1 D1 P1 L1 t0 R0. by enter 0%nat t0 R0 D0.
Qed.
End queries.

(** ** Unmapping *)

Lemma walk_agree m l : forall t vpn vpn', agree l 0 vpn vpn' -> walk m l t vpn' = walk m l t vpn.
Proof.
  induction l as [|l IH]; intros t vpn vpn' Ha; rewrite !walk_unfold; rewrite (Ha _ ltac:(split; [apply Nat.le_0_l|reflexivity])); [done|].
  unfold walk_entry. destruct (Present _); [|done]. destruct (large _ _); [done|]. apply IH. intros k Hk. apply Ha. lia.
Qed.

Lemma walk_small m l vpn e : forall t, walk m l t vpn = Some (0%nat, e) -> small m l t vpn.
Proof.
  induction l as [|l IH]; intros t; [done|]. rewrite walk_unfold. unfold walk_entry. cbn [small].
  destruct (Present _) eqn:Hp; [|done]. destruct (large _ _); [done|]. intros H. split; [done|]. intros _. by apply IH.
Qed.

Lemma Unmap_maps s U R N root F va : vspace s U R N root F -> small (kmem s) 3 root (vpn_of va) -> indexable va ->
  exists s', Unmap root va FourKiB s = Ret (Go tt, s') /\ maps s U R N root F va None s' U F /\ kphys s' = kphys s.
Proof.
  intros V (_ & S3) Hi. unfold Unmap. rewrite (proj2 (Z.eqb_neq _ _) (root_nonzero _ _ _ _ _ _ V)).
  erewrite bind_go by (by apply indexer_go). cbv beta. unfold indices. cbn [PMLIndex PDPTEIndex PDEIndex PTEIndex]. set (vpn := vpn_of va) in *.
  assert (Hnone : walk (kmem s) 3 root vpn = None -> forall A (x : A),
    exists s', @Ret (control A * kst) (Go x, s) = Ret (Go x, s') /\ maps s U R N root F va None s' U F /\ kphys s' = kphys s).
  { intros Hn A x. exists s. split_and!; [done| |done]. split; [done|apply grows_refl| |done|done]. intros vpn'. case_decide as Ha; [|done].
    fold vpn in Ha. rewrite (walk_agree _ _ _ _ _ Ha). exact Hn. }
  rewrite walk_unfold in Hnone. unfold walk_entry in Hnone. cbn [large] in Hnone.
  pose proof (reach_here (kmem s) vpn 3 root) as R3. destruct (query_entry s U R N root va F V 3 root R3) as (E3 & _ & D3).
  fold vpn in E3, D3. erewrite bind_go by exact E3. cbv beta zeta.
  destruct (Present (ent _ root _)) eqn:P3; [|by apply Hnone]. cbn [negb]. destruct (S3 eq_refl) as (L2 & S2).
  destruct (D3 2%nat eq_refl) as [_ R2]; [unfold is_dir; by rewrite P3|]. set (t2 := frame (ent (kmem s) root (index 3 vpn))) in *.
  rewrite walk_unfold in Hnone. unfold walk_entry in Hnone. rewrite L2 in Hnone. cbn [large] in L2.
  destruct (query_entry s U R N root va F V 2 t2 R2) as (E2 & _ & D2). fold vpn in E2, D2. erewrite bind_go by exact E2. cbv beta zeta.
  destruct (Present (ent _ t2 _)) eqn:P2; [|by apply Hnone]. cbn [negb]. rewrite L2, andb_false_r. destruct (S2 eq_refl) as (L1 & _).
  destruct (D2 1%nat eq_refl) as [_ R1]; [unfold is_dir; cbn [large]; by rewrite P2, L2|]. set (t1 := frame (ent (kmem s) t2 (index 2 vpn))) in *.
  rewrite walk_unfold in Hnone. unfold walk_entry in Hnone. rewrite L1 in Hnone. cbn [large] in L1.
  destruct (query_entry s U R N root va F V 1 t1 R1) as (E1 & _ & D1). fold vpn in E1, D1. erewrite bind_go by exact E1. cbv beta zeta.
  destruct (Present (ent _ t1 _)) eqn:P1; [|by apply Hnone]. cbn [negb]. rewrite L1, andb_false_r.
  destruct (D1 0%nat eq_refl) as [_ R0]; [unfold is_dir; cbn [large]; by rewrite P1, L1|]. set (t0 := frame (ent (kmem s) t1 (index 1 vpn))) in *.
  rewrite walk_unfold in Hnone. unfold walk_entry in Hnone.
  destruct (query_entry s U R N root va F V 0 t0 R0) as (E0 & He & _). fold vpn in E0, He. erewrite bind_go by exact E0. cbv beta zeta.
  destruct (Present (ent _ t0 _)) eqn:P0; [|by apply Hnone]. cbn [negb].
  destruct (page_entry_ok _ _ _ _ _ _ _ _ V R0) as (Hc & Hi0 & _). fold vpn in Hi0.
  assert (Hcl : in_u 64 (Z.clearbit (ent (kmem s) t0 (index 0 vpn)) 0)).
  { rewrite Z.clearbit_spec'. apply testbit_bound; [lia|]. intros k Hk. rewrite Z.ldiff_spec, (testbit_high _ 64); done. }
  rewrite set_go' by done. eexists. split; [reflexivity|]. split; [|done].
  destruct (write_page _ _ _ _ _ _ _ _ _ V R0 Hcl) as (V4 & G4 & _ & W4).
  pose proof (maps_stop s U R N root F va _ s _ U F V4 G4 (fun w => stop_same_view _ _ _ _ eq_refl) W4) as H.
  unfold Present in H. by rewrite Z.clearbit_eq in H.
Qed.

(** [Unmap] of a 4 KiB page: it returns, the processor no longer translates
    the page, every other address is translated as before, and nothing but one
    entry of the address space has changed. *)
Theorem Unmap_correct s U R N root F va : vspace s U R N root F -> small (kmem s) 3 root (vpn_of va) -> indexable va ->
  exists s', Unmap root va FourKiB s = Ret (Go tt, s') /\ maps s U R N root F va None s' U F /\ kphys s' = kphys s.
Proof. exact (Unmap_maps s U R N root F va). Qed.

(** C10: mapping a page and asking for it.  After [Map], [GetPhysical] returns
    the frame that was mapped for the page and what it returned before for
    every other page; [GetMapType] says that the page is a small one; after
    [Unmap], [GetPhysical] returns null. *)
Theorem map_unmap_roundtrip s U R N root F va pa Flags : vspace s U R N root F ->
  small (kmem s) 3 root (vpn_of va) -> indexable va -> indexable (page_of va) -> in_u 64 va -> in_u 64 Flags ->
  0 <= pa < 2 ^ 52 -> pa mod 4096 = 0 -> supply s U R N 3 ->
  exists s1 s2, Map root va pa Flags FourKiB s = Ret (Go tt, s1) /\ Unmap root va FourKiB s1 = Ret (Go tt, s2) /\
    GetPhysical root va s1 = Ret (Go pa, s1) /\ GetMapType root va s1 = Ret (Go FourKiB, s1) /\
    GetPhysical root va s2 = Ret (Go 0, s2) /\
    forall va', in_u 64 va' -> indexable (page_of va') -> ~ agree 3 0 (vpn_of va) (vpn_of va') ->
      exists p, GetPhysical root va' s = Ret (Go p, s) /\ GetPhysical root va' s1 = Ret (Go p, s1) /\
        GetPhysical root va' s2 = Ret (Go p, s2).
Proof.
  intros V Hs Hi Hi' Hva HF Hpa Hpm Hsup.
  destruct (Map_maps s U R N root F va pa Flags V Hs Hi HF) as [Hgo _]. destruct (Hgo 0 ltac:(lia) Hsup) as (s1 & U1 & F1 & E1 & [V1 _ W1 _ _] & _).
  assert (Wva : walk (kmem s1) 3 root (vpn_of va) = Some (0%nat, map_entry (leaf (kmem s) 3 root (vpn_of va)) pa Flags))
    by (rewrite W1, decide_True by (by intros k _); done).
  destruct (Unmap_maps s1 U1 R N root F1 va V1 (walk_small _ _ _ _ _ Wva) Hi) as (s2 & E2 & [V2 _ W2 _ _] & _).
  exists s1, s2. split_and!; [exact E1|exact E2| | | |].
  - rewrite (GetPhysical_walk s1 U1 R N root va F1 V1 Hva Hi'), Wva. unfold physical, map_entry. by rewrite frame_SetAddress.
  - by rewrite (GetMapType_walk s1 U1 R N root va F1 V1 Hva Hi'), Wva.
  - rewrite (GetPhysical_walk s2 U1 R N root va F1 V2 Hva Hi'), W2, decide_True by (by intros k _). done.
  - intros va' Hva' Hix Hne. exists (physical (walk (kmem s) 3 root (vpn_of va'))).
    rewrite (GetPhysical_walk s U R N root va' F V Hva' Hix), (GetPhysical_walk s1 U1 R N root va' F1 V1 Hva' Hix),
      (GetPhysical_walk s2 U1 R N root va' F1 V2 Hva' Hix), W2, W1, !decide_False by exact Hne. done.
Qed.

(** ** Examples

    A machine with sixteen frames of RAM, all zero but the bitmap in frame 1;
    the root table is in frame 2.  [b] is the first byte of the bitmap, and
    [used] the number of frames in use. *)
Definition demo_machine (b used : Z) : kst :=
  KSt (<[4096 := b]> (write_bytes ∅ 0 (replicate (Z.to_nat 65536) 0)))
    (MkPhysical 65536 (4096 * (14 - used)) (2 * 4096) (4096 * used) 0 (MkBitmap 3 4096)).

Section demo_machine.
Context (b used : Z) (Hb : byte b).
Let m := kmem (demo_machine b used).

Lemma demo_lookup x : m !! x = if decide (x = 4096) then Some b else if decide (0 <= x < 65536) then Some 0 else None.
Proof using.
  unfold m. cbn [kmem demo_machine]. rewrite lookup_insert. case_decide; case_decide; try lia; [done|].
  rewrite lookup_write_bytes, length_replicate, Z2Nat.id, lookup_empty by lia. case_decide;
    [rewrite decide_True by lia; apply lookup_replicate_2; lia|by rewrite decide_False by lia].
Qed.

Lemma demo_cells a n : 0 <= a -> a + n <= 65536 -> cells m a n.
Proof using Hb.
  intros Ha Hn x Hx. rewrite demo_lookup. case_decide; [by exists b|rewrite decide_True by lia].
  exists 0. split; [done|]. unfold byte. lia.
Qed.

Lemma demo_ent t i : 4096 < t -> 0 <= i < 512 -> t + 4096 <= 65536 -> ent m t i = 0.
Proof using.
  intros Ht Hi Hn. rewrite (ent_ext (zero_page ∅ t)), ent_zero_page; [done|done|done|].
  intros y Hy. rewrite demo_lookup, lookup_zero_page, decide_False, !decide_True by lia. done.
Qed.

#[local] Opaque demo_machine.
Lemma demo_vspace U : holds (demo_machine b used) U {[0; 1]} -> 2 ∈ U -> vspace (demo_machine b used) U {[0; 1]} 16 8192 {[8192]}.
Proof using Hb.
  intros Hh H2. split.
  - exact Hh.
  - apply tree_zero; [split; [lia|split; [done|by apply demo_cells]]|]. intros i Hi. by apply demo_ent.
  - intros x ->%elem_of_singleton. exact H2.
  - intros x Hx. change (4096 <= x < 4099) in Hx. replace (x / 4096) with 1 by dlia. set_solver.
  - intros i Hi _. apply demo_cells; lia.
  - set_solver.
  - split; [done|]. intros x Hx. fold m. by rewrite demo_lookup, !decide_False by lia.
Qed.

(** The bits of the bitmap. *)
Lemma demo_bits (X : gset Z) : (forall i, i ∈ X -> 0 <= i < 8) ->
  (forall i, 0 <= i < 8 -> Z.testbit b (7 - i) = bool_decide (i ∈ X)) ->
  forall i, 0 <= i < 24 -> bit m (MkBitmap 3 4096) i = bool_decide (i ∈ X).
Proof using.
  intros HX Hbits i Hi. unfold bit. cbn [Buffer]. rewrite demo_lookup. destruct (decide (i < 8)) as [H8|H8].
  - assert (Ei : i / 8 = 0) by dlia. rewrite Ei, decide_True by done. rewrite Z.mod_small by lia. apply Hbits. lia.
  - rewrite decide_False, decide_True, Z.bits_0 by dlia. symmetry. apply bool_decide_eq_false. intros ?%HX. lia.
Qed.

Lemma demo_small vpn : small m 3 8192 vpn.
Proof using. apply small_zero. intros i Hi. by apply demo_ent. Qed.
End demo_machine.

Lemma eight i : 0 <= i < 8 -> i = 0 \/ i = 1 \/ i = 2 \/ i = 3 \/ i = 4 \/ i = 5 \/ i = 6 \/ i = 7.
Proof. lia. Qed.

Definition demo_space : kst := demo_machine 0xE0 1.

#[local] Opaque demo_machine.
Lemma demo_holds : holds demo_space {[2]} {[0; 1]}.
Proof.
  split; [|set_solver|set_solver by (change (frames demo_space) with 24; lia)| |done|reflexivity|reflexivity|reflexivity].
  - split; [done|done|]. by apply demo_cells.
  - apply demo_bits; [set_solver by lia|]. intros i Hi%eight. destruct_or! Hi; subst i; vm_compute; reflexivity.
Qed.

Lemma demo_ok : vspace demo_space {[2]} {[0; 1]} 16 8192 {[8192]}.
Proof. apply demo_vspace; [done|exact demo_holds|set_solver]. Qed.

Lemma demo_stock n : 0 <= n -> 3 + n <= 16 -> stock demo_space {[2]} {[0; 1]} 3 n.
Proof.
  intros Hn Hle. split_and!; [vm_compute; discriminate|change (frames demo_space) with 24; lia| |].
  - intros j Hj. set_solver by lia.
  - intros j Hj. change (0 <= j < 3) in Hj. assert (j = 0 \/ j = 1 \/ j = 2) as [->|[->| ->]] by lia; set_solver.
Qed.

Lemma demo_supply : supply demo_space {[2]} {[0; 1]} 16 3.
Proof. exists 3. split; [by apply demo_stock|lia]. Qed.

Lemma demo_indexable : indexable 0x40000000.
Proof. split; [lia|]. right. right. right. left. vm_compute. discriminate. Qed.

Lemma RW_range : in_u 64 RW.
Proof. vm_compute. split; discriminate || reflexivity. Qed.

Lemma Map_witness : exists s' U' F', Map 8192 0x40000000 0x5000 RW FourKiB demo_space = Ret (Go tt, s') /\
  maps demo_space {[2]} {[0; 1]} 16 8192 {[8192]} 0x40000000 (Some (map_entry (leaf (kmem demo_space) 3 8192 0x40000) 0x5000 RW)) s' U' F'.
Proof.
  destruct (Map_correct demo_space {[2]} {[0; 1]} 16 8192 {[8192]} 0x40000000 0x5000 RW) as [Hgo _].
  - exact demo_ok.
  - apply demo_small.
  - exact demo_indexable.
  - exact RW_range.
  - destruct (Hgo 0 ltac:(lia) demo_supply) as (s' & U' & F' & E & Hm & _). exists s', U', F'. split; [exact E|exact Hm].
Defined.

Lemma Remap_witness : exists s' U' F', Remap 8192 0x40000000 0x5000 RW FourKiB demo_space = Ret (Go tt, s') /\
  maps demo_space {[2]} {[0; 1]} 16 8192 {[8192]} 0x40000000 (Some (remap_entry (leaf (kmem demo_space) 3 8192 0x40000) 0x5000 RW)) s' U' F'.
Proof.
  destruct (Remap_correct demo_space {[2]} {[0; 1]} 16 8192 {[8192]} 0x40000000 0x5000 RW) as [Hgo _].
  - exact demo_ok.
  - apply demo_small.
  - exact demo_indexable.
  - exact RW_range.
  - destruct (Hgo 0 ltac:(lia) demo_supply) as (s' & U' & F' & E & Hm & _). exists s', U', F'. split; [exact E|exact Hm].
Defined.

Lemma Unmap_witness : exists s', Unmap 8192 0x40000000 FourKiB demo_space = Ret (Go tt, s') /\
  maps demo_space {[2]} {[0; 1]} 16 8192 {[8192]} 0x40000000 None s' {[2]} {[8192]} /\ kphys s' = kphys demo_space.
Proof.
  apply (Unmap_correct demo_space {[2]} {[0; 1]} 16 8192 {[8192]} 0x40000000); [exact demo_ok|apply demo_small|exact demo_indexable].
Defined.

Lemma map_unmap_witness : exists s1 s2,
  Map 8192 0x40000000 0x5000 RW FourKiB demo_space = Ret (Go tt, s1) /\ Unmap 8192 0x40000000 FourKiB s1 = Ret (Go tt, s2) /\
  GetPhysical 8192 0x40000000 s1 = Ret (Go 0x5000, s1) /\ GetPhysical 8192 0x40000000 s2 = Ret (Go 0, s2).
Proof.
  destruct (map_unmap_roundtrip demo_space {[2]} {[0; 1]} 16 8192 {[8192]} 0x40000000 0x5000 RW) as (s1 & s2 & E1 & E2 & G1 & _ & G2 & _).
  - exact demo_ok.
  - apply demo_small.
  - exact demo_indexable.
  - exact demo_indexable.
  - unfold in_u. lia.
  - exact RW_range.
  - lia.
  - reflexivity.
  - exact demo_supply.
  - exists s1, s2. split_and!; [exact E1|exact E2|exact G1|exact G2].
Defined.
