(* ===== verification/KRange.v ===== *)
(** * Regions of pages

    Loops over the pages of a region: the pages that a loop of [Map] or [Remap]
    calls sets ([maps_pages]), and [MapRange]. *)

From S2P Require Import Prelude CMem CMonad CStruct KPhysical KPmm KPaging KTree KVspace KVmm.

(** ** Loops over regions *)

Definition cdiv (a b : Z) : Z := (a + b - 1) / b.

Lemma cdiv_spec a b k : 0 < b -> b * k < a <-> k < cdiv a b.
Proof.
  intros Hb. unfold cdiv. split; intros H.
  - apply Z.lt_le_trans with (k + 1); [lia|]. apply Z.div_le_lower_bound; lia.
  - pose proof (Z.mul_div_le (a + b - 1) b Hb). nia.
Qed.

Lemma range_loop_inv (P : Z -> kst -> Prop) PageSize Length body s : 0 < PageSize -> 0 <= Length -> Length + PageSize <= 2 ^ 64 ->
  P 0 s ->
  (forall k s, 0 <= k < cdiv Length PageSize -> P k s -> exists s', body (PageSize * k) s = Ret (Go tt, s') /\ P (k + 1) s') ->
  exists s', range_loop (range_fuel PageSize Length) PageSize Length 0 body s = Ret (Go tt, s') /\ P (cdiv Length PageSize) s'.
Proof.
  intros Hb HL Hw H0 Hstep. set (n := cdiv Length PageSize) in *.
  assert (Hn : 0 <= n) by (apply Z.div_pos; lia).
  assert (Hend : n <= Length / PageSize + 1).
  { unfold n, cdiv. replace (Length / PageSize + 1) with ((Length + 1 * PageSize) / PageSize) by (apply Z.div_add; lia).
    apply Z.div_le_mono; lia. }
  assert (Hgen : forall fuel k s, 0 <= k <= n -> (Z.to_nat (n - k) < fuel)%nat -> P k s ->
    exists s', range_loop fuel PageSize Length (PageSize * k) body s = Ret (Go tt, s') /\ P n s').
  { induction fuel as [|fuel IH]; intros k s1 Hk Hf HP; [lia|]. cbn [range_loop].
    destruct (Z.ltb_spec (PageSize * k) Length) as [Hlt|Hge].
    - apply cdiv_spec in Hlt; [|done]. fold n in Hlt. destruct (Hstep k s1 ltac:(lia) HP) as (s2 & E & HP2).
      erewrite bind_go by exact E. cbv beta.
      assert (Hkl : PageSize * k < Length) by (apply cdiv_spec; done).
      replace (u64 (PageSize * k + PageSize)) with (PageSize * (k + 1)) by (symmetry; replace (PageSize * k + PageSize) with (PageSize * (k + 1)) by lia; apply uw_small; unfold in_u; nia).
      apply IH; [lia|lia|done].
    - exists s1. split; [done|]. assert (k = n) as <-; [|done]. destruct (Z_lt_le_dec k n) as [Hlt|]; [|lia].
      apply cdiv_spec in Hlt; lia. }
  destruct (Hgen (range_fuel PageSize Length) 0 s ltac:(lia) ltac:(unfold range_fuel; lia) H0) as (s' & E & HP).
  rewrite Z.mul_0_r in E. eauto.
Qed.

(** ** Pages of a region *)

Lemma index_digits vpn n : 0 <= vpn < 512 ^ Z.of_nat n -> (forall k, (k < n)%nat -> index k vpn = 0) -> vpn = 0.
Proof.
  revert vpn. induction n as [|n IH]; intros vpn Hv Hi; [change (512 ^ Z.of_nat 0) with 1 in Hv; lia|].
  assert (H0 : vpn mod 512 = 0) by (specialize (Hi 0%nat ltac:(lia)); unfold index in Hi; by rewrite Z.div_1_r in Hi).
  rewrite Nat2Z.inj_succ, Z.pow_succ_r in Hv by lia.
  assert (Hq : vpn / 512 = 0); [|dlia]. apply IH; [split; [apply Z.div_pos; lia|apply Z.div_lt_upper_bound; lia]|].
  intros k Hk. specialize (Hi (S k) ltac:(lia)). unfold index in *. rewrite Nat2Z.inj_succ, Z.pow_succ_r in Hi by lia.
  by rewrite Z.div_div by lia.
Qed.

Lemma indexable_low va : 0 <= va -> 0 < vpn_of va < 2 ^ 36 -> indexable va.
Proof.
  intros Hva Hv. split; [done|]. right.
  destruct (Z.eq_dec (index 0 (vpn_of va)) 0) as [H0|]; [|tauto]. destruct (Z.eq_dec (index 1 (vpn_of va)) 0) as [H1|]; [|tauto].
  destruct (Z.eq_dec (index 2 (vpn_of va)) 0) as [H2|]; [|tauto]. destruct (Z.eq_dec (index 3 (vpn_of va)) 0) as [H3|]; [|tauto].
  enough (vpn_of va = 0) by lia. apply (index_digits (vpn_of va) 4); [change (512 ^ Z.of_nat 4) with (2 ^ 36); lia|].
  intros k Hk. destruct k as [|[|[|[|]]]]; try done; lia.
Qed.

(** Two pages have the same indices when they are 2^36 pages apart. *)
Lemma agree_mod n vpn vpn' : (forall k, (k < n)%nat -> index k vpn' = index k vpn) -> vpn' mod 512 ^ Z.of_nat n = vpn mod 512 ^ Z.of_nat n.
Proof.
  induction n as [|n IH]; intros H; [by rewrite !Z.mod_1_r|].
  assert (Hd : forall v, v mod 512 ^ Z.of_nat (S n) = v mod 512 ^ Z.of_nat n + 512 ^ Z.of_nat n * index n v).
  { intros v. unfold index. rewrite Nat2Z.inj_succ, Z.pow_succ_r, (Z.mul_comm 512) by lia. apply Z.rem_mul_r; lia. }
  rewrite !Hd, H by lia. f_equal. apply IH. intros k Hk. apply H. lia.
Qed.

Lemma agree_shift vpn k k' : agree 3 0 (vpn + k) (vpn + k') -> Z.abs (k' - k) < 2 ^ 36 -> k' = k.
Proof.
  intros Ha Hk. assert (Hm : (vpn + k') mod 2 ^ 36 = (vpn + k) mod 2 ^ 36).
  { apply (agree_mod 4). intros j Hj. apply Ha. lia. }
  pose proof (Z.div_mod (vpn + k') (2 ^ 36) ltac:(lia)). pose proof (Z.div_mod (vpn + k) (2 ^ 36) ltac:(lia)). nia.
Qed.

Lemma vpn_add va k : vpn_of (va + 4096 * k) = vpn_of va + k.
Proof. unfold vpn_of. dlia. Qed.

(** [s'] maps the [n] pages from [va] on with the entries [e]; all other pages
    are mapped as in [s]. *)
Record maps_pages (s : kst) (U R : gset Z) (N root : Z) (F : gset Z) (va n : Z) (e : Z -> Z) (s' : kst) (U' F' : gset Z) : Prop := {
  mp_space : vspace s' U' R N root F';
  mp_grows : grows s U F s' U' F' R;
  mp_in k : 0 <= k < n -> walk (kmem s') 3 root (vpn_of va + k) = Some (0%nat, e k);
  mp_out vpn : (forall k, 0 <= k < n -> ~ agree 3 0 (vpn_of va + k) vpn) ->
    walk (kmem s') 3 root vpn = walk (kmem s) 3 root vpn /\ leaf (kmem s') 3 root vpn = leaf (kmem s) 3 root vpn;
  mp_small vpn : small (kmem s) 3 root vpn -> small (kmem s') 3 root vpn
}.

Section pages.
Context (s : kst) (U R : gset Z) (N root va n : Z) (F : gset Z).
Context (V : vspace s U R N root F) (Hn : 0 <= n < 2 ^ 36).
Let vpn := vpn_of va.

Lemma maps_pages_none e : maps_pages s U R N root F va 0 e s U F.
Proof using V. split; [done|apply grows_refl|lia|done|done]. Qed.

Lemma pages_apart k k' : 0 <= k < n -> 0 <= k' < n -> agree 3 0 (vpn + k) (vpn + k') -> k' = k.
Proof using Hn. intros Hk Hk' Ha. apply (agree_shift vpn); [done|lia]. Qed.

Lemma maps_pages_snoc k e s1 U1 F1 s2 U2 F2 : 0 <= k < n -> maps_pages s U R N root F va k e s1 U1 F1 ->
  maps s1 U1 R N root F1 (va + 4096 * k) (Some (e k)) s2 U2 F2 -> maps_pages s U R N root F va (k + 1) e s2 U2 F2.
Proof using Hn.
  intros Hk [V1 G1 I1 O1 S1] [V2 G2 W2 L2 S2]. rewrite vpn_add in W2, L2. fold vpn in I1, O1, W2, L2. split; fold vpn.
  - done.
  - by eapply grows_trans.
  - intros j Hj. rewrite W2. case_decide as Ha.
    + by rewrite (pages_apart k j Hk ltac:(lia) Ha).
    + apply I1. destruct (decide (j = k)) as [->|]; [|lia]. destruct Ha. by intros i _.
  - intros w Hw. assert (Hnk : ~ agree 3 0 (vpn + k) w) by (apply Hw; lia).
    rewrite W2, decide_False, L2 by done. apply O1. intros j Hj. apply Hw. lia.
  - auto.
Qed.

(** One step [body k] sets the entry of page [k] to [new k old]. *)
Definition sets (body : Z -> K unit) (new : Z -> Z -> Z) : Prop := forall k s U F r,
  0 <= k < n -> vspace s U R N root F -> small (kmem s) 3 root (vpn + k) -> 0 <= r -> supply s U R N (r + 3) ->
  exists s' U' F', body k s = Ret (Go tt, s') /\ supply s' U' R N r /\
    maps s U R N root F (va + 4096 * k) (Some (new k (leaf (kmem s) 3 root (vpn + k)))) s' U' F'.

Definition pages_done (new : Z -> Z -> Z) (r k : Z) (s1 : kst) : Prop :=
  exists U1 F1, supply s1 U1 R N (r + 3 * (n - k)) /\
    maps_pages s U R N root F va k (fun k => new k (leaf (kmem s) 3 root (vpn + k))) s1 U1 F1.

Lemma pages_step body new r k s1 : sets body new -> (forall k, 0 <= k < n -> small (kmem s) 3 root (vpn + k)) -> 0 <= r ->
  0 <= k < n -> pages_done new r k s1 -> exists s2, body k s1 = Ret (Go tt, s2) /\ pages_done new r (k + 1) s2.
Proof using Hn.
  intros Hb Hs Hr Hk (U1 & F1 & Hsup & M1).
  destruct (Hb k s1 U1 F1 (r + 3 * (n - (k + 1)))) as (s2 & U2 & F2 & E & Hsup2 & M2).
  - done.
  - apply M1.
  - apply M1, Hs, Hk.
  - lia.
  - by replace (r + 3 * (n - (k + 1)) + 3) with (r + 3 * (n - k)) by lia.
  - exists s2. split; [done|]. exists U2, F2. split; [done|]. eapply maps_pages_snoc; [done|exact M1|].
    rewrite (proj2 (mp_out _ _ _ _ _ _ _ _ _ _ _ _ M1 (vpn + k) ltac:(intros j Hj Ha; pose proof (pages_apart j k ltac:(lia) Hk Ha); lia))) in M2.
    exact M2.
Qed.

Lemma pages_start new r : supply s U R N (r + 3 * n) -> pages_done new r 0 s.
Proof using V. intros Hs. exists U, F. rewrite Z.sub_0_r. split; [done|apply maps_pages_none]. Qed.

Lemma sets_Map pa Flags : in_u 64 Flags -> (forall k, 0 <= k < n -> indexable (va + 4096 * k)) ->
  va + 4096 * n <= 2 ^ 64 -> 0 <= va -> 0 <= pa -> pa + 4096 * n <= 2 ^ 64 ->
  sets (fun k => Map root (u64 (va + 4096 * k)) (u64 (pa + 4096 * k)) Flags FourKiB) (fun k old => map_entry old (pa + 4096 * k) Flags).
Proof using.
  intros HF Hi Hva Hva0 Hpa0 Hpa k s1 U1 F1 r Hk V1 S1 Hr Hsup. cbv beta.
  rewrite (uw_small 64 (va + 4096 * k)), (uw_small 64 (pa + 4096 * k)) by (unfold in_u; lia).
  pose proof (vpn_add va k) as Ev. fold vpn in Ev.
  destruct (Map_maps s1 U1 R N root F1 (va + 4096 * k) (pa + 4096 * k) Flags V1) as [Hgo _]; [by rewrite Ev|by apply Hi|done|].
  rewrite Ev in Hgo. destruct (Hgo r Hr Hsup) as (s' & U' & F' & E & M & Hs'). eauto 8.
Qed.

Lemma sets_Remap pa Flags : in_u 64 Flags -> (forall k, 0 <= k < n -> indexable (va + 4096 * k)) ->
  va + 4096 * n <= 2 ^ 64 -> 0 <= va -> 0 <= pa -> pa + 4096 * n <= 2 ^ 64 ->
  sets (fun k => Remap root (u64 (va + 4096 * k)) (u64 (pa + 4096 * k)) Flags FourKiB) (fun k old => remap_entry old (pa + 4096 * k) Flags).
Proof using.
  intros HF Hi Hva Hva0 Hpa0 Hpa k s1 U1 F1 r Hk V1 S1 Hr Hsup. cbv beta.
  rewrite (uw_small 64 (va + 4096 * k)), (uw_small 64 (pa + 4096 * k)) by (unfold in_u; lia).
  pose proof (vpn_add va k) as Ev. fold vpn in Ev.
  destruct (Remap_maps s1 U1 R N root F1 (va + 4096 * k) (pa + 4096 * k) Flags V1) as [Hgo _]; [by rewrite Ev|by apply Hi|done|].
  rewrite Ev in Hgo. destruct (Hgo r Hr Hsup) as (s' & U' & F' & E & M & Hs'). eauto 8.
Qed.

Lemma sets_ext body body' new : (forall k, 0 <= k < n -> body' k = body k) -> sets body new -> sets body' new.
Proof using. intros He Hb k s1 U1 F1 r Hk. rewrite He by done. by apply Hb. Qed.

(** A counted loop over the pages. *)
Lemma for_pages body new r : sets body new -> (forall k, 0 <= k < n -> small (kmem s) 3 root (vpn + k)) -> 0 <= r ->
  supply s U R N (r + 3 * n) ->
  exists s' U' F', for_loop (Z.to_nat n) 0 body s = Ret (Go tt, s') /\ supply s' U' R N r /\
    maps_pages s U R N root F va n (fun k => new k (leaf (kmem s) 3 root (vpn + k))) s' U' F'.
Proof using V Hn.
  intros Hb Hs Hr Hsup.
  destruct (for_loop_inv (pages_done new r) (Z.to_nat n) 0 body s (pages_start new r Hsup)) as (s' & E & (U' & F' & Hs' & M)).
  - intros k s1 Hk Hd. apply (pages_step body new); [done|done|done|lia|done].
  - rewrite Z.add_0_l, Z2Nat.id in Hs', M by lia. exists s', U', F'. split; [exact E|]. split; [|exact M].
    by replace (r + 3 * (n - n)) with r in Hs' by lia.
Qed.
End pages.

(** Mapping a region page by page. *)
Lemma MapRange_pages s U R N root F va pa Length Flags r (n := cdiv Length 4096) :
  vspace s U R N root F -> 0 <= Length < 2 ^ 47 -> in_u 64 Flags -> 0 <= va -> va + 4096 * n <= 2 ^ 64 -> 0 <= pa -> pa + 4096 * n <= 2 ^ 64 ->
  (forall k, 0 <= k < n -> indexable (va + 4096 * k) /\ small (kmem s) 3 root (vpn_of va + k)) ->
  0 <= r -> supply s U R N (r + 3 * n) ->
  exists s' U' F', MapRange root va pa Length Flags FourKiB s = Ret (Go tt, s') /\ supply s' U' R N r /\
    maps_pages s U R N root F va n (fun k => map_entry (leaf (kmem s) 3 root (vpn_of va + k)) (pa + 4096 * k) Flags) s' U' F'.
Proof.
  intros V HL HF Hva Hvan Hpa Hpan Hp Hr Hsup.
  assert (Hn : 0 <= n < 2 ^ 36) by (unfold n, cdiv; dlia).
  set (new := fun k old => map_entry old (pa + 4096 * k) Flags).
  destruct (range_loop_inv (pages_done s U R N root va n F new r) 4096 Length
    (fun i => Map root (u64 (va + i)) (u64 (pa + i)) Flags FourKiB) s) as (s' & E & (U' & F' & Hs' & M)).
  - lia.
  - lia.
  - lia.
  - by apply pages_start.
  - intros k s1 Hk Hd. fold n in Hk.
    apply (pages_step s U R N root va n F Hn (fun k => Map root (u64 (va + 4096 * k)) (u64 (pa + 4096 * k)) Flags FourKiB) new r k s1);
      [apply sets_Map; try done; intros j Hj; by apply Hp|intros j Hj; by apply Hp|done|done|done].
  - fold n in Hs', M. exists s', U', F'. split; [exact E|]. split; [|exact M].
    by replace (r + 3 * (n - n)) with r in Hs' by lia.
Qed.
