(* ===== verification/KVma.v ===== *)
(** * Memory of processes

    [Memory::VirtualMemoryArea] ([src/Kernel/core/memory/vma.cpp]), the
    program break ([brk.cpp]) and [Memory::VirtualAllocation] ([va.cpp]), on
    amd64: lists of the pages that have been handed out, and the page table
    they are mapped in.

    The locks, the translation caches and logging are left out; so are the
    constructors that look up the current process, and
    [VirtualMemoryArea::Fork], which copies through the page table that the
    processor has loaded. *)

From S2P Require Import Prelude CMem CMonad CStruct KPhysical KPaging.

(** The error numbers of [include/interface/errno.h]. *)
Definition K_EAGAIN : Z := 6.
Definition K_EFAULT : Z := 21.
Definition K_ENOMEM : Z := 49.
Definition K_EPERM : Z := 67.

(** ** State *)

Record AllocatedPages := MkAllocated { ap_Address : Z; ap_PageCount : Z; ap_Protected : bool }.

Record SharedRegion := MkShared {
  sr_Address : Z; sr_Read : bool; sr_Write : bool; sr_Exec : bool; sr_Fixed : bool; sr_Shared : bool;
  sr_Length : Z; sr_ReferenceCount : Z }.

Record VirtualMemoryArea := MkVma {
  Table : Z; AllocatedPagesList : list AllocatedPages; SharedRegions : list SharedRegion }.

Record vst := VSt { vk : kst; vma : VirtualMemoryArea }.

Abbreviation VM := (ST vst).

Definition lift {A} (c : K A) : VM A := fun s => let! r := c (vk s) in Ret (r.1, VSt r.2 (vma s)).
Definition set_allocated (f : list AllocatedPages -> list AllocatedPages) : VM unit :=
  puts (fun s => VSt (vk s) (MkVma (Table (vma s)) (f (AllocatedPagesList (vma s))) (SharedRegions (vma s)))).
Definition add_shared (r : SharedRegion) : VM unit :=
  puts (fun s => VSt (vk s) (MkVma (Table (vma s)) (AllocatedPagesList (vma s)) (SharedRegions (vma s) ++ [r]))).
Definition table : VM Z := gets (fun s => Table (vma s)).
Definition allocated : VM (list AllocatedPages) := gets (fun s => AllocatedPagesList (vma s)).

(** ** Pages *)

Definition GetAllocatedMemorySize : VM Z :=
  l ← allocated;
  mret (FROM_PAGES (foldl (fun Size ap => u64 (Size + ap_PageCount ap)) 0 l)).

Definition vma_RequestPages (Count : Z) (User Protect : bool) : VM Z :=
  Address ← lift (RequestPages Count);
  lift (kmemset Address 0 (u64 (Count * PAGE_SIZE)));;
  let Flags := Z.lor (Z.lor RW (if User then US else 0)) (if Protect then KRsv else 0) in
  t ← table;
  lift (MapRange t Address Address (FROM_PAGES Count) Flags FourKiB);;
  set_allocated (fun l => l ++ [MkAllocated Address Count Protect]);;
  mret Address.

(** [Remap] of [Count] pages to themselves. *)
Definition remap_pages (t Address Count : Z) : K unit :=
  for_loop (Z.to_nat Count) 0 (fun i =>
    let AddressToMap := u64 (Address + u64 (i * PAGE_SIZE)) in
    Remap t AddressToMap AddressToMap RW FourKiB).

(** [erase] of the first element with the address. *)
Fixpoint erase_pages (Address : Z) (l : list AllocatedPages) : list AllocatedPages :=
  match l with
  | [] => []
  | ap :: l => if ap_Address ap =? Address then l else ap :: erase_pages Address l
  end.

Definition find_pages (Address : Z) (l : list AllocatedPages) : option AllocatedPages :=
  List.find (fun ap => ap_Address ap =? Address) l.

Definition vma_FreePages (Address Count : Z) : VM unit :=
  l ← allocated;
  match find_pages Address l with
  | None => mret tt
  | Some itr =>
      if ap_Protected itr then mret tt
      else if negb (ap_PageCount itr =? Count) then mret tt
      else
        t ← table;
        lift (remap_pages t Address Count);;
        lift (FreePages Address Count);;
        set_allocated (erase_pages Address)
  end.

Definition DetachAddress (Address : Z) : VM unit :=
  l ← allocated;
  match find_pages Address l with
  | None => mret tt
  | Some itr => if ap_Protected itr then mret tt else set_allocated (erase_pages Address)
  end.

Fixpoint free_all (t : Z) (l : list AllocatedPages) : K unit :=
  match l with
  | [] => mret tt
  | ap :: l =>
      FreePages (ap_Address ap) (ap_PageCount ap);;
      remap_pages t (ap_Address ap) (ap_PageCount ap);;
      free_all t l
  end.

Definition FreeAllPages : VM unit :=
  t ← table;
  l ← allocated;
  lift (free_all t l);;
  set_allocated (fun _ => []).

(** The destructor. *)
Fixpoint release_all (l : list AllocatedPages) : K unit :=
  match l with
  | [] => mret tt
  | ap :: l => FreePages (ap_Address ap) (ap_PageCount ap);; release_all l
  end.
Definition vma_destroy : VM unit := l ← allocated; lift (release_all l).

(** ** Copy on write *)

Definition CreateCoWRegion (Address Length : Z) (Read Write Exec Fixed Shared : bool) : VM Z :=
  if Address =? 0 then vma_RequestPages (TO_PAGES Length) true false
  else
    t ← table;
    b ← lift (Check t Address KRsv);
    if b : bool then mret (u64 (- K_EPERM))
    else
      lift (UnmapRange t Address Length FourKiB);;
      lift (MapRange t Address 0 Length CoW FourKiB);;
      add_shared (MkShared Address Read Write Exec Fixed Shared Length 0);;
      mret Address.

Definition put_bit (raw k : Z) (b : bool) : Z := if b then Z.setbit raw k else Z.clearbit raw k.

(** The first region that has the address. *)
Definition find_region (PFA : Z) (l : list SharedRegion) : option SharedRegion :=
  List.find (fun sr => (PFA >=? sr_Address sr) && (PFA <? u64 (sr_Address sr + sr_Length sr))) l.

Definition HandleCoW (PFA : Z) : VM bool :=
  t ← table;
  pte ← lift (GetPTE t PFA);
  if pte =? 0 then mret false
  else
    e ← lift (entry_at pte);
    if negb (Z.testbit e 9) then mret false
    else
      l ← gets (fun s => SharedRegions (vma s));
      match find_region PFA l with
      | None => mret false
      | Some sr =>
          if sr_Shared sr then mret false
          else
            pAddr ← vma_RequestPages 1 false false;
            if pAddr =? 0 then mret false
            else
              lift (kmemset pAddr 0 PAGE_SIZE);;
              e ← lift (entry_at pte);
              lift (assert (Present e));;
              lift (upd_entry pte (fun raw => put_bit raw 1 (sr_Write sr)));;
              lift (upd_entry pte (fun raw => put_bit raw 2 (sr_Read sr)));;
              lift (upd_entry pte (fun raw => put_bit raw 63 (sr_Exec sr)));;
              lift (upd_entry pte (fun raw => put_bit raw 9 false));;
              mret true
      end.

(** ** Mapping with checks *)

(** [for (va = a; va < a + Length; va += PAGE_SIZE) if (Check(x, Flag)) ...]:
    [x va] is the address that is checked; the result is the first answer that
    is [found]. *)
Fixpoint check_loop (fuel : nat) (t : Z) (x : Z -> Z) (Flag : Z) (found : bool) (va stop : Z) : K bool :=
  match fuel with
  | O => no_fuel
  | S fuel =>
      if va <? stop then
        b ← Check t (x va) Flag;
        if eqb b found then mret true else check_loop fuel t x Flag found (u64 (va + PAGE_SIZE)) stop
      else mret false
  end.
Definition check_pages (t : Z) (x : Z -> Z) (Flag : Z) (found : bool) (a Length : Z) : K bool :=
  check_loop (range_fuel PAGE_SIZE Length) t x Flag found a (u64 (a + Length)).

Definition vma_Map (VirtualAddress PhysicalAddress Length Flags : Z) : VM Z :=
  t ← table;
  b ← lift (check_pages t (fun _ => VirtualAddress) KRsv true VirtualAddress Length);
  if b : bool then mret (- K_EPERM)
  else
    b ← lift (check_pages t (fun _ => PhysicalAddress) KRsv true PhysicalAddress Length);
    if b : bool then mret (- K_EPERM)
    else lift (MapRange t VirtualAddress PhysicalAddress Length Flags FourKiB);; mret 0.

Definition vma_Remap (VirtualAddress PhysicalAddress Flags : Z) : VM Z :=
  t ← table;
  b ← lift (Check t VirtualAddress KRsv);
  if b : bool then mret (- K_EPERM)
  else
    b ← lift (Check t PhysicalAddress KRsv);
    if b : bool then mret (- K_EPERM)
    else lift (Remap t VirtualAddress PhysicalAddress Flags FourKiB);; mret 0.

Definition vma_Unmap (VirtualAddress Length : Z) : VM Z :=
  t ← table;
  b ← lift (check_pages t (fun _ => VirtualAddress) KRsv true VirtualAddress Length);
  if b : bool then mret (- K_EPERM)
  else lift (UnmapRange t VirtualAddress Length FourKiB);; mret 0.

(** ** Pointers from user mode *)

Definition UserCheckAndGetAddress (Address Length : Z) : VM Z :=
  t ← table;
  pAddress ← lift (PageTable_Get t Address);
  if pAddress =? 0 then mret 0
  else
    b ← lift (check_pages t (fun va => va) US false (page_of Address) Length);
    if b : bool then mret 0 else mret pAddress.

Definition UserCheck (Address Length : Z) : VM Z :=
  t ← table;
  b ← lift (Check t Address US);
  if b : bool then mret 0 else mret (- K_EFAULT).

(** ** The program break *)

Record ProgramBreak := MkBreak { pb_Table : Z; HeapStart : Z; Break : Z }.
Record bst := BSt { bv : vst; pb : ProgramBreak }.

Definition lift_vma {A} (c : VM A) : ST bst A := fun s => let! r := c (bv s) in Ret (r.1, BSt r.2 (pb s)).
Definition set_break (a : Z) : ST bst unit := puts (fun s => BSt (bv s) (MkBreak (pb_Table (pb s)) (HeapStart (pb s)) a)).

Definition InitBrk (Address : Z) : ST bst unit :=
  puts (fun s => BSt (bv s) (MkBreak (pb_Table (pb s)) Address Address)).
Definition SetTable (t : Z) : ST bst unit :=
  puts (fun s => BSt (bv s) (MkBreak t (HeapStart (pb s)) (Break (pb s)))).

Definition ROUND_UP (x y : Z) : Z := Z.land (u64 (x + y - 1)) (u64 (Z.lnot (y - 1))).

Definition brk (Address : Z) : ST bst Z :=
  p ← gets pb;
  if (HeapStart p =? 0) || (Break p =? 0) then mret (u64 (- K_EAGAIN))
  else if Address =? 0 then mret (Break p)
  else if Address <? HeapStart p then mret (u64 (- K_ENOMEM))
  else if Address >? Break p then
    let Pages := TO_PAGES (Address - Break p) in
    Allocated ← lift_vma (vma_RequestPages Pages false false);
    if Allocated =? 0 then mret (u64 (- K_ENOMEM))
    else
      lift_vma (lift (for_loop (Z.to_nat Pages) 0 (fun i =>
        Map (pb_Table p) (u64 (Break p + u64 (i * PAGE_SIZE))) (u64 (Allocated + u64 (i * PAGE_SIZE))) (Z.lor RW US) FourKiB)));;
      set_break (ROUND_UP Address PAGE_SIZE);;
      mret Address
  else
    let Pages := TO_PAGES (Break p - Address) in
    lift_vma (vma_FreePages (Break p) Pages);;
    lift_vma (lift (for_loop (Z.to_nat Pages) 0 (fun i =>
      let Page := u64 (Break p - u64 (i * 0x1000)) in
      Remap (pb_Table p) Page Page RW FourKiB)));;
    set_break Address;;
    mret Address.

(** ** Allocations of kernel address space *)

Definition USER_ALLOC_END : Z := 0xFFFFB00000000000.

Record VaPages := MkVaPages { PhysicalAddress_ : Z; VirtualAddress_ : Z; va_PageCount : Z; va_Free : bool }.
Record VirtualAllocation := MkVa { va_Table : Z; CurrentBase : Z; VaList : list VaPages }.
Record ast := ASt { ak : kst; va : VirtualAllocation }.

Definition lift_va {A} (c : K A) : ST ast A := fun s => let! r := c (ak s) in Ret (r.1, ASt r.2 (va s)).
Definition upd_va (f : VirtualAllocation -> VirtualAllocation) : ST ast unit := puts (fun s => ASt (ak s) (f (va s))).
Definition set_list (f : list VaPages -> list VaPages) (a : VirtualAllocation) : VirtualAllocation :=
  MkVa (va_Table a) (CurrentBase a) (f (VaList a)).
Definition va_flags : Z := Z.lor (Z.lor RW KRsv) G.

(** The first free block that is large enough, with what is in front of it and
    behind it. *)
Fixpoint find_block (Count : Z) (front l : list VaPages) : option (list VaPages * VaPages * list VaPages) :=
  match l with
  | [] => None
  | itr :: l =>
      if va_Free itr && (va_PageCount itr >=? Count) then Some (front, itr, l) else find_block Count (front ++ [itr]) l
  end.

Definition va_RequestPages (Count : Z) : ST ast VaPages :=
  pAddress ← lift_va (RequestPages Count);
  lift_va (kmemset pAddress 0 (FROM_PAGES Count));;
  a ← gets va;
  let t := va_Table a in
  match find_block Count [] (VaList a) with
  | Some (front, itr, back) =>
      if va_PageCount itr =? Count then
        let itr := MkVaPages (PhysicalAddress_ itr) (VirtualAddress_ itr) (va_PageCount itr) false in
        upd_va (set_list (fun _ => front ++ itr :: back));;
        lift_va (MapRange t (VirtualAddress_ itr) pAddress (FROM_PAGES Count) va_flags FourKiB);;
        mret itr
      else
        let vAddress := VirtualAddress_ itr in
        let pAddress := PhysicalAddress_ itr in
        let rest := MkVaPages (u64 (pAddress + FROM_PAGES Count)) (u64 (vAddress + FROM_PAGES Count)) (va_PageCount itr - Count) true in
        let new := MkVaPages pAddress vAddress Count false in
        upd_va (set_list (fun _ => front ++ back ++ [rest; new]));;
        lift_va (MapRange t vAddress pAddress (FROM_PAGES Count) va_flags FourKiB);;
        mret new
  | None =>
      let vAddress := CurrentBase a in
      let new := MkVaPages pAddress vAddress Count false in
      lift_va (MapRange t vAddress pAddress (FROM_PAGES Count) va_flags FourKiB);;
      upd_va (fun a => MkVa (va_Table a) (u64 (CurrentBase a + FROM_PAGES Count)) (VaList a ++ [new]));;
      base ← gets (fun s => CurrentBase (va s));
      lift_va (assert (USER_ALLOC_END >? base));;
      mret new
  end.

(** [Unmap] of the pages of a block. *)
Definition unmap_pages (t Address Count : Z) : K unit :=
  for_loop (Z.to_nat Count) 0 (fun i => Unmap t (u64 (Address + FROM_PAGES i)) FourKiB).

(** The first block at the address is marked as free. *)
Fixpoint free_block (Address : Z) (l : list VaPages) : list VaPages :=
  match l with
  | [] => []
  | p :: l =>
      if VirtualAddress_ p =? Address then MkVaPages (PhysicalAddress_ p) (VirtualAddress_ p) (va_PageCount p) true :: l
      else p :: free_block Address l
  end.

Definition va_FreePages (Address Count : Z) : ST ast unit :=
  a ← gets va;
  match List.find (fun p => VirtualAddress_ p =? Address) (VaList a) with
  | None => mret tt
  | Some apl =>
      if negb (va_PageCount apl =? Count) then mret tt
      else
        lift_va (unmap_pages (va_Table a) Address Count);;
        lift_va (FreePages Address Count);;
        upd_va (set_list (free_block Address))
  end.

Definition MapTo (ap : VaPages) (TargetTable : Z) : ST ast unit :=
  lift_va (MapRange TargetTable (VirtualAddress_ ap) (PhysicalAddress_ ap) (FROM_PAGES (va_PageCount ap)) va_flags FourKiB).

Fixpoint va_release (t : Z) (l : list VaPages) : K unit :=
  match l with
  | [] => mret tt
  | ap :: l =>
      FreePages (PhysicalAddress_ ap) (va_PageCount ap);;
      unmap_pages t (VirtualAddress_ ap) (va_PageCount ap);;
      va_release t l
  end.
Definition va_destroy : ST ast unit := a ← gets va; lift_va (va_release (va_Table a) (VaList a)).
