(* ===== verification/KVmaTheorems.v ===== *)
(** * Memory of processes: theorems

    The requests, releases and checks of [KVma] on address spaces: what a
    process gets from [RequestPages] ([handed]) and gives back, how [brk] moves
    the heap, which pages a pointer from user mode is checked for, and what
    happens to kernel address space that is released. *)

From S2P Require Import Prelude CMem CMonad CStruct KPhysical KPmm KPaging KTree KVspace KVmm KRange KVma.


#[local] Opaque zero_page put_entry ent.

(** ** Writing data *)

(** A change that leaves the tables alone. *)
Lemma vspace_keep s U R N root F s' U' : vspace s U R N root F -> holds s' U' R -> bm s' = bm s ->
  (forall x, x ∈ F -> x / 4096 ∈ U') ->
  shape (kmem s) (kmem s') -> (forall x, x ∈ F -> page_same (kmem s) (kmem s') x) ->
  vspace s' U' R N root F /\ forall w, stop (kmem s') 3 root w = stop (kmem s) 3 root w.
Proof.
  intros V Hh Hbm HU Hsh Hp. destruct V as [Vh Vt Vo Vb Vr Vz [Vt1 Vt2]].
  destruct (tree_same (kmem s) (kmem s') 3 root F) as [HT Hw]; [done| |done|].
  { intros x Hx. eapply shape_cells; [exact Hsh|]. by destruct (tree_tables _ _ _ _ Vt x Hx) as (_ & _ & ?). }
  split; [|exact Hw]. split; try done.
  - by rewrite Hbm.
  - intros i Hi Hn. eapply shape_cells; [exact Hsh|by apply Vr].
  - unfold frames. rewrite Hbm. split; [done|]. intros x Hx. by apply Hsh, Vt2.
Qed.

(** [memset] of whole frames to 0. *)
Definition zeroed (m : mem) (a n : Z) : mem := write_bytes m a (replicate (Z.to_nat n) 0).

Lemma lookup_zeroed m a n x : 0 <= n -> zeroed m a n !! x = if decide (a <= x < a + n) then Some 0 else m !! x.
Proof.
  intros Hn. unfold zeroed. rewrite lookup_write_bytes, length_replicate, Z2Nat.id by lia. case_decide; [|done].
  apply lookup_replicate_2. lia.
Qed.

Lemma memset_zero s a n : 0 <= n -> cells (kmem s) a n -> kmemset a 0 n s = Ret (Go tt, set_kmem s (zeroed (kmem s) a n)).
Proof.
  intros Hn Hc. unfold kmemset, kwrite, zeroed. change (u8 0) with 0. rewrite store_bytes_mapped; [reflexivity| |].
  - apply Forall_replicate. unfold byte. lia.
  - rewrite length_replicate, Z2Nat.id by lia. intros k Hk. destruct (Hc (a + k)) as (b & Hb & _); [lia|by eexists].
Qed.

Lemma zeroed_shape m a n : 0 <= n -> cells m a n -> shape m (zeroed m a n).
Proof.
  intros Hn Hc. apply (touched_shape m _ a n Hc). split.
  - intros x Hx. rewrite lookup_zeroed, decide_False by lia. done.
  - intros x b Hx Hb. rewrite lookup_zeroed by done. case_decide; [exists 0; split; [done|unfold byte; lia]|by exists b].
Qed.

(** The frames from [q] on. *)
Lemma cells_frames s U R N root F q n : vspace s U R N root F -> 0 <= q -> q + n <= N -> (forall i, q <= i < q + n -> i ∉ R) ->
  cells (kmem s) (4096 * q) (4096 * n).
Proof.
  intros V Hq Hn HR x Hx. assert (Hi : q <= x / 4096 < q + n) by dlia.
  apply (vs_ram _ _ _ _ _ _ V (x / 4096)); [lia|by apply HR|dlia].
Qed.

(** Fresh frames, zeroed, are in use now, and hold no table. *)
Lemma fresh_frames s U R N root F q n s1 : vspace s U R N root F -> 0 <= q -> 0 < n -> q + n <= N -> pages_found s U R n q s1 ->
  let a := 4096 * q in let s2 := set_kmem s1 (zeroed (kmem s1) a (4096 * n)) in
  kmemset a 0 (4096 * n) s1 = Ret (Go tt, s2) /\ vspace s2 (run q n ∪ U) R N root F /\
  (forall w, stop (kmem s2) 3 root w = stop (kmem s) 3 root w) /\
  (forall y, ~ Buffer (bm s) <= y < Buffer (bm s) + Size (bm s) -> ~ a <= y < a + 4096 * n -> kmem s2 !! y = kmem s !! y).
Proof.
  intros V Hq Hn HN (_ & _ & Hfit & Hh & Ho & _) a s2.
  assert (HR : forall i, q <= i < q + n -> i ∉ R) by (intros i Hi HR; apply (Hfit i Hi); by apply elem_of_union_r).
  pose proof (cells_frames _ _ _ _ _ _ q n V Hq HN HR) as Hc. pose proof (outside_shape _ _ Ho) as Hsh.
  pose proof (shape_cells _ _ _ _ Hsh Hc) as Hc1. fold a in Hc1.
  assert (Hpage : forall y, a <= y < a + 4096 * n -> q <= y / 4096 < q + n) by (intros y Hy; unfold a in Hy; dlia).
  assert (Hz : forall y, ~ a <= y < a + 4096 * n -> kmem s2 !! y = kmem s1 !! y).
  { intros y Hy. change (zeroed (kmem s1) a (4096 * n) !! y = kmem s1 !! y). by rewrite lookup_zeroed, decide_False by lia. }
  assert (Hsh2 : shape (kmem s1) (kmem s2)) by (apply zeroed_shape; [lia|done]).
  destruct (vspace_keep s U R N root F s2 (run q n ∪ U) V) as [V2 Hw].
  - apply holds_elsewhere; [done|exact Hsh2|]. intros y Hy. apply Hz. intros Hin. rewrite (ou_bitmap _ _ Ho) in Hy.
    by apply (HR (y / 4096) (Hpage y Hin)), V.
  - apply Ho.
  - intros x Hx. apply elem_of_union_r. by apply V.
  - by eapply shape_trans.
  - intros x Hx y Hy. rewrite Hz; [by eapply (outside_page s)|]. intros Hin.
    destruct (vs_table _ _ _ _ _ _ V x Hx) as (_ & Hxm & _). apply (Hfit (y / 4096) (Hpage y Hin)), elem_of_union_l.
    rewrite (page_frame x y Hxm Hy). by apply V.
  - split; [apply memset_zero; [lia|done]|]. split; [exact V2|]. split; [exact Hw|].
    intros y Hb Hin. rewrite Hz by done. apply Ho. lia.
Qed.

(** ** Requests of processes *)

Lemma lift_go {A} (c : K A) s a k : c (vk s) = Ret (Go a, k) -> lift c s = Ret (Go a, VSt k (vma s)).
Proof. intros E. unfold lift. by rewrite E. Qed.

(** The frames from [q] on, [n] of them, have been handed out: they are in use,
    zeroed, and mapped at their own addresses with the flags [fl]; everything
    else is as it was, but for new tables. *)
Record handed (s : kst) (U R : gset Z) (N root : Z) (F : gset Z) (q n fl : Z) (s' : kst) (U' F' : gset Z) : Prop := {
  hd_free : fits U R n q;
  hd_space : vspace s' U' R N root F';
  hd_used : run q n ∪ U ⊆ U';
  hd_mapped k : 0 <= k < n -> walk (kmem s') 3 root (q + k) =
    Some (0%nat, map_entry (leaf (kmem s) 3 root (q + k)) (4096 * (q + k)) fl);
  hd_zero x : 4096 * q <= x < 4096 * (q + n) -> kmem s' !! x = Some 0;
  hd_others vpn : (forall k, 0 <= k < n -> ~ agree 3 0 (q + k) vpn) ->
    walk (kmem s') 3 root vpn = walk (kmem s) 3 root vpn /\ leaf (kmem s') 3 root vpn = leaf (kmem s) 3 root vpn;
  hd_small vpn : small (kmem s) 3 root vpn -> small (kmem s') 3 root vpn;
  hd_tables x : x ∈ F' -> x ∈ F \/ x / 4096 ∉ run q n ∪ U ∪ R;
  hd_rest y : elsewhere s F' y -> ~ 4096 * q <= y < 4096 * (q + n) -> kmem s' !! y = kmem s !! y;
  hd_bitmap : bm s' = bm s
}.

(** Memory for [n] pages and their tables, and for [r] tables more. *)
Definition provision (s : kst) (U R : gset Z) (N n r q : Z) : Prop := stock s U R q (n + 2 * (r + 3 * n)) /\ q + (n + 2 * (r + 3 * n)) <= N.

Lemma stock_take s U R q n m s1 : 0 <= n -> 0 <= m -> stock s U R q (n + m) -> bm s1 = bm s -> cursor s1 = q ->
  stock s1 (run q n ∪ U) R (q + n) m.
Proof.
  intros Hn Hm (Hc & Hl & Hf & Hj) Hb Hcu. unfold stock, frames. rewrite Hb, Hcu. unfold frames in Hl. split_and!; [lia|lia| |].
  - intros j Hr. specialize (Hf j ltac:(lia)). rewrite !elem_of_union, elem_of_run in *. intuition lia.
  - intros j Hr. rewrite !elem_of_union, elem_of_run. left. left. lia.
Qed.

Section requests.
Context (s : kst) (U R : gset Z) (N root : Z) (F : gset Z) (q n fl r : Z).
Context (V : vspace s U R N root F) (HN : N <= 2 ^ 36) (Hn : 0 < n) (Hr : 0 <= r) (Hfl : in_u 64 fl).
Context (Hlow : forall i, 0 < i < N -> small (kmem s) 3 root i) (Hp : provision s U R N n r q).

Lemma cdiv_pages k : cdiv (4096 * k) 4096 = k.
Proof. unfold cdiv. dlia. Qed.

Lemma request_handed : exists s1 s2 s' U' F',
  RequestPages n s = Ret (Go (4096 * q), s1) /\ kmemset (4096 * q) 0 (u64 (n * PAGE_SIZE)) s1 = Ret (Go tt, s2) /\
  MapRange root (4096 * q) (4096 * q) (FROM_PAGES n) fl FourKiB s2 = Ret (Go tt, s') /\
  handed s U R N root F q n fl s' U' F' /\ supply s' U' R N r /\ 0 < q.
Proof using V HN Hn Hr Hfl Hlow Hp.
  destruct Hp as [Hst HqN]. pose proof (vs_holds _ _ _ _ _ _ V) as H. pose proof (ho_index _ _ _ H) as Hix. unfold in_u in Hix.
  pose proof Hst as (Hc & Hle & Hfit & Hj).
  assert (Hq : 0 < q). { destruct (decide (q = 0)) as [->|]; [|lia]. exfalso. apply (Hfit 0); [lia|]. apply elem_of_union_r, V. }
  destruct (RequestPages_stock s U R n q H ltac:(lia)) as (s1 & E1 & Hf & Hcu).
  { split_and!; [done|lia| |done]. intros j Hb. apply Hfit. lia. }
  destruct (fresh_frames s U R N root F q n s1 V ltac:(lia) Hn ltac:(lia) Hf) as (E2 & V2 & Hw2 & Hm2).
  set (s2 := set_kmem s1 (zeroed (kmem s1) (4096 * q) (4096 * n))) in *.
  assert (Hlen : u64 (n * PAGE_SIZE) = 4096 * n) by (rewrite Z.mul_comm; apply uw_small; unfold in_u, PAGE_SIZE; lia).
  assert (Hvq : vpn_of (4096 * q) = q) by (unfold vpn_of; dlia).
  destruct (MapRange_pages s2 (run q n ∪ U) R N root F (4096 * q) (4096 * q) (FROM_PAGES n) fl r V2)
    as (s' & U' & F' & E3 & Hsup & M); unfold FROM_PAGES; rewrite ?Hlen, ?cdiv_pages; try lia; try done.
  { intros k Hk. rewrite Hvq. split.
    - apply indexable_low; [lia|]. rewrite vpn_add, Hvq. lia.
    - rewrite small_stop, Hw2, <- small_stop. apply Hlow. lia. }
  { exists (q + n). split; [|lia]. apply (stock_take s); [lia|lia|exact Hst| |done]. destruct Hf as (_ & _ & _ & _ & Ho & _). apply Ho. }
  unfold FROM_PAGES in E3, M. rewrite Hlen in E3, M. rewrite cdiv_pages in M. destruct M as [VM GM IM OM SM]. rewrite Hvq in IM, OM.
  assert (Hleaf : forall w, leaf (kmem s2) 3 root w = leaf (kmem s) 3 root w) by (intros w; by rewrite !leaf_stop, Hw2).
  assert (Hwalk : forall w, walk (kmem s2) 3 root w = walk (kmem s) 3 root w) by (intros w; by rewrite !walk_stop, Hw2).
  exists s1, s2, s', U', F'. split_and!; [exact E1|exact E2|exact E3| |exact Hsup|exact Hq].
  assert (Htab : forall x, x ∈ F' -> x ∈ F \/ x / 4096 ∉ run q n ∪ U ∪ R).
  { intros x Hx. destruct (gr_fresh _ _ _ _ _ _ _ GM x Hx); [by left|by right]. }
  assert (Hbm : bm s2 = bm s) by (destruct Hf as (_ & _ & _ & _ & Ho & _); apply Ho).
  split; try done.
  - intros k Hk. apply Hfit. lia.
  - exact (gr_used _ _ _ _ _ _ _ GM).
  - intros k Hk. rewrite IM by done. rewrite Hleaf. do 2 f_equal. f_equal. lia.
  - intros x Hx. rewrite (gr_mem _ _ _ _ _ _ _ GM).
    + change (zeroed (kmem s1) (4096 * q) (4096 * n) !! x = Some 0). rewrite lookup_zeroed, decide_True by lia. done.
    + assert (Hxq : q <= x / 4096 < q + n) by dlia. split.
      * intros t Ht Hin. destruct (vs_table _ _ _ _ _ _ VM t Ht) as (_ & Htm & _). pose proof (page_frame t x Htm Hin) as Et.
        destruct (Htab t Ht) as [HtF|Hn'].
        -- apply (Hfit (x / 4096)); [lia|]. apply elem_of_union_l. rewrite Et. by apply V.
        -- apply Hn'. rewrite <- Et, !elem_of_union, elem_of_run. left. left. done.
      * rewrite Hbm. intros Hb. apply (Hfit (x / 4096)); [lia|]. apply elem_of_union_r. by apply V.
  - intros w Hne. rewrite <- Hwalk, <- Hleaf. by apply OM.
  - intros w Hs. apply SM. by rewrite small_stop, Hw2, <- small_stop.
  - intros y [Hy1 Hy2] Hin. rewrite (gr_mem _ _ _ _ _ _ _ GM); [apply Hm2; [done|lia]|]. split; [done|]. by rewrite Hbm.
  - by rewrite (gr_bitmap _ _ _ _ _ _ _ GM).
Qed.
End requests.

(** ** Theorems *)

Definition request_flags (User Protect : bool) : Z := Z.lor (Z.lor RW (if User then US else 0)) (if Protect then KRsv else 0).

Lemma request_flags_range User Protect : in_u 64 (request_flags User Protect).
Proof. unfold in_u. by destruct User, Protect. Qed.

Section vma_requests.
Context (s : vst) (U R : gset Z) (N : Z) (F : gset Z) (q Count r : Z) (User Protect : bool).
Let root := Table (vma s).
Context (V : vspace (vk s) U R N root F) (HN : N <= 2 ^ 36) (Hn : 0 < Count) (Hr : 0 <= r).
Context (Hlow : forall i, 0 < i < N -> small (kmem (vk s)) 3 root i) (Hp : provision (vk s) U R N Count r q).

Lemma vma_request : exists s' U' F',
  vma_RequestPages Count User Protect s = Ret (Go (4096 * q), s') /\
  handed (vk s) U R N root F q Count (request_flags User Protect) (vk s') U' F' /\ supply (vk s') U' R N r /\ 0 < q /\
  vma s' = MkVma root (AllocatedPagesList (vma s) ++ [MkAllocated (4096 * q) Count Protect]) (SharedRegions (vma s)).
Proof using V HN Hn Hr Hlow Hp.
  destruct (request_handed (vk s) U R N root F q Count (request_flags User Protect) r V HN Hn Hr
    (request_flags_range _ _) Hlow Hp) as (s1 & s2 & k & U' & F' & E1 & E2 & E3 & Hh & Hsup & Hq).
  exists (VSt k (MkVma root (AllocatedPagesList (vma s) ++ [MkAllocated (4096 * q) Count Protect]) (SharedRegions (vma s)))), U', F'.
  split; [|split; [exact Hh|]].
  - unfold vma_RequestPages. erewrite bind_go by (by apply lift_go). cbv beta.
    erewrite bind_go by (apply lift_go; exact E2). cbv beta zeta. erewrite bind_go by reflexivity. cbv beta.
    erewrite bind_go by (apply lift_go; exact E3). cbv beta. erewrite bind_go by reflexivity. reflexivity.
  - split; [done|]. by split.
Qed.
End vma_requests.

(** C4: [VirtualMemoryArea::RequestPages].  Suppose that the frames from the
    first free one on suffice for the request and the tables it may need
    ([provision]: seven frames in a row for each page, below the frames that are
    mapped at their own addresses), and that no large page covers the low
    addresses ([small]).  Then the request returns the address of the first
    [Count] of these frames, which nobody had; they are zeroed and mapped at
    their own addresses, present, writable and with the user and the reserved bit
    as asked for, on top of the flags that the entry already had ([map_entry]);
    no other address is translated differently, no other memory but tables and
    the bitmap has changed, and the pages are on the list. *)
Theorem vma_RequestPages_correct s U R N F q Count User Protect : vspace (vk s) U R N (Table (vma s)) F -> N <= 2 ^ 36 -> 0 < Count ->
  (forall i, 0 < i < N -> small (kmem (vk s)) 3 (Table (vma s)) i) -> provision (vk s) U R N Count 0 q ->
  exists s' U' F', vma_RequestPages Count User Protect s = Ret (Go (4096 * q), s') /\
    handed (vk s) U R N (Table (vma s)) F q Count (request_flags User Protect) (vk s') U' F' /\
    vma s' = MkVma (Table (vma s)) (AllocatedPagesList (vma s) ++ [MkAllocated (4096 * q) Count Protect]) (SharedRegions (vma s)).
Proof.
  intros V HN Hn Hlow Hp.
  destruct (vma_request s U R N F q Count 0 User Protect V HN Hn ltac:(lia) Hlow Hp) as (s' & U' & F' & E & Hh & _ & _ & Hv). eauto 8.
Qed.

(** [Remap] keeps the user bit of an entry. *)
Lemma remap_entry_user old pa : Z.testbit (remap_entry old pa RW) 2 = Z.testbit old 2.
Proof.
  unfold remap_entry. rewrite SetAddress_low, Z.setbit_neq, !Z.lor_spec, Z.land_spec by lia.
  change (Z.testbit 0xFFF 2) with true. change (Z.testbit RW 2) with false. change (Z.testbit P 2) with false.
  by rewrite andb_true_r, !orb_false_r.
Qed.

Lemma remap_pages_go s U R N root F q n r : vspace s U R N root F -> N <= 2 ^ 36 -> 0 < q -> 0 <= n -> q + n <= N ->
  (forall i, 0 < i < N -> small (kmem s) 3 root i) -> 0 <= r -> supply s U R N (r + 3 * n) ->
  exists s' U' F', remap_pages root (4096 * q) n s = Ret (Go tt, s') /\ supply s' U' R N r /\
    maps_pages s U R N root F (4096 * q) n (fun k => remap_entry (leaf (kmem s) 3 root (q + k)) (4096 * (q + k)) RW) s' U' F'.
Proof.
  intros V HN Hq Hn Hqn Hlow Hr Hsup. assert (Hvq : vpn_of (4096 * q) = q) by (unfold vpn_of; dlia).
  destruct (for_pages s U R N root (4096 * q) n F V ltac:(lia)
    (fun i => Remap root (u64 (4096 * q + u64 (i * PAGE_SIZE))) (u64 (4096 * q + u64 (i * PAGE_SIZE))) RW FourKiB)
    (fun k old => remap_entry old (4096 * q + 4096 * k) RW) r) as (s' & U' & F' & E & Hs & M); [..|done|done|].
  - apply (sets_ext _ _ _ _ _ (fun k => Remap root (u64 (4096 * q + 4096 * k)) (u64 (4096 * q + 4096 * k)) RW FourKiB)).
    + intros k Hk. rewrite page_address by lia. done.
    + apply sets_Remap; [exact RW_range| |lia|lia|lia|lia].
      intros k Hk. apply indexable_low; [lia|]. rewrite vpn_add, Hvq. lia.
  - intros k Hk. rewrite Hvq. apply Hlow. lia.
  - exists s', U', F'. split; [exact E|]. split; [exact Hs|]. destruct M as [M1 M2 M3 M4 M5].
    split; [exact M1|exact M2| |exact M4|exact M5]. intros k Hk. rewrite M3, Hvq by done. do 2 f_equal. f_equal. lia.
Qed.

(** C18: [VirtualMemoryArea::FreePages].  Pages that are on the list with the
    same count and not protected go back to the allocator and leave the list;
    but they stay mapped, present and writable, and a page that user mode could
    reach can still be reached from user mode.  Any other request is refused
    and changes nothing. *)
Theorem vma_FreePages_correct s U R N F q Count : vspace (vk s) U R N (Table (vma s)) F -> N <= 2 ^ 36 ->
  0 < q -> 0 < Count -> q + Count <= N -> run q Count ⊆ U -> (forall x, x ∈ F -> x / 4096 ∉ run q Count) ->
  (forall i, 0 < i < N -> small (kmem (vk s)) 3 (Table (vma s)) i) -> supply (vk s) U R N (3 * Count) ->
  match find_pages (4096 * q) (AllocatedPagesList (vma s)) with
  | Some (MkAllocated _ n false) =>
      if decide (n = Count) then
        exists s' U' F', vma_FreePages (4096 * q) Count s = Ret (Go tt, s') /\ U ⊆ U' /\
          vspace (vk s') (U' ∖ run q Count) R N (Table (vma s)) F' /\
          AllocatedPagesList (vma s') = erase_pages (4096 * q) (AllocatedPagesList (vma s)) /\
          forall k, 0 <= k < Count -> exists e, walk (kmem (vk s')) 3 (Table (vma s)) (q + k) = Some (0%nat, e) /\
            frame e = 4096 * (q + k) /\ Z.testbit e 2 = Z.testbit (leaf (kmem (vk s)) 3 (Table (vma s)) (q + k)) 2
      else vma_FreePages (4096 * q) Count s = Ret (Go tt, s)
  | _ => vma_FreePages (4096 * q) Count s = Ret (Go tt, s)
  end.
Proof.
  intros V HN Hq Hn HqN HU HF Hlow Hsup. set (root := Table (vma s)) in *. unfold vma_FreePages.
  erewrite bind_go by reflexivity. cbv beta. destruct (find_pages _ _) as [[a n [|]]|]; cbn [ap_Protected ap_PageCount]; [done| |done].
  destruct (Z.eqb_spec n Count) as [->|Hne]; [rewrite decide_True by done|by rewrite decide_False by done]. cbn [negb].
  destruct (remap_pages_go (vk s) U R N root F q Count 0 V HN Hq ltac:(lia) HqN Hlow ltac:(lia) Hsup) as (s1 & U1 & F1 & E1 & _ & M).
  pose proof (gr_used _ _ _ _ _ _ _ (mp_grows _ _ _ _ _ _ _ _ _ _ _ _ M)) as HU1.
  assert (HF1 : forall x, x ∈ F1 -> x / 4096 ∉ run q Count).
  { intros x Hx. destruct (gr_fresh _ _ _ _ _ _ _ (mp_grows _ _ _ _ _ _ _ _ _ _ _ _ M) x Hx) as [Hx'|Hx']; [by apply HF|].
    intros Hin. by apply Hx', elem_of_union_l, HU. }
  destruct (free_run s1 U1 R q Count (vs_holds _ _ _ _ _ _ (mp_space _ _ _ _ _ _ _ _ _ _ _ _ M)) Hq ltac:(lia)) as (s2 & E2 & Hh & Ho & _);
    [by etrans|].
  destruct (vspace_keep s1 U1 R N root F1 s2 (U1 ∖ run q Count) (mp_space _ _ _ _ _ _ _ _ _ _ _ _ M) Hh (ou_bitmap _ _ Ho)) as [V2 Hw].
  - intros x Hx. apply elem_of_difference. split; [by eapply vs_own; [apply M|]|by apply HF1].
  - by apply outside_shape.
  - intros x Hx. eapply (outside_page s1); [apply M|done|done].
  - exists (VSt s2 (MkVma root (erase_pages (4096 * q) (AllocatedPagesList (vma s))) (SharedRegions (vma s)))), U1, F1. split_and!; [|done|done|done|].
    + erewrite bind_go by reflexivity. cbv beta. erewrite bind_go by (by apply lift_go). cbv beta.
      erewrite bind_go by (by apply lift_go). reflexivity.
    + intros k Hk. eexists. split; [|split; [|apply remap_entry_user]].
      * cbn [vk]. rewrite walk_stop, Hw, <- walk_stop. pose proof (mp_in _ _ _ _ _ _ _ _ _ _ _ _ M k Hk) as Hi.
        unfold vpn_of in Hi. rewrite frame_of in Hi. exact Hi.
      * apply frame_SetAddress; [lia|dlia].
Qed.

(** ** The program break *)

Lemma lift_vma_go {A} (c : VM A) s a v : c (bv s) = Ret (Go a, v) -> lift_vma c s = Ret (Go a, BSt v (pb s)).
Proof. intros E. unfold lift_vma. by rewrite E. Qed.

(** Data in frames that are in use, and no tables, survive when tables are made. *)
Lemma grows_data s U F s' U' F' R N root y : vspace s U R N root F -> vspace s' U' R N root F' -> grows s U F s' U' F' R ->
  y / 4096 ∈ U -> (forall x, x ∈ F -> x / 4096 <> y / 4096) -> kmem s' !! y = kmem s !! y.
Proof.
  intros V V' G Hy HF. apply (gr_mem _ _ _ _ _ _ _ G). split.
  - intros x Hx Hin. destruct (vs_table _ _ _ _ _ _ V' x Hx) as (_ & Hm & _). pose proof (page_frame x y Hm Hin) as E.
    destruct (gr_fresh _ _ _ _ _ _ _ G x Hx) as [Hx'|Hn]; [by apply (HF x)|]. apply Hn, elem_of_union_l. by rewrite <- E.
  - intros Hb. apply (vs_bitmap _ _ _ _ _ _ V) in Hb. by apply (ho_apart _ _ _ (vs_holds _ _ _ _ _ _ V) (y / 4096)).
Qed.

Lemma map_entry_bits old pa fl k : 0 <= k < 12 -> Z.testbit fl k = true -> Z.testbit (map_entry old pa fl) k = true.
Proof.
  intros Hk Hf. unfold map_entry. rewrite SetAddress_low, !Z.lor_spec, Hf by done. apply orb_true_r.
Qed.

Lemma heap_pages a b : 0 <= b < a -> a < 2 ^ 63 -> 0 < TO_PAGES (a - b) < 2 ^ 52 /\ 4096 * TO_PAGES (a - b) < a - b + 4096 /\ a - b <= 4096 * TO_PAGES (a - b).
Proof. intros H1 H2. unfold TO_PAGES, PAGE_SIZE. rewrite uw_small by (unfold in_u; lia). dlia. Qed.

Lemma heap_range : in_u 64 (Z.lor RW US).
Proof. vm_compute. split; discriminate || reflexivity. Qed.

(** C16: [brk] that grows the heap, from a break that is at the start of a page,
    when the frames from the first free one on suffice for the pages and their
    tables ([provision]) and no large page is in the way ([small]).  The pages
    from the old break to the new one are mapped, writable and for user mode, to
    fresh frames that hold zeroes.  [RequestPages] maps the same frames at their
    own addresses too; every page that is neither one of the new ones nor one of
    these frames at its own address is translated as before.  The break is the
    new address, rounded up to a page. *)
Theorem brk_grow_correct s U R N F q Address : let k := vk (bv s) in let root := pb_Table (pb s) in
  let Pages := TO_PAGES (Address - Break (pb s)) in
  vspace k U R N root F -> Table (vma (bv s)) = root -> N <= 2 ^ 36 ->
  0 < HeapStart (pb s) <= Break (pb s) -> Break (pb s) < Address < 2 ^ 47 -> Break (pb s) mod 4096 = 0 ->
  (forall i, 0 < i < N -> small (kmem k) 3 root i) ->
  (forall i, 0 <= i < Pages -> small (kmem k) 3 root (vpn_of (Break (pb s)) + i)) ->
  provision k U R N Pages (3 * Pages) q ->
  exists s' U' F', brk Address s = Ret (Go Address, s') /\ Break (pb s') = ROUND_UP Address PAGE_SIZE /\ fits U R Pages q /\
    vspace (vk (bv s')) U' R N root F' /\
    (forall i, 0 <= i < Pages -> exists e, walk (kmem (vk (bv s'))) 3 root (vpn_of (Break (pb s)) + i) = Some (0%nat, e) /\
       frame e = 4096 * (q + i) /\ Z.testbit e 0 = true /\ Z.testbit e 1 = true /\ Z.testbit e 2 = true) /\
    (forall x, 4096 * q <= x < 4096 * (q + Pages) -> kmem (vk (bv s')) !! x = Some 0) /\
    (forall vpn, (forall i, 0 <= i < Pages -> ~ agree 3 0 (vpn_of (Break (pb s)) + i) vpn /\ ~ agree 3 0 (q + i) vpn) ->
       walk (kmem (vk (bv s'))) 3 root vpn = walk (kmem k) 3 root vpn).
Proof.
  intros k root Pages V Ht HN HH HB Hal Hlow Hheap Hp. set (B := Break (pb s)) in *.
  destruct (heap_pages Address B ltac:(lia) ltac:(lia)) as (HP & HP1 & HP2). fold Pages in HP, HP1, HP2.
  destruct (vma_request (bv s) U R N F q Pages (3 * Pages) false false) as (v1 & U1 & F1 & E1 & Hh & Hsup & Hq & Hv); try (fold k; rewrite Ht); try done; [lia..|].
  rewrite Ht in Hh. fold k in Hh. change (request_flags false false) with RW in Hh. destruct Hh as [Hfit V1 HU1 Hm1 Hz1 Ho1 Hs1 Htb1 _ _].
  assert (HqN : q + Pages <= N) by (destruct Hp as [_ HpN]; lia).
  destruct (for_pages (vk v1) U1 R N root B Pages F1 V1 ltac:(lia)
    (fun i => Map root (u64 (B + u64 (i * PAGE_SIZE))) (u64 (4096 * q + u64 (i * PAGE_SIZE))) (Z.lor RW US) FourKiB)
    (fun i old => map_entry old (4096 * q + 4096 * i) (Z.lor RW US)) 0) as (k2 & U2 & F2 & E2 & _ & M).
  - apply (sets_ext _ _ _ _ _ (fun i => Map root (u64 (B + 4096 * i)) (u64 (4096 * q + 4096 * i)) (Z.lor RW US) FourKiB)).
    + intros i Hi. rewrite !page_address by lia. done.
    + apply sets_Map; [exact heap_range| |lia|lia|lia|lia]. intros i Hi. apply indexable_low; [lia|]. rewrite vpn_add. unfold vpn_of. dlia.
  - intros i Hi. apply Hs1, Hheap. lia.
  - lia.
  - by rewrite Z.add_0_l.
  - exists (BSt (VSt k2 (vma v1)) (MkBreak root (HeapStart (pb s)) (ROUND_UP Address PAGE_SIZE))), U2, F2.
    split_and!; [|done|done|apply M| | |].
    + unfold brk. erewrite bind_go by reflexivity. cbv beta. fold B.
      destruct (Z.eqb_spec (HeapStart (pb s)) 0), (Z.eqb_spec B 0), (Z.eqb_spec Address 0), (Z.ltb_spec Address (HeapStart (pb s))),
        (Z.gtb_spec Address B); try lia. cbn [orb]. cbv zeta. fold Pages.
      erewrite bind_go by (by apply lift_vma_go). cbv beta. destruct (Z.eqb_spec (4096 * q) 0); [lia|].
      erewrite bind_go by (apply lift_vma_go, lift_go; exact E2). cbv beta. erewrite bind_go by reflexivity. reflexivity.
    + intros i Hi. eexists. split; [exact (mp_in _ _ _ _ _ _ _ _ _ _ _ _ M i Hi)|]. split.
      * unfold map_entry. rewrite frame_SetAddress by (lia || dlia). lia.
      * split_and!; [unfold map_entry; rewrite SetAddress_low by lia|apply map_entry_bits; [lia|done]|apply map_entry_bits; [lia|done]].
        rewrite !Z.lor_spec. by rewrite !orb_true_r.
    + intros x Hx. rewrite <- (Hz1 x Hx). apply (grows_data _ _ _ _ _ _ _ _ _ x V1 (mp_space _ _ _ _ _ _ _ _ _ _ _ _ M) (mp_grows _ _ _ _ _ _ _ _ _ _ _ _ M)).
      * apply HU1, elem_of_union_l, elem_of_run. dlia.
      * assert (Hxr : q <= x / 4096 < q + Pages) by dlia. intros t Ht' Et. destruct (Htb1 t Ht') as [HtF|Hn].
        -- apply (Hfit (x / 4096) Hxr), elem_of_union_l. rewrite <- Et. by apply V.
        -- apply Hn. rewrite Et, !elem_of_union, elem_of_run. left. left. done.
    + intros w Hw. cbn [bv vk]. rewrite (proj1 (mp_out _ _ _ _ _ _ _ _ _ _ _ _ M w (fun i Hi => proj1 (Hw i Hi)))).
      apply Ho1. intros i Hi. by apply Hw.
Qed.

(** [brk] that shrinks the heap by up to a page, when the break is the address
    of no block on the list: no frame is released, the last page of the heap
    stays as it was, and the page behind the heap is mapped to the frame that
    has its number. *)
Theorem brk_shrink_leaks s U R N F Address : let k := vk (bv s) in let root := pb_Table (pb s) in let B := Break (pb s) in
  vspace k U R N root F -> 0 < HeapStart (pb s) <= Address -> B - 4096 <= Address < B -> B mod 4096 = 0 -> B < 2 ^ 47 ->
  find_pages B (AllocatedPagesList (vma (bv s))) = None -> small (kmem k) 3 root (vpn_of B) -> supply k U R N 3 ->
  exists s' U' F', brk Address s = Ret (Go Address, s') /\ vma (bv s') = vma (bv s) /\ U ⊆ U' /\
    vspace (vk (bv s')) U' R N root F' /\
    (exists e, walk (kmem (vk (bv s'))) 3 root (vpn_of B) = Some (0%nat, e) /\ frame e = B) /\
    walk (kmem (vk (bv s'))) 3 root (vpn_of B - 1) = walk (kmem k) 3 root (vpn_of B - 1).
Proof.
  intros k root B V HH HA Hal HB Hfind Hs Hsup.
  assert (HP : TO_PAGES (B - Address) = 1) by (unfold TO_PAGES, PAGE_SIZE; rewrite uw_small by (unfold in_u; lia); dlia).
  destruct (Remap_maps k U R N root F B B RW V Hs) as [Hgo _]; [apply indexable_low; unfold vpn_of; dlia|exact RW_range|].
  destruct (Hgo 0 ltac:(lia) Hsup) as (k2 & U2 & F2 & E & [V2 G2 W2 _ _] & _).
  exists (BSt (VSt k2 (vma (bv s))) (MkBreak root (HeapStart (pb s)) Address)), U2, F2. split_and!; [|done|apply G2|done| |].
  - unfold brk. erewrite bind_go by reflexivity. cbv beta. fold B.
    destruct (Z.eqb_spec (HeapStart (pb s)) 0), (Z.eqb_spec B 0), (Z.eqb_spec Address 0), (Z.ltb_spec Address (HeapStart (pb s))),
      (Z.gtb_spec Address B); try lia. cbn [orb]. cbv zeta. rewrite HP.
    erewrite bind_go by (apply lift_vma_go; unfold vma_FreePages; erewrite bind_go by reflexivity; rewrite Hfind; reflexivity). cbv beta.
    erewrite bind_go.
    2:{ apply lift_vma_go, lift_go. cbn [bv vk]. change (Z.to_nat 1) with 1%nat. cbn [for_loop].
        change (u64 (0 * 0x1000)) with 0. rewrite Z.sub_0_r, (uw_small 64 B) by (unfold in_u; lia). by erewrite bind_go by exact E. }
    cbv beta. erewrite bind_go by reflexivity. reflexivity.
  - eexists. split; [cbn [bv vk]; rewrite W2, decide_True by (by intros i _); reflexivity|].
    apply frame_SetAddress; [lia|done].
  - cbn [bv vk]. rewrite W2, decide_False; [done|]. intros Ha. pose proof (agree_shift (vpn_of B) 0 (-1)) as Hsh.
    rewrite Z.add_0_r in Hsh. specialize (Hsh Ha ltac:(lia)). lia.
Qed.

(** ** Pointers from user mode *)







(** ** Kernel address space *)

Lemma lift_va_go {A} (c : K A) s a k : c (ak s) = Ret (Go a, k) -> lift_va c s = Ret (Go a, ASt k (va s)).
Proof. intros E. unfold lift_va. by rewrite E. Qed.

(** A frame past the bitmap counts as free already. *)
Lemma FreePage_high s U R a : holds s U R -> frames s < a / 4096 -> FreePage a s = Ret (Go tt, s).
Proof.
  intros H Ha. unfold FreePage. destruct (a =? 0); [done|]. cbv zeta. unfold PAGE_SIZE.
  erewrite bind_go; [cbv beta|]. 2:{ unfold bitmap_get, Bitmap_Get. change (Size (PageBitmap (kphys s)) * 8) with (frames s).
    pose proof (holds_frames _ _ _ H). rewrite uw_small by (unfold in_u; lia). destruct (Z.gtb_spec (a / 0x1000) (frames s)); [reflexivity|lia]. }
  done.
Qed.

Lemma FreePages_high s U R a n : holds s U R -> 0 <= n -> frames s < a / 4096 -> 0 <= a -> a + 4096 * n <= 2 ^ 64 ->
  FreePages a n s = Ret (Go tt, s).
Proof.
  intros H Hn Ha Ha0 Hw. unfold FreePages. destruct ((a =? 0) || (n =? 0)); [done|].
  destruct (for_loop_inv (fun _ s' => s' = s) (Z.to_nat n) 0 (fun t => FreePage (u64 (a + u64 (t * PAGE_SIZE)))) s eq_refl) as (s' & E & ->);
    [|exact E]. intros k s1 Hk ->. exists s. split; [|done]. rewrite page_address, uw_small by (unfold in_u; lia).
  eapply FreePage_high; [exact H|]. dlia.
Qed.

Lemma unmap_pages_go s U R N root F a n : vspace s U R N root F -> 0 <= n < 2 ^ 36 -> 0 <= a -> a + 4096 * n <= 2 ^ 64 ->
  (forall k, 0 <= k < n -> indexable (a + 4096 * k) /\ small (kmem s) 3 root (vpn_of a + k)) ->
  exists s', unmap_pages root a n s = Ret (Go tt, s') /\ vspace s' U R N root F /\ kphys s' = kphys s /\
    forall k, 0 <= k < n -> walk (kmem s') 3 root (vpn_of a + k) = None.
Proof.
  intros V Hn Ha Hw Hp. unfold unmap_pages.
  destruct (for_loop_inv (fun k s1 => vspace s1 U R N root F /\ kphys s1 = kphys s /\
      (forall w, small (kmem s) 3 root w -> small (kmem s1) 3 root w) /\
      forall j, 0 <= j < k -> walk (kmem s1) 3 root (vpn_of a + j) = None)
    (Z.to_nat n) 0 (fun i => Unmap root (u64 (a + FROM_PAGES i)) FourKiB) s) as (s' & E & V' & P' & _ & W').
  - split_and!; [done|done|auto|lia].
  - intros k s1 Hk (V1 & P1 & S1 & W1). unfold FROM_PAGES. rewrite page_address, uw_small by (unfold in_u; lia).
    destruct (Hp k ltac:(lia)) as [Hix Hsm]. pose proof (vpn_add a k) as Ev.
    destruct (Unmap_maps s1 U R N root F (a + 4096 * k) V1) as (s2 & E2 & [V2 _ W2 _ S2] & P2); [rewrite Ev; by apply S1|done|].
    exists s2. split; [exact E2|]. split_and!; [exact V2|by rewrite P2|auto|]. intros j Hj. rewrite W2, Ev. case_decide as Ha'; [done|].
    apply W1. destruct (decide (j = k)) as [->|]; [|lia]. destruct Ha'. by intros i _.
  - rewrite Z.add_0_l, Z2Nat.id in W' by lia. eauto.
Qed.

(** [VirtualAllocation::FreePages] of a block whose virtual address is past the
    last frame, as all addresses from [USER_ALLOC_BASE] on are: the pages are
    unmapped and the block is free again, but no frame goes back to the
    allocator. *)
Theorem va_FreePages_leaks s U R N F Address Count apl : let k := ak s in let root := va_Table (va s) in
  vspace k U R N root F -> 0 <= Count < 2 ^ 36 -> frames k < Address / 4096 -> 0 <= Address -> Address + 4096 * Count <= 2 ^ 64 ->
  (forall i, 0 <= i < Count -> indexable (Address + 4096 * i) /\ small (kmem k) 3 root (vpn_of Address + i)) ->
  List.find (fun p => VirtualAddress_ p =? Address) (VaList (va s)) = Some apl -> va_PageCount apl = Count ->
  exists s', va_FreePages Address Count s = Ret (Go tt, s') /\ vspace (ak s') U R N root F /\ kphys (ak s') = kphys k /\
    VaList (va s') = free_block Address (VaList (va s)) /\
    forall i, 0 <= i < Count -> walk (kmem (ak s')) 3 root (vpn_of Address + i) = None.
Proof.
  intros k root V Hn Hf Ha Hw Hp Hfind Hc. destruct (unmap_pages_go k U R N root F Address Count V Hn Ha Hw Hp) as (k1 & E1 & V1 & P1 & W1).
  exists (ASt k1 (set_list (free_block Address) (va s))). split_and!; [|done|done|done|done].
  unfold va_FreePages. erewrite bind_go by reflexivity. cbv beta. rewrite Hfind, Hc, Z.eqb_refl. cbn [negb].
  erewrite bind_go by (apply lift_va_go; exact E1). cbv beta.
  assert (E2 : FreePages Address Count k1 = Ret (Go tt, k1)).
  { eapply FreePages_high; [apply V1|lia| |done|done]. unfold frames in *. by rewrite P1. }
  erewrite bind_go by (apply lift_va_go; exact E2). reflexivity.
Qed.

(** ** Examples *)

Definition demo_area (l : list AllocatedPages) : VirtualMemoryArea := MkVma 8192 l [].

Lemma demo_provision n r : 0 <= n -> 0 <= r -> 3 + (n + 2 * (r + 3 * n)) <= 16 -> provision demo_space {[2]} {[0; 1]} 16 n r 3.
Proof. intros Hn Hr Hle. split; [apply demo_stock; lia|lia]. Qed.

Lemma vma_RequestPages_witness : exists s' U' F',
  vma_RequestPages 1 true false (VSt demo_space (demo_area [])) = Ret (Go 12288, s') /\
  handed demo_space {[2]} {[0; 1]} 16 8192 {[8192]} 3 1 (request_flags true false) (vk s') U' F' /\
  vma s' = demo_area [MkAllocated 12288 1 false].
Proof.
  apply (vma_RequestPages_correct (VSt demo_space (demo_area [])) {[2]} {[0; 1]} 16 {[8192]} 3 1 true false).
  - exact demo_ok.
  - lia.
  - lia.
  - intros i _. apply demo_small.
  - apply demo_provision; lia.
Defined.

(** Frame 3 has been handed out. *)
Definition demo_busy : kst := demo_machine 0xF0 2.

Lemma demo_busy_ok : vspace demo_busy {[2; 3]} {[0; 1]} 16 8192 {[8192]}.
Proof.
  apply demo_vspace; [done| |set_solver].
  split; [|set_solver|set_solver by (change (frames demo_busy) with 24; lia)| |done|reflexivity|reflexivity|reflexivity].
  - split; [done|done|]. by apply demo_cells.
  - apply demo_bits; [set_solver by lia|]. intros i Hi%eight. destruct_or! Hi; subst i; vm_compute; reflexivity.
Qed.

Lemma demo_busy_supply : supply demo_busy {[2; 3]} {[0; 1]} 16 3.
Proof.
  exists 4. split; [|lia]. split_and!; [vm_compute; discriminate|vm_compute; discriminate| |].
  - intros j Hj. set_solver by lia.
  - intros j Hj. change (0 <= j < 4) in Hj. assert (j = 0 \/ j = 1 \/ j = 2 \/ j = 3) as [->|[->|[->| ->]]] by lia; set_solver.
Qed.

Lemma vma_FreePages_witness : exists s' U' F',
  vma_FreePages 12288 1 (VSt demo_busy (demo_area [MkAllocated 12288 1 false])) = Ret (Go tt, s') /\ {[2; 3]} ⊆ U' /\
  vspace (vk s') (U' ∖ run 3 1) {[0; 1]} 16 8192 F' /\ AllocatedPagesList (vma s') = [].
Proof.
  pose proof (vma_FreePages_correct (VSt demo_busy (demo_area [MkAllocated 12288 1 false])) {[2; 3]} {[0; 1]} 16 {[8192]} 3 1) as H.
  destruct H as (s' & U' & F' & E & HU & V' & HL & _).
  - exact demo_busy_ok.
  - lia.
  - lia.
  - lia.
  - lia.
  - rewrite run_1. set_solver.
  - rewrite run_1. intros x ->%elem_of_singleton. vm_compute. discriminate.
  - intros i _. apply demo_small.
  - exact demo_busy_supply.
  - exists s', U', F'. split_and!; [exact E|exact HU|exact V'|exact HL].
Defined.

Definition demo_heap : bst := BSt (VSt demo_space (demo_area [])) (MkBreak 8192 0x40000000 0x40000000).

Lemma brk_grow_witness : exists s' U' F', brk 0x40000010 demo_heap = Ret (Go 0x40000010, s') /\ Break (pb s') = 0x40001000 /\
  vspace (vk (bv s')) U' {[0; 1]} 16 8192 F'.
Proof.
  destruct (brk_grow_correct demo_heap {[2]} {[0; 1]} 16 {[8192]} 3 0x40000010) as (s' & U' & F' & E & HB & _ & V' & _).
  - exact demo_ok.
  - reflexivity.
  - lia.
  - change (0 < 0x40000000 <= 0x40000000). lia.
  - change (0x40000000 < 0x40000010 < 2 ^ 47). lia.
  - reflexivity.
  - intros i _. apply demo_small.
  - intros i _. apply demo_small.
  - change (provision demo_space {[2]} {[0; 1]} 16 1 3 3). apply demo_provision; lia.
  - exists s', U', F'. split_and!; [exact E|exact HB|exact V'].
Defined.



