(* ===== verification/KPath.v ===== *)
(** * Paths of the kernel

    The model of [src/Kernel/library/cwalk.c], which the virtual file system
    uses to take paths apart and to normalise them.

    A path is the list of its characters, without the terminator; a pointer
    into a path is an offset, and reading past the terminator or before the
    path faults.  An output buffer is the list of its bytes; it does not
    overlap the paths, as for every caller in the kernel.  The style of the
    thread ([library/cwalk_path_style.cpp]) is an argument. *)

From S2P Require Import Prelude CMem.

Inductive cwk_path_style : Type := CWK_STYLE_WINDOWS | CWK_STYLE_UNIX.
Inductive cwk_segment_type : Type := CWK_NORMAL | CWK_CURRENT | CWK_BACK.

#[export] Instance cwk_path_style_eq_dec : EqDecision cwk_path_style.
Proof. solve_decision. Defined.
#[export] Instance cwk_segment_type_eq_dec : EqDecision cwk_segment_type.
Proof. solve_decision. Defined.

(** [struct cwk_segment]; the pointers are offsets into [path]. *)
Record cwk_segment : Type := Segment {
  path : list Z;
  segments : Z;
  begin : Z;
  end_ : Z;
  seg_size : Z
}.

(** [struct cwk_segment_joined] *)
Record cwk_segment_joined : Type := Joined {
  segment : cwk_segment;
  paths : list (list Z);
  path_index : nat
}.

Definition slash : Z := 47.
Definition backslash : Z := 92.
Definition dot : Z := 46.
Definition colon : Z := 58.
Definition question : Z := 63.

(** The character at offset [i] of a C string. *)
Definition chr (s : list Z) (i : Z) : outcome Z :=
  if i <? 0 then Fault
  else match (s ++ [0]) !! Z.to_nat i with Some c => Ret c | None => Fault end.

(** [n] characters from offset [i] on, the terminator included. *)
Definition chars (s : list Z) (i n : Z) : outcome (list Z) :=
  if (0 <=? i) && (0 <=? n) && (i + n <=? Z.of_nat (length s) + 1)
  then Ret (take (Z.to_nat n) (drop (Z.to_nat i) (s ++ [0])))
  else Fault.

(** The scans of a path take at most one turn per character. *)
Definition path_fuel (s : list Z) : nat := S (S (length s)).

(** [strncmp (s + i, lit, n) == 0], where [lit] is a C string too. *)
Fixpoint strncmp_eq (fuel : nat) (s : list Z) (i : Z) (lit : list Z) (n : Z) : outcome bool :=
  match fuel with
  | O => OutOfFuel
  | S fuel =>
    if n =? 0 then Ret true
    else
      let! a := chr s i in
      let! b := chr lit 0 in
      if negb (a =? b) then Ret false
      else if a =? 0 then Ret true
      else strncmp_eq fuel s (i + 1) (tail lit) (n - 1)
  end.

Section style.
Context (path_style : cwk_path_style).

Definition separators : list Z :=
  match path_style with
  | CWK_STYLE_WINDOWS => [backslash; slash]
  | CWK_STYLE_UNIX => [slash]
  end.

(** The character which the output uses between segments. *)
Definition separator : Z := match path_style with CWK_STYLE_WINDOWS => backslash | CWK_STYLE_UNIX => slash end.

Definition cwk_path_is_separator (s : list Z) (i : Z) : outcome bool :=
  let! c := chr s i in Ret (existsb (fun x => x =? c) separators).

(** ** Output *)

(** [memmove (&buffer[position], str, amount)] *)
Definition put (buffer : list Z) (position : Z) (l : list Z) : outcome (list Z) :=
  if (0 <=? position) && (position + Z.of_nat (length l) <=? Z.of_nat (length buffer))
  then Ret (take (Z.to_nat position) buffer ++ l ++ drop (Z.to_nat position + length l) buffer)
  else Fault.

Definition cwk_path_output_sized (buffer : list Z) (buffer_size position : Z)
    (s : list Z) (str length_ : Z) : outcome (Z * list Z) :=
  let amount_written :=
    if buffer_size >? u64 (position + length_) then length_
    else if buffer_size >? position then buffer_size - position
    else 0 in
  if amount_written >? 0 then
    let! l := chars s str amount_written in
    let! buffer := put buffer position l in
    Ret (length_, buffer)
  else Ret (length_, buffer).

Definition cwk_path_output_current (buffer : list Z) (buffer_size position : Z) : outcome (Z * list Z) :=
  cwk_path_output_sized buffer buffer_size position [dot] 0 1.

Definition cwk_path_output_back (buffer : list Z) (buffer_size position : Z) : outcome (Z * list Z) :=
  cwk_path_output_sized buffer buffer_size position [dot; dot] 0 2.

Definition cwk_path_output_separator (buffer : list Z) (buffer_size position : Z) : outcome (Z * list Z) :=
  cwk_path_output_sized buffer buffer_size position separators 0 1.

Definition cwk_path_terminate_output (buffer : list Z) (buffer_size pos : Z) : outcome (list Z) :=
  if buffer_size >? 0 then
    if pos >=? buffer_size then put buffer (buffer_size - 1) [0] else put buffer pos [0]
  else Ret buffer.

(** ** Scanning a path *)

Fixpoint next_stop_loop (fuel : nat) (s : list Z) (c : Z) : outcome Z :=
  match fuel with
  | O => OutOfFuel
  | S fuel =>
    let! x := chr s c in
    if x =? 0 then Ret c
    else
      let! sep := cwk_path_is_separator s c in
      if sep then Ret c else next_stop_loop fuel s (c + 1)
  end.

Definition cwk_path_find_next_stop (s : list Z) (c : Z) : outcome Z := next_stop_loop (path_fuel s) s c.

Fixpoint previous_stop_loop (fuel : nat) (s : list Z) (begin c : Z) : outcome Z :=
  match fuel with
  | O => OutOfFuel
  | S fuel =>
    if c >? begin then
      let! sep := cwk_path_is_separator s c in
      if sep then Ret c else previous_stop_loop fuel s begin (c - 1)
    else Ret c
  end.

Definition cwk_path_find_previous_stop (s : list Z) (begin c : Z) : outcome Z :=
  let! c := previous_stop_loop (path_fuel s) s begin c in
  let! sep := cwk_path_is_separator s c in
  Ret (if sep then c + 1 else c).

(** The roots *)
Definition cwk_path_get_root_unix (s : list Z) : outcome Z :=
  let! sep := cwk_path_is_separator s 0 in Ret (if sep then 1 else 0).

(** [while (cwk_path_is_separator (c)) ++c] *)
Fixpoint skip_separators (fuel : nat) (s : list Z) (c : Z) : outcome Z :=
  match fuel with
  | O => OutOfFuel
  | S fuel =>
    let! sep := cwk_path_is_separator s c in
    if sep then skip_separators fuel s (c + 1) else Ret c
  end.

Definition cwk_path_get_root_windows (s : list Z) : outcome Z :=
  let! x := chr s 0 in
  if x =? 0 then Ret 0
  else
    let! sep := cwk_path_is_separator s 0 in
    if sep then
      let! sep1 := cwk_path_is_separator s 1 in
      if negb sep1 then Ret 1
      else
        let! x := chr s 2 in
        let special := (x =? question) || (x =? dot) in
        let c := if special then 3 else 2 in
        let! device := if special then cwk_path_is_separator s 3 else Ret false in
        if device : bool then Ret 4
        else
          let! c := cwk_path_find_next_stop s c in
          let! c := skip_separators (path_fuel s) s c in
          let! c := cwk_path_find_next_stop s c in
          let! sep := cwk_path_is_separator s c in
          Ret (if sep then c + 1 else c)
    else
      let! x := chr s 1 in
      if x =? colon then
        let! sep := cwk_path_is_separator s 2 in
        Ret (if sep then 3 else 2)
      else Ret 0.

Definition cwk_path_get_root (s : list Z) : outcome Z :=
  match path_style with
  | CWK_STYLE_WINDOWS => cwk_path_get_root_windows s
  | CWK_STYLE_UNIX => cwk_path_get_root_unix s
  end.

Definition cwk_path_is_root_absolute (s : list Z) (length_ : Z) : outcome bool :=
  if length_ =? 0 then Ret false else cwk_path_is_separator s (length_ - 1).

Definition cwk_path_is_absolute (s : list Z) : outcome bool :=
  let! length_ := cwk_path_get_root s in cwk_path_is_root_absolute s length_.

Definition cwk_path_is_relative (s : list Z) : outcome bool :=
  let! a := cwk_path_is_absolute s in Ret (negb a).

(** ** Segments of one path *)

(** The loop over the leading separators: [None] when the path ends there. *)
Fixpoint first_begin_loop (fuel : nat) (s : list Z) (c : Z) : outcome (option Z) :=
  match fuel with
  | O => OutOfFuel
  | S fuel =>
    let! sep := cwk_path_is_separator s c in
    if sep then
      let! x := chr s (c + 1) in
      if x =? 0 then Ret None else first_begin_loop fuel s (c + 1)
    else Ret (Some c)
  end.

Definition cwk_path_get_first_segment_without_root (s : list Z) (segs : Z) : outcome (bool * cwk_segment) :=
  let none := Segment s segs segs segs 0 in
  let! x := chr s segs in
  if x =? 0 then Ret (false, none)
  else
    let! b := first_begin_loop (path_fuel s) s segs in
    match b with
    | None => Ret (false, none)
    | Some b =>
      let! e := cwk_path_find_next_stop s b in
      Ret (true, Segment s segs b e (e - b))
    end.

Definition cwk_path_get_first_segment (s : list Z) : outcome (bool * cwk_segment) :=
  let! length_ := cwk_path_get_root s in
  cwk_path_get_first_segment_without_root s length_.

(** [assert (cwk_path_is_separator (c))] stops the kernel when it fails. *)
Definition cwk_path_get_next_segment (g : cwk_segment) : outcome (bool * cwk_segment) :=
  let s := path g in
  let c := begin g + seg_size g in
  let! x := chr s c in
  if x =? 0 then Ret (false, g)
  else
    let! sep := cwk_path_is_separator s c in
    if negb sep then Fault
    else
      let! c := skip_separators (path_fuel s) s (c + 1) in
      let! x := chr s c in
      if x =? 0 then Ret (false, g)
      else
        let! e := cwk_path_find_next_stop s c in
        Ret (true, Segment s (segments g) c e (e - c)).

(** [do { --c; if (c < segments) return false; } while (is_separator (c))] *)
Fixpoint previous_end_loop (fuel : nat) (s : list Z) (segs c : Z) : outcome (option Z) :=
  match fuel with
  | O => OutOfFuel
  | S fuel =>
    let c := c - 1 in
    if c <? segs then Ret None
    else
      let! sep := cwk_path_is_separator s c in
      if sep then previous_end_loop fuel s segs c else Ret (Some c)
  end.

Definition cwk_path_get_previous_segment (g : cwk_segment) : outcome (bool * cwk_segment) :=
  let s := path g in
  if begin g <=? segments g then Ret (false, g)
  else
    let! c := previous_end_loop (path_fuel s) s (segments g) (begin g) in
    match c with
    | None => Ret (false, g)
    | Some c =>
      let! b := cwk_path_find_previous_stop s (segments g) c in
      Ret (true, Segment s (segments g) b (c + 1) (c + 1 - b))
    end.

(** [while (cwk_path_get_next_segment (segment))] *)
Fixpoint last_segment_loop (fuel : nat) (g : cwk_segment) : outcome cwk_segment :=
  match fuel with
  | O => OutOfFuel
  | S fuel =>
    let! (more, g) := cwk_path_get_next_segment g in
    if more : bool then last_segment_loop fuel g else Ret g
  end.

Definition cwk_path_get_last_segment_without_root (s : list Z) : outcome (bool * cwk_segment) :=
  let! (ok, g) := cwk_path_get_first_segment_without_root s 0 in
  if ok : bool then let! g := last_segment_loop (path_fuel s) g in Ret (true, g) else Ret (false, g).

Definition cwk_path_get_last_segment (s : list Z) : outcome (bool * cwk_segment) :=
  let! (ok, g) := cwk_path_get_first_segment s in
  if ok : bool then let! g := last_segment_loop (path_fuel s) g in Ret (true, g) else Ret (false, g).

(** The offset and the length of the last segment. *)
Definition cwk_path_get_basename (s : list Z) : outcome (option (Z * Z)) :=
  let! (ok, g) := cwk_path_get_last_segment s in
  Ret (if ok : bool then Some (begin g, seg_size g) else None).

Definition cwk_path_get_dirname (s : list Z) : outcome Z :=
  let! (ok, g) := cwk_path_get_last_segment s in
  Ret (if ok : bool then begin g else 0).

Definition cwk_path_get_segment_type (g : cwk_segment) : outcome cwk_segment_type :=
  let! current := strncmp_eq 3 (path g) (begin g) [dot] (seg_size g) in
  if current : bool then Ret CWK_CURRENT
  else
    let! back := strncmp_eq 4 (path g) (begin g) [dot; dot] (seg_size g) in
    Ret (if back : bool then CWK_BACK else CWK_NORMAL).

(** ** Segments of a list of paths *)

(** [paths[i]] of an array that ends with a null pointer. *)
Definition path_at (ps : list (list Z)) (i : nat) : outcome (option (list Z)) :=
  if (length ps <? i)%nat then Fault else Ret (ps !! i).

Fixpoint first_joined_loop (fuel : nat) (ps : list (list Z)) (g : cwk_segment) (i : nat)
    : outcome (bool * cwk_segment_joined) :=
  match fuel with
  | O => OutOfFuel
  | S fuel =>
    let! p := path_at ps i in
    match p with
    | None => Ret (false, Joined g ps i)
    | Some p =>
      let! (ok, g) := cwk_path_get_first_segment p in
      if ok : bool then Ret (true, Joined g ps i) else first_joined_loop fuel ps g (S i)
    end
  end.

(** [g] is what the segment held before: nothing in particular. *)
Definition cwk_path_get_first_segment_joined (ps : list (list Z)) (g : cwk_segment) : outcome (bool * cwk_segment_joined) :=
  first_joined_loop (S (length ps)) ps g 0.

Fixpoint next_joined_loop (fuel : nat) (ps : list (list Z)) (g : cwk_segment) (i : nat)
    : outcome (bool * cwk_segment_joined) :=
  match fuel with
  | O => OutOfFuel
  | S fuel =>
    let i := S i in
    let! p := path_at ps i in
    match p with
    | None => Ret (false, Joined g ps i)
    | Some p =>
      let! (ok, g) := cwk_path_get_first_segment_without_root p 0 in
      if ok : bool then Ret (true, Joined g ps i) else next_joined_loop fuel ps g i
    end
  end.

Definition cwk_path_get_next_segment_joined (sj : cwk_segment_joined) : outcome (bool * cwk_segment_joined) :=
  let! p := path_at (paths sj) (path_index sj) in
  match p with
  | None => Ret (false, sj)
  | Some _ =>
    let! (ok, g) := cwk_path_get_next_segment (segment sj) in
    if ok : bool then Ret (true, Joined g (paths sj) (path_index sj))
    else next_joined_loop (S (length (paths sj))) (paths sj) g (path_index sj)
  end.

(** A loop on the index of the path. *)
Fixpoint previous_joined_loop (ps : list (list Z)) (g : cwk_segment) (i : nat)
    : outcome (bool * cwk_segment_joined) :=
  match i with
  | O => Ret (false, Joined g ps O)
  | S i =>
    let! p := path_at ps i in
    match p with
    | None => Fault
    | Some p =>
      let! (ok, g) := match i with
                       | O => cwk_path_get_last_segment p
                       | S _ => cwk_path_get_last_segment_without_root p
                       end in
      if ok : bool then Ret (true, Joined g ps i) else previous_joined_loop ps g i
    end
  end.

Definition cwk_path_get_previous_segment_joined (sj : cwk_segment_joined) : outcome (bool * cwk_segment_joined) :=
  let! p := path_at (paths sj) 0 in
  match p with
  | None => Ret (false, sj)
  | Some _ =>
    let! (ok, g) := cwk_path_get_previous_segment (segment sj) in
    if ok : bool then Ret (true, Joined g (paths sj) (path_index sj))
    else previous_joined_loop (paths sj) g (path_index sj)
  end.

(** The loops over segments take at most one turn per character. *)
Definition joined_fuel (ps : list (list Z)) : nat := S (length (concat ps)).

(** ** Which segments normalisation drops *)

Fixpoint back_removed_loop (fuel : nat) (sj : cwk_segment_joined) (counter : Z) : outcome bool :=
  match fuel with
  | O => OutOfFuel
  | S fuel =>
    let! (ok, sj) := cwk_path_get_previous_segment_joined sj in
    if negb ok then Ret false
    else
      let! type := cwk_path_get_segment_type (segment sj) in
      match type with
      | CWK_NORMAL =>
        let counter := s32 (counter + 1) in
        if counter >? 0 then Ret true else back_removed_loop fuel sj counter
      | CWK_BACK => back_removed_loop fuel sj (s32 (counter - 1))
      | CWK_CURRENT => back_removed_loop fuel sj counter
      end
  end.

Definition cwk_path_segment_back_will_be_removed (sj : cwk_segment_joined) : outcome bool :=
  back_removed_loop (joined_fuel (paths sj)) sj 0.

Fixpoint normal_removed_loop (fuel : nat) (sj : cwk_segment_joined) (counter : Z) : outcome bool :=
  match fuel with
  | O => OutOfFuel
  | S fuel =>
    let! (ok, sj) := cwk_path_get_next_segment_joined sj in
    if negb ok then Ret false
    else
      let! type := cwk_path_get_segment_type (segment sj) in
      match type with
      | CWK_NORMAL => normal_removed_loop fuel sj (s32 (counter + 1))
      | CWK_BACK =>
        let counter := s32 (counter - 1) in
        if counter <? 0 then Ret true else normal_removed_loop fuel sj counter
      | CWK_CURRENT => normal_removed_loop fuel sj counter
      end
  end.

Definition cwk_path_segment_normal_will_be_removed (sj : cwk_segment_joined) : outcome bool :=
  normal_removed_loop (joined_fuel (paths sj)) sj 0.

Definition cwk_path_segment_will_be_removed (sj : cwk_segment_joined) (absolute : bool) : outcome bool :=
  let! type := cwk_path_get_segment_type (segment sj) in
  match type with
  | CWK_CURRENT => Ret true
  | CWK_BACK => if absolute then Ret true else cwk_path_segment_back_will_be_removed sj
  | CWK_NORMAL => cwk_path_segment_normal_will_be_removed sj
  end.

(** ** Joining and normalising *)

Definition cwk_path_fix_root (buffer : list Z) (buffer_size length_ : Z) : list Z :=
  match path_style with
  | CWK_STYLE_UNIX => buffer
  | CWK_STYLE_WINDOWS =>
    let n := Z.to_nat (if length_ >? buffer_size then buffer_size else length_) in
    map (fun c => if existsb (fun x => x =? c) separators then backslash else c) (take n buffer) ++ drop n buffer
  end.

Fixpoint normalize_loop (fuel : nat) (sj : cwk_segment_joined) (absolute has_output : bool)
    (buffer : list Z) (buffer_size pos : Z) : outcome (bool * Z * list Z) :=
  match fuel with
  | O => OutOfFuel
  | S fuel =>
    let! removed := cwk_path_segment_will_be_removed sj absolute in
    let! (has_output, pos, buffer) :=
      if removed : bool then Ret (has_output, pos, buffer)
      else
        let! (n, buffer) :=
          if has_output : bool then cwk_path_output_separator buffer buffer_size pos else Ret (0, buffer) in
        let pos := u64 (pos + n) in
        let! (n, buffer) := cwk_path_output_sized buffer buffer_size pos
          (path (segment sj)) (begin (segment sj)) (seg_size (segment sj)) in
        Ret (true, u64 (pos + n), buffer) in
    let! (more, sj) := cwk_path_get_next_segment_joined sj in
    if more : bool then normalize_loop fuel sj absolute has_output buffer buffer_size pos
    else Ret (has_output, pos, buffer)
  end.

Definition cwk_path_join_and_normalize_multiple (ps : list (list Z)) (buffer : list Z) (buffer_size : Z)
    : outcome (Z * list Z) :=
  let! p0 := path_at ps 0 in
  match p0 with
  | None => Fault
  | Some p0 =>
    let! pos := cwk_path_get_root p0 in
    let! absolute := cwk_path_is_root_absolute p0 pos in
    let! (_, buffer) := cwk_path_output_sized buffer buffer_size 0 p0 0 pos in
    let buffer := cwk_path_fix_root buffer buffer_size pos in
    let! (ok, sj) := cwk_path_get_first_segment_joined ps (Segment [] 0 0 0 0) in
    let! (pos, buffer) :=
      if negb ok then Ret (pos, buffer)
      else
        let! (has_output, pos, buffer) :=
          normalize_loop (joined_fuel ps) sj absolute false buffer buffer_size pos in
        if negb has_output && (pos =? 0) then
          if absolute : bool then Fault
          else
            let! (n, buffer) := cwk_path_output_current buffer buffer_size pos in
            Ret (u64 (pos + n), buffer)
        else Ret (pos, buffer) in
    let! buffer := cwk_path_terminate_output buffer buffer_size pos in
    Ret (pos, buffer)
  end.

Definition cwk_path_join (a b : list Z) (buffer : list Z) (buffer_size : Z) : outcome (Z * list Z) :=
  cwk_path_join_and_normalize_multiple [a; b] buffer buffer_size.

Definition cwk_path_normalize (p : list Z) (buffer : list Z) (buffer_size : Z) : outcome (Z * list Z) :=
  cwk_path_join_and_normalize_multiple [p] buffer buffer_size.

Definition cwk_path_get_absolute (base p : list Z) (buffer : list Z) (buffer_size : Z) : outcome (Z * list Z) :=
  let! base_absolute := cwk_path_is_absolute base in
  let root := if base_absolute : bool then [] else [[separator]] in
  let! path_absolute := cwk_path_is_absolute p in
  cwk_path_join_and_normalize_multiple
    (root ++ (if path_absolute : bool then [p] else [base; p])) buffer buffer_size.
End style.
