(* ===== verification/KPathWords.v ===== *)
(** * The segments of a path

    The words between the separators of a path ([split]) and the segment
    functions of [KPath] as a cursor over them: [view g pre w post] says that a
    segment is at the word [w], with the words [pre] before and [post] after. *)

From S2P Require Import Prelude CMem KPath.

Lemma app_snoc {A} (x : list A) c t : x ++ c :: t = (x ++ [c]) ++ t.
Proof. by rewrite <- app_assoc. Qed.

(** ** The words of a path *)

Section words.
Context (st : cwk_path_style).

Definition sep (c : Z) : bool := existsb (fun x => x =? c) (separators st).
Record word (w : list Z) : Prop := Word { word_ne : w <> []; word_plain : Forall (fun c => sep c = false) w }.
Definition seps (q : list Z) : Prop := Forall (fun c => sep c = true) q.
Definition starts_sep (b : list Z) : Prop := match b with [] => True | c :: _ => sep c = true end.
Definition ends_sep (a : list Z) : Prop := match list.last a with None => True | Some c => sep c = true end.

Definition emit (w : list Z) : list (list Z) := match w with [] => [] | _ => [w] end.

(** The words between separators. *)
Fixpoint split_from (w l : list Z) : list (list Z) :=
  match l with
  | [] => emit w
  | c :: l => if sep c then emit w ++ split_from [] l else split_from (w ++ [c]) l
  end.
Definition split (l : list Z) : list (list Z) := split_from [] l.

Lemma sep_0 : sep 0 = false.
Proof using Type. unfold sep. by destruct st. Qed.

Lemma split_from_sep w a c b : sep c = true -> split_from w (a ++ c :: b) = split_from w a ++ split b.
Proof using Type.
  intros Hc. revert w. induction a as [|x a IH]; intros w; cbn [app split_from].
  - by rewrite Hc.
  - destruct (sep x); [|apply IH]. by rewrite IH, app_assoc.
Qed.

Lemma split_from_word w l : Forall (fun c => sep c = false) l -> split_from w l = emit (w ++ l).
Proof using Type.
  intros H. revert w. induction H as [|c l Hc _ IH]; intros w; cbn [split_from]; [by rewrite app_nil_r|].
  rewrite Hc, IH. by rewrite <- app_assoc.
Qed.

Lemma split_word w : word w -> split w = [w].
Proof using Type. intros [Hn Hw]. unfold split. rewrite split_from_word by done. by destruct w. Qed.

Lemma split_seps q : seps q -> split q = [].
Proof using Type. intros H. unfold split. induction H as [|c q Hc _ IH]; [done|]. cbn [split_from]. by rewrite Hc. Qed.

Lemma split_starts a b : starts_sep b -> split (a ++ b) = split a ++ split b.
Proof using Type.
  destruct b as [|c b]; intros H; [by rewrite !app_nil_r|]. unfold split at 1 2. rewrite split_from_sep by done.
  f_equal. unfold split. cbn [split_from]. cbn in H. by rewrite H.
Qed.

Lemma split_ends a b : ends_sep a -> split (a ++ b) = split a ++ split b.
Proof using Type.
  destruct a as [|c a _] using rev_ind; [done|]. unfold ends_sep. rewrite last_snoc. intros H.
  rewrite <- app_assoc. cbn [app]. unfold split. rewrite !split_from_sep by done. by rewrite app_nil_r.
Qed.

Lemma starts_seps q : seps q -> starts_sep q.
Proof using Type. by intros [|c q' Hc _]. Qed.

Lemma ends_seps q : seps q -> ends_sep q.
Proof using Type.
  intros H. unfold ends_sep. destruct (list.last q) eqn:E; [|done].
  apply last_Some_elem_of in E. by eapply (proj1 (list.Forall_forall _ _)) in H.
Qed.

Lemma seps_app p q : seps (p ++ q) <-> seps p /\ seps q.
Proof using Type. apply Forall_app. Qed.

Lemma ends_sep_app a q : q <> [] -> ends_sep (a ++ q) <-> ends_sep q.
Proof using Type.
  intros Hq. destruct q as [|c q _] using rev_ind; [done|]. unfold ends_sep. by rewrite app_assoc, !last_snoc.
Qed.

(** The first and the last word of a list of characters. *)
Lemma first_word b : seps b \/
  exists q w b', b = q ++ w ++ b' /\ seps q /\ word w /\ starts_sep b'.
Proof using Type.
  induction b as [|c b IH]; [left; constructor|].
  destruct (sep c) eqn:Hc.
  - destruct IH as [H|(q & w & b' & -> & Hq & Hw & Hb)]; [left; by constructor|].
    right. exists (c :: q), w, b'. split_and!; try done. by constructor.
  - right. destruct IH as [H|(q & w & b' & -> & Hq & Hw & Hb)].
    + exists [], [c], b. split_and!; try done; [by constructor|split; [done|by constructor]|by apply starts_seps].
    + destruct q as [|x q].
      * exists [], (c :: w), b'. split_and!; try done. destruct Hw. split; [done|by constructor].
      * exists [], [c], (x :: q ++ w ++ b'). split_and!; try done; [by constructor|split; [done|by constructor]|].
        by apply Forall_cons_1 in Hq as [? _].
Qed.

Lemma last_word a : seps a \/
  exists a' w q, a = a' ++ w ++ q /\ ends_sep a' /\ word w /\ seps q.
Proof using Type.
  induction a as [|c a IH] using rev_ind; [left; constructor|].
  destruct (sep c) eqn:Hc.
  - destruct IH as [H|(a' & w & q & -> & Ha & Hw & Hq)].
    + left. apply seps_app. split; [done|by constructor].
    + right. exists a', w, (q ++ [c]). rewrite !app_assoc. split_and!; try done.
      apply seps_app. split; [done|by constructor].
  - right. destruct IH as [H|(a' & w & q & -> & Ha & Hw & Hq)].
    + exists a, [c], []. rewrite app_nil_r. split_and!; [done|by apply ends_seps|split; [done|by constructor]|constructor].
    + destruct q as [|x q _] using rev_ind.
      * exists a', (w ++ [c]), []. rewrite !app_nil_r, app_assoc. split_and!; try done.
        destruct Hw as [? Hw]. split; [by destruct w|]. apply Forall_app. split; [done|by constructor].
      * exists (a' ++ w ++ q ++ [x]), [c], []. rewrite app_nil_r. split_and!; try done.
        -- rewrite !app_assoc. unfold ends_sep. rewrite last_snoc.
           apply seps_app in Hq as [_ Hq]. by apply Forall_cons_1 in Hq as [? _].
        -- split; [done|by constructor].
        -- constructor.
Qed.

Lemma word_starts w b : word w -> starts_sep (w ++ b) -> False.
Proof using Type. intros [? Hw]. destruct Hw as [|c w Hc _]; [done|]. cbn. by rewrite Hc. Qed.

(** ** Reading a path *)

Lemma chr_app x y i : 0 <= i -> chr (x ++ y) (Z.of_nat (length x) + i) = chr y i.
Proof using Type.
  intros Hi. unfold chr. rewrite <- app_assoc. zprune; try lia.
  rewrite lookup_app_r by lia. by replace (Z.to_nat (Z.of_nat (length x) + i) - length x)%nat with (Z.to_nat i) by lia.
Qed.

Lemma chr_app0 x y i : i = Z.of_nat (length x) -> chr (x ++ y) i = chr y 0.
Proof using Type. intros ->. rewrite <- (Z.add_0_r (Z.of_nat (length x))). by apply chr_app. Qed.

Lemma chr_cons c l : chr (c :: l) 0 = Ret c.
Proof using Type. done. Qed.

Lemma chr_nil : chr [] 0 = Ret 0.
Proof using Type. done. Qed.

Lemma is_sep_at x c y i : i = Z.of_nat (length x) -> cwk_path_is_separator st (x ++ c :: y) i = Ret (sep c).
Proof using Type. intros ->. unfold cwk_path_is_separator. rewrite chr_app0 by done. by rewrite chr_cons. Qed.

Lemma is_sep_end x i : i = Z.of_nat (length x) -> cwk_path_is_separator st x i = Ret false.
Proof using Type.
  intros ->. unfold cwk_path_is_separator. rewrite <- (app_nil_r x) at 1. rewrite chr_app0 by done.
  rewrite chr_nil. cbn [obind]. f_equal. apply sep_0.
Qed.

Lemma next_stop_loop_spec w : forall fuel x b i, Forall (fun c => sep c = false) w -> 0 ∉ w -> starts_sep b ->
  0 ∉ b -> i = Z.of_nat (length x) -> (length w < fuel)%nat ->
  next_stop_loop st fuel (x ++ w ++ b) i = Ret (i + Z.of_nat (length w)).
Proof using Type.
  induction w as [|c w IH]; intros fuel x b i Hw H0 Hb H0b Hi Hf; (destruct fuel as [|fuel]; [cbn in Hf; lia|]);
    cbn [next_stop_loop app].
  - rewrite chr_app0 by done. destruct b as [|d b].
    { rewrite chr_nil. cbn. f_equal. lia. }
    rewrite chr_cons. cbn [obind]. destruct (Z.eqb_spec d 0); [cbn; f_equal; lia|].
    rewrite is_sep_at by done. cbn in Hb. rewrite Hb. cbn. f_equal; lia.
  - apply Forall_cons_1 in Hw as [Hc Hw]. apply not_elem_of_cons in H0 as [Hc0 H0].
    rewrite chr_app0, chr_cons by done. cbn [obind]. destruct (Z.eqb_spec c 0); [congruence|].
    rewrite is_sep_at by done. rewrite Hc. cbn [obind].
    rewrite app_snoc.
    rewrite IH; try done; [f_equal; cbn; lia|rewrite length_app; cbn; lia|cbn in Hf; lia].
Qed.

Lemma next_stop_spec x w b i : word w -> starts_sep b -> 0 ∉ w ++ b -> i = Z.of_nat (length x) ->
  cwk_path_find_next_stop st (x ++ w ++ b) i = Ret (i + Z.of_nat (length w)).
Proof using Type.
  intros [_ Hw] Hb [H1 H2]%not_elem_of_app Hi. apply next_stop_loop_spec; try done.
  unfold path_fuel. rewrite !length_app. lia.
Qed.

(** What follows a run of separators. *)
Definition no_sep (y : list Z) : Prop := match y with [] => True | c :: _ => sep c = false end.

Lemma word_no_sep w b : word w -> no_sep (w ++ b).
Proof using Type. intros [? Hw]. by destruct Hw as [|c w Hc _]. Qed.

Lemma is_sep_no x y i : no_sep y -> i = Z.of_nat (length x) -> cwk_path_is_separator st (x ++ y) i = Ret false.
Proof using Type.
  intros Hy Hi. destruct y as [|c y]; [rewrite app_nil_r; by apply is_sep_end|]. rewrite is_sep_at by done. by f_equal.
Qed.

Lemma skip_separators_spec q : forall fuel x y i, seps q -> no_sep y -> i = Z.of_nat (length x) ->
  (length q < fuel)%nat -> skip_separators st fuel (x ++ q ++ y) i = Ret (i + Z.of_nat (length q)).
Proof using Type.
  induction q as [|c q IH]; intros fuel x y i Hq Hy Hi Hf; (destruct fuel as [|fuel]; [cbn in Hf; lia|]);
    cbn [skip_separators app].
  - rewrite is_sep_no by done. cbn. f_equal; lia.
  - apply Forall_cons_1 in Hq as [Hc Hq]. rewrite is_sep_at, Hc by done. cbn [obind].
    rewrite app_snoc.
    rewrite IH; try done; [f_equal; cbn; lia|rewrite length_app; cbn; lia|cbn in Hf; lia].
Qed.

Lemma first_begin_some q : forall fuel x w b i, seps q -> word w -> 0 ∉ q ++ w -> i = Z.of_nat (length x) ->
  (length q < fuel)%nat -> first_begin_loop st fuel (x ++ q ++ w ++ b) i = Ret (Some (i + Z.of_nat (length q))).
Proof using Type.
  induction q as [|c q IH]; intros fuel x w b i Hq Hw H0 Hi Hf; (destruct fuel as [|fuel]; [cbn in Hf; lia|]);
    cbn [first_begin_loop app].
  - rewrite is_sep_no by (try done; by apply word_no_sep). cbn. do 2 f_equal; lia.
  - apply Forall_cons_1 in Hq as [Hc Hq]. rewrite is_sep_at, Hc by done. cbn [obind].
    rewrite app_snoc.
    rewrite (chr_app0 (x ++ [c])) by (rewrite length_app; cbn; lia).
    assert (exists d r, q ++ w ++ b = d :: r /\ d <> 0) as (d & r & E & Hd).
    { cbn in H0. apply not_elem_of_cons in H0 as [_ [H1 H2]%not_elem_of_app]. destruct Hw as [Hw _].
      destruct q as [|d q]; [destruct w as [|d w]; [done|]|]; eexists _, _; (split; [done|set_solver]). }
    rewrite E, chr_cons. cbn [obind]. destruct (Z.eqb_spec d 0); [done|]. rewrite <- E.
    rewrite IH; try done; [do 2 f_equal; cbn; lia|set_solver|rewrite length_app; cbn; lia|cbn in Hf; lia].
Qed.

Lemma first_begin_none c q : forall fuel x i, sep c = true -> seps q -> 0 ∉ q -> i = Z.of_nat (length x) ->
  (length q < fuel)%nat -> first_begin_loop st fuel (x ++ c :: q) i = Ret None.
Proof using Type.
  revert c. induction q as [|d q IH]; intros c fuel x i Hc Hq H0 Hi Hf; (destruct fuel as [|fuel]; [cbn in Hf; lia|]);
    cbn [first_begin_loop]; rewrite is_sep_at, Hc by done; cbn [obind]; rewrite app_snoc;
    rewrite (chr_app0 (x ++ [c])) by (rewrite length_app; cbn; lia).
  - by rewrite chr_nil.
  - rewrite chr_cons. cbn [obind]. apply not_elem_of_cons in H0 as [Hd H0]. destruct (Z.eqb_spec d 0); [congruence|].
    apply Forall_cons_1 in Hq as [Hd' Hq].
    apply IH; try done; [rewrite length_app; cbn; lia|cbn in Hf; lia].
Qed.

Lemma previous_end_some q : forall fuel x z y segs c, seps q -> sep z = false -> segs <= Z.of_nat (length x) ->
  c = Z.of_nat (length (x ++ [z]) + length q) -> (length q < fuel)%nat ->
  previous_end_loop st fuel (x ++ [z] ++ q ++ y) segs c = Ret (Some (Z.of_nat (length x))).
Proof using Type.
  induction q as [|d q IH] using rev_ind; intros fuel x z y segs c Hq Hz Hs -> Hf;
    (destruct fuel as [|fuel]; [lia|]); cbn [previous_end_loop]; rewrite ?length_app in *; cbn [length] in *.
  - zprune; try lia. cbn [app]. rewrite is_sep_at by lia. rewrite Hz. cbn. do 2 f_equal; lia.
  - zprune; try lia. apply seps_app in Hq as [Hq Hd]. apply Forall_cons_1 in Hd as [Hd _].
    replace (x ++ [z] ++ (q ++ [d]) ++ y) with ((x ++ [z] ++ q) ++ d :: y) by (by rewrite <- !app_assoc).
    rewrite is_sep_at by (rewrite !length_app; cbn; lia). rewrite Hd. cbn [obind].
    replace ((x ++ [z] ++ q) ++ d :: y) with (x ++ [z] ++ q ++ d :: y) by (by rewrite <- !app_assoc).
    apply IH; try done; rewrite ?length_app; cbn; lia.
Qed.

Lemma previous_end_none q : forall fuel r y segs c, seps q -> segs = Z.of_nat (length r) ->
  c = Z.of_nat (length r + length q) -> (length q < fuel)%nat ->
  previous_end_loop st fuel (r ++ q ++ y) segs c = Ret None.
Proof using Type.
  induction q as [|d q IH] using rev_ind; intros fuel r y segs c Hq Hs -> Hf;
    (destruct fuel as [|fuel]; [lia|]); cbn [previous_end_loop]; rewrite ?length_app in *; cbn [length] in *.
  - zprune; try lia. done.
  - zprune; try lia. apply seps_app in Hq as [Hq Hd]. apply Forall_cons_1 in Hd as [Hd _].
    replace (r ++ (q ++ [d]) ++ y) with ((r ++ q) ++ d :: y) by (by rewrite <- !app_assoc).
    rewrite is_sep_at by (rewrite !length_app; cbn; lia). rewrite Hd. cbn [obind].
    replace ((r ++ q) ++ d :: y) with (r ++ q ++ d :: y) by (by rewrite <- !app_assoc).
    apply IH; try done; lia.
Qed.

Lemma previous_stop_loop_spec w : forall fuel x d y begin_ c, Forall (fun c => sep c = false) w ->
  begin_ <= Z.of_nat (length x) -> c = Z.of_nat (length x + length w) ->
  (sep d = true \/ begin_ = Z.of_nat (length x)) -> (length w < fuel)%nat ->
  previous_stop_loop st fuel (x ++ d :: w ++ y) begin_ c = Ret (Z.of_nat (length x)).
Proof using Type.
  induction w as [|e w IH] using rev_ind; intros fuel x d y begin_ c Hw Hb -> Hd Hf;
    (destruct fuel as [|fuel]; [lia|]); cbn [previous_stop_loop app]; rewrite ?length_app in *; cbn [length] in *.
  - zprune; try (f_equal; lia). destruct Hd as [Hd|?]; [|lia]. rewrite is_sep_at by lia. rewrite Hd. cbn. f_equal; lia.
  - zprune; try lia. apply Forall_app in Hw as [Hw He]. apply Forall_cons_1 in He as [He _].
    replace (x ++ d :: (w ++ [e]) ++ y) with ((x ++ d :: w) ++ e :: y) by (by rewrite <- !app_assoc).
    rewrite is_sep_at by (rewrite !length_app; cbn; lia). rewrite He. cbn [obind].
    replace ((x ++ d :: w) ++ e :: y) with (x ++ d :: w ++ e :: y) by (by rewrite <- !app_assoc).
    apply IH; try done; lia.
Qed.

(** ** Segments of a path

    [view g pre w post]: the segment is the word [w], with the words [pre]
    before it and [post] after it; [r] is the root. *)
Inductive view (g : cwk_segment) (pre : list (list Z)) (w : list Z) (post : list (list Z)) : Prop :=
| View r a b :
    path g = r ++ a ++ w ++ b -> 0 ∉ path g -> seps r ->
    segments g = Z.of_nat (length r) ->
    begin g = Z.of_nat (length r + length a) ->
    seg_size g = Z.of_nat (length w) ->
    end_ g = begin g + seg_size g ->
    word w -> ends_sep a -> starts_sep b ->
    pre = split a -> post = split b -> view g pre w post.

Lemma path_split (g : cwk_segment) pre w post : view g pre w post -> split (path g) = pre ++ w :: post.
Proof using Type.
  intros [r a b -> _ Hr _ _ _ _ Hw Ha Hb -> ->].
  rewrite split_ends by (by apply ends_seps). rewrite split_seps by done. cbn [app].
  rewrite split_ends by done. rewrite split_starts by done. by rewrite (split_word w) by done.
Qed.

Lemma next_segment_spec g pre w post : view g pre w post ->
  match post with
  | [] => cwk_path_get_next_segment st g = Ret (false, g)
  | x :: post => exists g', cwk_path_get_next_segment st g = Ret (true, g') /\ path g' = path g /\ view g' (pre ++ [w]) x post
  end.
Proof using Type.
  intros [r a b E H0 Hr Hs Hb Hz He Hw Ha Hsb -> ->]. unfold cwk_path_get_next_segment. cbv zeta.
  rewrite Hb, Hz. rewrite (app_assoc a), (app_assoc r) in E. rewrite E in H0 |- *.
  rewrite chr_app0 by (rewrite !length_app; lia).
  destruct b as [|c b]; [by rewrite chr_nil|].
  assert (c <> 0) by (intros ->; set_solver). rewrite chr_cons. cbn [obind]. destruct (Z.eqb_spec c 0); [done|].
  rewrite is_sep_at by (rewrite !length_app; lia). cbn in Hsb. rewrite Hsb. cbn [obind negb].
  destruct (first_word b) as [Hq|(q & v & b' & -> & Hq & Hv & Hb')].
  - rewrite split_seps by (by constructor). rewrite (app_snoc _ c). rewrite <- (app_nil_r b).
    rewrite skip_separators_spec; try done; [|rewrite !length_app; cbn; lia|unfold path_fuel; rewrite !length_app; cbn; lia].
    cbn [obind]. rewrite app_nil_r. rewrite <- (app_nil_r ((_ ++ [c]) ++ b)).
    rewrite chr_app0 by (rewrite !length_app; cbn; lia). by rewrite chr_nil.
  - assert (Hsp : split (c :: q ++ v ++ b') = v :: split b').
    { change (c :: q ++ v ++ b') with ((c :: q) ++ v ++ b').
      rewrite split_ends by (apply ends_seps; by constructor). rewrite split_seps by (by constructor). cbn [app].
      rewrite split_starts by done. by rewrite (split_word v) by done. }
    rewrite Hsp. rewrite (app_snoc _ c).
    rewrite skip_separators_spec; try done;
      [|by apply word_no_sep|rewrite !length_app; cbn; lia|unfold path_fuel; rewrite !length_app; cbn; lia].
    cbn [obind]. rewrite (app_assoc _ q). rewrite chr_app0 by (rewrite !length_app; cbn; lia).
    destruct v as [|z v]; [by destruct Hv|]. cbn [app]. rewrite chr_cons. cbn [obind].
    assert (z <> 0) by (intros ->; set_solver). destruct (Z.eqb_spec z 0); [done|].
    change (z :: v ++ b') with ((z :: v) ++ b'). rewrite next_stop_spec; try done;
      [|set_solver|rewrite !length_app; cbn; lia].
    cbn [obind]. eexists. split; [done|]. cbn [path]. split; [by rewrite <- !app_assoc|].
    apply (View _ _ _ _ r (a ++ w ++ c :: q) b'); cbn [path segments begin seg_size end_]; try done.
    + by rewrite <- !app_assoc.
    + rewrite <- !app_assoc in *. cbn [app] in *. done.
    + rewrite !length_app. cbn. lia.
    + lia.
    + lia.
    + rewrite (app_assoc a), ends_sep_app by done. apply ends_seps. by constructor.
    + rewrite split_ends by done. f_equal. rewrite split_starts by done. rewrite (split_word w) by done.
      by rewrite split_seps by (by constructor).
Qed.

Lemma find_previous_stop_spec r a w b : word w -> ends_sep a ->
  cwk_path_find_previous_stop st (r ++ a ++ w ++ b) (Z.of_nat (length r))
    (Z.of_nat (length r + length a + length w) - 1) = Ret (Z.of_nat (length r + length a)).
Proof using Type.
  intros [Hn Hw] Ha. unfold cwk_path_find_previous_stop.
  destruct a as [|d a _] using rev_ind.
  - destruct w as [|d w]; [done|]. apply Forall_cons_1 in Hw as [Hd Hw]. cbn [app length].
    rewrite previous_stop_loop_spec; try done; try lia; [|unfold path_fuel; rewrite !length_app; cbn; rewrite length_app; lia].
    cbn [obind]. rewrite is_sep_at by done. rewrite Hd. cbn. f_equal; lia.
  - unfold ends_sep in Ha. rewrite last_snoc in Ha.
    replace (r ++ (a ++ [d]) ++ w ++ b) with ((r ++ a) ++ d :: w ++ b) by (by rewrite <- !app_assoc).
    rewrite length_app. cbn [length].
    rewrite previous_stop_loop_spec; try done; [|rewrite length_app; lia..|by left|
      unfold path_fuel; rewrite !length_app; cbn; rewrite length_app; lia].
    cbn [obind]. rewrite is_sep_at by done. rewrite Ha. cbn. f_equal. rewrite length_app; lia.
Qed.

Lemma previous_segment_spec g pre w post : view g pre w post ->
  (pre = [] -> cwk_path_get_previous_segment st g = Ret (false, g)) /\
  (forall pre' x, pre = pre' ++ [x] -> exists g', cwk_path_get_previous_segment st g = Ret (true, g') /\
    path g' = path g /\ view g' pre' x (w :: post)).
Proof using Type.
  intros [r a b E H0 Hr Hs Hb Hz He Hw Ha Hsb -> ->]. unfold cwk_path_get_previous_segment. cbv zeta.
  rewrite Hb, Hs. destruct (last_word a) as [Hq|(a' & v & q & -> & Ha' & Hv & Hq)].
  - rewrite split_seps by done. split; [intros _|by intros [|??] ?].
    zprune; try done; try lia. rewrite E. rewrite previous_end_none; try done.
    unfold path_fuel. rewrite !length_app. lia.
  - assert (Hsp : split (a' ++ v ++ q) = split a' ++ [v]).
    { rewrite split_ends by done. f_equal. rewrite split_starts by (by apply starts_seps).
      rewrite (split_word v), split_seps by done. done. }
    rewrite Hsp. split; [by destruct (split a')|]. intros pre' x [<- [= <-]]%app_inj_tail.
    pose proof (word_ne _ Hv) as Hn. destruct v as [|z v _] using rev_ind; [done|]. clear Hn.
    rewrite !length_app. cbn [length]. zprune; try lia.
    assert (Hz' : sep z = false).
    { pose proof (word_plain _ Hv) as Hp. apply Forall_app in Hp as [_ Hp]. by apply Forall_cons_1 in Hp as [? _]. }
    rewrite E. replace (r ++ (a' ++ (v ++ [z]) ++ q) ++ w ++ b) with ((r ++ a' ++ v) ++ [z] ++ q ++ (w ++ b))
      by (by rewrite <- !app_assoc).
    rewrite previous_end_some; try done; [|rewrite !length_app; cbn; lia..|unfold path_fuel; rewrite !length_app; cbn; lia].
    cbn [obind].
    replace ((r ++ a' ++ v) ++ [z] ++ q ++ w ++ b) with (r ++ a' ++ (v ++ [z]) ++ (q ++ w ++ b)) by (by rewrite <- !app_assoc).
    replace (Z.of_nat (length (r ++ a' ++ v))) with (Z.of_nat (length r + length a' + length (v ++ [z])) - 1)
      by (rewrite !length_app; cbn; lia).
    rewrite find_previous_stop_spec by done. cbn [obind]. eexists. split; [done|]. cbn [path].
    split; [by rewrite <- !app_assoc|].
    assert (Hst : starts_sep (q ++ w ++ b)).
    { destruct q as [|c q]; [|by apply Forall_cons_1 in Hq as [? _]].
      rewrite app_nil_r in Ha. unfold ends_sep in Ha. rewrite app_assoc, last_snoc in Ha. congruence. }
    apply (View _ _ _ _ r a' (q ++ w ++ b)); cbn [path segments begin seg_size end_]; try done.
    + rewrite E in H0. rewrite <- !app_assoc in H0. by rewrite <- !app_assoc.
    + lia.
    + lia.
    + rewrite split_ends by (by apply ends_seps). rewrite (split_seps q) by done. cbn [app].
      rewrite split_starts by done. by rewrite (split_word w) by done.
Qed.

Lemma first_segment_spec s r l : s = r ++ l -> 0 ∉ s -> seps r ->
  match split l with
  | [] => exists g, cwk_path_get_first_segment_without_root st s (Z.of_nat (length r)) = Ret (false, g)
  | x :: post => exists g, cwk_path_get_first_segment_without_root st s (Z.of_nat (length r)) = Ret (true, g) /\
      path g = s /\ view g [] x post
  end.
Proof using Type.
  intros -> H0 Hr. unfold cwk_path_get_first_segment_without_root. cbv zeta.
  rewrite chr_app0 by done. destruct (first_word l) as [Hq|(q & w & b & -> & Hq & Hw & Hb)].
  - rewrite split_seps by done. destruct l as [|c l]; [rewrite chr_nil; by eexists|].
    rewrite chr_cons. cbn [obind]. assert (c <> 0) by (intros ->; set_solver).
    destruct (Z.eqb_spec c 0); [done|]. apply Forall_cons_1 in Hq as [Hc Hq].
    rewrite first_begin_none; try done; [by eexists|set_solver|unfold path_fuel; rewrite length_app; cbn; lia].
  - rewrite split_ends by (by apply ends_seps). rewrite (split_seps q) by done. cbn [app].
    rewrite split_starts by done. rewrite (split_word w) by done. cbn [app].
    assert (exists d t, q ++ w ++ b = d :: t /\ d <> 0) as (d & t & E & Hd).
    { destruct q as [|d q]; [destruct w as [|d w]; [by destruct Hw|]|]; eexists _, _; (split; [done|set_solver]). }
    rewrite E, chr_cons. cbn [obind]. destruct (Z.eqb_spec d 0); [done|]. rewrite <- E.
    rewrite first_begin_some; try done; [|set_solver|unfold path_fuel; rewrite !length_app; lia].
    cbn [obind]. rewrite (app_assoc r). rewrite next_stop_spec; try done; [|set_solver|rewrite length_app; lia].
    cbn [obind]. eexists. split; [done|]. cbn [path]. split; [done|].
    apply (View _ _ _ _ r q b); cbn [path segments begin seg_size end_]; try done; try lia.
    + by rewrite <- app_assoc.
    + by rewrite <- app_assoc.
    + by apply ends_seps.
    + by rewrite split_seps.
Qed.

Lemma length_split_from w l : (length (split_from w l) <= length w + length l)%nat.
Proof using Type.
  revert w. induction l as [|c l IH]; intros w; cbn [split_from length]; [destruct w; cbn; lia|].
  destruct (sep c).
  - rewrite length_app. specialize (IH []). destruct w; cbn in *; lia.
  - specialize (IH (w ++ [c])). rewrite length_app in IH. cbn in IH. lia.
Qed.

Lemma length_split l : (length (split l) <= length l)%nat.
Proof using Type. apply (length_split_from []). Qed.

Lemma view_fuel g pre w post : view g pre w post -> (length post < length (path g))%nat.
Proof using Type.
  intros [r a b -> _ _ _ _ _ _ [Hn _] _ _ _ ->]. pose proof (length_split b). rewrite !length_app.
  destruct w; [done|]. cbn. lia.
Qed.

Lemma last_segment_loop_spec post : forall fuel g pre w, view g pre w post -> (length post < fuel)%nat ->
  exists g' pre' w', last_segment_loop st fuel g = Ret g' /\ path g' = path g /\ view g' pre' w' [] /\
    pre' ++ [w'] = pre ++ w :: post.
Proof using Type.
  induction post as [|x post IH]; intros fuel g pre w Hv Hf; (destruct fuel as [|fuel]; [lia|]);
    cbn [last_segment_loop]; pose proof (next_segment_spec _ _ _ _ Hv) as Hn; cbn in Hn.
  - rewrite Hn. cbn. by exists g, pre, w.
  - destruct Hn as (g1 & -> & Hp & Hv1). cbn [obind].
    destruct (IH fuel g1 _ _ Hv1 ltac:(cbn in Hf; lia)) as (g' & pre' & w' & -> & Hp' & Hv' & E).
    exists g', pre', w'. split_and!; try done; [congruence|]. by rewrite E, <- app_assoc.
Qed.

(** The last segment, with and without the root of the path. *)
Lemma last_segment_from_spec s r l (f : outcome (bool * cwk_segment)) : s = r ++ l -> 0 ∉ s -> seps r ->
  f = cwk_path_get_first_segment_without_root st s (Z.of_nat (length r)) ->
  (split l = [] /\ exists g, (let! (ok, g) := f in
     if ok : bool then let! g := last_segment_loop st (path_fuel s) g in Ret (true, g) else Ret (false, g)) = Ret (false, g)) \/
  (exists pre w g, split l = pre ++ [w] /\ (let! (ok, g) := f in
     if ok : bool then let! g := last_segment_loop st (path_fuel s) g in Ret (true, g) else Ret (false, g)) = Ret (true, g) /\
     path g = s /\ view g pre w []).
Proof using Type.
  intros E H0 Hr ->. pose proof (first_segment_spec s r l E H0 Hr) as H. destruct (split l) as [|x post].
  - left. split; [done|]. destruct H as (g & ->). by exists g.
  - right. destruct H as (g & -> & Hp & Hv). cbn [obind].
    pose proof (view_fuel _ _ _ _ Hv) as Hf. rewrite Hp in Hf.
    destruct (last_segment_loop_spec post (path_fuel s) g _ _ Hv) as (g' & pre & w & -> & Hp' & Hv' & E');
      [unfold path_fuel; lia|].
    exists pre, w, g'. split_and!; try done. congruence.
Qed.

(** ** Types of segments *)

Lemma strncmp_eq_spec lit : forall fuel x w b i, 0 ∉ w -> 0 ∉ lit -> i = Z.of_nat (length x) -> (length lit < fuel)%nat ->
  strncmp_eq fuel (x ++ w ++ b) i lit (Z.of_nat (length w)) = Ret (bool_decide (w `prefix_of` lit)).
Proof using Type.
  induction lit as [|d lit IH]; intros fuel x w b i Hw Hl Hi Hf; (destruct fuel as [|fuel]; [cbn in Hf; lia|]);
    cbn [strncmp_eq]; (destruct w as [|c w]; [cbn; f_equal; symmetry; apply bool_decide_eq_true; apply prefix_nil|]);
    (destruct (Z.eqb_spec (Z.of_nat (length (c :: w))) 0); [cbn in *; lia|]);
    (rewrite chr_app0 by done); cbn [app]; rewrite chr_cons; cbn [obind].
  - rewrite chr_nil. cbn [obind]. assert (c <> 0) by set_solver. destruct (Z.eqb_spec c 0); [done|].
    reflexivity.
  - rewrite chr_cons. cbn [obind]. destruct (Z.eqb_spec c d) as [->|Hn]; cbn [negb].
    + assert (d <> 0) by set_solver. destruct (Z.eqb_spec d 0); [done|]. rewrite app_snoc.
      replace (Z.of_nat (length (d :: w)) - 1) with (Z.of_nat (length w)) by (cbn; lia).
      rewrite IH; [|set_solver|set_solver|rewrite length_app; cbn; lia|cbn in Hf; lia].
      f_equal. apply bool_decide_ext. split; [apply prefix_cons|apply prefix_cons_inv_2].
    + f_equal. symmetry. apply bool_decide_eq_false. intros H. apply Hn. by apply prefix_cons_inv_1 in H.
Qed.

Definition kind (w : list Z) : cwk_segment_type :=
  if decide (w = [dot]) then CWK_CURRENT else if decide (w = [dot; dot]) then CWK_BACK else CWK_NORMAL.

Lemma segment_type_spec g pre w post : view g pre w post -> cwk_path_get_segment_type g = Ret (kind w).
Proof using Type.
  intros [r a b E H0 _ Hs Hb Hz _ [Hn _] _ _ _ _]. unfold cwk_path_get_segment_type.
  rewrite Hb, Hz, E. rewrite !(app_assoc r). rewrite E in H0.
  assert (0 ∉ w) by set_solver.
  rewrite !strncmp_eq_spec; try done; try (rewrite length_app; lia); try (cbn; lia); try (intros ?; set_solver).
  cbn [obind]. unfold kind. destruct w as [|c [|d w]]; [done|..].
  - case_bool_decide as H1.
    + apply prefix_cons_inv_1 in H1 as ->. by rewrite decide_True by done.
    + rewrite decide_False by (intros [= ->]; by apply H1). rewrite decide_False by done.
      rewrite bool_decide_eq_false_2; [done|]. intros H2. apply H1. apply prefix_cons_inv_1 in H2 as ->. done.
  - rewrite bool_decide_eq_false_2 by (intros H1; apply prefix_length in H1; cbn in H1; lia).
    rewrite decide_False by done. case_bool_decide as H2.
    + destruct H2 as [k [= -> -> H2]]. destruct w; [by rewrite decide_True by done|done].
    + rewrite decide_False; [done|]. intros [= -> -> ->]. by apply H2.
Qed.
End words.
