(* ===== verification/KPathNormal.v ===== *)
(** * Normal forms of paths

    The functions of [KPath] that join and normalise paths, in the style of
    Unix: the cursor over several paths ([jview]), the scans that decide which
    segments stay, and that the output is the one of a stack of words
    ([resolve]). *)

From S2P Require Import Prelude CMem KPath KPathWords.

(** ** Paths one after the other, in the style of Unix *)

Abbreviation U := CWK_STYLE_UNIX.

Definition has_root (p : list Z) : bool := match p with c :: _ => c =? slash | [] => false end.
Definition words (ps : list (list Z)) : list (list Z) := concat (map (split U) ps).

Lemma unix_root p : exists r l, p = r ++ l /\ seps U r /\ cwk_path_get_root U p = Ret (Z.of_nat (length r)) /\
  cwk_path_is_root_absolute U p (Z.of_nat (length r)) = Ret (has_root p) /\ r = (if has_root p then [slash] else []).
Proof.
  unfold cwk_path_get_root, cwk_path_get_root_unix. destruct p as [|c p].
  - exists [], []. split_and!; try done. constructor.
  - change (c :: p) with ([] ++ c :: p). rewrite (is_sep_at U [] c p 0) by done. cbn [obind has_root app]. unfold sep. cbn [separators existsb]. rewrite orb_false_r, Z.eqb_sym.
    destruct (Z.eqb_spec c slash) as [->|Hc].
    + exists [slash], p. split_and!; try done. by constructor.
    + exists [], (c :: p). split_and!; try done. constructor.
Qed.

Lemma split_root r l : seps U r -> split U (r ++ l) = split U l.
Proof. intros Hr. rewrite split_ends by (by apply ends_seps). by rewrite split_seps. Qed.

(** The words before and after a segment of a list of paths. *)
Inductive jview (sj : cwk_segment_joined) (pre : list (list Z)) (w : list Z) (post : list (list Z)) : Prop :=
| JView pre1 post1 :
    paths sj !! path_index sj = Some (path (segment sj)) ->
    Forall (fun p => 0 ∉ p) (paths sj) ->
    view U (segment sj) pre1 w post1 ->
    pre = words (take (path_index sj) (paths sj)) ++ pre1 ->
    post = post1 ++ words (drop (S (path_index sj)) (paths sj)) -> jview sj pre w post.

Lemma words_cons p ps : words (p :: ps) = split U p ++ words ps.
Proof. done. Qed.

Lemma words_app ps qs : words (ps ++ qs) = words ps ++ words qs.
Proof. unfold words. by rewrite map_app, concat_app. Qed.

Lemma jview_words sj pre w post : jview sj pre w post -> words (paths sj) = pre ++ w :: post.
Proof.
  intros [pre1 post1 Hp _ Hv -> ->]. rewrite <- (take_drop_middle _ _ _ Hp) at 1.
  rewrite words_app, words_cons. rewrite (path_split _ _ _ _ _ Hv). by rewrite <- !app_assoc.
Qed.

Lemma path_at_lookup ps i : (i <= length ps)%nat -> path_at ps i = Ret (ps !! i).
Proof. intros H. unfold path_at. destruct (Nat.ltb_spec (length ps) i); [lia|done]. Qed.

Lemma next_joined_loop_spec k : forall fuel ps g i pre w, (length ps - S i = k)%nat -> (k < fuel)%nat -> (i < length ps)%nat ->
  Forall (fun p => 0 ∉ p) ps -> words (take (S i) ps) = pre ++ [w] ->
  match words (drop (S i) ps) with
  | [] => exists sj, next_joined_loop U fuel ps g i = Ret (false, sj)
  | x :: post => exists sj, next_joined_loop U fuel ps g i = Ret (true, sj) /\ paths sj = ps /\ jview sj (pre ++ [w]) x post
  end.
Proof.
  induction k as [|k IH]; intros fuel ps g i pre w Hk Hf Hi H0 Hpre; (destruct fuel as [|fuel]; [lia|]);
    cbn [next_joined_loop]; rewrite path_at_lookup by lia; cbn [obind].
  - rewrite drop_ge by lia. rewrite lookup_ge_None_2 by lia. by eexists.
  - destruct (lookup_lt_is_Some_2 ps (S i) ltac:(lia)) as [p Hp]. rewrite Hp.
    rewrite (drop_S _ p) by done. rewrite words_cons.
    pose proof (proj1 (Forall_lookup _ _) H0 _ _ Hp) as H0p. cbn in H0p.
    pose proof (first_segment_spec U p [] p eq_refl H0p (Forall_nil_2 _)) as H. change (Z.of_nat (length [])) with 0 in H.
    destruct (split U p) as [|x post1] eqn:Es.
    + destruct H as (g1 & ->). cbn [obind app]. apply IH; try done; try lia.
      rewrite (take_S_r _ _ p) by done. rewrite words_app, words_cons, Es, Hpre. by rewrite app_nil_r.
    + destruct H as (g1 & -> & Hp1 & Hv). cbn [obind app]. eexists. split; [done|]. split; [done|].
      eapply (JView _ _ _ _ [] post1); cbn [paths path_index segment]; try done.
      * by rewrite Hp1.
      * by rewrite Hpre, !app_nil_r.
Qed.

Lemma next_joined_spec sj pre w post : jview sj pre w post ->
  match post with
  | [] => exists sj', cwk_path_get_next_segment_joined U sj = Ret (false, sj')
  | x :: post => exists sj', cwk_path_get_next_segment_joined U sj = Ret (true, sj') /\ paths sj' = paths sj /\
      jview sj' (pre ++ [w]) x post
  end.
Proof.
  intros [pre1 post1 Hp H0 Hv -> ->]. unfold cwk_path_get_next_segment_joined.
  pose proof (lookup_lt_Some _ _ _ Hp) as Hi.
  rewrite path_at_lookup by lia. rewrite Hp. cbn [obind].
  pose proof (next_segment_spec U _ _ _ _ Hv) as Hn. destruct post1 as [|x post1].
  - rewrite Hn. cbn [obind app].
    apply (next_joined_loop_spec _ _ _ _ _ (words (take (path_index sj) (paths sj)) ++ pre1) w eq_refl); try done; try lia.
    rewrite (take_S_r _ _ (path (segment sj))) by done. rewrite words_app, words_cons.
    rewrite (path_split _ _ _ _ _ Hv). cbn. by rewrite app_nil_r, <- app_assoc.
  - destruct Hn as (g' & -> & Hpg & Hv'). cbn [obind app]. eexists. split; [done|]. split; [done|].
    eapply (JView _ _ _ _ (pre1 ++ [w]) post1); cbn [paths path_index segment]; try done.
    + by rewrite Hpg.
    + by rewrite app_assoc.
Qed.

Lemma previous_joined_loop_spec i : forall ps g, (i <= length ps)%nat -> Forall (fun p => 0 ∉ p) ps ->
  (words (take i ps) = [] -> exists sj, previous_joined_loop U ps g i = Ret (false, sj)) /\
  (forall pre x, words (take i ps) = pre ++ [x] -> exists sj, previous_joined_loop U ps g i = Ret (true, sj) /\
     paths sj = ps /\ jview sj pre x (words (drop i ps))).
Proof.
  induction i as [|i IH]; intros ps g Hi H0; cbn [previous_joined_loop].
  { split; [by eexists|]. intros pre x. rewrite take_0. intros E. by destruct pre. }
  destruct (lookup_lt_is_Some_2 ps i ltac:(lia)) as [p Hp]. rewrite path_at_lookup, Hp by lia. cbn [obind].
  pose proof (proj1 (Forall_lookup _ _) H0 _ _ Hp) as H0p. cbn in H0p.
  rewrite (take_S_r _ _ p) by done. rewrite words_app, words_cons. cbn [words map concat]. rewrite app_nil_r.
  set (last := match i with O => _ | S _ => _ end).
  assert (Hl : (split U p = [] /\ exists g, last = Ret (false, g)) \/
    (exists pre w g, split U p = pre ++ [w] /\ last = Ret (true, g) /\ path g = p /\ view U g pre w [])).
  { unfold last. destruct i as [|i].
    - destruct (unix_root p) as (r & l & E & Hr & Eroot & _). unfold cwk_path_get_last_segment.
      replace (split U p) with (split U l) by (by rewrite E, split_root).
      apply (last_segment_from_spec U p r l); try done. unfold cwk_path_get_first_segment. by rewrite Eroot.
    - by apply (last_segment_from_spec U p [] p); [..|constructor|]. }
  destruct Hl as [[Es [g1 ->]]|(pre1 & w & g1 & Es & -> & Hp1 & Hv)]; rewrite Es; cbn [obind].
  - rewrite app_nil_r. destruct (IH ps g1 ltac:(lia) H0) as [IH1 IH2]. split; [done|].
    intros pre x E. destruct (IH2 _ _ E) as (sj & -> & Hps & Hj). exists sj. split_and!; try done.
    rewrite (drop_S _ p i) in Hj by done. by rewrite words_cons, Es in Hj.
  - split. { rewrite app_assoc. by destruct (_ ++ pre1). }
    intros pre x E. rewrite app_assoc in E. apply app_inj_tail in E as [<- <-]. eexists. split; [done|]. split; [done|].
    eapply (JView _ _ _ _ pre1 []); cbn [paths path_index segment]; try done. by rewrite Hp1.
Qed.

Lemma previous_joined_spec sj pre w post : jview sj pre w post ->
  (pre = [] -> exists sj', cwk_path_get_previous_segment_joined U sj = Ret (false, sj')) /\
  (forall pre' x, pre = pre' ++ [x] -> exists sj', cwk_path_get_previous_segment_joined U sj = Ret (true, sj') /\
     paths sj' = paths sj /\ jview sj' pre' x (w :: post)).
Proof.
  intros [pre1 post1 Hp H0 Hv -> ->]. unfold cwk_path_get_previous_segment_joined.
  pose proof (lookup_lt_Some _ _ _ Hp) as Hi.
  rewrite path_at_lookup by lia. destruct (lookup_lt_is_Some_2 (paths sj) 0 ltac:(lia)) as [p0 ->]. cbn [obind].
  destruct (previous_segment_spec U _ _ _ _ Hv) as [Hp1 Hp2].
  destruct pre1 as [|y pre1 _] using rev_ind.
  - rewrite Hp1 by done. cbn [obind]. rewrite app_nil_r.
    destruct (previous_joined_loop_spec (path_index sj) (paths sj) (segment sj) ltac:(lia) H0) as [H1 H2].
    split; [done|]. intros pre' x E. destruct (H2 _ _ E) as (sj' & -> & Hps & Hj). exists sj'. split_and!; try done.
    rewrite (drop_S _ (path (segment sj))) in Hj by done. rewrite words_cons, (path_split _ _ _ _ _ Hv) in Hj. done.
  - destruct (Hp2 _ _ eq_refl) as (g' & -> & Hpg & Hv'). cbn [obind]. split.
    { rewrite app_assoc. by destruct (_ ++ pre1). }
    intros pre' x E. rewrite app_assoc in E. apply app_inj_tail in E as [<- <-]. eexists. split; [done|]. split; [done|].
    eapply (JView _ _ _ _ pre1 (w :: post1)); cbn [paths path_index segment]; try done. by rewrite Hpg.
Qed.

Lemma first_joined_loop_spec k : forall fuel ps g i, (length ps - i = k)%nat -> (k < fuel)%nat -> (i <= length ps)%nat ->
  Forall (fun p => 0 ∉ p) ps -> words (take i ps) = [] ->
  match words (drop i ps) with
  | [] => exists sj, first_joined_loop U fuel ps g i = Ret (false, sj)
  | x :: post => exists sj, first_joined_loop U fuel ps g i = Ret (true, sj) /\ paths sj = ps /\ jview sj [] x post
  end.
Proof.
  induction k as [|k IH]; intros fuel ps g i Hk Hf Hi H0 Hpre; (destruct fuel as [|fuel]; [lia|]);
    cbn [first_joined_loop]; rewrite path_at_lookup by lia; cbn [obind].
  - rewrite drop_ge by lia. rewrite lookup_ge_None_2 by lia. by eexists.
  - destruct (lookup_lt_is_Some_2 ps i ltac:(lia)) as [p Hp]. rewrite Hp.
    rewrite (drop_S _ p) by done. rewrite words_cons.
    pose proof (proj1 (Forall_lookup _ _) H0 _ _ Hp) as H0p. cbn in H0p.
    destruct (unix_root p) as (r & l & E & Hr & Eroot & _). unfold cwk_path_get_first_segment. rewrite Eroot. cbn [obind].
    pose proof (first_segment_spec U p r l E H0p Hr) as H.
    assert (Es : split U p = split U l) by (by rewrite E, split_root).
    rewrite Es. destruct (split U l) as [|x post1] eqn:El.
    + destruct H as (g1 & ->). cbn [obind app]. apply IH; try done; try lia.
      rewrite (take_S_r _ _ p) by done. by rewrite words_app, words_cons, Es, Hpre.
    + destruct H as (g1 & -> & Hp1 & Hv). cbn [obind app]. eexists. split; [done|]. split; [done|].
      eapply (JView _ _ _ _ [] post1); cbn [paths path_index segment]; try done.
      * by rewrite Hp1.
      * by rewrite Hpre.
Qed.

Lemma first_joined_spec ps g : Forall (fun p => 0 ∉ p) ps ->
  match words ps with
  | [] => exists sj, cwk_path_get_first_segment_joined U ps g = Ret (false, sj)
  | x :: post => exists sj, cwk_path_get_first_segment_joined U ps g = Ret (true, sj) /\ paths sj = ps /\ jview sj [] x post
  end.
Proof. intros H0. apply (first_joined_loop_spec (length ps - 0) (S (length ps)) ps g 0); try done; lia. Qed.

Lemma jview_type sj pre w post : jview sj pre w post -> cwk_path_get_segment_type (segment sj) = Ret (kind w).
Proof. intros [pre1 post1 _ _ Hv _ _]. by eapply segment_type_spec. Qed.

Lemma length_words ps : (length (words ps) <= length (concat ps))%nat.
Proof.
  induction ps as [|p ps IH]; [done|]. rewrite words_cons. cbn [concat]. rewrite !length_app.
  pose proof (length_split U p). lia.
Qed.

Lemma jview_fuel sj pre w post : jview sj pre w post -> (length pre + length post < length (concat (paths sj)))%nat.
Proof.
  intros H. pose proof (length_words (paths sj)) as Hl. rewrite (jview_words _ _ _ _ H) in Hl.
  rewrite length_app in Hl. cbn in Hl. lia.
Qed.

(** ** The scans that decide which words stay *)

Fixpoint back_scan (c : Z) (l : list (list Z)) : bool :=
  match l with
  | [] => false
  | x :: l =>
    match kind x with
    | CWK_NORMAL => if c + 1 >? 0 then true else back_scan (c + 1) l
    | CWK_BACK => back_scan (c - 1) l
    | CWK_CURRENT => back_scan c l
    end
  end.

Fixpoint normal_scan (c : Z) (l : list (list Z)) : bool :=
  match l with
  | [] => false
  | x :: l =>
    match kind x with
    | CWK_NORMAL => normal_scan (c + 1) l
    | CWK_BACK => if c - 1 <? 0 then true else normal_scan (c - 1) l
    | CWK_CURRENT => normal_scan c l
    end
  end.

Lemma s32_small x : - 2 ^ 31 <= x < 2 ^ 31 -> s32 x = x.
Proof. intros H. unfold sw. dlia. Qed.

Lemma back_removed_loop_spec n : forall fuel sj c pre w post, jview sj pre w post -> length pre = n -> (n < fuel)%nat ->
  Z.abs c + Z.of_nat n < 2 ^ 31 -> back_removed_loop U fuel sj c = Ret (back_scan c (reverse pre)).
Proof.
  induction n as [|n IH]; intros fuel sj c pre w post Hj Hn Hf Hc; (destruct fuel as [|fuel]; [lia|]);
    cbn [back_removed_loop]; destruct (previous_joined_spec _ _ _ _ Hj) as [H1 H2].
  - destruct pre; [|done]. destruct (H1 eq_refl) as (sj' & ->). done.
  - destruct pre as [|x pre _] using rev_ind; [done|]. rewrite length_app in Hn. cbn in Hn.
    destruct (H2 _ _ eq_refl) as (sj' & -> & Hps & Hj'). cbn [obind negb]. rewrite (jview_type _ _ _ _ Hj'). cbn [obind].
    rewrite reverse_snoc. cbn [back_scan]. destruct (kind x).
    + rewrite s32_small by lia. destruct (c + 1 >? 0); [done|]. eapply IH; try done; lia.
    + eapply IH; try done; lia.
    + rewrite s32_small by lia. eapply IH; try done; lia.
Qed.

Lemma normal_removed_loop_spec post : forall fuel sj c pre w, jview sj pre w post -> (length post < fuel)%nat ->
  Z.abs c + Z.of_nat (length post) < 2 ^ 31 -> normal_removed_loop U fuel sj c = Ret (normal_scan c post).
Proof.
  induction post as [|x post IH]; intros fuel sj c pre w Hj Hf Hc; (destruct fuel as [|fuel]; [lia|]);
    cbn [normal_removed_loop]; pose proof (next_joined_spec _ _ _ _ Hj) as Hn; cbn in Hn.
  - destruct Hn as (sj' & ->). done.
  - destruct Hn as (sj' & -> & Hps & Hj'). cbn [obind negb]. rewrite (jview_type _ _ _ _ Hj'). cbn [obind].
    cbn [normal_scan]. cbn [length] in *. destruct (kind x).
    + rewrite s32_small by lia. eapply IH; try done; lia.
    + eapply IH; try done; lia.
    + rewrite s32_small by lia. destruct (c - 1 <? 0); [done|]. eapply IH; try done; lia.
Qed.

Definition dropped (absolute : bool) (pre : list (list Z)) (w : list Z) (post : list (list Z)) : bool :=
  match kind w with
  | CWK_CURRENT => true
  | CWK_BACK => absolute || back_scan 0 (reverse pre)
  | CWK_NORMAL => normal_scan 0 post
  end.

Lemma will_be_removed_spec sj absolute pre w post : jview sj pre w post -> Z.of_nat (length (concat (paths sj))) < 2 ^ 31 ->
  cwk_path_segment_will_be_removed U sj absolute = Ret (dropped absolute pre w post).
Proof.
  intros Hj Hl. pose proof (jview_fuel _ _ _ _ Hj) as Hf. unfold cwk_path_segment_will_be_removed, dropped.
  rewrite (jview_type _ _ _ _ Hj). cbn [obind]. destruct (kind w).
  - apply (normal_removed_loop_spec post _ sj 0 pre w); [exact Hj|unfold joined_fuel; lia|lia].
  - done.
  - destruct absolute; [done|]. cbn [orb].
    apply (back_removed_loop_spec (length pre) _ sj 0 pre w post); [exact Hj|reflexivity|unfold joined_fuel; lia|lia].
Qed.

(** ** Normalisation as a stack

    The reference: a word goes on the stack, [.] is skipped, [..] takes off the
    word on top; without one, it is lost at the root of an absolute path and
    stays in a relative path. *)

Definition resolve_step (absolute : bool) (stack : list (list Z)) (w : list Z) : list (list Z) :=
  match kind w with
  | CWK_NORMAL => w :: stack
  | CWK_CURRENT => stack
  | CWK_BACK =>
    match stack with
    | x :: rest => if decide (kind x = CWK_BACK) then w :: stack else rest
    | [] => if absolute then [] else [w]
    end
  end.

Definition resolve (absolute : bool) (ws : list (list Z)) : list (list Z) :=
  reverse (foldl (resolve_step absolute) [] ws).

(** The words which the code keeps. *)
Fixpoint kept (absolute : bool) (pre ws : list (list Z)) : list (list Z) :=
  match ws with
  | [] => []
  | w :: ws => if dropped absolute pre w ws then kept absolute (pre ++ [w]) ws else w :: kept absolute (pre ++ [w]) ws
  end.

(** Words of [pre] that a following [..] can still take off, and the [..] of
    [ws] that take off words before [ws]. *)
Definition avail_step (n : nat) (w : list Z) : nat :=
  match kind w with CWK_NORMAL => S n | CWK_CURRENT => n | CWK_BACK => pred n end.
Definition avail (pre : list (list Z)) : nat := foldl avail_step 0%nat pre.

Fixpoint needs (ws : list (list Z)) : nat :=
  match ws with
  | [] => 0
  | w :: ws => match kind w with CWK_NORMAL => pred (needs ws) | CWK_CURRENT => needs ws | CWK_BACK => S (needs ws) end
  end.

Lemma avail_snoc pre w : avail (pre ++ [w]) = avail_step (avail pre) w.
Proof. unfold avail. by rewrite foldl_app. Qed.

Lemma back_scan_avail pre : forall c, c <= 0 -> back_scan c (reverse pre) = (Z.of_nat (avail pre) + c >? 0).
Proof.
  induction pre as [|w pre IH] using rev_ind; intros c Hc; [cbn; zprune; done|].
  rewrite reverse_snoc, avail_snoc. cbn [back_scan]. unfold avail_step. destruct (kind w).
  - zprune; try rewrite IH by lia; zprune; done.
  - by apply IH.
  - rewrite IH by lia. zprune; done.
Qed.

Lemma normal_scan_needs ws : forall c, 0 <= c -> normal_scan c ws = (c <? Z.of_nat (needs ws)).
Proof.
  induction ws as [|w ws IH]; intros c Hc; cbn [normal_scan needs]; [zprune; done|]. destruct (kind w).
  - rewrite IH by lia. zprune; done.
  - by apply IH.
  - zprune; try rewrite IH by lia; zprune; done.
Qed.

(** A stack whose top [n] words can be taken off. *)
Definition stack_ok (absolute : bool) (n : nat) (stack : list (list Z)) : Prop :=
  exists t u, stack = t ++ u /\ length t = n /\ Forall (fun w => kind w = CWK_NORMAL) t /\
    (u = [] \/ absolute = false /\ exists b u', u = b :: u' /\ kind b = CWK_BACK).

Lemma stack_ok_step absolute pre stack w : stack_ok absolute (avail pre) stack ->
  stack_ok absolute (avail (pre ++ [w])) (resolve_step absolute stack w).
Proof.
  intros (t & u & -> & Hl & Ht & Hu). rewrite avail_snoc. unfold avail_step, resolve_step.
  destruct (kind w) eqn:Hw.
  - exists (w :: t), u. split_and!; [done|cbn; lia|by constructor|done].
  - by exists t, u.
  - destruct t as [|x t].
    + rewrite <- Hl. cbn [length app pred]. destruct Hu as [->|(-> & b & u' & -> & Hb)].
      * destruct absolute; [exists [], []|exists [], [w]]; split_and!; try done; [by left|]. right. split; [done|]. by exists w, [].
      * rewrite decide_True by done. exists [], (w :: b :: u'). split_and!; try done. right. split; [done|]. by eexists _, _.
    + apply Forall_cons_1 in Ht as [Hx Ht]. cbn [app]. rewrite decide_False by congruence.
      exists t, u. split_and!; try done. rewrite <- Hl. done.
Qed.

Lemma foldl_kept absolute ws : forall pre stack, stack_ok absolute (avail pre) stack ->
  foldl (resolve_step absolute) stack ws = reverse (kept absolute pre ws) ++ drop (min (avail pre) (needs ws)) stack.
Proof.
  induction ws as [|w ws IH]; intros pre stack Hs; cbn [foldl kept needs]; [by rewrite Nat.min_0_r, drop_0|].
  rewrite (IH (pre ++ [w])) by (by apply stack_ok_step). rewrite avail_snoc.
  destruct Hs as (t & u & -> & Hl & Ht & Hu). unfold avail_step, resolve_step, dropped.
  destruct (kind w) eqn:Hw.
  - rewrite normal_scan_needs by done. destruct (needs ws) as [|m]; cbn [pred].
    + change (0 <? Z.of_nat 0) with false. rewrite !Nat.min_0_r, !drop_0, reverse_cons, <- app_assoc. done.
    + zprune; try lia. done.
  - done.
  - rewrite back_scan_avail by lia. destruct t as [|x t]; cbn [length app] in *.
    + rewrite <- Hl. cbn [pred min Z.of_nat]. zprune; try lia. rewrite orb_false_r. cbn [drop].
      destruct Hu as [->|(-> & b & u' & -> & Hb)].
      * destruct absolute; [done|]. by rewrite reverse_cons, <- app_assoc.
      * rewrite decide_True by done. by rewrite reverse_cons, <- app_assoc.
    + apply Forall_cons_1 in Ht as [Hx Ht]. rewrite decide_False by congruence. rewrite <- Hl. cbn [pred].
      zprune; try lia. rewrite orb_true_r. done.
Qed.

Lemma kept_resolve absolute ws : kept absolute [] ws = resolve absolute ws.
Proof.
  unfold resolve. rewrite (foldl_kept absolute ws []).
  - rewrite drop_nil, app_nil_r. by rewrite reverse_involutive.
  - exists [], []. split_and!; try done. by left.
Qed.

(** ** Output *)

Lemma separator_starts s : starts_sep U (slash :: s).
Proof. done. Qed.

(** The buffer after the text [out] has been put out, as far as it fits. *)
Definition written (buffer : list Z) (n : nat) (out : list Z) : list Z := take n out ++ drop (min n (length out)) buffer.

Lemma chars_spec x l b n i : i = Z.of_nat (length x) -> 0 <= n <= Z.of_nat (length l) ->
  chars (x ++ l ++ b) i n = Ret (take (Z.to_nat n) l).
Proof.
  intros -> Hn. unfold chars. rewrite !length_app. zprune. f_equal.
  rewrite <- !app_assoc. rewrite drop_app_length' by lia. by rewrite take_app_le by lia.
Qed.

Lemma put_spec x y l i buffer : buffer = x ++ y -> i = Z.of_nat (length x) -> (length l <= length y)%nat ->
  put buffer i l = Ret (x ++ l ++ drop (length l) y).
Proof.
  intros -> -> Hl. unfold put. rewrite length_app. zprune. f_equal.
  rewrite take_app_length' by lia. rewrite Nat2Z.id. by rewrite drop_app_add.
Qed.

Lemma output_sized_spec buffer n out x l b i : (n <= length buffer)%nat -> i = Z.of_nat (length x) ->
  Z.of_nat (length out + length l) < 2 ^ 64 ->
  cwk_path_output_sized (written buffer n out) (Z.of_nat n) (Z.of_nat (length out)) (x ++ l ++ b) i (Z.of_nat (length l))
    = Ret (Z.of_nat (length l), written buffer n (out ++ l)).
Proof.
  intros Hn Hi Hl. unfold cwk_path_output_sized. rewrite uw_small by lia. cbv zeta.
  rewrite (Z.gtb_ltb (Z.of_nat n)), (Z.gtb_ltb (Z.of_nat n)).
  destruct (Z.ltb_spec (Z.of_nat (length out) + Z.of_nat (length l)) (Z.of_nat n)) as [H1|H1];
    [|destruct (Z.ltb_spec (Z.of_nat (length out)) (Z.of_nat n)) as [H2|H2]].
  - destruct (Z.gtb_spec (Z.of_nat (length l)) 0) as [H3|H3].
    + rewrite chars_spec by (done || lia). cbn [obind]. rewrite Nat2Z.id, take_ge by lia.
      rewrite (put_spec out (drop (length out) buffer)); [|unfold written..|rewrite length_drop; lia];
        [cbn [obind]|rewrite take_ge by lia; by rewrite Nat.min_r by lia|done].
      unfold written. rewrite drop_drop, take_ge, length_app, Nat.min_r by (rewrite ?length_app; lia). by rewrite <- app_assoc.
    + destruct l; [|cbn in H3; lia]. by rewrite app_nil_r.
  - destruct (Z.gtb_spec (Z.of_nat n - Z.of_nat (length out)) 0) as [H3|H3]; [|lia].
    rewrite chars_spec by (done || lia). cbn [obind].
    assert (E : length (take (Z.to_nat (Z.of_nat n - Z.of_nat (length out))) l) = (n - length out)%nat) by (rewrite length_take; lia).
    rewrite (put_spec out (drop (length out) buffer)); [|unfold written..|rewrite E, length_drop; lia];
        [cbn [obind]|rewrite take_ge by lia; by rewrite Nat.min_r by lia|done].
    unfold written. rewrite E, drop_drop, length_app, Nat.min_l by lia. rewrite (take_app_ge out) by lia.
    rewrite <- app_assoc. replace (Z.to_nat (Z.of_nat n - Z.of_nat (length out))) with (n - length out)%nat by lia.
    by replace (length out + (n - length out))%nat with n by lia.
  - zprune; try lia. unfold written. rewrite length_app, !Nat.min_l, (take_app_le out) by lia. done.
Qed.

(** The words with separators between them. *)
Definition tail_words (ws : list (list Z)) : list Z := concat (map (fun w => slash :: w) ws).
Definition put_words (has_output : bool) (ws : list (list Z)) : list Z :=
  match ws with
  | [] => []
  | w :: rest => if has_output then tail_words ws else w ++ tail_words rest
  end.
Abbreviation join_words := (put_words false).

(** Characters of the words, one more for each. *)
Fixpoint cost (ws : list (list Z)) : nat := match ws with [] => 0 | w :: ws => S (length w) + cost ws end.

Lemma cost_app a b : cost (a ++ b) = (cost a + cost b)%nat.
Proof. induction a as [|w a IH]; [done|]. cbn. rewrite IH. lia. Qed.

Lemma length_tail_words ws : length (tail_words ws) = cost ws.
Proof. induction ws as [|w ws IH]; [done|]. unfold tail_words in *. cbn. rewrite length_app, IH. done. Qed.

Lemma length_put_words h ws : (length (put_words h ws) <= cost ws)%nat.
Proof.
  destruct ws as [|w ws]; [done|]. destruct h; cbn [put_words].
  - by rewrite length_tail_words.
  - rewrite length_app, length_tail_words. cbn. lia.
Qed.

Lemma cost_split_from st w l : (cost (split_from st w l) <= length w + length l + 1)%nat.
Proof.
  revert w. induction l as [|c l IH]; intros w; cbn [split_from length]; [destruct w; cbn; lia|]. destruct (sep st c).
  - rewrite cost_app. specialize (IH []). destruct w; cbn in *; lia.
  - specialize (IH (w ++ [c])). rewrite length_app in IH. cbn in IH. lia.
Qed.

Lemma cost_split st l : (cost (split st l) <= length l + 1)%nat.
Proof. apply (cost_split_from st []). Qed.

Lemma cost_kept absolute ws : forall pre, (cost (kept absolute pre ws) <= cost ws)%nat.
Proof.
  induction ws as [|w ws IH]; intros pre; cbn [kept cost]; [done|]. specialize (IH (pre ++ [w])).
  destruct (dropped absolute pre w ws); cbn [cost]; lia.
Qed.

(** Bytes of the paths with a terminator for each. *)
Definition room (ps : list (list Z)) : nat := cost ps.

Lemma cost_words ps : (cost (words ps) <= room ps)%nat.
Proof.
  unfold room. induction ps as [|p ps IH]; [done|]. rewrite words_cons, cost_app. cbn. pose proof (cost_split U p). lia.
Qed.

Lemma length_concat_room ps : (length (concat ps) <= room ps)%nat.
Proof. unfold room. induction ps as [|p ps IH]; [done|]. cbn. rewrite length_app. lia. Qed.

(** One word of output. *)
Lemma normalize_word sj pre w post buffer n out (h : bool) : jview sj pre w post -> (n <= length buffer)%nat ->
  Z.of_nat (length out + S (length w)) < 2 ^ 64 ->
  (let! (k, buffer) := if h then cwk_path_output_separator U (written buffer n out) (Z.of_nat n) (Z.of_nat (length out))
                        else Ret (0, written buffer n out) in
   let pos := u64 (Z.of_nat (length out) + k) in
   let! (k, buffer) := cwk_path_output_sized buffer (Z.of_nat n) pos
     (path (segment sj)) (begin (segment sj)) (seg_size (segment sj)) in
   Ret (true, u64 (pos + k), buffer))
  = Ret (true, Z.of_nat (length (out ++ put_words h [w])), written buffer n (out ++ put_words h [w])).
Proof.
  intros [pre1 post1 _ _ [r a b E _ _ _ Hb Hz _ _ _ _ _ _] _ _] Hn Hl.
  assert (Hw : forall out, Z.of_nat (length out + length w) < 2 ^ 64 ->
    cwk_path_output_sized (written buffer n out) (Z.of_nat n) (Z.of_nat (length out))
     (path (segment sj)) (begin (segment sj)) (seg_size (segment sj))
    = Ret (Z.of_nat (length w), written buffer n (out ++ w))).
  { intros out' Hl'. rewrite E, Hb, Hz, (app_assoc r). apply output_sized_spec; try done. by rewrite length_app. }
  destruct h.
  - unfold cwk_path_output_separator.
    pose proof (output_sized_spec buffer n out [] [slash] [] 0 Hn eq_refl) as Hs. cbn [length app Z.of_nat] in Hs.
    change (separators U) with [slash]. change (Z.of_nat 1) with 1 in Hs. rewrite Hs by lia. cbn [obind].
    cbv zeta. rewrite uw_small by lia.
    replace (Z.of_nat (length out) + 1) with (Z.of_nat (length (out ++ [slash]))) by (rewrite length_app; cbn; lia).
    rewrite Hw by (rewrite length_app; cbn; lia). cbn [obind].
    rewrite uw_small by (rewrite length_app; cbn; lia).
    replace ((out ++ [slash]) ++ w) with (out ++ put_words true [w]) by (cbn; by rewrite app_nil_r, <- app_assoc).
    do 3 f_equal. cbn. rewrite !length_app. cbn. rewrite app_nil_r. lia.
  - cbn [obind]. cbv zeta. rewrite Z.add_0_r, !uw_small by lia. rewrite Hw by lia. cbn [obind].
    rewrite uw_small by lia. cbn [put_words tail_words map concat]. rewrite app_nil_r.
    do 3 f_equal. rewrite length_app. lia.
Qed.

Definition is_nil {A} (l : list A) : bool := match l with [] => true | _ => false end.

Lemma put_words_cons h w ws : put_words h (w :: ws) = put_words h [w] ++ put_words true ws.
Proof. destruct h, ws; cbn; unfold tail_words; cbn; by rewrite ?app_nil_r. Qed.

Lemma normalize_loop_spec post : forall fuel sj pre w absolute h buffer n out,
  jview sj pre w post -> (length post < fuel)%nat -> (n <= length buffer)%nat ->
  Z.of_nat (length (concat (paths sj))) < 2 ^ 31 -> Z.of_nat (length out + cost (w :: post)) < 2 ^ 64 ->
  let ks := kept absolute pre (w :: post) in
  normalize_loop U fuel sj absolute h (written buffer n out) (Z.of_nat n) (Z.of_nat (length out))
    = Ret (h || negb (is_nil ks), Z.of_nat (length (out ++ put_words h ks)), written buffer n (out ++ put_words h ks)).
Proof.
  induction post as [|x post IH]; intros fuel sj pre w absolute h buffer n out Hj Hf Hn Hl Hc ks;
    (destruct fuel as [|fuel]; [lia|]); cbn [normalize_loop]; rewrite (will_be_removed_spec _ _ _ _ _ Hj) by done;
    cbn [obind]; unfold ks; cbn [kept]; pose proof (next_joined_spec _ _ _ _ Hj) as Hnx; cbn in Hnx; cbn [cost] in *.
  - destruct Hnx as (sj' & Hnx). destruct (dropped absolute pre w []).
    + cbn [obind]. rewrite Hnx. cbn [obind put_words is_nil negb]. by rewrite orb_false_r, app_nil_r.
    + rewrite (normalize_word _ _ _ _ _ _ _ h Hj) by (done || lia). cbn [obind]. rewrite Hnx. cbn. by rewrite orb_true_r.
  - destruct Hnx as (sj' & Hnx & Hps & Hj'). destruct (dropped absolute pre w (x :: post)).
    + cbn [obind]. rewrite Hnx. cbn [obind]. apply (IH fuel sj' (pre ++ [w]) x absolute h buffer n out Hj'); rewrite ?Hps; cbn in *; try done; lia.
    + rewrite (normalize_word _ _ _ _ _ _ _ h Hj) by (done || lia). cbn [obind]. rewrite Hnx. cbn [obind].
      rewrite (IH fuel sj' (pre ++ [w]) x absolute true buffer n (out ++ put_words h [w]) Hj'); rewrite ?Hps; try done.
      * rewrite <- !(app_assoc out). rewrite <- put_words_cons. cbn [is_nil negb]. rewrite orb_true_r. reflexivity.
      * cbn in Hf; lia.
      * rewrite length_app. pose proof (length_put_words h [w]) as H. cbn [cost] in *. lia.
Qed.

(** ** Normal forms *)

Definition normal_form (ps : list (list Z)) : list Z :=
  let absolute := match ps with p :: _ => has_root p | [] => false end in
  let ks := resolve absolute (words ps) in
  if absolute then slash :: join_words ks
  else match words ps, ks with
       | [], _ => []
       | _, [] => [dot]
       | _, ks => join_words ks
       end.

(** The buffer with a terminated text in it, cut off when it does not fit. *)
Definition terminated (buffer : list Z) (n : nat) (out : list Z) : list Z :=
  match n with
  | O => buffer
  | S k => take k out ++ 0 :: drop (S (min k (length out))) buffer
  end.

Lemma terminate_spec buffer n out : (n <= length buffer)%nat ->
  cwk_path_terminate_output (written buffer n out) (Z.of_nat n) (Z.of_nat (length out)) = Ret (terminated buffer n out).
Proof.
  intros Hn. unfold cwk_path_terminate_output, terminated. destruct n as [|k]; [done|]. zprune; try lia.
  - unfold written. rewrite Nat.min_l by lia.
    rewrite (put_spec (take k out) (drop k (take (S k) out) ++ drop (S k) buffer)).
    + cbn [length app]. rewrite (Nat.min_l k) by lia. do 3 f_equal.
      rewrite drop_app_length' by (rewrite length_drop, length_take; lia). done.
    + rewrite app_assoc. f_equal. rewrite <- (take_drop k (take (S k) out)) at 1. f_equal. rewrite take_take. f_equal. lia.
    + rewrite length_take. lia.
    + rewrite length_app, !length_drop, length_take. cbn [length]. lia.
  - unfold written. rewrite Nat.min_r by lia. rewrite take_ge by lia.
    rewrite (put_spec out (drop (length out) buffer)); try done; [|rewrite length_drop; cbn; lia].
    cbn [length app]. rewrite drop_drop, (take_ge out k), (Nat.min_r k) by lia. do 4 f_equal. lia.
Qed.

Lemma normalize_multiple_spec p ps buffer n : Forall (fun p => 0 ∉ p) (p :: ps) -> Z.of_nat (room (p :: ps)) < 2 ^ 31 ->
  (n <= length buffer)%nat ->
  cwk_path_join_and_normalize_multiple U (p :: ps) buffer (Z.of_nat n)
    = Ret (Z.of_nat (length (normal_form (p :: ps))), terminated buffer n (normal_form (p :: ps))).
Proof.
  intros H0 Hr Hn. unfold cwk_path_join_and_normalize_multiple. rewrite path_at_lookup by (cbn; lia).
  cbn [obind lookup list_lookup].
  destruct (unix_root p) as (r & l & E & _ & Eroot & Eabs & Er). rewrite Eroot. cbn [obind]. rewrite Eabs. cbn [obind].
  pose proof (output_sized_spec buffer n [] [] r l 0 Hn eq_refl) as Ho.
  assert (Hrl : (length r <= 1)%nat) by (rewrite Er; by destruct (has_root p); cbn; lia).
  cbn [length app Z.of_nat] in Ho. rewrite <- E in Ho.
  replace (written buffer n []) with buffer in Ho by (unfold written; by rewrite take_nil, Nat.min_0_r).
  change (Z.of_nat 0) with 0 in Ho. rewrite Ho by lia. cbn [obind cwk_path_fix_root].
  pose proof (first_joined_spec (p :: ps) (Segment [] 0 0 0 0) H0) as Hj.
  pose proof (length_concat_room (p :: ps)) as Hc. pose proof (cost_words (p :: ps)) as Hcw.
  unfold normal_form. rewrite <- kept_resolve. destruct (words (p :: ps)) as [|w post] eqn:Ew.
  - destruct Hj as (sj & ->). cbn [obind negb]. rewrite terminate_spec by done. cbn [obind]. rewrite Er. by destruct (has_root p).
  - destruct Hj as (sj & -> & Hps & Hj). cbn [obind negb]. pose proof (jview_fuel _ _ _ _ Hj) as Hf. rewrite Hps in Hf.
    rewrite (normalize_loop_spec post _ sj [] w _ _ buffer n r Hj); rewrite ?Hps; try lia; try (unfold joined_fuel; lia).
    cbn [obind orb].
    destruct (kept (has_root p) [] (w :: post)) as [|k ks]; cbn [is_nil negb andb].
    + cbn [put_words]. rewrite app_nil_r, Er. destruct (has_root p); cbn [length].
      * change (Z.of_nat 1 =? 0) with false. cbn [obind]. change 1%nat with (length [slash]). by rewrite (terminate_spec buffer n [slash]) by done.
      * cbn [Z.of_nat Z.eqb obind]. unfold cwk_path_output_current.
        pose proof (output_sized_spec buffer n [] [] [dot] [] 0 Hn eq_refl) as Hd. cbn [app] in Hd.
        change (Z.of_nat (length [dot])) with 1 in Hd. change (Z.of_nat (length [])) with 0 in Hd.
        change (Z.of_nat 0) with 0. rewrite Hd by (cbn; lia). cbn [obind Z.eqb].
        change (u64 (0 + 1)) with (Z.of_nat (length [dot])).
        by rewrite (terminate_spec buffer n [dot]) by done.
    + cbn [obind]. rewrite terminate_spec by done. cbn [obind]. rewrite Er. by destruct (has_root p).
Qed.

(** ** Properties of normal forms *)

Lemma emit_word st w : Forall (fun c => sep st c = false) w -> Forall (word st) (emit w).
Proof. intros H. destruct w; cbn [emit]; [constructor|]. constructor; [by split|constructor]. Qed.

Lemma split_from_words st w l : Forall (fun c => sep st c = false) w -> Forall (word st) (split_from st w l).
Proof.
  revert w. induction l as [|c l IH]; intros w Hw; cbn [split_from].
  - by apply emit_word.
  - destruct (sep st c) eqn:Hc.
    + apply Forall_app. split; [by apply emit_word|apply IH; constructor].
    + apply IH, Forall_app. split; [done|by constructor].
Qed.

Lemma words_word ps : Forall (word U) (words ps).
Proof.
  induction ps as [|p ps IH]; [constructor|]. rewrite words_cons. apply Forall_app. split; [|done].
  apply split_from_words. constructor.
Qed.

Lemma kept_sublist absolute ws : forall pre, kept absolute pre ws ⊆ ws.
Proof. induction ws as [|w ws IH]; intros pre; cbn [kept]; [done|]. specialize (IH (pre ++ [w])). case_match; set_solver. Qed.

Lemma resolve_sub absolute ws : resolve absolute ws ⊆ ws.
Proof. rewrite <- kept_resolve. apply kept_sublist. Qed.

Lemma resolve_word ps absolute : Forall (word U) (resolve absolute (words ps)).
Proof.
  apply list.Forall_forall. intros w Hw. apply (proj1 (list.Forall_forall _ _) (words_word ps)). by apply (resolve_sub absolute).
Qed.

Lemma split_tail ws : Forall (word U) ws -> split U (tail_words ws) = ws.
Proof.
  induction 1 as [|w ws Hw _ IH]; [done|]. unfold tail_words in *. cbn [map concat app].
  change (slash :: w ++ ?t) with ([slash] ++ w ++ t). rewrite split_root by (by constructor).
  rewrite split_starts; [|by destruct ws]. rewrite (split_word U w) by done. by rewrite IH.
Qed.

Lemma split_join ws : Forall (word U) ws -> split U (join_words ws) = ws.
Proof.
  intros H. destruct H as [|w ws Hw Hws]; [done|]. cbn [put_words].
  rewrite split_starts by (by destruct ws). rewrite (split_word U w) by done. by rewrite split_tail.
Qed.

(** Stacks of words over [..]; an absolute path has none of these. *)
Definition settled (absolute : bool) (stack : list (list Z)) : Prop :=
  exists t u, stack = t ++ u /\ Forall (fun w => kind w = CWK_NORMAL) t /\ Forall (fun w => kind w = CWK_BACK) u /\
    (absolute = true -> u = []).

Lemma settled_step absolute stack w : settled absolute stack -> settled absolute (resolve_step absolute stack w).
Proof.
  intros (t & u & -> & Ht & Hu & Ha). unfold resolve_step. destruct (kind w) eqn:Hw.
  - exists (w :: t), u. split_and!; try done. by constructor.
  - by exists t, u.
  - destruct t as [|x t].
    + cbn [app]. destruct Hu as [|b u Hb Hu].
      * destruct absolute; [by exists [], []|]. exists [], [w]. split_and!; try done. by constructor.
      * rewrite decide_True by done. exists [], (w :: b :: u). split_and!; try done; [by repeat constructor|].
        intros E. by specialize (Ha E).
    + apply Forall_cons_1 in Ht as [Hx Ht]. cbn [app]. rewrite decide_False by congruence. by exists t, u.
Qed.

Lemma settled_foldl absolute ws stack : settled absolute stack -> settled absolute (foldl (resolve_step absolute) stack ws).
Proof. revert stack. induction ws as [|w ws IH]; intros stack H; [done|]. apply IH. by apply settled_step. Qed.

Lemma resolve_settled absolute ws : settled absolute (reverse (resolve absolute ws)).
Proof. unfold resolve. rewrite reverse_involutive. apply settled_foldl. by exists [], []. Qed.

Lemma foldl_normals absolute t : forall stack, Forall (fun w => kind w = CWK_NORMAL) t ->
  foldl (resolve_step absolute) stack t = reverse t ++ stack.
Proof.
  induction t as [|w t IH]; intros stack Ht; [done|]. apply Forall_cons_1 in Ht as [Hw Ht]. cbn [foldl].
  rewrite IH by done. unfold resolve_step. rewrite Hw. by rewrite reverse_cons, <- app_assoc.
Qed.

Lemma foldl_backs u : forall stack, Forall (fun w => kind w = CWK_BACK) u -> Forall (fun w => kind w = CWK_BACK) stack ->
  foldl (resolve_step false) stack u = reverse u ++ stack.
Proof.
  induction u as [|w u IH]; intros stack Hu Hs; [done|]. apply Forall_cons_1 in Hu as [Hw Hu]. cbn [foldl].
  assert (E : resolve_step false stack w = w :: stack).
  { unfold resolve_step. rewrite Hw. destruct Hs; [done|]. by rewrite decide_True. }
  rewrite E, IH; [|done|by constructor]. by rewrite reverse_cons, <- app_assoc.
Qed.

Lemma resolve_fixed absolute ws : settled absolute (reverse ws) -> resolve absolute ws = ws.
Proof.
  intros (t & u & E & Ht & Hu & Ha). apply (f_equal reverse) in E. rewrite reverse_involutive, reverse_app in E. subst ws.
  unfold resolve. rewrite foldl_app. apply (Forall_reverse _ u) in Hu. apply (Forall_reverse _ t) in Ht.
  assert (Eu : foldl (resolve_step absolute) [] (reverse u) = u).
  { destruct absolute; [by rewrite (Ha eq_refl)|]. rewrite foldl_backs by done. by rewrite reverse_involutive, app_nil_r. }
  rewrite Eu, foldl_normals by done. by rewrite reverse_involutive, reverse_app.
Qed.

Lemma resolve_idem absolute ws : resolve absolute (resolve absolute ws) = resolve absolute ws.
Proof. apply resolve_fixed, resolve_settled. Qed.

Lemma join_no_root ws : Forall (word U) ws -> has_root (join_words ws) = false.
Proof.
  destruct 1 as [|w ws [Hn Hw] _]; [done|]. destruct w as [|c w]; [done|]. cbn [put_words app has_root].
  apply Forall_cons_1 in Hw as [Hc _]. unfold sep in Hc. cbn [separators existsb] in Hc. by rewrite orb_false_r, Z.eqb_sym in Hc.
Qed.

Definition absolute_paths (ps : list (list Z)) : bool := match ps with p :: _ => has_root p | [] => false end.

(** The words of a normal form. *)
Lemma words_normal_form ps : resolve (absolute_paths ps) (words ps) <> [] \/ absolute_paths ps = true ->
  has_root (normal_form ps) = absolute_paths ps /\ split U (normal_form ps) = resolve (absolute_paths ps) (words ps).
Proof.
  unfold normal_form. fold (absolute_paths ps). pose proof (resolve_word ps (absolute_paths ps)) as Hk.
  destruct (absolute_paths ps).
  - intros _. split; [done|]. change (slash :: ?t) with ([slash] ++ t). rewrite split_root by (by constructor). by apply split_join.
  - intros [H|?]; [|done]. destruct (words ps) as [|w ws]; [done|].
    destruct (resolve false (w :: ws)) as [|k ks]; [done|]. split; [by apply join_no_root|by apply split_join].
Qed.

Lemma normal_form_settles ps : normal_form [normal_form ps] = normal_form ps.
Proof.
  destruct (decide (resolve (absolute_paths ps) (words ps) <> [] \/ absolute_paths ps = true)) as [H|H].
  - destruct (words_normal_form ps H) as [E1 E2].
    unfold normal_form at 1. unfold words. cbn [map concat]. rewrite app_nil_r, E1, E2, resolve_idem.
    unfold normal_form. fold (absolute_paths ps). destruct (absolute_paths ps); [done|].
    destruct H as [H|]; [|done]. destruct (words ps) as [|w ws]; [done|].
    by destruct (resolve false (w :: ws)).
  - unfold normal_form at 2. unfold normal_form at 2. fold (absolute_paths ps).
    destruct (absolute_paths ps); [by destruct H; right|].
    destruct (resolve false (words ps)) eqn:E; [|by destruct H; left]. by destruct (words ps).
Qed.

Lemma length_normal_form ps : ps <> [] -> (length (normal_form ps) < room ps)%nat.
Proof.
  destruct ps as [|p ps]; [done|]. intros _. unfold normal_form. rewrite <- kept_resolve.
  pose proof (cost_kept (has_root p) (words (p :: ps)) []) as H1.
  pose proof (cost_words ps) as H2. pose proof (cost_split U p) as H3.
  rewrite words_cons, cost_app in H1. unfold room in *. cbn [cost].
  destruct (has_root p) eqn:Hr.
  - destruct p as [|c p]; [done|]. cbn in Hr. apply Z.eqb_eq in Hr as ->.
    change (slash :: p) with ([slash] ++ p) in H1, H3. rewrite split_root in H1, H3 by (by constructor).
    pose proof (cost_split U p) as H4. cbn [length].
    rewrite words_cons. change (slash :: p) with ([slash] ++ p). rewrite split_root by (by constructor).
    destruct (kept true [] (split U p ++ words ps)) as [|k ks]; cbn [put_words length]; [lia|].
    rewrite length_app, length_tail_words. cbn [cost] in H1. lia.
  - rewrite words_cons. destruct (split U p ++ words ps) as [|w ws] eqn:E; [cbn; lia|].
    destruct (kept false [] (w :: ws)) as [|k ks]; cbn [put_words length].
    + assert (H5 : (length (w :: ws) <= length p + cost ps)%nat).
      { rewrite <- E, length_app. pose proof (length_split U p). pose proof (length_words ps).
        pose proof (length_concat_room ps). unfold room in *. lia. }
      cbn in H5. lia.
    + rewrite length_app, length_tail_words. cbn [cost] in H1. lia.
Qed.

(** ** The contract of the path functions *)

(** C9: joining and normalising paths ends without reading or writing outside
    the paths and the buffer.  The text it puts out is the normal form: the
    root of the first path and the words that a stack keeps, where [.] is
    skipped and [..] takes off the word before it, is lost at the root of an
    absolute path and stays at the front of a relative one.  The length
    returned is that of the whole text, the buffer receives as much as fits,
    always terminated, and the rest of the buffer is left alone. *)
Theorem normalize_correct p ps buffer n :
  Forall (fun q => 0 ∉ q) (p :: ps) -> Z.of_nat (room (p :: ps)) < 2 ^ 31 -> (n <= length buffer)%nat ->
  cwk_path_join_and_normalize_multiple U (p :: ps) buffer (Z.of_nat n)
    = Ret (Z.of_nat (length (normal_form (p :: ps))), terminated buffer n (normal_form (p :: ps))).
Proof. apply normalize_multiple_spec. Qed.

(** "/a/../b//./c" joined with "../d", into a buffer of six bytes. *)
Lemma normalize_correct_witness :
  let a := [47; 97; 47; 46; 46; 47; 98; 47; 47; 46; 47; 99] in
  let b := [46; 46; 47; 100] in
  cwk_path_join U a b [7; 7; 7; 7; 7; 7] 6 = Ret (4, [47; 98; 47; 100; 0; 7]).
Proof.
  cbv zeta. unfold cwk_path_join.
  refine (eq_trans (normalize_correct [47; 97; 47; 46; 46; 47; 98; 47; 47; 46; 47; 99] [[46; 46; 47; 100]] [7; 7; 7; 7; 7; 7] 6 _ _ _) _).
  - repeat constructor; set_solver.
  - vm_compute. reflexivity.
  - vm_compute. lia.
  - vm_compute. reflexivity.
Defined.

Lemma normalize_fits p buffer n : 0 ∉ p -> Z.of_nat (length p) < 2 ^ 31 - 1 -> (length p + 1 <= n <= length buffer)%nat ->
  cwk_path_normalize U p buffer (Z.of_nat n)
    = Ret (Z.of_nat (length (normal_form [p])), normal_form [p] ++ 0 :: drop (S (length (normal_form [p]))) buffer).
Proof.
  intros H0 Hl Hn. unfold cwk_path_normalize.
  rewrite normalize_multiple_spec; [|by constructor|unfold room; cbn; lia|lia].
  pose proof (length_normal_form [p] ltac:(done)) as Hf. unfold room in Hf. cbn in Hf.
  do 2 f_equal. unfold terminated. destruct n as [|k]; [lia|]. rewrite take_ge by lia. by rewrite Nat.min_r by lia.
Qed.

Lemma split_from_chars st w l v c : v ∈ split_from st w l -> c ∈ v -> c ∈ w ++ l.
Proof.
  revert w. induction l as [|d l IH]; intros w Hv Hc; cbn [split_from] in Hv.
  - destruct w; cbn in Hv; [by apply not_elem_of_nil in Hv|]. apply list_elem_of_singleton in Hv as ->. set_solver.
  - destruct (sep st d).
    + apply elem_of_app in Hv as [Hv|Hv].
      * destruct w; cbn in Hv; [by apply not_elem_of_nil in Hv|]. apply list_elem_of_singleton in Hv as ->. set_solver.
      * specialize (IH [] Hv Hc). set_solver.
    + specialize (IH _ Hv Hc). set_solver.
Qed.

Lemma words_chars ps w c : w ∈ words ps -> c ∈ w -> exists p, p ∈ ps /\ c ∈ p.
Proof.
  induction ps as [|p ps IH]; [by intros ?%not_elem_of_nil|]. rewrite words_cons. intros [H|H]%elem_of_app Hc.
  - exists p. split; [set_solver|]. by apply (split_from_chars U [] p w c).
  - destruct (IH H Hc) as (q & Hq & ?). exists q. split; [set_solver|done].
Qed.

Lemma tail_words_chars ws c : c ∈ tail_words ws -> c = slash \/ exists w, w ∈ ws /\ c ∈ w.
Proof.
  unfold tail_words. induction ws as [|w ws IH]; [by intros ?%not_elem_of_nil|]. cbn [map concat app].
  intros [->|[H|H]%elem_of_app]%elem_of_cons; [by left|right; exists w; set_solver|].
  destruct (IH H) as [?|(v & Hv & ?)]; [by left|]. right. exists v. set_solver.
Qed.

Lemma join_words_chars ws c : c ∈ join_words ws -> c = slash \/ exists w, w ∈ ws /\ c ∈ w.
Proof.
  destruct ws as [|w ws]; cbn [put_words]; [by intros ?%not_elem_of_nil|]. intros [H|H]%elem_of_app; [right; exists w; set_solver|].
  destruct (tail_words_chars ws c H) as [?|(v & Hv & ?)]; [by left|]. right. exists v. set_solver.
Qed.

Lemma chars_normal_form ps c : c ∈ normal_form ps -> c = slash \/ c = dot \/ exists p, p ∈ ps /\ c ∈ p.
Proof.
  assert (Hj : forall a, c ∈ join_words (resolve a (words ps)) -> c = slash \/ c = dot \/ exists p, p ∈ ps /\ c ∈ p).
  { intros a [?|(w & Hw & Hc)]%join_words_chars; [by left|]. do 2 right. by apply (words_chars ps w); [apply (resolve_sub a)|]. }
  unfold normal_form. fold (absolute_paths ps). destruct (absolute_paths ps).
  - intros [->|H]%elem_of_cons; [by left|]. by apply (Hj true).
  - specialize (Hj false). destruct (words ps) as [|w ws]; [by intros ?%not_elem_of_nil|].
    destruct (resolve false (w :: ws)); [|done]. intros ->%list_elem_of_singleton. right; by left.
Qed.

Lemma normal_form_no_nul ps : Forall (fun q => 0 ∉ q) ps -> 0 ∉ normal_form ps.
Proof.
  intros H [E|[E|(p & Hp & Hc)]]%chars_normal_form; [done..|]. by apply (proj1 (list.Forall_forall _ _) H p Hp).
Qed.

(** Normalising is stable.  With room for the path and its terminator, the
    code puts out a text that is no longer than the path, and normalising this
    text again gives it back unchanged. *)
Theorem normalize_idempotent p buffer n buffer' : 0 ∉ p -> Z.of_nat (length p) < 2 ^ 31 - 1 ->
  (length p + 1 <= n <= length buffer)%nat -> (n <= length buffer')%nat ->
  exists q, (length q <= length p)%nat /\
    cwk_path_normalize U p buffer (Z.of_nat n) = Ret (Z.of_nat (length q), q ++ 0 :: drop (S (length q)) buffer) /\
    cwk_path_normalize U q buffer' (Z.of_nat n) = Ret (Z.of_nat (length q), q ++ 0 :: drop (S (length q)) buffer').
Proof.
  intros H0 Hl Hn Hn'. exists (normal_form [p]).
  pose proof (length_normal_form [p] ltac:(done)) as Hf. unfold room in Hf. cbn in Hf.
  split_and!; [lia|by apply normalize_fits|].
  rewrite normalize_fits, normal_form_settles; [done|apply normal_form_no_nul; by constructor|lia|lia].
Qed.

(** "a/..//b/." *)
Lemma normalize_idempotent_witness :
  exists q, (length q <= 9)%nat /\
    cwk_path_normalize U [97; 47; 46; 46; 47; 47; 98; 47; 46] (replicate 12 7) 12
      = Ret (Z.of_nat (length q), q ++ 0 :: drop (S (length q)) (replicate 12 7)) /\
    cwk_path_normalize U q (replicate 12 5) 12 = Ret (Z.of_nat (length q), q ++ 0 :: drop (S (length q)) (replicate 12 5)).
Proof.
  apply (normalize_idempotent [97; 47; 46; 46; 47; 47; 98; 47; 46] (replicate 12 7) 12 (replicate 12 5)).
  - set_solver.
  - cbn. lia.
  - cbn. lia.
  - cbn. lia.
Defined.

(** The name of a file: the last word of its path. *)
Lemma basename_spec p : 0 ∉ p ->
  match cwk_path_get_basename U p with
  | Ret None => split U p = []
  | Ret (Some (b, k)) => exists pre w, split U p = pre ++ [w] /\ k = Z.of_nat (length w) /\ 0 <= b /\
      take (Z.to_nat k) (drop (Z.to_nat b) p) = w /\ seps U (drop (Z.to_nat (b + k)) p)
  | _ => False
  end.
Proof.
  intros H0. unfold cwk_path_get_basename, cwk_path_get_last_segment.
  destruct (unix_root p) as (r & l & E & Hr & Eroot & _).
  destruct (last_segment_from_spec U p r l _ E H0 Hr eq_refl) as [[Es [g Hg]]|(pre & w & g & Es & Hg & Hp & Hv)];
    unfold cwk_path_get_first_segment; rewrite Eroot; cbn [obind] in *; rewrite Hg; cbn [obind].
  - by rewrite E, split_root.
  - exists pre, w. destruct Hv as [r' a b Ep _ _ _ Hb Hz _ Hw Ha Hsb _ Hpost]. rewrite Hb, Hz. split_and!; try done; try lia.
    + by rewrite E, split_root.
    + rewrite <- Hp, Ep, !Nat2Z.id. rewrite (app_assoc r'), drop_app_length' by (rewrite length_app; lia).
      by rewrite take_app_length.
    + rewrite <- Hp, Ep. rewrite (app_assoc r'), (app_assoc (r' ++ a)), drop_app_length' by (rewrite !length_app; lia).
      destruct (first_word U b) as [?|(q & v & b' & -> & Hq & Hvw & Hb')]; [done|]. exfalso.
      rewrite split_ends in Hpost by (by apply ends_seps). rewrite (split_seps U q) in Hpost by done. cbn [app] in Hpost.
      rewrite split_starts, (split_word U v) in Hpost by done. done.
Qed.

(** Joining paths starting at a root: the result is absolute. *)
Lemma get_absolute_spec base p buffer n : 0 ∉ base -> 0 ∉ p -> Z.of_nat (length base + length p) < 2 ^ 31 - 4 ->
  (n <= length buffer)%nat -> exists ps,
  cwk_path_get_absolute U base p buffer (Z.of_nat n) = Ret (Z.of_nat (length (normal_form ps)), terminated buffer n (normal_form ps)) /\
  has_root (normal_form ps) = true /\
  words ps = if has_root p then split U p else split U base ++ split U p.
Proof.
  intros Hb Hp Hl Hn. unfold cwk_path_get_absolute, cwk_path_is_absolute.
  destruct (unix_root base) as (r1 & l1 & E1 & Hr1 & -> & A1 & _). destruct (unix_root p) as (r2 & l2 & E2 & Hr2 & -> & A2 & _).
  cbn [obind]. rewrite A1, A2. cbn [obind].
  set (ps := (if has_root base then [] else [[separator U]]) ++ (if has_root p then [p] else [base; p])).
  exists ps.
  assert (Hnf : absolute_paths ps = true -> has_root (normal_form ps) = true).
  { intros H. unfold normal_form. fold (absolute_paths ps). by rewrite H. }
  assert (H0 : Forall (fun q => 0 ∉ q) ps) by (unfold ps; destruct (has_root base), (has_root p); repeat constructor; set_solver).
  assert (Hroom : Z.of_nat (room ps) < 2 ^ 31) by (unfold ps, room; destruct (has_root base), (has_root p); cbn; lia).
  split_and!.
  - destruct ps as [|q qs] eqn:Eps; [unfold ps in Eps; by destruct (has_root base), (has_root p)|].
    by apply normalize_multiple_spec.
  - apply Hnf. unfold ps. destruct (has_root base) eqn:?, (has_root p) eqn:?; done.
  - unfold ps. destruct (has_root base) eqn:?, (has_root p) eqn:?; cbn [app]; rewrite ?words_cons; cbn [words map concat]; by rewrite ?app_nil_r.
Qed.
