(* ===== verification/KString.v ===== *)
(** * Strings of the kernel

    The model of [std::basic_string] of the kernel's own C++ library
    ([src/Kernel/include_std/string]): a buffer that may be null, a size and a
    capacity.  The allocator hands out [n] bytes of unknown contents; a write
    outside the buffer and an exception are both [Fault].

    [holds s l]: the characters of [s] are [l].  [terminated s l]: and a C
    function that is given the buffer reads [l] too.  The operations refine
    those of lists; two of them do not keep the terminator or the bounds. *)

From S2P Require Import Prelude CMem KPath.

Record basic_string : Type := Str {
  str_data : option (list Z);
  str_size : Z;
  str_capacity : Z
}.

(** [_data[i]] and [_data[i] = v] *)
Definition poke (d : option (list Z)) (i v : Z) : outcome (option (list Z)) :=
  match d with
  | None => Fault
  | Some b => let! b := put b i [v] in Ret (Some b)
  end.

(** [memcpy (_data + i, l, |l|)]; nothing is written, not even through a null
    pointer, when there is nothing to copy. *)
Definition copy_to (d : option (list Z)) (i : Z) (l : list Z) : outcome (option (list Z)) :=
  match l with
  | [] => Ret d
  | _ => match d with None => Fault | Some b => let! b := put b i l in Ret (Some b) end
  end.

(** [n] bytes at offset [i] of a buffer. *)
Definition bytes_of (d : option (list Z)) (i n : Z) : outcome (list Z) :=
  if n =? 0 then Ret []
  else match d with
       | None => Fault
       | Some b =>
         if (0 <=? i) && (0 <=? n) && (i + n <=? Z.of_nat (length b))
         then Ret (take (Z.to_nat n) (drop (Z.to_nat i) b)) else Fault
       end.

(** [char_traits::length] *)
Fixpoint traits_length (b : list Z) : outcome Z :=
  match b with
  | [] => Fault
  | c :: b => if c =? 0 then Ret 0 else let! n := traits_length b in Ret (n + 1)
  end.

(** [char_traits::compare] on ranges of the same length *)
Fixpoint traits_compare (a b : list Z) : Z :=
  match a, b with
  | x :: a, y :: b => if x <? y then -1 else if x >? y then 1 else traits_compare a b
  | _, _ => 0
  end.

Section strings.
Context (allocate : Z -> list Z).

Definition string_default : basic_string := Str None 0 0.

(** [basic_string (const CharT *s, size_type count)] *)
Definition string_counted (s : list Z) (count : Z) : outcome basic_string :=
  let capacity := u64 (count + 1) in
  let! l := bytes_of (Some s) 0 count in
  let! d := copy_to (Some (allocate capacity)) 0 l in
  let! d := poke d count 0 in
  Ret (Str d count capacity).

(** [basic_string (const CharT *s)], for the C string [l] *)
Definition string_of_cstr (l : list Z) : outcome basic_string := string_counted l (Z.of_nat (length l)).

Definition string_copy (other : basic_string) : outcome basic_string :=
  let n := str_size other in
  let capacity := u64 (n + 1) in
  let! l := bytes_of (str_data other) 0 n in
  let! d := copy_to (Some (allocate capacity)) 0 l in
  let! d := poke d n 0 in
  Ret (Str d n capacity).

(** [operator= (const basic_string &)], between two objects *)
Definition string_assign (str : basic_string) : outcome basic_string :=
  let! l := bytes_of (str_data str) 0 (str_capacity str) in
  let! d := copy_to (Some (allocate (str_capacity str))) 0 l in
  Ret (Str d (str_size str) (str_capacity str)).

Definition string_reserve (s : basic_string) (new_cap : Z) : outcome basic_string :=
  if new_cap >? str_capacity s then
    match str_data s with
    | None => Ret (Str (Some (allocate new_cap)) (str_size s) new_cap)
    | Some _ =>
      let! l := bytes_of (str_data s) 0 (str_size s) in
      let! d := copy_to (Some (allocate new_cap)) 0 l in
      Ret (Str d (str_size s) new_cap)
    end
  else Ret s.

Definition string_clear : basic_string := Str None 0 0.

Definition string_push_back (s : basic_string) (ch : Z) : outcome basic_string :=
  let! s := if str_size s =? str_capacity s
            then string_reserve s (if str_capacity s =? 0 then 2 else u64 (str_capacity s * 2)) else Ret s in
  let! d := poke (str_data s) (str_size s) ch in
  let n := u64 (str_size s + 1) in
  let! d := poke d n 0 in
  Ret (Str d n (str_capacity s)).

Definition string_pop_back (s : basic_string) : outcome basic_string :=
  if str_size s >? 0 then
    let n := str_size s - 1 in
    let! d := poke (str_data s) n 0 in
    Ret (Str d n (str_capacity s))
  else Ret s.

(** [append (size_type count, CharT ch)] *)
Definition string_append_fill (s : basic_string) (count ch : Z) : outcome basic_string :=
  if count >? 0 then
    let new_size := u64 (str_size s + count) in
    let! s := if new_size >? str_capacity s then string_reserve s new_size else Ret s in
    let! d := copy_to (str_data s) (str_size s) (replicate (Z.to_nat count) ch) in
    Ret (Str d new_size (str_capacity s))
  else Ret s.

(** [append (InputIt first, InputIt last)] *)
Definition string_append (s : basic_string) (l : list Z) : outcome basic_string :=
  let old_size := str_size s in
  let new_size := u64 (old_size + Z.of_nat (length l)) in
  let! s := if u64 (new_size + 1) >? str_capacity s then string_reserve s (u64 (new_size + 1)) else Ret s in
  let! d := copy_to (str_data s) old_size l in
  let! d := poke d new_size 0 in
  Ret (Str d new_size (str_capacity s)).

Definition npos : Z := 2 ^ 64 - 1.

(** [erase (index, count)]; a range that begins past the end of the string, as
    it does when [index + count] wraps, is outside the buffer. *)
Definition string_erase (s : basic_string) (index count : Z) : outcome basic_string :=
  if index >? str_size s then Fault
  else
    let count := if (count =? npos) || (u64 (index + count) >? str_size s) then str_size s - index else count in
    if count >? 0 then
      let! l := bytes_of (str_data s) (index + count) (str_size s - (index + count)) in
      let! d := copy_to (str_data s) index l in
      let n := str_size s - count in
      let! d := poke d n 0 in
      Ret (Str d n (str_capacity s))
    else Ret s.

(** [resize (size_type count)] *)
Definition string_resize (s : basic_string) (count : Z) : outcome basic_string :=
  let! n := match str_data s with
            | Some b => if str_size s =? 0 then traits_length b else Ret (str_size s)
            | None => Ret (str_size s)
            end in
  let s := Str (str_data s) n (str_capacity s) in
  if count <? n then string_erase s count npos
  else if count >? n then string_append_fill s (count - n) 0
  else Ret s.

(** [compare (const basic_string &)] *)
Definition string_compare (s t : basic_string) : outcome Z :=
  let len1 := str_size s in
  let len2 := str_size t in
  let len := Z.min len1 len2 in
  let! a := bytes_of (str_data s) 0 len in
  let! b := bytes_of (str_data t) 0 len in
  let result := traits_compare a b in
  Ret (if result =? 0 then if len1 <? len2 then -1 else if len1 >? len2 then 1 else 0 else result).

Definition string_eq (s t : basic_string) : outcome bool :=
  let! c := string_compare s t in Ret (c =? 0).

(** [operator+ (const basic_string &, const basic_string &)] *)
Definition string_plus (s t : basic_string) : outcome basic_string :=
  let! result := string_copy s in
  let! l := bytes_of (str_data t) 0 (str_size t) in
  string_append result l.

(** ** Representation *)

Hypothesis allocate_length : forall n, 0 <= n -> length (allocate n) = Z.to_nat n.

Definition holds (s : basic_string) (l : list Z) : Prop :=
  match str_data s with
  | None => l = [] /\ str_size s = 0 /\ str_capacity s = 0
  | Some b => exists rest, b = l ++ rest /\ str_size s = Z.of_nat (length l) /\ str_capacity s = Z.of_nat (length b)
  end.

Definition terminated_as (s : basic_string) (l : list Z) : Prop :=
  exists rest, str_data s = Some (l ++ 0 :: rest) /\ str_size s = Z.of_nat (length l) /\
    str_capacity s = Z.of_nat (length (l ++ 0 :: rest)).

(** An empty string has no buffer or one that a C function sees as empty. *)
Definition settled_empty (s : basic_string) (l : list Z) : Prop :=
  holds s l /\ (l = [] -> match str_data s with None => True | Some b => exists rest, b = 0 :: rest end).

Lemma terminated_holds s l : terminated_as s l -> holds s l.
Proof using Type. intros (rest & E & Hs & Hc). unfold holds. rewrite E. by exists (0 :: rest). Qed.

Lemma terminated_settled s l : terminated_as s l -> settled_empty s l.
Proof using Type.
  intros H. split; [by apply terminated_holds|]. intros ->. destruct H as (rest & E & _). rewrite E. by exists rest.
Qed.

Lemma bytes_of_all s l : holds s l -> bytes_of (str_data s) 0 (str_size s) = Ret l.
Proof using Type.
  unfold holds, bytes_of. destruct (str_data s) as [b|].
  - intros (rest & -> & -> & Hc). destruct (Z.eqb_spec (Z.of_nat (length l)) 0) as [E|E].
    + destruct l; [done|cbn in E; lia].
    + rewrite length_app. zprune; try lia. rewrite drop_0, Nat2Z.id, take_app_length. done.
  - intros (-> & -> & _). done.
Qed.

Lemma copy_to_front b l : (length l <= length b)%nat -> copy_to (Some b) 0 l = Ret (Some (l ++ drop (length l) b)).
Proof using Type.
  intros H. destruct l as [|c l]; [by rewrite drop_0|]. unfold copy_to. unfold put. zprune; try lia. done.
Qed.

Lemma copy_to_at x y l i : i = Z.of_nat (length x) -> (length l <= length y)%nat ->
  copy_to (Some (x ++ y)) i l = Ret (Some (x ++ l ++ drop (length l) y)).
Proof using Type.
  intros -> H. destruct l as [|c l]; [done|]. unfold copy_to. unfold put. rewrite length_app. zprune; try lia.
  cbn [obind]. rewrite Nat2Z.id, take_app_length, drop_app_add. done.
Qed.

Lemma poke_at x c y v i : i = Z.of_nat (length x) -> poke (Some (x ++ c :: y)) i v = Ret (Some (x ++ v :: y)).
Proof using Type.
  intros ->. unfold poke, put. rewrite length_app. cbn [length]. zprune; try lia. cbn [obind].
  rewrite Nat2Z.id, take_app_length, drop_app_add. done.
Qed.

Lemma split_at_cons (b : list Z) n : (n < length b)%nat -> exists c rest, drop n b = c :: rest.
Proof using Type.
  intros H. destruct (drop n b) as [|c rest] eqn:E; [|by eexists _, _].
  apply (f_equal length) in E. rewrite length_drop in E. cbn in E. lia.
Qed.

(** A copy of [l] in a new buffer of one more byte. *)
Lemma new_buffer l : Z.of_nat (length l) + 1 < 2 ^ 64 -> exists s,
  (let! d := copy_to (Some (allocate (u64 (Z.of_nat (length l) + 1)))) 0 l in
   let! d := poke d (Z.of_nat (length l)) 0 in Ret (Str d (Z.of_nat (length l)) (u64 (Z.of_nat (length l) + 1)))) = Ret s /\
  terminated_as s l.
Proof using allocate_length.
  intros Hl. rewrite uw_small by lia.
  pose proof (allocate_length (Z.of_nat (length l) + 1) ltac:(lia)) as Ha.
  rewrite copy_to_front by lia. cbn [obind].
  destruct (split_at_cons (allocate (Z.of_nat (length l) + 1)) (length l) ltac:(lia)) as (c & rest & E). rewrite E.
  rewrite poke_at by done. cbn [obind]. eexists. split; [done|]. exists rest. split_and!; try done. cbn [str_capacity].
  apply (f_equal length) in E. rewrite length_drop in E. cbn in E. rewrite length_app. cbn. lia.
Qed.

Lemma string_of_cstr_spec l : Z.of_nat (length l) + 1 < 2 ^ 64 -> exists s, string_of_cstr l = Ret s /\ terminated_as s l.
Proof using allocate_length.
  intros Hl. unfold string_of_cstr, string_counted. cbv zeta.
  assert (E : bytes_of (Some l) 0 (Z.of_nat (length l)) = Ret l).
  { apply (bytes_of_all (Str (Some l) (Z.of_nat (length l)) (Z.of_nat (length l)))). exists []. by rewrite app_nil_r. }
  rewrite E. by apply new_buffer.
Qed.

Lemma string_copy_spec s l : holds s l -> Z.of_nat (length l) + 1 < 2 ^ 64 -> exists s', string_copy s = Ret s' /\ terminated_as s' l.
Proof using allocate_length.
  intros H Hl. unfold string_copy. cbv zeta. rewrite (bytes_of_all _ _ H). cbn [obind].
  assert (str_size s = Z.of_nat (length l)) as ->.
  { unfold holds in H. destruct (str_data s); [by destruct H as (? & _ & ? & _)|]. by destruct H as (-> & -> & _). }
  by apply new_buffer.
Qed.

Lemma holds_size s l : holds s l -> str_size s = Z.of_nat (length l).
Proof using Type. unfold holds. destruct (str_data s); [by intros (? & _ & ? & _)|]. by intros (-> & -> & _). Qed.

Lemma string_reserve_spec s l n : holds s l -> Z.of_nat (length l) <= n -> exists s' b,
  string_reserve s n = Ret s' /\ holds s' l /\ n <= str_capacity s' /\ (0 < n -> str_data s' = Some b).
Proof using allocate_length.
  intros H Hn. unfold string_reserve. pose proof (holds_size _ _ H) as Hz.
  destruct (Z.gtb_spec n (str_capacity s)) as [Hg|Hg].
  - pose proof (bytes_of_all _ _ H) as Hb. pose proof (allocate_length n ltac:(lia)) as Ha. unfold holds in H.
    destruct (str_data s) as [b|].
    + rewrite Hb. cbn [obind]. rewrite copy_to_front by lia. cbn [obind]. eexists _, _. split; [done|].
      split_and!; try done. unfold holds. cbn [str_data str_size str_capacity]. eexists. split_and!; try done.
      rewrite length_app, length_drop. lia.
    + destruct H as (-> & -> & _). eexists _, (allocate n). split; [done|]. split_and!; try done.
      exists (allocate n). cbn. split_and!; try done. lia.
  - unfold holds in H. destruct (str_data s) as [b|] eqn:E.
    + exists s, b. split_and!; try done; try lia. unfold holds. by rewrite E.
    + destruct H as (-> & H1 & H2). exists s, []. split_and!; try done; try lia. unfold holds. by rewrite E.
Qed.

Lemma guarded_reserve s n : (if n >? str_capacity s then string_reserve s n else Ret s) = string_reserve s n.
Proof using Type. unfold string_reserve. by destruct (n >? str_capacity s). Qed.

Lemma string_append_spec s l m : holds s l -> Z.of_nat (length (l ++ m)) + 1 < 2 ^ 64 -> exists s', string_append s m = Ret s' /\ terminated_as s' (l ++ m).
Proof using allocate_length.
  intros H Hlen. rewrite length_app in Hlen. unfold string_append. cbv zeta. rewrite (holds_size _ _ H).
  rewrite (uw_small 64 (Z.of_nat (length l) + Z.of_nat (length m))), (uw_small 64 (_ + 1)) by lia.
  rewrite guarded_reserve.
  destruct (string_reserve_spec s l (Z.of_nat (length l) + Z.of_nat (length m) + 1) H ltac:(lia)) as (s1 & b & -> & H1 & Hc & Hb).
  specialize (Hb ltac:(lia)).
  cbn [obind]. unfold holds in H1. rewrite Hb in H1 |- *. destruct H1 as (rest & -> & Hs & Hcap).
  rewrite Hcap, length_app in Hc. rewrite copy_to_at by (done || lia). cbn [obind].
  destruct (split_at_cons rest (length m) ltac:(lia)) as (c & r & E). rewrite E.
  rewrite (app_assoc l m), poke_at by (rewrite length_app; lia). cbn [obind].
  eexists. split; [done|]. exists r. cbn [str_data str_size str_capacity]. split_and!; [done|rewrite length_app; lia|].
  apply (f_equal length) in E. rewrite length_drop in E. cbn in E. rewrite Hcap, !length_app. cbn. lia.
Qed.

Lemma string_append_fill_spec s l n c : settled_empty s l -> 0 <= n -> Z.of_nat (length l) + n < 2 ^ 64 ->
  exists s', string_append_fill s n c = Ret s' /\ settled_empty s' (l ++ replicate (Z.to_nat n) c).
Proof using allocate_length.
  intros [H Hse] Hn Hlen. unfold string_append_fill. cbv zeta. destruct (Z.gtb_spec n 0) as [Hg|Hg].
  2: { replace n with 0 by lia. cbn [Z.to_nat replicate]. rewrite app_nil_r. by exists s. }
  rewrite (holds_size _ _ H), (uw_small 64) by lia.
  rewrite guarded_reserve.
  destruct (string_reserve_spec s l (Z.of_nat (length l) + n) H ltac:(lia)) as (s1 & b & -> & H1 & Hc & Hb).
  specialize (Hb ltac:(lia)).
  cbn [obind]. rewrite (holds_size _ _ H1). unfold holds in H1. rewrite Hb in H1 |- *. destruct H1 as (rest & -> & Hs & Hcap).
  rewrite Hcap, length_app in Hc. rewrite copy_to_at by (done || rewrite length_replicate; lia). cbn [obind].
  eexists. split; [done|]. split.
  - exists (drop (length (replicate (Z.to_nat n) c)) rest). cbn [str_data str_size str_capacity].
    rewrite length_replicate. split_and!; [by rewrite <- app_assoc|rewrite length_app, length_replicate; lia|].
    rewrite Hcap, !length_app, length_replicate, length_drop. lia.
  - intros E. apply (f_equal length) in E. rewrite length_app, length_replicate in E. cbn in E. lia.
Qed.

Lemma string_pop_back_spec s l c : holds s (l ++ [c]) -> exists s', string_pop_back s = Ret s' /\ terminated_as s' l.
Proof using Type.
  intros H. unfold string_pop_back. rewrite (holds_size _ _ H), length_app. cbn [length]. zprune; try lia.
  unfold holds in H. destruct (str_data s) as [b|]; [|destruct H as [E _]; by destruct l].
  destruct H as (rest & -> & Hs & Hc). rewrite <- app_assoc. cbn [app]. rewrite poke_at by lia. cbn [obind].
  eexists. split; [done|]. exists rest. cbn [str_data str_size str_capacity]. split_and!; [done|lia|].
  rewrite Hc, !length_app. cbn. lia.
Qed.

Lemma string_erase_spec s l i n : settled_empty s l -> 0 <= i <= Z.of_nat (length l) -> Z.of_nat (length l) < npos ->
  0 <= n -> n = npos \/ i + n < 2 ^ 64 ->
  exists s', string_erase s i n = Ret s' /\
    settled_empty s' (take (Z.to_nat i) l ++ drop (Z.to_nat (i + n)) l).
Proof using Type.
  intros Hse Hi Hl Hn Hw. pose proof (proj1 Hse) as H. unfold string_erase. rewrite (holds_size _ _ H).
  destruct (Z.gtb_spec i (Z.of_nat (length l))) as [?|_]; [lia|].
  set (k := if (n =? npos) || (u64 (i + n) >? Z.of_nat (length l)) then Z.of_nat (length l) - i else n).
  assert (Hk : 0 <= k /\ i + k <= Z.of_nat (length l) /\ drop (Z.to_nat (i + n)) l = drop (Z.to_nat (i + k)) l).
  { unfold k. destruct (Z.eqb_spec n npos) as [->|Hne]; cbn [orb].
    { split_and!; try lia. by rewrite !drop_ge by (unfold npos in *; lia). }
    rewrite uw_small by (unfold npos in *; lia).
    destruct (Z.gtb_spec (i + n) (Z.of_nat (length l))); split_and!; try lia; [|done]. by rewrite !drop_ge by lia. }
  destruct Hk as (Hk0 & Hk1 & ->). destruct (Z.gtb_spec k 0) as [Hg|Hg].
  2: { replace k with 0 by lia. rewrite Z.add_0_r, take_drop. by exists s. }
  unfold holds in H. destruct (str_data s) as [b|]; [|by destruct H as (-> & _); cbn in *; lia].
  destruct H as (rest & -> & Hs & Hc).
  assert (Hb : bytes_of (Some (l ++ rest)) (i + k) (Z.of_nat (length l) - (i + k)) = Ret (drop (Z.to_nat (i + k)) l)).
  { unfold bytes_of. destruct (Z.eqb_spec (Z.of_nat (length l) - (i + k)) 0) as [E|E].
    - by rewrite drop_ge by lia.
    - rewrite length_app. zprune; try lia. rewrite drop_app_le by lia. rewrite take_app_length'; [done|]. rewrite length_drop. lia. }
  rewrite Hb. cbn [obind]. set (t := drop (Z.to_nat (i + k)) l).
  assert (Ht : Z.of_nat (length t) = Z.of_nat (length l) - (i + k)) by (unfold t; rewrite length_drop; lia).
  replace (l ++ rest) with (take (Z.to_nat i) l ++ (drop (Z.to_nat i) l ++ rest)) by (by rewrite app_assoc, take_drop).
  rewrite copy_to_at; [|rewrite length_take; lia|rewrite length_app, length_drop; lia]. cbn [obind].
  destruct (split_at_cons (drop (Z.to_nat i) l ++ rest) (length t)) as (c & r & E); [rewrite length_app, length_drop; lia|].
  rewrite E, app_assoc, poke_at by (rewrite length_app, length_take; lia). cbn [obind].
  eexists. split; [done|]. apply terminated_settled. exists r. cbn [str_data str_size str_capacity].
  split_and!; [done|rewrite length_app, length_take; lia|].
  apply (f_equal length) in E. rewrite length_drop, length_app, length_drop in E. cbn [length] in E.
  rewrite Hc, !length_app, length_take. cbn [length]. lia.
Qed.

Lemma string_resize_spec s l n : settled_empty s l -> 0 <= n < 2 ^ 64 -> Z.of_nat (length l) < npos ->
  exists s', string_resize s n = Ret s' /\
    settled_empty s' (take (Z.to_nat n) l ++ replicate (Z.to_nat n - length l) 0).
Proof using allocate_length.
  intros Hse Hn Hl. pose proof (proj1 Hse) as H. unfold string_resize.
  assert (E : match str_data s with
            | Some b => if str_size s =? 0 then traits_length b else Ret (str_size s)
            | None => Ret (str_size s)
            end = Ret (str_size s)).
  { destruct (str_data s) as [b|] eqn:Ed; [|done]. destruct (Z.eqb_spec (str_size s) 0) as [E0|]; [|done].
    rewrite (holds_size _ _ H) in E0. destruct l; [|cbn in E0; lia]. destruct Hse as [_ Hse]. rewrite Ed in Hse.
    destruct (Hse eq_refl) as [rest ->]. rewrite (holds_size _ _ H). done. }
  rewrite E. cbn [obind]. cbv zeta.
  replace (Str (str_data s) (str_size s) (str_capacity s)) with s by (by destruct s). rewrite (holds_size _ _ H).
  destruct (Z.ltb_spec n (Z.of_nat (length l))) as [Hlt|Hge].
  - destruct (string_erase_spec s l n npos Hse) as (s' & E' & Hs'); [lia|done|unfold npos; lia|by left|].
    exists s'. split; [done|]. rewrite (drop_ge l), app_nil_r in Hs' by (unfold npos in *; lia).
    by replace (Z.to_nat n - length l)%nat with 0%nat by lia; rewrite app_nil_r.
  - destruct (Z.gtb_spec n (Z.of_nat (length l))) as [Hg|Hg].
    + destruct (string_append_fill_spec s l (n - Z.of_nat (length l)) 0 Hse ltac:(lia) ltac:(lia)) as (s' & E' & Hs').
      exists s'. split; [done|]. rewrite (take_ge l) by lia.
      by replace (Z.to_nat n - length l)%nat with (Z.to_nat (n - Z.of_nat (length l))) by lia.
    + exists s. split; [done|]. rewrite (take_ge l) by lia. replace (Z.to_nat n - length l)%nat with 0%nat by lia. by rewrite app_nil_r.
Qed.

Lemma string_assign_spec s l : settled_empty s l -> str_data s <> None ->
  exists s', string_assign s = Ret s' /\ settled_empty s' l.
Proof using allocate_length.
  intros Hse Hd. pose proof Hse as [H He]. unfold string_assign. destruct (str_data s) as [b|] eqn:Ed; [|done].
  unfold holds in H. rewrite Ed in H. destruct H as (rest & -> & Hs & Hc).
  assert (E : bytes_of (Some (l ++ rest)) 0 (str_capacity s) = Ret (l ++ rest)).
  { apply (bytes_of_all (Str (Some (l ++ rest)) (str_capacity s) (str_capacity s))). exists []. by rewrite app_nil_r. }
  rewrite E. cbn [obind]. pose proof (allocate_length (str_capacity s) ltac:(lia)) as Ha.
  rewrite copy_to_front by lia. cbn [obind]. rewrite drop_ge, app_nil_r by lia.
  eexists. split; [done|]. split; [by exists rest|done].
Qed.

Lemma traits_compare_eq a b : length a = length b -> traits_compare a b = 0 <-> a = b.
Proof using Type.
  revert b. induction a as [|x a IH]; intros [|y b] H; try done. cbn [traits_compare]. injection H as H.
  destruct (Z.ltb_spec x y); [split; [done|intros [= -> ->]; lia]|].
  destruct (Z.gtb_spec x y); [split; [done|intros [= -> ->]; lia]|].
  assert (x = y) as -> by lia. rewrite (IH b H). split; [by intros ->|by intros [= ->]].
Qed.

Lemma string_eq_spec s t l m : holds s l -> holds t m -> string_eq s t = Ret (bool_decide (l = m)).
Proof using Type.
  intros Hs Ht. unfold string_eq, string_compare. rewrite (holds_size _ _ Hs), (holds_size _ _ Ht).
  assert (Hb : forall s l k, holds s l -> 0 <= k <= Z.of_nat (length l) -> bytes_of (str_data s) 0 k = Ret (take (Z.to_nat k) l)).
  { intros s' l' k H Hk. unfold bytes_of. destruct (Z.eqb_spec k 0) as [->|]; [done|]. unfold holds in H.
    destruct (str_data s'); [|by destruct H as (-> & _); cbn in Hk; lia]. destruct H as (rest & -> & _ & _).
    rewrite length_app. zprune; try lia. by rewrite drop_0, take_app_le by lia. }
  rewrite (Hb s l), (Hb t m) by (done || lia). cbn [obind]. f_equal.
  set (k := Z.to_nat (Z.min (Z.of_nat (length l)) (Z.of_nat (length m)))).
  pose proof (traits_compare_eq (take k l) (take k m)) as Hc. rewrite !length_take in Hc. specialize (Hc ltac:(unfold k; lia)).
  destruct (Z.eqb_spec (traits_compare (take k l) (take k m)) 0) as [E|E].
  - apply Hc in E. destruct (Z.ltb_spec (Z.of_nat (length l)) (Z.of_nat (length m)));
      [|destruct (Z.gtb_spec (Z.of_nat (length l)) (Z.of_nat (length m)))].
    + symmetry. apply bool_decide_eq_false. intros ->. lia.
    + symmetry. apply bool_decide_eq_false. intros ->. lia.
    + symmetry. apply bool_decide_eq_true. rewrite !take_ge in E by (unfold k; lia). done.
  - destruct (Z.eqb_spec (traits_compare (take k l) (take k m)) 0); [done|]. symmetry. apply bool_decide_eq_false.
    intros ->. by apply E, Hc.
Qed.

(** ** Runs of operations *)

Inductive string_op : Type :=
| OpAppend (m : list Z)
| OpFill (n c : Z)
| OpErase (i n : Z)
| OpResize (n : Z)
| OpPopBack
| OpCopy
| OpPlus (m : list Z)
| OpClear.

Definition run_op (s : basic_string) (op : string_op) : outcome basic_string :=
  match op with
  | OpAppend m => string_append s m
  | OpFill n c => string_append_fill s n c
  | OpErase i n => string_erase s i n
  | OpResize n => string_resize s n
  | OpPopBack => string_pop_back s
  | OpCopy => string_copy s
  | OpPlus m => let! t := string_of_cstr m in string_plus s t
  | OpClear => Ret string_clear
  end.

(** The same on lists. *)
Definition list_op (l : list Z) (op : string_op) : list Z :=
  match op with
  | OpAppend m | OpPlus m => l ++ m
  | OpFill n c => l ++ replicate (Z.to_nat n) c
  | OpErase i n => take (Z.to_nat i) l ++ drop (Z.to_nat (i + n)) l
  | OpResize n => take (Z.to_nat n) l ++ replicate (Z.to_nat n - length l) 0
  | OpPopBack => take (pred (length l)) l
  | OpCopy => l
  | OpClear => []
  end.

(** The sizes fit in a [size_t]; [erase] is given a range that starts inside the
    string and does not wrap, or [npos]. *)
Definition op_ok (l : list Z) (op : string_op) : Prop :=
  Z.of_nat (length (list_op l op)) < npos /\
  match op with
  | OpErase i n => 0 <= i <= Z.of_nat (length l) /\ 0 <= n /\ (n = npos \/ i + n < 2 ^ 64)
  | OpFill n _ | OpResize n => 0 <= n < 2 ^ 64
  | _ => True
  end.

Fixpoint run_ops (s : basic_string) (ops : list string_op) : outcome basic_string :=
  match ops with
  | [] => Ret s
  | op :: ops => let! s := run_op s op in run_ops s ops
  end.

Fixpoint ops_ok (l : list Z) (ops : list string_op) : Prop :=
  match ops with
  | [] => True
  | op :: ops => op_ok l op /\ ops_ok (list_op l op) ops
  end.

Lemma run_op_spec s l op : settled_empty s l -> Z.of_nat (length l) < npos -> op_ok l op ->
  exists s', run_op s op = Ret s' /\ settled_empty s' (list_op l op).
Proof using allocate_length.
  intros Hs Hl [Hlen Ho]. pose proof (proj1 Hs) as H. pose proof (eq_refl : npos = 2 ^ 64 - 1) as Hnp.
  destruct op as [m|n c|i n|n| | |m|]; cbn [run_op list_op op_ok] in *.
  - destruct (string_append_spec s l m H ltac:(lia)) as (s' & E & Ht). exists s'. split; [done|by apply terminated_settled].
  - rewrite length_app, length_replicate in Hlen. apply string_append_fill_spec; [done|lia..].
  - apply string_erase_spec; tauto.
  - by apply string_resize_spec.
  - destruct l as [|c l _] using rev_ind.
    + unfold string_pop_back. rewrite (holds_size _ _ H). by exists s.
    + destruct (string_pop_back_spec s l c H) as (s' & E & Ht). exists s'. split; [done|].
      rewrite length_app, Nat.add_comm. cbn [length Nat.add pred]. rewrite take_app_length. by apply terminated_settled.
  - destruct (string_copy_spec s l H ltac:(lia)) as (s' & E & Ht). exists s'. split; [done|by apply terminated_settled].
  - pose proof Hlen as Hlen'. rewrite length_app in Hlen'. destruct (string_of_cstr_spec m ltac:(lia)) as (t & -> & Hm). cbn [obind]. unfold string_plus.
    destruct (string_copy_spec s l H ltac:(lia)) as (r & -> & Hr). cbn [obind].
    rewrite (bytes_of_all t m (terminated_holds _ _ Hm)). cbn [obind].
    destruct (string_append_spec r l m (terminated_holds _ _ Hr) ltac:(lia)) as (s' & E & Ht). exists s'. split; [done|by apply terminated_settled].
  - exists string_clear. split; [done|]. by split.
Qed.

(** C21: any run of appending, filling, erasing, resizing, removing the last
    character, copying, concatenating and clearing, on a string that starts
    empty, stays within the buffer, and the characters of the string are those
    that the operations give on lists.  The sizes fit in a [size_t] and [erase]
    is given a range that does not wrap ([op_ok]); [push_back] is not among the
    operations, for it writes outside the buffer ([push_back_overflows]), and
    neither are the overloads of [insert] and [replace]. *)
Theorem string_refines_list ops : ops_ok [] ops ->
  exists s, run_ops string_default ops = Ret s /\ holds s (foldl list_op [] ops).
Proof using allocate_length.
  assert (Hr : forall ops s l, settled_empty s l -> Z.of_nat (length l) < npos -> ops_ok l ops ->
    exists s', run_ops s ops = Ret s' /\ settled_empty s' (foldl list_op l ops)).
  { clear ops. induction ops as [|op ops IH]; intros s l Hs Hl Ho; [by exists s|]. destruct Ho as [Ho Hos]. cbn [run_ops foldl].
    destruct (run_op_spec s l op Hs Hl Ho) as (s1 & -> & H1). cbn [obind]. apply IH; [done|apply Ho|done]. }
  intros Ho. destruct (Hr ops string_default [] ltac:(by split) ltac:(done) Ho) as (s & E & Hs). exists s. split; [done|apply Hs].
Qed.

(** [reserve] copies the characters and not the terminator. *)
Lemma reserve_loses_terminator s l n : terminated_as s l -> str_capacity s < n -> exists s' rest,
  string_reserve s n = Ret s' /\ str_data s' = Some (l ++ rest) /\ rest = drop (length l) (allocate n).
Proof using allocate_length.
  intros Ht Hn. pose proof (terminated_holds _ _ Ht) as H. pose proof (bytes_of_all _ _ H) as Hb.
  destruct Ht as (rest & Ed & Hs & Hc). unfold string_reserve. rewrite Z.gtb_ltb, (proj2 (Z.ltb_lt _ _)) by done.
  rewrite Ed in Hb |- *. rewrite Hb. cbn [obind].
  pose proof (allocate_length n ltac:(lia)) as Ha. rewrite copy_to_front by (rewrite length_app in Hc; cbn in Hc; lia).
  by eexists _, _.
Qed.
End strings.

(** Appending one character to a string that was just made from a C string
    writes the terminator one byte past the end of the buffer: [push_back] makes
    room only when the size has reached the capacity, and the buffer of a new
    string has exactly one byte more than its size. *)
Theorem push_back_overflows allocate l ch : (forall n, 0 <= n -> length (allocate n) = Z.to_nat n) -> Z.of_nat (length l) + 1 < 2 ^ 64 ->
  (let! s := string_of_cstr allocate l in string_push_back allocate s ch) = Fault.
Proof.
  intros Ha Hl. destruct (string_of_cstr_spec allocate Ha l Hl) as (s & E & Ht). pose proof E as E'.
  rewrite E. cbn [obind]. unfold string_of_cstr, string_counted in E'. cbv zeta in E'. rewrite uw_small in E' by lia.
  destruct (bytes_of (Some l) 0 (Z.of_nat (length l))) as [x| |]; try done. cbn [obind] in E'.
  destruct (copy_to _ 0 x) as [d| |]; try done. cbn [obind] in E'.
  destruct (poke d (Z.of_nat (length l)) 0) as [d'| |]; try done. cbn [obind] in E'. injection E' as <-.
  destruct Ht as (rest & Ed & _ & Hc). cbn [str_data str_capacity str_size] in *. subst d'.
  rewrite length_app in Hc. cbn [length] in Hc. destruct rest; [|cbn in Hc; lia].
  unfold string_push_back. cbn [str_data str_capacity str_size]. destruct (Z.eqb_spec (Z.of_nat (length l)) (Z.of_nat (length l) + 1)); [lia|].
  cbn [obind str_data str_size str_capacity]. cbv zeta. rewrite uw_small by lia. rewrite poke_at by done. cbn [obind].
  unfold poke, put. rewrite length_app. cbn [length]. zprune; try lia. done.
Qed.

(** A count that makes [index + count] wrap is not cut to the end of the string. *)
Theorem erase_wraps allocate l i n : (forall n, 0 <= n -> length (allocate n) = Z.to_nat n) ->
  Z.of_nat (length l) + 1 < 2 ^ 64 -> 0 < i <= Z.of_nat (length l) -> 2 ^ 64 <= i + n -> n < npos ->
  (let! s := string_of_cstr allocate l in string_erase s i n) = Fault.
Proof.
  intros Ha Hl Hi Hw Hn. unfold npos in *. destruct (string_of_cstr_spec allocate Ha l Hl) as (s & -> & (rest & Ed & Hs & _)). cbn [obind].
  unfold string_erase. rewrite Hs, Ed. assert (E : u64 (i + n) = i + n - 2 ^ 64).
  { symmetry. apply (Z.mod_unique _ _ 1); lia. }
  rewrite E. unfold npos. rewrite (proj2 (Z.eqb_neq n _)) by lia. cbn [orb]. rewrite !Z.gtb_ltb.
  rewrite (proj2 (Z.ltb_ge _ i)), (proj2 (Z.ltb_ge _ (i + n - 2 ^ 64))), (proj2 (Z.ltb_lt 0 n)) by lia.
  unfold bytes_of. rewrite (proj2 (Z.eqb_neq _ 0)), (proj2 (Z.leb_gt 0 (Z.of_nat (length l) - (i + n)))), andb_false_r by lia. done.
Qed.

Definition demo_allocate (n : Z) : list Z := replicate (Z.to_nat n) 170.

Lemma demo_allocate_length n : 0 <= n -> length (demo_allocate n) = Z.to_nat n.
Proof. intros _. apply length_replicate. Qed.

Lemma string_refines_list_witness :
  exists s, run_ops demo_allocate string_default
    [OpAppend [97; 98]; OpPlus [99; 100; 101]; OpErase 1 2; OpResize 5; OpPopBack] = Ret s /\ holds s [97; 100; 101; 0].
Proof.
  apply (string_refines_list demo_allocate demo_allocate_length
    [OpAppend [97; 98]; OpPlus [99; 100; 101]; OpErase 1 2; OpResize 5; OpPopBack]).
  repeat (split; [split; [vm_compute; reflexivity|cbn; try done; lia]|]). done.
Defined.

Lemma erase_wraps_witness : (let! s := string_of_cstr demo_allocate [97; 98; 99] in string_erase s 2 (2 ^ 64 - 2)) = Fault.
Proof. apply (erase_wraps demo_allocate [97; 98; 99] 2 (2 ^ 64 - 2) demo_allocate_length); cbn; unfold npos; lia. Defined.

Lemma push_back_overflows_witness :
  (let! s := string_of_cstr demo_allocate [97] in string_push_back demo_allocate s 98) = Fault.
Proof. apply (push_back_overflows demo_allocate [97] 98 demo_allocate_length ltac:(cbn; lia)). Defined.
