(* ===== verification/KHashMap.v ===== *)
(** * Hash tables of the kernel

    The model of [std::unordered_map] of the kernel's own C++ library
    ([src/Kernel/include_std/unordered_map]): a vector of buckets, each a list of
    pairs, and a count of elements.  The load factor is 3/4; the code computes
    with it in [float], which is exact below 2^24 elements.

    [repr m g] ties a table to a finite map; the operations refine those of
    finite maps.  Copies forget the count, and a reference to a bucket is kept
    over a rehash in [operator[]]: both are shown. *)

From S2P Require Import Prelude CMem.

Record unordered_map (K V : Type) : Type := UMap {
  buckets : list (list (K * V));
  elementsCount : Z
}.
Arguments UMap {K V} buckets elementsCount.
Arguments buckets {K V} _.
Arguments elementsCount {K V} _.

(** [std::hash] on amd64 (include_std/functional): FNV-1a over the bytes of the key *)
Definition fnv_offset_basis : Z := 14695981039346656037.
Definition fnv_prime : Z := 1099511628211.
Definition hash_bytes (bytes : list Z) : Z :=
  foldl (fun hash b => u64 (Z.lxor hash b * fnv_prime)) fnv_offset_basis bytes.

Section umap.
Context {K V : Type} `{Countable K}.
Context (hashFunction : K -> Z).
Implicit Types (m : unordered_map K V) (k : K) (v : V).

Definition umap_empty : unordered_map K V := UMap [] 0.

Definition index_of (n : nat) k : nat := Z.to_nat (hashFunction k mod Z.of_nat n).

Definition push_into (n : nat) (bs : list (list (K * V))) (e : K * V) : list (list (K * V)) :=
  alter (fun b => b ++ [e]) (index_of n (fst e)) bs.

Definition umap_rehash m (count : Z) : unordered_map K V :=
  let currentLoadFactor := 4 * elementsCount m / 3 in
  let count := if count <? currentLoadFactor then currentLoadFactor else count in
  let n := Z.to_nat count in
  UMap (foldl (push_into n) (replicate n []) (concat (buckets m))) (elementsCount m).

(** [if (buckets.empty ()) rehash (16)] *)
Definition with_buckets m : unordered_map K V :=
  match buckets m with [] => umap_rehash m 16 | _ => m end.

(** The first element of a bucket with this key. *)
Fixpoint bucket_find k (b : list (K * V)) : option V :=
  match b with
  | [] => None
  | (k', v) :: b => if decide (k' = k) then Some v else bucket_find k b
  end.

Fixpoint bucket_erase k (b : list (K * V)) : list (K * V) :=
  match b with
  | [] => []
  | (k', v) :: b => if decide (k' = k) then b else (k', v) :: bucket_erase k b
  end.

Fixpoint bucket_set k v (b : list (K * V)) : list (K * V) :=
  match b with
  | [] => []
  | (k', w) :: b => if decide (k' = k) then (k', v) :: b else (k', w) :: bucket_set k v b
  end.

Definition bucket_of m k : list (K * V) := default [] (buckets m !! index_of (length (buckets m)) k).

(** [elementsCount > max_load_factor () * buckets.size ()] *)
Definition overloaded m : bool := 4 * elementsCount m >? 3 * Z.of_nat (length (buckets m)).

Definition umap_find m k : option V * unordered_map K V :=
  let m := with_buckets m in (bucket_find k (bucket_of m k), m).

(** [at]: [None] is the exception [out_of_range]. *)
Definition umap_at m k : option V * unordered_map K V := umap_find m k.

Definition umap_contains m k : bool :=
  match buckets m with [] => false | _ => match bucket_find k (bucket_of m k) with Some _ => true | None => false end end.

Definition umap_count m k : Z := if umap_contains m k then 1 else 0.

Definition push_element m k v : unordered_map K V :=
  let m := UMap (push_into (length (buckets m)) (buckets m) (k, v)) (u64 (elementsCount m + 1)) in
  if overloaded m then umap_rehash m (Z.of_nat (length (buckets m)) * 2) else m.

Definition umap_insert m k v : bool * unordered_map K V :=
  let m := with_buckets m in
  match bucket_find k (bucket_of m k) with
  | Some _ => (false, m)
  | None => (true, push_element m k v)
  end.

Definition umap_insert_or_assign m k v : bool * unordered_map K V :=
  let '(found, m) := umap_find m k in
  match found with
  | Some _ => (false, UMap (alter (bucket_set k v) (index_of (length (buckets m)) k) (buckets m)) (elementsCount m))
  | None => (true, push_element m k v)
  end.

Definition umap_erase m k : Z * unordered_map K V :=
  match buckets m with
  | [] => (0, m)
  | _ =>
    match bucket_find k (bucket_of m k) with
    | None => (0, m)
    | Some _ =>
      (1, UMap (alter (bucket_erase k) (index_of (length (buckets m)) k) (buckets m)) (u64 (elementsCount m - 1)))
    end
  end.

Definition umap_clear m : unordered_map K V := UMap (map (fun _ => []) (buckets m)) 0.

(** [map[k] = v].  When the new element makes the table grow, the code goes on
    with a reference into the buckets that have been freed. *)
Definition umap_index_assign m k v : outcome (unordered_map K V) :=
  let m := with_buckets m in
  match bucket_find k (bucket_of m k) with
  | Some _ => Ret (UMap (alter (bucket_set k v) (index_of (length (buckets m)) k) (buckets m)) (elementsCount m))
  | None =>
    let m := UMap (push_into (length (buckets m)) (buckets m) (k, v)) (u64 (elementsCount m + 1)) in
    if overloaded m then Fault else Ret m
  end.

(** The copy constructor and [operator=] *)
Definition umap_copy m : unordered_map K V := UMap (buckets m) 0.
Definition umap_assign (self other : unordered_map K V) : unordered_map K V := UMap (buckets other) (elementsCount self).

(** The order of a loop over the map. *)
Definition umap_elements m : list (K * V) := concat (buckets m).

(** ** Representation *)

Definition placed (bs : list (list (K * V))) : Prop :=
  forall i b e, bs !! i = Some b -> e ∈ b -> index_of (length bs) (fst e) = i.

Record repr m (g : gmap K V) : Prop := Repr {
  repr_placed : placed (buckets m);
  repr_nodup : NoDup (concat (buckets m)).*1;
  repr_count : elementsCount m = Z.of_nat (length (concat (buckets m)));
  repr_lookup : forall k v, g !! k = Some v <-> (k, v) ∈ concat (buckets m)
}.

Lemma index_lt n k : (0 < n)%nat -> (index_of n k < n)%nat.
Proof using Type. intros Hn. unfold index_of. pose proof (Z.mod_pos_bound (hashFunction k) (Z.of_nat n) ltac:(lia)). lia. Qed.

Lemma concat_alter_app (bs : list (list (K * V))) i f b : bs !! i = Some b ->
  exists a c, concat bs = a ++ b ++ c /\ concat (alter f i bs) = a ++ f b ++ c.
Proof using Type.
  intros Hb. exists (concat (take i bs)), (concat (drop (S i) bs)).
  rewrite <- (take_drop_middle bs i b Hb) at 1 4. rewrite concat_app. cbn [concat].
  rewrite alter_app_r_alt by (rewrite length_take; lia). rewrite length_take.
  pose proof (lookup_lt_Some _ _ _ Hb). replace (i - min i (length bs))%nat with 0%nat by lia.
  cbn [alter list_alter]. by rewrite concat_app.
Qed.

Lemma length_push_into n bs e : length (push_into n bs e) = length bs.
Proof using Type. apply length_alter. Qed.

Lemma push_into_spec bs e : (0 < length bs)%nat -> placed bs ->
  concat (push_into (length bs) bs e) ≡ₚ e :: concat bs /\ placed (push_into (length bs) bs e).
Proof using Type.
  intros Hn Hp. pose proof (index_lt (length bs) (fst e) Hn) as Hi.
  destruct (lookup_lt_is_Some_2 _ _ Hi) as [b Hb]. split.
  - unfold push_into. destruct (concat_alter_app bs _ (fun b => b ++ [e]) b Hb) as (a & c & -> & ->). solve_Permutation.
  - unfold placed. rewrite length_push_into. unfold push_into. intros i b' e' Hb' He'.
    destruct (decide (i = index_of (length bs) (fst e))) as [->|Hne].
    + rewrite list_lookup_alter_eq, Hb in Hb'. injection Hb' as <-. apply elem_of_app in He' as [He'|He'].
      * by apply (Hp _ b).
      * by apply list_elem_of_singleton in He' as ->.
    + rewrite list_lookup_alter_ne in Hb' by done. by apply (Hp _ b').
Qed.

Lemma rehash_buckets n es : forall bs, (0 < n)%nat -> length bs = n -> placed bs ->
  concat (foldl (push_into n) bs es) ≡ₚ es ++ concat bs /\ placed (foldl (push_into n) bs es) /\
  length (foldl (push_into n) bs es) = n.
Proof using Type.
  induction es as [|e es IH]; intros bs Hn Hl Hp; cbn [foldl]; [done|].
  destruct (push_into_spec bs e ltac:(lia) Hp) as [H1 H2]. rewrite Hl in H1, H2.
  destruct (IH (push_into n bs e) Hn) as (H3 & H4 & H5); [by rewrite length_push_into|done|].
  split_and!; try done. rewrite H3, H1. solve_Permutation.
Qed.

Lemma concat_replicate_nil (n : nat) : concat (replicate n ([] : list (K * V))) = [].
Proof using Type. by induction n. Qed.

Lemma placed_replicate n : placed (replicate n []).
Proof using Type. intros i b e Hb He. apply lookup_replicate in Hb as [-> _]. by apply not_elem_of_nil in He. Qed.

Lemma repr_perm bs bs' c c' g : concat bs' ≡ₚ concat bs -> placed bs' -> c' = c -> repr (UMap bs c) g -> repr (UMap bs' c') g.
Proof using Type.
  intros Hp Hpl -> [H1 H2 H3 H4]. cbn [buckets elementsCount] in *. split; cbn [buckets elementsCount]; try done.
  - by rewrite Hp.
  - by rewrite Hp.
  - intros k v. rewrite H4. by rewrite Hp.
Qed.

Lemma repr_rehash m g count : repr m g -> 0 < count -> repr (umap_rehash m count) g /\ (0 < length (buckets (umap_rehash m count)))%nat.
Proof using Type.
  intros Hr Hc. unfold umap_rehash. set (n := Z.to_nat _). assert (Hn : (0 < n)%nat) by (unfold n; destruct (_ <? _) eqn:E; lia).
  destruct (rehash_buckets n (concat (buckets m)) (replicate n []) Hn) as (H1 & H2 & H3);
    [apply length_replicate|apply placed_replicate|].
  cbn [buckets]. split; [|lia]. destruct m as [bs c]. apply (repr_perm bs _ c); try done.
  rewrite H1, concat_replicate_nil, app_nil_r. done.
Qed.

Lemma repr_with_buckets m g : repr m g -> repr (with_buckets m) g /\ (0 < length (buckets (with_buckets m)))%nat.
Proof using Type.
  intros Hr. unfold with_buckets. destruct (buckets m) as [|b bs] eqn:E; [by apply repr_rehash|]. rewrite E. cbn. split; [done|lia].
Qed.

Lemma elem_of_concat (bs : list (list (K * V))) e : e ∈ concat bs <-> exists i b, bs !! i = Some b /\ e ∈ b.
Proof using Type.
  induction bs as [|b bs IH]; cbn [concat].
  - split; [by intros ?%not_elem_of_nil|]. intros (i & b & Hb & _). by rewrite lookup_nil in Hb.
  - rewrite elem_of_app, IH. split.
    + intros [Hb|(i & b' & Hb & He)]; [by exists 0%nat, b|by exists (S i), b'].
    + intros ([|i] & b' & Hb & He); cbn in Hb; [injection Hb as <-; by left|right; by exists i, b'].
Qed.

Lemma bucket_of_spec m g k : repr m g -> (0 < length (buckets m))%nat -> exists b,
  buckets m !! index_of (length (buckets m)) k = Some b /\ bucket_of m k = b /\
  (forall v, (k, v) ∈ concat (buckets m) <-> (k, v) ∈ b) /\ NoDup b.*1.
Proof using Type.
  intros Hr Hn. destruct (lookup_lt_is_Some_2 _ _ (index_lt (length (buckets m)) k Hn)) as [b Hb].
  exists b. split; [done|]. unfold bucket_of. rewrite Hb. split_and!; [done|intros v; split|].
  - intros (i & b' & Hb' & He)%elem_of_concat. pose proof (repr_placed _ _ Hr _ _ _ Hb' He) as <-. cbn in Hb'. congruence.
  - intros He. apply elem_of_concat. by eexists _, _.
  - pose proof (repr_nodup _ _ Hr) as Hd. destruct (concat_alter_app _ _ id b Hb) as (a & c & E & _). rewrite E in Hd.
    rewrite !fmap_app in Hd. by apply list.NoDup_app in Hd as (_ & _ & (Hd & _)%list.NoDup_app).
Qed.

Lemma bucket_find_spec k b v : NoDup b.*1 -> bucket_find k b = Some v <-> (k, v) ∈ b.
Proof using Type.
  induction b as [|[k' w] b IH]; cbn [bucket_find]; [split; [done|by intros ?%not_elem_of_nil]|].
  rewrite fmap_cons, list.NoDup_cons. intros [Hn Hd]. rewrite elem_of_cons. case_decide as Hk.
  - subst k'. split; [intros [= ->]; by left|]. intros [[= ->]|He]; [done|]. destruct Hn. apply list_elem_of_fmap. by exists (k, v).
  - rewrite IH by done. split; [by right|]. intros [[= -> ->]|?]; done.
Qed.

Lemma find_in_bucket m g k : repr m g -> (0 < length (buckets m))%nat -> bucket_find k (bucket_of m k) = g !! k.
Proof using Type.
  intros Hr Hn. destruct (bucket_of_spec m g k Hr Hn) as (b & _ & -> & Hb & Hd).
  apply option_eq. intros v. rewrite (bucket_find_spec k b v Hd), <- Hb. symmetry. apply (repr_lookup _ _ Hr).
Qed.

Lemma umap_find_spec m g k : repr m g -> fst (umap_find m k) = g !! k /\ repr (snd (umap_find m k)) g /\
  (0 < length (buckets (snd (umap_find m k))))%nat.
Proof using Type.
  intros Hr. destruct (repr_with_buckets m g Hr) as [H1 H2]. unfold umap_find. cbn [fst snd]. split; [|done]. by apply find_in_bucket.
Qed.

Lemma umap_contains_spec m g k : repr m g -> umap_contains m k = bool_decide (is_Some (g !! k)).
Proof using Type.
  intros Hr. unfold umap_contains. destruct (buckets m) as [|b bs] eqn:E.
  - symmetry. apply bool_decide_eq_false. intros [v Hv]. apply (repr_lookup _ _ Hr) in Hv. rewrite E in Hv. by apply not_elem_of_nil in Hv.
  - rewrite (find_in_bucket m g k Hr) by (rewrite E; cbn; lia). destruct (g !! k); symmetry;
      [apply bool_decide_eq_true; by eexists|by apply bool_decide_eq_false, is_Some_None].
Qed.

Lemma repr_push m g k v : repr m g -> (0 < length (buckets m))%nat -> g !! k = None -> elementsCount m + 1 < 2 ^ 64 ->
  repr (UMap (push_into (length (buckets m)) (buckets m) (k, v)) (u64 (elementsCount m + 1))) (<[k := v]> g).
Proof using Type.
  intros Hr Hn Hk Hc. pose proof Hr as [H1 H2 H3 H4]. destruct (push_into_spec (buckets m) (k, v) Hn H1) as [Hp Hpl].
  split; cbn [buckets elementsCount]; [done|..].
  - rewrite Hp. cbn. apply list.NoDup_cons. split; [|done]. intros ([k' w] & Ek & Hin)%list_elem_of_fmap. cbn in Ek. subst k'.
    apply H4 in Hin. congruence.
  - rewrite Hp, uw_small by lia. cbn [length]. lia.
  - intros k' v'. rewrite Hp, elem_of_cons. destruct (decide (k' = k)) as [->|Hne].
    + rewrite lookup_insert_eq. split; [intros [= ->]; by left|]. intros [[= ->]|Hin]; [done|]. apply H4 in Hin. congruence.
    + rewrite lookup_insert_ne by done. rewrite H4. split; [by right|]. intros [[= -> ->]|?]; done.
Qed.

Lemma repr_push_element m g k v : repr m g -> (0 < length (buckets m))%nat -> g !! k = None -> elementsCount m + 1 < 2 ^ 64 ->
  repr (push_element m k v) (<[k := v]> g).
Proof using Type.
  intros Hr Hn Hk Hc. unfold push_element. pose proof (repr_push m g k v Hr Hn Hk Hc) as Hp.
  destruct (overloaded _); [|done]. apply repr_rehash; [done|]. cbn [buckets]. rewrite length_push_into. lia.
Qed.

(** A change of one bucket that keeps its keys, or removes one of them. *)
Lemma repr_alter m g g' f c k b : repr m g -> buckets m !! index_of (length (buckets m)) k = Some b ->
  (forall e, e ∈ f b -> index_of (length (buckets m)) (fst e) = index_of (length (buckets m)) k) ->
  (forall a d, NoDup (a ++ b ++ d).*1 -> NoDup (a ++ f b ++ d).*1) ->
  c = Z.of_nat (length (concat (buckets m)) + length (f b) - length b) ->
  (forall a d, concat (buckets m) = a ++ b ++ d -> forall k v, g' !! k = Some v <-> (k, v) ∈ a ++ f b ++ d) ->
  repr (UMap (alter f (index_of (length (buckets m)) k) (buckets m)) c) g'.
Proof using Type.
  intros [H1 H2 H3 H4] Hb Hf Hd Hc Hg. destruct (concat_alter_app _ _ f b Hb) as (a & d & E & E').
  split; cbn [buckets elementsCount].
  - intros i b' e Hb' He. rewrite length_alter. destruct (decide (i = index_of (length (buckets m)) k)) as [->|Hne].
    + rewrite list_lookup_alter_eq, Hb in Hb'. injection Hb' as <-. by apply Hf.
    + rewrite list_lookup_alter_ne in Hb' by done. by apply (H1 i b').
  - rewrite E'. apply Hd. by rewrite <- E.
  - rewrite Hc, E', E, !length_app. lia.
  - intros k' v'. rewrite E'. by apply Hg.
Qed.

Lemma bucket_set_keys k v b : (bucket_set k v b).*1 = b.*1.
Proof using Type.
  induction b as [|[k' w] b IH]; [done|]. cbn [bucket_set]. case_decide; [done|]. rewrite !fmap_cons. by f_equal.
Qed.

Lemma bucket_set_elem k v b e : NoDup b.*1 -> k ∈ b.*1 -> e ∈ bucket_set k v b <-> (e = (k, v) \/ e ∈ b /\ fst e <> k).
Proof using Type.
  induction b as [|[k' w] b IH]; [by intros _ ?%not_elem_of_nil|]. cbn [bucket_set]. rewrite fmap_cons, list.NoDup_cons. intros [Hn Hd] Hk.
  case_decide as E.
  - subst k'. rewrite !elem_of_cons. split.
    + intros [->|He]; [by left|]. right. split; [by right|]. intros <-. apply Hn. apply list_elem_of_fmap. by exists e.
    + intros [->|[[->|He] Hne]]; [by left|done|by right].
  - rewrite !elem_of_cons. apply elem_of_cons in Hk as [?|Hk]; [cbn in *; congruence|]. rewrite IH by done. split.
    + intros [->|[->|[He Hne]]]; [right; split; [by left|done]|by left|right; split; [by right|done]].
    + intros [->|[[->|He] Hne]]; [right; by left|by left|right; by right].
Qed.

Lemma bucket_erase_elem k b e : NoDup b.*1 -> e ∈ bucket_erase k b <-> e ∈ b /\ fst e <> k.
Proof using Type.
  induction b as [|[k' w] b IH]; cbn [bucket_erase]; [intros _; split; [by intros ?%not_elem_of_nil|by intros [?%not_elem_of_nil _]]|].
  rewrite fmap_cons, list.NoDup_cons. intros [Hn Hd]. rewrite elem_of_cons. case_decide as E.
  - subst k'. split.
    + intros He. split; [by right|]. intros <-. apply Hn. apply list_elem_of_fmap. by exists e.
    + intros [[->|He] Hne]; done.
  - rewrite elem_of_cons, IH by done. split.
    + intros [->|[He Hne]]; [split; [by left|done]|split; [by right|done]].
    + intros [[->|He] Hne]; [by left|by right].
Qed.

Lemma length_bucket_erase k b : k ∈ b.*1 -> length b = S (length (bucket_erase k b)).
Proof using Type.
  induction b as [|[k' w] b IH]; [by intros ?%not_elem_of_nil|]. cbn [bucket_erase]. rewrite fmap_cons. intros Hk.
  case_decide as E; [done|]. apply elem_of_cons in Hk as [?|Hk]; [cbn in *; congruence|]. cbn [length]. by rewrite <- IH.
Qed.

Lemma bucket_erase_nodup k a b d : NoDup (a ++ b ++ d).*1 -> NoDup (a ++ bucket_erase k b ++ d).*1.
Proof using Type.
  assert (Hs : sublist (bucket_erase k b) b).
  { induction b as [|[k' w] b IH]; cbn [bucket_erase]; [constructor|]. case_decide; by constructor. }
  intros Hd. eapply sublist_NoDup; [exact Hd|]. apply fmap_sublist. by apply sublist_app; [|apply sublist_app].
Qed.

Lemma key_in_bucket k (b : list (K * V)) v : (k, v) ∈ b -> k ∈ b.*1.
Proof using Type. intros Hin. apply list_elem_of_fmap. by exists (k, v). Qed.

Lemma umap_set_spec m g k v w : repr m g -> (0 < length (buckets m))%nat -> g !! k = Some w ->
  repr (UMap (alter (bucket_set k v) (index_of (length (buckets m)) k) (buckets m)) (elementsCount m)) (<[k := v]> g).
Proof using Type.
  intros Hr Hn Hk. destruct (bucket_of_spec m g k Hr Hn) as (b & Hb & _ & Hin & Hd).
  pose proof (repr_lookup _ _ Hr) as Hl. apply Hl, Hin in Hk. apply key_in_bucket in Hk.
  apply (repr_alter m g _ (bucket_set k v) _ k b); try done.
  - intros e He. apply bucket_set_elem in He as [->|[He Hne]]; [done| |done..]. by apply (repr_placed _ _ Hr _ b).
  - intros a d. by rewrite !fmap_app, bucket_set_keys.
  - rewrite (repr_count _ _ Hr). f_equal. rewrite <- !(length_fmap fst (bucket_set k v b)), bucket_set_keys, length_fmap. lia.
  - intros a d E k' v'. rewrite !elem_of_app, bucket_set_elem by done.
    pose proof (repr_nodup _ _ Hr) as Hnd. rewrite E, !fmap_app in Hnd.
    apply list.NoDup_app in Hnd as (_ & Hn1 & (_ & Hn2 & _)%list.NoDup_app).
    destruct (decide (k' = k)) as [->|Hne].
    + rewrite lookup_insert_eq. split; [intros [= ->]; right; left; by left|].
      intros [Ha|[[[= ->]|[_ ?]]|Hdd]]; [|done|done|]; exfalso.
      * apply (Hn1 k); [by eapply key_in_bucket|]. apply elem_of_app. by left.
      * apply (Hn2 k); [done|]. by eapply key_in_bucket.
    + rewrite lookup_insert_ne by done. rewrite Hl, E, !elem_of_app. split.
      * intros [?|[?|?]]; [by left|right; left; right; by split|by do 2 right].
      * intros [?|[[[= -> ->]|[? _]]|?]]; [by left|done|right; by left|by do 2 right].
Qed.

Lemma umap_erase_bucket m k : buckets m <> [] -> umap_erase m k = match bucket_find k (bucket_of m k) with
  | None => (0, m)
  | Some _ => (1, UMap (alter (bucket_erase k) (index_of (length (buckets m)) k) (buckets m)) (u64 (elementsCount m - 1)))
  end.
Proof using Type. unfold umap_erase. by destruct (buckets m). Qed.

Lemma umap_erase_spec m g k : repr m g -> elementsCount m < 2 ^ 64 ->
  fst (umap_erase m k) = (if decide (is_Some (g !! k)) then 1 else 0) /\ repr (snd (umap_erase m k)) (delete k g).
Proof using Type.
  intros Hr H64. pose proof (repr_lookup _ _ Hr) as Hl. destruct (decide (buckets m = [])) as [Eb|Eb].
  { assert (Hk : g !! k = None).
    { destruct (g !! k) as [v|] eqn:E; [|done]. apply Hl in E. rewrite Eb in E. by apply not_elem_of_nil in E. }
    rewrite decide_False by (intros [? ?]; congruence). unfold umap_erase. rewrite Eb. cbn. split; [done|]. by rewrite delete_id. }
  assert (Hn : (0 < length (buckets m))%nat) by (destruct (buckets m); [done|cbn; lia]).
  rewrite umap_erase_bucket by done.
  rewrite (find_in_bucket m g k Hr Hn). destruct (g !! k) as [w|] eqn:Hk.
  2: { rewrite decide_False by (by intros [? ?]). cbn. split; [done|]. by rewrite delete_id. }
  rewrite decide_True by (by eexists). cbn [fst snd]. split; [done|].
  destruct (bucket_of_spec m g k Hr Hn) as (b & Hb & _ & Hin & Hd).
  apply Hl, Hin in Hk. apply key_in_bucket in Hk. pose proof (length_bucket_erase k b Hk) as Hlen.
  assert (Hc : (length b <= length (concat (buckets m)))%nat).
  { destruct (concat_alter_app _ _ id b Hb) as (a & d & -> & _). rewrite !length_app. lia. }
  apply (repr_alter m g _ (bucket_erase k) _ k b); try done.
  - intros e He. apply bucket_erase_elem in He as [He _]; [|done]. by apply (repr_placed _ _ Hr _ b).
  - intros a d. apply bucket_erase_nodup.
  - rewrite (repr_count _ _ Hr) in H64 |- *. rewrite uw_small by lia. lia.
  - intros a d E k' v'. rewrite !elem_of_app, bucket_erase_elem by done.
    pose proof (repr_nodup _ _ Hr) as Hnd. rewrite E, !fmap_app in Hnd.
    apply list.NoDup_app in Hnd as (_ & Hn1 & (_ & Hn2 & _)%list.NoDup_app).
    destruct (decide (k' = k)) as [->|Hne].
    + rewrite lookup_delete_eq. split; [done|]. intros [Ha|[[_ ?]|Hdd]]; [|done|]; exfalso.
      * apply (Hn1 k); [by eapply key_in_bucket|]. apply elem_of_app. by left.
      * apply (Hn2 k); [done|]. by eapply key_in_bucket.
    + rewrite lookup_delete_ne by done. rewrite Hl, E, !elem_of_app. split.
      * intros [?|[?|?]]; [by left|right; left; by split|by do 2 right].
      * intros [?|[[? _]|?]]; [by left|right; by left|by do 2 right].
Qed.

Lemma count_with_buckets m : elementsCount (with_buckets m) = elementsCount m.
Proof using Type. unfold with_buckets. by destruct (buckets m). Qed.

Lemma umap_insert_spec m g k v : repr m g -> elementsCount m + 1 < 2 ^ 64 ->
  fst (umap_insert m k v) = bool_decide (g !! k = None) /\
  repr (snd (umap_insert m k v)) (if decide (g !! k = None) then <[k := v]> g else g).
Proof using Type.
  intros Hr Hc. destruct (repr_with_buckets m g Hr) as [H1 H2]. unfold umap_insert.
  rewrite (find_in_bucket _ g k H1 H2). destruct (g !! k) as [w|] eqn:Hk; cbn [fst snd].
  - rewrite decide_False by done. split; [symmetry; by apply bool_decide_eq_false|done].
  - rewrite decide_True by done. split; [done|]. apply repr_push_element; try done.
    by rewrite count_with_buckets.
Qed.

Lemma umap_insert_or_assign_spec m g k v : repr m g -> elementsCount m + 1 < 2 ^ 64 ->
  fst (umap_insert_or_assign m k v) = bool_decide (g !! k = None) /\
  repr (snd (umap_insert_or_assign m k v)) (<[k := v]> g).
Proof using Type.
  intros Hr Hc. destruct (umap_find_spec m g k Hr) as (H1 & H2 & H3). unfold umap_insert_or_assign.
  destruct (umap_find m k) as [found m1] eqn:Ef. cbn [fst snd] in *. subst found.
  assert (Hcnt : elementsCount m1 = elementsCount m) by (injection Ef as _ <-; apply count_with_buckets).
  destruct (g !! k) as [w|] eqn:Hk; cbn [fst snd].
  - split; [symmetry; by apply bool_decide_eq_false|]. by eapply umap_set_spec.
  - split; [done|]. apply repr_push_element; try done. by rewrite Hcnt.
Qed.

Lemma umap_clear_spec m : repr (umap_clear m) (∅ : gmap K V).
Proof using Type.
  assert (E : concat (map (fun _ => []) (buckets m) : list (list (K * V))) = []) by (by induction (buckets m)).
  split; cbn [umap_clear buckets elementsCount]; rewrite ?E; try done.
  - intros i b e Hb He. rewrite list_lookup_fmap in Hb. destruct (buckets m !! i); [|done]. injection Hb as <-. by apply not_elem_of_nil in He.
  - constructor.
  - intros k v. split; [by rewrite lookup_empty|by intros ?%not_elem_of_nil].
Qed.

Lemma repr_empty : repr umap_empty ∅.
Proof using Type.
  split; cbn; [by intros i b e|constructor|done|]. intros k v. split; [by rewrite lookup_empty|by intros ?%not_elem_of_nil].
Qed.

(** ** Runs of operations *)

Inductive umap_op : Type :=
| UInsert (k : K) (v : V)
| UInsertOrAssign (k : K) (v : V)
| UErase (k : K)
| UFind (k : K)
| UContains (k : K)
| USize
| URehash (count : Z)
| UClear.

Inductive umap_result : Type := RBool (b : bool) | RCount (n : Z) | RValue (v : option V) | RDone.

Definition run_umap m (op : umap_op) : umap_result * unordered_map K V :=
  match op with
  | UInsert k v => let '(b, m) := umap_insert m k v in (RBool b, m)
  | UInsertOrAssign k v => let '(b, m) := umap_insert_or_assign m k v in (RBool b, m)
  | UErase k => let '(n, m) := umap_erase m k in (RCount n, m)
  | UFind k => let '(v, m) := umap_find m k in (RValue v, m)
  | UContains k => (RBool (umap_contains m k), m)
  | USize => (RCount (elementsCount m), m)
  | URehash count => (RDone, umap_rehash m count)
  | UClear => (RDone, umap_clear m)
  end.

(** The same on finite maps. *)
Definition run_gmap (g : gmap K V) (op : umap_op) : umap_result * gmap K V :=
  match op with
  | UInsert k v => (RBool (bool_decide (g !! k = None)), if decide (g !! k = None) then <[k := v]> g else g)
  | UInsertOrAssign k v => (RBool (bool_decide (g !! k = None)), <[k := v]> g)
  | UErase k => (RCount (if decide (is_Some (g !! k)) then 1 else 0), delete k g)
  | UFind k => (RValue (g !! k), g)
  | UContains k => (RBool (bool_decide (is_Some (g !! k))), g)
  | USize => (RCount (Z.of_nat (size g)), g)
  | URehash _ => (RDone, g)
  | UClear => (RDone, ∅)
  end.

Definition umap_op_ok (op : umap_op) : Prop := match op with URehash count => 0 < count | _ => True end.

Fixpoint run_list {S} (run : S -> umap_op -> umap_result * S) (s : S) (ops : list umap_op) : list umap_result * S :=
  match ops with
  | [] => ([], s)
  | op :: ops => let '(r, s) := run s op in let '(rs, s) := run_list run s ops in (r :: rs, s)
  end.

Lemma repr_size m g : repr m g -> elementsCount m = Z.of_nat (size g).
Proof using Type.
  intros [H1 H2 H3 H4]. rewrite H3. f_equal.
  assert (E : g = list_to_map (concat (buckets m))).
  { apply map_eq. intros k. apply option_eq. intros v. rewrite H4. by rewrite <- elem_of_list_to_map. }
  rewrite E, map_size_list_to_map by done. done.
Qed.

Lemma run_umap_spec m g op : repr m g -> Z.of_nat (size g) + 1 < 2 ^ 64 -> umap_op_ok op ->
  fst (run_umap m op) = fst (run_gmap g op) /\ repr (snd (run_umap m op)) (snd (run_gmap g op)).
Proof using Type.
  intros Hr Hs Ho. pose proof (repr_size m g Hr) as Hc. destruct op as [k v|k v|k|k|k| |count|]; cbn [run_umap run_gmap].
  - destruct (umap_insert_spec m g k v Hr ltac:(lia)) as [H1 H2]. destruct (umap_insert m k v). cbn in *. by rewrite H1.
  - destruct (umap_insert_or_assign_spec m g k v Hr ltac:(lia)) as [H1 H2]. destruct (umap_insert_or_assign m k v). cbn in *. by rewrite H1.
  - destruct (umap_erase_spec m g k Hr ltac:(lia)) as [H1 H2]. destruct (umap_erase m k). cbn in *. by rewrite H1.
  - destruct (umap_find_spec m g k Hr) as (H1 & H2 & _). destruct (umap_find m k). cbn in *. by rewrite H1.
  - cbn. by rewrite (umap_contains_spec m g k Hr).
  - cbn. by rewrite Hc.
  - cbn. split; [done|]. by apply repr_rehash.
  - cbn. split; [done|]. apply umap_clear_spec.
Qed.

Lemma size_run_gmap g op : (size (snd (run_gmap g op)) <= S (size g))%nat.
Proof using Type.
  destruct op as [k v|k v|k|k|k| |count|]; cbn [run_gmap snd]; try lia.
  - case_decide; [|lia]. by rewrite map_size_insert_None.
  - rewrite map_size_insert. destruct (g !! k); unfold id; lia.
  - rewrite map_size_delete. destruct (g !! k); unfold id; lia.
  - rewrite map_size_empty. lia.
Qed.

(** C14: any run of insertions, assignments, deletions, searches, size queries,
    rehashes and clearings of a hash table that starts empty answers every
    operation as a finite map does, whatever the hash function is.  Two
    operations of the class are not among these, because they do not keep the
    promise: [operator[]] on a full table ([index_assign_grows]) and copying
    ([copied_table_miscounts]). *)
Theorem unordered_map_refines ops : Forall umap_op_ok ops -> Z.of_nat (length ops) + 1 < 2 ^ 64 ->
  fst (run_list run_umap umap_empty ops) = fst (run_list run_gmap ∅ ops) /\
  repr (snd (run_list run_umap umap_empty ops)) (snd (run_list run_gmap ∅ ops)).
Proof using Type.
  assert (Hr : forall ops m g, repr m g -> Forall umap_op_ok ops -> Z.of_nat (size g) + Z.of_nat (length ops) + 1 < 2 ^ 64 ->
    fst (run_list run_umap m ops) = fst (run_list run_gmap g ops) /\
    repr (snd (run_list run_umap m ops)) (snd (run_list run_gmap g ops))).
  { clear ops. induction ops as [|op ops IH]; intros m g Hm Hok Hs; [done|].
    apply Forall_cons_1 in Hok as [Ho Hok]. cbn [run_list length] in *.
    destruct (run_umap_spec m g op Hm ltac:(lia) Ho) as [H1 H2]. pose proof (size_run_gmap g op) as Hsz.
    destruct (run_umap m op) as [r m1]. destruct (run_gmap g op) as [r' g1]. cbn [fst snd] in *. subst r'.
    destruct (IH m1 g1 H2 Hok ltac:(lia)) as [H3 H4].
    destruct (run_list run_umap m1 ops). destruct (run_list run_gmap g1 ops). cbn [fst snd] in *. by subst. }
  intros Hok Hl. apply Hr; [apply repr_empty|done|rewrite map_size_empty; lia].
Qed.

(** [map[k] = v] agrees with the finite map as long as the table does not grow,
    and uses freed buckets when it does. *)
Lemma index_assign_spec m g k v : repr m g -> elementsCount m + 1 < 2 ^ 64 -> (0 < length (buckets m))%nat ->
  (g !! k = None -> 4 * (elementsCount m + 1) <= 3 * Z.of_nat (length (buckets m))) ->
  exists m', umap_index_assign m k v = Ret m' /\ repr m' (<[k := v]> g).
Proof using Type.
  intros Hr Hc Hn Hload. unfold umap_index_assign.
  replace (with_buckets m) with m by (unfold with_buckets; destruct (buckets m); [cbn in Hn; lia|done]). cbv zeta.
  rewrite (find_in_bucket m g k Hr Hn). destruct (g !! k) as [w|] eqn:Hk.
  - eexists. split; [done|]. by eapply umap_set_spec.
  - unfold overloaded. cbn [buckets elementsCount]. rewrite length_push_into.
    pose proof (repr_count _ _ Hr) as Hrc. rewrite uw_small by lia.
    rewrite Z.gtb_ltb, (proj2 (Z.ltb_ge _ _)) by (specialize (Hload eq_refl); lia).
    eexists. split; [done|]. pose proof (repr_push m g k v Hr Hn Hk Hc) as Hp. by rewrite uw_small in Hp by lia.
Qed.

Lemma index_assign_grows m g k v : repr m g -> elementsCount m + 1 < 2 ^ 64 -> (0 < length (buckets m))%nat ->
  g !! k = None -> 3 * Z.of_nat (length (buckets m)) < 4 * (elementsCount m + 1) ->
  umap_index_assign m k v = Fault.
Proof using Type.
  intros Hr Hc Hn Hk Hload. unfold umap_index_assign.
  replace (with_buckets m) with m by (unfold with_buckets; destruct (buckets m); [cbn in Hn; lia|done]). cbv zeta.
  rewrite (find_in_bucket m g k Hr Hn), Hk. unfold overloaded. cbn [buckets elementsCount]. rewrite length_push_into.
  pose proof (repr_count _ _ Hr) as Hrc. rewrite uw_small by lia. by rewrite Z.gtb_ltb, (proj2 (Z.ltb_lt _ _)) by lia.
Qed.

(** A copy of a hash table has the elements of the original but counts
    none of them: its size is zero, and deleting one of its elements wraps the
    count around to 2^64 - 1. *)
Theorem copied_table_miscounts m g k : repr m g -> is_Some (g !! k) ->
  elementsCount (umap_copy m) = 0 /\ umap_elements (umap_copy m) = umap_elements m /\
  fst (umap_erase (umap_copy m) k) = 1 /\ elementsCount (snd (umap_erase (umap_copy m) k)) = 2 ^ 64 - 1.
Proof using Type.
  intros Hr [v Hk]. split_and!; [done..| |];
    (assert (Hb : buckets m <> []) by (intros E; apply (repr_lookup _ _ Hr) in Hk; rewrite E in Hk; by apply not_elem_of_nil in Hk));
    (assert (Hn : (0 < length (buckets m))%nat) by (destruct (buckets m); [done|cbn; lia]));
    rewrite umap_erase_bucket by done; change (bucket_of (umap_copy m) k) with (bucket_of m k);
    rewrite (find_in_bucket m g k Hr Hn), Hk; done.
Qed.
End umap.

(** ** Tables of numbers *)

Definition hash_u64 (k : Z) : Z := hash_bytes (le_bytes 8 k).

Lemma unordered_map_refines_witness :
  fst (run_list (run_umap hash_u64) umap_empty
    [UInsert 3 30; UInsert 19 190; UInsert 3 31; UFind 3; UErase 19; UContains 19; USize])
  = [RBool true; RBool true; RBool false; RValue (Some 30); RCount 1; RBool false; RCount 1].
Proof.
  refine (eq_trans (proj1 (unordered_map_refines hash_u64
    [UInsert 3 30; UInsert 19 190; UInsert 3 31; UFind 3; UErase 19; UContains 19; USize] _ _)) _).
  - repeat constructor.
  - cbn. lia.
  - reflexivity.
Defined.

Lemma copied_table_miscounts_witness :
  let m := snd (umap_insert_or_assign hash_u64 umap_empty 5 50) in
  elementsCount (umap_copy m) = 0 /\ umap_elements (umap_copy m) = umap_elements m /\
  fst (umap_erase hash_u64 (umap_copy m) 5) = 1 /\ elementsCount (snd (umap_erase hash_u64 (umap_copy m) 5)) = 2 ^ 64 - 1.
Proof.
  cbv zeta. apply (copied_table_miscounts hash_u64 _ (<[5 := 50]> ∅)).
  - apply (umap_insert_or_assign_spec hash_u64 umap_empty ∅ 5 50); [apply repr_empty|done].
  - by eexists.
Defined.
