(* ===== verification/KVfs.v ===== *)
(** * The virtual file system

    The model of [src/Kernel/fs/vfs.cpp], [include/fs/vfs.hpp] and
    [include/fs/node.hpp]: the tree of cached nodes, the table of roots, the
    registered file systems and the operations on nodes.

    A [Node] (a shared pointer) is a key of the store of nodes; a node that is
    taken off the tree stays in the store, and the destructors are not run.
    The file systems below are a table of operations over a state [D] of their
    own ([FileSystemInfo]); a null function pointer is [None].  A string that
    was never assigned has no buffer: its characters are none, and its [c_str]
    is null.  [Convert] leaves [Flags], and [fsi] in the one-argument form,
    unset; reading an unset [fsi] faults, and the flag is whatever [unset_flag]
    says. *)

From S2P Require Import Prelude CMem CMonad KPath KString KHashMap.

(** Errors ([include/interface/errno.h]) and file types ([interface/fs.h]) *)
Definition K_ENOENT : Z := 45.
Definition K_EEXIST : Z := 20.
Definition K_EINVAL : Z := 28.
Definition K_EISDIR : Z := 31.
Definition K_ENOTDIR : Z := 57.
Definition K_ENOTSUP : Z := 61.

Definition S_IFMT : Z := 61440.
Definition S_IFLNK : Z := 40960.
Definition S_IFREG : Z := 32768.
Definition S_IFDIR : Z := 16384.
Definition S_IRWXU : Z := 448.
Definition S_IRWXG : Z := 56.
Definition S_IRWXO : Z := 7.

Definition is_type (type mode : Z) : bool := Z.land mode S_IFMT =? type.

(** [struct kstat] *)
Record kstat : Type := KStat {
  st_Device : Z; st_Index : Z; st_Mode : Z; st_HardLinks : Z; st_UserID : Z; st_GroupID : Z;
  st_RawDevice : Z; st_Size : Z; st_AccessTime : Z; st_ModifyTime : Z; st_ChangeTime : Z;
  st_BlockSize : Z; st_Blocks : Z; st_Attribute : Z
}.

(** [struct kdirent]; a buffer of entries is the list of them. *)
Record kdirent : Type := Dirent { d_ino : Z; d_off : Z; d_reclen : Z; d_type : Z; d_name : list Z }.
Definition offsetof_d_name : Z := 19.
Definition DT_UNKNOWN : Z := 0.
Definition IFTODT (mode : Z) : Z := Z.land (Z.shiftr mode 12) 15.

(** The size of an entry with a name *)
Definition reclen (name : list Z) : Z := u16 (offsetof_d_name + Z.of_nat (length name) + 1).

(** [struct InodeOperations]: results first, then what the operation stores
    through its pointers. *)
Record InodeOperations (D : Type) : Type := InodeOps {
  op_Lookup : option (Z -> list Z -> D -> outcome (Z * Z * D));
  op_Create : option (Z -> list Z -> Z -> D -> outcome (Z * Z * D));
  op_Remove : option (Z -> list Z -> D -> outcome (Z * D));
  op_Rename : option (Z -> list Z -> list Z -> D -> outcome (Z * D));
  op_Read : option (Z -> Z -> Z -> D -> outcome (Z * list Z * D));
  op_Write : option (Z -> list Z -> Z -> D -> outcome (Z * D));
  op_Truncate : option (Z -> Z -> D -> outcome (Z * D));
  op_Open : option (Z -> Z -> Z -> D -> outcome (Z * D));
  op_Close : option (Z -> D -> outcome (Z * D));
  op_ReadLink : option (Z -> Z -> D -> outcome (Z * list Z * D));
  op_Seek : option (Z -> Z -> D -> outcome (Z * D));
  op_Stat : option (Z -> D -> outcome (Z * kstat * D));
  op_ReadDir : option (Z -> Z -> Z -> Z -> D -> outcome (Z * list kdirent * D));
  op_Ioctl : option (Z -> Z -> Z -> D -> outcome (Z * D))
}.
Arguments InodeOps {D}.
Arguments op_Lookup {D}. Arguments op_Create {D}. Arguments op_Remove {D}. Arguments op_Rename {D}.
Arguments op_Read {D}. Arguments op_Write {D}. Arguments op_Truncate {D}. Arguments op_Open {D}.
Arguments op_Close {D}. Arguments op_ReadLink {D}. Arguments op_Seek {D}. Arguments op_Stat {D}.
Arguments op_ReadDir {D}. Arguments op_Ioctl {D}.

Record FileSystemInfo (D : Type) : Type := FSInfo {
  Ops : InodeOperations D;
  super_Synchronize : option (option Z -> D -> outcome (Z * D));
  super_Destroy : option (D -> outcome (Z * D));
  super_Mount : option (Z -> D -> outcome (Z * Z * D));
  super_Probe : option (Z -> D -> outcome (Z * D))
}.
Arguments FSInfo {D}.
Arguments Ops {D}. Arguments super_Synchronize {D}. Arguments super_Destroy {D}. Arguments super_Mount {D}. Arguments super_Probe {D}.

(** What the file systems are to the code above them. *)
Class FileSystems (D : Type) : Type := {
  fs_info : Z -> FileSystemInfo D;
  inode_mode : D -> Z -> outcome Z;
  inode_index : D -> Z -> outcome Z
}.

(** [class NodeCache] *)
Record NodeCache : Type := Node {
  inode : Z;
  fsi : option Z;
  MountPoint : bool;
  Name : option (list Z);
  Path : option (list Z);
  Link : option (list Z);
  Parent : option Z;
  Children : list Z
}.

Definition chars_of (s : option (list Z)) : list Z := default [] s.
Definition root_path : list Z := [slash].

(** [eNode]: a node or null, and an error. *)
Definition eNode : Type := option Z * Z.
Definition found (e : eNode) : bool := match e with (Some _, error) => error =? 0 | (None, _) => false end.

Definition ASSERT_FAILED : Z := 134.

Section vfs.
Context {D : Type} {FS : FileSystems D}.
Context (allocate : Z -> list Z) (unset_flag : Z -> bool) (path_style : cwk_path_style).

(** The object [fs] and the heap of nodes. *)
Record Virtual : Type := VFS {
  Roots : unordered_map Z Z;
  Registered : unordered_map Z Z;
  nodes : gmap Z NodeCache;
  next_node : Z;
  disk : D
}.

Abbreviation F := (ST Virtual).

Definition assert (b : bool) : F unit := if b then mret tt else exits ASSERT_FAILED.
Definition pure {A} (o : outcome A) : F A := fun s => let! a := o in Ret (Go a, s).
Definition on_disk {A} (f : D -> outcome (A * D)) : F A := fun s =>
  let! (a, d) := f (disk s) in Ret (Go a, VFS (Roots s) (Registered s) (nodes s) (next_node s) d).

Definition get_node (n : Z) : F NodeCache := fun s =>
  match nodes s !! n with Some c => Ret (Go c, s) | None => Fault end.

Definition set_nodes (ns : gmap Z NodeCache) (s : Virtual) : Virtual := VFS (Roots s) (Registered s) ns (next_node s) (disk s).
Definition set_roots (r : unordered_map Z Z) (s : Virtual) : Virtual := VFS r (Registered s) (nodes s) (next_node s) (disk s).
Definition set_registered (r : unordered_map Z Z) (s : Virtual) : Virtual := VFS (Roots s) r (nodes s) (next_node s) (disk s).
Definition put_node (n : Z) (c : NodeCache) : F unit := puts (fun s => set_nodes (<[n := c]> (nodes s)) s).

Definition with_names (name path : list Z) (c : NodeCache) : NodeCache :=
  Node (inode c) (fsi c) (MountPoint c) (Some name) (Some path) (Link c) (Parent c) (Children c).
Definition with_link (link : list Z) (c : NodeCache) : NodeCache :=
  Node (inode c) (fsi c) (MountPoint c) (Name c) (Path c) (Some link) (Parent c) (Children c).
Definition with_fsi (f : Z) (c : NodeCache) : NodeCache :=
  Node (inode c) (Some f) (MountPoint c) (Name c) (Path c) (Link c) (Parent c) (Children c).
Definition with_parent (p : Z) (c : NodeCache) : NodeCache :=
  Node (inode c) (fsi c) (MountPoint c) (Name c) (Path c) (Link c) (Some p) (Children c).
Definition with_name (name : list Z) (c : NodeCache) : NodeCache :=
  Node (inode c) (fsi c) (MountPoint c) (Some name) (Path c) (Link c) (Parent c) (Children c).
Definition with_children (l : list Z) (c : NodeCache) : NodeCache :=
  Node (inode c) (fsi c) (MountPoint c) (Name c) (Path c) (Link c) (Parent c) l.

(** [node->fsi->Ops] *)
Definition ops_of (c : NodeCache) : F (InodeOperations D) :=
  match fsi c with Some f => mret (Ops (fs_info f)) | None => fault end.

(** [std::make_shared<NodeCache> ()] *)
Definition make_node (c : NodeCache) : F Z :=
  n ← gets next_node;
  puts (fun s => VFS (Roots s) (Registered s) (<[n := c]> (nodes s)) (n + 1) (disk s));;
  mret n.

Definition Convert (ino : Z) : F Z :=
  n ← gets next_node;
  make_node (Node ino None (unset_flag n) None None None None []).

Definition Convert_child (parent ino : Z) : F Z :=
  p ← get_node parent;
  n ← gets next_node;
  n ← make_node (Node ino (fsi p) (unset_flag n) None None None (Some parent) []);
  p ← get_node parent;
  put_node parent (with_children (Children p ++ [n]) p);;
  mret n.

(** [NormalizePath]: the path is written into the buffer of an empty string,
    whose size is then set by [resize]. *)
Definition NormalizePath (parent_path : option (list Z)) (p : list Z) (join : bool) : outcome (list Z) :=
  let len := Z.of_nat (length p) + (if join then Z.of_nat (length (chars_of parent_path)) else 0) + 2 in
  let! result := string_reserve allocate string_default len in
  match str_data result with
  | None => Fault
  | Some buffer =>
    let! (len, buffer) :=
      if join then
        match parent_path with
        | None => Fault
        | Some q => cwk_path_join path_style q p buffer (str_capacity result)
        end
      else cwk_path_normalize path_style p buffer (str_capacity result) in
    let! result := string_resize allocate (Str (Some buffer) (str_size result) (str_capacity result)) len in
    bytes_of (str_data result) 0 (str_size result)
  end.

(** ** Roots and file systems *)

Definition RootExists (index : Z) : F bool :=
  r ← gets Roots;
  let '(v, r) := umap_find hash_u64 r index in
  puts (set_roots r);;
  mret (match v with Some _ => true | None => false end).

Definition GetRoot (index : Z) : F eNode :=
  r ← gets Roots;
  let '(v, r) := umap_find hash_u64 r index in
  puts (set_roots r);;
  mret (match v with Some n => (Some n, 0) | None => (None, K_ENOENT) end).

Fixpoint root_index (n : Z) (l : list (Z * Z)) : Z :=
  match l with
  | [] => - K_ENOENT
  | (index, m) :: l => if m =? n then index else root_index n l
  end.

Definition GetRoot_of (n : Z) : F Z :=
  r ← gets Roots;
  mret (root_index n (umap_elements r)).

Definition AddRoot (index root : Z) (replace : bool) : F Z :=
  r ← gets Roots;
  let '(v, r) := umap_find hash_u64 r index in
  puts (set_roots r);;
  match v with
  | Some _ =>
    if replace then r ← pure (umap_index_assign hash_u64 r index root); puts (set_roots r);; mret 0
    else mret K_EEXIST
  | None => r ← pure (umap_index_assign hash_u64 r index root); puts (set_roots r);; mret 0
  end.

Definition RegisterFileSystem (f : Z) : F Z :=
  r ← gets Registered;
  let '(_, r) := umap_insert hash_u64 r (elementsCount r) f in
  puts (set_registered r);;
  mret (u64 (elementsCount r - 1)).

Definition UnregisterFileSystem (device : Z) : F Z :=
  r ← gets Registered;
  let '(v, r) := umap_find hash_u64 r device in
  puts (set_registered r);;
  match v with
  | None => mret (- K_ENOENT)
  | Some f =>
    match super_Synchronize (fs_info f) with Some g => _ ← on_disk (g None); mret tt | None => mret tt end;;
    match super_Destroy (fs_info f) with Some g => _ ← on_disk g; mret tt | None => mret tt end;;
    r ← gets Registered;
    puts (set_registered (snd (umap_erase hash_u64 r device)));;
    mret 0
  end.

(** ** Search *)

(** [NodeCache::CachedSearch]: the first child with this name. *)
Fixpoint cached_search (name : list Z) (l : list Z) : F eNode :=
  match l with
  | [] => mret (None, K_ENOENT)
  | n :: l =>
    c ← get_node n;
    if decide (chars_of (Name c) = name) then mret (Some n, 0) else cached_search name l
  end.

Definition CachedSearch (n : Z) (name : list Z) : F eNode :=
  c ← get_node n;
  cached_search name (Children c).

(** [while (node->Parent) node = node->Parent] *)
Fixpoint to_root (fuel : nat) (n : Z) : F Z :=
  match fuel with
  | O => no_fuel
  | S fuel =>
    c ← get_node n;
    match Parent c with Some p => to_root fuel p | None => mret n end
  end.

Definition nodes_fuel : F nat := gets (fun s => S (size (nodes s))).

(** [currentPath += segmentStr] and [currentPath += "/" + segmentStr] *)
Definition extend_path (current seg : list Z) : list Z :=
  if decide (current = root_path) then current ++ seg else current ++ slash :: seg.

(** The body of the loop for one segment: the next node and its path, or the
    result of the search. *)
Definition lookup_step (node : Z) (segmentStr currentPath : list Z) : F (Z * list Z + eNode) :=
  ret ← CachedSearch node segmentStr;
  match ret with
  | (Some n, 0) => mret (inl (n, extend_path currentPath segmentStr))
  | _ =>
    c ← get_node node;
    ops ← ops_of c;
    match op_Lookup ops with
    | None => mret (inr (None, K_ENOTSUP))
    | Some lookup =>
      ret ← on_disk (fun d => let! (r, ino, d) := lookup (inode c) segmentStr d in Ret ((r, ino), d));
      if negb (fst ret =? 0) then mret (inr (None, fst ret))
      else
        let currentPath := extend_path currentPath segmentStr in
        n ← (n ← Convert_child node (snd ret);
             k ← get_node n;
             put_node n (with_names segmentStr currentPath k);;
             mret n);
        mret (inl (n, currentPath))
    end
  end.

Fixpoint lookup_loop (fuel : nat) (g : cwk_segment) (node : Z) (currentPath : list Z) : F eNode :=
  match fuel with
  | O => no_fuel
  | S fuel =>
    segmentStr ← pure (chars (path g) (begin g) (seg_size g));
    step ← lookup_step node segmentStr currentPath;
    match step with
    | inr e => mret e
    | inl (n, currentPath) =>
      more ← pure (cwk_path_get_next_segment path_style g);
      if fst more : bool then lookup_loop fuel (snd more) n currentPath else mret (Some n, 0)
    end
  end.

Definition Lookup (parent : Z) (p : list Z) : F eNode :=
  c ← get_node parent;
  if decide (p = [dot]) then mret (Some parent, 0)
  else if decide (p = [dot; dot]) then mret (Some (default parent (Parent c)), 0)
  else
    relative ← pure (cwk_path_is_relative path_style p);
    let absolute := negb relative in
    fuel ← nodes_fuel;
    base ← if absolute then to_root fuel parent else mret parent;
    b ← get_node base;
    p ← pure (NormalizePath (Path b) p (negb absolute));
    first ← pure (cwk_path_get_first_segment path_style p);
    if negb (fst first) then
      if decide (p = root_path) then mret (Some base, 0) else exits ASSERT_FAILED
    else
      node ← if absolute then mret base else to_root fuel base;
      r ← get_node node;
      let currentPath := chars_of (Path r) in
      let currentPath := if decide (currentPath = []) then root_path else currentPath in
      lookup_loop (path_fuel p) (snd first) node currentPath.

(** ** Changes of the tree *)

(** [Parent->Path == "/" ? "/" + Name : Parent->Path + "/" + Name], normalised *)
Definition child_path (p : NodeCache) (name : list Z) : outcome (list Z) :=
  NormalizePath (Path p)
    (if decide (chars_of (Path p) = root_path) then slash :: name else chars_of (Path p) ++ slash :: name) false.

Definition Create (parent : Z) (name : list Z) (mode : Z) (ErrorIfExists : bool) : F eNode :=
  exists_ ← Lookup parent name;
  if found exists_ then
    if ErrorIfExists then mret (None, K_EEXIST)
    else
      match exists_ with
      | (Some n, _) =>
        c ← get_node n;
        m ← (fun s => let! m := inode_mode (disk s) (inode c) in Ret (Go m, s));
        assert (Z.land m S_IFMT =? Z.land mode S_IFMT);;
        mret exists_
      | _ => mret exists_
      end
  else
    p ← get_node parent;
    ops ← ops_of p;
    match op_Create ops with
    | None => mret (None, K_ENOTSUP)
    | Some create =>
      ret ← on_disk (fun d => let! (r, ino, d) := create (inode p) name mode d in Ret ((r, ino), d));
      if negb (fst ret =? 0) then mret (None, fst ret)
      else
        n ← Convert_child parent (snd ret);
        p ← get_node parent;
        path ← pure (child_path p name);
        c ← get_node n;
        put_node n (with_names name path c);;
        mret (Some n, 0)
    end.

(** The first child that fits is taken off the list. *)
Fixpoint erase_first (ns : gmap Z NodeCache) (drop_it : Z -> NodeCache -> bool) (l : list Z) : outcome (list Z) :=
  match l with
  | [] => Ret []
  | n :: l =>
    match ns !! n with
    | None => Fault
    | Some c => if drop_it n c then Ret l else let! l := erase_first ns drop_it l in Ret (n :: l)
    end
  end.

Definition erase_child (parent : Z) (drop_it : Z -> NodeCache -> bool) : F unit :=
  p ← get_node parent;
  ns ← gets nodes;
  l ← pure (erase_first ns drop_it (Children p));
  put_node parent (with_children l p).

Definition Remove (parent : Z) (name : list Z) : F Z :=
  p ← get_node parent;
  ops ← ops_of p;
  match op_Remove ops with
  | None => mret (- K_ENOTSUP)
  | Some remove =>
    ret ← on_disk (remove (inode p) name);
    (if ret =? 0 then erase_child parent (fun _ c => bool_decide (chars_of (Name c) = name)) else mret tt);;
    mret ret
  end.

(** [Remove (Node &node)]: the file system gets the inode of the node itself. *)
Definition Remove_node (n : Z) : F Z :=
  c ← get_node n;
  match Parent c with
  | None => mret (- K_EINVAL)
  | Some parent =>
    p ← get_node parent;
    ops ← ops_of p;
    match op_Remove ops with
    | None => mret (- K_ENOTSUP)
    | Some remove =>
      match Name c with
      | None => fault
      | Some name =>
        ret ← on_disk (remove (inode c) name);
        (if ret =? 0 then erase_child parent (fun k _ => k =? n) else mret tt);;
        mret ret
      end
    end
  end.

Definition Rename (n : Z) (NewName : list Z) : F Z :=
  c ← get_node n;
  ops ← ops_of c;
  match op_Rename ops with
  | None => mret (- K_ENOTSUP)
  | Some rename =>
    match Name c with
    | None => fault
    | Some name =>
      ret ← on_disk (rename (inode c) name NewName);
      (if ret =? 0 then put_node n (with_name NewName c) else mret tt);;
      mret ret
    end
  end.

Definition CreateLink (parent : Z) (name target : list Z) : F eNode :=
  let mode := Z.lor (Z.lor S_IRWXU S_IRWXG) (Z.lor S_IRWXO S_IFLNK) in
  e ← Create parent name mode true;
  if negb (found e) then mret e
  else
    match e with
    | (Some n, _) => c ← get_node n; put_node n (with_link target c);; mret (Some n, 0)
    | _ => mret e
    end.

Definition Mount (parent ino : Z) (name : list Z) (f : Z) : F eNode :=
  n ← Convert ino;
  p ← get_node parent;
  path ← pure (child_path p name);
  c ← get_node n;
  put_node n (with_parent parent (with_names name path (with_fsi f c)));;
  p ← get_node parent;
  put_node parent (with_children (Children p ++ [n]) p);;
  mret (Some n, 0).

Definition Mount_device (parent : Z) (name : list Z) (f device : Z) : F eNode :=
  match super_Mount (fs_info f) with
  | None => fault
  | Some mount =>
    ret ← on_disk (fun d => let! (r, ino, d) := mount device d in Ret ((r, ino), d));
    if negb (fst ret =? 0) then mret (None, fst ret) else Mount parent (snd ret) name f
  end.

(** [Umount] lets go of the caller's pointer and of nothing else. *)
Definition Umount (n : Z) : F Z :=
  c ← get_node n;
  mret (if MountPoint c then 0 else - K_EINVAL).

Definition Umount_name (parent : Z) (name : list Z) : F Z :=
  e ← CachedSearch parent name;
  match e with
  | (Some n, 0) => Umount n
  | (_, error) => mret (- error)
  end.

(** ** Contents *)

Definition node_mode (c : NodeCache) : F Z := fun s => let! m := inode_mode (disk s) (inode c) in Ret (Go m, s).

(** [Target->IsDirectory () || Target->IsMountPoint ()] and the other guards *)
Definition guarded {A} (n : Z) (regular_only : bool) (bad : Z -> A) (k : NodeCache -> F A) : F A :=
  c ← get_node n;
  m ← node_mode c;
  if is_type S_IFDIR m || MountPoint c then mret (bad (- K_EISDIR))
  else if (if regular_only then negb (is_type S_IFREG m) else is_type S_IFLNK m) then mret (bad (- K_EINVAL))
  else k c.

Definition Read (n size_ offset : Z) : F (Z * list Z) :=
  guarded n false (fun e => (e, [])) (fun c =>
    ops ← ops_of c;
    match op_Read ops with
    | None => mret (- K_ENOTSUP, [])
    | Some f => on_disk (f (inode c) size_ offset)
    end).

Definition Write (n : Z) (buffer : list Z) (offset : Z) : F Z :=
  guarded n false (fun e => e) (fun c =>
    ops ← ops_of c;
    match op_Write ops with
    | None => mret (- K_ENOTSUP)
    | Some f => on_disk (f (inode c) buffer offset)
    end).

Definition Truncate (n size_ : Z) : F Z :=
  guarded n true (fun e => e) (fun c =>
    ops ← ops_of c;
    match op_Truncate ops with
    | None => mret (- K_ENOTSUP)
    | Some f => on_disk (f (inode c) size_)
    end).

(** [__check_op]: the operation of the file system or [-K_ENOTSUP] *)
Definition check_op {A} (n : Z) (bad : A) (f : InodeOperations D -> option (Z -> D -> outcome (A * D))) : F A :=
  c ← get_node n;
  ops ← ops_of c;
  match f ops with None => mret bad | Some g => on_disk (g (inode c)) end.

Definition no_stat : kstat := KStat 0 0 0 0 0 0 0 0 0 0 0 0 0 0.

Definition Stat (n : Z) : F (Z * kstat) := check_op n (- K_ENOTSUP, no_stat) op_Stat.
Definition ReadLink (n size_ : Z) : F (Z * list Z) :=
  check_op n (- K_ENOTSUP, []) (fun ops => option_map (fun f i => f i size_) (op_ReadLink ops)).
Definition Seek (n offset : Z) : F Z :=
  check_op n (- K_ENOTSUP) (fun ops => option_map (fun f i => f i offset) (op_Seek ops)).
Definition Open (n flags mode : Z) : F Z :=
  check_op n (- K_ENOTSUP) (fun ops => option_map (fun f i => f i flags mode) (op_Open ops)).
Definition Close (n : Z) : F Z := check_op n (- K_ENOTSUP) op_Close.

Definition Ioctl (n request argp : Z) : F Z :=
  check_op n (- K_ENOTSUP) (fun ops => option_map (fun f i => f i request argp) (op_Ioctl ops)).

(** ** Directories *)

(** The entries of the file system that fit, with the size of all so far *)
Fixpoint copy_entries (size_ read pos total : Z) (l : list kdirent) : Z * list kdirent :=
  match l with
  | [] => (total, [])
  | ent :: l =>
    if negb (pos <? read) then (total, [])
    else if d_reclen ent =? 0 then (total, [])
    else if total + d_reclen ent >? size_ then (total, [])
    else
      let '(total, ents) := copy_entries size_ read (pos + d_reclen ent) (total + d_reclen ent) l in
      (total, ent :: ents)
  end.

(** The entries of the cached children that the file system did not list *)
Fixpoint child_entries (seen : list (list Z)) (size_ offset index total : Z) (l : list Z) : F (Z * list kdirent) :=
  match l with
  | [] => mret (total, [])
  | n :: l =>
    c ← get_node n;
    let name := chars_of (Name c) in
    if decide (name ∈ seen) then child_entries seen size_ offset index total l
    else if index <? offset then child_entries seen size_ offset (index + 1) total l
    else if total + reclen name >? size_ then mret (total, [])
    else
      ino ← (if inode c =? 0 then mret 0 else fun s => let! i := inode_index (disk s) (inode c) in Ret (Go i, s));
      type ← (if inode c =? 0 then mret DT_UNKNOWN else fun s => let! m := inode_mode (disk s) (inode c) in Ret (Go (IFTODT m), s));
      rest ← child_entries (seen ++ [name]) size_ offset (index + 1) (total + reclen name) l;
      mret (fst rest, Dirent ino index (reclen name) type name :: snd rest)
  end.

Definition ReadDirectory (n size_ offset entries : Z) : F (Z * list kdirent) :=
  c ← get_node n;
  m ← node_mode c;
  if negb (is_type S_IFDIR m) && negb (MountPoint c) then mret (- K_ENOTDIR, [])
  else
    listed ← match fsi c with
             | Some f =>
               match op_ReadDir (Ops (fs_info f)) with
               | Some readdir =>
                 r ← on_disk (readdir (inode c) 4096 offset entries);
                 mret (if fst r >? 0 then copy_entries size_ (fst r) 0 0 (snd r) else (0, []))
               | None => mret (0, [])
               end
             | None => mret (0, [])
             end;
    c ← get_node n;
    rest ← child_entries (map d_name (snd listed)) size_ offset (Z.of_nat (length (snd listed))) (fst listed) (Children c);
    mret (fst rest, snd listed ++ snd rest).

(** The nodes for the entries that one call of the file system gave *)
Fixpoint entry_nodes (n read pos : Z) (l : list kdirent) : F (list Z * list (list Z)) :=
  match l with
  | [] => mret ([], [])
  | ent :: l =>
    if negb (pos <? read) || (d_reclen ent =? 0) then mret ([], [])
    else if decide (d_name ent = [dot] \/ d_name ent = [dot; dot]) then entry_nodes n read (pos + d_reclen ent) l
    else
      known ← CachedSearch n (d_name ent);
      here ← match known with
             | (Some k, 0) => mret [k]
             | _ =>
               ret ← Lookup n (d_name ent);
               match ret with
               | (Some k, 0) =>
                 c ← get_node n;
                 put_node n (with_children (Children c ++ [k]) c);;
                 d ← get_node k;
                 put_node k (with_parent n d);;
                 mret [k]
               | _ => mret []
               end
             end;
      rest ← entry_nodes n read (pos + d_reclen ent) l;
      mret (here ++ fst rest, d_name ent :: snd rest)
  end.

Fixpoint directory_loop (fuel : nat) (n ino : Z) (readdir : Z -> Z -> Z -> Z -> D -> outcome (Z * list kdirent * D)) (offset : Z) :
    F (list Z * list (list Z)) :=
  match fuel with
  | O => no_fuel
  | S fuel =>
    r ← on_disk (readdir ino 4096 offset (2 ^ 63 - 1));
    if fst r <=? 0 then mret ([], [])
    else
      first ← entry_nodes n (fst r) 0 (snd r);
      rest ← directory_loop fuel n ino readdir (offset + fst r);
      mret (fst first ++ fst rest, snd first ++ snd rest)
  end.

Fixpoint other_children (seen : list (list Z)) (l : list Z) : F (list Z) :=
  match l with
  | [] => mret []
  | k :: l =>
    c ← get_node k;
    let name := chars_of (Name c) in
    if decide (name ∈ seen \/ name = [dot] \/ name = [dot; dot]) then other_children seen l
    else rest ← other_children (seen ++ [name]) l; mret (k :: rest)
  end.

(** The nodes of a directory; the loop ends when the file system says so. *)
Definition ReadDirectory_nodes (fuel : nat) (n : Z) : F (list Z) :=
  c ← get_node n;
  m ← node_mode c;
  if negb (is_type S_IFDIR m) && negb (MountPoint c) then mret []
  else
    listed ← match fsi c with
             | Some f =>
               match op_ReadDir (Ops (fs_info f)) with
               | Some readdir => directory_loop fuel n (inode c) readdir 0
               | None => mret ([], [])
               end
             | None => mret ([], [])
             end;
    c ← get_node n;
    rest ← other_children (snd listed) (Children c);
    mret (fst listed ++ rest).

(** [Probe]: the first file system that takes the device *)
Fixpoint probe_loop (device : Z) (l : list (Z * Z)) : F (option Z) :=
  match l with
  | [] => mret None
  | (_, f) :: l =>
    match super_Probe (fs_info f) with
    | None => probe_loop device l
    | Some probe =>
      ret ← on_disk (probe device);
      if ret =? 0 then mret (Some f) else probe_loop device l
    end
  end.

Definition Probe (device : Z) : F (option Z) :=
  r ← gets Registered;
  probe_loop device (umap_elements r).

(** [Initialize]: the directories that the kernel itself needs. *)
Definition Initialize : F unit :=
  r ← GetRoot 0;
  match fst r with
  | None => fault
  | Some root =>
    let mode := Z.lor (Z.lor S_IRWXU S_IRWXG) (Z.lor S_IRWXO S_IFDIR) in
    v ← Create root [118; 97; 114] mode false;
    match fst v with
    | None => fault
    | Some var => _ ← Create var [108; 111; 103] mode false; mret tt
    end
  end.
End vfs.
Arguments Virtual : clear implicits.
Arguments VFS {D}.
Arguments Roots {D}. Arguments Registered {D}. Arguments nodes {D}. Arguments next_node {D}. Arguments disk {D}.
