(* ===== verification/KVfsTree.v ===== *)
(** * The tree of nodes

    [located ns r n ws]: from the root [r] the names [ws] lead to the node [n],
    whose path is written accordingly.  [wf]: every node of the file system is
    located.  Looking a path up is walking down from the root along the words
    of its normal form ([descend]), and what is cached stays cached. *)

From S2P Require Import Prelude CMem CMonad KPath KPathWords KPathNormal KString KHashMap KVfs.

Definition good_word (w : list Z) : Prop := word U w /\ kind w = CWK_NORMAL /\ 0 ∉ w.
Definition tree_path (ws : list (list Z)) : list Z := slash :: join_words ws.

Lemma traits_length_spec l rest : 0 ∉ l -> traits_length (l ++ 0 :: rest) = Ret (Z.of_nat (length l)).
Proof.
  induction l as [|c l IH]; intros H; [done|]. cbn [app traits_length].
  apply not_elem_of_cons in H as [Hc H]. destruct (Z.eqb_spec c 0); [congruence|]. rewrite IH by done. cbn [obind length]. f_equal. lia.
Qed.

(** ** Normalised paths *)

Section normalize.
Context (allocate : Z -> list Z).
Hypothesis allocate_length : forall n, 0 <= n -> length (allocate n) = Z.to_nat n.

Lemma NormalizePath_result ps buffer n : 0 ∉ normal_form ps -> (length (normal_form ps) < n)%nat ->
  (let! result := string_resize allocate (Str (Some (terminated buffer n (normal_form ps))) 0 (Z.of_nat n))
     (Z.of_nat (length (normal_form ps))) in bytes_of (str_data result) 0 (str_size result)) = Ret (normal_form ps).
Proof using Type.
  intros H0 Hn. unfold terminated. destruct n as [|k]; [lia|]. rewrite take_ge, Nat.min_r by lia.
  unfold string_resize. cbn [str_data str_size Z.eqb]. rewrite traits_length_spec by done. cbn [obind]. cbv zeta. rewrite Z.ltb_irrefl, Z.gtb_ltb, Z.ltb_irrefl. cbn [obind str_data str_size].
  apply (bytes_of_all (Str (Some _) (Z.of_nat (length (normal_form ps))) (Z.of_nat (length (normal_form ps ++ 0 :: drop (S (length (normal_form ps))) buffer))))).
  eexists. by split_and!.
Qed.

Lemma NormalizePath_single q p : 0 ∉ p -> Z.of_nat (length p) < 2 ^ 31 - 2 ->
  NormalizePath allocate U q p false = Ret (normal_form [p]).
Proof using allocate_length.
  intros H0 Hl. unfold NormalizePath. cbv zeta.
  replace (Z.of_nat (length p) + 0 + 2) with (Z.of_nat (S (S (length p)))) by lia.
  unfold string_reserve. cbn [string_default str_capacity str_data str_size].
  rewrite Z.gtb_ltb, (proj2 (Z.ltb_lt _ _)) by lia. cbn [obind str_data str_capacity str_size].
  pose proof (allocate_length (Z.of_nat (S (S (length p)))) ltac:(lia)) as Hla. unfold cwk_path_normalize.
  rewrite normalize_multiple_spec; [|by constructor|unfold room; cbn; lia|lia]. cbn [obind].
  apply NormalizePath_result; [apply normal_form_no_nul; by constructor|].
  pose proof (length_normal_form [p] ltac:(done)) as Hf. unfold room in Hf. cbn in Hf. lia.
Qed.

Lemma NormalizePath_join q p : 0 ∉ q -> 0 ∉ p -> Z.of_nat (length q + length p) < 2 ^ 31 - 3 ->
  NormalizePath allocate U (Some q) p true = Ret (normal_form [q; p]).
Proof using allocate_length.
  intros H0q H0 Hl. unfold NormalizePath. cbv zeta. change (chars_of (Some q)) with q.
  replace (Z.of_nat (length p) + Z.of_nat (length q) + 2) with (Z.of_nat (S (S (length p + length q)))) by lia.
  unfold string_reserve. cbn [string_default str_capacity str_data str_size].
  rewrite Z.gtb_ltb, (proj2 (Z.ltb_lt _ _)) by lia. cbn [obind str_data str_capacity str_size].
  pose proof (allocate_length (Z.of_nat (S (S (length p + length q)))) ltac:(lia)) as Hla. unfold cwk_path_join.
  rewrite normalize_multiple_spec; [|by repeat constructor|unfold room; cbn; lia|lia]. cbn [obind].
  apply NormalizePath_result; [apply normal_form_no_nul; by repeat constructor|].
  pose proof (length_normal_form [q; p] ltac:(done)) as Hf. unfold room in Hf. cbn in Hf. lia.
Qed.
End normalize.

(** ** Where the nodes are *)

Section tree.
Implicit Types (ns : gmap Z NodeCache) (r n p : Z) (ws : list (list Z)).

Inductive located ns r : Z -> list (list Z) -> Prop :=
| At_root c : ns !! r = Some c -> Parent c = None -> Path c = Some root_path -> located ns r r []
| At_child n c p ws w : ns !! n = Some c -> Parent c = Some p -> Name c = Some w -> good_word w ->
    Path c = Some (tree_path (ws ++ [w])) -> located ns r p ws -> located ns r n (ws ++ [w]).

Lemma located_lookup ns r n ws : located ns r n ws -> exists c, ns !! n = Some c /\ Path c = Some (tree_path ws).
Proof. by destruct 1; eexists. Qed.

Lemma located_unique ns r n ws : located ns r n ws -> forall r' ws', located ns r' n ws' -> r' = r /\ ws' = ws.
Proof.
  induction 1 as [c Hc Hp Hpath|n c p ws w Hc Hp Hname Hw Hpath Hl IH]; intros r' ws' H'.
  - inversion H' as [c' Hc'|n' c' p' ws1 w' Hc' Hp']; subst; [done|congruence].
  - inversion H' as [c' Hc' Hp'|n' c' p' ws1 w' Hc' Hp' Hn' Hw' Hpath' Hl']; subst; [congruence|].
    replace c' with c in * by congruence. assert (p' = p) as -> by congruence. assert (w' = w) as -> by congruence.
    destruct (IH _ _ Hl') as [-> ->]. done.
Qed.

Lemma located_words ns r n ws : located ns r n ws -> Forall good_word ws.
Proof. induction 1; [constructor|]. apply Forall_app. split; [done|by constructor]. Qed.

(** The ancestors of a node are different nodes. *)
Lemma located_ancestors ns r n ws : located ns r n ws -> exists l : list Z, NoDup l /\ length l = S (length ws) /\
  forall x, x ∈ l -> exists k, located ns r x (take k ws).
Proof.
  induction 1 as [c Hc Hp Hpath|n c p ws w Hc Hp Hname Hw Hpath Hl IH].
  - exists [r]. split_and!; [apply NoDup_singleton|done|]. intros x ->%list_elem_of_singleton. exists 0%nat. by eapply At_root.
  - destruct IH as (l & Hd & Hlen & Hx). exists (n :: l). rewrite length_app, Nat.add_comm. cbn [length]. split_and!; [|lia|].
    + apply list.NoDup_cons. split; [|done]. intros [k Hk]%Hx.
      destruct (located_unique _ _ _ _ Hk r (ws ++ [w])) as [_ E]; [by eapply At_child|].
      apply (f_equal length) in E. rewrite length_app, length_take in E. cbn in E. lia.
    + intros x [->|Hin]%elem_of_cons.
      * exists (length (ws ++ [w])). rewrite take_ge by done. by eapply At_child.
      * destruct (Hx x Hin) as [k Hk]. exists (min k (length ws)). rewrite take_app_le by lia.
        destruct (Nat.le_ge_cases k (length ws)); [by rewrite Nat.min_l by done|]. rewrite Nat.min_r by done. by rewrite (take_ge ws k) in Hk by done; rewrite take_ge by done.
Qed.

Lemma located_fuel ns r n ws : located ns r n ws -> (length ws < size ns)%nat.
Proof.
  intros (l & Hd & Hlen & Hx)%located_ancestors.
  assert (Hsub : list_to_set l ⊆@{gset Z} dom ns).
  { intros x Hin%elem_of_list_to_set. destruct (Hx x Hin) as [k (c & Hc & _)%located_lookup]. by eapply elem_of_dom_2. }
  apply subseteq_size in Hsub. rewrite size_list_to_set, size_dom in Hsub by done. lia.
Qed.

(** Two stores that agree on where nodes are; children are only added. *)
Record same_node (c c' : NodeCache) : Prop := SameNode {
  same_inode : inode c' = inode c;
  same_fsi : fsi c' = fsi c;
  same_name : Name c' = Name c;
  same_path : Path c' = Path c;
  same_parent : Parent c' = Parent c;
  more_children : exists l, Children c' = Children c ++ l
}.

Definition grows ns ns' : Prop := forall n c, ns !! n = Some c -> exists c', ns' !! n = Some c' /\ same_node c c'.

Lemma same_node_refl c : same_node c c.
Proof. split; try done. exists []. by rewrite app_nil_r. Qed.

Lemma tree_grows_refl ns : grows ns ns.
Proof. intros n c Hc. exists c. split; [done|apply same_node_refl]. Qed.

Lemma tree_grows_trans ns1 ns2 ns3 : grows ns1 ns2 -> grows ns2 ns3 -> grows ns1 ns3.
Proof.
  intros H1 H2 n c Hc. destruct (H1 n c Hc) as (c2 & Hc2 & [A1 A2 A3 A4 A5 [l1 A6]]).
  destruct (H2 n c2 Hc2) as (c3 & Hc3 & [B1 B2 B3 B4 B5 [l2 B6]]). exists c3. split; [done|].
  split; try congruence. exists (l1 ++ l2). by rewrite B6, A6, app_assoc.
Qed.

Lemma located_grows ns ns' r n ws : grows ns ns' -> located ns r n ws -> located ns' r n ws.
Proof.
  intros Hg. induction 1 as [c Hc Hp Hpath|n c p ws w Hc Hp Hname Hw Hpath Hl IH].
  - destruct (Hg _ _ Hc) as (c' & Hc' & []). apply (At_root _ _ c'); [done|congruence..].
  - destruct (Hg _ _ Hc) as (c' & Hc' & []). apply (At_child _ _ n c' p ws w); [done|congruence|congruence|done|congruence|done].
Qed.
End tree.

(** ** Searches *)

Section search.
Context {D : Type} {FS : FileSystems D}.
Implicit Types (s : Virtual D) (n r : Z) (w : list Z).

(** What the virtual file system relies on: there is a notion of inodes that
    exist; searching a name below one of them gives an answer, and what it finds
    or creates exists, as does what existed before.  Creating is promised only
    where there is room. *)
Class Lawful : Type := {
  valid : D -> Z -> Prop;
  room : D -> Prop;
  lookup_law : forall f lookup i w d, op_Lookup (Ops (fs_info f)) = Some lookup -> valid d i -> good_word w ->
    exists ret ino d', lookup i w d = Ret (ret, ino, d') /\ (ret = 0 -> valid d' ino) /\ (forall j, valid d j -> valid d' j);
  create_law : forall f create i w mode d ino d', op_Create (Ops (fs_info f)) = Some create -> valid d i -> good_word w ->
    room d -> create i w mode d = Ret (0, ino, d') -> valid d' ino /\ (forall j, valid d j -> valid d' j)
}.
Context {HA : Lawful}.

Record wf s : Prop := WF {
  wf_located : forall n c, nodes s !! n = Some c -> exists r ws, located (nodes s) r n ws;
  wf_fsi : forall n c, nodes s !! n = Some c -> is_Some (fsi c);
  wf_next : forall n c, nodes s !! n = Some c -> n < next_node s;
  wf_children : forall n c k, nodes s !! n = Some c -> k ∈ Children c -> exists d, nodes s !! k = Some d /\ Parent d = Some n;
  wf_inode : forall n c, nodes s !! n = Some c -> valid (disk s) (inode c)
}.

Lemma get_node_some s n c : nodes s !! n = Some c -> get_node n s = Ret (Go c, s).
Proof using Type. intros Hc. unfold get_node. by rewrite Hc. Qed.

Lemma to_root_spec s r n ws : forall fuel, located (nodes s) r n ws -> (length ws < fuel)%nat ->
  to_root fuel n s = Ret (Go r, s).
Proof using Type.
  intros fuel Hl. revert fuel. induction Hl as [c Hc Hp Hpath|n c p ws w Hc Hp Hname Hw Hpath Hl IH]; intros fuel Hf;
    (destruct fuel as [|fuel]; [lia|]); cbn [to_root]; erewrite bind_go by (by apply get_node_some); rewrite Hp; [done|].
  apply IH. rewrite length_app in Hf. cbn in Hf. lia.
Qed.

(** The child with a name among the cached ones. *)
Fixpoint cached (ns : gmap Z NodeCache) w (l : list Z) : option Z :=
  match l with
  | [] => None
  | n :: l => match ns !! n with
              | Some c => if decide (chars_of (Name c) = w) then Some n else cached ns w l
              | None => None
              end
  end.

Lemma cached_search_spec s w l : (forall k, k ∈ l -> is_Some (nodes s !! k)) ->
  cached_search w l s = Ret (Go (match cached (nodes s) w l with Some n => (Some n, 0) | None => (None, K_ENOENT) end), s).
Proof using Type.
  induction l as [|n l IH]; intros Hl; [done|]. cbn [cached_search cached].
  destruct (Hl n ltac:(set_solver)) as [c Hc]. erewrite bind_go by (by apply get_node_some). rewrite Hc.
  case_decide; [done|]. apply IH. intros k Hk. apply Hl. set_solver.
Qed.

Lemma CachedSearch_spec s n c w : wf s -> nodes s !! n = Some c ->
  CachedSearch n w s = Ret (Go (match cached (nodes s) w (Children c) with Some k => (Some k, 0) | None => (None, K_ENOENT) end), s).
Proof using Type.
  intros Hwf Hc. unfold CachedSearch. erewrite bind_go by (by apply get_node_some). apply cached_search_spec.
  intros k Hk. destruct (wf_children _ Hwf n c k Hc Hk) as (d & Hd & _). by eexists.
Qed.

Lemma cached_in ns w l n : cached ns w l = Some n -> n ∈ l /\ exists c, ns !! n = Some c /\ chars_of (Name c) = w.
Proof using Type.
  induction l as [|k l IH]; [done|]. cbn [cached]. destruct (ns !! k) as [c|] eqn:Hc; [|done]. case_decide as Hd.
  - intros [= ->]. split; [set_solver|]. by exists c.
  - intros H. destruct (IH H) as [Hin Hex]. split; [set_solver|done].
Qed.

Lemma cached_grows ns ns' w l l' n : grows ns ns' -> cached ns w l = Some n -> cached ns' w (l ++ l') = Some n.
Proof using Type.
  intros Hg. induction l as [|k l IH]; [done|]. cbn [cached app]. destruct (ns !! k) as [c|] eqn:Hc; [|done].
  destruct (Hg k c Hc) as (c' & -> & []). rewrite same_name0. case_decide; [done|]. apply IH.
Qed.

Context (unset_flag : Z -> bool).

(** The store after a new child of [n] with the name [w]. *)
Definition with_disk (d : D) s : Virtual D := VFS (Roots s) (Registered s) (nodes s) (next_node s) d.

Definition new_child n (c : NodeCache) ino w path s : Virtual D :=
  let k := next_node s in
  VFS (Roots s) (Registered s)
    (<[k := Node ino (fsi c) (unset_flag k) (Some w) (Some path) None (Some n) []]>
      (<[n := with_children (Children c ++ [k]) c]> (nodes s)))
    (k + 1) (disk s).

(** Walking down along words: the cached child, or a new one that the file
    system of the node knows. *)
Fixpoint descend n (ws : list (list Z)) s : outcome (control eNode * Virtual D) :=
  match ws with
  | [] => Ret (Go (Some n, 0), s)
  | w :: ws =>
    match nodes s !! n with
    | None => Fault
    | Some c =>
      match cached (nodes s) w (Children c), fsi c with
      | Some k, _ => descend k ws s
      | None, None => Fault
      | None, Some f =>
        match op_Lookup (Ops (fs_info f)) with
        | None => Ret (Go (None, K_ENOTSUP), s)
        | Some lookup =>
          let! (ret, ino, d) := lookup (inode c) w (disk s) in
          let s := with_disk d s in
          if negb (ret =? 0) then Ret (Go (None, ret), s)
          else descend (next_node s) ws (new_child n c ino w (extend_path (chars_of (Path c)) w) s)
        end
      end
    end
  end.

Lemma tree_path_snoc ws w : Forall good_word ws -> extend_path (tree_path ws) w = tree_path (ws ++ [w]).
Proof using Type.
  unfold extend_path, tree_path. destruct 1 as [|v ws [[Hv _] _] _]; [cbn; by rewrite app_nil_r|]. cbn [app put_words].
  rewrite decide_False.
  - unfold tail_words. rewrite map_app, concat_app. cbn. by rewrite app_nil_r, <- app_assoc.
  - intros [= E]. by destruct v.
Qed.

Lemma new_child_spec s n c r ws ino w : wf s -> nodes s !! n = Some c -> located (nodes s) r n ws -> good_word w ->
  valid (disk s) ino ->
  let s' := new_child n c ino w (extend_path (chars_of (Path c)) w) s in
  wf s' /\ grows (nodes s) (nodes s') /\ located (nodes s') r (next_node s) (ws ++ [w]) /\
  (cached (nodes s) w (Children c) = None -> forall c', nodes s' !! n = Some c' -> cached (nodes s') w (Children c') = Some (next_node s)).
Proof using Type.
  intros Hwf Hc Hl Hw Hv s'. set (k := next_node s).
  assert (Hkn : forall m d, nodes s !! m = Some d -> m <> k) by (intros m d Hm ->; apply (wf_next _ Hwf) in Hm; unfold k in Hm; lia).
  assert (Hk : nodes s' !! k = Some (Node ino (fsi c) (unset_flag k) (Some w) (Some (extend_path (chars_of (Path c)) w)) None (Some n) []))
    by (unfold s', new_child; cbn [nodes]; by rewrite lookup_insert_eq).
  assert (Hn : nodes s' !! n = Some (with_children (Children c ++ [k]) c)).
  { unfold s', new_child. cbn [nodes]. rewrite lookup_insert_ne by (symmetry; by eapply Hkn). by rewrite lookup_insert_eq. }
  assert (Ho : forall m, m <> k -> m <> n -> nodes s' !! m = nodes s !! m).
  { intros m H1 H2. unfold s', new_child. cbn [nodes]. by rewrite !lookup_insert_ne. }
  assert (Hg : grows (nodes s) (nodes s')).
  { intros m d Hm. destruct (decide (m = n)) as [->|Hmn].
    - eexists. split; [exact Hn|]. assert (d = c) as -> by congruence. split; try done. by exists [k].
    - exists d. rewrite Ho by (try done; by eapply Hkn). split; [done|apply same_node_refl]. }
  assert (Hpath : Path c = Some (tree_path ws)) by (destruct (located_lookup _ _ _ _ Hl) as (c' & Hc' & ?); congruence).
  assert (Hlk : located (nodes s') r k (ws ++ [w])).
  { eapply (At_child _ _ k _ n ws w); [exact Hk|done|done|done| |by eapply located_grows].
    cbn [Path]. rewrite Hpath. cbn [chars_of]. f_equal. apply tree_path_snoc. by eapply located_words. }
  split; [|split; [done|split; [done|]]].
  - split.
    + intros m d Hm. destruct (decide (m = k)) as [->|Hmk]; [by eexists _, _|].
      assert (exists d0, nodes s !! m = Some d0) as [d0 Hd0].
      { destruct (decide (m = n)) as [->|Hmn]; [by eexists|]. rewrite Ho in Hm by done. by eexists. }
      destruct (wf_located _ Hwf _ _ Hd0) as (r' & ws' & Hl'). exists r', ws'. by eapply located_grows.
    + intros m d Hm. destruct (decide (m = k)) as [->|Hmk]; [|destruct (decide (m = n)) as [->|Hmn]].
      * rewrite Hk in Hm. injection Hm as <-. cbn. by eapply wf_fsi.
      * rewrite Hn in Hm. injection Hm as <-. cbn. by eapply wf_fsi.
      * rewrite Ho in Hm by done. by eapply wf_fsi.
    + intros m d Hm. change (next_node s') with (k + 1).
      destruct (decide (m = k)) as [->|Hmk]; [lia|]. enough (m < k) by lia. unfold k.
      destruct (decide (m = n)) as [->|Hmn]; [by eapply wf_next|]. rewrite Ho in Hm by done. by eapply wf_next.
    + intros m d q Hm Hq. destruct (decide (m = k)) as [->|Hmk]; [|destruct (decide (m = n)) as [->|Hmn]].
      * rewrite Hk in Hm. injection Hm as <-. by apply not_elem_of_nil in Hq.
      * rewrite Hn in Hm. injection Hm as <-. cbn [Children with_children] in Hq.
        apply elem_of_app in Hq as [Hq|Hq]; [|apply list_elem_of_singleton in Hq as ->; by eexists].
        destruct (wf_children _ Hwf _ _ _ Hc Hq) as (e & He & Hpe). destruct (Hg _ _ He) as (e' & He' & []). exists e'. split; [done|congruence].
      * rewrite Ho in Hm by done. destruct (wf_children _ Hwf _ _ _ Hm Hq) as (e & He & Hpe).
        destruct (Hg _ _ He) as (e' & He' & []). exists e'. split; [done|congruence].
    + intros m d Hm. change (disk s') with (disk s). destruct (decide (m = k)) as [->|Hmk]; [|destruct (decide (m = n)) as [->|Hmn]].
      * rewrite Hk in Hm. by injection Hm as <-.
      * rewrite Hn in Hm. injection Hm as <-. by apply (wf_inode _ Hwf _ _ Hc).
      * rewrite Ho in Hm by done. by eapply wf_inode.
  - intros Hmiss c' Hc'. rewrite Hn in Hc'. injection Hc' as <-. cbn [Children with_children].
    assert (Hch : forall q, q ∈ Children c -> is_Some (nodes s !! q)).
    { intros q Hq. destruct (wf_children _ Hwf _ _ _ Hc Hq) as (e & He & _). by eexists. }
    clear Hn. revert Hmiss Hch. induction (Children c) as [|q l IHl]; intros Hmiss Hch; cbn [app cached] in *.
    + rewrite Hk. cbn. by rewrite decide_True.
    + destruct (Hch q ltac:(set_solver)) as [e He]. rewrite He in Hmiss. destruct (Hg _ _ He) as (e' & -> & []).
      rewrite same_name0. revert Hmiss. case_decide; [done|]. intros Hmiss. apply IHl; [done|]. intros q' Hq'. apply Hch. set_solver.
Qed.

Lemma wf_with_disk s d : (forall j, valid (disk s) j -> valid d j) -> wf s -> wf (with_disk d s).
Proof using Type. intros Hk [H1 H2 H3 H4 H5]. split; try done. intros n c Hn. apply Hk. by eapply H5. Qed.

(** Walking down ends; it keeps what is there, and ends at the node of the words
    or with an error of a file system. *)
Lemma descend_spec ws : forall s n r pre, wf s -> located (nodes s) r n pre -> Forall good_word ws ->
  exists e s', descend n ws s = Ret (Go e, s') /\ wf s' /\ grows (nodes s) (nodes s') /\
    Roots s' = Roots s /\ Registered s' = Registered s /\
    ((exists k, e = (Some k, 0) /\ located (nodes s') r k (pre ++ ws) /\
        forall s'', grows (nodes s') (nodes s'') -> descend n ws s'' = Ret (Go (Some k, 0), s'')) \/
     (exists err, e = (None, err) /\ err <> 0)).
Proof using Type.
  induction ws as [|w ws IH]; intros s n r pre Hwf Hl Hws; cbn [descend].
  - exists (Some n, 0), s. split; [done|]. split; [done|]. split; [apply tree_grows_refl|]. split; [done|]. split; [done|].
    left. exists n. rewrite app_nil_r. done.
  - apply Forall_cons_1 in Hws as [Hw Hws]. destruct (located_lookup _ _ _ _ Hl) as (c & Hc & Hpath). rewrite Hc.
    destruct (cached (nodes s) w (Children c)) as [k|] eqn:Hcache.
    + destruct (cached_in _ _ _ _ Hcache) as (Hin & ck & Hck & Hname).
      destruct (wf_children _ Hwf _ _ _ Hc Hin) as (ck' & Hck' & Hpk). replace ck' with ck in * by congruence.
      destruct (wf_located _ Hwf _ _ Hck) as (r' & wk & Hlk).
      assert (Hlk' : located (nodes s) r k (pre ++ [w])).
      { inversion Hlk as [c1 Hc1 Hp1|n1 c1 p1 ws1 w1 Hc1 Hp1 Hn1 Hw1 Hpa1 Hl1]; subst; [congruence|].
        replace c1 with ck in * by congruence. assert (p1 = n) as -> by congruence.
        destruct (located_unique _ _ _ _ Hl _ _ Hl1) as [-> ->]. by rewrite Hn1. }
      destruct (IH s k r (pre ++ [w]) Hwf Hlk' Hws) as (e & s' & E & Hwf' & Hg & HR & HS & Hcase).
      exists e, s'. split; [done|]. split; [done|]. split; [done|]. split; [done|]. split; [done|].
      destruct Hcase as [(k' & -> & Hlk'' & Hagain)|Herr]; [left|by right].
      exists k'. split; [done|]. rewrite <- app_assoc in Hlk''. split; [done|]. intros s'' Hg''.
      destruct (tree_grows_trans _ _ _ Hg Hg'' _ _ Hc) as (c'' & -> & []). destruct more_children0 as [l' ->].
      rewrite (cached_grows (nodes s) (nodes s'') w (Children c) l' k); [by apply Hagain| |done]. by eapply tree_grows_trans.
    + destruct (wf_fsi _ Hwf _ _ Hc) as [f Hf]. rewrite Hf.
      destruct (op_Lookup (Ops (fs_info f))) as [lookup|] eqn:Hop.
      2: { eexists _, s. split; [done|]. split; [done|]. split; [apply tree_grows_refl|]. split; [done|]. split; [done|]. right. by exists K_ENOTSUP. }
      destruct (lookup_law f lookup (inode c) w (disk s) Hop (wf_inode _ Hwf _ _ Hc) Hw) as (ret & ino & d & -> & Hino & Hkeep). cbn [obind]. cbv zeta.
      pose proof (wf_with_disk s d Hkeep Hwf) as Hwfd. destruct (Z.eqb_spec ret 0) as [->|Hret]; cbn [negb].
      2: { eexists _, (with_disk d s). split; [done|]. split; [done|]. split; [apply tree_grows_refl|]. split; [done|]. split; [done|]. right. by exists ret. }
      destruct (new_child_spec (with_disk d s) n c r pre ino w Hwfd Hc Hl Hw (Hino eq_refl)) as (Hwf1 & Hg1 & Hl1 & Hcached).
      set (s1 := new_child n c ino w (extend_path (chars_of (Path c)) w) (with_disk d s)) in *.
      destruct (IH s1 (next_node (with_disk d s)) r (pre ++ [w]) Hwf1 Hl1 Hws) as (e & s' & E & Hwf' & Hg & HR & HS & Hcase).
      exists e, s'. split; [done|]. split; [done|]. split; [by eapply tree_grows_trans|]. split; [done|]. split; [done|].
      destruct Hcase as [(k' & -> & Hlk'' & Hagain)|Herr]; [left|by right].
      exists k'. split; [done|]. rewrite <- app_assoc in Hlk''. split; [done|]. intros s'' Hg''.
      destruct (Hg1 _ _ Hc) as (c1 & Hc1 & Hsame1). specialize (Hcached Hcache c1 Hc1).
      destruct (tree_grows_trans _ _ _ Hg Hg'' _ _ Hc1) as (c'' & -> & []). destruct more_children0 as [l' ->].
      rewrite (cached_grows (nodes s1) (nodes s'') w (Children c1) l' (next_node (with_disk d s))); [by apply Hagain| |done]. by eapply tree_grows_trans.
Qed.
End search.
