(* ===== verification/KVfsLookup.v ===== *)
(** * Looking paths up

    [Lookup] of [KVfs] walks down the tree of nodes along the words of the
    normal form of a path, a second search finds the same node and changes
    nothing, and what [Create] adds is found. *)

From S2P Require Import Prelude CMem CMonad KPath KPathWords KPathNormal KString KHashMap KVfs KVfsTree.

Section lookup.
Context {D : Type} {FS : FileSystems D} {HA : @Lawful D FS}.
Context (allocate : Z -> list Z) (unset_flag : Z -> bool).
Hypothesis allocate_length : forall n, 0 <= n -> length (allocate n) = Z.to_nat n.
Implicit Types (s : Virtual D) (n r : Z) (w p : list Z).

Abbreviation look := (Lookup allocate unset_flag U).

(** A new node, linked below its parent. *)
Lemma Convert_child_run s n c ino : nodes s !! n = Some c -> n < next_node s ->
  Convert_child unset_flag n ino s = Ret (Go (next_node s), VFS (Roots s) (Registered s)
    (<[n := with_children (Children c ++ [next_node s]) c]>
      (<[next_node s := Node ino (fsi c) (unset_flag (next_node s)) None None None (Some n) []]> (nodes s)))
    (next_node s + 1) (disk s)).
Proof using Type.
  intros Hc Hlt. unfold Convert_child, make_node. assert (Hne : n <> next_node s) by lia.
  erewrite bind_go by (by apply get_node_some). erewrite bind_go by reflexivity.
  erewrite bind_go; [|erewrite bind_go by reflexivity; erewrite bind_go by reflexivity; reflexivity].
  erewrite bind_go; [|apply get_node_some; cbn [nodes]; rewrite lookup_insert_ne by done; exact Hc].
  erewrite bind_go by reflexivity. reflexivity.
Qed.

(** The same with its names: what a search that misses the cache adds. *)
Lemma add_child_run s n c ino w path : nodes s !! n = Some c -> n < next_node s ->
  (k ← Convert_child unset_flag n ino; d ← get_node k; put_node k (with_names w path d);; mret k) s
    = Ret (Go (next_node s), new_child unset_flag n c ino w path s).
Proof using Type.
  intros Hc Hlt. assert (Hne : n <> next_node s) by lia. erewrite bind_go by (by apply Convert_child_run).
  erewrite bind_go; [|apply get_node_some; cbn [nodes]; rewrite lookup_insert_ne by done; apply lookup_insert_eq].
  erewrite bind_go by reflexivity. unfold set_nodes, new_child. cbn [Roots Registered nodes next_node disk with_names].
  unfold mret, ST_ret. do 3 f_equal. rewrite !(insert_insert_ne _ (next_node s) n) by done. by rewrite insert_insert_eq.
Qed.

(** And what [Create] adds, which computes the path from the parent. *)
Lemma create_child_run s n c ino w path (f : NodeCache -> outcome (list Z)) : nodes s !! n = Some c -> n < next_node s ->
  (forall l, f (with_children l c) = Ret path) ->
  (k ← Convert_child unset_flag n ino; q ← get_node n; path ← pure (f q); d ← get_node k;
   put_node k (with_names w path d);; mret (Some k, 0)) s
    = Ret (Go (Some (next_node s), 0), new_child unset_flag n c ino w path s).
Proof using Type.
  intros Hc Hlt Hf. assert (Hne : n <> next_node s) by lia. erewrite bind_go by (by apply Convert_child_run).
  erewrite bind_go; [|apply get_node_some; cbn [nodes]; apply lookup_insert_eq].
  erewrite bind_go; [|unfold pure; rewrite Hf; reflexivity].
  erewrite bind_go; [|apply get_node_some; cbn [nodes]; rewrite lookup_insert_ne by done; apply lookup_insert_eq].
  erewrite bind_go by reflexivity. unfold set_nodes, new_child. cbn [Roots Registered nodes next_node disk with_names].
  unfold mret, ST_ret. do 3 f_equal. rewrite !(insert_insert_ne _ (next_node s) n) by done. by rewrite insert_insert_eq.
Qed.

Lemma view_word g pre w post : view U g pre w post -> chars (path g) (begin g) (seg_size g) = Ret w.
Proof using Type.
  intros [r a b E _ _ _ Hb Hz _ _ _ _ _ _]. rewrite E, Hb, Hz, (app_assoc r). rewrite chars_spec.
  - by rewrite Nat2Z.id, take_ge by done.
  - rewrite length_app. lia.
  - lia.
Qed.

Lemma extend_tree s r n ws w : located (nodes s) r n ws -> extend_path (tree_path ws) w = tree_path (ws ++ [w]).
Proof using Type. intros Hl. apply tree_path_snoc. by eapply located_words. Qed.

(** One segment of the search, against one step down. *)
Lemma lookup_step_spec s r n ws w : wf s -> located (nodes s) r n ws -> good_word w ->
  (exists k s', lookup_step unset_flag n w (tree_path ws) s = Ret (Go (inl (k, tree_path (ws ++ [w]))), s') /\
     wf s' /\ located (nodes s') r k (ws ++ [w]) /\
     forall post, descend unset_flag n (w :: post) s = descend unset_flag k post s') \/
  (exists e s', lookup_step unset_flag n w (tree_path ws) s = Ret (Go (inr e), s') /\
     forall post, descend unset_flag n (w :: post) s = Ret (Go e, s')).
Proof using HA.
  intros Hwf Hl Hw. destruct (located_lookup _ _ _ _ Hl) as (c & Hc & Hpath). unfold lookup_step.
  erewrite bind_go by (by apply CachedSearch_spec). cbn [descend]. rewrite Hc.
  destruct (cached (nodes s) w (Children c)) as [k|] eqn:Hcache.
  - left. exists k, s. rewrite (extend_tree s r n ws w Hl). split_and!; try done.
    destruct (descend_spec unset_flag [w] s n r ws Hwf Hl ltac:(by constructor)) as (e & s' & E & _ & _ & _ & _ & Hcase).
    cbn [descend] in E. rewrite Hc, Hcache in E. injection E as <- <-.
    destruct Hcase as [(k' & [= <-] & Hk & _)|(err & [=] & _)]. done.
  - destruct (wf_fsi _ Hwf _ _ Hc) as [f Hf]. rewrite Hf.
    erewrite bind_go by (by apply get_node_some). unfold ops_of. rewrite Hf. erewrite bind_go by reflexivity.
    destruct (op_Lookup (Ops (fs_info f))) as [lookup|] eqn:Hop.
    2: { right. eexists _, s. done. }
    destruct (lookup_law f lookup (inode c) w (disk s) Hop (wf_inode _ Hwf _ _ Hc) Hw) as (ret & ino & d & Elk & Hino & Hkeep).
    erewrite bind_go; [|unfold on_disk; rewrite Elk; reflexivity]. cbn [fst snd]. rewrite Elk. cbn [obind]. cbv zeta.
    destruct (Z.eqb_spec ret 0) as [->|Hret]; cbn [negb].
    2: { right. eexists _, (with_disk d s). done. }
    left. destruct (new_child_spec unset_flag (with_disk d s) n c r ws ino w (wf_with_disk s d Hkeep Hwf) Hc Hl Hw (Hino eq_refl)) as (Hwf1 & _ & Hl1 & _).
    rewrite Hpath in Hwf1, Hl1 |- *. change (chars_of (Some (tree_path ws))) with (tree_path ws) in *.
    rewrite (extend_tree s r n ws w Hl) in Hwf1, Hl1 |- *.
    eexists _, (new_child unset_flag n c ino w (tree_path (ws ++ [w])) (with_disk d s)). split_and!; [|done|exact Hl1|done].
    erewrite bind_go; [reflexivity|].
    apply (add_child_run (with_disk d s) n c ino w (tree_path (ws ++ [w]))); [done|]. by eapply (wf_next _ Hwf).
Qed.

Lemma lookup_loop_spec post : forall fuel g pre w s r n ws, view U g pre w post -> wf s -> located (nodes s) r n ws ->
  Forall good_word (w :: post) -> (length post < fuel)%nat ->
  lookup_loop unset_flag U fuel g n (tree_path ws) s = descend unset_flag n (w :: post) s.
Proof using HA.
  induction post as [|x post IH]; intros fuel g pre w s r n ws Hv Hwf Hl Hg Hf; (destruct fuel as [|fuel]; [lia|]);
    cbn [lookup_loop]; (erewrite bind_go; [|unfold pure; rewrite (view_word _ _ _ _ Hv); reflexivity]);
    apply Forall_cons_1 in Hg as [Hw Hg]; pose proof (next_segment_spec U _ _ _ _ Hv) as Hn; cbn in Hn;
    (destruct (lookup_step_spec s r n ws w Hwf Hl Hw) as [(k & s' & E & Hwf' & Hl' & Ed)|(e & s' & E & Ed)];
      erewrite bind_go by exact E; rewrite Ed).
  - erewrite bind_go; [|unfold pure; rewrite Hn; reflexivity]. done.
  - done.
  - destruct Hn as (g' & Hn & _ & Hv'). erewrite bind_go; [|unfold pure; rewrite Hn; reflexivity]. cbn [fst snd].
    eapply IH; try done. cbn in Hf; lia.
  - done.
Qed.

(** ** The whole search *)

(** The words that a path given to [Lookup] stands for, in a directory at [ws]. *)
Definition target (ws : list (list Z)) p : list (list Z) :=
  resolve true (if has_root p then split U p else ws ++ split U p).

Lemma split_tree_path ws : Forall good_word ws -> split U (tree_path ws) = ws.
Proof using Type.
  intros H. unfold tree_path. change (slash :: ?t) with ([slash] ++ t). rewrite split_root by (by constructor).
  apply split_join. eapply list.Forall_impl; [exact H|]. by intros w [? _].
Qed.

Lemma tree_path_no_nul ws : Forall good_word ws -> 0 ∉ tree_path ws.
Proof using Type.
  intros H [E|[E|(w & Hw & Hc)]%join_words_chars]%elem_of_cons; [done..|].
  by destruct (proj1 (list.Forall_forall _ _) H w Hw) as (_ & _ & ?).
Qed.

Lemma resolve_good ws : Forall (fun w => word U w /\ 0 ∉ w) ws -> Forall good_word (resolve true ws).
Proof using Type.
  intros H. apply list.Forall_forall. intros w Hw. pose proof (resolve_sub true ws w Hw) as Hin.
  destruct (proj1 (list.Forall_forall _ _) H w Hin) as [H1 H2].
  destruct (resolve_settled true ws) as (t & u & E & Ht & _ & Hu). rewrite (Hu eq_refl), app_nil_r in E.
  assert (Hwt : w ∈ t) by (rewrite <- E; by apply elem_of_reverse).
  pose proof (proj1 (list.Forall_forall _ _) Ht w Hwt) as Hk. done.
Qed.

Lemma split_clean p : 0 ∉ p -> Forall (fun w => word U w /\ 0 ∉ w) (split U p).
Proof using Type.
  intros H0. apply list.Forall_forall. intros w Hw. split.
  - apply (proj1 (list.Forall_forall _ _) (split_from_words U [] p (Forall_nil_2 _)) w Hw).
  - intros Hc. apply H0. by apply (split_from_chars U [] p w 0).
Qed.

Lemma target_good ws p : Forall good_word ws -> 0 ∉ p -> Forall good_word (target ws p).
Proof using Type.
  intros Hws H0. apply resolve_good. destruct (has_root p); [by apply split_clean|].
  apply Forall_app. split; [|by apply split_clean]. eapply list.Forall_impl; [exact Hws|]. by intros w (? & _ & ?).
Qed.

Lemma is_relative_spec p : cwk_path_is_relative U p = Ret (negb (has_root p)).
Proof using Type.
  unfold cwk_path_is_relative, cwk_path_is_absolute. destruct (unix_root p) as (r & l & _ & _ & -> & E & _).
  cbn [obind]. rewrite E. done.
Qed.

Lemma located_root ns r n ws : located ns r n ws -> located ns r r [].
Proof using Type. induction 1; [by eapply At_root|done]. Qed.

Definition special p : Prop := p = [dot] \/ p = [dot; dot].

Lemma Lookup_spec s r n c ws p : wf s -> nodes s !! n = Some c -> located (nodes s) r n ws -> 0 ∉ p ->
  Z.of_nat (length (tree_path ws) + length p) < 2 ^ 31 - 3 -> ~ special p ->
  look n p s = match target ws p with
               | [] => Ret (Go (Some (if has_root p then r else n), 0), s)
               | ks => descend unset_flag r ks s
               end.
Proof using HA allocate_length.
  intros Hwf Hc Hl H0 Hlen Hsp. unfold Lookup. erewrite bind_go by (by apply get_node_some).
  rewrite decide_False by (intros ->; apply Hsp; by left). rewrite decide_False by (intros ->; apply Hsp; by right).
  erewrite bind_go; [|unfold pure; rewrite is_relative_spec; reflexivity]. cbv zeta. rewrite negb_involutive.
  erewrite bind_go by reflexivity.
  pose proof (located_fuel _ _ _ _ Hl) as Hfuel. pose proof (located_root _ _ _ _ Hl) as Hr.
  destruct (located_lookup _ _ _ _ Hr) as (cr & Hcr & Hpr). pose proof (located_words _ _ _ _ Hl) as Hws.
  assert (Hnorm : exists q, absolute_paths q = true /\ words q = (if has_root p then split U p else ws ++ split U p) /\
    Forall (fun x => 0 ∉ x) q /\ forall cb, nodes s !! (if has_root p then r else n) = Some cb ->
    NormalizePath allocate U (Path cb) p (negb (has_root p)) = Ret (normal_form q)).
  { destruct (has_root p) eqn:Hroot.
    - exists [p]. split_and!; [done|by rewrite words_cons, app_nil_r|by constructor|]. intros cb _. apply NormalizePath_single; [done..|lia].
    - exists [tree_path ws; p]. split_and!; [done|by rewrite !words_cons, app_nil_r, split_tree_path|repeat constructor; [by apply tree_path_no_nul|done]|].
      intros cb Hcb. destruct (located_lookup _ _ _ _ Hl) as (c' & Hc' & Hp'). replace cb with c' by congruence. rewrite Hp'.
      apply NormalizePath_join; [done|by apply tree_path_no_nul|done|lia]. }
  destruct Hnorm as (q & Habs & Hq & Hq0 & Hnorm).
  destruct (words_normal_form q (or_intror Habs)) as [Hroot Hsplit]. rewrite Habs, Hq in Hsplit. fold (target ws p) in Hsplit.
  assert (Hbase : exists cb, nodes s !! (if has_root p then r else n) = Some cb) by (destruct (has_root p); by eexists).
  destruct Hbase as [cb Hcb].
  erewrite bind_go; [|instantiate (2 := if has_root p then r else n); destruct (has_root p);
    [apply (to_root_spec s r n ws); [done|lia]|reflexivity]].
  erewrite bind_go by (by apply get_node_some). erewrite bind_go; [|unfold pure; rewrite (Hnorm cb Hcb); reflexivity].
  pose proof (normal_form_no_nul q Hq0) as Hnf0. destruct (unix_root (normal_form q)) as (r0 & l0 & El & Hr0 & Eroot & _ & _).
  assert (Hsl : split U l0 = target ws p) by (rewrite <- Hsplit, El; by rewrite split_root).
  pose proof (first_segment_spec U _ r0 l0 El Hnf0 Hr0) as Hfirst. rewrite Hsl in Hfirst.
  destruct (target ws p) as [|k ks] eqn:Etarget.
  - destruct Hfirst as (g & Eg). erewrite bind_go; [|unfold pure, cwk_path_get_first_segment; rewrite Eroot; cbn [obind]; rewrite Eg; reflexivity].
    cbn [fst snd negb]. rewrite decide_True; [done|]. unfold normal_form. fold (absolute_paths q). rewrite Habs, Hq.
    unfold target in Etarget. by rewrite Etarget.
  - destruct Hfirst as (g & Eg & Hpg & Hv). erewrite bind_go; [|unfold pure, cwk_path_get_first_segment; rewrite Eroot; cbn [obind]; rewrite Eg; reflexivity].
    cbn [fst snd negb].
    erewrite bind_go; [|instantiate (2 := r); destruct (has_root p); [reflexivity|apply (to_root_spec s r n ws); [done|lia]]].
    erewrite bind_go by (by apply get_node_some). rewrite Hpr. change (chars_of (Some (tree_path []))) with (tree_path []).
    rewrite decide_False by done.
    apply (lookup_loop_spec ks _ g [] k s r r []); try done.
    + rewrite <- Etarget. by apply target_good.
    + pose proof (view_fuel _ _ _ _ _ Hv) as Hvf. rewrite Hpg in Hvf. unfold path_fuel. lia.
Qed.

Lemma resolve_words ws : Forall good_word ws -> foldl (resolve_step true) [] ws = reverse ws.
Proof using Type.
  intros Hws. assert (H : resolve true ws = ws).
  { apply resolve_fixed. exists (reverse ws), []. rewrite app_nil_r. split_and!; [done| |constructor|done]. apply Forall_reverse.
    eapply list.Forall_impl; [exact Hws|]. by intros v (_ & ? & _). }
  apply (f_equal reverse) in H. unfold resolve in H. by rewrite reverse_involutive in H.
Qed.

(** Where ["."] and [".."] lead *)
Lemma target_special ws : Forall good_word ws -> target ws [dot] = ws /\ target ws [dot; dot] = removelast ws.
Proof using Type.
  intros Hws. unfold target. change (has_root [dot]) with false. change (has_root [dot; dot]) with false. cbv iota.
  change (split U [dot]) with [[dot]]. change (split U [dot; dot]) with [[dot; dot]]. unfold resolve. rewrite !foldl_app, resolve_words by done. cbn [foldl].
  split; [apply reverse_involutive|]. unfold resolve_step. change (kind [dot; dot]) with CWK_BACK. cbv iota.
  destruct ws as [|w ws' _] using rev_ind; [done|]. rewrite reverse_app, removelast_last. cbn. apply Forall_app in Hws as [_ Hw].
  apply Forall_cons_1 in Hw as [(_ & Hk & _) _]. rewrite decide_False by congruence. apply reverse_involutive.
Qed.

Lemma Lookup_special s r n c ws p : nodes s !! n = Some c -> located (nodes s) r n ws -> special p ->
  exists k, look n p s = Ret (Go (Some k, 0), s) /\ located (nodes s) r k (target ws p).
Proof using Type.
  intros Hc Hl Hsp. destruct (target_special ws (located_words _ _ _ _ Hl)) as [E1 E2]. unfold Lookup. erewrite bind_go by (by apply get_node_some).
  destruct Hsp as [->| ->].
  - rewrite decide_True by done. exists n. by rewrite E1.
  - rewrite decide_False, decide_True by done. rewrite E2. exists (default n (Parent c)). split; [done|].
    destruct Hl as [c' Hc' Hp Hpath|n c' p ws w Hc' Hp Hn Hw Hpath Hl]; replace c' with c in * by congruence; rewrite Hp; [by eapply At_root|].
    by rewrite removelast_last.
Qed.

(** C2: looking a path up.  In a well-formed tree, [Lookup] never faults and
    always ends, whatever the path (of fewer than 2^31 characters).  What it
    finds is at the words of the path: those of an absolute path, or those of the
    directory and of a relative path, resolved; for [".."] and ["."] too.  Below
    the root the search is the walk from the root along these words, which ends
    at the node with exactly these words or with the error of the file system
    that did not find one.  There is one exception, which the code has: a
    relative path that comes down to the root, other than ["."] and [".."],
    finds the node where the search started.  The tree stays well-formed, and no
    node that was there is moved, renamed or lost. *)
Theorem Lookup_correct s r n c ws p : wf s -> nodes s !! n = Some c -> located (nodes s) r n ws -> 0 ∉ p ->
  Z.of_nat (length (tree_path ws) + length p) < 2 ^ 31 - 3 ->
  exists e s', look n p s = Ret (Go e, s') /\ wf s' /\ grows (nodes s) (nodes s') /\
    (~ special p -> target ws p <> [] -> look n p s = descend unset_flag r (target ws p) s) /\
    (has_root p = true \/ special p \/ target ws p <> [] ->
       (exists k, e = (Some k, 0) /\ located (nodes s') r k (target ws p)) \/ (exists err, e = (None, err) /\ err <> 0)) /\
    (has_root p = false -> ~ special p -> target ws p = [] -> e = (Some n, 0) /\ s' = s).
Proof using HA allocate_length.
  intros Hwf Hc Hl H0 Hlen. destruct (decide (p = [dot] \/ p = [dot; dot])) as [Hsp|Hsp].
  { destruct (Lookup_special s r n c ws p Hc Hl Hsp) as (k & E & Hk). exists (Some k, 0), s. split_and!; try done; [apply tree_grows_refl|].
    intros _. left. by exists k. }
  pose proof (Lookup_spec s r n c ws p Hwf Hc Hl H0 Hlen Hsp) as E. pose proof (target_good ws p (located_words _ _ _ _ Hl) H0) as Hg.
  destruct (descend_spec unset_flag (target ws p) s r r [] Hwf (located_root _ _ _ _ Hl) Hg) as (e & s' & Ed & Hwf' & Hgr & _ & _ & Hcase).
  rewrite E. destruct (target ws p) as [|k ks] eqn:Et.
  - exists (Some (if has_root p then r else n), 0), s. split_and!; try done; [apply tree_grows_refl| |by intros -> _ _].
    intros [Hr|[?|?]]; [|done|done]. left. exists r. rewrite Hr. split; [done|]. by eapply located_root.
  - exists e, s'. split_and!; try done. intros _. destruct Hcase as [(k' & -> & Hk & _)|Herr]; [left; by exists k'|by right].
Qed.

(** C15: searches are cached.  When the search of a path that leads below the root
    has found a node, searching any path but ["."] and [".."] that comes down to
    the same words, from any node of the same tree, finds the same node at once:
    no file system is asked and nothing changes. *)
Theorem Lookup_again s r n c ws p k s' n' c' ws' p' : wf s -> nodes s !! n = Some c -> located (nodes s) r n ws -> 0 ∉ p ->
  Z.of_nat (length (tree_path ws) + length p) < 2 ^ 31 - 3 -> ~ special p -> target ws p <> [] ->
  look n p s = Ret (Go (Some k, 0), s') ->
  nodes s' !! n' = Some c' -> located (nodes s') r n' ws' -> 0 ∉ p' ->
  Z.of_nat (length (tree_path ws') + length p') < 2 ^ 31 - 3 -> ~ special p' -> target ws' p' = target ws p ->
  look n' p' s' = Ret (Go (Some k, 0), s').
Proof using HA allocate_length.
  intros Hwf Hc Hl H0 Hlen Hsp Hne Hfound Hc' Hl' H0' Hlen' Hsp' Et.
  pose proof (target_good ws p (located_words _ _ _ _ Hl) H0) as Hg.
  destruct (descend_spec unset_flag (target ws p) s r r [] Hwf (located_root _ _ _ _ Hl) Hg) as (e & s1 & Ed & Hwf' & _ & _ & _ & Hcase).
  rewrite (Lookup_spec s r n c ws p) in Hfound by done.
  assert (Es : descend unset_flag r (target ws p) s = Ret (Go (Some k, 0), s')) by (by destruct (target ws p)).
  rewrite Ed in Es. injection Es as -> ->.
  destruct Hcase as [(k' & [= <-] & _ & Hagain)|(err & [=] & _)].
  rewrite (Lookup_spec s' r n' c' ws' p' Hwf' Hc' Hl' H0' Hlen' Hsp'), Et. specialize (Hagain s' (tree_grows_refl _)).
  by destruct (target ws p).
Qed.

(** A relative path that leads up to the root finds the node where the search
    started: ["../"] in a directory of the root is that directory. *)
Theorem Lookup_up_to_root_stays s r n c w : wf s -> nodes s !! n = Some c -> located (nodes s) r n [w] ->
  Z.of_nat (length w) < 2 ^ 30 -> n <> r /\ look n [dot; dot; slash] s = Ret (Go (Some n, 0), s).
Proof using HA allocate_length.
  intros Hwf Hc Hl Hlen. split.
  - intros ->. destruct (located_unique _ _ _ _ Hl _ _ (located_root _ _ _ _ Hl)) as [_ [=]].
  - rewrite (Lookup_spec s r n c [w] [dot; dot; slash] Hwf Hc Hl).
    + pose proof (located_words _ _ _ _ Hl) as Hg. apply Forall_cons_1 in Hg as [(Hw & Hk & _) _].
      unfold target. change (has_root [dot; dot; slash]) with false. cbv iota. change (split U [dot; dot; slash]) with [[dot; dot]].
      assert (E1 : resolve_step true [] w = [w]) by (unfold resolve_step; by rewrite Hk).
      assert (E2 : resolve_step true [w] [dot; dot] = []).
      { unfold resolve_step. change (kind [dot; dot]) with CWK_BACK. cbv iota. by rewrite decide_False by congruence. }
      unfold resolve. cbn [app foldl]. by rewrite E1, E2.
    + set_solver.
    + unfold tree_path. cbn. rewrite app_nil_r. lia.
    + by intros [?|?].
Qed.

(** ** New nodes *)

(** The node that searches for its path find, now and later. *)
Definition current s r n ws : Prop :=
  forall s', grows (nodes s) (nodes s') -> descend unset_flag r ws s' = Ret (Go (Some n, 0), s').

Lemma descend_app ws1 ws2 : forall s n, descend unset_flag n (ws1 ++ ws2) s =
  let! res := descend unset_flag n ws1 s in
  match res with
  | (Go (Some k, _), s') => descend unset_flag k ws2 s'
  | res => Ret res
  end.
Proof using Type.
  induction ws1 as [|w ws1 IH]; intros s n; cbn [descend app]; [done|].
  destruct (nodes s !! n) as [c|]; [|done]. destruct (cached (nodes s) w (Children c)) as [k|]; [apply IH|].
  destruct (fsi c) as [f|]; [|done]. destruct (op_Lookup _) as [lookup|]; [|done].
  destruct (lookup (inode c) w (disk s)) as [[[ret ino] d]| |]; cbn [obind]; try done. cbv zeta.
  destruct (negb (ret =? 0)); [done|]. apply IH.
Qed.

Lemma target_child ws w : Forall good_word ws -> good_word w -> target ws w = ws ++ [w].
Proof using Type.
  intros Hws Hw. unfold target.
  assert (Hr : has_root w = false).
  { destruct Hw as ([Hn Hp] & _ & _). destruct w as [|c w]; [done|]. apply Forall_cons_1 in Hp as [Hc _].
    unfold sep in Hc. cbn [separators existsb] in Hc. rewrite orb_false_r, Z.eqb_sym in Hc. done. }
  rewrite Hr, (split_word U w) by apply Hw. apply resolve_fixed. exists (reverse (ws ++ [w])), []. rewrite app_nil_r.
  split_and!; [done| |constructor|done]. apply Forall_reverse, Forall_app. split; [|constructor; [apply Hw|constructor]].
  eapply list.Forall_impl; [exact Hws|]. by intros v (_ & ? & _).
Qed.

Lemma good_not_special w : good_word w -> ~ special w.
Proof using Type. intros (_ & Hk & _) [->| ->]; done. Qed.

(** Searching a name in a directory. *)
Lemma Lookup_name s r n c ws w : wf s -> nodes s !! n = Some c -> located (nodes s) r n ws -> current s r n ws ->
  good_word w -> Z.of_nat (length (tree_path ws) + length w) < 2 ^ 31 - 3 -> look n w s = descend unset_flag n [w] s.
Proof using HA allocate_length.
  intros Hwf Hc Hl Hcur Hw Hlen. pose proof (located_words _ _ _ _ Hl) as Hws.
  rewrite (Lookup_spec s r n c ws w) by (first [done|apply Hw|by apply good_not_special]).
  rewrite target_child by done.
  replace (descend unset_flag n [w] s) with (descend unset_flag r (ws ++ [w]) s).
  - by destruct (ws ++ [w]) eqn:E; [destruct ws|].
  - rewrite descend_app. rewrite (Hcur s (tree_grows_refl _)). done.
Qed.

Lemma child_path_spec c ws w : Forall good_word ws -> good_word w -> Path c = Some (tree_path ws) ->
  Z.of_nat (length (tree_path ws) + length w) < 2 ^ 31 - 4 -> child_path allocate U c w = Ret (tree_path (ws ++ [w])).
Proof using allocate_length.
  intros Hws Hw Hp Hlen. unfold child_path. rewrite Hp. change (chars_of (Some ?x)) with x.
  assert (E : (if decide (tree_path ws = root_path) then slash :: w else tree_path ws ++ slash :: w) = tree_path (ws ++ [w])).
  { rewrite <- (tree_path_snoc ws w Hws). unfold extend_path. case_decide as H; [by rewrite H|done]. }
  rewrite E. pose proof (Forall_app_2 _ _ _ Hws (Forall_cons_2 _ _ _ Hw (Forall_nil_2 _))) as Hws'.
  rewrite (NormalizePath_single allocate allocate_length).
  - f_equal. unfold normal_form. cbn [has_root tree_path Z.eqb]. change (slash =? slash) with true. cbv iota.
    rewrite words_cons. cbn [words map concat]. rewrite app_nil_r. fold (tree_path (ws ++ [w])). rewrite split_tree_path by done.
    pose proof (target_child ws w Hws Hw) as Ht. unfold tree_path. do 2 f_equal. apply resolve_fixed.
    exists (reverse (ws ++ [w])), []. rewrite app_nil_r. split_and!; [done| |constructor|done].
    apply Forall_reverse. eapply list.Forall_impl; [exact Hws'|]. by intros v (_ & ? & _).
  - by apply tree_path_no_nul.
  - rewrite <- E. unfold tree_path in Hlen. case_decide; rewrite ?length_app; cbn [length] in *; unfold tree_path; cbn [length]; lia.
Qed.

(** What a search of one name leaves as it was. *)
Lemma Lookup_missed s r n c f ws w e s1 : wf s -> nodes s !! n = Some c -> located (nodes s) r n ws -> current s r n ws ->
  good_word w -> Z.of_nat (length (tree_path ws) + length w) < 2 ^ 31 - 3 -> fsi c = Some f ->
  look n w s = Ret (Go e, s1) -> found e = false ->
  nodes s1 = nodes s /\ next_node s1 = next_node s /\ wf s1 /\ cached (nodes s) w (Children c) = None.
Proof using HA allocate_length.
  intros Hwf Hc Hl Hcur Hw Hlen Hf Hlook He. rewrite (Lookup_name s r n c ws w) in Hlook by done.
  cbn [descend] in Hlook. rewrite Hc, Hf in Hlook.
  destruct (cached (nodes s) w (Children c)) as [k|]; [injection Hlook as <- <-; done|].
  destruct (op_Lookup (Ops (fs_info f))) as [lookup|] eqn:Hop; [|injection Hlook as _ <-; done].
  destruct (lookup_law f lookup (inode c) w (disk s) Hop (wf_inode _ Hwf _ _ Hc) Hw) as (ret & ino & d & E & _ & Hkeep).
  rewrite E in Hlook. cbn [obind] in Hlook. cbv zeta in Hlook. destruct (negb (ret =? 0)); injection Hlook as <- <-; [|done].
  split_and!; [done..|by apply wf_with_disk|done].
Qed.

(** What [Create] makes of a name that is not taken. *)
Record created s r n f ws w (k : Z) (ino : Z) (d : D) s' : Prop := Created {
  created_fresh : nodes s !! k = None;
  created_node : nodes s' !! k = Some (Node ino (Some f) (unset_flag k) (Some w) (Some (tree_path (ws ++ [w]))) None (Some n) []);
  created_disk : disk s' = d;
  created_located : located (nodes s') r k (ws ++ [w]);
  created_wf : wf s';
  created_grows : grows (nodes s) (nodes s');
  created_current : current s' r k (ws ++ [w])
}.

Lemma Create_new s r n c f ws w mode flag e s1 create ino d : wf s -> nodes s !! n = Some c -> located (nodes s) r n ws ->
  current s r n ws -> good_word w -> Z.of_nat (length (tree_path ws) + length w) < 2 ^ 31 - 4 ->
  fsi c = Some f -> look n w s = Ret (Go e, s1) -> found e = false -> op_Create (Ops (fs_info f)) = Some create ->
  room (disk s1) -> create (inode c) w mode (disk s1) = Ret (0, ino, d) ->
  exists k s', Create allocate unset_flag U n w mode flag s = Ret (Go (Some k, 0), s') /\ created s r n f ws w k ino d s'.
Proof using HA allocate_length.
  intros Hwf Hc Hl Hcur Hw Hlen Hf Hlook He Hop Hroom Hcreate. pose proof (located_words _ _ _ _ Hl) as Hws.
  destruct (located_lookup _ _ _ _ Hl) as (c' & Hc' & Hpath). replace c' with c in * by congruence. clear c' Hc'.
  destruct (Lookup_missed s r n c f ws w e s1) as (Hn1 & Hk1 & Hwf1 & Hmiss); try done; [lia|].
  assert (Hc1 : nodes s1 !! n = Some c) by (by rewrite Hn1).
  assert (Hl1 : located (nodes s1) r n ws) by (by rewrite Hn1).
  destruct (create_law f create (inode c) w mode (disk s1) ino d Hop (wf_inode _ Hwf1 _ _ Hc1) Hw Hroom Hcreate) as [Hino Hkeep].
  pose proof (wf_with_disk s1 d Hkeep Hwf1) as Hwfd.
  destruct (new_child_spec unset_flag (with_disk d s1) n c r ws ino w Hwfd Hc1 Hl1 Hw Hino) as (Hwf2 & Hg2 & Hl2 & Hcached).
  rewrite Hpath in Hwf2, Hg2, Hl2, Hcached. change (chars_of (Some (tree_path ws))) with (tree_path ws) in *.
  rewrite (tree_path_snoc ws w Hws) in Hwf2, Hg2, Hl2, Hcached.
  set (s2 := new_child unset_flag n c ino w (tree_path (ws ++ [w])) (with_disk d s1)) in *.
  assert (Hg : grows (nodes s) (nodes s2)) by (by rewrite <- Hn1).
  exists (next_node s1), s2. split; [|split; try done].
  - unfold Create. erewrite bind_go by exact Hlook. rewrite He. erewrite bind_go by (by apply get_node_some).
    unfold ops_of. rewrite Hf. erewrite bind_go by reflexivity. rewrite Hop.
    erewrite bind_go; [|unfold on_disk; rewrite Hcreate; reflexivity]. cbn [fst snd Z.eqb negb].
    apply (create_child_run (with_disk d s1) n c ino w (tree_path (ws ++ [w])) (fun q : NodeCache => child_path allocate U q w)); [done| |].
    + by eapply (wf_next _ Hwf1).
    + intros l. by apply child_path_spec.
  - rewrite Hk1. destruct (nodes s !! next_node s) as [x|] eqn:E; [|done]. apply (wf_next _ Hwf) in E. lia.
  - unfold s2, new_child. cbn [nodes next_node with_disk]. by rewrite lookup_insert_eq, Hf.
  - intros s3 Hg3. rewrite descend_app, (Hcur s3) by (by eapply tree_grows_trans). cbn [obind descend].
    destruct (Hg2 n c Hc1) as (c2 & Hc2 & _). rewrite <- Hn1 in Hmiss. specialize (Hcached Hmiss c2 Hc2).
    destruct (Hg3 n c2 Hc2) as (c3 & -> & [_ _ _ _ _ [l ->]]). by rewrite (cached_grows _ _ _ _ l _ Hg3 Hcached).
Qed.

(** A node that searches find is found by every path that leads to it. *)
Lemma current_lookup s r k ws n c ws' p : wf s -> current s r k ws -> nodes s !! n = Some c -> located (nodes s) r n ws' ->
  0 ∉ p -> Z.of_nat (length (tree_path ws') + length p) < 2 ^ 31 - 3 -> ~ special p -> target ws' p = ws -> ws <> [] ->
  look n p s = Ret (Go (Some k, 0), s).
Proof using HA allocate_length.
  intros Hwf Hcur Hc Hl H0 Hlen Hsp Ht Hne. rewrite (Lookup_spec s r n c ws' p), Ht by done.
  specialize (Hcur s (tree_grows_refl _)). by destruct ws.
Qed.

(** C11: creating a file.  For a directory that searches find and a name that is
    one word: if the name is taken, [Create] answers [K_EEXIST] and adds nothing;
    if it is not and the file system makes the file, the result is a new node
    below the directory, with the inode that was made, the path of the directory
    followed by the name, and the file system of the directory; the tree stays
    well-formed, every node that was there stays where it was, and from then on
    every path that leads to the new file, searched from anywhere in the tree,
    finds this node without asking the file system. *)
Theorem Create_correct s r n c f ws w mode e s1 : wf s -> nodes s !! n = Some c -> located (nodes s) r n ws ->
  current s r n ws -> good_word w -> Z.of_nat (length (tree_path ws) + length w) < 2 ^ 31 - 4 ->
  fsi c = Some f -> look n w s = Ret (Go e, s1) ->
  (found e = true -> Create allocate unset_flag U n w mode true s = Ret (Go (None, K_EEXIST), s1)) /\
  (found e = false -> forall create ino d, op_Create (Ops (fs_info f)) = Some create -> room (disk s1) ->
     create (inode c) w mode (disk s1) = Ret (0, ino, d) ->
     exists k s', Create allocate unset_flag U n w mode true s = Ret (Go (Some k, 0), s') /\
       nodes s !! k = None /\ disk s' = d /\ wf s' /\ grows (nodes s) (nodes s') /\ located (nodes s') r k (ws ++ [w]) /\
       nodes s' !! k = Some (Node ino (Some f) (unset_flag k) (Some w) (Some (tree_path (ws ++ [w]))) None (Some n) []) /\
       forall s'' m cm ws' p, wf s'' -> grows (nodes s') (nodes s'') -> nodes s'' !! m = Some cm ->
         located (nodes s'') r m ws' -> 0 ∉ p -> Z.of_nat (length (tree_path ws') + length p) < 2 ^ 31 - 3 -> ~ special p ->
         target ws' p = ws ++ [w] -> look m p s'' = Ret (Go (Some k, 0), s'')).
Proof using HA allocate_length.
  intros Hwf Hc Hl Hcur Hw Hlen Hf Hlook. split.
  - intros He. unfold Create. erewrite bind_go by exact Hlook. by rewrite He.
  - intros He create ino d Hop Hroom Hcreate.
    destruct (Create_new s r n c f ws w mode true e s1 create ino d) as (k & s' & E & []); try done.
    exists k, s'. split_and!; try done. intros s'' m cm ws' p Hwf' Hg Hm Hlm H0 Hlen' Hsp Ht.
    apply (current_lookup s'' r k (ws ++ [w]) m cm ws' p); try done; [|by destruct ws].
    intros s3 Hg3. apply created_current0. by eapply tree_grows_trans.
Qed.
End lookup.
