(* ===== verification/KRamfs.v ===== *)
(** * The file system in memory

    The model of [src/Kernel/fs/ramfs.cpp] and [include/fs/ramfs.hpp], and the
    instance of the file systems below the virtual one that it makes.

    A [RAMFSInode *] is a key of the heap of inodes (an [Inode *] is the same
    pointer, for [Node] is the first member), a [RAMFS *] a key of the heap of
    file systems; 0 is the null pointer.  Allocations succeed, and [allocate]
    gives the bytes of a new block.  A failed assertion stops the kernel and a
    thrown exception is not caught: both are [Fault] here.  Names are strings
    without a NUL. *)

From S2P Require Import Prelude CMem CMonad KPath KString KHashMap KVfs.

Definition S_IFSOCK : Z := 49152.
Definition S_IFBLK : Z := 24576.
Definition S_IFCHR : Z := 8192.
Definition S_IFIFO : Z := 4096.

Definition DT_FIFO : Z := 1.
Definition DT_CHR : Z := 2.
Definition DT_DIR : Z := 4.
Definition DT_BLK : Z := 6.
Definition DT_REG : Z := 8.
Definition DT_LNK : Z := 10.
Definition DT_SOCK : Z := 12.

(** [struct Inode] *)
Record Inode : Type := MkInode {
  i_Device : Z; i_RawDevice : Z; i_Index : Z; i_Mode : Z; i_Flags : Z; i_Offset : Z; i_PrivateData : Z
}.

(** [class RAMFSInode]; of [InodeBuffer] the block [Data], whose size is
    [DataSize]. *)
Record RAMFSInode : Type := RInode {
  r_Node : Inode;
  r_Parent : option Z;
  r_Name : list Z;
  r_Stat : kstat;
  r_Mode : Z;
  r_Buffer : option (list Z);
  r_SymLink : option (list Z);
  r_Children : list Z
}.

(** [class RAMFS] *)
Record RAMFS : Type := MkRAMFS {
  Files : unordered_map Z Z;
  DeviceID : Z;
  NextInode : Z;
  RootName : list Z
}.

Record ram : Type := Ram {
  systems : gmap Z RAMFS;
  inodes : gmap Z RAMFSInode;
  next_inode : Z
}.

Definition ram_new : ram := Ram ∅ ∅ 1.

Definition the_system (self : Z) (h : ram) : outcome RAMFS :=
  match systems h !! self with Some r => Ret r | None => Fault end.
Definition the_inode (i : Z) (h : ram) : outcome RAMFSInode :=
  match inodes h !! i with Some n => Ret n | None => Fault end.
Definition set_system (self : Z) (r : RAMFS) (h : ram) : ram := Ram (<[self := r]> (systems h)) (inodes h) (next_inode h).
Definition set_inode (i : Z) (n : RAMFSInode) (h : ram) : ram := Ram (systems h) (<[i := n]> (inodes h)) (next_inode h).

Definition with_size (size_ : Z) (k : kstat) : kstat :=
  KStat (st_Device k) (st_Index k) (st_Mode k) (st_HardLinks k) (st_UserID k) (st_GroupID k) (st_RawDevice k) size_
    (st_AccessTime k) (st_ModifyTime k) (st_ChangeTime k) (st_BlockSize k) (st_Blocks k) (st_Attribute k).
Definition with_buffer (b : option (list Z)) (n : RAMFSInode) : RAMFSInode :=
  RInode (r_Node n) (r_Parent n) (r_Name n) (r_Stat n) (r_Mode n) b (r_SymLink n) (r_Children n).
Definition with_stat (k : kstat) (n : RAMFSInode) : RAMFSInode :=
  RInode (r_Node n) (r_Parent n) (r_Name n) k (r_Mode n) (r_Buffer n) (r_SymLink n) (r_Children n).
Definition with_symlink (l : list Z) (n : RAMFSInode) : RAMFSInode :=
  RInode (r_Node n) (r_Parent n) (r_Name n) (r_Stat n) (r_Mode n) (r_Buffer n) (Some l) (r_Children n).

(** [Files.find (Node->Index)], asserted to be there *)
Definition file_at (self index : Z) (h : ram) : outcome (Z * ram) :=
  let! r := the_system self h in
  let '(v, files) := umap_find hash_u64 (Files r) index in
  match v with
  | Some i => Ret (i, set_system self (MkRAMFS files (DeviceID r) (NextInode r) (RootName r)) h)
  | None => Fault
  end.

Definition file_of (i : Z) (h : ram) : outcome (Z * RAMFSInode * ram) :=
  let! n := the_inode i h in
  let! (k, h) := file_at (i_PrivateData (r_Node n)) (i_Index (r_Node n)) h in
  let! n := the_inode k h in
  Ret (k, n, h).

(** [AddChild] *)
Definition AddChild (self child : Z) (h : ram) : outcome ram :=
  let! n := the_inode self h in
  let h := set_inode self (RInode (r_Node n) (r_Parent n) (r_Name n) (r_Stat n) (r_Mode n) (r_Buffer n) (r_SymLink n)
                            (r_Children n ++ [child])) h in
  let! c := the_inode child h in
  Ret (set_inode child (RInode (r_Node c) (Some self) (r_Name c) (r_Stat c) (r_Mode c) (r_Buffer c) (r_SymLink c) (r_Children c)) h).

(** [RemoveChild] *)
Fixpoint erase_pointer (k : Z) (l : list Z) : list Z :=
  match l with
  | [] => []
  | i :: l => if i =? k then l else i :: erase_pointer k l
  end.

Definition RemoveChild (self child : Z) (h : ram) : outcome ram :=
  let! n := the_inode self h in
  if decide (child ∈ r_Children n) then
    let h := set_inode self (RInode (r_Node n) (r_Parent n) (r_Name n) (r_Stat n) (r_Mode n) (r_Buffer n) (r_SymLink n)
                              (erase_pointer child (r_Children n))) h in
    let! c := the_inode child h in
    Ret (set_inode child (RInode (r_Node c) None (r_Name c) (r_Stat c) (r_Mode c) (r_Buffer c) (r_SymLink c) (r_Children c)) h)
  else Ret h.

(** [delete inode]: the destructor deletes the children first; the table of
    files and the list of the parent keep their pointers. *)
Fixpoint delete_inode (fuel : nat) (i : Z) (h : ram) : outcome ram :=
  match fuel with
  | O => OutOfFuel
  | S fuel =>
    let! n := the_inode i h in
    let! h := (fix delete_all (l : list Z) (h : ram) : outcome ram :=
                 match l with
                 | [] => Ret h
                 | k :: l => let! h := delete_inode fuel k h in delete_all l h
                 end) (r_Children n) h in
    Ret (Ram (systems h) (delete i (inodes h)) (next_inode h))
  end.

Definition ramfs_DestroyInode (i : Z) (h : ram) : outcome (Z * ram) :=
  let! h := delete_inode (S (size (inodes h))) i h in Ret (0, h).

Section ramfs.
Context (allocate : Z -> list Z) (path_style : cwk_path_style) (unset : FileSystemInfo ram).

(** [InodeBuffer::Allocate] *)
Definition Allocate (b : option (list Z)) (size_ : Z) (extend atEnd : bool) : outcome (option (list Z)) :=
  if extend then
    match b with
    | None => Ret (Some (allocate size_))
    | Some data =>
      copy_to (Some (allocate (u64 (Z.of_nat (length data) + size_)))) (if atEnd then 0 else size_) data
    end
  else Ret (Some (allocate size_)).

(** The first inode of a list with a name *)
Fixpoint find_name (h : ram) (name : list Z) (l : list Z) : outcome (option Z) :=
  match l with
  | [] => Ret None
  | i :: l => let! n := the_inode i h in if decide (r_Name n = name) then Ret (Some i) else find_name h name l
  end.

Definition ramfs_Lookup (self parent : Z) (name : list Z) (h : ram) : outcome (Z * Z * ram) :=
  let! base := cwk_path_get_basename path_style name in
  match base with
  | None =>
    let! r := the_system self h in
    if decide (name = RootName r) then let! (i, h) := file_at self 0 h in Ret (0, i, h)
    else Ret (- K_EINVAL, 0, h)
  | Some (b, _) =>
    let basename := drop (Z.to_nat b) name in
    let! l := if parent =? 0 then let! r := the_system self h in Ret (snd <$> umap_elements (Files r))
              else let! p := the_inode parent h in Ret (r_Children p) in
    let! found_ := find_name h basename l in
    Ret (match found_ with Some i => (0, i, h) | None => (- K_ENOENT, 0, h) end)
  end.

Definition ramfs_Create (self parent : Z) (name : list Z) (mode : Z) (h : ram) : outcome (Z * Z * ram) :=
  let! r := the_system self h in
  let inode_ := MkInode (DeviceID r) 0 (NextInode r) mode 0 0 self in
  let! base := cwk_path_get_basename path_style name in
  let! basename := match base with Some (b, length_) => chars name b length_ | None => Ret [] end in
  let i := next_inode h in
  let h := Ram (systems h) (<[i := RInode inode_ None basename no_stat mode None None []]> (inodes h)) (i + 1) in
  let '(inserted, files) := umap_insert hash_u64 (Files r) (NextInode r) i in
  if negb inserted then Fault
  else
    let '(v, files) := umap_at hash_u64 files (NextInode r) in
    match v with
    | None => Fault
    | Some result =>
      let h := set_system self (MkRAMFS files (DeviceID r) (NextInode r) (RootName r)) h in
      let! h := if parent =? 0 then Ret h else AddChild parent i h in
      let! r := the_system self h in
      Ret (0, result, set_system self (MkRAMFS (Files r) (DeviceID r) (u64 (NextInode r + 1)) (RootName r)) h)
    end.

(** [Read] stores what it copies in the caller's buffer, however long that is. *)
Definition ramfs_Read (i size_ offset : Z) (h : ram) : outcome (Z * list Z * ram) :=
  let! (_, node, h) := file_of i h in
  let fileSize := u64 (st_Size (r_Stat node)) in
  let size_ := if size_ <=? 0 then fileSize else size_ in
  if u64 offset >? fileSize then Ret (0, [], h)
  else if u64 (fileSize - offset) =? 0 then Ret (0, [], h)
  else
    let size_ := if u64 (u64 offset + size_) >? fileSize then fileSize else size_ in
    let! l := bytes_of (r_Buffer node) 0 size_ in
    Ret (size_, l, h).

Definition ramfs_Write (i : Z) (buffer : list Z) (offset : Z) (h : ram) : outcome (Z * ram) :=
  let! (k, node, h) := file_of i h in
  let size_ := Z.of_nat (length buffer) in
  let! b := match r_Buffer node with
            | None => Allocate None (u64 (st_Size (r_Stat node))) false true
            | b => Ret b
            end in
  let h := set_inode k (with_buffer b node) h in
  let fileSize := u64 (st_Size (r_Stat node)) in
  if size_ <=? 0 then Ret (- K_EINVAL, h)
  else
    let! b := if u64 offset >? fileSize then Allocate b (u64 (offset + size_)) true true else Ret b in
    let! b := if u64 (fileSize - offset) =? 0 then Allocate b size_ true true else Ret b in
    let! b := if u64 (u64 offset + size_) >? fileSize then Allocate b (u64 (offset + size_)) true true else Ret b in
    let! b := copy_to b offset buffer in
    Ret (size_, set_inode k (with_stat (with_size (s64 size_) (r_Stat node)) (with_buffer b node)) h).

(** The type of a directory entry *)
Definition entry_type (mode : Z) : Z :=
  if is_type S_IFREG mode then DT_REG
  else if is_type S_IFDIR mode then DT_DIR
  else if is_type S_IFLNK mode then DT_LNK
  else if is_type S_IFCHR mode then DT_CHR
  else if is_type S_IFBLK mode then DT_BLK
  else if is_type S_IFIFO mode then DT_FIFO
  else if is_type S_IFSOCK mode then DT_SOCK
  else DT_UNKNOWN.

(** The loop over the children: the entries that are stored, one after the
    other, and the size of all of them. *)
Fixpoint read_children (h : ram) (size_ offset max entries total : Z) (l : list Z) : outcome (Z * list kdirent) :=
  match l with
  | [] => Ret (total, [])
  | i :: l =>
    let! var := the_inode i h in
    if i_Offset (r_Node var) <? offset then read_children h size_ offset max entries total l
    else if entries >=? max then Ret (total, [])
    else
      let len := reclen (r_Name var) in
      if total + len >=? size_ then Ret (total, [])
      else
        let ent := Dirent (i_Index (r_Node var)) (i_Offset (r_Node var)) len (entry_type (st_Mode (r_Stat var))) (r_Name var) in
        let! (total, ents) := read_children h size_ offset max (entries + 1) (total + len) l in
        Ret (total, ent :: ents)
  end.

(** The entries before the last one that is cleared. *)
Definition ramfs_ReadDir (i size_ offset max : Z) (h : ram) : outcome (Z * list kdirent) :=
  let! node := the_inode i h in
  let l1 := reclen [dot] in
  let l2 := reclen [dot; dot] in
  if (offset =? 0) && (l1 >=? size_) then Ret (- K_EINVAL, [])
  else
    let ents1 := if offset =? 0 then [Dirent (i_Index (r_Node node)) 0 l1 DT_DIR [dot]] else [] in
    let total1 := if offset =? 0 then l1 else 0 in
    let offset1 := if offset =? 0 then 1 else offset in
    if (offset1 <=? 1) && (total1 + l2 >=? size_) then
      Ret (if offset =? 1 then (- K_EINVAL, []) else (total1, ents1))
    else
      let! ents2 :=
        if offset1 <=? 1 then
          let! up := match r_Parent node with
                     | Some p => let! p := the_inode p h in Ret (i_Index (r_Node p))
                     | None => Ret (i_Index (r_Node node))
                     end in
          Ret [Dirent up offset1 l2 DT_DIR [dot; dot]]
        else Ret [] in
      let total2 := if offset1 <=? 1 then total1 + l2 else total1 in
      let offset2 := if offset1 <=? 1 then offset1 + 1 else offset1 in
      if negb (is_type S_IFDIR (i_Mode (r_Node node))) then Ret (- K_ENOTDIR, ents1 ++ ents2)
      else if (if offset2 >=? 2 then offset2 - 2 else offset2) >? Z.of_nat (length (r_Children node))
      then Ret (- K_EINVAL, ents1 ++ ents2)
      else
        let! (total, ents) := read_children h size_ offset2 max 0 total2 (r_Children node) in
        Ret (total, ents1 ++ ents2 ++ ents).

Definition ramfs_SymLink (self parent : Z) (name target : list Z) (h : ram) : outcome (Z * Z * ram) :=
  let! (ret, i, h) := ramfs_Create self parent name S_IFLNK h in
  if ret <? 0 then Ret (ret, i, h)
  else
    let! n := the_inode i h in
    Ret (0, i, set_inode i (with_symlink target n) h).

(** [ReadLink] with the kernel's [strncpy], which ends what it copies with a NUL. *)
Definition ramfs_ReadLink (i size_ : Z) (h : ram) : outcome (Z * list Z * ram) :=
  let! (_, node, h) := file_of i h in
  match r_SymLink node with
  | None => Fault
  | Some link =>
    let size_ := if Z.of_nat (length link) >? size_ then Z.of_nat (length link) else size_ in
    Ret (size_, take (Z.to_nat size_) link ++ [0], h)
  end.

Definition ramfs_Stat (i : Z) (h : ram) : outcome (Z * kstat * ram) :=
  let! (_, node, h) := file_of i h in
  Ret (0, r_Stat node, h).

(** The functions that the table of operations names *)
Definition in_system {A} (i : Z) (f : Z -> ram -> outcome A) (h : ram) : outcome A :=
  let! n := the_inode i h in f (i_PrivateData (r_Node n)) h.

(** The table comes from [new FileSystemInfo], which initialises nothing: the
    pointers that are not stored afterwards are those of [unset], whatever the
    block held. *)
Definition ramfs_ops : InodeOperations ram :=
  InodeOps (Some (fun parent name => in_system parent (fun self => ramfs_Lookup self parent name)))
    (Some (fun parent name mode => in_system parent (fun self => ramfs_Create self parent name mode)))
    (op_Remove (Ops unset)) (op_Rename (Ops unset)) (Some ramfs_Read) (Some ramfs_Write) (op_Truncate (Ops unset))
    (op_Open (Ops unset)) (op_Close (Ops unset)) (Some ramfs_ReadLink) (op_Seek (Ops unset)) (Some ramfs_Stat)
    (Some (fun i size_ offset max h => let! r := ramfs_ReadDir i size_ offset max h in Ret (r, h))) (op_Ioctl (Ops unset)).

(** [delete] of the file system; its inodes are left alone. *)
Definition ramfs_Destroy (self : Z) (h : ram) : outcome (Z * ram) :=
  let! _ := the_system self h in
  Ret (0, Ram (delete self (systems h)) (inodes h) (next_inode h)).

#[local] Instance ramfs_files : FileSystems ram := {
  fs_info f := FSInfo ramfs_ops (super_Synchronize unset) (Some (ramfs_Destroy f)) (super_Mount unset) (super_Probe unset);
  inode_mode h i := let! n := the_inode i h in Ret (i_Mode (r_Node n));
  inode_index h i := let! n := the_inode i h in Ret (i_Index (r_Node n))
}.

(** [MountAndRootRAMFS]: a new file system [self], mounted below a node and
    made a root. *)
Definition MountAndRootRAMFS (unset_flag : Z -> bool) (self parent : Z) (name : list Z) (index : Z) : ST (Virtual ram) bool :=
  device ← RegisterFileSystem self;
  on_disk (fun h => Ret (tt, set_system self (MkRAMFS umap_empty device 0 name) h));;
  root ← on_disk (fun h => let! (_, i, h) := ramfs_Create self 0 name (Z.lor S_IFDIR 493) h in Ret (i, h));
  _ ← Mount allocate unset_flag path_style parent root name self;
  n ← Convert unset_flag root;
  _ ← AddRoot index n false;
  mret true.
End ramfs.
