(* ===== verification/KRamfsTheorems.v ===== *)
(** * What the file system in memory keeps

    The invariant of [KRamfs], the laws that the virtual file system relies on
    ([Lawful]), what is read after a write, and the two together: a file that
    was created and written is read back through every path that leads to it. *)

From S2P Require Import Prelude CMem CMonad KPath KPathWords KPathNormal KString KHashMap KVfs KVfsTree KVfsLookup KRamfs.

(** The size that is recorded fits in the block; the offset and the mode of
    [Stat] are never set. *)
Record inode_ok (n : RAMFSInode) : Prop := InodeOk {
  ok_size : 0 <= st_Size (r_Stat n) <= Z.of_nat (length (default [] (r_Buffer n)));
  ok_width : st_Size (r_Stat n) < 2 ^ 63;
  ok_offset : i_Offset (r_Node n) = 0;
  ok_mode : st_Mode (r_Stat n) = 0
}.

Definition system_of (n : RAMFSInode) : Z := i_PrivateData (r_Node n).
Definition index_in (n : RAMFSInode) : Z := i_Index (r_Node n).

(** The table of a file system lists exactly its inodes, each at its index. *)
Definition lists (h : ram) (self : Z) (r : RAMFS) (g : gmap Z Z) : Prop :=
  repr hash_u64 (Files r) g /\ Z.of_nat (size g) <= NextInode r /\ (forall x, is_Some (g !! x) -> 0 <= x < NextInode r) /\
  forall x i, g !! x = Some i <-> exists n, inodes h !! i = Some n /\ system_of n = self /\ index_in n = x.

Record ram_wf (h : ram) : Prop := RamWf {
  rw_system : forall self r, systems h !! self = Some r -> exists g, lists h self r g;
  rw_ok : forall i n, inodes h !! i = Some n -> inode_ok n;
  rw_next : forall i n, inodes h !! i = Some n -> 0 < i < next_inode h;
  rw_pos : 0 < next_inode h;
  rw_children : forall i n k, inodes h !! i = Some n -> k ∈ r_Children n ->
    exists c, inodes h !! k = Some c /\ system_of c = system_of n /\ r_Parent c = Some i;
  rw_parent : forall i n p, inodes h !! i = Some n -> r_Parent n = Some p -> is_Some (inodes h !! p)
}.

(** An inode of a file system that is there *)
Definition alive (h : ram) (i : Z) : Prop :=
  ram_wf h /\ exists n, inodes h !! i = Some n /\ is_Some (systems h !! system_of n).

Definition ram_room (h : ram) : Prop := forall self r, systems h !! self = Some r -> NextInode r + 1 < 2 ^ 64.

Lemma ram_new_wf : ram_wf ram_new.
Proof. split; try done. Qed.

Lemma basename_word w : good_word w -> cwk_path_get_basename U w = Ret (Some (0, Z.of_nat (length w))).
Proof.
  intros (Hw & _ & H0). pose proof (basename_spec w H0) as H. rewrite (split_word U w Hw) in H.
  destruct (cwk_path_get_basename U w) as [[[b k]|]| |]; try done.
  destruct H as (pre & v & E & -> & Hb & Ht & _).
  destruct pre as [|x [|? ?]]; try done. injection E as <-. rewrite Nat2Z.id in Ht. apply (f_equal length) in Ht.
  rewrite length_take, length_drop in Ht. destruct Hw as [Hne _]. destruct w; [done|]. cbn [length] in *.
  assert (b = 0) as -> by lia. done.
Qed.

(** ** Searches *)

Lemma find_name_spec h w l : (forall k, k ∈ l -> is_Some (inodes h !! k)) ->
  exists res, find_name h w l = Ret res /\
    match res with
    | Some k => k ∈ l /\ exists c, inodes h !! k = Some c /\ r_Name c = w
    | None => forall k c, k ∈ l -> inodes h !! k = Some c -> r_Name c <> w
    end.
Proof.
  induction l as [|k l IH]; intros Hl; cbn [find_name]; [exists None; split; [done|]; intros k c Hk; by apply not_elem_of_nil in Hk|].
  destruct (Hl k ltac:(set_solver)) as [c Hc]. unfold the_inode at 1. rewrite Hc. cbn [obind]. case_decide as Hd.
  - exists (Some k). split; [done|]. split; [set_solver|]. by exists c.
  - destruct IH as (res & -> & Hres); [intros j Hj; apply Hl; set_solver|]. exists res. split; [done|]. destruct res as [j|].
    + destruct Hres as [Hj Hex]. split; [set_solver|done].
    + intros j d [->|Hj]%elem_of_cons Hd'; [congruence|by eapply Hres].
Qed.

Lemma ramfs_Lookup_spec h self i n w : ram_wf h -> inodes h !! i = Some n -> good_word w ->
  exists res, ramfs_Lookup U self i w h = Ret (match res with Some k => (0, k, h) | None => (- K_ENOENT, 0, h) end) /\
    match res with
    | Some k => k ∈ r_Children n /\ exists c, inodes h !! k = Some c /\ r_Name c = w
    | None => forall k c, k ∈ r_Children n -> inodes h !! k = Some c -> r_Name c <> w
    end.
Proof.
  intros Hwf Hi Hw. unfold ramfs_Lookup. rewrite basename_word by done. cbn [obind]. cbv zeta. change (Z.to_nat 0) with 0%nat. rewrite drop_0.
  pose proof (rw_next _ Hwf _ _ Hi) as Hpos. rewrite (proj2 (Z.eqb_neq i 0)) by lia. unfold the_inode at 1. rewrite Hi. cbn [obind].
  destruct (find_name_spec h w (r_Children n)) as (res & -> & Hres).
  { intros k Hk. destruct (rw_children _ Hwf _ _ _ Hi Hk) as (c & Hc & _). by eexists. }
  exists res. split; [by destruct res|done].
Qed.

(** ** New inodes *)

Section ramfs.
Context (allocate : Z -> list Z).
Hypothesis allocate_length : forall n, 0 <= n -> length (allocate n) = Z.to_nat n.

Definition new_inode (r : RAMFS) (self parent : Z) (w : list Z) (mode : Z) : RAMFSInode :=
  RInode (MkInode (DeviceID r) 0 (NextInode r) mode 0 0 self) (if parent =? 0 then None else Some parent) w no_stat mode None None [].

Definition add_child (i : Z) (n : RAMFSInode) : RAMFSInode :=
  RInode (r_Node n) (r_Parent n) (r_Name n) (r_Stat n) (r_Mode n) (r_Buffer n) (r_SymLink n) (r_Children n ++ [i]).

Lemma chars_word w : chars w 0 (Z.of_nat (length w)) = Ret w.
Proof using Type.
  pose proof (chars_spec [] w [] (Z.of_nat (length w)) 0 eq_refl ltac:(lia)) as H. cbn [app] in H.
  by rewrite app_nil_r, Nat2Z.id, take_ge in H by done.
Qed.

(** The heap after [Create]. *)
Definition created_store (h : ram) (self parent : Z) (r : RAMFS) (files : unordered_map Z Z) (w : list Z) (mode : Z) : ram :=
  Ram (<[self := MkRAMFS files (DeviceID r) (NextInode r + 1) (RootName r)]> (systems h))
    (<[next_inode h := new_inode r self parent w mode]> (alter (add_child (next_inode h)) parent (inodes h))) (next_inode h + 1).

(** The directory that [Create] is given: none, or one of the file system. *)
Definition parent_ok (h : ram) (self parent : Z) : Prop :=
  parent = 0 \/ exists p, inodes h !! parent = Some p /\ system_of p = self.

Lemma new_file_entry h self r g : ram_wf h -> systems h !! self = Some r -> lists h self r g -> NextInode r + 1 < 2 ^ 64 ->
  exists m files, umap_insert hash_u64 (Files r) (NextInode r) (next_inode h) = (true, m) /\
    umap_at hash_u64 m (NextInode r) = (Some (next_inode h), files) /\ repr hash_u64 files (<[NextInode r := next_inode h]> g).
Proof using Type.
  intros Hwf Hr (Hrep & Hsize & Hb & _) Hroom.
  assert (Hnone : g !! NextInode r = None).
  { destruct (g !! NextInode r) as [i|] eqn:E; [|done]. specialize (Hb (NextInode r) ltac:(by eexists)). lia. }
  destruct (umap_insert_spec hash_u64 (Files r) g (NextInode r) (next_inode h) Hrep) as [Hi Hs]; [rewrite (repr_size _ _ _ Hrep); lia|].
  rewrite bool_decide_eq_true_2 in Hi by done. rewrite decide_True in Hs by done.
  destruct (umap_insert hash_u64 (Files r) (NextInode r) (next_inode h)) as [ins files]. cbn [fst snd] in *. subst ins.
  destruct (umap_find_spec hash_u64 files _ (NextInode r) Hs) as (Hf & Hs' & _). rewrite lookup_insert_eq in Hf. exists files. unfold umap_at.
  destruct (umap_find hash_u64 files (NextInode r)) as [v files']. cbn [fst snd] in *. subst v. by exists files'.
Qed.

Lemma AddChild_new (ss : gmap Z RAMFS) (ns : gmap Z RAMFSInode) k parent p i n : ns !! parent = Some p -> ns !! i = None ->
  AddChild parent i (Ram ss (<[i := n]> ns) k) =
  Ret (Ram ss (<[i := RInode (r_Node n) (Some parent) (r_Name n) (r_Stat n) (r_Mode n) (r_Buffer n) (r_SymLink n) (r_Children n)]>
             (alter (add_child i) parent ns)) k).
Proof using Type.
  intros Hp Hi. assert (Hne : i <> parent) by congruence. unfold AddChild, the_inode. cbn [inodes]. rewrite lookup_insert_ne by done.
  rewrite Hp. cbn [obind]. unfold set_inode. cbn [systems inodes next_inode]. rewrite lookup_insert_ne, lookup_insert_eq by done.
  cbn [obind]. do 2 f_equal. apply map_eq. intros x. destruct (decide (x = i)) as [->|Hx]; [by rewrite !lookup_insert_eq|].
  rewrite (lookup_insert_ne _ i x) by done. rewrite (lookup_insert_ne (alter _ _ _) i x) by done.
  destruct (decide (x = parent)) as [->|Hk].
  - by rewrite lookup_insert_eq, lookup_alter_eq, Hp.
  - by rewrite lookup_insert_ne, lookup_alter_ne, lookup_insert_ne by done.
Qed.

Lemma ramfs_Create_run h self parent r g w mode : ram_wf h -> systems h !! self = Some r -> lists h self r g ->
  NextInode r + 1 < 2 ^ 64 -> good_word w -> parent_ok h self parent ->
  exists files, ramfs_Create U self parent w mode h = Ret (0, next_inode h, created_store h self parent r files w mode) /\
    repr hash_u64 files (<[NextInode r := next_inode h]> g).
Proof using Type.
  intros Hwf Hr Hg Hroom Hw Hp. destruct (new_file_entry h self r g Hwf Hr Hg Hroom) as (m & files & E & Eat & Hrep). exists files. split; [|done].
  assert (Hfresh : inodes h !! next_inode h = None).
  { destruct (inodes h !! next_inode h) as [n|] eqn:En; [|done]. apply (rw_next _ Hwf) in En. lia. }
  assert (H0 : 0 <= NextInode r) by (destruct Hg as (_ & ? & _); lia).
  unfold ramfs_Create, the_system. rewrite Hr. cbn [obind]. cbv zeta. rewrite basename_word by done. cbn [obind].
  rewrite chars_word. cbn [obind]. rewrite E. cbn [negb]. rewrite Eat.
  destruct Hp as [->|(p & Hp & _)].
  - cbn [Z.eqb obind]. cbn [systems set_system]. rewrite lookup_insert_eq. cbn [obind Files DeviceID NextInode RootName].
    unfold created_store, set_system. cbn [systems inodes next_inode]. rewrite insert_insert_eq, uw_small by lia.
    rewrite alter_id; [done|]. intros n Hn. apply (rw_next _ Hwf) in Hn. lia.
  - pose proof (rw_next _ Hwf _ _ Hp) as Hpos. unfold created_store, new_inode. rewrite (proj2 (Z.eqb_neq parent 0)) by lia.
    unfold set_system. cbn [systems inodes next_inode].
    rewrite (AddChild_new _ (inodes h) _ parent p) by done.
    cbn [obind systems inodes next_inode]. rewrite lookup_insert_eq. cbn [obind Files DeviceID NextInode RootName r_Node r_Name r_Stat r_Mode r_Buffer r_SymLink r_Children].
    by rewrite insert_insert_eq, uw_small by lia.
Qed.

Definition grown (parent i x : Z) (n : RAMFSInode) : RAMFSInode := if decide (x = parent) then add_child i n else n.

Lemma grown_same parent i x n : r_Node (grown parent i x n) = r_Node n /\ r_Parent (grown parent i x n) = r_Parent n /\
  r_Stat (grown parent i x n) = r_Stat n /\ r_Buffer (grown parent i x n) = r_Buffer n.
Proof using Type. unfold grown. by case_decide. Qed.

Lemma created_inode h self parent r files w mode x : x <> next_inode h ->
  inodes (created_store h self parent r files w mode) !! x = grown parent (next_inode h) x <$> inodes h !! x.
Proof using Type.
  intros Hx. unfold created_store. cbn [inodes]. rewrite lookup_insert_ne by done. unfold grown. destruct (decide (x = parent)) as [->|Hp].
  - by rewrite lookup_alter_eq.
  - rewrite lookup_alter_ne by done. by destruct (inodes h !! x).
Qed.

Lemma created_inode_new h self parent r files w mode :
  inodes (created_store h self parent r files w mode) !! next_inode h = Some (new_inode r self parent w mode).
Proof using Type. unfold created_store. cbn [inodes]. apply lookup_insert_eq. Qed.

Lemma created_inv h self parent r files w mode x n : ram_wf h ->
  inodes (created_store h self parent r files w mode) !! x = Some n ->
  (x = next_inode h /\ n = new_inode r self parent w mode) \/
  (x <> next_inode h /\ exists m, inodes h !! x = Some m /\ n = grown parent (next_inode h) x m).
Proof using Type.
  intros Hwf Hn. destruct (decide (x = next_inode h)) as [->|Hx].
  - left. rewrite created_inode_new in Hn. by injection Hn as <-.
  - right. rewrite created_inode in Hn by done. destruct (inodes h !! x) as [m|]; [|done]. injection Hn as <-. split; [done|]. by exists m.
Qed.

Section created.
Context (h : ram) (self parent : Z) (r : RAMFS) (files : unordered_map Z Z) (w : list Z) (mode : Z) (g : gmap Z Z).
Context (Hwf : ram_wf h) (Hr : systems h !! self = Some r) (Hg : lists h self r g).
Context (Hrep : repr hash_u64 files (<[NextInode r := next_inode h]> g)) (Hp : parent_ok h self parent).
Abbreviation h' := (created_store h self parent r files w mode).

Lemma old_inode x n : inodes h !! x = Some n -> inodes h' !! x = Some (grown parent (next_inode h) x n).
Proof using Hwf. intros Hx. rewrite created_inode by (apply (rw_next _ Hwf) in Hx; lia). by rewrite Hx. Qed.

Lemma created_lists_self : lists h' self (MkRAMFS files (DeviceID r) (NextInode r + 1) (RootName r)) (<[NextInode r := next_inode h]> g).
Proof using Hwf Hr Hg Hrep.
  destruct Hg as (_ & Hsize & Hb & Hiff). split; [done|]. split; [|split].
  - rewrite map_size_insert. cbn [NextInode]. destruct (g !! NextInode r); unfold id; lia.
  - cbn [NextInode]. intros x [y Hy]. destruct (decide (x = NextInode r)) as [->|Hx]; [lia|]. rewrite lookup_insert_ne in Hy by done.
    specialize (Hb x ltac:(by eexists)). lia.
  - intros x y. destruct (decide (x = NextInode r)) as [->|Hx].
    + rewrite lookup_insert_eq. split.
      * intros [= <-]. exists (new_inode r self parent w mode). split; [apply created_inode_new|done].
      * intros (n & Hn & Hs & Hi). destruct (created_inv _ _ _ _ _ _ _ _ _ Hwf Hn) as [[-> ->]|(Hy & m & Hm & ->)]; [done|].
        exfalso. destruct (grown_same parent (next_inode h) y m) as (E & _). unfold system_of, index_in in Hs, Hi. rewrite E in Hs, Hi.
        assert (g !! NextInode r = Some y) as Hgy by (apply Hiff; by exists m). specialize (Hb _ ltac:(by eexists)). lia.
    + rewrite lookup_insert_ne by done. rewrite Hiff. split.
      * intros (n & Hn & Hs & Hi). exists (grown parent (next_inode h) y n). split; [by apply old_inode|].
        unfold system_of, index_in. by rewrite (proj1 (grown_same _ _ _ _)).
      * intros (n & Hn & Hs & Hi). destruct (created_inv _ _ _ _ _ _ _ _ _ Hwf Hn) as [[-> ->]|(Hy & m & Hm & ->)]; [by destruct Hx|].
        unfold system_of, index_in in Hs, Hi. rewrite (proj1 (grown_same _ _ _ _)) in Hs, Hi. by exists m.
Qed.

Lemma created_lists_other other r' g' : other <> self -> lists h other r' g' -> lists h' other r' g'.
Proof using Hwf.
  intros Hne (H1 & H2 & H3 & Hiff). split_and!; try done. intros x y. rewrite Hiff. split.
  - intros (n & Hn & Hs & Hi). exists (grown parent (next_inode h) y n). split; [by apply old_inode|].
    unfold system_of, index_in. by rewrite (proj1 (grown_same _ _ _ _)).
  - intros (n & Hn & Hs & Hi). destruct (created_inv _ _ _ _ _ _ _ _ _ Hwf Hn) as [[-> ->]|(Hy & m & Hm & ->)]; [by destruct Hne|].
    unfold system_of, index_in in Hs, Hi. rewrite (proj1 (grown_same _ _ _ _)) in Hs, Hi. by exists m.
Qed.

Lemma created_child x m k : inodes h !! x = Some m -> k ∈ r_Children m ->
  exists c, inodes h' !! k = Some c /\ system_of c = system_of m /\ r_Parent c = Some x.
Proof using Hwf.
  intros Hx Hk. destruct (rw_children _ Hwf _ _ _ Hx Hk) as (c & Hc & Hs & Hpc). exists (grown parent (next_inode h) k c).
  destruct (grown_same parent (next_inode h) k c) as (E & E' & _). unfold system_of in *. rewrite E, E'.
  split_and!; [by apply old_inode|done..].
Qed.

Lemma created_ram_wf : ram_wf h'.
Proof using Hwf Hr Hg Hrep Hp.
  pose proof (rw_pos _ Hwf) as Hpos. split.
  - intros other r' Hr'. unfold created_store in Hr'. cbn [systems] in Hr'. destruct (decide (other = self)) as [->|Hne].
    + rewrite lookup_insert_eq in Hr'. injection Hr' as <-. eexists. apply created_lists_self.
    + rewrite lookup_insert_ne in Hr' by done. destruct (rw_system _ Hwf _ _ Hr') as [g' Hg']. exists g'. by apply created_lists_other.
  - intros x n Hn. destruct (created_inv _ _ _ _ _ _ _ _ _ Hwf Hn) as [[-> ->]|(Hy & m & Hm & ->)]; [by split|].
    destruct (grown_same parent (next_inode h) x m) as (E & _ & E' & E''). destruct (rw_ok _ Hwf _ _ Hm).
    split; by rewrite ?E, ?E', ?E''.
  - intros x n Hn. change (next_inode h') with (next_inode h + 1).
    destruct (created_inv _ _ _ _ _ _ _ _ _ Hwf Hn) as [[-> ->]|(Hy & m & Hm & ->)]; [lia|]. apply (rw_next _ Hwf) in Hm. lia.
  - change (next_inode h') with (next_inode h + 1). lia.
  - intros x n k Hn Hk. destruct (created_inv _ _ _ _ _ _ _ _ _ Hwf Hn) as [[-> ->]|(Hy & m & Hm & ->)]; [by apply not_elem_of_nil in Hk|].
    unfold system_of. rewrite (proj1 (grown_same _ _ _ _)). unfold grown in Hk. case_decide as Hx; [|by eapply created_child].
    cbn [add_child r_Children] in Hk. apply elem_of_app in Hk as [Hk|Hk]; [by eapply created_child|].
    apply list_elem_of_singleton in Hk as ->. subst x. exists (new_inode r self parent w mode). split; [apply created_inode_new|].
    destruct Hp as [->|(q & Hq & Hs)]; [apply (rw_next _ Hwf) in Hm; lia|]. replace q with m in * by congruence. split; [done|].
    unfold new_inode. cbn [r_Parent]. apply (rw_next _ Hwf) in Hq. by rewrite (proj2 (Z.eqb_neq parent 0)) by lia.
  - intros x n q Hn Hq. assert (exists m, inodes h !! q = Some m) as [m Hm]; [|eexists; by apply old_inode].
    destruct (created_inv _ _ _ _ _ _ _ _ _ Hwf Hn) as [[-> ->]|(Hy & m & Hm & ->)].
    + cbn [new_inode r_Parent] in Hq. destruct Hp as [->|(p & Hpp & _)]; [done|]. exists p. destruct (parent =? 0); congruence.
    + rewrite (proj1 (proj2 (grown_same _ _ _ _))) in Hq. by destruct (rw_parent _ Hwf _ _ _ Hm Hq) as [m' Hm']; exists m'.
Qed.
End created.

(** [Create] makes an empty file of the type and with the name that it was given,
    and keeps the invariant. *)
Lemma ramfs_Create_spec h self parent r w mode : ram_wf h -> systems h !! self = Some r -> NextInode r + 1 < 2 ^ 64 ->
  good_word w -> parent_ok h self parent ->
  exists h', ramfs_Create U self parent w mode h = Ret (0, next_inode h, h') /\ ram_wf h' /\
    inodes h' !! next_inode h = Some (new_inode r self parent w mode) /\
    (forall x, x <> next_inode h -> inodes h' !! x = grown parent (next_inode h) x <$> inodes h !! x) /\
    (forall o, is_Some (systems h !! o) -> is_Some (systems h' !! o)).
Proof using Type.
  intros Hwf Hr Hroom Hw Hp. destruct (rw_system _ Hwf _ _ Hr) as [g Hg].
  destruct (ramfs_Create_run h self parent r g w mode Hwf Hr Hg Hroom Hw Hp) as (files & E & Hrep).
  eexists. split; [exact E|]. split_and!.
  - by apply (created_ram_wf h self parent r files w mode g).
  - apply created_inode_new.
  - intros x Hx. by apply created_inode.
  - intros o Ho. unfold created_store. cbn [systems]. destruct (decide (o = self)) as [->|Hne]; [rewrite lookup_insert_eq; by eexists|].
    by rewrite lookup_insert_ne.
Qed.

(** The laws that the virtual file system relies on *)
Context (unset : FileSystemInfo ram).

Lemma alive_lookup h i w lookup : op_Lookup (ramfs_ops allocate U unset) = Some lookup -> alive h i -> good_word w ->
  exists ret ino h', lookup i w h = Ret (ret, ino, h') /\ (ret = 0 -> alive h' ino) /\ (forall j, alive h j -> alive h' j).
Proof using Type.
  intros [= <-] (Hwf & n & Hn & Hs) Hw. unfold in_system, the_inode. rewrite Hn. cbn [obind].
  destruct (ramfs_Lookup_spec h (i_PrivateData (r_Node n)) i n w Hwf Hn Hw) as (res & -> & Hres). destruct res as [k|].
  - destruct Hres as (Hk & _). exists 0, k, h. split_and!; try done. intros _. split; [done|].
    destruct (rw_children _ Hwf _ _ _ Hn Hk) as (c & Hc & Hs' & _). exists c. by rewrite Hs'.
  - exists (- K_ENOENT), 0, h. split_and!; done.
Qed.

Lemma alive_create h i w mode create ino h' : op_Create (ramfs_ops allocate U unset) = Some create -> alive h i -> good_word w ->
  ram_room h -> create i w mode h = Ret (0, ino, h') -> alive h' ino /\ (forall j, alive h j -> alive h' j).
Proof using Type.
  intros [= <-] (Hwf & n & Hn & [r Hr]) Hw Hroom. unfold in_system, the_inode. rewrite Hn. cbn [obind]. fold (system_of n).
  destruct (ramfs_Create_spec h (system_of n) i r w mode Hwf Hr (Hroom _ _ Hr) Hw) as (h1 & -> & Hwf1 & Hnew & Hold & Hsys); [right; by exists n|].
  intros [= <- <-]. split.
  - split; [done|]. eexists. split; [exact Hnew|]. apply Hsys. by eexists.
  - intros j (_ & m & Hm & Hs). split; [done|]. pose proof (rw_next _ Hwf _ _ Hm). specialize (Hold j ltac:(lia)). rewrite Hm in Hold.
    eexists. split; [exact Hold|]. unfold system_of. rewrite (proj1 (grown_same _ _ _ _)). by apply Hsys.
Qed.

#[local] Instance ramfs_lawful : @Lawful ram (ramfs_files allocate U unset) := {
  valid := alive;
  room := ram_room;
  lookup_law f lookup i w d := alive_lookup d i w lookup;
  create_law f create i w mode d ino d' := alive_create d i w mode create ino d'
}.

#[local] Instance ramfs_below : FileSystems ram := ramfs_files allocate U unset.
#[local] Instance ramfs_laws : Lawful := ramfs_lawful.

(** ** Contents *)

Lemma lists_files h h' self r g files : lists h self r g -> repr hash_u64 files g -> inodes h' = inodes h ->
  lists h' self (MkRAMFS files (DeviceID r) (NextInode r) (RootName r)) g.
Proof using Type. intros (_ & H2 & H3 & H4) Hf E. unfold lists. cbn [Files NextInode]. by rewrite E. Qed.

Lemma file_of_spec h i n : ram_wf h -> inodes h !! i = Some n -> is_Some (systems h !! system_of n) ->
  exists h', file_of i h = Ret (i, n, h') /\ inodes h' = inodes h /\ ram_wf h' /\
    (forall o, is_Some (systems h !! o) -> is_Some (systems h' !! o)).
Proof using Type.
  intros Hwf Hn [r Hr]. destruct (rw_system _ Hwf _ _ Hr) as [g Hg]. pose proof Hg as (Hrep & _ & _ & Hiff).
  unfold file_of, file_at, the_inode, the_system. rewrite Hn. cbn [obind]. fold (system_of n). rewrite Hr. cbn [obind].
  destruct (umap_find_spec hash_u64 (Files r) g (i_Index (r_Node n)) Hrep) as (Hf & Hrep' & _).
  destruct (umap_find hash_u64 (Files r) (i_Index (r_Node n))) as [v files]. cbn [fst snd] in *.
  assert (g !! i_Index (r_Node n) = Some i) as Hgi by (apply Hiff; by exists n). rewrite Hgi in Hf. subst v. cbn [obind].
  unfold set_system. cbn [inodes]. rewrite Hn. cbn [obind]. eexists. split; [reflexivity|]. cbn [inodes systems next_inode].
  split; [done|]. split; [destruct Hwf as [H1 H2 H3 H4 H5 H6]; split; try done|].
  - intros o r' Hr'. cbn [systems] in Hr'. destruct (decide (o = system_of n)) as [->|Ho].
    + rewrite lookup_insert_eq in Hr'. injection Hr' as <-. exists g. by eapply lists_files.
    + rewrite lookup_insert_ne in Hr' by done. destruct (H1 _ _ Hr') as [g' Hg']. by exists g'.
  - intros o Ho. destruct (decide (o = system_of n)) as [->|Hne]; [rewrite lookup_insert_eq; by eexists|by rewrite lookup_insert_ne].
Qed.

(** Changing what an inode holds *)
Lemma set_inode_wf h i n n' : ram_wf h -> inodes h !! i = Some n -> r_Node n' = r_Node n -> r_Parent n' = r_Parent n ->
  r_Children n' = r_Children n -> inode_ok n' -> ram_wf (set_inode i n' h).
Proof using Type.
  intros [H1 H2 H3 H4 H5 H6] Hi E1 E2 E3 Hok.
  assert (Hold : forall x m, inodes (set_inode i n' h) !! x = Some m -> exists m0, inodes h !! x = Some m0 /\
    r_Node m = r_Node m0 /\ r_Parent m = r_Parent m0 /\ r_Children m = r_Children m0).
  { intros x m Hm. unfold set_inode in Hm. cbn [inodes] in Hm. destruct (decide (x = i)) as [->|Hx].
    - rewrite lookup_insert_eq in Hm. injection Hm as <-. by exists n.
    - rewrite lookup_insert_ne in Hm by done. by exists m. }
  assert (Hnew : forall x m0, inodes h !! x = Some m0 -> exists m, inodes (set_inode i n' h) !! x = Some m /\
    r_Node m = r_Node m0 /\ r_Parent m = r_Parent m0).
  { intros x m0 Hm. unfold set_inode. cbn [inodes]. destruct (decide (x = i)) as [->|Hx].
    - rewrite lookup_insert_eq. exists n'. split_and!; congruence.
    - rewrite lookup_insert_ne by done. by exists m0. }
  split; try done.
  - intros o r Hr. destruct (H1 o r Hr) as (g & A & B & C & Hiff). exists g. split_and!; try done. intros x y. rewrite Hiff. split.
    + intros (m & Hm & Hs & Hx). destruct (Hnew y m Hm) as (m' & Hm' & E & _). exists m'. unfold system_of, index_in in *. by rewrite E.
    + intros (m & Hm & Hs & Hx). destruct (Hold y m Hm) as (m' & Hm' & E & _). exists m'. unfold system_of, index_in in *. by rewrite <- E.
  - intros x m Hm. unfold set_inode in Hm. cbn [inodes] in Hm. destruct (decide (x = i)) as [->|Hx].
    + rewrite lookup_insert_eq in Hm. by injection Hm as <-.
    + rewrite lookup_insert_ne in Hm by done. by eapply H2.
  - intros x m Hm. destruct (Hold x m Hm) as (m0 & Hm0 & _). by eapply H3.
  - intros x m k Hm Hk. destruct (Hold x m Hm) as (m0 & Hm0 & E & _ & Ec). rewrite Ec in Hk.
    destruct (H5 x m0 k Hm0 Hk) as (c & Hc & Hs & Hpc). destruct (Hnew k c Hc) as (c' & Hc' & E' & Ep). exists c'.
    unfold system_of in *. rewrite E, E', Ep. done.
  - intros x m q Hm Hq. destruct (Hold x m Hm) as (m0 & Hm0 & _ & Ep & _). rewrite Ep in Hq.
    destruct (H6 x m0 q Hm0 Hq) as [c Hc]. destruct (Hnew q c Hc) as (c' & Hc' & _). by exists c'.
Qed.

Lemma Allocate_extend d size_ : 0 <= size_ -> Z.of_nat (length d) + size_ < 2 ^ 64 ->
  exists rest, Allocate allocate (Some d) size_ true true = Ret (Some (d ++ rest)) /\ Z.of_nat (length rest) = size_.
Proof using allocate_length.
  intros Hs Hb. unfold Allocate. rewrite uw_small by lia.
  pose proof (allocate_length (Z.of_nat (length d) + size_) ltac:(lia)) as Hl.
  rewrite copy_to_front by lia. eexists. split; [done|]. rewrite length_drop. lia.
Qed.

Lemma maybe_extend (b : bool) d size_ : 0 <= size_ -> Z.of_nat (length d) + size_ < 2 ^ 64 ->
  exists rest, (if b then Allocate allocate (Some d) size_ true true else Ret (Some d)) = Ret (Some (d ++ rest)) /\
    Z.of_nat (length rest) = if b then size_ else 0.
Proof using allocate_length.
  intros Hs Hb. destruct b; [by apply Allocate_extend|]. exists []. by rewrite app_nil_r.
Qed.

Lemma first_buffer n : inode_ok n ->
  match r_Buffer n with None => Allocate allocate None (u64 (st_Size (r_Stat n))) false true | b => Ret b end
    = Ret (Some (default [] (r_Buffer n))).
Proof using allocate_length.
  intros [Hs _ _ _]. destruct (r_Buffer n) as [d|]; [done|]. replace (st_Size (r_Stat n)) with 0 by (cbn in Hs; lia).
  cbn. do 2 f_equal. apply length_zero_iff_nil. apply (allocate_length 0). done.
Qed.

Lemma copy_into d offset buffer : buffer <> [] -> 0 <= offset -> offset + Z.of_nat (length buffer) <= Z.of_nat (length d) ->
  exists post, copy_to (Some d) offset buffer = Ret (Some (take (Z.to_nat offset) d ++ buffer ++ post)).
Proof using Type.
  intros Hne H0 Hl. unfold copy_to. destruct buffer as [|c l]; [done|].
  rewrite (put_spec (take (Z.to_nat offset) d) (drop (Z.to_nat offset) d)); [by eexists|by rewrite take_drop| |];
    rewrite ?length_take, ?length_drop; lia.
Qed.

(** The block after a write: the bytes that were there up to the offset, then
    the written ones. *)
Lemma write_block d0 size_ offset buffer : buffer <> [] -> 0 <= offset -> 0 <= size_ <= Z.of_nat (length d0) ->
  Z.of_nat (length d0) + 4 * (offset + Z.of_nat (length buffer)) < 2 ^ 63 ->
  exists rest post,
    (let! b := if u64 offset >? size_ then Allocate allocate (Some d0) (u64 (offset + Z.of_nat (length buffer))) true true else Ret (Some d0) in
     let! b := if u64 (size_ - offset) =? 0 then Allocate allocate b (Z.of_nat (length buffer)) true true else Ret b in
     let! b := if u64 (u64 offset + Z.of_nat (length buffer)) >? size_ then Allocate allocate b (u64 (offset + Z.of_nat (length buffer))) true true else Ret b in
     copy_to b offset buffer) = Ret (Some (take (Z.to_nat offset) (d0 ++ rest) ++ buffer ++ post)) /\
    (Z.to_nat offset <= length (d0 ++ rest))%nat.
Proof using allocate_length.
  intros Hne H0 Hs Hb. rewrite (uw_small 64 offset) by lia. rewrite !(uw_small 64 (offset + Z.of_nat (length buffer))) by lia.
  destruct (maybe_extend (offset >? size_) d0 (offset + Z.of_nat (length buffer))) as (r1 & -> & L1); [lia..|]. cbn [obind].
  assert (Hl1 : Z.of_nat (length r1) <= offset + Z.of_nat (length buffer)) by (rewrite L1; destruct (offset >? size_); lia).
  destruct (maybe_extend (u64 (size_ - offset) =? 0) (d0 ++ r1) (Z.of_nat (length buffer))) as (r2 & -> & L2);
    [lia|rewrite length_app; lia|]. cbn [obind].
  assert (Hl2 : Z.of_nat (length r2) <= Z.of_nat (length buffer)) by (rewrite L2; destruct (_ =? 0); lia).
  destruct (maybe_extend (offset + Z.of_nat (length buffer) >? size_) ((d0 ++ r1) ++ r2) (offset + Z.of_nat (length buffer))) as (r3 & -> & L3);
    [lia|rewrite !length_app; lia|]. cbn [obind].
  assert (Hroom : offset + Z.of_nat (length buffer) <= Z.of_nat (length (d0 ++ r1 ++ r2 ++ r3))).
  { rewrite !length_app. destruct (Z.gtb_spec (offset + Z.of_nat (length buffer)) size_); lia. }
  exists (r1 ++ r2 ++ r3). rewrite <- !app_assoc. destruct (copy_into (d0 ++ r1 ++ r2 ++ r3) offset buffer Hne H0 Hroom) as [post ->].
  exists post. split; [done|lia].
Qed.

Definition written_inode (n : RAMFSInode) (b : list Z) (size_ : Z) : RAMFSInode :=
  with_stat (with_size size_ (r_Stat n)) (with_buffer (Some b) n).

Lemma ramfs_Write_spec h i n buffer offset : ram_wf h -> inodes h !! i = Some n -> is_Some (systems h !! system_of n) ->
  buffer <> [] -> 0 <= offset -> Z.of_nat (length (default [] (r_Buffer n))) + 4 * (offset + Z.of_nat (length buffer)) < 2 ^ 63 ->
  exists h' rest post, ramfs_Write allocate i buffer offset h = Ret (Z.of_nat (length buffer), h') /\ ram_wf h' /\
    inodes h' = <[i := written_inode n (take (Z.to_nat offset) (default [] (r_Buffer n) ++ rest) ++ buffer ++ post)
                         (Z.of_nat (length buffer))]> (inodes h) /\
    (Z.to_nat offset <= length (default [] (r_Buffer n) ++ rest))%nat /\
    (forall o, is_Some (systems h !! o) -> is_Some (systems h' !! o)).
Proof using allocate_length.
  intros Hwf Hn Hsys Hne H0 Hb. pose proof (rw_ok _ Hwf _ _ Hn) as Hok. destruct Hok as [Hs Hw Ho Hm].
  destruct (file_of_spec h i n Hwf Hn Hsys) as (h1 & E1 & Ei & Hwf1 & Hsys1).
  destruct (write_block (default [] (r_Buffer n)) (st_Size (r_Stat n)) offset buffer Hne H0 Hs Hb) as (rest & post & Ew & Hlen).
  assert (Hpos : 0 < Z.of_nat (length buffer)) by (destruct buffer; [done|cbn [length]; lia]).
  unfold ramfs_Write. rewrite E1. cbn [obind]. rewrite (first_buffer n) by done. cbn [obind]. cbv zeta.
  rewrite (proj2 (Z.leb_gt (Z.of_nat (length buffer)) 0)) by lia. rewrite (uw_small 64 (st_Size (r_Stat n))) by lia.
  set (final := take (Z.to_nat offset) (default [] (r_Buffer n) ++ rest) ++ buffer ++ post) in *.
  exists (set_inode i (written_inode n final (Z.of_nat (length buffer))) h1), rest, post. split_and!; try done.
  - revert Ew. generalize (if u64 offset >? st_Size (r_Stat n) then Allocate allocate (Some (default [] (r_Buffer n))) (u64 (offset + Z.of_nat (length buffer))) true true else Ret (Some (default [] (r_Buffer n)))).
    intros [b1| |]; cbn [obind]; try done. destruct (if u64 (st_Size (r_Stat n) - offset) =? 0 then _ else _) as [b2| |]; cbn [obind]; try done.
    destruct (if u64 (u64 offset + Z.of_nat (length buffer)) >? st_Size (r_Stat n) then _ else _) as [b3| |]; cbn [obind]; try done.
    intros ->. cbn [obind]. do 2 f_equal. unfold set_inode. cbn [inodes systems next_inode]. rewrite insert_insert_eq.
    unfold written_inode. rewrite sw_small; [done|lia|]. unfold in_s. lia.
  - eapply set_inode_wf; [exact Hwf1|by rewrite Ei|done..|]. unfold written_inode. split; try done; cbn; [|lia].
    unfold final. rewrite !length_app. lia.
  - unfold set_inode. cbn [inodes]. by rewrite Ei.
Qed.

(** Reading: what the code copies, on every branch. *)
Lemma ramfs_Read_run h i n size_ offset : ram_wf h -> inodes h !! i = Some n -> is_Some (systems h !! system_of n) ->
  0 <= size_ < 2 ^ 63 -> 0 <= offset < 2 ^ 63 ->
  let fileSize := st_Size (r_Stat n) in
  let wanted := if size_ =? 0 then fileSize else size_ in
  let k := if fileSize <=? offset then 0 else if fileSize <? offset + wanted then fileSize else wanted in
  exists h', ramfs_Read i size_ offset h = Ret (k, take (Z.to_nat k) (default [] (r_Buffer n)), h') /\
    inodes h' = inodes h /\ ram_wf h' /\ (forall o, is_Some (systems h !! o) -> is_Some (systems h' !! o)).
Proof using Type.
  intros Hwf Hn Hsys Hsz Hoff fileSize wanted k. destruct (rw_ok _ Hwf _ _ Hn) as [Hs Hw _ _].
  destruct (file_of_spec h i n Hwf Hn Hsys) as (h1 & E1 & Ei & Hwf1 & Hsys1). exists h1. split; [|done].
  unfold ramfs_Read. rewrite E1. cbn [obind]. cbv zeta. fold fileSize in Hs, Hw |- *. rewrite (uw_small 64 fileSize), (uw_small 64 offset) by lia.
  assert (Ew : (if size_ <=? 0 then fileSize else size_) = wanted).
  { unfold wanted. destruct (Z.leb_spec size_ 0), (Z.eqb_spec size_ 0); try done; lia. }
  assert (Hwa : 0 <= wanted < 2 ^ 63) by (unfold wanted; destruct (size_ =? 0); lia).
  rewrite Ew. rewrite (uw_small 64 (offset + wanted)) by lia. unfold k.
  destruct (Z.leb_spec fileSize offset) as [H1|H1]; destruct (Z.gtb_spec offset fileSize) as [H2|H2]; try lia; [done| |].
  - replace (fileSize - offset) with 0 by lia. done.
  - rewrite (uw_small 64 (fileSize - offset)) by lia. rewrite (proj2 (Z.eqb_neq (fileSize - offset) 0)) by lia.
    assert (Hbytes : forall m, 0 <= m <= fileSize -> bytes_of (r_Buffer n) 0 m = Ret (take (Z.to_nat m) (default [] (r_Buffer n)))).
    { intros m Hm. unfold bytes_of. destruct (Z.eqb_spec m 0) as [->|H0]; [done|]. destruct (r_Buffer n) as [d|]; [|cbn in Hs; lia].
      change (default [] (Some d)) with d in *. by zprune. }
    destruct (Z.gtb_spec (offset + wanted) fileSize) as [H3|H3]; destruct (Z.ltb_spec fileSize (offset + wanted)) as [H4|H4]; try lia;
      rewrite Hbytes by lia; done.
Qed.

(** The file [i] has the contents [l]. *)
Definition contains (h : ram) (i : Z) (l : list Z) : Prop :=
  ram_wf h /\ exists n, inodes h !! i = Some n /\ is_Some (systems h !! system_of n) /\
    st_Size (r_Stat n) = Z.of_nat (length l) /\ exists post, r_Buffer n = Some (l ++ post).

Lemma write_contains h i n buffer : ram_wf h -> inodes h !! i = Some n -> is_Some (systems h !! system_of n) ->
  buffer <> [] -> Z.of_nat (length (default [] (r_Buffer n))) + 4 * Z.of_nat (length buffer) < 2 ^ 63 ->
  exists h', ramfs_Write allocate i buffer 0 h = Ret (Z.of_nat (length buffer), h') /\ contains h' i buffer /\
    (forall j m, inodes h !! j = Some m -> exists m', inodes h' !! j = Some m' /\ r_Node m' = r_Node m) /\
    (forall o, is_Some (systems h !! o) -> is_Some (systems h' !! o)).
Proof using allocate_length.
  intros Hwf Hn Hsys Hne Hb. destruct (ramfs_Write_spec h i n buffer 0) as (h' & rest & post & E & Hwf' & Ei & _ & Hs'); try done.
  exists h'. rewrite Ei. split_and!; try done.
  - split; [done|]. eexists. rewrite Ei, lookup_insert_eq. split; [reflexivity|]. split; [by apply Hs'|]. split; [done|]. by exists post.
  - intros j m Hj. destruct (decide (j = i)) as [->|Hji]; [rewrite lookup_insert_eq|rewrite lookup_insert_ne by done; by exists m].
    eexists. split; [reflexivity|]. by replace m with n by congruence.
Qed.

Lemma read_contains h i l size_ offset : contains h i l -> 0 < size_ < 2 ^ 63 -> 0 <= offset < Z.of_nat (length l) ->
  let k := if Z.of_nat (length l) <? offset + size_ then Z.of_nat (length l) else size_ in
  exists h', ramfs_Read i size_ offset h = Ret (k, take (Z.to_nat k) l, h') /\ inodes h' = inodes h /\ contains h' i l.
Proof using Type.
  intros (Hwf & n & Hn & Hsys & Hs & post & Hbuf) Hsz Hoff k. pose proof (ok_width _ (rw_ok _ Hwf _ _ Hn)) as Hw.
  destruct (ramfs_Read_run h i n size_ offset) as (h' & E & Ei & Hwf' & Hsys'); try done; [lia..|]. rewrite Hs in E. exists h'.
  rewrite (proj2 (Z.leb_gt (Z.of_nat (length l)) offset)) in E by lia. rewrite (proj2 (Z.eqb_neq size_ 0)) in E by lia. fold k in E.
  split_and!; [|done|split; [done|]; exists n; rewrite Ei; split_and!; [done|by apply Hsys'|done|by exists post]].
  rewrite E, Hbuf. change (default [] (Some (l ++ post))) with (l ++ post).
  rewrite take_app_le; [done|]. unfold k. destruct (Z.ltb_spec (Z.of_nat (length l)) (offset + size_)); lia.
Qed.

(** What is written is read.  After bytes are written to a file at its start,
    reading from the start gives them back, up to the size that was asked for,
    and the file still contains them; nothing faults. *)
Theorem ramfs_write_then_read h i n buffer size_ : ram_wf h -> inodes h !! i = Some n -> is_Some (systems h !! system_of n) ->
  buffer <> [] -> Z.of_nat (length (default [] (r_Buffer n))) + 4 * Z.of_nat (length buffer) < 2 ^ 63 -> 0 < size_ < 2 ^ 63 ->
  exists h' h'', ramfs_Write allocate i buffer 0 h = Ret (Z.of_nat (length buffer), h') /\ contains h' i buffer /\
    ramfs_Read i size_ 0 h' = Ret (Z.min size_ (Z.of_nat (length buffer)), take (Z.to_nat size_) buffer, h'') /\
    contains h'' i buffer.
Proof using allocate_length.
  intros Hwf Hn Hsys Hne Hb Hsz. destruct (write_contains h i n buffer) as (h' & E & Hc & _); try done.
  assert (Hpos : 0 < Z.of_nat (length buffer)) by (destruct buffer; [done|cbn [length]; lia]).
  destruct (read_contains h' i buffer size_ 0 Hc Hsz) as (h'' & Er & _ & Hc'); [lia|].
  exists h', h''. split_and!; try done. rewrite Er. destruct (Z.ltb_spec (Z.of_nat (length buffer)) (0 + size_)).
  - by rewrite Z.min_r, !take_ge by lia.
  - by rewrite Z.min_l by lia.
Qed.

(** C37: reading elsewhere than at the start gives the wrong bytes, or too many of
    them.  Whatever the offset inside the file, the bytes come from its start;
    and when the range that is asked for reaches past the end, the whole file is
    stored in the caller's buffer, even if it is larger than the size the caller
    gave. *)
Theorem ramfs_read_ignores_offset h i l size_ offset : contains h i l -> 0 < size_ < 2 ^ 63 -> 0 <= offset < Z.of_nat (length l) ->
  exists h', ramfs_Read i size_ offset h =
    Ret (if Z.of_nat (length l) <? offset + size_ then (Z.of_nat (length l), l, h') else (size_, take (Z.to_nat size_) l, h')).
Proof using Type.
  intros Hc Hsz Hoff. destruct (read_contains h i l size_ offset Hc Hsz Hoff) as (h' & E & _). exists h'. rewrite E.
  destruct (Z.ltb_spec (Z.of_nat (length l)) (offset + size_)); [|done]. by rewrite take_ge by lia.
Qed.

(** Listing: the entries of the children are all left out. *)
Lemma read_children_none h size_ offset max total l : (forall k, k ∈ l -> exists c, inodes h !! k = Some c /\ i_Offset (r_Node c) = 0) ->
  2 <= offset -> read_children h size_ offset max 0 total l = Ret (total, []).
Proof using Type.
  clear allocate_length allocate. intros Hl Ho. induction l as [|k l IH]; [done|]. cbn [read_children]. destruct (Hl k ltac:(set_solver)) as (c & Hc & E).
  unfold the_inode. rewrite Hc. cbn [obind]. rewrite E, (proj2 (Z.ltb_lt 0 offset)) by lia. apply IH. intros j Hj. apply Hl. set_solver.
Qed.

(** C38: listing a directory shows none of its files.  Whatever offset and size
    are given, [ReadDir] stores no entries but ["."] and [".."]: the position of
    a file is never set, and those two entries move the offset past it. *)
Theorem ReadDir_shows_no_files h i n size_ offset max : ram_wf h -> inodes h !! i = Some n -> 0 <= offset ->
  exists ret ents, ramfs_ReadDir i size_ offset max h = Ret (ret, ents) /\
    Forall (fun e => d_name e = [dot] \/ d_name e = [dot; dot]) ents /\ (length ents <= 2)%nat.
Proof using Type.
  clear allocate_length allocate. intros Hwf Hn Ho. unfold ramfs_ReadDir, the_inode. rewrite Hn. cbn [obind]. cbv zeta.
  assert (exists up, match r_Parent n with
      | Some p => let! p := match inodes h !! p with Some n => Ret n | None => Fault end in Ret (i_Index (r_Node p))
      | None => Ret (i_Index (r_Node n)) end = Ret up) as [up Hup].
  { destruct (r_Parent n) as [p|] eqn:Hp; [|by eexists]. destruct (rw_parent _ Hwf _ _ _ Hn Hp) as [m ->]. by eexists. }
  rewrite Hup.
  set (o1 := if offset =? 0 then 1 else offset). set (e1 := if offset =? 0 then _ else []).
  assert (He1 : Forall (fun e => d_name e = [dot] \/ d_name e = [dot; dot]) e1 /\ (length e1 <= 1)%nat).
  { unfold e1. destruct (offset =? 0); split; try (cbn; lia); [|constructor]. constructor; [by left|constructor]. }
  destruct ((offset =? 0) && (reclen [dot] >=? size_)); [by eexists _, []; split_and!; [done|constructor|cbn; lia]|].
  assert (Ho1 : 1 <= o1) by (unfold o1; destruct (Z.eqb_spec offset 0); lia).
  set (t1 := if offset =? 0 then reclen [dot] else 0).
  destruct ((o1 <=? 1) && (t1 + reclen [dot; dot] >=? size_)).
  { destruct (offset =? 1); [by eexists _, []; split_and!; [done|constructor|cbn; lia]|]. exists t1, e1. split_and!; [done|tauto|lia]. }
  set (e2 := if o1 <=? 1 then [Dirent up o1 (reclen [dot; dot]) DT_DIR [dot; dot]] else []).
  assert (E2 : (if o1 <=? 1 then let! up := Ret up in Ret [Dirent up o1 (reclen [dot; dot]) DT_DIR [dot; dot]] else Ret []) = Ret e2)
    by (unfold e2; by destruct (o1 <=? 1)).
  rewrite E2. cbn [obind].
  assert (He2 : Forall (fun e => d_name e = [dot] \/ d_name e = [dot; dot]) (e1 ++ e2) /\ (length (e1 ++ e2) <= 2)%nat).
  { split; [apply Forall_app; split; [tauto|]|]; unfold e2; destruct (o1 <=? 1); rewrite ?length_app; cbn [length]; try lia; [|constructor]. constructor; [by right|constructor]. }
  destruct (negb (is_type S_IFDIR (i_Mode (r_Node n)))); [by eexists _, (e1 ++ e2)|].
  destruct (_ >? Z.of_nat (length (r_Children n))); [by eexists _, (e1 ++ e2)|].
  rewrite read_children_none.
  - cbn [obind]. eexists _, (e1 ++ e2 ++ []). split; [done|]. by rewrite app_nil_r.
  - intros k Hk. destruct (rw_children _ Hwf _ _ _ Hn Hk) as (c & Hc & _). exists c. split; [done|]. apply (rw_ok _ Hwf _ _ Hc).
  - destruct (Z.leb_spec o1 1); lia.
Qed.

(** ** Files below the virtual file system *)

Context (unset_flag : Z -> bool).
Implicit Types (s : Virtual ram).

(** A node of a file with these contents *)
Lemma Read_file s k c l size_ : wf s -> nodes s !! k = Some c -> MountPoint c = false -> is_Some (fsi c) ->
  contains (disk s) (inode c) l -> l <> [] -> (exists n, inodes (disk s) !! inode c = Some n /\ is_type S_IFREG (i_Mode (r_Node n)) = true) ->
  Z.of_nat (length l) <= size_ < 2 ^ 63 ->
  exists h, Read k size_ 0 s = Ret (Go (Z.of_nat (length l), l), with_disk h s) /\ inodes h = inodes (disk s) /\ contains h (inode c) l.
Proof using Type.
  intros Hwf Hk Hm [f Hf] Hc Hne (n & Hn & Hreg) Hsz.
  assert (Hpos : 0 < Z.of_nat (length l)) by (destruct l; [done|cbn [length]; lia]).
  destruct (read_contains (disk s) (inode c) l size_ 0 Hc) as (h & E & Ei & Hc'); [lia..|]. exists h. split; [|done].
  unfold Read, guarded. erewrite bind_go by (by apply get_node_some).
  erewrite bind_go; [|unfold node_mode; cbn [inode_mode ramfs_below ramfs_files]; unfold the_inode; rewrite Hn; reflexivity].
  rewrite Hm. unfold is_type in Hreg |- *. apply Z.eqb_eq in Hreg. rewrite Hreg. cbn [orb].
  change (S_IFREG =? S_IFDIR) with false. change (S_IFREG =? S_IFLNK) with false. cbv iota. cbn [orb].
  unfold ops_of. rewrite Hf. erewrite bind_go by reflexivity. cbn [op_Read Ops fs_info ramfs_below ramfs_files ramfs_ops].
  unfold on_disk. rewrite E. destruct (Z.ltb_spec (Z.of_nat (length l)) (0 + size_)) as [H1|H1]; cbn [obind].
  - by rewrite take_ge by lia.
  - replace size_ with (Z.of_nat (length l)) by lia. by rewrite take_ge by lia.
Qed.

Lemma Write_file s k c n buffer : nodes s !! k = Some c -> MountPoint c = false -> is_Some (fsi c) ->
  ram_wf (disk s) -> inodes (disk s) !! inode c = Some n -> is_Some (systems (disk s) !! system_of n) ->
  is_type S_IFREG (i_Mode (r_Node n)) = true ->
  buffer <> [] -> Z.of_nat (length (default [] (r_Buffer n))) + 4 * Z.of_nat (length buffer) < 2 ^ 63 ->
  exists h, Write k buffer 0 s = Ret (Go (Z.of_nat (length buffer)), with_disk h s) /\ contains h (inode c) buffer /\
    (forall j m, inodes (disk s) !! j = Some m -> exists m', inodes h !! j = Some m' /\ r_Node m' = r_Node m) /\
    (forall j, alive (disk s) j -> alive h j).
Proof using allocate_length.
  intros Hk Hm [f Hf] Hwf Hn Hsys Hreg Hne Hb.
  destruct (write_contains (disk s) (inode c) n buffer Hwf Hn Hsys Hne Hb) as (h & E & Hc & Hold & Hkeep). exists h. split_and!; try done.
  - unfold Write, guarded. erewrite bind_go by (by apply get_node_some).
    erewrite bind_go; [|unfold node_mode; cbn [inode_mode ramfs_below ramfs_files]; unfold the_inode; rewrite Hn; reflexivity].
    rewrite Hm. unfold is_type in Hreg |- *. apply Z.eqb_eq in Hreg. rewrite Hreg. cbn [orb].
    change (S_IFREG =? S_IFDIR) with false. change (S_IFREG =? S_IFLNK) with false. cbv iota. cbn [orb].
    unfold ops_of. rewrite Hf. erewrite bind_go by reflexivity. cbn [op_Write Ops fs_info ramfs_below ramfs_files ramfs_ops].
    unfold on_disk. by rewrite E.
  - intros j (_ & m & Hj & Hs). destruct (Hold j m Hj) as (m' & Hm' & Em). split; [apply Hc|]. exists m'. unfold system_of in *.
    rewrite Em. split; [done|]. by apply Hkeep.
Qed.

(** A node whose flag says that it is a mount point is taken for a directory. *)
Lemma Write_flagged s k c n buffer offset : nodes s !! k = Some c -> MountPoint c = true -> inodes (disk s) !! inode c = Some n ->
  Write k buffer offset s = Ret (Go (- K_EISDIR), s).
Proof using Type.
  intros Hk Hm Hn. unfold Write, guarded. erewrite bind_go by (by apply get_node_some).
  erewrite bind_go; [|unfold node_mode; cbn [inode_mode ramfs_below ramfs_files]; unfold the_inode; rewrite Hn; reflexivity].
  by rewrite Hm, orb_true_r.
Qed.

(** C6: a file from its creation to its contents, in a tree of nodes over file
    systems in memory.  Creating a regular file under a name that is not taken
    succeeds and leaves the tree well-formed; from then on every path that leads
    to the file (not to the root, and not just ["."] or [".."]), searched from
    anywhere in the tree, finds the node.  What can be done with the node depends
    on its flag [MountPoint], which its constructor does not set: if the memory
    of the node happened to hold a flag that is set, writing to the file is
    refused with [K_EISDIR]; if it is clear, writing bytes succeeds, reading them
    back gives the same bytes, and the paths still find the node. *)
Theorem create_write_read s r n c f ws w mode e s1 (buffer : list Z) size_ : wf s -> nodes s !! n = Some c -> located (nodes s) r n ws ->
  current unset_flag s r n ws -> good_word w -> Z.of_nat (length (tree_path ws) + length w) < 2 ^ 31 - 4 ->
  fsi c = Some f -> Lookup allocate unset_flag U n w s = Ret (Go e, s1) -> found e = false -> ram_room (disk s1) ->
  is_type S_IFREG mode = true -> buffer <> [] -> Z.of_nat (length buffer) <= size_ < 2 ^ 60 ->
  let finds k s' := forall m (cm : NodeCache) ws' p, nodes s' !! m = Some cm -> located (nodes s') r m ws' -> 0 ∉ p ->
    Z.of_nat (length (tree_path ws') + length p) < 2 ^ 31 - 3 -> ~ special p -> target ws' p = ws ++ [w] ->
    Lookup allocate unset_flag U m p s' = Ret (Go (Some k, 0), s') in
  exists k s2, Create allocate unset_flag U n w mode true s = Ret (Go (Some k, 0), s2) /\ wf s2 /\ finds k s2 /\
    (if unset_flag k then Write k buffer 0 s2 = Ret (Go (- K_EISDIR), s2)
    else exists s3 s4, Write k buffer 0 s2 = Ret (Go (Z.of_nat (length buffer)), s3) /\ wf s3 /\ finds k s3 /\
      Read k size_ 0 s3 = Ret (Go (Z.of_nat (length buffer), buffer), s4) /\ nodes s4 = nodes s3).
Proof using allocate_length.
  intros Hwf Hn Hl Hcur Hw Hlen Hf Hlook He Hroom Hreg Hne Hsz finds.
  destruct (Lookup_missed allocate unset_flag allocate_length s r n c f ws w e s1) as (Hn1 & _ & Hwf1 & _); try done; [lia|].
  rewrite <- Hn1 in Hn. destruct (wf_inode _ Hwf1 _ _ Hn) as (Hram & nd & Hnd & [sys Hsys]). rewrite Hn1 in Hn.
  destruct (ramfs_Create_spec (disk s1) (system_of nd) (inode c) sys w mode Hram Hsys (Hroom _ _ Hsys) Hw) as (h & Eh & Hramh & Hnew & _ & Hkeep);
    [right; by exists nd|].
  destruct (Create_new allocate unset_flag allocate_length s r n c f ws w mode true e s1
    (fun parent name mode => in_system parent (fun self => ramfs_Create U self parent name mode)) (next_inode (disk s1)) h)
    as (k & s2 & E2 & [F1 F2 F3 F4 F5 F6 F7]); try done.
  { unfold in_system, the_inode. rewrite Hnd. cbn [obind]. exact Eh. }
  assert (Hfinds : forall s', wf s' -> current unset_flag s' r k (ws ++ [w]) -> finds k s').
  { intros s' Hwf' Hcur' m cm ws' p Hm Hlm H0 Hlen' Hsp Ht.
    apply (current_lookup allocate unset_flag allocate_length _ r k (ws ++ [w]) m cm ws' p); try done. by destruct ws. }
  exists k, s2. split_and!; [done|done|by apply Hfinds|]. destruct (unset_flag k) eqn:Hflag.
  { eapply Write_flagged; [exact F2|done|]. rewrite F3. exact Hnew. }
  destruct (Write_file s2 k _ (new_inode sys (system_of nd) (inode c) w mode) buffer F2) as (h3 & E3 & Hc3 & Hold3 & Hkeep3);
    rewrite ?F3; [done|by eexists|done|done|apply Hkeep; by eexists|done|done|cbn; lia|].
  assert (Hwf3 : wf (with_disk h3 s2)) by (by apply wf_with_disk).
  destruct (Read_file (with_disk h3 s2) k _ buffer size_ Hwf3 F2) as (h4 & E4 & _ & _); [done|by eexists|done|done| |lia|].
  { destruct (Hold3 (next_inode (disk s1)) (new_inode sys (system_of nd) (inode c) w mode)) as (m' & Hm' & Em); [by rewrite F3|].
    exists m'. split; [done|]. by rewrite Em. }
  eexists _, _. split_and!; [exact E3|done|by apply Hfinds|exact E4|done].
Qed.
End ramfs.
