(* ===== verification/KVfsDemo.v ===== *)
(** * A small tree

    A file system in memory with a root and the directory ["a"], below a tree of
    nodes that holds the root alone: the states at which the theorems about
    [KVfs] and [KRamfs] are applied. *)

From S2P Require Import Prelude CMem CMonad KPath KPathWords KPathNormal KString KHashMap KVfs KVfsTree KVfsLookup KRamfs KRamfsTheorems.

(** A table of operations whose pointers are all null *)
Definition null_ops {D} : InodeOperations D := InodeOps None None None None None None None None None None None None None None.
Definition null_info {D} : FileSystemInfo D := FSInfo null_ops None None None None.

#[local] Instance demo_fs : FileSystems ram := ramfs_files demo_allocate U null_info.
#[local] Instance demo_laws : Lawful := ramfs_lawful demo_allocate null_info.

Definition a_ : Z := 97.
Definition b_ : Z := 98.

Definition demo_flag (_ : Z) : bool := false.
Definition demo_look := @Lookup ram demo_fs demo_allocate demo_flag U.

Definition after {A B} (d : B) (o : outcome (A * B)) : B := match o with Ret (_, s) => s | _ => d end.

Definition demo_empty : ram := Ram {[1 := MkRAMFS umap_empty 0 0 [a_]]} ∅ 1.
Definition demo_root : ram := after demo_empty (ramfs_Create U 1 0 [a_] (Z.lor S_IFDIR 493) demo_empty).
Definition demo_ram : ram := after demo_empty (ramfs_Create U 1 1 [a_] (Z.lor S_IFDIR 493) demo_root).
Definition demo_vfs : Virtual ram :=
  VFS umap_empty umap_empty {[1 := Node 1 (Some 1) false None (Some root_path) None None []]} 2 demo_ram.

Lemma good_a : good_word [a_].
Proof. split_and!; [split; [done|by repeat constructor]|done|set_solver]. Qed.

Lemma good_b : good_word [b_].
Proof. split_and!; [split; [done|by repeat constructor]|done|set_solver]. Qed.

Lemma demo_empty_wf : ram_wf demo_empty.
Proof.
  split; try done. intros self r Hr. change (systems demo_empty) with ({[1 := MkRAMFS umap_empty 0 0 [a_]]} : gmap Z RAMFS) in Hr. apply lookup_singleton_Some in Hr as [<- <-]. exists ∅. split_and!; try done.
  - apply repr_empty.
  - by intros x [? ?].
  - intros x i. split; [done|]. by intros (n & ? & _).
Qed.

Lemma demo_root_wf : ram_wf demo_root.
Proof.
  destruct (ramfs_Create_spec demo_empty 1 0 (MkRAMFS umap_empty 0 0 [a_]) [a_] (Z.lor S_IFDIR 493) demo_empty_wf) as (h & E & Hwf & _);
    [done|done|apply good_a|by left|]. unfold demo_root. by rewrite E.
Qed.

Lemma demo_ram_wf : ram_wf demo_ram.
Proof.
  destruct (systems demo_root !! 1) as [r|] eqn:Er; [|by vm_compute in Er].
  destruct (inodes demo_root !! 1) as [n|] eqn:En; [|by vm_compute in En].
  destruct (ramfs_Create_spec demo_root 1 1 r [a_] (Z.lor S_IFDIR 493) demo_root_wf Er) as (h & E & Hwf & _).
  - vm_compute in Er. injection Er as <-. done.
  - apply good_a.
  - right. exists n. split; [done|]. vm_compute in En. by injection En as <-.
  - unfold demo_ram. by rewrite E.
Qed.

Lemma demo_wf : wf demo_vfs.
Proof.
  assert (H : forall n c, nodes demo_vfs !! n = Some c -> n = 1 /\ c = Node 1 (Some 1) false None (Some root_path) None None []).
  { intros n c Hc. change (nodes demo_vfs) with ({[1 := Node 1 (Some 1) false None (Some root_path) None None []]} : gmap Z NodeCache) in Hc. by apply lookup_singleton_Some in Hc as [<- <-]. }
  split.
  - intros n c [-> ->]%H. exists 1, []. by eapply At_root.
  - intros n c [-> ->]%H. by eexists.
  - intros n c [-> ->]%H. change (next_node demo_vfs) with 2. lia.
  - intros n c k [-> ->]%H Hk. by apply not_elem_of_nil in Hk.
  - intros n c [-> ->]%H. change (alive demo_ram 1). split; [apply demo_ram_wf|]. destruct (inodes demo_ram !! 1) as [m|] eqn:Em; [|by vm_compute in Em].
    exists m. split; [done|]. vm_compute in Em. injection Em as <-. vm_compute. by eexists.
Qed.

Lemma demo_located : located (nodes demo_vfs) 1 1 [].
Proof. by eapply At_root. Qed.

Lemma demo_current : current demo_flag demo_vfs 1 1 [].
Proof. by intros s' _. Qed.

(** The path ["/b/../a"] and the tree once it was searched. *)
Definition demo_path : list Z := [slash; b_; slash; dot; dot; slash; a_].
Definition demo_found : Virtual ram := after demo_vfs (demo_look 1 demo_path demo_vfs).

Lemma demo_look_found : demo_look 1 demo_path demo_vfs = Ret (Go (Some 2, 0), demo_found).
Proof. vm_compute. reflexivity. Qed.

Lemma demo_found_wf : wf demo_found /\ exists c, nodes demo_found !! 2 = Some c /\ located (nodes demo_found) 1 2 [[a_]].
Proof.
  destruct (descend_spec demo_flag [[a_]] demo_vfs 1 1 [] demo_wf demo_located ltac:(constructor; [apply good_a|constructor]))
    as (e & s' & E & Hwf & _ & _ & _ & Hcase).
  assert (E' : descend demo_flag 1 [[a_]] demo_vfs = Ret (Go (Some 2, 0), demo_found)) by (vm_compute; reflexivity).
  revert E'. generalize demo_found. intros d E'. pose proof (eq_trans (eq_sym E') E) as H. injection H as <- <-. split; [exact Hwf|]. destruct Hcase as [(k & [= <-] & Hl & _)|(err & [=] & _)].
  destruct (located_lookup _ _ _ _ Hl) as (c & Hc & _). exists c. split; [exact Hc|exact Hl].
Qed.

Lemma Lookup_correct_witness : exists k s', demo_look 1 demo_path demo_vfs = Ret (Go (Some k, 0), s') /\ wf s' /\ located (nodes s') 1 k [[a_]].
Proof.
  destruct (Lookup_correct demo_allocate demo_flag demo_allocate_length demo_vfs 1 1 _ [] demo_path demo_wf
    ltac:(reflexivity) demo_located) as (e & s' & E & Hwf & _ & _ & Hk & _).
  - set_solver.
  - cbn. lia.
  - destruct (Hk (or_introl eq_refl)) as [(k & -> & Hl)|(err & -> & Herr)].
    + exists k, s'. exact (conj E (conj Hwf Hl)).
    + exfalso. pose proof (eq_trans (eq_sym demo_look_found) E) as E'. revert E'. generalize demo_found. intros d E'. discriminate E'.
Defined.

Lemma Lookup_again_witness : demo_look 1 [a_] demo_found = Ret (Go (Some 2, 0), demo_found).
Proof.
  refine (Lookup_again demo_allocate demo_flag demo_allocate_length demo_vfs 1 1 _ [] demo_path 2 demo_found 1 _ [] [a_]
    demo_wf ltac:(reflexivity) demo_located _ _ _ _ demo_look_found ltac:(vm_compute; reflexivity) _ _ _ _ _).
  - set_solver.
  - cbn. lia.
  - by intros [?|?].
  - done.
  - eapply At_root; vm_compute; reflexivity.
  - set_solver.
  - cbn. lia.
  - by intros [?|?].
  - vm_compute. reflexivity.
Defined.

Lemma Lookup_up_to_root_stays_witness : (2 <> 1) /\ demo_look 2 [dot; dot; slash] demo_found = Ret (Go (Some 2, 0), demo_found).
Proof.
  destruct demo_found_wf as (Hwf & c & Hc & Hl).
  apply (Lookup_up_to_root_stays demo_allocate demo_flag demo_allocate_length demo_found 1 2 c [a_] Hwf Hc Hl). cbn. lia.
Defined.

Lemma demo_missing : demo_look 1 [b_] demo_vfs = Ret (Go (None, - K_ENOENT), demo_vfs).
Proof. vm_compute. reflexivity. Qed.

Lemma demo_room : ram_room demo_ram.
Proof.
  intros self r Hr. destruct (decide (self = 1)) as [->|Hne].
  - vm_compute in Hr. injection Hr as <-. cbn. lia.
  - exfalso. assert (exists x, systems demo_ram = <[1 := x]> ∅) as [x E] by (eexists; vm_compute; reflexivity).
    rewrite E in Hr. rewrite (lookup_insert_ne _ 1 self _ (not_eq_sym Hne)), lookup_empty in Hr. discriminate Hr.
Qed.

Definition demo_regular : Z := Z.lor S_IFREG 420.
Definition demo_new : Z * Z * ram :=
  match ramfs_Create U 1 1 [b_] demo_regular demo_ram with Ret r => r | _ => (0, 0, demo_ram) end.

Lemma Create_correct_witness : exists k s',
  Create demo_allocate demo_flag U 1 [b_] demo_regular true demo_vfs = Ret (Go (Some k, 0), s') /\ wf s' /\ located (nodes s') 1 k [[b_]].
Proof.
  destruct (Create_correct demo_allocate demo_flag demo_allocate_length demo_vfs 1 1 _ 1 [] [b_] demo_regular (None, - K_ENOENT) demo_vfs
    demo_wf ltac:(reflexivity) demo_located demo_current good_b ltac:(cbn; lia) ltac:(reflexivity) demo_missing) as [_ H].
  destruct (H eq_refl _ (snd (fst demo_new)) (snd demo_new) eq_refl demo_room) as (k & s' & E & _ & _ & Hwf & _ & Hl & _).
  - vm_compute. reflexivity.
  - exists k, s'. exact (conj E (conj Hwf Hl)).
Defined.

Lemma create_write_read_witness : exists k s2 s3 s4,
  Create demo_allocate demo_flag U 1 [b_] demo_regular true demo_vfs = Ret (Go (Some k, 0), s2) /\
  Write k [1; 2; 3] 0 s2 = Ret (Go 3, s3) /\ Read k 8 0 s3 = Ret (Go (3, [1; 2; 3]), s4).
Proof.
  destruct (create_write_read demo_allocate demo_allocate_length null_info demo_flag demo_vfs 1 1 _ 1 [] [b_] demo_regular (None, - K_ENOENT) demo_vfs
    [1; 2; 3] 8 demo_wf ltac:(reflexivity) demo_located demo_current good_b ltac:(cbn; lia) ltac:(reflexivity) demo_missing)
    as (k & s2 & E2 & _ & _ & s3 & s4 & E3 & _ & _ & E4 & _).
  - reflexivity.
  - apply demo_room.
  - reflexivity.
  - done.
  - cbn. lia.
  - exists k, s2, s3, s4. exact (conj E2 (conj E3 E4)).
Defined.

Lemma ramfs_write_then_read_witness : exists h' h'',
  ramfs_Write demo_allocate 2 [1; 2; 3] 0 demo_ram = Ret (3, h') /\ ramfs_Read 2 2 0 h' = Ret (2, [1; 2], h'').
Proof.
  destruct (ramfs_write_then_read demo_allocate demo_allocate_length demo_ram 2
    (default (new_inode (MkRAMFS umap_empty 0 0 []) 0 0 [] 0) (inodes demo_ram !! 2)) [1; 2; 3] 2 demo_ram_wf) as (h' & h'' & E & _ & E' & _).
  - vm_compute. reflexivity.
  - vm_compute. by eexists.
  - done.
  - vm_compute. reflexivity.
  - lia.
  - exists h', h''. exact (conj E E').
Defined.

Lemma demo_contains : exists h, contains h 2 [1; 2; 3].
Proof.
  destruct (write_contains demo_allocate demo_allocate_length demo_ram 2
    (default (new_inode (MkRAMFS umap_empty 0 0 []) 0 0 [] 0) (inodes demo_ram !! 2)) [1; 2; 3] demo_ram_wf) as (h & _ & Hc & _).
  - vm_compute. reflexivity.
  - vm_compute. by eexists.
  - done.
  - vm_compute. reflexivity.
  - exists h. exact Hc.
Qed.

Lemma ramfs_read_ignores_offset_witness : exists h h' h'',
  ramfs_Read 2 1 1 h = Ret (1, [1], h') /\ ramfs_Read 2 2 2 h = Ret (3, [1; 2; 3], h'').
Proof.
  destruct demo_contains as [h Hc]. exists h.
  destruct (ramfs_read_ignores_offset h 2 [1; 2; 3] 1 1 Hc) as [h' E']; [lia|cbn; lia|].
  destruct (ramfs_read_ignores_offset h 2 [1; 2; 3] 2 2 Hc) as [h'' E'']; [lia|cbn; lia|]. exists h', h''. exact (conj E' E'').
Defined.

Lemma ReadDir_shows_no_files_witness : exists ret ents, ramfs_ReadDir 1 4096 0 100 demo_ram = Ret (ret, ents) /\ (length ents <= 2)%nat.
Proof.
  destruct (ReadDir_shows_no_files demo_ram 1
    (default (new_inode (MkRAMFS umap_empty 0 0 []) 0 0 [] 0) (inodes demo_ram !! 1)) 4096 0 100 demo_ram_wf) as (ret & ents & E & _ & Hl).
  - vm_compute. reflexivity.
  - done.
  - exists ret, ents. exact (conj E Hl).
Defined.
