(* ===== verification/KUstar.v ===== *)
(** * The archive that the kernel boots from

    The model of [src/Kernel/fs/ustar.cpp] and [include/fs/ustar.hpp]: reading a
    tar archive that is in memory, and the file system that it makes.

    The headers are read from the memory [u_mem]; a [USTARInode *] is a key of
    the heap of inodes and an [Inode *] the same pointer; 0 is the null pointer.
    There is one archive, so that the pointer to it in an inode is left out, and
    so is the tree that a debug build prints.  [Check] is what [Memory::Virtual::Check] says of an
    address, [fresh] the address of a new header, and [old_mode] what the caller
    of [Stat] left in the mode.  A failed assertion, which stops the kernel, is
    [Fault] here. *)

From S2P Require Import Prelude CMem CMonad KPath KString KHashMap KVfs KRamfs.

(** [enum TypeFlag] *)
Definition AREGTYPE : Z := 0.
Definition REGTYPE : Z := 48.
Definition LNKTYPE : Z := 49.
Definition SYMTYPE : Z := 50.
Definition CHRTYPE : Z := 51.
Definition BLKTYPE : Z := 52.
Definition DIRTYPE : Z := 53.
Definition FIFOTYPE : Z := 54.

(** [enum ModeFlag], in the order in which the code tests the bits; the bits of
    a mode have the same values. *)
Definition ModeFlags : list Z := [2048; 1024; 512; 256; 128; 64; 32; 16; 8; 4; 2; 1].

(** [struct FileHeader]: the offsets of its fields *)
Definition h_name : Z := 0.
Definition h_mode : Z := 100.
Definition h_uid : Z := 108.
Definition h_gid : Z := 116.
Definition h_size : Z := 124.
Definition h_mtime : Z := 136.
Definition h_typeflag : Z := 156.
Definition h_link : Z := 157.
Definition h_signature : Z := 257.
Definition h_version : Z := 263.
Definition h_dev_maj : Z := 329.
Definition h_dev_min : Z := 337.
Definition sizeof_FileHeader : Z := 512.

Definition TMAGIC : list Z := [117; 115; 116; 97; 114].
Definition TVERSION : list Z := [48; 48].

(** [struct USTARInode] *)
Record USTARInode : Type := UInode {
  u_Node : Inode;
  u_Header : Z;
  u_Parent : option Z;
  u_Name : list Z;
  u_Path : list Z;
  u_Children : list Z;
  u_Deleted : bool
}.

Abbreviation heap := (gmap Z USTARInode).

Record ustar : Type := Ustar {
  u_mem : mem;
  u_heap : heap;
  u_next : Z;
  u_Files : unordered_map Z Z;
  u_DeviceID : Z;
  u_NextInode : Z
}.

Definition ustar_new (m : mem) : ustar := Ustar m ∅ 1 umap_empty (u64 (-1)) 0.

(** ** Reading headers *)

Fixpoint string_loop (fuel : nat) (m : mem) (a : Z) : outcome (list Z) :=
  match fuel with
  | O => OutOfFuel
  | S fuel =>
    let! c := load8 m a in
    if c =? 0 then Ret [] else let! l := string_loop fuel m (a + 1) in Ret (c :: l)
  end.

(** The C string at an address *)
Definition string_at (m : mem) (a : Z) : outcome (list Z) := string_loop (loop_fuel m) m a.

Definition octal (l : list Z) : Z := foldl (fun ret c => u32 (ret * 8 + (sw 8 c - 48))) 0 l.
Definition GetSize (m : mem) (a : Z) : outcome Z := let! l := string_at m a in Ret (octal l).

(** [StringToInt] takes the digits for decimal ones. *)
Definition StringToInt (m : mem) (a : Z) : outcome Z :=
  let! l := string_at m a in Ret (foldl (fun ret c => s32 (ret * 10 + (sw 8 c - 48))) 0 l).

(** [strncmp (a, lit, |lit|) == 0] *)
Fixpoint same_bytes (m : mem) (a : Z) (lit : list Z) : outcome bool :=
  match lit with
  | [] => Ret true
  | c :: lit =>
    let! b := load8 m a in
    if negb (b =? c) then Ret false
    else if b =? 0 then Ret true
    else same_bytes m (a + 1) lit
  end.

(** The chain of [else if]: the first bit of the list that is set *)
Fixpoint first_flag (l : list Z) (mode : Z) : Z :=
  match l with
  | [] => 0
  | b :: l => if negb (Z.land mode b =? 0) then b else first_flag l mode
  end.

Definition type_mode (typeflag : Z) : Z :=
  if (typeflag =? AREGTYPE) || (typeflag =? REGTYPE) then S_IFREG
  else if (typeflag =? LNKTYPE) || (typeflag =? SYMTYPE) then S_IFLNK
  else if typeflag =? CHRTYPE then S_IFCHR
  else if typeflag =? BLKTYPE then S_IFBLK
  else if typeflag =? DIRTYPE then S_IFDIR
  else if typeflag =? FIFOTYPE then S_IFIFO
  else 0.

(** [Inode ()]: the constructor clears every member. *)
Definition Inode_new : Inode := MkInode 0 0 0 0 0 0 0.

(** [SetMode] of [ReadArchive], which adds bits to the [Mode] that the inode has;
    [Stat] adds the same bits to its own. *)
Definition SetMode (m : mem) (header mode : Z) : outcome Z :=
  let! hdrMode := StringToInt m (header + h_mode) in
  let! t := load8 m (header + h_typeflag) in
  Ret (Z.lor (Z.lor mode (first_flag ModeFlags hdrMode)) (type_mode t)).

Definition the_unode (i : Z) (h : heap) : outcome USTARInode :=
  match h !! i with Some n => Ret n | None => Fault end.

Definition with_uchildren (l : list Z) (n : USTARInode) : USTARInode :=
  UInode (u_Node n) (u_Header n) (u_Parent n) (u_Name n) (u_Path n) l (u_Deleted n).
Definition with_uparent (p : Z) (n : USTARInode) : USTARInode :=
  UInode (u_Node n) (u_Header n) (Some p) (u_Name n) (u_Path n) (u_Children n) (u_Deleted n).
Definition with_offset (o : Z) (n : USTARInode) : USTARInode :=
  UInode (MkInode (i_Device (u_Node n)) (i_RawDevice (u_Node n)) (i_Index (u_Node n)) (i_Mode (u_Node n)) (i_Flags (u_Node n)) o
           (i_PrivateData (u_Node n))) (u_Header n) (u_Parent n) (u_Name n) (u_Path n) (u_Children n) (u_Deleted n).

(** [parent->Children.push_back (file); file->Parent = parent] *)
Definition adopt (parent file : Z) (h : heap) : outcome heap :=
  let! p := the_unode parent h in
  let h := <[parent := with_uchildren (u_Children p ++ [file]) p]> h in
  let! f := the_unode file h in
  Ret (<[file := with_uparent parent f]> h).

Section ustar.
Context (Check : Z -> bool) (fresh : mem -> Z) (path_style : cwk_path_style) (old_mode : Z) (unset : FileSystemInfo ustar).

Definition TestArchive (m : mem) (Address : Z) : outcome bool :=
  if negb (Check Address) then Ret false
  else
    let! full := same_bytes m (Address + h_signature) (TMAGIC ++ [0]) in
    if full : bool then Ret true else same_bytes m (Address + h_signature) TMAGIC.

(** ** The loop over the headers *)

(** ["./foo" > "/foo"] in place *)
Definition drop_dot (m : mem) (header : Z) : outcome mem :=
  let! c0 := load8 m (header + h_name) in
  let! dotted := if c0 =? dot then let! c1 := load8 m (header + h_name + 1) in Ret (c1 =? slash) else Ret false in
  if dotted : bool then
    let! l := string_at m (header + h_name) in
    store_bytes m (header + h_name) (drop 1 l ++ [0])
  else Ret m.

Definition next_header (Address size_ : Z) : Z :=
  let Address := u64 (Address + (size_ / 512 + 1) * 512) in
  if negb (size_ mod 512 =? 0) then u64 (Address + 512) else Address.

(** The inode of one header *)
Definition read_header (header : Z) (u : ustar) : outcome (Z * ustar) :=
  let! m := drop_dot (u_mem u) header in
  let! name := string_at m (header + h_name) in
  let uNode := Inode_new in
  let! mode := SetMode m header (i_Mode uNode) in
  let! base := cwk_path_get_basename path_style name in
  let! Name := match base with Some (b, length_) => chars name b length_ | None => Ret name end in
  let node := UInode (MkInode (u_DeviceID u) 0 (u_NextInode u) mode (i_Flags uNode) 0 0) header None Name name [] false in
  let i := u_next u in
  Ret (i, Ustar m (<[i := node]> (u_heap u)) (i + 1) (snd (umap_insert hash_u64 (u_Files u) (u_NextInode u) i)) (u_DeviceID u) (u_NextInode u)).

(** [None] when a header is not mapped: then nothing else is done. *)
Fixpoint scan (fuel : nat) (header : Z) (u : ustar) (tmpNodes : list Z) : outcome (option (list Z) * ustar) :=
  match fuel with
  | O => OutOfFuel
  | S fuel =>
    if negb (Check header) then Ret (None, u)
    else
      let! ok := same_bytes (u_mem u) (header + h_signature) TMAGIC in
      if negb ok then Ret (Some tmpNodes, u)
      else
        let! (i, u) := read_header header u in
        let! size_ := GetSize (u_mem u) (header + h_size) in
        scan fuel (next_header header size_)
          (Ustar (u_mem u) (u_heap u) (u_next u) (u_Files u) (u_DeviceID u) (u64 (u_NextInode u + 1))) (tmpNodes ++ [i])
  end.

(** ** The tree *)

(** The stack of directories, its back first; [pathStack] has their paths. *)
Definition path_of (i : Z) (h : heap) : outcome (list Z) := let! n := the_unode i h in Ret (u_Path n).

Fixpoint pop_to (h : heap) (dirName : list Z) (stack : list Z) : outcome (list Z) :=
  match stack with
  | [] => Ret []
  | d :: rest => let! p := path_of d h in if decide (dirName = p) then Ret stack else pop_to h dirName rest
  end.

Fixpoint on_stack (h : heap) (dirName : list Z) (stack : list Z) : outcome bool :=
  match stack with
  | [] => Ret false
  | d :: rest => let! p := path_of d h in if decide (dirName = p) then Ret true else on_stack h dirName rest
  end.

Definition add_to_top (file : Z) (stack : list Z) (h : heap) : outcome heap :=
  match stack with [] => Fault | d :: _ => adopt d file h end.

(** [for (i = 0; i < parentStack.size (); i++)] of a file, which goes on after
    the directory was found *)
Fixpoint file_loop (fuel : nat) (i : nat) (dirName : list Z) (file : Z) (stack : list Z) (h : heap) : outcome (list Z * heap) :=
  match fuel with
  | O => OutOfFuel
  | S fuel =>
    match reverse stack !! i with
    | None => Ret (stack, h)
    | Some d =>
      let! p := path_of d h in
      if decide (dirName = p) then
        let! stack := pop_to h dirName stack in
        let! h := add_to_top file stack h in
        file_loop fuel (S i) dirName file stack h
      else file_loop fuel (S i) dirName file stack h
    end
  end.

Definition dirname (path : list Z) : outcome (list Z) :=
  let! n := cwk_path_get_dirname path_style path in chars path 0 n.

Definition build_dir (file : Z) (dirName : list Z) (stack : list Z) (h : heap) : outcome (list Z * heap) :=
  match stack with
  | [] => Fault
  | top :: _ =>
    let! p := path_of top h in
    if decide (dirName = p) then let! h := adopt top file h in Ret (file :: stack, h)
    else
      let! found_ := on_stack h dirName stack in
      let! stack := if found_ : bool then pop_to h dirName stack else Ret (drop 1 stack) in
      let! h := add_to_top file stack h in
      Ret (file :: stack, h)
  end.

Definition build_file (file : Z) (dirName : list Z) (stack : list Z) (h : heap) : outcome (list Z * heap) :=
  match stack with
  | [] => Fault
  | top :: _ =>
    let! p := path_of top h in
    if decide (dirName = p) then let! h := adopt top file h in Ret (stack, h)
    else file_loop (S (length stack)) 0 dirName file stack h
  end.

Fixpoint build (files : list Z) (stack : list Z) (h : heap) : outcome heap :=
  match files with
  | [] => Ret h
  | file :: files =>
    let! path := path_of file h in
    if decide (path = root_path) then build files (file :: stack) h
    else
      match list.last path with
      | None => Fault
      | Some c =>
        let! dirName := dirname path in
        let! (stack, h) := if c =? slash then build_dir file dirName stack h else build_file file dirName stack h in
        build files stack h
      end
  end.

(** [ustarTree]: the position of every node in its directory, counted from 2 *)
Fixpoint offsets_loop (visit : Z -> heap -> outcome heap) (offset : Z) (l : list Z) (h : heap) : outcome heap :=
  match l with
  | [] => Ret h
  | k :: l =>
    let! c := the_unode k h in
    let! h := visit k (<[k := with_offset offset c]> h) in
    offsets_loop visit (offset + 1) l h
  end.

Fixpoint set_offsets (fuel : nat) (i : Z) (h : heap) : outcome heap :=
  match fuel with
  | O => OutOfFuel
  | S fuel =>
    let! n := the_unode i h in
    offsets_loop (set_offsets fuel) 2 (u_Children n) h
  end.

Definition with_heap (h : heap) (u : ustar) : ustar := Ustar (u_mem u) h (u_next u) (u_Files u) (u_DeviceID u) (u_NextInode u).

Definition ReadArchive (Address : Z) (u : ustar) : outcome ustar :=
  let! (tmpNodes, u) := scan (loop_fuel (u_mem u)) Address u [] in
  match tmpNodes with
  | None => Ret u
  | Some [] => Fault
  | Some (r :: l) =>
    let! h := build (r :: l) [] (u_heap u) in
    let! h := set_offsets (S (size h)) r h in
    Ret (with_heap h u)
  end.

(** ** The operations *)

Definition ufile_of (i : Z) (u : ustar) : outcome (Z * USTARInode * ustar) :=
  let! n := the_unode i (u_heap u) in
  let '(v, files) := umap_find hash_u64 (u_Files u) (i_Index (u_Node n)) in
  match v with
  | None => Fault
  | Some k =>
    let! n := the_unode k (u_heap u) in
    Ret (k, n, Ustar (u_mem u) (u_heap u) (u_next u) files (u_DeviceID u) (u_NextInode u))
  end.

Fixpoint find_unode (h : heap) (name : list Z) (l : list Z) : outcome (option Z) :=
  match l with
  | [] => Ret None
  | i :: l =>
    let! n := the_unode i h in
    if decide (u_Deleted n = false /\ u_Name n = name) then Ret (Some i) else find_unode h name l
  end.

Definition ustar_Lookup (parent : Z) (name : list Z) (u : ustar) : outcome (Z * Z * ustar) :=
  let! base := cwk_path_get_basename path_style name in
  match base with
  | None =>
    if decide (name = root_path) then
      let '(v, files) := umap_at hash_u64 (u_Files u) 0 in
      match v with
      | None => Fault
      | Some i => Ret (0, i, Ustar (u_mem u) (u_heap u) (u_next u) files (u_DeviceID u) (u_NextInode u))
      end
    else Ret (- K_EINVAL, 0, u)
  | Some (b, _) =>
    let basename := drop (Z.to_nat b) name in
    let! l := if parent =? 0 then Ret (snd <$> umap_elements (u_Files u))
              else let! p := the_unode parent (u_heap u) in Ret (u_Children p) in
    let! found_ := find_unode (u_heap u) basename l in
    Ret (match found_ with Some i => (0, i, u) | None => (- K_ENOENT, 0, u) end)
  end.

(** [SetMode] of [Create] *)
Definition mode_type (mode : Z) : Z :=
  let bit b := negb (Z.land mode b =? 0) in
  if bit S_IFREG then REGTYPE
  else if bit S_IFLNK then SYMTYPE
  else if bit S_IFCHR then CHRTYPE
  else if bit S_IFBLK then BLKTYPE
  else if bit S_IFDIR then DIRTYPE
  else if bit S_IFIFO then FIFOTYPE
  else AREGTYPE.

(** ["%07o"] *)
Definition octal7 (n : Z) : list Z := map (fun i => 48 + Z.land (Z.shiftr n (3 * i)) 7) [6; 5; 4; 3; 2; 1; 0].

(** A new header: a block of zeros, and the fields that [Create] fills with the
    [strncpy] of the kernel, which adds a NUL. *)
Definition new_header (m : mem) (mode : Z) (basename : list Z) : outcome (Z * mem) :=
  let a := fresh m in
  let m := write_bytes m a (replicate 512 0) in
  let! m := store_bytes m (a + h_typeflag) [mode_type mode] in
  let! m := store_bytes m (a + h_mode) (octal7 (first_flag ModeFlags mode) ++ [0]) in
  let! m := store_bytes m (a + h_name) (take 100 basename ++ [0]) in
  let! m := store_bytes m (a + h_signature) (TMAGIC ++ [0]) in
  let! m := store_bytes m (a + h_version) (TVERSION ++ [0]) in
  Ret (a, m).

Definition ustar_Create (parent : Z) (name : list Z) (mode : Z) (u : ustar) : outcome (Z * Z * ustar) :=
  let! base := cwk_path_get_basename path_style name in
  match base with
  | None => Fault
  | Some (b, length_) =>
    let! (header, m) := new_header (u_mem u) mode (drop (Z.to_nat b) name) in
    let! Name := chars name b length_ in
    let node := UInode (MkInode (u_DeviceID u) 0 (u_NextInode u) mode 0 0 0) header
                  (if parent =? 0 then None else Some parent) Name name [] false in
    let i := u_next u in
    let h := <[i := node]> (u_heap u) in
    let '(inserted, files) := umap_insert hash_u64 (u_Files u) (u_NextInode u) i in
    if negb inserted then Fault
    else
      let '(v, files) := umap_at hash_u64 files (u_NextInode u) in
      match v with
      | None => Fault
      | Some result =>
        let! h := if parent =? 0 then Ret h else adopt parent result h in
        Ret (0, result, Ustar m h (i + 1) files (u_DeviceID u) (u64 (u_NextInode u + 1)))
      end
  end.

Definition ustar_Read (i size_ offset : Z) (u : ustar) : outcome (Z * list Z * ustar) :=
  let! (_, node, u) := ufile_of i u in
  if u_Deleted node then Ret (- K_ENOENT, [], u)
  else
    let! fileSize := GetSize (u_mem u) (u_Header node + h_size) in
    let size_ := if size_ <=? 0 then fileSize else size_ in
    if u64 offset >? fileSize then Ret (0, [], u)
    else if u64 (fileSize - offset) =? 0 then Ret (0, [], u)
    else
      let size_ := if u64 (u64 offset + size_) >? fileSize then fileSize else size_ in
      let! l := load_bytes (u_mem u) (u_Header node + sizeof_FileHeader + offset) (Z.to_nat size_) in
      Ret (size_, l, u).

Definition entry_of_type (t : Z) : Z :=
  if (t =? AREGTYPE) || (t =? REGTYPE) then DT_REG
  else if (t =? LNKTYPE) || (t =? SYMTYPE) then DT_LNK
  else if t =? CHRTYPE then DT_CHR
  else if t =? BLKTYPE then DT_BLK
  else if t =? DIRTYPE then DT_DIR
  else if t =? FIFOTYPE then DT_FIFO
  else 0.

Fixpoint list_children (u : ustar) (size_ offset max entries total : Z) (l : list Z) : outcome (Z * list kdirent) :=
  match l with
  | [] => Ret (total, [])
  | i :: l =>
    let! var := the_unode i (u_heap u) in
    if i_Offset (u_Node var) <? offset then list_children u size_ offset max entries total l
    else if entries >=? max then Ret (total, [])
    else if u_Deleted var then list_children u size_ offset max entries total l
    else
      let len := reclen (u_Name var) in
      if total + len >? size_ then Ret (total, [])
      else
        let! t := load8 (u_mem u) (u_Header var + h_typeflag) in
        let ent := Dirent (i_Index (u_Node var)) (i_Offset (u_Node var)) len (entry_of_type t) (u_Name var) in
        let! (total, ents) := list_children u size_ offset max (entries + 1) (total + len) l in
        Ret (total, ent :: ents)
  end.

Definition ustar_ReadDir (i size_ offset max : Z) (u : ustar) : outcome (Z * list kdirent) :=
  let! node := the_unode i (u_heap u) in
  let l1 := reclen [dot] in
  let l2 := reclen [dot; dot] in
  if (offset =? 0) && (l1 >=? size_) then Ret (- K_EINVAL, [])
  else
    let ents1 := if offset =? 0 then [Dirent (i_Index (u_Node node)) 0 l1 DT_DIR [dot]] else [] in
    let total1 := if offset =? 0 then l1 else 0 in
    let offset1 := if offset =? 0 then 1 else offset in
    if (offset1 <=? 1) && (total1 + l2 >=? size_) then
      Ret (if offset =? 1 then (- K_EINVAL, []) else (total1, ents1))
    else
      let! ents2 :=
        if offset1 <=? 1 then
          let! up := match u_Parent node with
                     | Some p => let! p := the_unode p (u_heap u) in Ret (i_Index (u_Node p))
                     | None => Ret (i_Index (u_Node node))
                     end in
          Ret [Dirent up offset1 l2 DT_DIR [dot; dot]]
        else Ret [] in
      let total2 := if offset1 <=? 1 then total1 + l2 else total1 in
      let offset2 := if offset1 <=? 1 then offset1 + 1 else offset1 in
      if negb (is_type S_IFDIR (i_Mode (u_Node node))) then Ret (- K_ENOTDIR, ents1 ++ ents2)
      else if (if offset2 >=? 2 then offset2 - 2 else offset2) >? Z.of_nat (length (u_Children node))
      then Ret (- K_EINVAL, ents1 ++ ents2)
      else
        let! (total, ents) := list_children u size_ offset2 max 0 total2 (u_Children node) in
        Ret (total, ents1 ++ ents2 ++ ents).

Definition ustar_SymLink (parent : Z) (name target : list Z) (u : ustar) : outcome (Z * Z * ustar) :=
  let! (ret, i, u) := ustar_Create parent name S_IFLNK u in
  if ret <? 0 then Ret (ret, i, u)
  else
    let! n := the_unode i (u_heap u) in
    let! m := store_bytes (u_mem u) (u_Header n + h_link) (take (Z.to_nat (Z.min 99 (Z.of_nat (length target)))) target ++ [0]) in
    Ret (0, i, Ustar m (u_heap u) (u_next u) (u_Files u) (u_DeviceID u) (u_NextInode u)).

Definition ustar_ReadLink (i size_ : Z) (u : ustar) : outcome (Z * list Z * ustar) :=
  let! (_, node, u) := ufile_of i u in
  if u_Deleted node then Ret (- K_ENOENT, [], u)
  else
    let! link := string_at (u_mem u) (u_Header node + h_link) in
    let size_ := if Z.of_nat (length link) >? size_ then Z.of_nat (length link) else size_ in
    Ret (size_, take (Z.to_nat size_) link ++ [0], u).

Definition ustar_Stat (i : Z) (u : ustar) : outcome (Z * kstat * ustar) :=
  let! self := the_unode i (u_heap u) in
  let! (_, node, u) := ufile_of i u in
  if u_Deleted node then Ret (- K_ENOENT, no_stat, u)
  else
    let field o := GetSize (u_mem u) (u_Header node + o) in
    let! fileSize := field h_size in
    let! uid := field h_uid in
    let! gid := field h_gid in
    let! major := field h_dev_maj in
    let! minor := field h_dev_min in
    let! mtime := field h_mtime in
    let! mode := SetMode (u_mem u) (u_Header node) old_mode in
    Ret (0, KStat (u_DeviceID u) (i_Index (u_Node self)) mode 1 uid gid
              (Z.lor (Z.shiftl (Z.land major 4095) 8) (Z.land minor 255)) fileSize mtime mtime mtime 512 ((fileSize + 511) / 512) 0, u).

Definition ustar_DestroyInode (i : Z) (u : ustar) : outcome (Z * ustar) :=
  let! n := the_unode i (u_heap u) in
  Ret (0, with_heap (<[i := UInode (u_Node n) (u_Header n) (u_Parent n) (u_Name n) (u_Path n) (u_Children n) true]> (u_heap u)) u).

(** As in [KRamfs], the pointers that [TestAndInitializeUSTAR] does not store are
    those that the block held. *)
Definition ustar_ops : InodeOperations ustar :=
  InodeOps (Some ustar_Lookup) (Some ustar_Create) (op_Remove (Ops unset)) (op_Rename (Ops unset)) (Some ustar_Read)
    (op_Write (Ops unset)) (op_Truncate (Ops unset)) (op_Open (Ops unset)) (op_Close (Ops unset)) (Some ustar_ReadLink) (op_Seek (Ops unset))
    (Some ustar_Stat) (Some (fun i size_ offset max u => let! r := ustar_ReadDir i size_ offset max u in Ret (r, u))) (op_Ioctl (Ops unset)).

(** [delete ustar]: its table goes, the inodes stay. *)
Definition ustar_Destroy (u : ustar) : outcome (Z * ustar) :=
  Ret (0, Ustar (u_mem u) (u_heap u) (u_next u) umap_empty (u_DeviceID u) (u_NextInode u)).

#[local] Instance ustar_files : FileSystems ustar := {
  fs_info f := FSInfo ustar_ops (super_Synchronize unset) (Some ustar_Destroy) (super_Mount unset) (super_Probe unset);
  inode_mode u i := let! n := the_unode i (u_heap u) in Ret (i_Mode (u_Node n));
  inode_index u i := let! n := the_unode i (u_heap u) in Ret (i_Index (u_Node n))
}.

Definition with_device (d : Z) (u : ustar) : ustar := Ustar (u_mem u) (u_heap u) (u_next u) (u_Files u) d (u_NextInode u).

(** [TestAndInitializeUSTAR]: the archive becomes the file system [self], whose
    root is made a root of the tree. *)
Definition TestAndInitializeUSTAR (unset_flag : Z -> bool) (self Address index : Z) : ST (Virtual ustar) bool :=
  ok ← (fun s => let! b := TestArchive (u_mem (disk s)) Address in Ret (Go b, s));
  if negb ok then mret false
  else
    device ← RegisterFileSystem self;
    on_disk (fun u => let! u := ReadArchive Address (with_device device u) in Ret (tt, u));;
    rootfs ← on_disk (fun u => let! (_, i, u) := ustar_Lookup 0 root_path u in Ret (i, u));
    assert (negb (rootfs =? 0));;
    node ← Convert unset_flag rootfs;
    c ← get_node node;
    put_node node (Node (inode c) (Some self) true (Some root_path) (Some root_path) (Link c) (Parent c) (Children c));;
    _ ← AddRoot index node false;
    mret true.
End ustar.
