(* ===== verification/KUstarTree.v ===== *)
(** * The tree of an archive

    An archive lists the files of a directory tree, each directory before what
    is in it.  [forest] is such a tree, [listing] the paths in that order, and
    [shape] says that the inodes form the tree: [build] makes it. *)

From S2P Require Import Prelude CMem CMonad KPath KPathWords KPathNormal KString KHashMap KVfs KVfsTree KRamfs KRamfsTheorems KUstar.

(** ** Directory names *)

(** The path of a directory, with its slash at the end *)
Definition dir_path (p : list Z) : Prop := 0 ∉ p /\ list.last p = Some slash.

Lemma sep_slash : sep U slash = true.
Proof. done. Qed.

Lemma basename_at prefix w t : dir_path prefix -> good_word w -> t = [] \/ t = [slash] ->
  cwk_path_get_basename U (prefix ++ w ++ t) = Ret (Some (Z.of_nat (length prefix), Z.of_nat (length w))).
Proof.
  intros [H0 Hlast] (Hw & _ & H0w) Ht. set (p := prefix ++ w ++ t).
  assert (Hp0 : 0 ∉ p) by (unfold p; rewrite !not_elem_of_app; split_and!; [done..|destruct Ht as [->| ->]; set_solver]).
  assert (Hsep : seps U t) by (destruct Ht as [->| ->]; repeat constructor).
  assert (Hsplit : split U p = split U prefix ++ [w]).
  { unfold p. rewrite split_ends by (unfold ends_sep; by rewrite Hlast). f_equal. rewrite split_starts by (by apply starts_seps).
    by rewrite (split_word U w Hw), (split_seps U t Hsep). }
  pose proof (basename_spec p Hp0) as H. rewrite Hsplit in H. destruct (cwk_path_get_basename U p) as [[[b k]|]| |]; try done.
  2: by destruct (split U prefix).
  destruct H as (pre & w' & E & -> & Hb & Htake & Hseps). apply app_inj_tail in E as [_ <-]. rewrite Nat2Z.id in Htake.
  destruct Hw as [Hne Hplain].
  assert (Hl : (length w <= length p - Z.to_nat b)%nat).
  { apply (f_equal length) in Htake. rewrite length_take, length_drop in Htake. lia. }
  assert (Hpos : (0 < length w)%nat) by (destruct w; [done|cbn; lia]).
  assert (Hlp : length p = (length prefix + length w + length t)%nat) by (unfold p; rewrite !length_app; lia).
  assert (Hend : (Z.to_nat b + length w = length prefix + length w)%nat); [|do 3 f_equal; lia].
  destruct (Nat.lt_trichotomy (Z.to_nat b + length w) (length prefix + length w)) as [Hlt|[Heq|Hgt]]; [exfalso|done|exfalso].
  - destruct (lookup_lt_is_Some_2 w (length w - 1) ltac:(lia)) as [c Hc].
    assert (Hpc : drop (Z.to_nat (b + Z.of_nat (length w))) p !! (length prefix + length w - 1 - (Z.to_nat b + length w))%nat = Some c).
    { rewrite lookup_drop. replace (Z.to_nat (b + Z.of_nat (length w)) + _)%nat with (length prefix + (length w - 1))%nat by lia.
      unfold p. rewrite lookup_app_r by lia. rewrite Nat.add_comm, Nat.add_sub. by rewrite lookup_app_l by lia. }
    apply list_elem_of_lookup_2 in Hpc. apply (proj1 (list.Forall_forall _ _) Hseps) in Hpc.
    apply list_elem_of_lookup_2 in Hc. apply (proj1 (list.Forall_forall _ _) Hplain) in Hc. congruence.
  - destruct (lookup_lt_is_Some_2 w (length w - 1) ltac:(lia)) as [c Hc].
    assert (Hpc : t !! (Z.to_nat b - 1 - length prefix)%nat = Some c).
    { rewrite <- Hc. rewrite <- Htake at 2. rewrite lookup_take_lt by lia. rewrite lookup_drop.
      replace (Z.to_nat b + (length w - 1))%nat with (length prefix + (length w + (Z.to_nat b - 1 - length prefix)))%nat by lia.
      unfold p. rewrite lookup_app_r by lia. rewrite Nat.add_comm, Nat.add_sub. rewrite lookup_app_r by lia. f_equal. lia. }
    apply list_elem_of_lookup_2 in Hpc. apply (proj1 (list.Forall_forall _ _) Hsep) in Hpc.
    apply list_elem_of_lookup_2 in Hc. apply (proj1 (list.Forall_forall _ _) Hplain) in Hc. congruence.
Qed.

Lemma dirname_at prefix w t : dir_path prefix -> good_word w -> t = [] \/ t = [slash] ->
  dirname U (prefix ++ w ++ t) = Ret prefix.
Proof.
  intros Hp Hw Ht. pose proof (basename_at prefix w t Hp Hw Ht) as E. unfold cwk_path_get_basename in E. unfold dirname, cwk_path_get_dirname.
  destruct (cwk_path_get_last_segment U (prefix ++ w ++ t)) as [[[|] g]| |]; cbn [obind] in *; try done.
  injection E as -> _. rewrite (chars_spec [] prefix (w ++ t) _ 0) by (done || lia). by rewrite Nat2Z.id, take_ge by done.
Qed.

(** ** Trees *)

Inductive forest : Type :=
| Nil
| File (w data : list Z) (rest : forest)
| Dir (w : list Z) (sub rest : forest).

(** The entries of an archive in its order: path, contents, directory or not *)
Fixpoint listing (prefix : list Z) (f : forest) : list (list Z * list Z * bool) :=
  match f with
  | Nil => []
  | File w data rest => (prefix ++ w, data, false) :: listing prefix rest
  | Dir w sub rest => (prefix ++ w ++ [slash], [], true) :: listing (prefix ++ w ++ [slash]) sub ++ listing prefix rest
  end.

Fixpoint count (f : forest) : nat :=
  match f with
  | Nil => 0
  | File _ _ rest => S (count rest)
  | Dir _ sub rest => S (count sub + count rest)
  end.

Fixpoint good_forest (f : forest) : Prop :=
  match f with
  | Nil => True
  | File w _ rest => good_word w /\ good_forest rest
  | Dir w sub rest => good_word w /\ good_forest sub /\ good_forest rest
  end.

(** The inodes of the topmost entries, when the first one is [n] *)
Fixpoint tops (n : Z) (f : forest) : list Z :=
  match f with
  | Nil => []
  | File _ _ rest => n :: tops (n + 1) rest
  | Dir _ sub rest => n :: tops (n + 1 + Z.of_nat (count sub)) rest
  end.

Lemma length_listing f : forall prefix, length (listing prefix f) = count f.
Proof. induction f; intros prefix; cbn; rewrite ?length_app; auto. Qed.

(** The inode [i] as the archive has it *)
Definition inode_is (h : heap) (i : Z) (path : list Z) (parent : option Z) (children : list Z) : Prop :=
  exists nd, h !! i = Some nd /\ u_Path nd = path /\ u_Parent nd = parent /\ u_Children nd = children.

Fixpoint shape (h : heap) (n : Z) (prefix : list Z) (parent : Z) (f : forest) : Prop :=
  match f with
  | Nil => True
  | File w _ rest => inode_is h n (prefix ++ w) (Some parent) [] /\ shape h (n + 1) prefix parent rest
  | Dir w sub rest =>
    inode_is h n (prefix ++ w ++ [slash]) (Some parent) (tops (n + 1) sub) /\
    shape h (n + 1) (prefix ++ w ++ [slash]) n sub /\ shape h (n + 1 + Z.of_nat (count sub)) prefix parent rest
  end.

(** What changing the tree leaves as it is *)
Definition core (nd : USTARInode) : Inode * Z * list Z * list Z * bool := (u_Node nd, u_Header nd, u_Name nd, u_Path nd, u_Deleted nd).
Definition same_core (h h' : heap) : Prop := forall x, core <$> h' !! x = core <$> h !! x.

Lemma same_core_refl h : same_core h h.
Proof. by intros x. Qed.
Lemma same_core_trans h1 h2 h3 : same_core h1 h2 -> same_core h2 h3 -> same_core h1 h3.
Proof. intros H1 H2 x. by rewrite H2, H1. Qed.

Lemma same_core_some h h' x nd : same_core h h' -> h !! x = Some nd -> exists nd', h' !! x = Some nd' /\ core nd' = core nd.
Proof. intros H Hx. specialize (H x). rewrite Hx in H. destruct (h' !! x) as [nd'|]; [|done]. injection H as H. exists nd'. unfold core. by split; [|congruence]. Qed.

Lemma shape_ext f : forall h h' n prefix parent, (forall x, n <= x < n + Z.of_nat (count f) -> h' !! x = h !! x) ->
  shape h n prefix parent f -> shape h' n prefix parent f.
Proof.
  induction f as [|w data rest IH|w sub IHs rest IH]; intros h h' n prefix parent He; cbn [shape count] in *; [done| |].
  - intros [Hi Hr]. split; [unfold inode_is; rewrite He by lia; done|]. eapply IH; [|exact Hr]. intros x Hx. apply He. lia.
  - intros (Hi & Hs & Hr). split_and!.
    + unfold inode_is. rewrite He by lia. done.
    + eapply IHs; [|exact Hs]. intros x Hx. apply He. lia.
    + eapply IH; [|exact Hr]. intros x Hx. apply He. lia.
Qed.

(** ** One step *)

(** A directory on the stack has a path of this size. *)
Definition on_path (h : heap) (R : nat -> Prop) (d : Z) : Prop := exists nd, h !! d = Some nd /\ R (length (u_Path nd)).

Lemma path_of_some h d nd : h !! d = Some nd -> path_of d h = Ret (u_Path nd).
Proof. intros H. unfold path_of, the_unode. by rewrite H. Qed.

Section step.
Context (h : heap) (prefix : list Z) (d : Z) (pd : USTARInode) (extra rest : list Z).
Context (Hd : h !! d = Some pd) (Hpath : u_Path pd = prefix).
Context (Hextra : Forall (on_path h (fun n => (length prefix < n)%nat)) extra).
Context (Hrest : Forall (on_path h (fun n => (n < length prefix)%nat)) rest).

Lemma path_differs x R : on_path h R x -> ~ R (length prefix) -> exists p, path_of x h = Ret p /\ prefix <> p.
Proof using Type. intros (nd & Hx & HR) Hn. exists (u_Path nd). split; [by apply path_of_some|]. intros E. apply Hn. by rewrite E. Qed.

Lemma pop_to_spec : pop_to h prefix (extra ++ d :: rest) = Ret (d :: rest).
Proof using Hd Hpath Hextra.
  clear Hrest. induction Hextra as [|x l Hx Hl IH]; cbn [app pop_to].
  - rewrite (path_of_some _ _ _ Hd). cbn [obind]. by rewrite decide_True.
  - destruct (path_differs x _ Hx ltac:(cbn; lia)) as (p & -> & Hne). cbn [obind]. rewrite decide_False by done. by apply IH.
Qed.

Lemma on_stack_spec : on_stack h prefix (extra ++ d :: rest) = Ret true.
Proof using Hd Hpath Hextra.
  clear Hrest. induction Hextra as [|x l Hx Hl IH]; cbn [app on_stack].
  - rewrite (path_of_some _ _ _ Hd). cbn [obind]. by rewrite decide_True.
  - destruct (path_differs x _ Hx ltac:(cbn; lia)) as (p & -> & Hne). cbn [obind]. rewrite decide_False by done. by apply IH.
Qed.

Definition adopted (i : Z) (nd : USTARInode) : heap :=
  <[i := with_uparent d nd]> (<[d := with_uchildren (u_Children pd ++ [i]) pd]> h).

Context (i : Z) (nd : USTARInode) (Hi : h !! i = Some nd) (Hne : i <> d).

Lemma adopt_run : adopt d i h = Ret (adopted i nd).
Proof using Hd Hi Hne.
  unfold adopt, the_unode. rewrite Hd. cbn [obind]. rewrite lookup_insert_ne by done. by rewrite Hi.
Qed.

Lemma build_dir_run : build_dir i prefix (extra ++ d :: rest) h = Ret (i :: d :: rest, adopted i nd).
Proof using Hd Hpath Hextra Hi Hne.
  pose proof pop_to_spec as Hpop. pose proof on_stack_spec as Hon. unfold build_dir.
  destruct extra as [|x l]; cbn [app] in *.
  - rewrite (path_of_some _ _ _ Hd). cbn [obind]. rewrite decide_True by done. by rewrite adopt_run.
  - apply Forall_cons_1 in Hextra as [Hx _]. destruct (path_differs x _ Hx ltac:(cbn; lia)) as (p & -> & Hp). cbn [obind].
    rewrite decide_False by done. rewrite Hon. cbn [obind]. rewrite Hpop. cbn [obind add_to_top]. by rewrite adopt_run.
Qed.

Lemma file_loop_skip k : (k <= length rest)%nat -> forall fuel,
  file_loop (k + fuel) (length rest - k) prefix i (extra ++ d :: rest) h = file_loop fuel (length rest) prefix i (extra ++ d :: rest) h.
Proof using Hrest.
  induction k as [|k IH]; intros Hk fuel; [by rewrite Nat.sub_0_r|]. cbn [Nat.add file_loop].
  destruct (lookup_lt_is_Some_2 (reverse rest) (length rest - S k)) as [x Hx]; [rewrite length_reverse; lia|].
  rewrite reverse_app, reverse_cons, <- app_assoc, lookup_app_l by (rewrite length_reverse; lia). rewrite Hx.
  apply list_elem_of_lookup_2 in Hx. rewrite elem_of_reverse in Hx. apply (proj1 (list.Forall_forall _ _) Hrest) in Hx.
  destruct (path_differs x _ Hx ltac:(cbn; lia)) as (p & -> & Hp). cbn [obind]. rewrite decide_False by done.
  replace (S (length rest - S k)) with (length rest - k)%nat by lia. apply IH. lia.
Qed.

Lemma build_file_run : build_file i prefix (extra ++ d :: rest) h = Ret (d :: rest, adopted i nd).
Proof using Hd Hpath Hextra Hrest Hi Hne.
  pose proof pop_to_spec as Hpop. unfold build_file.
  assert (Hloop : file_loop (S (length (extra ++ d :: rest))) 0 prefix i (extra ++ d :: rest) h = Ret (d :: rest, adopted i nd)).
  { rewrite <- (Nat.sub_diag (length rest)). rewrite length_app. cbn [length].
    replace (S (length extra + S (length rest)))%nat with (length rest + S (S (length extra)))%nat by lia.
    rewrite file_loop_skip by done. cbn [file_loop].
    assert (Ed : reverse (extra ++ d :: rest) !! length rest = Some d).
    { rewrite reverse_app, reverse_cons, <- app_assoc. rewrite lookup_app_r by (by rewrite length_reverse). by rewrite length_reverse, Nat.sub_diag. }
    rewrite Ed, (path_of_some _ _ _ Hd). cbn [obind]. rewrite decide_True by done. rewrite Hpop. cbn [obind add_to_top].
    rewrite adopt_run. cbn [obind]. rewrite lookup_ge_None_2; [done|]. rewrite length_reverse. cbn [length]. lia. }
  destruct extra as [|x l] eqn:E; cbn [app] in *.
  - rewrite (path_of_some _ _ _ Hd). cbn [obind]. rewrite decide_True by done. by rewrite adopt_run.
  - apply Forall_cons_1 in Hextra as [Hx _]. destruct (path_differs x _ Hx ltac:(cbn; lia)) as (p & -> & Hp). cbn [obind].
    rewrite decide_False by done. exact Hloop.
Qed.

Lemma adopted_core : same_core h (adopted i nd).
Proof using Hd Hi Hne.
  intros x. unfold adopted. destruct (decide (x = i)) as [->|Hx]; [by rewrite lookup_insert_eq, Hi|]. rewrite lookup_insert_ne by done.
  destruct (decide (x = d)) as [->|Hxd]; [by rewrite lookup_insert_eq, Hd|by rewrite lookup_insert_ne].
Qed.

Lemma adopted_other x : x <> i -> x <> d -> adopted i nd !! x = h !! x.
Proof using Type. intros H1 H2. unfold adopted. by rewrite !lookup_insert_ne. Qed.
Lemma adopted_dir : adopted i nd !! d = Some (with_uchildren (u_Children pd ++ [i]) pd).
Proof using Hne. unfold adopted. by rewrite lookup_insert_ne, lookup_insert_eq. Qed.
Lemma adopted_new : adopted i nd !! i = Some (with_uparent d nd).
Proof using Type. unfold adopted. apply lookup_insert_eq. Qed.
End step.

(** ** The whole tree *)

(** The entries of a listing are inodes, from [n] on, without children yet. *)
Definition unplaced (h : heap) (n : Z) (l : list (list Z * list Z * bool)) : Prop :=
  forall k e, l !! k = Some e -> exists nd, h !! (n + Z.of_nat k) = Some nd /\ u_Path nd = fst (fst e) /\ u_Children nd = [].

Lemma on_path_core h h' R x : same_core h h' -> on_path h R x -> on_path h' R x.
Proof.
  intros Hc (nd & Hx & HR). destruct (same_core_some _ _ _ _ Hc Hx) as (nd' & Hx' & E). exists nd'. split; [done|].
  unfold core in E. injection E as _ _ _ -> _. done.
Qed.

Lemma on_path_all h h' R l : same_core h h' -> Forall (on_path h R) l -> Forall (on_path h' R) l.
Proof. intros Hc H. eapply list.Forall_impl; [exact H|]. intros x. by apply on_path_core. Qed.

Record built (h h' : heap) (n : Z) (prefix : list Z) (d : Z) (pd : USTARInode) (f : forest) (extra : list Z) : Prop := Built {
  b_core : same_core h h';
  b_dir : h' !! d = Some (with_uchildren (u_Children pd ++ tops n f) pd);
  b_other : forall x, x <> d -> ~ (n <= x < n + Z.of_nat (count f)) -> h' !! x = h !! x;
  b_shape : shape h' n prefix d f;
  b_extra : Forall (on_path h' (fun k => (length prefix < k)%nat)) extra
}.

Lemma dir_path_sub prefix w : dir_path prefix -> good_word w -> dir_path (prefix ++ w ++ [slash]).
Proof.
  intros [H0 _] (_ & _ & Hw). split.
  - rewrite !not_elem_of_app. split_and!; [done..|]. set_solver.
  - by rewrite app_assoc, last_snoc.
Qed.

(** The next entry: how the loop goes on *)
Lemma build_next prefix w t c i nd files stack h : dir_path prefix -> good_word w -> (t = [] \/ t = [slash]) -> h !! i = Some nd ->
  u_Path nd = prefix ++ w ++ t -> list.last (prefix ++ w ++ t) = Some c ->
  build U (i :: files) stack h =
    let! (stack, h) := if c =? slash then build_dir i prefix stack h else build_file i prefix stack h in build U files stack h.
Proof.
  intros Hp Hw Ht Hi Hpath Hc. cbn [build]. rewrite (path_of_some _ _ _ Hi), Hpath. cbn [obind]. rewrite decide_False.
  - rewrite Hc, (dirname_at prefix w t) by done. done.
  - intros E. apply (f_equal length) in E. rewrite !length_app in E. destruct Hp as [_ Hl], Hw as [[Hne _] _].
    destruct prefix; [done|]. destruct w; [done|]. cbn in E. lia.
Qed.

Lemma word_last prefix w : good_word w -> exists c, list.last (prefix ++ w ++ []) = Some c /\ c =? slash = false.
Proof.
  intros ([Hne Hp] & _). rewrite app_nil_r. destruct w as [|c w _] using rev_ind; [done|]. exists c. rewrite app_assoc, last_snoc. split; [done|].
  apply Forall_app in Hp as [_ Hc]. apply Forall_cons_1 in Hc as [Hc _]. apply Z.eqb_neq. intros ->. done.
Qed.

Lemma build_forest f : forall prefix n d pd extra rest more h, good_forest f -> dir_path prefix ->
  h !! d = Some pd -> u_Path pd = prefix -> d < n ->
  Forall (on_path h (fun k => (length prefix < k)%nat)) extra -> Forall (on_path h (fun k => (k < length prefix)%nat)) rest ->
  unplaced h n (listing prefix f) ->
  exists h' extra', build U (seqZ n (Z.of_nat (count f)) ++ more) (extra ++ d :: rest) h = build U more (extra' ++ d :: rest) h' /\
    built h h' n prefix d pd f extra'.
Proof.
  induction f as [|w data tail IH|w sub IHs tail IH]; intros prefix n d pd extra rest more h Hg Hp Hd Hpath Hdn He Hr Hu.
  - exists h, extra. split; [done|]. split; try done. cbn [tops]. rewrite app_nil_r, Hd. by destruct pd.
  - destruct Hg as [Hw Hg]. cbn [listing] in Hu. destruct (Hu 0%nat _ eq_refl) as (nd & Hn & Hnp & Hnc). rewrite Z.add_0_r in Hn. cbn [fst] in Hnp.
    cbn [count]. rewrite seqZ_cons by lia. cbn [app]. destruct (word_last prefix w Hw) as (c & Hc & Hcs).
    rewrite (build_next prefix w [] c n nd) by (try done; first [by left|by rewrite app_nil_r]). rewrite Hcs.
    assert (Hne : n <> d) by lia. rewrite (build_file_run h prefix d pd extra rest Hd Hpath He Hr n nd Hn Hne). cbn [obind].
    pose proof (adopted_core h d pd Hd n nd Hn Hne) as Hcore. set (h1 := adopted h d pd n nd) in *.
    replace (Z.pred (Z.of_nat (S (count tail)))) with (Z.of_nat (count tail)) by lia.
    destruct (IH prefix (Z.succ n) d (with_uchildren (u_Children pd ++ [n]) pd) [] rest more h1) as (h' & extra' & E & HB); try done.
    + by apply adopted_dir.
    + lia.
    + by eapply on_path_all.
    + intros k e Hk. destruct (Hu (S k) e Hk) as (nk & Hnk & ?). exists nk. split; [|done]. unfold h1. rewrite adopted_other by lia.
      rewrite <- Hnk. f_equal. lia.
    + exists h', extra'. cbn [app] in E. split; [exact E|]. destruct HB as [B1 B2 B3 B4 B5]. split.
      * by eapply same_core_trans.
      * rewrite B2. cbn [tops u_Children with_uchildren]. unfold with_uchildren. cbn. by rewrite <- app_assoc.
      * intros x Hx Hrng. cbn [count] in Hrng. rewrite B3 by lia. unfold h1. apply adopted_other; lia.
      * cbn [shape]. split; [|done]. exists (with_uparent d nd). rewrite B3 by lia. split; [apply adopted_new|].
        cbn. by rewrite Hnp.
      * done.
  - destruct Hg as (Hw & Hgs & Hg). cbn [listing] in Hu. destruct (Hu 0%nat _ eq_refl) as (nd & Hn & Hnp & Hnc). rewrite Z.add_0_r in Hn. cbn [fst] in Hnp.
    cbn [count]. rewrite seqZ_cons by lia. cbn [app].
    rewrite (build_next prefix w [slash] slash n nd) by (try done; first [by right|by rewrite app_assoc, last_snoc]).
    rewrite Z.eqb_refl. assert (Hne : n <> d) by lia.
    rewrite (build_dir_run h prefix d pd extra rest Hd Hpath He n nd Hn Hne). cbn [obind].
    pose proof (adopted_core h d pd Hd n nd Hn Hne) as Hcore. set (h1 := adopted h d pd n nd) in *.
    set (prefix' := prefix ++ w ++ [slash]) in *.
    assert (Hlong : (length prefix < length prefix')%nat) by (unfold prefix'; rewrite !length_app; cbn; lia).
    replace (Z.pred (Z.of_nat (S (count sub + count tail)))) with (Z.of_nat (count sub) + Z.of_nat (count tail)) by lia.
    rewrite seqZ_app by lia. rewrite <- app_assoc.
    destruct (IHs prefix' (Z.succ n) n (with_uparent d nd) [] (d :: rest) (seqZ (Z.succ n + Z.of_nat (count sub)) (Z.of_nat (count tail)) ++ more) h1)
      as (h2 & extra2 & E2 & [C1 C2 C3 C4 C5]); try done.
    + by apply dir_path_sub.
    + apply adopted_new.
    + lia.
    + constructor.
      * exists (with_uchildren (u_Children pd ++ [n]) pd). split; [by apply adopted_dir|]. cbn. rewrite Hpath. lia.
      * eapply list.Forall_impl; [eapply on_path_all; [exact Hcore|exact Hr]|]. intros x (nx & Hx & Hlt). exists nx. split; [done|]. lia.
    + intros k e Hk. destruct (Hu (S k) e) as (nk & Hnk & ?);
        [change ((listing prefix' sub ++ listing prefix tail) !! k = Some e); by rewrite lookup_app_l by (by eapply lookup_lt_Some)|].
      exists nk. split; [|done]. unfold h1. rewrite adopted_other by lia. rewrite <- Hnk. f_equal. lia.
    + cbn [app] in E2. rewrite E2. replace (extra2 ++ n :: d :: rest) with ((extra2 ++ [n]) ++ d :: rest) by (by rewrite <- app_assoc).
      assert (Hd2 : h2 !! d = Some (with_uchildren (u_Children pd ++ [n]) pd)) by (rewrite C3 by lia; by apply adopted_dir).
      pose proof (same_core_trans _ _ _ Hcore C1) as Hcore2.
      destruct (IH prefix (Z.succ n + Z.of_nat (count sub)) d (with_uchildren (u_Children pd ++ [n]) pd) (extra2 ++ [n]) rest more h2)
        as (h3 & extra3 & E3 & [B1 B2 B3 B4 B5]); try done.
      * lia.
      * apply Forall_app. split.
        -- eapply list.Forall_impl; [exact C5|]. intros x (nx & Hx & Hlt). exists nx. split; [done|]. lia.
        -- constructor; [|constructor]. eexists. split; [exact C2|]. cbn. rewrite Hnp. lia.
      * by eapply on_path_all.
      * intros k e Hk. destruct (Hu (S (count sub + k)) e) as (nk & Hnk & ?).
        { change ((listing prefix' sub ++ listing prefix tail) !! (count sub + k)%nat = Some e). rewrite lookup_app_r by (rewrite length_listing; lia). rewrite length_listing. by replace (count sub + k - count sub)%nat with k by lia. }
        exists nk. split; [|done]. rewrite C3 by lia. unfold h1. rewrite adopted_other by lia. rewrite <- Hnk. f_equal. lia.
      * exists h3, extra3. split; [exact E3|]. split.
        -- by eapply same_core_trans.
        -- rewrite B2. cbn [tops]. unfold with_uchildren. cbn. rewrite <- app_assoc. unfold Z.succ. done.
        -- intros x Hx Hrng. cbn [count] in Hrng. rewrite B3, C3 by lia. unfold h1. apply adopted_other; lia.
        -- cbn [shape]. unfold Z.succ in *. split_and!; [| |done].
           ++ eexists. rewrite B3 by lia. split; [exact C2|]. cbn. by rewrite Hnp, Hnc.
           ++ eapply shape_ext; [|exact C4]. intros x Hx. apply B3; lia.
        -- done.
Qed.

(** ** Positions *)

Definition same_but_offset (h h' : heap) : Prop := forall x, with_offset 0 <$> h' !! x = with_offset 0 <$> h !! x.

Lemma same_but_refl h : same_but_offset h h.
Proof. by intros x. Qed.
Lemma same_but_trans h1 h2 h3 : same_but_offset h1 h2 -> same_but_offset h2 h3 -> same_but_offset h1 h3.
Proof. intros H1 H2 x. by rewrite H2, H1. Qed.

(** The entries of a list have the positions from [o] on. *)
Definition numbered (h : heap) (o : Z) (l : list Z) : Prop :=
  forall k i, l !! k = Some i -> exists nd, h !! i = Some nd /\ i_Offset (u_Node nd) = o + Z.of_nat k.

Fixpoint all_numbered (h : heap) (n : Z) (f : forest) : Prop :=
  match f with
  | Nil => True
  | File _ _ rest => all_numbered h (n + 1) rest
  | Dir _ sub rest =>
    numbered h 2 (tops (n + 1) sub) /\ all_numbered h (n + 1) sub /\ all_numbered h (n + 1 + Z.of_nat (count sub)) rest
  end.

Fixpoint depth (f : forest) : nat :=
  match f with
  | Nil => 0
  | File _ _ rest => max 1 (depth rest)
  | Dir _ sub rest => max (S (depth sub)) (depth rest)
  end.

Lemma depth_count f : (depth f <= count f)%nat.
Proof. induction f; cbn; lia. Qed.

Lemma tops_range f : forall n i, i ∈ tops n f -> n <= i < n + Z.of_nat (count f).
Proof.
  induction f as [|w data rest IH|w sub IHs rest IH]; intros n i; cbn [tops count]; [by intros ?%not_elem_of_nil| |];
    intros [->|Hi]%elem_of_cons; try lia; apply IH in Hi; lia.
Qed.

Lemma numbered_ext h h' o l : (forall i, i ∈ l -> h' !! i = h !! i) -> numbered h o l -> numbered h' o l.
Proof. intros He H k i Hk. rewrite He by (by eapply list_elem_of_lookup_2). by apply H. Qed.

Lemma all_numbered_ext f : forall h h' n, (forall x, n <= x < n + Z.of_nat (count f) -> h' !! x = h !! x) ->
  all_numbered h n f -> all_numbered h' n f.
Proof.
  induction f as [|w data rest IH|w sub IHs rest IH]; intros h h' n He; cbn [all_numbered count] in *; [done| |].
  - intros H. eapply IH; [|exact H]. intros x Hx. apply He. lia.
  - intros (H1 & H2 & H3). split_and!.
    + eapply numbered_ext; [|exact H1]. intros i Hi%tops_range. apply He. lia.
    + eapply IHs; [|exact H2]. intros x Hx. apply He. lia.
    + eapply IH; [|exact H3]. intros x Hx. apply He. lia.
Qed.

Lemma same_but_insert h i nd o : h !! i = Some nd -> same_but_offset h (<[i := with_offset o nd]> h).
Proof. intros Hi x. destruct (decide (x = i)) as [->|Hx]; [by rewrite lookup_insert_eq, Hi|by rewrite lookup_insert_ne]. Qed.

Record positioned (h h' : heap) (n o : Z) (prefix : list Z) (parent : Z) (f : forest) : Prop := Positioned {
  p_same : same_but_offset h h';
  p_other : forall x, ~ (n <= x < n + Z.of_nat (count f)) -> h' !! x = h !! x;
  p_shape : shape h' n prefix parent f;
  p_tops : numbered h' o (tops n f);
  p_all : all_numbered h' n f
}.

Lemma offsets_forest f : forall fuel n o prefix parent h, (depth f <= fuel)%nat -> shape h n prefix parent f ->
  exists h', offsets_loop (set_offsets fuel) o (tops n f) h = Ret h' /\ positioned h h' n o prefix parent f.
Proof.
  induction f as [|w data rest IH|w sub IHs rest IH]; intros fuel n o prefix parent h Hf Hs; cbn [tops offsets_loop depth] in *.
  - exists h. by split.
  - destruct Hs as [(nd & Hn & E1 & E2 & E3) Hs]. unfold the_unode. rewrite Hn. cbn [obind].
    destruct fuel as [|fuel]; [lia|]. cbn [set_offsets]. unfold the_unode. rewrite lookup_insert_eq. cbn [obind with_offset u_Children].
    rewrite E3. cbn [offsets_loop obind]. set (h1 := <[n := with_offset o nd]> h).
    destruct (IH (S fuel) (n + 1) (o + 1) prefix parent h1) as (h' & E & [P1 P2 P3 P4 P5]); [lia| |].
    { eapply shape_ext; [|exact Hs]. intros x Hx. unfold h1. by rewrite lookup_insert_ne by lia. }
    exists h'. split; [exact E|]. assert (Hn' : h' !! n = Some (with_offset o nd)) by (rewrite P2 by lia; unfold h1; apply lookup_insert_eq).
    split.
    + eapply same_but_trans; [|exact P1]. by apply same_but_insert.
    + intros x Hx. cbn [count] in Hx. rewrite P2 by lia. unfold h1. by rewrite lookup_insert_ne by lia.
    + cbn [shape]. split; [|done]. by exists (with_offset o nd).
    + cbn [tops]. intros [|k] i Hk; [injection Hk as <-; exists (with_offset o nd); split; [done|]; cbn; lia|].
      destruct (P4 k i Hk) as (ni & Hi & Ho). exists ni. split; [done|]. lia.
    + done.
  - destruct Hs as ((nd & Hn & E1 & E2 & E3) & Hsub & Hs). unfold the_unode. rewrite Hn. cbn [obind].
    destruct fuel as [|fuel]; [lia|]. cbn [set_offsets]. unfold the_unode. rewrite lookup_insert_eq. cbn [obind with_offset u_Children].
    rewrite E3. set (h1 := <[n := with_offset o nd]> h).
    destruct (IHs fuel (n + 1) 2 (prefix ++ w ++ [slash]) n h1) as (h2 & Es & [Q1 Q2 Q3 Q4 Q5]); [lia| |].
    { eapply shape_ext; [|exact Hsub]. intros x Hx. unfold h1. by rewrite lookup_insert_ne by lia. }
    rewrite Es. cbn [obind].
    destruct (IH (S fuel) (n + 1 + Z.of_nat (count sub)) (o + 1) prefix parent h2) as (h' & E & [P1 P2 P3 P4 P5]); [lia| |].
    { eapply shape_ext; [|exact Hs]. intros x Hx. rewrite Q2 by lia. unfold h1. by rewrite lookup_insert_ne by lia. }
    exists h'. split; [exact E|].
    assert (Hn' : h' !! n = Some (with_offset o nd)) by (rewrite P2, Q2 by lia; unfold h1; apply lookup_insert_eq).
    split.
    + eapply same_but_trans; [|exact P1]. eapply same_but_trans; [|exact Q1]. by apply same_but_insert.
    + intros x Hx. cbn [count] in Hx. rewrite P2, Q2 by lia. unfold h1. by rewrite lookup_insert_ne by lia.
    + cbn [shape]. split_and!; [by exists (with_offset o nd)| |done]. eapply shape_ext; [|exact Q3]. intros x Hx. apply P2. lia.
    + cbn [tops]. intros [|k] i Hk; [injection Hk as <-; exists (with_offset o nd); split; [done|]; cbn; lia|].
      destruct (P4 k i Hk) as (ni & Hi & Ho). exists ni. split; [done|]. lia.
    + cbn [all_numbered]. split_and!; [| |done].
      * eapply numbered_ext; [|exact Q4]. intros i Hi%tops_range. apply P2. lia.
      * eapply all_numbered_ext; [|exact Q5]. intros x Hx. apply P2. lia.
Qed.

(** An archive that does not start with its root is not read. *)
Lemma build_needs_root i files h nd : h !! i = Some nd -> u_Path nd <> root_path -> forall h', build U (i :: files) [] h <> Ret h'.
Proof.
  intros Hi Hp h'. cbn [build]. rewrite (path_of_some _ _ _ Hi). cbn [obind]. rewrite decide_False by done.
  destruct (list.last (u_Path nd)) as [c|]; [|done]. destruct (dirname U (u_Path nd)) as [dn| |]; cbn [obind]; try done. by destruct (c =? slash).
Qed.
