(* ===== verification/KUstarArchive.v ===== *)
(** * Reading an archive

    [archive m a l]: the memory holds, from [a] on, an archive of the entries
    [l], as tar writes it.  [ReadArchive] makes the tree of them, and the
    operations of the file system read it. *)

From S2P Require Import Prelude CMem CMonad KPath KPathWords KPathNormal KString KHashMap KVfs KVfsTree KVfsLookup KRamfs KRamfsTheorems KUstar KUstarTree.

Lemma string_loop_spec m l : forall fuel a, bytes_at m a (l ++ [0]) -> 0 ∉ l -> (length l < fuel)%nat -> string_loop fuel m a = Ret l.
Proof.
  induction l as [|c l IH]; intros fuel a Hb H0 Hf; (destruct fuel as [|fuel]; [cbn in Hf; lia|]); cbn [string_loop app] in *.
  - by rewrite (load8_bytes _ _ _ _ Hb).
  - rewrite (load8_bytes _ _ _ _ Hb). cbn [obind]. apply not_elem_of_cons in H0 as [Hc H0].
    destruct (Z.eqb_spec c 0); [congruence|]. apply bytes_at_cons in Hb as (_ & _ & Hb). rewrite IH by (done || cbn in Hf; lia). done.
Qed.

Lemma string_at_spec m a l : cstr m a l -> string_at m a = Ret l.
Proof. intros Hc. pose proof (cstr_fuel _ _ _ Hc). destruct Hc. by apply string_loop_spec. Qed.

Lemma same_bytes_true m l : forall a, bytes_at m a l -> 0 ∉ l -> same_bytes m a l = Ret true.
Proof.
  induction l as [|c l IH]; intros a Hb H0; [done|]. cbn [same_bytes]. rewrite (load8_bytes _ _ _ _ Hb). cbn [obind].
  rewrite Z.eqb_refl. apply not_elem_of_cons in H0 as [Hc H0]. cbn [negb]. destruct (Z.eqb_spec c 0); [congruence|].
  apply bytes_at_cons in Hb as (_ & _ & Hb). by apply IH.
Qed.

Lemma bytes_at_agree m m' a l : bytes_at m a l -> (forall x, a <= x < a + Z.of_nat (length l) -> m' !! x = m !! x) -> bytes_at m' a l.
Proof.
  intros [Hb H] He. split; [done|]. intros i b Hi. pose proof (lookup_lt_Some _ _ _ Hi). rewrite He by lia. by apply H.
Qed.

Lemma cstr_agree m m' a l : cstr m a l -> (forall x, a <= x <= a + Z.of_nat (length l) -> m' !! x = m !! x) -> cstr m' a l.
Proof. intros [H H0] He. split; [|done]. eapply bytes_at_agree; [exact H|]. intros x Hx. rewrite length_app in Hx. cbn in Hx. apply He. lia. Qed.

(** ** Archives in memory *)

Section archive.
Context (Check : Z -> bool).

Definition type_byte (dir : bool) : Z := if dir then DIRTYPE else REGTYPE.

(** What the operations need of a header *)
Record stored (m : mem) (a : Z) (data : list Z) (dir : bool) : Prop := Stored {
  st_size : exists l, cstr m (a + h_size) l /\ (length l < 12)%nat /\ octal l = Z.of_nat (length data);
  st_type : m !! (a + h_typeflag) = Some (type_byte dir);
  st_data : bytes_at m (a + sizeof_FileHeader) data
}.

(** A header as it is in the archive: the name may start with a dot. *)
Record header_at (m : mem) (a : Z) (path data : list Z) (dir : bool) : Prop := HeaderAt {
  ha_check : Check a = true;
  ha_name : exists raw, cstr m (a + h_name) raw /\ (length raw < 100)%nat /\ (raw = path \/ raw = dot :: path);
  ha_slash : exists q, path = slash :: q;
  ha_mode : exists l, cstr m (a + h_mode) l /\ (length l < 8)%nat;
  ha_signature : exists c, bytes_at m (a + h_signature) (TMAGIC ++ [c]);
  ha_stored : stored m a data dir;
  ha_range : 0 <= a /\ a + 1024 + Z.of_nat (length data) < 2 ^ 64
}.

Definition next_at (a : Z) (data : list Z) : Z := a + 512 + 512 * ((Z.of_nat (length data) + 511) / 512).

Fixpoint archive (m : mem) (a : Z) (l : list (list Z * list Z * bool)) : Prop :=
  match l with
  | [] => Check a = true /\ same_bytes m (a + h_signature) TMAGIC = Ret false
  | (path, data, dir) :: l => header_at m a path data dir /\ archive m (next_at a data) l
  end.

Lemma next_at_far a data : a + 512 + Z.of_nat (length data) <= next_at a data.
Proof using Type. unfold next_at. pose proof (Z.mul_succ_div_gt (Z.of_nat (length data) + 511) 512 ltac:(lia)). lia. Qed.

Lemma next_header_spec a data : 0 <= a -> a + 1024 + Z.of_nat (length data) < 2 ^ 64 ->
  next_header a (Z.of_nat (length data)) = next_at a data.
Proof using Type.
  intros Ha Hr. unfold next_header, next_at. set (s := Z.of_nat (length data)) in *. assert (0 <= s) by lia.
  pose proof (Z.div_mod s 512 ltac:(lia)) as Hdm. pose proof (Z.mod_pos_bound s 512 ltac:(lia)) as Hmod.
  assert (0 <= s / 512) by (apply Z.div_pos; lia). rewrite (uw_small 64 (a + (s / 512 + 1) * 512)) by lia. destruct (Z.eqb_spec (s mod 512) 0) as [E|E]; cbn [negb].
  - replace ((s + 511) / 512) with (s / 512); [lia|]. apply Z.div_unique with (r := 511); lia.
  - rewrite uw_small by lia. replace ((s + 511) / 512) with (s / 512 + 1); [lia|]. apply Z.div_unique with (r := s mod 512 - 1); lia.
Qed.

Lemma stored_agree m m' a data dir : stored m a data dir ->
  (forall x, a + 100 <= x < a + 512 + Z.of_nat (length data) -> m' !! x = m !! x) -> stored m' a data dir.
Proof using Type.
  intros [(l & H1 & H2 & H3) H4 H5] He. unfold h_size, h_typeflag, sizeof_FileHeader in *. split; unfold h_size, h_typeflag, sizeof_FileHeader.
  - exists l. split_and!; try done. eapply cstr_agree; [exact H1|]. intros x Hx. apply He. lia.
  - rewrite He by lia. done.
  - eapply bytes_at_agree; [exact H5|]. intros x Hx. apply He. lia.
Qed.

Lemma same_bytes_agree m m' l : forall a, (forall x, a <= x < a + Z.of_nat (length l) -> m' !! x = m !! x) -> same_bytes m' a l = same_bytes m a l.
Proof using Type.
  induction l as [|c l IH]; intros a He; [done|]. cbn [same_bytes length] in *. unfold load8. rewrite He by lia.
  destruct (m !! a) as [b|]; [|done]. cbn [obind]. destruct (negb (b =? c)); [done|]. destruct (b =? 0); [done|]. apply IH. intros x Hx. apply He. lia.
Qed.

Lemma archive_agree l : forall m m' a, archive m a l -> (forall x, a <= x -> m' !! x = m !! x) -> archive m' a l.
Proof using Type.
  induction l as [|[[path data] dir] l IH]; intros m m' a; cbn [archive].
  - intros [H1 H2] He. split; [done|]. rewrite <- H2. apply same_bytes_agree. unfold h_signature. intros x Hx. apply He. lia.
  - intros [[A1 (raw & A2 & A2') A3 (lm & A4 & A4') [c A5] A6 A7] Hl] He. pose proof (next_at_far a data). split.
    + unfold h_name, h_mode, h_signature in *. split; try done.
      * exists raw. split; [|done]. eapply cstr_agree; [exact A2|]. intros x Hx. apply He. unfold h_name in *. lia.
      * exists lm. split; [|done]. eapply cstr_agree; [exact A4|]. intros x Hx. apply He. unfold h_mode in *. lia.
      * exists c. eapply bytes_at_agree; [exact A5|]. intros x Hx. apply He. unfold h_signature in *. lia.
      * eapply stored_agree; [exact A6|]. intros x Hx. apply He. lia.
    + eapply IH; [exact Hl|]. intros x Hx. apply He. lia.
Qed.

(** An archive has a mapped header for every entry. *)
Lemma archive_headers l : forall m a, archive m a l ->
  exists hs : list Z, NoDup hs /\ length hs = length l /\ Forall (fun x => is_Some (m !! x) /\ a < x) hs.
Proof using Type.
  induction l as [|[[path data] dir] l IH]; intros m a; cbn [archive].
  - intros _. exists []. split_and!; [constructor|done|constructor].
  - intros [Hh Hl]. destruct (IH _ _ Hl) as (hs & H1 & H2 & H3). pose proof (next_at_far a data). exists (a + h_typeflag :: hs). split_and!.
    + apply list.NoDup_cons. split; [|done]. intros Hin. apply (proj1 (list.Forall_forall _ _) H3) in Hin as [_ Hlt]. unfold h_typeflag in Hlt. lia.
    + cbn [length]. by rewrite H2.
    + constructor; [|eapply list.Forall_impl; [exact H3|]; intros x [? ?]; split; [done|lia]].
      split; [|unfold h_typeflag; lia]. rewrite (st_type _ _ _ _ (ha_stored _ _ _ _ _ Hh)). by eexists.
Qed.

Lemma archive_fuel m a l : archive m a l -> (length l < loop_fuel m)%nat.
Proof using Type.
  intros (hs & H1 & H2 & H3)%archive_headers. unfold loop_fuel. rewrite <- H2.
  enough (length hs <= size m)%nat by lia. apply addresses_size; [done|]. eapply list.Forall_impl; [exact H3|]. by intros x [? _].
Qed.

(** ** Headers *)

Lemma drop_dot_spec m a path data dir : header_at m a path data dir ->
  exists m', drop_dot m a = Ret m' /\ cstr m' (a + h_name) path /\ (forall x, x < a \/ a + 100 <= x -> m' !! x = m !! x).
Proof using Type.
  intros [_ (raw & Hraw & Hlen & Hdot) (q & ->) _ _ _ _]. pose proof (proj1 Hraw) as Hb. unfold drop_dot.
  destruct Hdot as [->| ->]; cbn [app] in Hb; rewrite (load8_bytes _ _ _ _ Hb); cbn [obind].
  { exists m. by split_and!. }
  apply bytes_at_cons in Hb as (_ & Hdot & Hb). rewrite (load8_bytes _ _ _ _ Hb). cbn [obind]. change (dot =? dot) with true.
  cbn iota. rewrite (string_at_spec _ _ _ Hraw). cbn [obind drop app]. destruct Hraw as [Hall H0].
  apply not_elem_of_cons in H0 as [_ H0]. pose proof (bytes_at_byte _ _ _ Hb) as Hbytes. cbn [app] in Hbytes.
  change (slash =? slash) with true. cbn iota. rewrite store_bytes_mapped.
  - exists (write_bytes m (a + h_name) (slash :: q ++ [0])). split_and!; [done| |].
    + split; [|done]. by apply (bytes_at_write m (a + h_name) (slash :: q ++ [0])).
    + intros x Hx. apply lookup_write_bytes_out. cbn [length] in *. rewrite length_app. cbn [length]. unfold h_name. lia.
  - exact Hbytes.
  - eapply mapped_sub; [exact (bytes_at_mapped _ _ _ Hall)| lia |]. cbn [app length]. rewrite !length_app. cbn [length]. lia.
Qed.

(** The name that [ReadArchive] gives to a path *)
Definition path_name (path nm : list Z) : Prop :=
  (let! base := cwk_path_get_basename U path in
   match base with Some (b, length_) => chars path b length_ | None => Ret path end) = Ret nm.

(** What is read of an entry *)
Record entry_node (m : mem) (dev k : Z) (e : list Z * list Z * bool) (nd : USTARInode) : Prop := EntryNode {
  en_path : u_Path nd = fst (fst e);
  en_name : path_name (fst (fst e)) (u_Name nd);
  en_alone : u_Parent nd = None /\ u_Children nd = [] /\ u_Deleted nd = false;
  en_index : i_Index (u_Node nd) = k /\ i_Device (u_Node nd) = dev /\ i_Offset (u_Node nd) = 0;
  en_type : Z.land (i_Mode (u_Node nd)) S_IFMT = type_mode (type_byte (snd e));
  en_stored : stored m (u_Header nd) (snd (fst e)) (snd e)
}.

Lemma first_flag_in l mode : first_flag l mode ∈ 0 :: l.
Proof using Type.
  induction l as [|b l IH]; cbn [first_flag]; [by left|]. destruct (negb _); [by right; left|]. apply elem_of_cons in IH as [->|IH]; [by left|by do 2 right].
Qed.

Lemma mode_has_type mode dir : Z.land (Z.lor (first_flag ModeFlags mode) (type_mode (type_byte dir))) S_IFMT = type_mode (type_byte dir).
Proof using Type.
  assert (H : Forall (fun b => Z.land (Z.lor b (type_mode (type_byte dir))) S_IFMT = type_mode (type_byte dir)) (0 :: ModeFlags))
    by (destruct dir; repeat constructor).
  apply (proj1 (list.Forall_forall _ _) H), first_flag_in.
Qed.

(** The inodes are numbered in the order of the headers. *)
Record counted (u : ustar) (g : gmap Z Z) : Prop := Counted {
  ct_next : u_next u = u_NextInode u + 1;
  ct_pos : 0 <= u_NextInode u;
  ct_files : repr hash_u64 (u_Files u) g;
  ct_size : Z.of_nat (size g) = u_NextInode u;
  ct_keys : forall x i, g !! x = Some i <-> 0 <= x < u_NextInode u /\ i = x + 1;
  ct_heap : forall i nd, u_heap u !! i = Some nd -> 1 <= i <= u_NextInode u /\ i_Index (u_Node nd) = i - 1
}.

Definition bump (u : ustar) : ustar := Ustar (u_mem u) (u_heap u) (u_next u) (u_Files u) (u_DeviceID u) (u64 (u_NextInode u + 1)).

Lemma counted_bump u g m nd : counted u g -> u_NextInode u + 1 < 2 ^ 64 -> i_Index (u_Node nd) = u_NextInode u ->
  counted (bump (Ustar m (<[u_next u := nd]> (u_heap u)) (u_next u + 1) (snd (umap_insert hash_u64 (u_Files u) (u_NextInode u) (u_next u)))
    (u_DeviceID u) (u_NextInode u))) (<[u_NextInode u := u_next u]> g).
Proof using Type.
  intros [C1 C2 C3 C4 C5 C6] Hroom Hi. unfold bump. cbn [u_mem u_heap u_next u_Files u_DeviceID u_NextInode]. rewrite (uw_small 64) by lia.
  assert (Hnone : g !! u_NextInode u = None).
  { destruct (g !! u_NextInode u) as [i|] eqn:E; [|done]. apply C5 in E. lia. }
  split; cbn [u_mem u_heap u_next u_Files u_DeviceID u_NextInode]; try lia.
  - destruct (umap_insert_spec hash_u64 (u_Files u) g (u_NextInode u) (u_next u) C3) as [_ Hs]; [rewrite (repr_size _ _ _ C3); lia|].
    by rewrite decide_True in Hs by done.
  - rewrite map_size_insert_None by done. lia.
  - intros x i. destruct (decide (x = u_NextInode u)) as [->|Hx].
    + rewrite lookup_insert_eq. split; [intros [= <-]; lia|intros [_ ->]; f_equal; lia].
    + rewrite lookup_insert_ne by done. rewrite C5. lia.
  - intros i nd'. destruct (decide (i = u_next u)) as [->|Hx].
    + rewrite lookup_insert_eq. intros [= <-]. lia.
    + rewrite lookup_insert_ne by done. intros H%C6. lia.
Qed.

Lemma read_header_spec u g a path data dir nm : header_at (u_mem u) a path data dir -> path_name path nm -> counted u g ->
  u_NextInode u + 1 < 2 ^ 64 ->
  exists u' nd, read_header U a u = Ret (u_next u, u') /\ u_heap u' = <[u_next u := nd]> (u_heap u) /\ u_DeviceID u' = u_DeviceID u /\
    u_NextInode u' = u_NextInode u /\ u_next u' = u_next u + 1 /\
    (forall x, x < a \/ a + 100 <= x -> u_mem u' !! x = u_mem u !! x) /\ u_Header nd = a /\
    entry_node (u_mem u') (u_DeviceID u) (u_NextInode u) (path, data, dir) nd /\ counted (bump u') (<[u_NextInode u := u_next u]> g).
Proof using Type.
  intros Hh Hnm Hc Hroom. destruct (drop_dot_spec _ _ _ _ _ Hh) as (m & Hdrop & Hpath & Hm).
  assert (Hst : stored m a data dir) by (eapply stored_agree; [exact (ha_stored _ _ _ _ _ Hh)|]; intros x Hx; apply Hm; lia).
  destruct (ha_mode _ _ _ _ _ Hh) as (lm & Hlm & Hlen).
  assert (Hlm' : cstr m (a + h_mode) lm) by (eapply cstr_agree; [exact Hlm|]; intros x Hx; apply Hm; unfold h_mode in *; lia).
  unfold read_header. rewrite Hdrop. cbn [obind]. rewrite (string_at_spec _ _ _ Hpath). cbn [obind]. unfold SetMode, StringToInt. cbn [Inode_new i_Mode i_Flags].
  rewrite (string_at_spec _ _ _ Hlm'). cbn [obind]. unfold load8. rewrite (st_type _ _ _ _ Hst). cbn [obind]. unfold path_name in Hnm.
  destruct (cwk_path_get_basename U path) as [base| |] eqn:Ebase; cbn [obind] in *; try done. rewrite Hnm. cbn [obind].
  do 2 eexists. split; [reflexivity|]. cbn [u_mem u_heap u_next u_DeviceID u_NextInode u_Files]. split; [reflexivity|].
  split_and!; try done.
  - split; cbn [fst snd u_Path u_Name u_Parent u_Children u_Deleted u_Node i_Index i_Device i_Offset i_Mode u_Header]; try done.
    + unfold path_name. by rewrite Ebase.
    + apply mode_has_type.
  - by apply counted_bump.
Qed.

(** ** The whole archive *)

Lemma entry_node_agree m m' dev k e nd : entry_node m dev k e nd ->
  (forall x, u_Header nd + 100 <= x < u_Header nd + 512 + Z.of_nat (length (snd (fst e))) -> m' !! x = m !! x) -> entry_node m' dev k e nd.
Proof using Type. intros [E1 E2 E3 E4 E5 E6] He. split; try done. by eapply stored_agree. Qed.

Record scanned (u u' : ustar) (g' : gmap Z Z) (a : Z) (l : list (list Z * list Z * bool)) : Prop := Scanned {
  sc_counted : counted u' g';
  sc_count : u_NextInode u' = u_NextInode u + Z.of_nat (length l);
  sc_device : u_DeviceID u' = u_DeviceID u;
  sc_before : forall x, x < a -> u_mem u' !! x = u_mem u !! x;
  sc_old : forall i, i < u_next u -> u_heap u' !! i = u_heap u !! i;
  sc_new : forall k e, l !! k = Some e -> exists nd, u_heap u' !! (u_next u + Z.of_nat k) = Some nd /\
    entry_node (u_mem u') (u_DeviceID u) (u_NextInode u + Z.of_nat k) e nd
}.

Lemma scan_spec l : forall fuel a u g tmp, archive (u_mem u) a l -> Forall (fun e => exists nm, path_name (fst (fst e)) nm) l -> counted u g ->
  u_NextInode u + Z.of_nat (length l) < 2 ^ 64 -> (length l < fuel)%nat ->
  exists u' g', scan Check U fuel a u tmp = Ret (Some (tmp ++ seqZ (u_next u) (Z.of_nat (length l))), u') /\ scanned u u' g' a l.
Proof using Type.
  induction l as [|[[path data] dir] l IH]; intros fuel a u g tmp Ha Hn Hc Hroom Hf; (destruct fuel as [|fuel]; [cbn in Hf; lia|]); cbn [scan archive] in *.
  - destruct Ha as [-> Hsig]. cbn [negb]. rewrite Hsig. cbn [obind negb]. exists u, g. split; [cbn [length]; by rewrite app_nil_r|].
    split; cbn [length]; try done. lia.
  - destruct Ha as [Hh Hl]. apply Forall_cons_1 in Hn as [[nm Hnm] Hn]. cbn [fst length] in *. pose proof (next_at_far a data) as Hfar.
    rewrite (ha_check _ _ _ _ _ Hh). cbn [negb]. destruct (ha_signature _ _ _ _ _ Hh) as [sc Hsig]. apply bytes_at_app in Hsig as [Hsig _].
    rewrite (same_bytes_true _ _ _ Hsig) by (apply (bool_decide_eq_true_1 (0 ∉ TMAGIC)); reflexivity).
    cbn [obind negb].
    destruct (read_header_spec u g a path data dir nm Hh Hnm Hc ltac:(lia)) as (u1 & nd & -> & Hheap & Hdev & Hni & Hnext & Hmem & Hat & Hnd & Hc1).
    cbn [obind]. pose proof (ct_pos _ _ Hc) as Hpos. pose proof (en_stored _ _ _ _ _ Hnd) as Hst. rewrite Hat in Hst. cbn [fst snd] in Hst.
    destruct (st_size _ _ _ _ Hst) as (ls & Hls & _ & Hoct). unfold GetSize. rewrite (string_at_spec _ _ _ Hls). cbn [obind]. rewrite Hoct.
    destruct (ha_range _ _ _ _ _ Hh) as [Hr1 Hr2]. rewrite next_header_spec by done. fold (bump u1).
    destruct (IH fuel (next_at a data) (bump u1) (<[u_NextInode u := u_next u]> g) (tmp ++ [u_next u])) as (u' & g' & E & [S1 S2 S3 S4 S5 S6]); try done.
    + eapply archive_agree; [exact Hl|]. intros x Hx. cbn [bump u_mem]. apply Hmem. lia.
    + cbn [bump u_NextInode]. rewrite (uw_small 64) by lia. lia.
    + lia.
    + cbn [bump u_next u_NextInode u_DeviceID u_mem u_heap] in *. rewrite (uw_small 64) in S2, S6 by lia. exists u', g'. split.
      * rewrite E, Hnext, <- app_assoc. cbn [app]. rewrite (seqZ_cons (u_next u)) by lia. by replace (Z.pred (Z.of_nat (S (length l)))) with (Z.of_nat (length l)) by lia.
      * split; try done.
        -- cbn [length]. lia.
        -- congruence.
        -- intros x Hx. rewrite S4 by lia. apply Hmem. lia.
        -- intros i Hi. rewrite S5 by lia. rewrite Hheap. by rewrite lookup_insert_ne by lia.
        -- intros [|k] e Hk; cbn [lookup list_lookup] in Hk.
           ++ injection Hk as <-. exists nd. rewrite !Z.add_0_r. split; [rewrite S5 by lia; rewrite Hheap; apply lookup_insert_eq|].
              eapply entry_node_agree; [exact Hnd|]. cbn [fst snd]. intros x Hx. apply S4. lia.
           ++ destruct (S6 k e Hk) as (nk & Hnk & He). exists nk. rewrite Hnext, Hni, Hdev in *.
              replace (u_next u + Z.of_nat (S k)) with (u_next u + 1 + Z.of_nat k) by lia.
              replace (u_NextInode u + Z.of_nat (S k)) with (u_NextInode u + 1 + Z.of_nat k) by lia. by split.
Qed.
End archive.
