(* ===== verification/KUstarTheorems.v ===== *)
(** * The file system of an archive

    What [ReadArchive] makes of an archive is the tree that the archive lists
    ([ReadArchive_correct]), and the operations show that tree: looking names up,
    reading files and listing directories. *)

From S2P Require Import Prelude CMem CMonad KPath KPathWords KPathNormal KString KHashMap KVfs KVfsTree KVfsLookup KRamfs KRamfsTheorems KUstar KUstarTree KUstarArchive.

(** ** Trees as the file system has them *)

Record node_is (u : ustar) (i : Z) (w path : list Z) (parent : option Z) (children : list Z) (o : Z) (data : list Z) (dir : bool)
  (nd : USTARInode) : Prop := NodeIs {
  ni_node : u_heap u !! i = Some nd;
  ni_name : u_Name nd = w;
  ni_path : u_Path nd = path;
  ni_tree : u_Parent nd = parent /\ u_Children nd = children;
  ni_deleted : u_Deleted nd = false;
  ni_index : i_Index (u_Node nd) = i - 1;
  ni_offset : i_Offset (u_Node nd) = o;
  ni_type : Z.land (i_Mode (u_Node nd)) S_IFMT = type_mode (type_byte dir);
  ni_stored : stored (u_mem u) (u_Header nd) data dir
}.

(** The entries of a directory [parent] are the trees of [f]: the inodes from [n]
    on, at the positions from [o] on. *)
Fixpoint holds (u : ustar) (n : Z) (prefix : list Z) (parent o : Z) (f : forest) : Prop :=
  match f with
  | Nil => True
  | File w data rest =>
    (exists nd, node_is u n w (prefix ++ w) (Some parent) [] o data false nd) /\ holds u (n + 1) prefix parent (o + 1) rest
  | Dir w sub rest =>
    (exists nd, node_is u n w (prefix ++ w ++ [slash]) (Some parent) (tops (n + 1) sub) o [] true nd) /\
    holds u (n + 1) (prefix ++ w ++ [slash]) n 2 sub /\ holds u (n + 1 + Z.of_nat (count sub)) prefix parent (o + 1) rest
  end.

(** The whole tree: inode 1 is the root. *)
Record tree_is (u : ustar) (g : gmap Z Z) (f : forest) : Prop := TreeIs {
  ti_counted : counted u g;
  ti_count : u_NextInode u = 1 + Z.of_nat (count f);
  ti_root : exists nd, node_is u 1 root_path root_path None (tops 2 f) 0 [] true nd;
  ti_holds : holds u 2 root_path 1 2 f
}.

(** ** From the archive to the tree *)

Lemma path_name_at prefix w t nm : dir_path prefix -> good_word w -> t = [] \/ t = [slash] -> path_name (prefix ++ w ++ t) nm <-> nm = w.
Proof.
  intros Hp Hw Ht. unfold path_name. rewrite basename_at by done. cbn [obind].
  rewrite chars_spec by (done || lia). rewrite Nat2Z.id, take_ge by done. split; [by intros [= ->]|by intros ->].
Qed.

Lemma listing_names f : forall prefix, good_forest f -> dir_path prefix -> Forall (fun e => exists nm, path_name (fst (fst e)) nm) (listing prefix f).
Proof.
  induction f as [|w data rest IH|w sub IHs rest IH]; intros prefix Hg Hp; cbn [listing good_forest] in *; [constructor| |].
  - destruct Hg as [Hw Hg]. constructor; [|by apply IH]. exists w. cbn [fst]. rewrite <- (app_nil_r w) at 1. apply path_name_at; auto.
  - destruct Hg as (Hw & Hgs & Hg). constructor; [exists w; cbn [fst]; apply path_name_at; auto|].
    apply Forall_app. split; [|by apply IH]. apply IHs; [done|]. by apply dir_path_sub.
Qed.

(** What building the tree leaves of an entry *)
Record entry_rest (m : mem) (k : Z) (e : list Z * list Z * bool) (nd : USTARInode) : Prop := EntryRest {
  er_path : u_Path nd = fst (fst e);
  er_name : path_name (fst (fst e)) (u_Name nd);
  er_deleted : u_Deleted nd = false;
  er_index : i_Index (u_Node nd) = k;
  er_type : Z.land (i_Mode (u_Node nd)) S_IFMT = type_mode (type_byte (snd e));
  er_stored : stored m (u_Header nd) (snd (fst e)) (snd e)
}.

Lemma entry_kept m dev k e h h1 h2 i nd : h !! i = Some nd -> entry_node m dev k e nd -> same_core h h1 -> same_but_offset h1 h2 ->
  exists nd2, h2 !! i = Some nd2 /\ entry_rest m k e nd2.
Proof.
  intros Hi [E1 E2 (E3 & E4 & E5) (E6 & E7 & _) E8 E9] Hc Ho. destruct (same_core_some _ _ _ _ Hc Hi) as (nd1 & H1 & Ec).
  specialize (Ho i). rewrite H1 in Ho. destruct (h2 !! i) as [nd2|]; [|done]. exists nd2. split; [done|].
  destruct nd as [[]], nd1 as [[]], nd2 as [[]]. unfold with_offset, core in *. cbn in *. injection Ho as -> -> -> -> -> -> -> -> -> -> -> ->.
  injection Ec as -> -> -> -> -> -> -> -> -> -> ->. by split.
Qed.

Lemma holds_intro u f : forall n prefix parent o, good_forest f -> dir_path prefix -> shape (u_heap u) n prefix parent f ->
  numbered (u_heap u) o (tops n f) -> all_numbered (u_heap u) n f ->
  (forall k e, listing prefix f !! k = Some e -> exists nd, u_heap u !! (n + Z.of_nat k) = Some nd /\ entry_rest (u_mem u) (n - 1 + Z.of_nat k) e nd) ->
  holds u n prefix parent o f.
Proof.
  induction f as [|w data rest IH|w sub IHs rest IH]; intros n prefix parent o Hg Hp Hs Hn Ha He; cbn [holds good_forest shape all_numbered tops listing] in *;
    [done| |].
  - destruct Hg as [Hw Hg], Hs as [(nd & Hnd & S1 & S2 & S3) Hs]. split.
    + exists nd. destruct (He 0%nat _ eq_refl) as (nd' & Hnd' & [R1 R2 R3 R4 R5 R6]). rewrite Z.add_0_r in Hnd'. replace nd' with nd in * by congruence.
      destruct (Hn 0%nat n eq_refl) as (nd2 & Hnd2 & Ho). replace nd2 with nd in * by congruence. cbn [fst snd] in *.
      rewrite <- (app_nil_r w), path_name_at in R2 by auto. split; try done; lia.
    + apply IH; try done.
      * intros k i Hk. destruct (Hn (S k) i Hk) as (ni & Hi & Ho). exists ni. split; [done|lia].
      * intros k e Hk. destruct (He (S k) e Hk) as (nk & Hnk & HR). exists nk. split; [by replace (n + 1 + Z.of_nat k) with (n + Z.of_nat (S k)) by lia|].
        by replace (n + 1 - 1 + Z.of_nat k) with (n - 1 + Z.of_nat (S k)) by lia.
  - destruct Hg as (Hw & Hgs & Hg), Hs as ((nd & Hnd & S1 & S2 & S3) & Hss & Hs), Ha as (Ha1 & Ha2 & Ha3). split_and!.
    + exists nd. destruct (He 0%nat _ eq_refl) as (nd' & Hnd' & [R1 R2 R3 R4 R5 R6]). rewrite Z.add_0_r in Hnd'. replace nd' with nd in * by congruence.
      destruct (Hn 0%nat n eq_refl) as (nd2 & Hnd2 & Ho). replace nd2 with nd in * by congruence. cbn [fst snd] in *.
      rewrite path_name_at in R2 by auto. split; try done; lia.
    + apply IHs; try done; [by apply dir_path_sub|]. intros k e Hk. destruct (He (S k) e) as (nk & Hnk & HR).
      { cbn. by apply lookup_app_l_Some. }
      exists nk. split; [by replace (n + 1 + Z.of_nat k) with (n + Z.of_nat (S k)) by lia|].
      by replace (n + 1 - 1 + Z.of_nat k) with (n - 1 + Z.of_nat (S k)) by lia.
    + apply IH; try done.
      * intros k i Hk. destruct (Hn (S k) i Hk) as (ni & Hi & Ho). exists ni. split; [done|lia].
      * intros k e Hk. destruct (He (S (count sub + k)) e) as (nk & Hnk & HR).
        { change ((listing (prefix ++ w ++ [slash]) sub ++ listing prefix rest) !! (count sub + k)%nat = Some e). rewrite lookup_app_r by (rewrite length_listing; lia). rewrite length_listing. by replace (count sub + k - count sub)%nat with k by lia. }
        exists nk. split; [by replace (n + 1 + Z.of_nat (count sub) + Z.of_nat k) with (n + Z.of_nat (S (count sub + k))) by lia|].
        by replace (n + 1 + Z.of_nat (count sub) - 1 + Z.of_nat k) with (n - 1 + Z.of_nat (S (count sub + k))) by lia.
Qed.

Lemma kept_index h h1 h2 i nd2 : same_core h h1 -> same_but_offset h1 h2 -> h2 !! i = Some nd2 ->
  exists nd, h !! i = Some nd /\ i_Index (u_Node nd) = i_Index (u_Node nd2).
Proof.
  intros Hc Ho H2. specialize (Hc i). specialize (Ho i). rewrite H2 in Ho. destruct (h1 !! i) as [nd1|]; [|done].
  destruct (h !! i) as [nd|]; [|done]. exists nd. split; [done|]. injection Hc as Hc. injection Ho as Ho. congruence.
Qed.

Lemma range_size (h : heap) n c : (forall k, (k < c)%nat -> is_Some (h !! (n + Z.of_nat k))) -> (c <= size h)%nat.
Proof.
  intros Hu. assert (Hsub : list_to_set (seqZ n (Z.of_nat c)) ⊆ dom h).
  { intros x Hx. apply elem_of_list_to_set, elem_of_seqZ in Hx. destruct (Hu (Z.to_nat (x - n)) ltac:(lia)) as [nd Hnd].
    apply elem_of_dom. exists nd. rewrite <- Hnd. f_equal. lia. }
  apply subseteq_size in Hsub. rewrite size_list_to_set, size_dom in Hsub by apply NoDup_seqZ. rewrite length_seqZ in Hsub. lia.
Qed.

Section archive.
Context (Check : Z -> bool).

(** The entries of an archive of a whole tree *)
Definition entries_of (f : forest) : list (list Z * list Z * bool) := (root_path, [], true) :: listing root_path f.

Lemma root_dir : dir_path root_path.
Proof using Type. split; [|done]. by apply (bool_decide_eq_true_1 (0 ∉ root_path)). Qed.

Lemma root_name : path_name root_path root_path.
Proof using Type. reflexivity. Qed.

(** The inodes as the headers give them, before there is a tree *)
Lemma unplaced_entries u u' g' a f : u_next u = 1 -> scanned u u' g' a (entries_of f) -> unplaced (u_heap u') 2 (listing root_path f).
Proof using Type.
  intros H1 Hs k e Hk. destruct (sc_new _ _ _ _ _ Hs (S k) e Hk) as (nd & Hnd & [E1 _ (_ & E4 & _) _ _ _]). exists nd.
  split; [|done]. rewrite <- Hnd, H1. f_equal. lia.
Qed.

Lemma ReadArchive_run m a f dev : archive Check m a (entries_of f) -> good_forest f -> Z.of_nat (count f) + 1 < 2 ^ 64 ->
  exists u g, ReadArchive Check U a (with_device dev (ustar_new m)) = Ret u /\ tree_is u g f /\ u_DeviceID u = dev.
Proof using Type.
  intros Ha Hg Hroom. set (u0 := with_device dev (ustar_new m)). unfold ReadArchive. change (u_mem u0) with m.
  assert (Hc0 : counted u0 ∅).
  { split; cbn; try done; [apply repr_empty|..]. intros x i. rewrite lookup_empty. split; [done|lia]. }
  assert (Hnames : Forall (fun e => exists nm, path_name (fst (fst e)) nm) (entries_of f)).
  { constructor; [by exists root_path|]. apply listing_names; [done|apply root_dir]. }
  destruct (scan_spec Check (entries_of f) (loop_fuel m) a u0 ∅ [] Ha Hnames Hc0) as (u1 & g & -> & Hs).
  { cbn [entries_of length u0 with_device ustar_new u_NextInode]. rewrite length_listing. lia. }
  { by eapply archive_fuel. }
  cbn [obind app]. change (u_next u0) with 1 in *. pose proof (unplaced_entries u0 _ _ _ _ eq_refl Hs) as Hu.
  destruct (sc_new _ _ _ _ _ Hs 0%nat _ eq_refl) as (r & Hr & Er). cbn [u0 with_device ustar_new u_next u_NextInode] in Hr, Er.
  rewrite Z.add_0_r in Hr, Er. destruct Hs as [S1 S2 S3 S4 S5 S6]. cbn [entries_of length] in S2 |- *. rewrite length_listing in *.
  rewrite seqZ_cons by lia. replace (Z.pred (Z.of_nat (S (count f)))) with (Z.of_nat (count f)) by lia.
  cbn [build]. rewrite (path_of_some _ _ _ Hr). cbn [obind]. pose proof (en_path _ _ _ _ _ Er) as Hpath. cbn [fst] in Hpath.
  destruct (en_alone _ _ _ _ _ Er) as (Hrp & Hrc & _). rewrite Hpath, decide_True by done.
  destruct (build_forest f root_path 2 1 r [] [] [] (u_heap u1) Hg root_dir Hr Hpath ltac:(lia) ltac:(constructor) ltac:(constructor) Hu)
    as (h1 & extra & E & [B1 B2 B3 B4 B5]). rewrite app_nil_r in E. change (Z.succ 1) with 2. cbn [app] in E. rewrite E. cbn [build obind].
  rewrite Hrc in B2. cbn [app] in B2.
  assert (Hsize : (count f <= size h1)%nat).
  { apply (range_size h1 2). intros k Hk. destruct (lookup_lt_is_Some_2 (listing root_path f) k ltac:(rewrite length_listing; lia)) as [e He].
    destruct (Hu k e He) as (nd & Hnd & _). destruct (same_core_some _ _ _ _ B1 Hnd) as (nd' & Hnd' & _). by exists nd'. }
  pose proof (depth_count f) as Hdep. cbn [set_offsets]. unfold the_unode. rewrite B2. cbn [obind with_uchildren u_Children].
  destruct (offsets_forest f (size h1) 2 2 root_path 1 h1 ltac:(lia) B4) as (h2 & -> & [P1 P2 P3 P4 P5]). cbn [obind].
  change (u_NextInode u0) with 0 in *. exists (with_heap h2 u1), g. split; [done|]. split; [|done]. split.
  - destruct S1 as [C1 C2 C3 C4 C5 C6]. split; try done. cbn [with_heap u_heap u_NextInode]. intros i nd Hi.
    destruct (kept_index _ _ _ _ _ B1 P1 Hi) as (nd0 & Hnd0 & <-). by apply C6.
  - cbn [with_heap u_NextInode]. lia.
  - exists (with_uchildren (tops 2 f) r). destruct Er as [R1 R2 (R3 & R4 & R5) (R6 & R7 & R8) R9 R10]. cbn [fst snd] in *.
    split; cbn [with_heap u_heap u_mem with_uchildren u_Node u_Name u_Path u_Parent u_Children u_Deleted u_Header]; try done.
    + rewrite P2 by lia. exact B2.
    + pose proof (eq_trans (eq_sym R2) root_name) as E2. by injection E2.
  - apply holds_intro; try done; [apply root_dir|]. intros k e Hk. destruct (S6 (S k) e Hk) as (nd & Hnd & He). change (u_next u0) with 1 in Hnd.
    destruct (entry_kept _ _ _ _ _ _ _ _ _ Hnd He B1 P1) as (nd2 & Hnd2 & HR). exists nd2. cbn [with_heap u_heap u_mem]. split.
    + rewrite <- Hnd2. f_equal. lia.
    + by replace (2 - 1 + Z.of_nat k) with (0 + Z.of_nat (S k)) by lia.
Qed.
End archive.

(** ** Looking names up *)

(** The entry with a name: the first one, its inode and its tree *)
Fixpoint entry_at (f : forest) (n : Z) (w : list Z) : option (Z * (list Z + forest)) :=
  match f with
  | Nil => None
  | File v data rest => if decide (v = w) then Some (n, inl data) else entry_at rest (n + 1) w
  | Dir v sub rest => if decide (v = w) then Some (n, inr sub) else entry_at rest (n + 1 + Z.of_nat (count sub)) w
  end.

(** The inode [i] is the file or the directory [t]. *)
Definition holds_at (u : ustar) (i : Z) (t : list Z + forest) : Prop :=
  match t with
  | inl data => exists w path parent o nd, node_is u i w path parent [] o data false nd
  | inr f => exists w path parent o nd, node_is u i w path parent (tops (i + 1) f) o [] true nd /\ holds u (i + 1) path i 2 f
  end.

Lemma tree_holds u g f : tree_is u g f -> holds_at u 1 (inr f).
Proof. intros [_ _ [nd Hnd] Hh]. by exists root_path, root_path, None, 0, nd. Qed.

Lemma entry_holds u f : forall n prefix parent o w k t, holds u n prefix parent o f -> entry_at f n w = Some (k, t) -> holds_at u k t.
Proof.
  induction f as [|v data rest IH|v sub IHs rest IH]; intros n prefix parent o w k t; cbn [holds entry_at]; [done| |].
  - intros [[nd Hnd] Hh]. case_decide; [|by eapply IH]. intros [= <- <-]. by exists v, (prefix ++ v), (Some parent), o, nd.
  - intros ([nd Hnd] & Hs & Hh). case_decide; [|by eapply IH]. intros [= <- <-]. by exists v, (prefix ++ v ++ [slash]), (Some parent), o, nd.
Qed.

Lemma find_unode_spec u w f : forall n prefix parent o, holds u n prefix parent o f ->
  find_unode (u_heap u) w (tops n f) = Ret (fst <$> entry_at f n w).
Proof.
  assert (Hone : forall n v path parent children o data dir nd l, node_is u n v path parent children o data dir nd ->
    find_unode (u_heap u) w (n :: l) = if decide (v = w) then Ret (Some n) else find_unode (u_heap u) w l).
  { intros n v path parent children o data dir nd l [N1 N2 _ _ N5 _ _ _ _]. cbn [find_unode]. unfold the_unode. rewrite N1. cbn [obind].
    rewrite N2, N5. destruct (decide (v = w)); [by rewrite decide_True|]. rewrite decide_False; [done|]. by intros [_ ?]. }
  induction f as [|v data rest IH|v sub IHs rest IH]; intros n prefix parent o; cbn [holds entry_at tops]; [done| |].
  - intros [[nd Hnd] Hh]. rewrite (Hone _ _ _ _ _ _ _ _ _ _ Hnd). case_decide; [done|by eapply IH].
  - intros ([nd Hnd] & _ & Hh). rewrite (Hone _ _ _ _ _ _ _ _ _ _ Hnd). case_decide; [done|by eapply IH].
Qed.

Lemma ustar_Lookup_run u i t w : holds_at u i t -> 0 < i -> good_word w ->
  ustar_Lookup U i w u = Ret (match (match t with inl _ => None | inr f => entry_at f (i + 1) w end) with
                              | Some (k, _) => (0, k, u) | None => (- K_ENOENT, 0, u) end).
Proof.
  intros Ht Hi Hw. unfold ustar_Lookup. rewrite basename_word by done. cbn [obind]. cbv zeta. change (drop (Z.to_nat 0) w) with w.
  rewrite (proj2 (Z.eqb_neq i 0)) by lia. unfold the_unode. destruct t as [data|f].
  - destruct Ht as (v & path & parent & o & nd & N). destruct N as [-> _ _ [_ Hc] _ _ _ _ _]. cbn [obind]. rewrite Hc. done.
  - destruct Ht as (v & path & parent & o & nd & N & Hh). destruct N as [-> _ _ [_ Hc] _ _ _ _ _]. cbn [obind]. rewrite Hc.
    rewrite (find_unode_spec _ _ _ _ _ _ _ Hh). cbn [obind]. by destruct (entry_at f (i + 1) w) as [[k t]|].
Qed.

(** A path in the tree *)
Fixpoint find (i : Z) (t : list Z + forest) (ws : list (list Z)) : option (Z * (list Z + forest)) :=
  match ws with
  | [] => Some (i, t)
  | w :: ws =>
    match t with
    | inl _ => None
    | inr f => match entry_at f (i + 1) w with Some (k, t) => find k t ws | None => None end
    end
  end.

Lemma find_snoc ws w : forall i t k t', find i t ws = Some (k, t') ->
  find i t (ws ++ [w]) = match t' with inl _ => None | inr f => entry_at f (k + 1) w end.
Proof.
  induction ws as [|v ws IH]; intros i t k t'; cbn [find app].
  - intros [= <- <-]. destruct t as [data|f]; [done|]. by destruct (entry_at f (i + 1) w) as [[k t]|].
  - destruct t as [data|f]; [done|]. destruct (entry_at f (i + 1) v) as [[k1 t1]|]; [|done]. apply IH.
Qed.

Lemma entry_at_range f : forall n w k t, entry_at f n w = Some (k, t) -> n <= k.
Proof.
  induction f as [|v data rest IH|v sub IHs rest IH]; intros n w k t; cbn [entry_at]; [done| |];
    (case_decide; [intros [= <- _]; lia|]); intros Hk%IH; lia.
Qed.

Lemma find_holds u ws : forall i t k t', 0 < i -> holds_at u i t -> find i t ws = Some (k, t') -> 0 < k /\ holds_at u k t'.
Proof.
  induction ws as [|w ws IH]; intros i t k t' Hi Ht; cbn [find]; [by intros [= <- <-]|].
  destruct t as [data|f]; [done|]. destruct (entry_at f (i + 1) w) as [[k1 t1]|] eqn:E; [|done].
  destruct Ht as (v & path & parent & o & nd & N & Hh). apply IH; [apply entry_at_range in E; lia|]. by eapply entry_holds.
Qed.

(** ** Reading files *)

Definition with_files (t : unordered_map Z Z) (u : ustar) : ustar := Ustar (u_mem u) (u_heap u) (u_next u) t (u_DeviceID u) (u_NextInode u).

Lemma ufile_of_spec u g i nd : counted u g -> u_heap u !! i = Some nd ->
  exists t, ufile_of i u = Ret (i, nd, with_files t u) /\ counted (with_files t u) g.
Proof.
  intros Hc Hi. pose proof Hc as [C1 C2 C3 C4 C5 C6]. unfold ufile_of, the_unode. rewrite Hi. cbn [obind]. destruct (C6 _ _ Hi) as [Hr ->].
  destruct (umap_find_spec hash_u64 (u_Files u) g (i - 1) C3) as (H1 & H2 & _). destruct (umap_find hash_u64 (u_Files u) (i - 1)) as [v t].
  cbn [fst snd] in *. assert (Hg : g !! (i - 1) = Some i) by (apply C5; lia). rewrite H1, Hg, Hi. cbn [obind].
  exists t. split; [done|]. by split.
Qed.

Lemma holds_at_files t u i f : holds_at u i f -> holds_at (with_files t u) i f.
Proof.
  assert (Hone : forall n w path parent children o data dir nd, node_is u n w path parent children o data dir nd ->
    node_is (with_files t u) n w path parent children o data dir nd) by (intros * []; by split).
  assert (Hall : forall f n prefix parent o, holds u n prefix parent o f -> holds (with_files t u) n prefix parent o f).
  { intros f0. induction f0 as [|w data rest IH|w sub IHs rest IH]; intros n prefix parent o; cbn [holds]; [done| |].
    - intros [[nd Hnd] Hh]. split; [exists nd; by apply Hone|by apply IH].
    - intros ([nd Hnd] & Hs & Hh). split_and!; [exists nd; by apply Hone|by apply IHs|by apply IH]. }
  destruct f as [data|f]; [intros (w & path & parent & o & nd & N)|intros (w & path & parent & o & nd & N & Hh)];
    exists w, path, parent, o, nd; [by apply Hone|]. split; [by apply Hone|by apply Hall].
Qed.

Lemma octal_range l : 0 <= octal l < 2 ^ 32.
Proof.
  unfold octal. assert (H : forall l r, 0 <= r < 2 ^ 32 -> 0 <= foldl (fun ret c => u32 (ret * 8 + (sw 8 c - 48))) r l < 2 ^ 32).
  { clear l. induction l as [|c l IH]; intros r Hr; [done|]. apply IH. apply Z.mod_pos_bound. lia. }
  by apply H.
Qed.

(** What [Read] copies: [count_of] bytes from [offset] on *)
Definition count_of (len size_ offset : Z) : Z := if offset + size_ >? len then len else size_.

Lemma ustar_Read_run u g i w path parent o data nd size_ offset : counted u g -> node_is u i w path parent [] o data false nd ->
  0 < size_ -> 0 <= offset -> offset + size_ < 2 ^ 64 ->
  exists t, counted (with_files t u) g /\
    ustar_Read i size_ offset u =
      if offset <? Z.of_nat (length data) then
        let! l := load_bytes (u_mem u) (u_Header nd + sizeof_FileHeader + offset) (Z.to_nat (count_of (Z.of_nat (length data)) size_ offset)) in
        Ret (count_of (Z.of_nat (length data)) size_ offset, l, with_files t u)
      else Ret (0, [], with_files t u).
Proof.
  intros Hc [N1 _ _ _ N5 _ _ _ N9] Hs Ho Hr. destruct (ufile_of_spec u g i nd Hc N1) as (t & E & Hc'). exists t. split; [done|].
  unfold ustar_Read. rewrite E. cbn [obind]. rewrite N5. destruct (st_size _ _ _ _ N9) as (ls & Hls & _ & Hoct). unfold GetSize.
  change (u_mem (with_files t u)) with (u_mem u). rewrite (string_at_spec _ _ _ Hls). cbn [obind]. rewrite Hoct. cbv zeta.
  pose proof (octal_range ls) as Hlen. rewrite Hoct in Hlen. set (len := Z.of_nat (length data)) in *.
  rewrite (proj2 (Z.leb_gt size_ 0)) by lia. rewrite (uw_small 64 offset) by lia. rewrite Z.gtb_ltb.
  destruct (Z.ltb_spec len offset) as [H1|H1]; [by rewrite (proj2 (Z.ltb_ge offset len)) by lia|].
  rewrite (uw_small 64 (len - offset)) by lia. destruct (Z.eqb_spec (len - offset) 0) as [H2|H2];
    [by rewrite (proj2 (Z.ltb_ge offset len)) by lia|].
  rewrite (proj2 (Z.ltb_lt offset len)) by lia. by rewrite (uw_small 64 (offset + size_)) by lia.
Qed.

Lemma bytes_at_slice m a l k n : bytes_at m a l -> (k + n <= length l)%nat -> load_bytes m (a + Z.of_nat k) n = Ret (take n (drop k l)).
Proof.
  intros Hb Hl. rewrite <- (take_drop k l) in Hb. apply bytes_at_app in Hb as [_ Hb]. rewrite length_take in Hb.
  replace (Z.of_nat (k `min` length l)) with (Z.of_nat k) in Hb by lia.
  assert (Hlen : length (take n (drop k l)) = n) by (rewrite length_take, length_drop; lia).
  set (d := drop k l) in *. rewrite <- (take_drop n d) in Hb. apply bytes_at_app in Hb as [Hb _].
  set (x := take n d) in *. rewrite <- Hlen. by apply load_bytes_at.
Qed.

(** What is read inside the file is what the archive has there. *)
Lemma ustar_Read_inside u g i data size_ offset : counted u g -> holds_at u i (inl data) ->
  0 < size_ -> 0 <= offset -> offset + size_ < 2 ^ 64 -> offset = 0 \/ offset + size_ <= Z.of_nat (length data) ->
  exists t, counted (with_files t u) g /\
    ustar_Read i size_ offset u = Ret (Z.min size_ (Z.of_nat (length data)), take (Z.to_nat size_) (drop (Z.to_nat offset) data), with_files t u).
Proof.
  intros Hc (w & path & parent & o & nd & N) Hs Ho Hr Hin. destruct (ustar_Read_run u g i w path parent o data nd size_ offset Hc N Hs Ho Hr) as (t & Hc' & E).
  exists t. split; [done|]. rewrite E. unfold count_of. pose proof (st_data _ _ _ _ (ni_stored _ _ _ _ _ _ _ _ _ _ N)) as Hb.
  destruct (Z.ltb_spec offset (Z.of_nat (length data))) as [H1|H1].
  - rewrite Z.gtb_ltb. destruct (Z.ltb_spec (Z.of_nat (length data)) (offset + size_)) as [H2|H2].
    + assert (offset = 0) as -> by lia. rewrite Nat2Z.id, Z.add_0_r. rewrite (load_bytes_at _ _ _ Hb). cbn [obind]. change (drop (Z.to_nat 0) data) with data. rewrite take_ge by lia.
      by replace (Z.min size_ (Z.of_nat (length data))) with (Z.of_nat (length data)) by lia.
    + replace offset with (Z.of_nat (Z.to_nat offset)) at 1 by lia. rewrite (bytes_at_slice _ _ _ _ _ Hb) by lia. cbn [obind].
      by replace (Z.min size_ (Z.of_nat (length data))) with size_ by lia.
  - assert (offset = 0) as -> by lia. destruct data; [|cbn in H1; lia]. by rewrite drop_nil, take_nil, Z.min_r by (cbn; lia).
Qed.

(** Looking names up one after the other, from an inode on *)
Fixpoint walk (i : Z) (ws : list (list Z)) (u : ustar) : outcome (option Z) :=
  match ws with
  | [] => Ret (Some i)
  | w :: ws => let! (ret, k, u) := ustar_Lookup U i w u in if ret <? 0 then Ret None else walk k ws u
  end.

Lemma walk_find u ws : forall i t, 0 < i -> holds_at u i t -> Forall good_word ws -> walk i ws u = Ret (fst <$> find i t ws).
Proof.
  induction ws as [|w ws IH]; intros i t Hi Ht Hws; cbn [walk find]; [done|]. apply Forall_cons_1 in Hws as [Hw Hws].
  rewrite (ustar_Lookup_run u i t w Ht Hi Hw). destruct t as [data|f]; [done|].
  destruct (entry_at f (i + 1) w) as [[k t]|] eqn:E; [|done]. cbn [obind]. change (0 <? 0) with false. cbv iota.
  destruct Ht as (v & path & parent & o & nd & N & Hh). apply IH; [apply entry_at_range in E; lia|by eapply entry_holds|done].
Qed.

Lemma root_lookup u g f : tree_is u g f -> exists t, ustar_Lookup U 0 root_path u = Ret (0, 1, with_files t u) /\ counted (with_files t u) g.
Proof.
  intros [Hc Hn _ _]. unfold ustar_Lookup. pose proof Hc as [C1 C2 C3 C4 C5 C6]. change (cwk_path_get_basename U root_path) with (Ret (A := option (Z * Z)) None).
  cbn [obind]. rewrite decide_True by done. unfold umap_at. destruct (umap_find_spec hash_u64 (u_Files u) g 0 C3) as (H1 & H2 & _).
  destruct (umap_find hash_u64 (u_Files u) 0) as [v t]. cbn [fst snd] in *. assert (Hg : g !! 0 = Some 1) by (apply C5; lia). rewrite H1, Hg.
  exists t. split; [done|]. by split.
Qed.

(** C19: reading an archive.  From memory that holds an archive that lists a
    directory tree from ["/"] on, each directory before what is in it, with fewer
    than 2^64 entries ([build_needs_root]: without ["/"] the code faults),
    [ReadArchive] makes a file system
    of exactly this tree: its root is found, walking from the root along any
    words finds the entry that the tree has there, and no other, and reading
    inside a file that was found gives the bytes of the archive. *)
Theorem ReadArchive_correct Check m a f dev : archive Check m a (entries_of f) -> good_forest f -> Z.of_nat (count f) + 1 < 2 ^ 64 ->
  exists u, ReadArchive Check U a (with_device dev (ustar_new m)) = Ret u /\
    (exists u', ustar_Lookup U 0 root_path u = Ret (0, 1, u')) /\
    forall ws, Forall good_word ws -> walk 1 ws u = Ret (fst <$> find 1 (inr f) ws) /\
      forall i data size_ offset, find 1 (inr f) ws = Some (i, inl data) -> 0 < size_ -> 0 <= offset -> offset + size_ <= Z.of_nat (length data) ->
        exists u', ustar_Read i size_ offset u = Ret (size_, take (Z.to_nat size_) (drop (Z.to_nat offset) data), u').
Proof.
  intros Ha Hg Hroom. destruct (ReadArchive_run Check m a f dev Ha Hg Hroom) as (u & g & E & Ht & _). exists u. split; [done|].
  destruct (root_lookup u g f Ht) as (t & El & _). split; [by eexists|]. pose proof (tree_holds _ _ _ Ht) as Hroot. intros ws Hws.
  split; [by apply walk_find|]. intros i data size_ offset Hf Hs Ho Hin. destruct (find_holds u ws 1 (inr f) i (inl data) ltac:(lia) Hroot Hf) as [_ Hi].
  destruct Hi as (w & path & parent & o & nd & N). pose proof (ni_stored _ _ _ _ _ _ _ _ _ _ N) as Hst. destruct (st_size _ _ _ _ Hst) as (ls & _ & _ & Hoct).
  pose proof (octal_range ls). destruct (ustar_Read_inside u g i data size_ offset (ti_counted _ _ _ Ht)) as (t' & _ & Er); try lia.
  { by exists w, path, parent, o, nd. }
  rewrite Er. replace (Z.min size_ (Z.of_nat (length data))) with size_ by lia. by eexists.
Qed.

(** C40: reading across the end of a file.  When less than the requested number
    of bytes is left behind a position inside the file, [Read] returns as many
    bytes as the whole file has: the rest of the file and, after it, whatever
    the archive has behind the file. *)
Theorem ustar_Read_overruns u g i data extra size_ offset nd : counted u g -> holds_at u i (inl data) -> u_heap u !! i = Some nd ->
  0 < offset < Z.of_nat (length data) -> 0 < size_ -> Z.of_nat (length data) < offset + size_ < 2 ^ 64 ->
  bytes_at (u_mem u) (u_Header nd + sizeof_FileHeader + Z.of_nat (length data)) extra -> Z.of_nat (length extra) = offset ->
  exists u', ustar_Read i size_ offset u = Ret (Z.of_nat (length data), drop (Z.to_nat offset) data ++ extra, u').
Proof.
  intros Hc (w & path & parent & o & nd' & N) Hnd Ho Hs Hr Hb Hlen. assert (nd' = nd) as -> by (pose proof (ni_node _ _ _ _ _ _ _ _ _ _ N); congruence).
  destruct (ustar_Read_run u g i w path parent o data nd size_ offset Hc N Hs ltac:(lia) ltac:(lia)) as (t & _ & E). exists (with_files t u). rewrite E.
  rewrite (proj2 (Z.ltb_lt _ _)) by lia. unfold count_of. rewrite Z.gtb_ltb, (proj2 (Z.ltb_lt _ _)) by lia. rewrite Nat2Z.id.
  pose proof (st_data _ _ _ _ (ni_stored _ _ _ _ _ _ _ _ _ _ N)) as Hd.
  assert (Hall : bytes_at (u_mem u) (u_Header nd + sizeof_FileHeader) (data ++ extra)) by (by apply bytes_at_app).
  replace offset with (Z.of_nat (Z.to_nat offset)) at 1 by lia. rewrite (bytes_at_slice _ _ _ _ _ Hall) by (rewrite length_app; lia). cbn [obind].
  rewrite drop_app_le by lia. by rewrite take_ge by (rewrite length_app, length_drop; lia).
Qed.

(** ** Listing directories *)

(** The entries of a directory as a caller sees them *)
Fixpoint dirents (n o : Z) (f : forest) : list kdirent :=
  match f with
  | Nil => []
  | File w _ rest => Dirent (n - 1) o (reclen w) DT_REG w :: dirents (n + 1) (o + 1) rest
  | Dir w sub rest => Dirent (n - 1) o (reclen w) DT_DIR w :: dirents (n + 1 + Z.of_nat (count sub)) (o + 1) rest
  end.

(** The first entries that fit, at most [max] of them *)
Fixpoint fit (size_ max total : Z) (l : list kdirent) : Z * list kdirent :=
  match l with
  | [] => (total, [])
  | e :: l =>
    if max <=? 0 then (total, [])
    else if total + reclen (d_name e) >? size_ then (total, [])
    else let '(t, l) := fit size_ (max - 1) (total + reclen (d_name e)) l in (t, e :: l)
  end.

Lemma list_children_spec u size_ offset max f : forall n prefix parent o entries total, holds u n prefix parent o f -> 
  list_children u size_ offset max entries total (tops n f) = Ret (fit size_ (max - entries) total (drop (Z.to_nat (offset - o)) (dirents n o f))).
Proof.
  assert (Hone : forall n v path parent children o data dir nd entries total l rest, node_is u n v path parent children o data dir nd ->
    (forall entries total, list_children u size_ offset max entries total l = Ret (fit size_ (max - entries) total (drop (Z.to_nat (offset - (o + 1))) rest))) ->
    list_children u size_ offset max entries total (n :: l) =
    Ret (fit size_ (max - entries) total (drop (Z.to_nat (offset - o)) (Dirent (n - 1) o (reclen v) (if dir : bool then DT_DIR else DT_REG) v :: rest)))).
  { intros n v path parent children o data dir nd entries total l rest [N1 N2 _ _ N5 N6 N7 _ N9] Hl. cbn [list_children]. unfold the_unode. rewrite N1.
    cbn [obind]. rewrite N7. destruct (Z.ltb_spec o offset) as [H1|H1].
    - rewrite Hl. replace (Z.to_nat (offset - o)) with (S (Z.to_nat (offset - (o + 1)))) by lia. done.
    - replace (Z.to_nat (offset - o)) with 0%nat by lia. cbn [drop fit d_name]. replace (entries >=? max) with (max - entries <=? 0) by lia.
      destruct (max - entries <=? 0); [done|]. rewrite N2, N5. destruct (total + reclen v >? size_); [done|].
      unfold load8. rewrite (st_type _ _ _ _ N9). cbn [obind]. rewrite Hl. replace (Z.to_nat (offset - (o + 1))) with 0%nat by lia. rewrite drop_0.
      replace (max - (entries + 1)) with (max - entries - 1) by lia. destruct (fit size_ (max - entries - 1) (total + reclen v) rest) as [t ents]. cbn [obind].
      rewrite N6. by destruct dir. }
  induction f as [|v data rest IH|v sub IHs rest IH]; intros n prefix parent o entries total; cbn [holds tops dirents].
  - intros _. cbn [list_children]. by rewrite drop_nil.
  - intros [[nd Hnd] Hh]. apply (Hone _ _ _ _ _ _ _ _ _ _ _ _ _ Hnd). intros e t. by eapply IH.
  - intros ([nd Hnd] & _ & Hh). apply (Hone _ _ _ _ _ _ _ _ _ _ _ _ _ Hnd). intros e t. by eapply IH.
Qed.

Lemma length_dirents f : forall n o, length (dirents n o f) = length (tops n f).
Proof. induction f; intros n o; cbn; auto. Qed.

Lemma dirents_off f : forall n o k e, dirents n o f !! k = Some e -> d_off e = o + Z.of_nat k.
Proof.
  induction f as [|v data rest IH|v sub IHs rest IH]; intros n o k e; cbn [dirents]; [by rewrite lookup_nil| |];
    (destruct k as [|k]; [intros [= <-]; cbn; lia|]; intros H%IH; lia).
Qed.

Lemma fit_prefix l : forall size_ max total, exists k, snd (fit size_ max total l) = take k l /\
  (0 < max -> forall e, l !! 0%nat = Some e -> total + reclen (d_name e) <= size_ -> (0 < k)%nat).
Proof.
  induction l as [|e l IH]; intros size_ max total; cbn [fit]; [by exists 0%nat|].
  destruct (Z.leb_spec max 0) as [H1|H1]; [exists 0%nat; split; [done|lia]|]. rewrite Z.gtb_ltb.
  destruct (Z.ltb_spec size_ (total + reclen (d_name e))) as [H2|H2]; [exists 0%nat; split; [done|intros _ e' [= <-]; lia]|].
  destruct (IH size_ (max - 1) (total + reclen (d_name e))) as (k & E & _). destruct (fit size_ (max - 1) (total + reclen (d_name e)) l) as [t ents].
  exists (S k). cbn in *. split; [by rewrite E|lia].
Qed.

Lemma ustar_ReadDir_page u i f size_ offset max : holds_at u i (inr f) -> 2 <= offset <= 2 + Z.of_nat (length (tops (i + 1) f)) ->
  ustar_ReadDir i size_ offset max u = Ret (fit size_ max 0 (drop (Z.to_nat (offset - 2)) (dirents (i + 1) 2 f))).
Proof.
  intros (w & path & parent & o & nd & N & Hh) Ho. pose proof N as [N1 N2 N3 [N4 N4'] N5 N6 N7 N8 N9]. unfold ustar_ReadDir, the_unode. rewrite N1. cbn [obind]. cbv zeta.
  rewrite (proj2 (Z.eqb_neq offset 0)), (proj2 (Z.eqb_neq offset 1)) by lia. cbn [andb]. rewrite (proj2 (Z.leb_gt offset 1)) by lia. cbn [andb obind].
  unfold is_type. rewrite N8. change (type_mode (type_byte true) =? S_IFDIR) with true. cbn [negb]. rewrite N4'.
  rewrite Z.geb_leb, (proj2 (Z.leb_le 2 offset)) by lia. rewrite Z.gtb_ltb, (proj2 (Z.ltb_ge _ _)) by lia.
  rewrite (list_children_spec u size_ offset max f (i + 1) path i 2 0 0 Hh). rewrite Z.sub_0_r. cbn [obind app].
  by destruct (fit size_ max 0 (drop (Z.to_nat (offset - 2)) (dirents (i + 1) 2 f))).
Qed.

(** A caller that reads a directory on, from the position behind the last entry *)
Fixpoint list_all (fuel : nat) (i size_ max offset : Z) (u : ustar) : outcome (list kdirent) :=
  match fuel with
  | O => OutOfFuel
  | S fuel =>
    let! (_, ents) := ustar_ReadDir i size_ offset max u in
    match list.last ents with
    | None => Ret []
    | Some e => let! more := list_all fuel i size_ max (d_off e + 1) u in Ret (ents ++ more)
    end
  end.

(** C20: listing a directory.  With a buffer that has room for any one of the
    entries, reading a directory of the archive on and on, each time behind the
    last entry that was returned, ends, and returns every entry exactly once, in
    the order of the archive, with its name, its type and its inode. *)
Theorem ustar_ReadDir_complete u i f size_ max : holds_at u i (inr f) -> 0 < max ->
  Forall (fun e => reclen (d_name e) <= size_) (dirents (i + 1) 2 f) ->
  list_all (S (length (dirents (i + 1) 2 f))) i size_ max 2 u = Ret (dirents (i + 1) 2 f).
Proof.
  intros Hi Hmax Hsize. set (all := dirents (i + 1) 2 f) in *.
  enough (H : forall fuel j, (j <= length all)%nat -> (length all - j < fuel)%nat ->
    list_all fuel i size_ max (2 + Z.of_nat j) u = Ret (drop j all)) by (apply (H _ 0%nat); lia).
  induction fuel as [|fuel IH]; intros j Hj Hf; [lia|]. cbn [list_all].
  assert (Hlen : length all = length (tops (i + 1) f)) by apply length_dirents.
  rewrite (ustar_ReadDir_page u i f size_ (2 + Z.of_nat j) max Hi ltac:(lia)). fold all. replace (Z.to_nat (2 + Z.of_nat j - 2)) with j by lia.
  destruct (fit_prefix (drop j all) size_ max 0) as (k & E & Hk). destruct (fit size_ max 0 (drop j all)) as [total ents]. cbn [snd] in E. subst ents. cbn [obind].
  destruct (drop j all) as [|e0 rest] eqn:Ed; [by rewrite take_nil|].
  assert (He0 : all !! j = Some e0) by (rewrite <- (Nat.add_0_r j), <- lookup_drop, Ed; done).
  specialize (Hk Hmax e0 eq_refl ltac:(apply (proj1 (list.Forall_forall _ _) Hsize); by eapply list_elem_of_lookup_2)).
  destruct k as [|k]; [lia|]. rewrite <- Ed. destruct (list.last (take (S k) (drop j all))) as [e|] eqn:El.
  - rewrite last_lookup in El. set (q := Init.Nat.pred (length (take (S k) (drop j all)))) in El.
    assert (Hq : (q < S k)%nat /\ S q = length (take (S k) (drop j all))).
    { unfold q. apply lookup_lt_Some in El. rewrite length_take in *. lia. }
    destruct Hq as [Hq Hq']. rewrite lookup_take_lt in El by done. rewrite lookup_drop in El. pose proof (lookup_lt_Some _ _ _ El) as Hin.
    unfold all in El. rewrite (dirents_off _ _ _ _ _ El). replace (2 + Z.of_nat (j + q) + 1) with (2 + Z.of_nat (j + S q)) by lia.
    rewrite IH by lia. cbn [obind]. f_equal. rewrite Hq', length_take, length_drop. rewrite <- drop_drop.
    destruct (Nat.le_gt_cases (S k) (length all - j)) as [Hle|Hgt].
    + rewrite (Nat.min_l (S k)) by lia. by rewrite take_drop.
    + rewrite take_ge by (rewrite length_drop; lia). rewrite (Nat.min_r (S k)) by lia. rewrite (drop_ge (drop j all)) by (rewrite length_drop; lia). apply app_nil_r.
  - apply last_None in El. by rewrite Ed in El.
Qed.
