(* ===== verification/KUstarBoot.v ===== *)
(** * Booting from an archive

    The file system of an archive keeps the promises that the virtual file system
    relies on ([Lawful]), and the two together show the files of the archive:
    [boot_archive_correct]. *)

From S2P Require Import Prelude CMem CMonad KPath KPathWords KPathNormal KString KHashMap KVfs KVfsTree KVfsLookup KRamfs KRamfsTheorems KUstar KUstarTree KUstarArchive KUstarTheorems.

(** ** The laws *)

Record ustar_ok (u : ustar) : Prop := UstarOk {
  uo_files : exists g, repr hash_u64 (u_Files u) g /\ Z.of_nat (size g) <= u_NextInode u;
  uo_next : forall i nd, u_heap u !! i = Some nd -> 0 < i < u_next u;
  uo_pos : 0 < u_next u;
  uo_children : forall i nd k, u_heap u !! i = Some nd -> k ∈ u_Children nd -> is_Some (u_heap u !! k)
}.

Definition there (u : ustar) (i : Z) : Prop := ustar_ok u /\ is_Some (u_heap u !! i).

Lemma find_unode_total h w l : (forall k, k ∈ l -> is_Some (h !! k)) -> exists r, find_unode h w l = Ret r /\ forall k, r = Some k -> k ∈ l.
Proof.
  induction l as [|i l IH]; intros Hl; cbn [find_unode]; [by exists None|]. destruct (Hl i ltac:(set_solver)) as [nd Hi].
  unfold the_unode. rewrite Hi. cbn [obind]. case_decide.
  - exists (Some i). split; [done|]. intros k [= <-]. by left.
  - destruct IH as (r & -> & Hr); [set_solver|]. exists r. split; [done|]. intros k Hk. right. by apply Hr.
Qed.

Lemma there_lookup u i w : there u i -> good_word w ->
  exists ret ino, ustar_Lookup U i w u = Ret (ret, ino, u) /\ (ret = 0 -> there u ino).
Proof.
  intros [Hok [nd Hi]] Hw. pose proof (uo_next _ Hok _ _ Hi) as Hr. unfold ustar_Lookup. rewrite basename_word by done. cbn [obind].
  rewrite (proj2 (Z.eqb_neq i 0)) by lia. unfold the_unode. rewrite Hi. cbn [obind].
  destruct (find_unode_total (u_heap u) (drop (Z.to_nat 0) w) (u_Children nd)) as (r & -> & Hres).
  { intros k Hk. by eapply (uo_children _ Hok). }
  cbn [obind]. destruct r as [k|]; [exists 0, k|by exists (- K_ENOENT), 0]. split; [done|]. intros _. split; [done|]. eapply (uo_children _ Hok); [exact Hi|by apply Hres].
Qed.

Section laws.
Context (fresh : mem -> Z) (old_mode : Z) (unset : FileSystemInfo ustar).

Lemma there_create u i w mode ino u' : there u i -> good_word w -> u_NextInode u + 1 < 2 ^ 64 ->
  ustar_Create fresh U i w mode u = Ret (0, ino, u') -> there u' ino /\ forall j, there u j -> there u' j.
Proof using Type.
  intros [Hok [nd Hi]] Hw Hroom. destruct (uo_files _ Hok) as (g & Hg & Hsize). pose proof (uo_next _ Hok _ _ Hi) as Hr.
  unfold ustar_Create. rewrite basename_word by done. cbn [obind]. rewrite chars_word. destruct (new_header fresh (u_mem u) mode _) as [[hd m]| |]; cbn [obind]; try done.
  cbv zeta. destruct (umap_insert_spec hash_u64 (u_Files u) g (u_NextInode u) (u_next u) Hg) as [Hins Hg1]; [rewrite (repr_size _ _ _ Hg); lia|].
  destruct (umap_insert hash_u64 (u_Files u) (u_NextInode u) (u_next u)) as [ins t1]. cbn [fst snd] in *.
  destruct ins; cbn [negb]; [|done]. apply eq_sym, bool_decide_eq_true_1 in Hins. rewrite decide_True in Hg1 by done.
  destruct (umap_find_spec hash_u64 t1 _ (u_NextInode u) Hg1) as (Hf & Hg2 & _). rewrite lookup_insert_eq in Hf. unfold umap_at.
  destruct (umap_find hash_u64 t1 (u_NextInode u)) as [v t2]. cbn [fst snd] in *. subst v. rewrite (proj2 (Z.eqb_neq i 0)) by lia.
  unfold adopt, the_unode. rewrite lookup_insert_ne by lia. rewrite Hi. cbn [obind]. rewrite lookup_insert_ne by lia. rewrite lookup_insert_eq. cbn [obind].
  intros [= <- <-]. set (node := UInode _ _ _ _ _ _ _). set (h1 := <[u_next u := with_uparent i node]> _).
  assert (Hnew : h1 !! u_next u = Some (with_uparent i node)) by apply lookup_insert_eq.
  assert (Hpar : h1 !! i = Some (with_uchildren (u_Children nd ++ [u_next u]) nd)) by (unfold h1; by rewrite lookup_insert_ne, lookup_insert_eq by lia).
  assert (Hother : forall x, x <> u_next u -> x <> i -> h1 !! x = u_heap u !! x) by (intros x H1 H2; unfold h1; by rewrite !lookup_insert_ne).
  assert (Hkeep : forall x, is_Some (u_heap u !! x) -> is_Some (h1 !! x)).
  { intros x [n Hx]. destruct (decide (x = i)) as [->|H1]; [by eexists|]. pose proof (uo_next _ Hok _ _ Hx). exists n. by rewrite Hother by lia. }
  assert (Hok' : ustar_ok (Ustar m h1 (u_next u + 1) t2 (u_DeviceID u) (u64 (u_NextInode u + 1)))).
  { split; cbn [u_Files u_NextInode u_heap u_next].
    - exists (<[u_NextInode u := u_next u]> g). split; [done|]. rewrite map_size_insert_None by done. rewrite (uw_small 64) by lia. lia.
    - intros x n Hx. destruct (decide (x = u_next u)) as [->|H1]; [pose proof (uo_pos _ Hok); lia|].
      destruct (decide (x = i)) as [->|H2]; [lia|]. rewrite Hother in Hx by done. apply (uo_next _ Hok) in Hx. lia.
    - pose proof (uo_pos _ Hok). lia.
    - intros x n k Hx Hk. destruct (decide (x = u_next u)) as [->|H1].
      + rewrite Hnew in Hx. injection Hx as <-. cbn in Hk. by apply not_elem_of_nil in Hk.
      + destruct (decide (x = i)) as [->|H2].
        * rewrite Hpar in Hx. injection Hx as <-. cbn [with_uchildren u_Children] in Hk. apply elem_of_app in Hk as [Hk|Hk].
          -- apply Hkeep. by eapply (uo_children _ Hok).
          -- apply list_elem_of_singleton in Hk as ->. by eexists.
        * rewrite Hother in Hx by done. apply Hkeep. by eapply (uo_children _ Hok). }
  split; [split; [done|by eexists]|]. intros j [_ Hj]. split; [done|]. by apply Hkeep.
Qed.

Lemma there_lookup_op lookup i w u : op_Lookup (ustar_ops fresh U old_mode unset) = Some lookup -> there u i -> good_word w ->
  exists ret ino u', lookup i w u = Ret (ret, ino, u') /\ (ret = 0 -> there u' ino) /\ (forall j, there u j -> there u' j).
Proof using Type. intros [= <-] Hi Hw. destruct (there_lookup u i w Hi Hw) as (ret & ino & E & H). by exists ret, ino, u. Qed.

Lemma there_create_op create i w mode u ino u' : op_Create (ustar_ops fresh U old_mode unset) = Some create -> there u i -> good_word w ->
  u_NextInode u + 1 < 2 ^ 64 -> create i w mode u = Ret (0, ino, u') -> there u' ino /\ (forall j, there u j -> there u' j).
Proof using Type. intros [= <-]. apply there_create. Qed.

#[local] Instance ustar_lawful : @Lawful ustar (ustar_files fresh U old_mode unset) := {
  valid := there;
  room u := u_NextInode u + 1 < 2 ^ 64;
  lookup_law f lookup i w u := there_lookup_op lookup i w u;
  create_law f create i w mode u ino u' := there_create_op create i w mode u ino u'
}.
End laws.

(** ** The tree of nodes over the archive *)

Lemma holds_inside u f : forall n prefix parent o, holds u n prefix parent o f -> forall i, n <= i < n + Z.of_nat (count f) ->
  exists nd, u_heap u !! i = Some nd /\ forall k, k ∈ u_Children nd -> n <= k < n + Z.of_nat (count f).
Proof.
  induction f as [|v data rest IH|v sub IHs rest IH]; intros n prefix parent o; cbn [holds count]; [lia| |].
  - intros [[nd [N1 _ _ [_ N4] _ _ _ _ _]] Hh] i Hi. destruct (decide (i = n)) as [->|Hne].
    + exists nd. split; [done|]. rewrite N4. by intros k ?%not_elem_of_nil.
    + destruct (IH _ _ _ _ Hh i ltac:(lia)) as (nd' & Hnd' & Hk). exists nd'. split; [done|]. intros k Hin%Hk. lia.
  - intros ([nd [N1 _ _ [_ N4] _ _ _ _ _]] & Hs & Hh) i Hi. destruct (decide (i = n)) as [->|Hne].
    + exists nd. split; [done|]. rewrite N4. intros k Hin%tops_range. lia.
    + destruct (Z.lt_ge_cases i (n + 1 + Z.of_nat (count sub))) as [Hlt|Hge].
      * destruct (IHs _ _ _ _ Hs i ltac:(lia)) as (nd' & Hnd' & Hk). exists nd'. split; [done|]. intros k Hin%Hk. lia.
      * destruct (IH _ _ _ _ Hh i ltac:(lia)) as (nd' & Hnd' & Hk). exists nd'. split; [done|]. intros k Hin%Hk. lia.
Qed.

Lemma tree_ok u g f : tree_is u g f -> ustar_ok u.
Proof.
  intros [Hc Hn [r Hr] Hh]. pose proof Hc as [C1 C2 C3 C4 C5 C6].
  assert (Hall : forall i nd, u_heap u !! i = Some nd -> forall k, k ∈ u_Children nd -> 2 <= k < 2 + Z.of_nat (count f)).
  { intros i nd Hi. destruct (C6 _ _ Hi) as [Hrange _]. destruct (decide (i = 1)) as [->|Hne].
    - destruct Hr as [N1 _ _ [_ N4] _ _ _ _ _]. replace nd with r by congruence. rewrite N4. intros k. apply tops_range.
    - destruct (holds_inside _ _ _ _ _ _ Hh i ltac:(lia)) as (nd' & Hnd' & Hk). by replace nd with nd' by congruence. }
  split.
  - exists g. split; [done|lia].
  - intros i nd Hi. apply C6 in Hi. lia.
  - lia.
  - intros i nd k Hi Hk. destruct (holds_inside _ _ _ _ _ _ Hh k ltac:(by eapply Hall)) as (nd' & Hnd' & _). by eexists.
Qed.

Lemma tree_is_files u g f t : tree_is u g f -> counted (with_files t u) g -> tree_is (with_files t u) g f.
Proof.
  intros Ht Hc. pose proof (holds_at_files t u 1 (inr f) (tree_holds _ _ _ Ht)) as (w & path & parent & o & nd & N & Hh). destruct Ht as [_ T2 [r R] T4].
  split; try done. 
  - exists r. destruct R. by split.
  - replace path with root_path in Hh; [done|]. pose proof (ni_node _ _ _ _ _ _ _ _ _ _ N) as N1. pose proof (ni_node _ _ _ _ _ _ _ _ _ _ R) as R1.
    change (u_heap (with_files t u)) with (u_heap u) in N1. rewrite <- (ni_path _ _ _ _ _ _ _ _ _ _ N), <- (ni_path _ _ _ _ _ _ _ _ _ _ R). congruence.
Qed.

Section boot.
Context (Check : Z -> bool) (fresh : mem -> Z) (old_mode : Z) (unset : FileSystemInfo ustar) (allocate : Z -> list Z) (unset_flag : Z -> bool).
#[local] Instance archive_below : FileSystems ustar := ustar_files fresh U old_mode unset.
#[local] Instance archive_laws : Lawful := ustar_lawful fresh old_mode unset.
Implicit Types (s : Virtual ustar).

(** The kernel before it has looked for an archive *)
Definition before_boot (registered : unordered_map Z Z) (next : Z) (m : mem) : Virtual ustar := VFS umap_empty registered ∅ next (ustar_new m).

Lemma TestArchive_true m a path data dir l : archive Check m a ((path, data, dir) :: l) -> TestArchive Check m a = Ret true.
Proof using Type.
  intros [Hh _]. unfold TestArchive. rewrite (ha_check _ _ _ _ _ _ Hh). cbn [negb]. destruct (ha_signature _ _ _ _ _ _ Hh) as [c Hs].
  assert (Hmagic : forall m l x a, 0 ∉ l -> bytes_at m a (l ++ [x]) -> exists b, same_bytes m a (l ++ [0]) = Ret b).
  { clear. intros m l. induction l as [|y l IH]; intros x a H0 Hb; cbn [app same_bytes] in *; rewrite (load8_bytes _ _ _ _ Hb); cbn [obind].
    - destruct (negb (x =? 0)); [by eexists|]. destruct (x =? 0); by eexists.
    - rewrite Z.eqb_refl. cbn [negb]. apply not_elem_of_cons in H0 as [Hy H0]. destruct (Z.eqb_spec y 0); [congruence|].
      apply bytes_at_cons in Hb as (_ & _ & Hb). by eapply IH. }
  assert (H0 : 0 ∉ TMAGIC) by (apply (bool_decide_eq_true_1 (0 ∉ TMAGIC)); reflexivity).
  destruct (Hmagic m TMAGIC c _ H0 Hs) as [[|] ->]; cbn [obind]; [done|]. apply bytes_at_app in Hs as [Hs _]. by apply same_bytes_true.
Qed.

Lemma AddRoot_first s index n : Roots s = umap_empty -> exists roots, AddRoot index n false s = Ret (Go 0, set_roots roots s) /\
  repr hash_u64 roots (<[index := n]> ∅).
Proof using Type.
  intros Hr. unfold AddRoot. erewrite bind_go by reflexivity. rewrite Hr. destruct (umap_find_spec hash_u64 umap_empty (∅ : gmap Z Z) index) as (H1 & H2 & H3); [apply repr_empty|].
  assert (Hn : length (buckets (snd (umap_find (V := Z) hash_u64 umap_empty index))) = 16%nat) by reflexivity.
  destruct (umap_find hash_u64 umap_empty index) as [v r]. cbn [fst snd] in *. rewrite lookup_empty in H1. subst v.
  erewrite bind_go by reflexivity. destruct (index_assign_spec hash_u64 r ∅ index n H2) as (roots & E & Hrep).
  - rewrite (repr_size _ _ _ H2), map_size_empty. lia.
  - done.
  - intros _. rewrite (repr_size _ _ _ H2), map_size_empty, Hn. lia.
  - unfold pure. erewrite bind_go; [|rewrite E; reflexivity]. erewrite bind_go by reflexivity. by exists roots.
Qed.

(** The node of the root and the tree below it *)
Record booted s (index n self : Z) (g : gmap Z Z) (f : forest) : Prop := Booted {
  bo_tree : tree_is (disk s) g f;
  bo_nodes : nodes s = {[n := Node 1 (Some self) true (Some root_path) (Some root_path) None None []]};
  bo_next : next_node s = n + 1;
  bo_roots : repr hash_u64 (Roots s) (<[index := n]> ∅)
}.

Lemma boot_run registered next m a f self index : archive Check m a (entries_of f) -> good_forest f -> Z.of_nat (count f) + 1 < 2 ^ 64 ->
  exists s g, TestAndInitializeUSTAR Check U unset_flag self a index (before_boot registered next m) = Ret (Go true, s) /\
    booted s index next self g f.
Proof using Type.
  intros Ha Hg Hroom. unfold TestAndInitializeUSTAR. erewrite bind_go; [|cbn [before_boot disk ustar_new u_mem]; rewrite (TestArchive_true _ _ _ _ _ _ Ha); reflexivity].
  cbn [negb]. unfold RegisterFileSystem.
  destruct (umap_insert hash_u64 registered (elementsCount registered) self) as [b reg] eqn:Ereg.
  erewrite bind_go; [|erewrite bind_go by reflexivity; cbn [Registered before_boot]; rewrite Ereg; reflexivity].
  set (dev := u64 (elementsCount reg - 1)). destruct (ReadArchive_run Check m a f dev Ha Hg Hroom) as (u & g & Eu & Ht & _).
  erewrite bind_go; [|unfold on_disk; cbn [set_registered disk before_boot]; rewrite Eu; reflexivity].
  destruct (root_lookup u g f Ht) as (t & El & Hc). erewrite bind_go; [|unfold on_disk; cbn [disk]; rewrite El; reflexivity].
  erewrite bind_go by reflexivity. erewrite bind_go by reflexivity.
  cbn [next_node nodes Roots Registered disk set_registered].
  erewrite bind_go; [|unfold get_node; cbn [nodes]; rewrite lookup_insert_eq; reflexivity].
  erewrite bind_go by reflexivity. set (s1 := set_nodes _ _). destruct (AddRoot_first s1 index next eq_refl) as (roots & Er & Hrep).
  erewrite bind_go by exact Er. exists (set_roots roots s1), g. split; [done|]. split; try done.
  - by apply tree_is_files.
  - cbn. apply insert_insert_eq.
Qed.

(** Every cached node stands for the entry at its words. *)
Definition backed (f : forest) (r : Z) s : Prop :=
  forall n c ws, nodes s !! n = Some c -> located (nodes s) r n ws ->
    exists t, find 1 (inr f) ws = Some (inode c, t) /\ (ws <> [] -> MountPoint c = false).

Context (Hflag : forall n, unset_flag n = false).

Lemma backed_new f r s n c pre ino t w : wf s -> backed f r s -> nodes s !! n = Some c -> located (nodes s) r n pre -> good_word w ->
  valid (disk s) ino -> find 1 (inr f) (pre ++ [w]) = Some (ino, t) ->
  backed f r (new_child unset_flag n c ino w (extend_path (chars_of (Path c)) w) s).
Proof using Hflag.
  intros Hwf Hb Hn Hl Hw Hv Hf. destruct (new_child_spec unset_flag s n c r pre ino w Hwf Hn Hl Hw Hv) as (Hwf' & Hg & Hnew & _).
  set (s' := new_child unset_flag n c ino w (extend_path (chars_of (Path c)) w) s) in *. intros m d ws Hm Hlm.
  destruct (decide (m = next_node s)) as [->|Hne].
  - destruct (located_unique _ _ _ _ Hnew _ _ Hlm) as [_ ->]. unfold s', new_child in Hm. cbn [nodes] in Hm. rewrite lookup_insert_eq in Hm.
    injection Hm as <-. exists t. split; [done|]. intros _. apply Hflag.
  - assert (exists d0, nodes s !! m = Some d0 /\ inode d = inode d0 /\ MountPoint d = MountPoint d0) as (d0 & Hd0 & -> & ->).
    { unfold s', new_child in Hm. cbn [nodes] in Hm. rewrite lookup_insert_ne in Hm by done. destruct (decide (m = n)) as [->|Hmn].
      - rewrite lookup_insert_eq in Hm. injection Hm as <-. by exists c.
      - rewrite lookup_insert_ne in Hm by done. by exists d. }
    destruct (wf_located _ Hwf _ _ Hd0) as (r0 & ws0 & Hl0). destruct (located_unique _ _ _ _ (located_grows _ _ _ _ _ Hg Hl0) _ _ Hlm) as [-> ->].
    by apply (Hb m).
Qed.

(** A cached child is the entry with its name. *)
Lemma cached_located s r n c pre w k : wf s -> nodes s !! n = Some c -> located (nodes s) r n pre -> cached (nodes s) w (Children c) = Some k ->
  exists ck, nodes s !! k = Some ck /\ located (nodes s) r k (pre ++ [w]).
Proof using Type.
  intros Hwf Hc Hl Hcache. destruct (cached_in _ _ _ _ Hcache) as (Hin & ck & Hck & Hname). exists ck. split; [done|].
  destruct (wf_children _ Hwf _ _ _ Hc Hin) as (ck' & Hck' & Hpk). replace ck' with ck in * by congruence.
  destruct (wf_located _ Hwf _ _ Hck) as (r' & wk & Hlk).
  inversion Hlk as [c1 Hc1 Hp1|n1 c1 p1 ws1 w1 Hc1 Hp1 Hn1 Hw1 Hpa1 Hl1]; subst; [congruence|].
  replace c1 with ck in * by congruence. assert (p1 = n) as -> by congruence.
  destruct (located_unique _ _ _ _ Hl _ _ Hl1) as [-> ->]. by rewrite Hn1.
Qed.

Lemma descend_archive f g u r ws : tree_is u g f -> forall s n c pre t, wf s -> backed f r s -> disk s = u -> nodes s !! n = Some c ->
  located (nodes s) r n pre -> find 1 (inr f) pre = Some (inode c, t) -> Forall good_word ws ->
  exists e s', descend unset_flag n ws s = Ret (Go e, s') /\ wf s' /\ backed f r s' /\ disk s' = u /\
    match find (inode c) t ws with
    | Some (i, _) => exists k c', e = (Some k, 0) /\ nodes s' !! k = Some c' /\ inode c' = i /\ located (nodes s') r k (pre ++ ws)
    | None => e = (None, - K_ENOENT)
    end.
Proof using Hflag.
  intros Ht. induction ws as [|w ws IH]; intros s n c pre t Hwf Hb Hd Hc Hl Hf Hws; cbn [descend find].
  - exists (Some n, 0), s. split_and!; try done. exists n, c. by rewrite app_nil_r.
  - apply Forall_cons_1 in Hws as [Hw Hws]. rewrite Hc. pose proof (find_snoc pre w 1 (inr f) _ _ Hf) as Hsnoc.
    destruct (find_holds u pre 1 (inr f) _ _ ltac:(lia) (tree_holds _ _ _ Ht) Hf) as [Hpos Hat].
    destruct (cached (nodes s) w (Children c)) as [k|] eqn:Hcache.
    + destruct (cached_located s r n c pre w k Hwf Hc Hl Hcache) as (ck & Hck & Hlk). destruct (Hb _ _ _ Hck Hlk) as (t2 & Ht2 & _).
      destruct t as [data|sub]; [congruence|]. rewrite <- Hsnoc, Ht2.
      destruct (IH s k ck (pre ++ [w]) t2 Hwf Hb Hd Hck Hlk Ht2 Hws) as (e & s' & E & H1 & H2 & H3 & H4). exists e, s'. split_and!; try done.
      by rewrite <- app_assoc in H4.
    + destruct (wf_fsi _ Hwf _ _ Hc) as [fs Hfs]. rewrite Hfs. cbn [op_Lookup Ops fs_info archive_below ustar_files ustar_ops].
      rewrite Hd, (ustar_Lookup_run u (inode c) t w Hat Hpos Hw). rewrite <- Hsnoc.
      replace (match t with inl _ => None | inr sub => match entry_at sub (inode c + 1) w with Some (k, t0) => find k t0 ws | None => None end end)
        with (match find 1 (inr f) (pre ++ [w]) with Some (k, t0) => find k t0 ws | None => None end) by (rewrite Hsnoc; by destruct t).
      destruct (find 1 (inr f) (pre ++ [w])) as [[k t2]|] eqn:E2; cbn [obind].
      2: { exists (None, - K_ENOENT), (with_disk u s). split_and!; try done. by apply wf_with_disk; [rewrite Hd|]. }
      change (negb (0 =? 0)) with false. cbv iota.
      destruct (find_holds u _ 1 (inr f) _ _ ltac:(lia) (tree_holds _ _ _ Ht) E2) as [Hkpos Hkat].
      assert (Hds : with_disk u s = s) by (destruct s; cbn in *; by subst). rewrite Hds.
      assert (Hv : valid (disk s) k).
      { rewrite Hd. split; [by eapply tree_ok|]. destruct t2; [destruct Hkat as (? & ? & ? & ? & nd & [])|destruct Hkat as (? & ? & ? & ? & nd & [] & _)]; by exists nd. }
      destruct (new_child_spec unset_flag s n c r pre k w Hwf Hc Hl Hw Hv) as (Hwf1 & Hg1 & Hl1 & _).
      pose proof (backed_new f r s n c pre k t2 w Hwf Hb Hc Hl Hw Hv E2) as Hb1.
      set (s1 := new_child unset_flag n c k w (extend_path (chars_of (Path c)) w) s) in *.
      destruct (IH s1 (next_node s) (Node k (fsi c) (unset_flag (next_node s)) (Some w) (Some (extend_path (chars_of (Path c)) w)) None (Some n) []) (pre ++ [w]) t2)
        as (e & s' & E & H1 & H2 & H3 & H4); try done.
      { apply lookup_insert_eq. }
      exists e, s'. split_and!; try done. by rewrite <- app_assoc in H4.
Qed.

(** ** Reading files by their paths *)

(** Look a path up and read what is there. *)
Definition read_path (n size_ : Z) (p : list Z) : ST (Virtual ustar) (Z * list Z) :=
  e ← Lookup allocate unset_flag U n p;
  match e with
  | (Some k, 0) => Read k size_ 0
  | (_, err) => mret (err, [])
  end.

Fixpoint read_paths (n size_ : Z) (ps : list (list Z)) : ST (Virtual ustar) (list (Z * list Z)) :=
  match ps with
  | [] => mret []
  | p :: ps => r ← read_path n size_ p; l ← read_paths n size_ ps; mret (r :: l)
  end.

(** What the tree has to say *)
Definition answer (f : forest) (size_ : Z) (p : list Z) : Z * list Z :=
  match find 1 (inr f) (target [] p) with
  | Some (_, inl data) => (Z.min size_ (Z.of_nat (length data)), take (Z.to_nat size_) data)
  | Some (_, inr _) => (- K_EISDIR, [])
  | None => (- K_ENOENT, [])
  end.

Record shows (f : forest) (r : Z) s : Prop := Shows {
  sh_wf : wf s;
  sh_backed : backed f r s;
  sh_tree : exists g, tree_is (disk s) g f;
  sh_root : located (nodes s) r r []
}.

Lemma Read_archive f r s k c i t size_ : shows f r s -> nodes s !! k = Some c -> inode c = i -> 0 < i -> holds_at (disk s) i t ->
  (match t with inl _ => MountPoint c = false | inr _ => True end) -> is_Some (fsi c) -> 0 < size_ < 2 ^ 63 ->
  exists s', Read k size_ 0 s =
    Ret (Go (match t with inl data => (Z.min size_ (Z.of_nat (length data)), take (Z.to_nat size_) data) | inr _ => (- K_EISDIR, []) end), s') /\ shows f r s'.
Proof using Type.
  intros [Hwf Hb [g Ht] Hroot] Hk <- Hpos Hi Hmp [fs Hfs] Hsz. unfold Read, guarded. erewrite bind_go by (by apply get_node_some).
  assert (Hmode : exists nd, u_heap (disk s) !! inode c = Some nd /\
    Z.land (i_Mode (u_Node nd)) S_IFMT = type_mode (type_byte (match t with inl _ => false | inr _ => true end))).
  { destruct t; [destruct Hi as (? & ? & ? & ? & nd & [])|destruct Hi as (? & ? & ? & ? & nd & [] & _)]; by exists nd. }
  destruct Hmode as (nd & Hnd & Hmode).
  erewrite bind_go; [|unfold node_mode; cbn [inode_mode archive_below ustar_files]; unfold the_unode; rewrite Hnd; reflexivity].
  unfold is_type. rewrite Hmode. destruct t as [data|sub].
  - rewrite Hmp. change (type_mode (type_byte false) =? S_IFDIR) with false. change (type_mode (type_byte false) =? S_IFLNK) with false. cbn [orb].
    unfold ops_of. rewrite Hfs. erewrite bind_go by reflexivity. cbn [op_Read Ops fs_info archive_below ustar_files ustar_ops].
    destruct (ustar_Read_inside (disk s) g (inode c) data size_ 0 (ti_counted _ _ _ Ht) Hi) as (tb & Hc & E); try lia.
    unfold on_disk. rewrite E. cbn [obind]. eexists. split; [reflexivity|]. pose proof (tree_is_files _ _ _ tb Ht Hc) as Ht'. split; try done.
    + apply (wf_with_disk s (with_files tb (disk s))); [|done]. intros j [_ Hj]. split; [by eapply tree_ok|exact Hj].
    + by exists g.
  - change (type_mode (type_byte true) =? S_IFDIR) with true. cbn [orb]. exists s. split; [done|]. by split; [| |exists g|].
Qed.

Context (allocate_length : forall n, 0 <= n -> length (allocate n) = Z.to_nat n).

Lemma read_path_spec f r s size_ p : shows f r s -> 0 < size_ < 2 ^ 63 -> 0 ∉ p -> ~ special p -> Z.of_nat (length p) < 2 ^ 31 - 4 ->
  exists s', read_path r size_ p s = Ret (Go (answer f size_ p), s') /\ shows f r s'.
Proof using Hflag allocate_length.
  intros Hs Hsz H0 Hsp Hlen. pose proof Hs as [Hwf Hb [g Ht] Hroot]. destruct (located_lookup _ _ _ _ Hroot) as (c & Hc & _).
  pose proof (Lookup_spec allocate unset_flag allocate_length s r r c [] p Hwf Hc Hroot H0 ltac:(cbn; lia) Hsp) as E.
  pose proof (target_good [] p ltac:(constructor) H0) as Hgood. destruct (Hb _ _ _ Hc Hroot) as (t & Hf & _). cbn [find] in Hf. injection Hf as Hi1 <-.
  destruct (descend_archive f g (disk s) r (target [] p) Ht s r c [] (inr f) Hwf Hb eq_refl Hc Hroot ltac:(by rewrite <- Hi1) Hgood)
    as (e & s1 & Ed & Hwf1 & Hb1 & Hd1 & Hcase). rewrite <- Hi1 in Hcase.
  assert (El : Lookup allocate unset_flag U r p s = Ret (Go e, s1)).
  { rewrite E. destruct (target [] p); [|done]. cbn [descend] in Ed. by destruct (has_root p). }
  assert (Hs1 : shows f r s1).
  { destruct (descend_spec unset_flag (target [] p) s r r [] Hwf Hroot Hgood) as (e2 & s2 & Ed2 & _ & Hg & _). rewrite Ed in Ed2. injection Ed2 as <- <-.
    split; try done; [exists g; by rewrite Hd1|]. by eapply located_grows. }
  unfold read_path. erewrite bind_go by exact El. unfold answer. destruct (find 1 (inr f) (target [] p)) as [[i t]|] eqn:Ef.
  - destruct Hcase as (k & c' & -> & Hk & Hi & Hlk). cbn [app] in Hlk. destruct (Hb1 _ _ _ Hk Hlk) as (t' & Ef' & Hmp). rewrite Ef in Ef'. injection Ef' as _ <-.
    destruct (find_holds _ _ 1 (inr f) _ _ ltac:(lia) (tree_holds _ _ _ Ht) Ef) as [Hpos Hat]. rewrite <- Hd1 in Hat.
    destruct (Read_archive f r s1 k c' i t size_ Hs1 Hk Hi Hpos Hat) as (s' & -> & Hs'); try done.
    + destruct t; [|done]. apply Hmp. intros E0. by rewrite E0 in Ef.
    + by eapply wf_fsi.
    + exists s'. by destruct t.
  - subst e. by exists s1.
Qed.

Lemma read_paths_spec f r size_ ps : 0 < size_ < 2 ^ 63 -> Forall (fun p => 0 ∉ p /\ ~ special p /\ Z.of_nat (length p) < 2 ^ 31 - 4) ps -> forall s, shows f r s ->
  exists s', read_paths r size_ ps s = Ret (Go (map (answer f size_) ps), s') /\ shows f r s'.
Proof using Hflag allocate_length.
  intros Hsz. induction 1 as [|p ps (H0 & Hsp & Hl) _ IH]; intros s Hs; cbn [read_paths map]; [by exists s|].
  destruct (read_path_spec f r s size_ p Hs Hsz H0 Hsp Hl) as (s1 & E & Hs1). erewrite bind_go by exact E.
  destruct (IH s1 Hs1) as (s2 & E2 & Hs2). erewrite bind_go by exact E2. by exists s2.
Qed.

Lemma booted_shows s index n self g f : booted s index n self g f -> shows f n s.
Proof using Type.
  intros [Ht Hn Hx _]. set (root := Node 1 (Some self) true (Some root_path) (Some root_path) None None []) in *.
  assert (Hr : located (nodes s) n n []) by (apply (At_root _ _ root); [rewrite Hn; apply lookup_singleton_eq|done..]).
  assert (Hone : forall k c, nodes s !! k = Some c -> k = n /\ c = root).
  { intros k c. rewrite Hn. intros [-> <-]%lookup_singleton_Some. done. }
  split.
  - split.
    + intros k c Hk. destruct (Hone k c Hk) as [-> _]. by exists n, [].
    + intros k c Hk. destruct (Hone k c Hk) as [_ ->]. by exists self.
    + intros k c Hk. destruct (Hone k c Hk) as [-> _]. lia.
    + intros k c j Hk Hj. destruct (Hone k c Hk) as [_ ->]. by apply not_elem_of_nil in Hj.
    + intros k c Hk. destruct (Hone k c Hk) as [_ ->]. split; [by eapply tree_ok|]. destruct Ht as [_ _ [r []] _]. by exists r.
  - intros k c ws Hk Hl. destruct (Hone k c Hk) as [-> ->]. destruct (located_unique _ _ _ _ Hr _ _ Hl) as [_ ->]. by exists (inr f).
  - by exists g.
  - done.
Qed.

(** C3: booting from an archive.  The memory holds an archive that lists a
    directory tree from ["/"] on, each directory before what is in it, with fewer
    than 2^64 entries; and the flag [MountPoint], which the constructor of a node
    does not set, happens to be clear in new nodes ([Hflag]: a set flag makes the
    node a directory, see [create_write_read]).  Then the kernel finds the
    archive, reads it and makes it the root; and however many paths are looked up
    and read one after the other, every one of them gives what the archive has
    there: the bytes of a file, from its beginning, the error of a directory, or
    that there is no such file.  The paths have fewer than 2^31-4 characters, none
    of them NUL, and are not just ["."] or [".."].  Neither the nodes that earlier
    searches cached nor the tables that they changed make a difference. *)
Theorem boot_archive_correct registered next m a f self index size_ ps :
  archive Check m a (entries_of f) -> good_forest f -> Z.of_nat (count f) + 1 < 2 ^ 64 -> 0 < size_ < 2 ^ 63 ->
  Forall (fun p => 0 ∉ p /\ ~ special p /\ Z.of_nat (length p) < 2 ^ 31 - 4) ps ->
  exists s s1 s2, TestAndInitializeUSTAR Check U unset_flag self a index (before_boot registered next m) = Ret (Go true, s) /\
    GetRoot index s = Ret (Go (Some next, 0), s1) /\ read_paths next size_ ps s1 = Ret (Go (map (answer f size_) ps), s2).
Proof using Hflag allocate_length.
  intros Ha Hg Hroom Hsz Hps. destruct (boot_run registered next m a f self index Ha Hg Hroom) as (s & g & E & Hb).
  pose proof (bo_roots _ _ _ _ _ _ Hb) as Hr. destruct (umap_find_spec hash_u64 (Roots s) _ index Hr) as (H1 & H2 & _). rewrite lookup_insert_eq in H1.
  destruct (umap_find hash_u64 (Roots s) index) as [v t] eqn:Ef. cbn [fst snd] in *. subst v. exists s, (set_roots t s).
  assert (Hb' : booted (set_roots t s) index next self g f) by (by destruct Hb; split).
  destruct (read_paths_spec f next size_ ps Hsz Hps _ (booted_shows _ _ _ _ _ _ Hb')) as (s2 & E2 & _). exists s2. split; [done|]. split; [|done].
  unfold GetRoot. erewrite bind_go by reflexivity. rewrite Ef. done.
Qed.
End boot.
