(* ===== verification/KUstarDemo.v ===== *)
(** * An archive, in full

    A small archive as tar writes it, block by block, and what the kernel makes
    of it: the theorems of the archive apply to it. *)

From S2P Require Import Prelude CMem CMonad KPath KPathWords KPathNormal KString KHashMap KVfs KVfsTree KVfsLookup KRamfs KRamfsTheorems KVfsDemo KUstar KUstarTree KUstarArchive KUstarTheorems KUstarBoot.

Definition pad (n : nat) (l : list Z) : list Z := l ++ replicate (n - length l) 0.

(** Eleven octal digits *)
Definition octal11 (n : Z) : list Z := map (fun i => 48 + Z.land (Z.shiftr n (3 * i)) 7) [10; 9; 8; 7; 6; 5; 4; 3; 2; 1; 0].

(** ["0000644"] *)
Definition demo_mode : list Z := [48; 48; 48; 48; 54; 52; 52].

Definition tar_header (name : list Z) (data : list Z) (dir : bool) : list Z :=
  pad 512 (pad 100 name ++ pad 8 demo_mode ++ pad 16 [] ++ pad 12 (octal11 (Z.of_nat (length data))) ++ pad 20 [] ++ [type_byte dir] ++ pad 100 [] ++
           TMAGIC ++ [0] ++ TVERSION).

Definition tar_entry (e : list Z * list Z * bool) : list Z :=
  let '(path, data, dir) := e in
  tar_header (dot :: path) data dir ++ pad (512 * Z.to_nat ((Z.of_nat (length data) + 511) / 512)) data.

Definition tar (l : list (list Z * list Z * bool)) : list Z := concat (map tar_entry l) ++ replicate 512 0.

(** The headers of an archive, checked *)
Definition header_check (m : mem) (a : Z) (path data : list Z) (dir : bool) : bool :=
  cstr_check m (a + h_name) (dot :: path) && (length path <? 99)%nat && bool_decide (head path = Some slash) &&
  cstr_check m (a + h_mode) demo_mode && bytes_at_check m (a + h_signature) (TMAGIC ++ [0]) &&
  cstr_check m (a + h_size) (octal11 (Z.of_nat (length data))) && (octal (octal11 (Z.of_nat (length data))) =? Z.of_nat (length data)) &&
  bool_decide (m !! (a + h_typeflag) = Some (type_byte dir)) && bytes_at_check m (a + sizeof_FileHeader) data &&
  (0 <=? a) && (a + 1024 + Z.of_nat (length data) <? 2 ^ 64).

Definition everywhere (a : Z) : bool := true.

Lemma header_checked m a path data dir : header_check m a path data dir = true -> header_at everywhere m a path data dir.
Proof.
  unfold header_check. rewrite !andb_true_iff. intros ((((((((((H1 & H2) & H3) & H4) & H5) & H6) & H7) & H8) & H9) & H10) & H11).
  apply bool_decide_eq_true_1 in H3, H8. apply Nat.ltb_lt in H2. apply Z.eqb_eq in H7. split.
  - done.
  - exists (dot :: path). split_and!; [by apply cstr_checked|cbn; lia|by right].
  - destruct path as [|c q]; [done|]. injection H3 as ->. by exists q.
  - exists demo_mode. split; [by apply cstr_checked|cbn; lia].
  - exists 0. by apply bytes_at_checked.
  - split; [|done|by apply bytes_at_checked]. exists (octal11 (Z.of_nat (length data))). split_and!; [by apply cstr_checked|cbn; lia|done].
  - lia.
Qed.

Fixpoint archive_check (m : mem) (a : Z) (l : list (list Z * list Z * bool)) : bool :=
  match l with
  | [] => match same_bytes m (a + h_signature) TMAGIC with Ret false => true | _ => false end
  | (path, data, dir) :: l => header_check m a path data dir && archive_check m (next_at a data) l
  end.

Lemma archive_checked m l : forall a, archive_check m a l = true -> archive everywhere m a l.
Proof.
  induction l as [|[[path data] dir] l IH]; intros a; cbn [archive_check archive].
  - intros H. split; [done|]. by destruct (same_bytes m (a + h_signature) TMAGIC) as [[|]| |].
  - intros [H1 H2]%andb_true_iff. split; [by apply header_checked|by apply IH].
Qed.

(** ** The archive *)

Definition demo_forest : forest := File [97] [104; 105] (Dir [100] (File [98] [49; 50; 51] Nil) Nil).
Definition demo_archive : mem := write_bytes ∅ 4096 (tar (entries_of demo_forest)).

Lemma demo_is_archive : archive everywhere demo_archive 4096 (entries_of demo_forest).
Proof. apply archive_checked. vm_compute. reflexivity. Qed.

Lemma demo_word c : c = 97 \/ c = 98 \/ c = 100 -> good_word [c].
Proof.
  intros [->|[->| ->]]; (split; [split; [done|by repeat constructor]|split; [done|]]); by apply (bool_decide_eq_true_1 (0 ∉ _)).
Qed.

Lemma demo_good : good_forest demo_forest.
Proof. cbn. split; [apply demo_word; lia|]. split; [apply demo_word; lia|]. split; [|done]. split; [apply demo_word; lia|done]. Qed.

Definition demo_ustar : ustar :=
  match ReadArchive everywhere U 4096 (with_device 0 (ustar_new demo_archive)) with Ret u => u | _ => ustar_new ∅ end.

Lemma demo_tree : exists g, tree_is demo_ustar g demo_forest.
Proof.
  destruct (ReadArchive_run everywhere demo_archive 4096 demo_forest 0 demo_is_archive demo_good ltac:(cbn; lia)) as (u & g & E & Ht & _).
  exists g. unfold demo_ustar. by rewrite E.
Qed.

Lemma demo_file : holds_at demo_ustar 2 (inl [104; 105]).
Proof.
  destruct demo_tree as [g Ht]. destruct (find_holds demo_ustar [[97]] 1 (inr demo_forest) 2 (inl [104; 105]) ltac:(lia) (tree_holds _ _ _ Ht)) as [_ H]; done.
Qed.

(** ** What the permissions become *)

(** The octal digits ["0000644"] are taken for decimal ones, and of the bits of 644
    the first one that is tested is kept: the file is sticky, and nobody may read
    or write it. *)
Lemma archive_mode_lost : exists nd, u_heap demo_ustar !! 2 = Some nd /\ i_Mode (u_Node nd) = Z.lor S_IFREG 512.
Proof. eexists. split; vm_compute; reflexivity. Qed.

(** The types of a mode share bits: a new symbolic link becomes a regular file and
    a new directory a block device. *)
Lemma mode_type_confused : mode_type S_IFLNK = REGTYPE /\ mode_type S_IFDIR = BLKTYPE.
Proof. split; reflexivity. Qed.

(** ** The theorems at the archive *)

Lemma ReadArchive_correct_witness :
  exists u, ReadArchive everywhere U 4096 (with_device 0 (ustar_new demo_archive)) = Ret u /\ walk 1 [[100]; [98]] u = Ret (Some 4) /\
    walk 1 [[100]; [97]] u = Ret None /\ exists u', ustar_Read 4 2 1 u = Ret (2, [50; 51], u').
Proof.
  destruct (ReadArchive_correct everywhere demo_archive 4096 demo_forest 0 demo_is_archive demo_good ltac:(cbn; lia)) as (u & E & _ & H).
  exists u. split; [exact E|]. destruct (H [[100]; [98]] ltac:(repeat constructor; apply demo_word; lia)) as [H1 H2]. split; [exact H1|].
  split; [exact (proj1 (H [[100]; [97]] ltac:(repeat constructor; apply demo_word; lia)))|].
  exact (H2 4 [49; 50; 51] 2 1 eq_refl ltac:(lia) ltac:(lia) ltac:(cbn; lia)).
Defined.

Lemma ustar_Read_overruns_witness : exists u', ustar_Read 2 100 1 demo_ustar = Ret (2, [105; 0], u').
Proof.
  destruct demo_tree as [g Ht]. destruct (u_heap demo_ustar !! 2) as [nd|] eqn:E; [|exfalso; vm_compute in E; discriminate E].
  apply (ustar_Read_overruns demo_ustar g 2 [104; 105] [0] 100 1 nd (ti_counted _ _ _ Ht) demo_file E); [cbn; lia..| |reflexivity].
  apply bytes_at_checked. vm_compute in E. injection E as <-. vm_compute. reflexivity.
Defined.

Lemma ustar_ReadDir_complete_witness :
  list_all 3 1 24 1 2 demo_ustar = Ret [Dirent 1 2 21 DT_REG [97]; Dirent 2 3 21 DT_DIR [100]].
Proof.
  destruct demo_tree as [g Ht]. apply (ustar_ReadDir_complete demo_ustar 1 demo_forest 24 1 (tree_holds _ _ _ Ht)); [lia|].
  repeat constructor; vm_compute; discriminate.
Defined.

Lemma boot_archive_correct_witness :
  exists s s1 s2, TestAndInitializeUSTAR everywhere U (fun _ => false) 7 4096 0 (before_boot umap_empty 1 demo_archive) = Ret (Go true, s) /\
    GetRoot 0 s = Ret (Go (Some 1, 0), s1) /\
    @read_paths mem_top 0 null_info demo_allocate (fun _ => false) 1 100 [[47; 100; 47; 98]; [97]; [47; 100]; [98]] s1 =
    Ret (Go [(3, [49; 50; 51]); (2, [104; 105]); (- K_EISDIR, []); (- K_ENOENT, [])], s2).
Proof.
  apply (boot_archive_correct everywhere mem_top 0 null_info demo_allocate (fun _ => false) (fun _ => eq_refl) demo_allocate_length umap_empty 1 demo_archive 4096 demo_forest 7 0 100
    [[47; 100; 47; 98]; [97]; [47; 100]; [98]] demo_is_archive demo_good); [cbn; lia..|].
  repeat (constructor; [split; [by apply (bool_decide_eq_true_1 (0 ∉ _))|split; [intros [?|?]; discriminate|cbn; lia]]|]). constructor.
Defined.
