(* ===== verification/KFdt.v ===== *)
(** * File descriptors

    The model of [src/Kernel/fs/descriptor.cpp] and [include/fs/fdt.hpp]: the
    table of the open files of a process, over the virtual file system.

    The process is given by its working directory, its root, the directory of
    its descriptors and the limit of open files.  [unset_size] is what an
    uninitialised [stat.Size] holds.  Paths are not null. *)

From S2P Require Import Prelude CMem CMonad KPath KString KHashMap KVfs.

Definition K_EACCES : Z := 2.
Definition K_EBADF : Z := 8.
Definition K_EMFILE : Z := 33.

Definition O_RDONLY : Z := 1.
Definition O_WRONLY : Z := 2.
Definition O_RDWR : Z := 3.
Definition O_APPEND : Z := 4.
Definition O_CREAT : Z := 8.
Definition O_EXCL : Z := 32.
Definition O_TRUNC : Z := 1024.
Definition O_CLOEXEC : Z := 524288.
Definition S_IRUSR : Z := 256.
Definition S_IWUSR : Z := 128.

Definition SEEK_SET : Z := 0.
Definition SEEK_CUR : Z := 1.
Definition SEEK_END : Z := 2.

(** [Flags & bits] as a condition *)
Definition has (bits flags : Z) : bool := negb (Z.land flags bits =? 0).

(** [struct Fildes]; [Type] and [References] are never changed. *)
Record Fildes : Type := MkFildes { fd_Mode : Z; fd_Flags : Z; fd_node : Z; fd_Offset : Z }.

Definition hash_int (k : Z) : Z := hash_bytes (le_bytes 4 (u32 k)).

(** [snprintf (..., "%d", n)] for a descriptor *)
Fixpoint digits (fuel : nat) (n : Z) (acc : list Z) : list Z :=
  match fuel with
  | O => acc
  | S fuel => if n <? 10 then 48 + n :: acc else digits fuel (n / 10) (48 + n mod 10 :: acc)
  end.
Definition decimal (n : Z) : list Z := digits 10 n [].

(** The characters of a buffer up to its NUL *)
Fixpoint c_string (b : list Z) : outcome (list Z) :=
  match b with
  | [] => Fault
  | c :: b => if c =? 0 then Ret [] else let! l := c_string b in Ret (c :: l)
  end.

Section fdt.
Context {D : Type} {FS : FileSystems D}.
Context (allocate : Z -> list Z) (unset_flag : Z -> bool) (path_style : cwk_path_style).
Context (CWD RootNode fdDir OpenFiles unset_size : Z).

(** The table of a process and the file system that all share *)
Record process : Type := Proc { FileMap : unordered_map Z Fildes; fs : Virtual D }.

Abbreviation P := (ST process).

Definition on_fs {A} (c : ST (Virtual D) A) : P A := fun p =>
  let! (r, v) := c (fs p) in Ret (r, Proc (FileMap p) v).

Definition set_map (m : unordered_map Z Fildes) : P unit := puts (fun p => Proc m (fs p)).

(** [FileMap.find (fd)] *)
Definition find_fd (fd : Z) : P (option Fildes) :=
  m ← gets FileMap;
  let '(v, m) := umap_find hash_int m fd in
  set_map m;;
  mret v.

Definition insert_fd (fd : Z) (f : Fildes) : P unit :=
  m ← gets FileMap;
  set_map (snd (umap_insert hash_int m fd f)).

(** An assignment through the iterator of [find] *)
Definition update_fd (fd : Z) (f : Fildes) : P unit :=
  puts (fun p => let m := FileMap p in
    Proc (UMap (alter (bucket_set fd f) (index_of hash_int (length (buckets m)) fd) (buckets m)) (elementsCount m)) (fs p)).

(** [it == FileMap.end ()]: [-K_EBADF], else go on. *)
Definition with_fd {A} (fd : Z) (bad : A) (k : Fildes -> P A) : P A :=
  v ← find_fd fd;
  match v with None => mret bad | Some f => k f end.

Definition GetFlags (fd : Z) : P Z := with_fd fd (- K_EBADF) (fun f => mret (fd_Flags f)).

Definition SetFlags (fd flags : Z) : P Z :=
  with_fd fd (- K_EBADF) (fun f => update_fd fd (MkFildes (fd_Mode f) flags (fd_node f) (fd_Offset f));; mret 0).

Fixpoint fd_loop (n : nat) (i : Z) : P Z :=
  match n with
  | O => mret (- K_EMFILE)
  | S n =>
    v ← find_fd i;
    match v with None => mret i | Some _ => fd_loop n (i + 1) end
  end.

Definition GetFreeFileDescriptor : P Z := fd_loop (Z.to_nat OpenFiles) 0.

Definition ProbeMode (mode flags : Z) : Z :=
  if negb (has O_CREAT flags) then 0
  else if has O_RDONLY flags && negb (has S_IRUSR mode) then - K_EACCES
  else if has O_WRONLY flags && negb (has S_IWUSR mode) then - K_EACCES
  else if has O_RDWR flags && (negb (has S_IRUSR mode) || negb (has S_IWUSR mode)) then - K_EACCES
  else 0.

Definition AddFileDescriptor (AbsolutePath : list Z) (mode flags : Z) : P Z :=
  if ProbeMode mode flags <? 0 then mret (- K_EACCES)
  else
    created ← (if has O_CREAT flags then
                 ret ← on_fs (Create allocate unset_flag path_style CWD AbsolutePath mode true);
                 mret (if has O_EXCL flags && negb (found ret) then Some (- snd ret) else None)
               else mret None);
    match created with
    | Some error => mret error
    | None =>
      ret ← on_fs (Lookup allocate unset_flag path_style CWD AbsolutePath);
      match ret with
      | (Some node, 0) =>
        (if has O_TRUNC flags then _ ← on_fs (Truncate node 0); mret tt else mret tt);;
        offset ← (if has O_APPEND flags then
                    st ← on_fs (Stat node);
                    on_fs (Seek node (if fst st <? 0 then unset_size else st_Size (snd st)))
                  else mret 0);
        fdn ← GetFreeFileDescriptor;
        if fdn <? 0 then mret fdn
        else
          insert_fd fdn (MkFildes mode flags node offset);;
          link ← on_fs (CreateLink allocate unset_flag path_style fdDir (decimal fdn) AbsolutePath);
          on_fs (assert (found link));;
          _ ← on_fs (Open node flags mode);
          mret fdn
      | (_, error) => mret (- error)
      end
    end.

Definition RemoveFileDescriptor (fd : Z) : P Z :=
  with_fd fd (- K_EBADF) (fun f =>
    _ ← on_fs (Remove_node (fd_node f));
    m ← gets FileMap;
    set_map (snd (umap_erase hash_int m fd));;
    mret 0).

(** [fd_Fork]: the loop goes on from the element that it has erased. *)
Definition fd_Fork (parent : unordered_map Z Fildes) : P unit :=
  m ← gets FileMap;
  let m := umap_assign m parent in
  set_map m;;
  if existsb (fun e => has O_CLOEXEC (fd_Flags (snd e))) (umap_elements m) then fault else mret tt.

Definition usr_open (pathname : list Z) (flags mode : Z) : P Z := AddFileDescriptor pathname mode flags.

Definition usr_creat (pathname : list Z) (mode : Z) : P Z :=
  usr_open pathname (Z.lor (Z.lor O_WRONLY O_CREAT) O_TRUNC) mode.

Definition usr_read (fd count : Z) : P (Z * list Z) :=
  with_fd fd (- K_EBADF, []) (fun f => on_fs (Read (fd_node f) count (fd_Offset f))).

Definition usr_pread (fd count offset : Z) : P (Z * list Z) :=
  with_fd fd (- K_EBADF, []) (fun f => on_fs (Read (fd_node f) count offset)).

Definition usr_write (fd : Z) (buf : list Z) : P Z :=
  with_fd fd (- K_EBADF) (fun f => on_fs (Write (fd_node f) buf (fd_Offset f))).

Definition usr_pwrite (fd : Z) (buf : list Z) (offset : Z) : P Z :=
  with_fd fd (- K_EBADF) (fun f => on_fs (Write (fd_node f) buf offset)).

Definition usr_close (fd : Z) : P Z := with_fd fd (- K_EBADF) (fun _ => RemoveFileDescriptor fd).

Definition usr_lseek (fd offset whence : Z) : P Z :=
  with_fd fd (- K_EBADF) (fun f =>
    let store new := update_fd fd (MkFildes (fd_Mode f) (fd_Flags f) (fd_node f) new);; mret new in
    if whence =? SEEK_SET then new ← on_fs (Seek (fd_node f) offset); store new
    else if whence =? SEEK_CUR then new ← on_fs (Seek (fd_node f) (s64 (fd_Offset f + offset))); store new
    else if whence =? SEEK_END then
      st ← on_fs (Stat (fd_node f));
      new ← on_fs (Seek (fd_node f) (s64 (st_Size (snd st) + offset))); store new
    else mret (- K_EINVAL)).

(** The node of a path from the root of the process *)
Definition lookup_root {A} (pathname : list Z) (bad : Z -> A) (k : Z -> P A) : P A :=
  ret ← on_fs (Lookup allocate unset_flag path_style RootNode pathname);
  match ret with
  | (Some node, 0) => k node
  | (_, error) => mret (bad (- error))
  end.

Definition usr_stat (pathname : list Z) : P (Z * kstat) :=
  lookup_root pathname (fun e => (e, no_stat)) (fun node =>
    c ← on_fs (get_node node);
    m ← on_fs (node_mode c);
    if is_type S_IFLNK m then
      len ← on_fs (ReadLink node 1024);
      if fst len <? 0 then mret (fst len, no_stat)
      else
        target ← on_fs (pure (c_string (snd len)));
        lookup_root target (fun e => (e, no_stat)) (fun node => on_fs (Stat node))
    else on_fs (Stat node)).

Definition usr_fstat (fd : Z) : P (Z * kstat) :=
  with_fd fd (- K_EBADF, no_stat) (fun f => on_fs (Stat (fd_node f))).

Definition usr_lstat (pathname : list Z) : P (Z * kstat) :=
  lookup_root pathname (fun e => (e, no_stat)) (fun node => on_fs (Stat node)).

Definition usr_dup (oldfd : Z) : P Z :=
  with_fd oldfd (- K_EBADF) (fun f =>
    newfd ← GetFreeFileDescriptor;
    if newfd <? 0 then mret (- K_EMFILE)
    else insert_fd newfd (MkFildes (fd_Mode f) 0 (fd_node f) 0);; mret newfd).

(** The constructor: the directory of the descriptors *)
Definition fdt_new (ProcDirectory : Z) : P (option Z) :=
  let mode := Z.lor (Z.lor (Z.lor 4 1) (Z.lor 32 8)) (Z.lor (Z.lor 256 64) S_IFDIR) in
  ret ← on_fs (Create allocate unset_flag path_style ProcDirectory [102; 100] mode true);
  mret (fst ret).

Definition usr_ioctl (fd request argp : Z) : P Z :=
  with_fd fd (- K_EBADF) (fun f => on_fs (Ioctl (fd_node f) request argp)).

Definition usr_dup2 (oldfd newfd : Z) : P Z :=
  if newfd <? 0 then mret (- K_EBADF)
  else
    with_fd oldfd (- K_EBADF) (fun f =>
      if newfd =? oldfd then mret newfd
      else
        _ ← usr_close newfd;
        insert_fd newfd (MkFildes (fd_Mode f) 0 (fd_node f) 0);;
        mret newfd).
End fdt.
Arguments process : clear implicits.
Arguments Proc {D}.
Arguments FileMap {D}.
Arguments fs {D}.

(** ** The table as a finite map *)

Section table.
Context {D : Type} {FS : FileSystems D}.
Implicit Types (p : process D) (g : gmap Z Fildes).

Definition table p g : Prop := repr hash_int (FileMap p) g.

Lemma find_fd_spec p g fd : table p g -> exists m, find_fd fd p = Ret (Go (g !! fd), Proc m (fs p)) /\
  repr hash_int m g /\ (0 < length (buckets m))%nat.
Proof using Type.
  intros Hr. unfold find_fd. erewrite bind_go by reflexivity.
  destruct (umap_find_spec hash_int (FileMap p) g fd Hr) as (Hf & Hr' & Hn).
  destruct (umap_find hash_int (FileMap p) fd) as [v m]. cbn [fst snd] in *. subst v. exists m.
  erewrite bind_go by reflexivity. done.
Qed.

Lemma with_fd_spec {A} p g fd (bad : A) k : table p g -> exists m, repr hash_int m g /\ (0 < length (buckets m))%nat /\
  with_fd fd bad k p = match g !! fd with None => Ret (Go bad, Proc m (fs p)) | Some f => k f (Proc m (fs p)) end.
Proof using Type.
  intros Hr. destruct (find_fd_spec p g fd Hr) as (m & E & Hm & Hn). exists m. split_and!; try done.
  unfold with_fd. erewrite bind_go by exact E. by destruct (g !! fd).
Qed.

(** The first of the numbers from [i] on that is not in use *)
Definition lowest g (limit i fd : Z) : Prop := i <= fd < limit /\ g !! fd = None /\ forall j, i <= j < fd -> is_Some (g !! j).

Lemma fd_loop_spec n : forall i p g, table p g -> exists fd m, fd_loop n i p = Ret (Go fd, Proc m (fs p)) /\ repr hash_int m g /\
  (lowest g (i + Z.of_nat n) i fd \/ (fd = - K_EMFILE /\ forall j, i <= j < i + Z.of_nat n -> is_Some (g !! j))).
Proof using Type.
  induction n as [|n IH]; intros i p g Hr; cbn [fd_loop].
  - exists (- K_EMFILE), (FileMap p). destruct p. split_and!; try done. right. split; [done|]. lia.
  - destruct (find_fd_spec p g i Hr) as (m & E & Hm & _). erewrite bind_go by exact E. destruct (g !! i) as [f|] eqn:Hi.
    + destruct (IH (i + 1) (Proc m (fs p)) g Hm) as (fd & m' & E' & Hm' & Hcase). exists fd, m'. split_and!; try done.
      assert (Hstep : forall j, i <= j -> (i + 1 <= j -> is_Some (g !! j)) -> is_Some (g !! j)).
      { intros j Hj Hn. destruct (decide (j = i)) as [->|Hne]; [by eexists|apply Hn; lia]. }
      destruct Hcase as [(Hr1 & Hf & Hall)|(-> & Hall)]; [left|right]; split_and!; try done; try lia; intros j Hj; apply Hstep; [lia| |lia|];
        intros Hj'; apply Hall; lia.
    + exists i, m. split_and!; try done. left. split_and!; [lia|lia|done|]. lia.
Qed.

Lemma insert_fd_run p g fd f : table p g -> g !! fd = None -> Z.of_nat (size g) + 1 < 2 ^ 64 ->
  exists m, insert_fd fd f p = Ret (Go tt, Proc m (fs p)) /\ repr hash_int m (<[fd := f]> g).
Proof using Type.
  intros Hr Hn Hs. unfold insert_fd. erewrite bind_go by reflexivity. eexists. split; [reflexivity|].
  destruct (umap_insert_spec hash_int (FileMap p) g fd f Hr) as [_ H]; [rewrite (repr_size _ _ _ Hr); lia|].
  by rewrite decide_True in H.
Qed.

(** C39: duplicating a descriptor.  The result is the lowest number below the limit
    that is not in use, or [-K_EMFILE] when all are; the new descriptor is for the
    same node with the same mode, and no other descriptor changes.  The flags
    and the offset of the new one are cleared, they are not those of the old. *)
Theorem usr_dup_correct p g oldfd f limit : table p g -> g !! oldfd = Some f -> 0 <= limit -> Z.of_nat (size g) + 1 < 2 ^ 64 ->
  exists ret m, usr_dup limit oldfd p = Ret (Go ret, Proc m (fs p)) /\
    ((lowest g limit 0 ret /\ repr hash_int m (<[ret := MkFildes (fd_Mode f) 0 (fd_node f) 0]> g)) \/
     (ret = - K_EMFILE /\ repr hash_int m g /\ forall j, 0 <= j < limit -> is_Some (g !! j))).
Proof using Type.
  intros Hr Hold Hlim Hs. unfold usr_dup, GetFreeFileDescriptor. destruct (with_fd_spec p g oldfd (- K_EBADF)
    (fun f => newfd ← fd_loop (Z.to_nat limit) 0; if newfd <? 0 then mret (- K_EMFILE)
              else insert_fd newfd (MkFildes (fd_Mode f) 0 (fd_node f) 0);; mret newfd) Hr) as (m & Hm & _ & ->).
  rewrite Hold. destruct (fd_loop_spec (Z.to_nat limit) 0 (Proc m (fs p)) g Hm) as (fd & m' & E & Hm' & Hcase).
  erewrite bind_go by exact E. rewrite Z2Nat.id in Hcase by done. cbn [Z.add] in Hcase. destruct Hcase as [Hlow|(-> & Hall)].
  - destruct Hlow as (Hr1 & Hf & Hall). rewrite (proj2 (Z.ltb_ge fd 0)) by lia.
    destruct (insert_fd_run (Proc m' (fs p)) g fd (MkFildes (fd_Mode f) 0 (fd_node f) 0) Hm' Hf Hs) as (m2 & E2 & Hm2).
    exists fd, m2. erewrite bind_go by exact E2. split; [done|]. left. done.
  - exists (- K_EMFILE), m'. split; [done|]. right. done.
Qed.

(** Reading and writing through a descriptor use its offset and never move
    it: the table is the same afterwards, so that the next read starts at the
    same place. *)
Theorem usr_read_keeps_offset p g fd f count buf : table p g -> g !! fd = Some f -> exists m, repr hash_int m g /\
  usr_read fd count p = (let! (r, v) := Read (fd_node f) count (fd_Offset f) (fs p) in Ret (r, Proc m v)) /\
  usr_write fd buf p = (let! (r, v) := Write (fd_node f) buf (fd_Offset f) (fs p) in Ret (r, Proc m v)).
Proof using Type.
  intros Hr Hf. destruct (find_fd_spec p g fd Hr) as (m & E & Hm & _). exists m. split; [done|]. unfold usr_read, usr_write, with_fd.
  split; (erewrite bind_go by exact E); rewrite Hf; done.
Qed.
End table.

(** ** Two descriptors *)

#[local] Instance no_files : FileSystems unit :=
  { fs_info _ := FSInfo (InodeOps None None None None None None None None None None None None None None) None None None None;
    inode_mode _ _ := Ret 0; inode_index _ _ := Ret 0 }.

Definition demo_table : process unit :=
  Proc (snd (umap_insert hash_int (snd (umap_insert hash_int umap_empty 0 (MkFildes 6 1 7 0))) 2 (MkFildes 4 2 9 5)))
    (VFS umap_empty umap_empty ∅ 1 tt).

Lemma demo_table_ok : table demo_table (<[2 := MkFildes 4 2 9 5]> {[0 := MkFildes 6 1 7 0]}).
Proof.
  unfold table, demo_table. cbn [FileMap].
  destruct (umap_insert_spec hash_int umap_empty ∅ 0 (MkFildes 6 1 7 0) (repr_empty _)) as [_ H1]; [done|]. rewrite decide_True in H1 by done.
  destruct (umap_insert_spec hash_int _ _ 2 (MkFildes 4 2 9 5) H1) as [_ H2]; [done|]. by rewrite decide_True in H2.
Qed.

Lemma usr_dup_correct_witness : exists ret m, usr_dup 16 2 demo_table = Ret (Go ret, Proc m (fs demo_table)).
Proof.
  destruct (usr_dup_correct demo_table _ 2 (MkFildes 4 2 9 5) 16 demo_table_ok) as (ret & m & E & _); [done|done|done|]. by exists ret, m.
Defined.

Lemma usr_read_keeps_offset_witness : exists m,
  usr_read 2 10 demo_table = (let! (r, v) := Read 9 10 5 (fs demo_table) in Ret (r, Proc m v)).
Proof.
  destruct (usr_read_keeps_offset demo_table _ 2 (MkFildes 4 2 9 5) 10 [] demo_table_ok) as (m & _ & E & _); [done|]. by exists m.
Defined.
