(* ===== verification/DlElf.v ===== *)
(** * ELF data of the dynamic loader

    [src/Userspace/libc/interpreter/elf.h] for amd64: the 64-bit structures
    with their layout in memory, and the numbers that the loader compares
    with. *)

From S2P Require Import Prelude CMem CStruct.

(** ** Structures *)

(** Discharges the laws of a layout whose [of_fields] reads by position. *)
Ltac layout_laws :=
  first [ by intros [] | let vs := fresh in let H := fresh in intros vs H; cbn in H;
    repeat (destruct vs as [|? vs]; try discriminate H; try reflexivity) ].

(** [e_ident]; the padding is one field of seven bytes. *)
Record Ident := MkIdent {
  EI_MAG0 : Z; EI_MAG1 : Z; EI_MAG2 : Z; EI_MAG3 : Z; EI_CLASS : Z; EI_DATA : Z; EI_VERSION : Z;
  EI_OSABI : Z; EI_ABIVERSION : Z; EI_PAD : Z }.

Record Elf64_Ehdr := MkEhdr {
  e_ident : Ident; e_type : Z; e_machine : Z; e_version : Z; e_entry : Z; e_phoff : Z; e_shoff : Z;
  e_flags : Z; e_ehsize : Z; e_phentsize : Z; e_phnum : Z; e_shentsize : Z; e_shnum : Z; e_shstrndx : Z }.

Record Elf64_Phdr := MkPhdr {
  p_type : Z; p_flags : Z; p_offset : Z; p_vaddr : Z; p_paddr : Z; p_filesz : Z; p_memsz : Z; p_align : Z }.

Record Elf64_Rel := MkRel { r_offset : Z; r_info : Z }.

Record Elf64_Sym := MkSym {
  st_name : Z; st_info : Z; st_other : Z; st_shndx : Z; st_value : Z; st_size : Z }.

(** The tag is read as an unsigned number; every tag the loader knows is
    positive. *)
Record Elf64_Dyn := MkDyn { d_tag : Z; d_un : Z }.

#[export, refine] Instance ident_layout : Layout Ident := {|
  widths := [1; 1; 1; 1; 1; 1; 1; 1; 1; 7]%nat;
  to_fields i := let '(MkIdent a b c d e f g h j k) := i in [a; b; c; d; e; f; g; h; j; k];
  of_fields l := let v i := nth i l 0 in
    (MkIdent (v 0) (v 1) (v 2) (v 3) (v 4) (v 5) (v 6) (v 7) (v 8) (v 9))%nat |}.
Proof. all: layout_laws. Defined.

#[export, refine] Instance ehdr_layout : Layout Elf64_Ehdr := {|
  widths := widths (A := Ident) ++ [2; 2; 4; 8; 8; 8; 4; 2; 2; 2; 2; 2; 2]%nat;
  to_fields h := let '(MkEhdr i a b c d e f g j k l n o p) := h in
    to_fields i ++ [a; b; c; d; e; f; g; j; k; l; n; o; p];
  of_fields l := let v i := nth (10 + i) l 0 in
    (MkEhdr (of_fields (take 10 l)) (v 0) (v 1) (v 2) (v 3) (v 4) (v 5) (v 6) (v 7) (v 8) (v 9) (v 10) (v 11) (v 12))%nat |}.
Proof. all: first [ by intros [[]] | layout_laws ]. Defined.

#[export, refine] Instance phdr_layout : Layout Elf64_Phdr := {|
  widths := [4; 4; 8; 8; 8; 8; 8; 8]%nat;
  to_fields h := let '(MkPhdr a b c d e f g i) := h in [a; b; c; d; e; f; g; i];
  of_fields l := let v i := nth i l 0 in (MkPhdr (v 0) (v 1) (v 2) (v 3) (v 4) (v 5) (v 6) (v 7))%nat |}.
Proof. all: layout_laws. Defined.

#[export, refine] Instance rel_layout : Layout Elf64_Rel := {|
  widths := [8; 8]%nat;
  to_fields r := let '(MkRel a b) := r in [a; b];
  of_fields l := let v i := nth i l 0 in (MkRel (v 0) (v 1))%nat |}.
Proof. all: layout_laws. Defined.

#[export, refine] Instance sym_layout : Layout Elf64_Sym := {|
  widths := [4; 1; 1; 2; 8; 8]%nat;
  to_fields s := let '(MkSym a b c d e f) := s in [a; b; c; d; e; f];
  of_fields l := let v i := nth i l 0 in (MkSym (v 0) (v 1) (v 2) (v 3) (v 4) (v 5))%nat |}.
Proof. all: layout_laws. Defined.

#[export, refine] Instance dyn_layout : Layout Elf64_Dyn := {|
  widths := [8; 8]%nat;
  to_fields d := let '(MkDyn a b) := d in [a; b];
  of_fields l := let v i := nth i l 0 in (MkDyn (v 0) (v 1))%nat |}.
Proof. all: layout_laws. Defined.

(** ** Numbers *)

Definition ELFMAG0 : Z := 0x7F.
Definition ELFMAG1 : Z := 0x45.
Definition ELFMAG2 : Z := 0x4C.
Definition ELFMAG3 : Z := 0x46.
Definition ELFCLASS64 : Z := 2.
Definition EV_CURRENT : Z := 1.

Definition ET_NONE : Z := 0.
Definition ET_REL : Z := 1.
Definition ET_EXEC : Z := 2.
Definition ET_DYN : Z := 3.
Definition ET_CORE : Z := 4.

Definition PF_X : Z := 1.
Definition PF_W : Z := 2.
Definition PF_R : Z := 4.
Definition PT_LOAD : Z := 1.
Definition PT_DYNAMIC : Z := 2.

Definition STB_WEAK : Z := 2.
Definition STN_UNDEF : Z := 0.

Definition R_NONE : Z := 0.
Definition R_X86_64_64 : Z := 1.
Definition R_COPY : Z := 5.
Definition R_GLOB_DAT : Z := 6.
Definition R_JMP_SLOT : Z := 7.
Definition R_RELATIVE : Z := 8.
Definition R_DTPMOD64 : Z := 16.
Definition R_DTPOFF64 : Z := 17.
Definition R_TPOFF64 : Z := 18.

Definition DT_NULL : Z := 0.
Definition DT_NEEDED : Z := 1.
Definition DT_PLTRELSZ : Z := 2.
Definition DT_PLTGOT : Z := 3.
Definition DT_HASH : Z := 4.
Definition DT_STRTAB : Z := 5.
Definition DT_SYMTAB : Z := 6.
Definition DT_RELA : Z := 7.
Definition DT_RELASZ : Z := 8.
Definition DT_RELAENT : Z := 9.
Definition DT_STRSZ : Z := 10.
Definition DT_SYMENT : Z := 11.
Definition DT_INIT : Z := 12.
Definition DT_FINI : Z := 13.
Definition DT_RPATH : Z := 15.
Definition DT_SYMBOLIC : Z := 16.
Definition DT_REL : Z := 17.
Definition DT_RELSZ : Z := 18.
Definition DT_RELENT : Z := 19.
Definition DT_PLTREL : Z := 20.
Definition DT_TEXTREL : Z := 22.
Definition DT_JMPREL : Z := 23.
Definition DT_BIND_NOW : Z := 24.
Definition DT_INIT_ARRAY : Z := 25.
Definition DT_FINI_ARRAY : Z := 26.
Definition DT_INIT_ARRAYSZ : Z := 27.
Definition DT_FINI_ARRAYSZ : Z := 28.
Definition DT_RUNPATH : Z := 29.
Definition DT_FLAGS : Z := 30.
Definition DT_PREINIT_ARRAY : Z := 32.
Definition DT_PREINIT_ARRAYSZ : Z := 33.

Definition ELF_ST_BIND (info : Z) : Z := Z.shiftr info 4.
Definition ELF_R_SYM (i : Z) : Z := Z.shiftr i 32.
Definition ELF_R_TYPE (i : Z) : Z := Z.land i 0xffffffff.
