(* ===== verification/DlHelper.v ===== *)
(** * Strings and symbols of the dynamic loader

    [src/Userspace/libc/interpreter/helper.c].  The loader has its own copies
    of the string functions, which here shadow those of [LibcString]; where
    the loop is the same as there, the loop of [LibcString] is used.  [char]
    is signed.  [strdup], which calls the loader's allocator, is in
    [DlAlloc]. *)

From S2P Require Import Prelude CMem CStruct LibcString DlElf.

(** ** Strings *)

Definition memset (m : mem) (s c n : Z) : outcome (Z * mem) :=
  let! m := memset_loop (Z.to_nat n) m s c in Ret (s, m).

Definition memcpy (m : mem) (dest src n : Z) : outcome (Z * mem) :=
  let! m := copy_up (Z.to_nat n) m dest src in Ret (dest, m).

Definition strlen (m : mem) (s : Z) : outcome Z :=
  let! p := find_end (loop_fuel m) m s in Ret (p - s).

Definition strcpy (m : mem) (dest src : Z) : outcome (Z * mem) :=
  let! r := stpcpy_loop (loop_fuel m) m dest src in Ret (dest, snd r).

(** [while ( *l && *l == *r) { l++; r++; } return *l - *r;] *)
Fixpoint strcmp_loop (fuel : nat) (m : mem) (l r : Z) : outcome Z :=
  match fuel with
  | O => OutOfFuel
  | S fuel =>
      let! a := load8 m l in
      if negb (a =? 0) then
        let! b := load8 m r in
        if a =? b then strcmp_loop fuel m (l + 1) (r + 1) else Ret (s8 a - s8 b)
      else let! b := load8 m r in Ret (s8 a - s8 b)
  end.

Definition strcmp (m : mem) (l r : Z) : outcome Z := strcmp_loop (loop_fuel m) m l r.

Fixpoint strncmp_loop (n : nat) (m : mem) (s1 s2 i : Z) : outcome Z :=
  match n with
  | O => Ret 0
  | S n =>
      let! c1 := load8 m (s1 + i) in
      let! c2 := load8 m (s2 + i) in
      if negb (c1 =? c2) then Ret (s8 c1 - s8 c2)
      else if c1 =? 0 then Ret 0
      else strncmp_loop n m s1 s2 (i + 1)
  end.

Definition strncmp (m : mem) (s1 s2 n : Z) : outcome Z := strncmp_loop (Z.to_nat n) m s1 s2 0.

Definition strcat (m : mem) (dest src : Z) : outcome (Z * mem) :=
  let! d := find_end (loop_fuel m) m dest in
  let! r := stpcpy_loop (loop_fuel m) m d src in Ret (dest, snd r).

Fixpoint strrchr_loop (fuel : nat) (m : mem) (str c last_occurrence : Z) : outcome Z :=
  match fuel with
  | O => OutOfFuel
  | S fuel =>
      let! b := load8 m str in
      if negb (b =? 0) then
        strrchr_loop fuel m (str + 1) c (if b =? u8 c then str else last_occurrence)
      else Ret (if c =? 0 then str else last_occurrence)
  end.

Definition strrchr (m : mem) (str c : Z) : outcome Z := strrchr_loop (loop_fuel m) m str c 0.

(** [while ( *source && num--) *destination++ = *source++;] *)
Fixpoint strncpy_loop (num : nat) (m : mem) (destination source : Z) : outcome (Z * mem) :=
  let! c := load8 m source in
  if negb (c =? 0) then
    match num with
    | O => Ret (destination, m)
    | S num =>
        let! m := store8 m destination c in
        strncpy_loop num m (destination + 1) (source + 1)
    end
  else Ret (destination, m).

Definition strncpy (m : mem) (destination source num : Z) : outcome (Z * mem) :=
  if destination =? 0 then Ret (0, m)
  else
    let! r := strncpy_loop (Z.to_nat num) m destination source in
    let! m := store8 (snd r) (fst r) 0 in
    Ret (destination, m).

Fixpoint isdelim_loop (fuel : nat) (m : mem) (c delim : Z) : outcome Z :=
  match fuel with
  | O => OutOfFuel
  | S fuel =>
      let! d := load8 m delim in
      if negb (d =? 0) then if c =? d then Ret 1 else isdelim_loop fuel m c (delim + 1)
      else Ret 0
  end.

Definition isdelim (m : mem) (c delim : Z) : outcome Z := isdelim_loop (loop_fuel m) m c delim.

(** The first loop of [strtok]: skip the delimiters; [None] is the end. *)
Fixpoint strtok_skip (fuel : nat) (m : mem) (src delim : Z) : outcome (option Z) :=
  match fuel with
  | O => OutOfFuel
  | S fuel =>
      let! c := load8 m src in
      let! d := isdelim m c delim in
      if negb (d =? 0) then strtok_skip fuel m (src + 1) delim
      else if c =? 0 then Ret None else Ret (Some src)
  end.

(** The second loop: cut the token; the result is the new [src1]. *)
Fixpoint strtok_cut (fuel : nat) (m : mem) (src delim : Z) : outcome (Z * mem) :=
  match fuel with
  | O => OutOfFuel
  | S fuel =>
      let! c := load8 m src in
      if c =? 0 then Ret (src, m)
      else
        let! d := isdelim m c delim in
        if negb (d =? 0) then let! m := store8 m src 0 in Ret (src + 1, m)
        else strtok_cut fuel m (src + 1) delim
  end.

(** The static [src1] is an argument and a result. *)
Definition strtok (m : mem) (src delim src1 : Z) : outcome (Z * Z * mem) :=
  let src := if src =? 0 then src1 else src in
  if src =? 0 then Ret (0, src1, m)
  else
    let! r := strtok_skip (loop_fuel m) m src delim in
    match r with
    | None => Ret (0, src1, m)
    | Some ret => let! r := strtok_cut (loop_fuel m) m ret delim in Ret (ret, fst r, snd r)
    end.

Fixpoint getenv_loop (fuel : nat) (m : mem) (env name len : Z) : outcome Z :=
  match fuel with
  | O => OutOfFuel
  | S fuel =>
      let! thisEnv := load_le m env 8 in
      if thisEnv =? 0 then Ret 0
      else
        let! cmp := strncmp m thisEnv name len in
        let! hit := if cmp =? 0 then let! c := load8 m (thisEnv + len) in Ret (c =? 61) else Ret false in
        if hit then Ret (thisEnv + len + 1) else getenv_loop fuel m (env + 8) name len
  end.

Definition getenv (m : mem) (environ name : Z) : outcome Z :=
  if name =? 0 then Ret 0
  else let! len := strlen m name in getenv_loop (loop_fuel m) m environ name len.

(** ** Symbols *)

(** One turn of the loop of [elf_hash]; [unsigned long] has 64 bits. *)
Definition elf_hash_step (hash c : Z) : Z :=
  let hash := u64 (u64 (Z.shiftl hash 4) + c) in
  let high := Z.land hash 0xF0000000 in
  let hash := if negb (high =? 0) then Z.lxor hash (Z.shiftr high 24) else hash in
  Z.land hash (2 ^ 64 - 1 - high).

Fixpoint elf_hash_loop (fuel : nat) (m : mem) (name hash : Z) : outcome Z :=
  match fuel with
  | O => OutOfFuel
  | S fuel =>
      let! c := load8 m name in
      if negb (c =? 0) then elf_hash_loop fuel m (name + 1) (elf_hash_step hash c) else Ret hash
  end.

Definition elf_hash (m : mem) (name : Z) : outcome Z := elf_hash_loop (loop_fuel m) m name 0.

Definition gnu_hash_step (hash c : Z) : Z := u32 (u32 (u32 (Z.shiftl hash 5) + hash) + c).

Fixpoint gnu_hash_loop (fuel : nat) (m : mem) (name hash : Z) : outcome Z :=
  match fuel with
  | O => OutOfFuel
  | S fuel =>
      let! c := load8 m name in
      if negb (c =? 0) then gnu_hash_loop fuel m (name + 1) (gnu_hash_step hash c) else Ret hash
  end.

Definition gnu_hash (m : mem) (name : Z) : outcome Z := gnu_hash_loop (loop_fuel m) m name 5381.

(** [hash_table[i]] and [&symtab[i]]. *)
Definition hash_word (m : mem) (hash_table i : Z) : outcome Z := load_le m (hash_table + 4 * i) 4.
Definition sym_at (symtab i : Z) : Z := symtab + 24 * i.

Fixpoint find_symbol_loop (fuel : nat) (m : mem) (name hash_table symtab strtab i : Z) : outcome Z :=
  match fuel with
  | O => OutOfFuel
  | S fuel =>
      if i =? STN_UNDEF then Ret 0
      else
        let! sym := rd m (sym_at symtab i) in
        let! c := strcmp m (strtab + st_name sym) name in
        if c =? 0 then Ret (sym_at symtab i)
        else
          let! nbucket := hash_word m hash_table 0 in
          let! i := hash_word m hash_table (u32 (2 + nbucket) + i) in
          find_symbol_loop fuel m name hash_table symtab strtab i
  end.

Definition find_symbol (m : mem) (name hash_table symtab strtab : Z) : outcome Z :=
  let! h := elf_hash m name in
  let! nbucket := hash_word m hash_table 0 in
  if nbucket =? 0 then Fault
  else
    let! i := hash_word m hash_table (2 + h mod nbucket) in
    find_symbol_loop (loop_fuel m) m name hash_table symtab strtab i.

(** ** Strings: laws *)

Section string_laws.
Implicit Types (m : mem) (l : list Z).

Lemma s8_inj a b : byte a -> byte b -> s8 a - s8 b = 0 -> a = b.
Proof. unfold byte, sw. intros. dlia. Qed.

(** Two strings compare equal when they have the same characters. *)
Lemma strcmp_loop_eq fuel m s1 s2 l1 l2 : cstr m s1 l1 -> cstr m s2 l2 -> (length l1 < fuel)%nat ->
  exists d, strcmp_loop fuel m s1 s2 = Ret d /\ (d = 0 <-> l1 = l2).
Proof.
  revert fuel s1 s2 l2. induction l1 as [|a l1 IH]; intros [|fuel] s1 s2 l2 H1 H2 Hf; cbn [length] in Hf; try lia;
    cbn [strcmp_loop]; rewrite (cstr_load _ _ _ H1), (cstr_load _ _ _ H2); cbn [obind hd].
  - eexists. split; [done|]. destruct l2 as [|b l2]; cbn [hd]; [done|].
    apply cstr_cons in H2 as (Hb & Hn & _). split; [|done]. intros H.
    apply s8_inj in H; [done|by unfold byte; lia|done].
  - pose proof H1 as (Ha & Hn & _ & H1')%cstr_cons. destruct (Z.eqb_spec a 0) as [|_]; [done|]. cbn [negb].
    destruct l2 as [|b l2]; cbn [hd].
    + destruct (Z.eqb_spec a 0); [done|]. eexists. split; [done|]. split; [|done].
      intros H. apply s8_inj in H; [done|done|by unfold byte; lia].
    + pose proof H2 as (Hb & _ & _ & H2')%cstr_cons. destruct (Z.eqb_spec a b) as [->|Hab].
      * destruct (IH fuel _ _ _ H1' H2') as (d & -> & Hd); [lia|]. exists d. split; [done|].
        rewrite Hd. split; [by intros ->|by intros [= ->]].
      * eexists. split; [done|]. split; [|by intros [= -> _]]. intros H. by apply s8_inj in H.
Qed.

Lemma strcmp_eq m s1 s2 l1 l2 : cstr m s1 l1 -> cstr m s2 l2 ->
  exists d, strcmp m s1 s2 = Ret d /\ (d = 0 <-> l1 = l2).
Proof. intros H1 H2. apply (strcmp_loop_eq _ _ _ _ _ _ H1 H2). by apply cstr_fuel in H1. Qed.

Lemma strlen_cstr m s l : cstr m s l -> strlen m s = Ret (Z.of_nat (length l)).
Proof. apply strlen_spec. Qed.

Lemma elf_hash_loop_spec fuel m name l h : cstr m name l -> (length l < fuel)%nat ->
  elf_hash_loop fuel m name h = Ret (fold_left elf_hash_step l h).
Proof.
  revert fuel name h. induction l as [|c l IH]; intros [|fuel] name h Hc Hf; cbn [length] in Hf; try lia;
    cbn [elf_hash_loop fold_left]; rewrite (cstr_load _ _ _ Hc); cbn [obind hd]; [done|].
  apply cstr_cons in Hc as (_ & Hn & _ & Hc). destruct (Z.eqb_spec c 0); [done|]. cbn [negb]. apply IH; [done|lia].
Qed.
End string_laws.

(** ** The hash function

    [sysv_hash] is the hash function of the System V ABI, which the linker
    uses to build the table: the same shifts on 32-bit words. *)

Definition sysv_step (h c : Z) : Z :=
  let h := u32 (16 * h + c) in
  let g := Z.land h 0xF0000000 in
  Z.land (Z.lxor h (Z.shiftr g 24)) (2 ^ 32 - 1 - g).
Definition sysv_hash (l : list Z) : Z := fold_left sysv_step l 0.

(** No turn on a prefix of the name carries out of 32 bits. *)
Definition no_carry (l : list Z) : Prop :=
  forall p c q, l = p ++ c :: q -> 16 * sysv_hash p + c < 2 ^ 32.

Definition elf_hash_of (l : list Z) : Z := fold_left elf_hash_step l 0.

Lemma land_bound x y n : 0 <= n -> 0 <= y < 2 ^ n -> 0 <= Z.land x y < 2 ^ n.
Proof.
  intros Hn Hy. apply testbit_bound; [done|]. intros i Hi.
  rewrite Z.land_spec, (testbit_high y n) by done. apply andb_false_r.
Qed.

Lemma sysv_step_range h c : 0 <= sysv_step h c < 2 ^ 32.
Proof.
  unfold sysv_step. cbv zeta. pose proof (land_bound (u32 (16 * h + c)) 0xF0000000 32 ltac:(lia) ltac:(lia)).
  apply land_bound; lia.
Qed.

Lemma sysv_hash_range l : 0 <= sysv_hash l < 2 ^ 32.
Proof.
  induction l as [|c l _] using rev_ind; [done|]. unfold sysv_hash. rewrite fold_left_app. apply sysv_step_range.
Qed.

Lemma elf_hash_step_sysv h c : 0 <= h < 2 ^ 32 -> 0 <= c -> 16 * h + c < 2 ^ 32 -> elf_hash_step h c = sysv_step h c.
Proof.
  intros Hh Hc Hs. unfold elf_hash_step, sysv_step. cbv zeta.
  rewrite Z.shiftl_mul_pow2 by lia. change (2 ^ 4) with 16.
  rewrite (Z.mul_comm h 16), (uw_small 64 (16 * h)), (uw_small 64), (uw_small 32) by lia.
  pose proof (land_bound (16 * h + c) 0xF0000000 32 ltac:(lia) ltac:(lia)) as Hg. set (x := 16 * h + c) in *.
  set (g := Z.land x 0xF0000000) in *.
  assert (Hx : (if negb (g =? 0) then Z.lxor x (Z.shiftr g 24) else x) = Z.lxor x (Z.shiftr g 24)).
  { destruct (Z.eqb_spec g 0) as [->|]; cbn [negb]; [|done]. by rewrite Z.shiftr_0_l, Z.lxor_0_r. }
  rewrite Hx. set (y := Z.lxor x (Z.shiftr g 24)).
  assert (Hy : 0 <= y < 2 ^ 32).
  { apply testbit_bound; [lia|]. intros i Hi. subst y. rewrite Z.lxor_spec, Z.shiftr_spec by lia.
    by rewrite !(testbit_high _ 32) by (lia || subst x; lia). }
  pose proof (land_split y 0 (2 ^ 32 - 1 - g) (2 ^ 32 - 1) 32 ltac:(lia) Hy ltac:(lia)) as Hl.
  rewrite Z.mul_0_l, Z.add_0_r in Hl. replace (2 ^ 64 - 1 - g) with (2 ^ 32 - 1 - g + (2 ^ 32 - 1) * 2 ^ 32) by lia.
  rewrite Hl, Z.land_0_l. lia.
Qed.

Lemma elf_hash_of_sysv l : Forall byte l -> no_carry l -> elf_hash_of l = sysv_hash l.
Proof.
  induction l as [|c l IH] using rev_ind; intros Hb Hn; [done|].
  apply Forall_app in Hb as [Hb [Hc _]%Forall_cons_iff]. unfold elf_hash_of, sysv_hash in *. rewrite !fold_left_app. cbn [fold_left].
  rewrite IH; [|done|]. { apply elf_hash_step_sysv; [apply (sysv_hash_range l)|apply Hc|by apply (Hn l c [])]. }
  intros p d q ->. apply (Hn p d (q ++ [c])). by rewrite <- app_assoc.
Qed.

(** ** The symbol table

    [linked] follows the chain array from a symbol on; [sysv_table] says that
    the memory holds a hash table built with [hash_of] for the symbols
    [names]: symbol [i] has the name [names !! i], and is in the chain of its
    bucket.  Symbol 0 is the reserved one. *)

Section tables.
Context (m : mem) (hash symtab strtab nbucket : Z).

Inductive linked : Z -> list Z -> Prop :=
| linked_end : linked STN_UNDEF []
| linked_next i j c : i <> STN_UNDEF -> hash_word m hash (2 + nbucket + i) = Ret j -> linked j c ->
    linked i (i :: c).

Record sysv_table (hash_of : list Z -> Z) (names : list (list Z)) : Prop := {
  tb_nbucket : hash_word m hash 0 = Ret nbucket;
  tb_positive : 0 < nbucket < 2 ^ 32 - 2;
  tb_names (i : nat) name : (0 < i)%nat -> names !! i = Some name ->
    exists sym : Elf64_Sym, rd m (sym_at symtab (Z.of_nat i)) = Ret sym /\ cstr m (strtab + st_name sym) name;
  tb_chains b : 0 <= b < nbucket -> exists i c, hash_word m hash (2 + b) = Ret i /\ linked i c /\
    Forall (fun i => 0 < i < Z.of_nat (length names)) c /\
    forall (i : nat) name, (0 < i)%nat -> names !! i = Some name -> hash_of name mod nbucket = b -> Z.of_nat i ∈ c
}.

Lemma linked_functional i c c' : linked i c -> linked i c' -> c = c'.
Proof.
  intros H. revert c'. induction H as [|i j c Hi Hj H IH]; intros c' H'; inversion H' as [|? j' c1 ? Hj']; subst; try done.
  rewrite Hj in Hj'. injection Hj' as <-. f_equal. by apply IH.
Qed.

Lemma linked_suffix i c k : linked i c -> k ∈ c -> exists c', linked k c' /\ (length c' <= length c)%nat.
Proof.
  induction 1 as [|i j c Hi Hj H IH]; intros Hk; [by apply elem_of_nil in Hk|].
  apply elem_of_cons in Hk as [->|Hk]; [exists (i :: c); split; [by econstructor|done]|].
  destruct (IH Hk) as (c' & Hc & Hl). exists c'. split; [done|cbn; lia].
Qed.

Lemma linked_NoDup i c : linked i c -> NoDup c.
Proof.
  induction 1 as [|i j c Hi Hj H IH]; [constructor|]. apply list.NoDup_cons. split; [|done]. intros Hin.
  destruct (linked_suffix _ _ _ H Hin) as (c' & Hc & Hl).
  assert (Hc' : linked i (i :: c)) by (by econstructor).
  rewrite (linked_functional _ _ _ Hc Hc') in Hl. cbn in Hl. lia.
Qed.

Lemma linked_words i c : linked i c -> Forall (fun k => is_Some (m !! (hash + 4 * (2 + nbucket + k)))) c.
Proof.
  induction 1 as [|i j c Hi Hj H IH]; constructor; [|done].
  unfold hash_word, load_le in Hj. cbn in Hj. unfold load8 in Hj at 1.
  by destruct (m !! _); [eexists|].
Qed.

(** A chain visits different words of the memory. *)
Lemma linked_length i c : linked i c -> (length c < loop_fuel m)%nat.
Proof.
  intros H. pose proof (addresses_size m ((fun k => hash + 4 * (2 + nbucket + k)) <$> c)) as Hs.
  rewrite length_fmap in Hs. unfold loop_fuel. apply Nat.lt_succ_r, Hs.
  - apply NoDup_fmap_2; [|by apply linked_NoDup in H]. intros x y. lia.
  - apply Forall_fmap. by apply linked_words in H.
Qed.

Lemma find_symbol_loop_spec hash_of names name l fuel i c :
  sysv_table hash_of names -> cstr m name l -> linked i c ->
  Forall (fun i => 0 < i < Z.of_nat (length names)) c -> (length c < fuel)%nat ->
  exists r, find_symbol_loop fuel m name hash symtab strtab i = Ret r /\
    (r = 0 /\ (forall k : nat, Z.of_nat k ∈ c -> names !! k <> Some l) \/
     exists k : nat, (0 < k)%nat /\ names !! k = Some l /\ r = sym_at symtab (Z.of_nat k)).
Proof.
  intros T Hn H. revert fuel. induction H as [|i j c Hi Hj H IH]; intros [|fuel] Hr Hf; cbn [length] in Hf; try lia;
    cbn [find_symbol_loop].
  { exists 0. split; [done|]. left. split; [done|]. intros k Hk. by apply elem_of_nil in Hk. }
  apply Forall_cons_iff in Hr as [Hb Hr]. destruct (Z.eqb_spec i STN_UNDEF) as [|_]; [done|].
  destruct (lookup_lt_is_Some_2 names (Z.to_nat i)) as [nm Hnm]; [lia|].
  destruct (tb_names _ _ T (Z.to_nat i) nm) as (sym & Hsym & Hs); [lia|done|]. rewrite Z2Nat.id in Hsym by lia.
  rewrite Hsym. cbn [obind]. destruct (strcmp_eq _ _ _ _ _ Hs Hn) as (d & -> & Hd). cbn [obind].
  destruct (Z.eqb_spec d 0) as [->|Hne].
  { exists (sym_at symtab i). split; [done|]. right. exists (Z.to_nat i). rewrite Z2Nat.id by lia.
    split_and!; [lia| |done]. rewrite Hnm. f_equal. by apply Hd. }
  rewrite (tb_nbucket _ _ T). cbn [obind]. rewrite (uw_small 32) by (pose proof (tb_positive _ _ T); lia).
  rewrite Hj. cbn [obind]. destruct (IH fuel) as (r & -> & Hr'); [done|lia|]. exists r. split; [done|].
  destruct Hr' as [[-> Hr']|Hr']; [left|by right]. split; [done|]. intros k [Hk|Hk]%elem_of_cons; [|by apply Hr'].
  subst i. rewrite Nat2Z.id in Hnm. rewrite Hnm. intros [= ->]. by apply Hne, Hd.
Qed.
End tables.

Lemma find_symbol_spec m name hash symtab strtab nbucket names l :
  sysv_table m hash symtab strtab nbucket sysv_hash names -> cstr m name l -> no_carry l ->
  exists r, find_symbol m name hash symtab strtab = Ret r /\
    (r = 0 /\ (forall i : nat, (0 < i)%nat -> names !! i <> Some l) \/
     exists i : nat, (0 < i)%nat /\ names !! i = Some l /\ r = sym_at symtab (Z.of_nat i)).
Proof.
  intros T Hn Hc. unfold find_symbol, elf_hash.
  rewrite (elf_hash_loop_spec _ _ _ _ _ Hn (cstr_fuel _ _ _ Hn)). cbn [obind].
  change (fold_left elf_hash_step l 0) with (elf_hash_of l).
  rewrite (elf_hash_of_sysv l (cstr_byte _ _ _ Hn) Hc), (tb_nbucket _ _ _ _ _ _ _ T). cbn [obind].
  pose proof (tb_positive _ _ _ _ _ _ _ T) as Hp. destruct (Z.eqb_spec nbucket 0); [lia|].
  destruct (tb_chains _ _ _ _ _ _ _ T (sysv_hash l mod nbucket)) as (i & c & -> & Hl & Hr & Hin);
    [apply Z.mod_pos_bound; lia|]. cbn [obind].
  destruct (find_symbol_loop_spec _ _ _ _ _ _ _ name l (loop_fuel m) i c T Hn Hl Hr (linked_length _ _ _ _ _ Hl))
    as (r & -> & [[-> H]|H]); eexists; (split; [done|]); [left|by right].
  split; [done|]. intros k Hk Hl'. by apply (H k (Hin k l Hk Hl' eq_refl)).
Qed.

(** ** Theorems *)

Definition sym_bytes (name shndx value : Z) : list Z :=
  enc_fields (widths (A := Elf64_Sym)) (to_fields (MkSym name 16 0 shndx value 8)).

(** A library with the symbols "ab" and "c": the hash table at 100, the symbol
    table at 200, the strings at 300. *)
Definition demo_lib : mem :=
  write_bytes (write_bytes (write_bytes ∅ 100 (concat (le_bytes 4 <$> [2; 3; 1; 2; 0; 0; 0])))
    200 (sym_bytes 0 0 0 ++ sym_bytes 1 7 64 ++ sym_bytes 4 7 96)) 300 [0; 97; 98; 0; 99; 0].

Definition demo_names : list (list Z) := [[]; [97; 98]; [99]].

(** Checks that a memory holds the table of [demo_names] at those addresses. *)
Ltac demo_table :=
  split; [vm_compute; reflexivity|lia| |];
  [ intros [|[|[|i]]] name Hi Hn; [lia| | |done]; injection Hn as <-;
    [exists (MkSym 1 16 0 7 64 8)|exists (MkSym 4 16 0 7 96 8)];
    (split; [vm_compute; reflexivity|apply cstr_checked; vm_compute; reflexivity])
  | intros b Hb; assert (b = 0 \/ b = 1) as [-> | ->] by lia; [exists 1, [1]|exists 2, [2]];
    (split; [vm_compute; reflexivity|]);
    (split; [eapply linked_next with (j := 0); [done|vm_compute; reflexivity|constructor]|]);
    (split; [repeat constructor; cbn; lia|]);
    intros [|[|[|i]]] name Hi Hn Hh; try lia; try done; try (by left); injection Hn as <-; by vm_compute in Hh ].

Lemma demo_lib_table : sysv_table demo_lib 100 200 300 2 sysv_hash demo_names.
Proof. demo_table. Qed.

(** C23: [find_symbol] on a hash table built with the hash of the System V
    ABI returns the address of a symbol table entry that has the name it is
    asked for, and the null pointer exactly when no entry has it.  The name
    alone decides: an entry that is itself undefined ([st_shndx] 0) is
    returned like any other.  The name is one whose hash does not carry out
    of 32 bits. *)
Theorem find_symbol_correct m name hash symtab strtab nbucket names l :
  sysv_table m hash symtab strtab nbucket sysv_hash names -> cstr m name l -> no_carry l ->
  exists r, find_symbol m name hash symtab strtab = Ret r /\
    (r = 0 /\ (forall i : nat, (0 < i)%nat -> names !! i <> Some l) \/
     exists i : nat, (0 < i)%nat /\ names !! i = Some l /\ r = sym_at symtab (Z.of_nat i)).
Proof. apply find_symbol_spec. Qed.

Lemma find_symbol_witness : exists r, find_symbol demo_lib 304 100 200 300 = Ret r /\
  (r = 0 /\ (forall i : nat, (0 < i)%nat -> demo_names !! i <> Some [99]) \/
   exists i : nat, (0 < i)%nat /\ demo_names !! i = Some [99] /\ r = sym_at 200 (Z.of_nat i)).
Proof.
  apply (find_symbol_correct _ _ _ _ _ 2); [exact demo_lib_table|apply cstr_checked; by vm_compute|].
  intros [|a p] c q H; [injection H as <- <-; by vm_compute|].
  injection H as <- H. by destruct p.
Defined.

(** The name "hxxxxsjd". *)
Definition carry_name : list Z := [104; 120; 120; 120; 120; 115; 106; 100].

Definition carry_lib : mem :=
  write_bytes (write_bytes (write_bytes ∅ 100 (concat (le_bytes 4 <$> [3; 2; 0; 1; 0; 0; 0])))
    200 (sym_bytes 0 0 0 ++ sym_bytes 1 7 64)) 300 (0 :: carry_name ++ [0]).

(** a name whose hash carries out of 32 bits is looked up in the wrong
    bucket: the 64-bit [unsigned long] keeps the carry that the 32-bit hash of
    the ABI drops.  The library defines the symbol "hxxxxsjd" and its hash
    table is right, and [find_symbol] returns the null pointer. *)
Theorem find_symbol_misses_carry :
  sysv_table carry_lib 100 200 300 3 sysv_hash [[]; carry_name] /\ cstr carry_lib 301 carry_name /\
  elf_hash carry_lib 301 = Ret (sysv_hash carry_name + 2 ^ 32) /\
  find_symbol carry_lib 301 100 200 300 = Ret 0.
Proof.
  split_and!; [|apply cstr_checked; by vm_compute|by vm_compute|by vm_compute].
  split; [by vm_compute|lia| |].
  - intros [|[|i]] name Hi Hn; [lia| |done]; injection Hn as <-; eexists.
    split; [vm_compute; reflexivity|apply cstr_checked; by vm_compute].
  - intros b Hb. destruct (decide (b = 1)) as [->|Hne].
    + exists 1, [1]. split_and!; [by vm_compute| |repeat constructor; cbn; lia|].
      { eapply linked_next with (j := 0); [done|by vm_compute|constructor]. }
      intros [|[|i]] name Hi Hn Hh; [lia|by left|done].
    + exists 0, []. split_and!; [|constructor|constructor|].
      { assert (b = 0 \/ b = 2) as [-> | ->] by lia; by vm_compute. }
      intros [|[|i]] name Hi Hn Hh; [lia| |done]. injection Hn as <-. by vm_compute in Hh.
Qed.
