(* ===== verification/DlAlloc.v ===== *)
(** * The allocator of the dynamic loader

    [src/Userspace/libc/interpreter/alloc.c] and [strdup] of [helper.c].  The
    pool is a singly linked list of blocks, each for one slot size: a
    [MemoryBlock] structure, a bitmap with one bit per slot, and the slots.
    Structures and bitmaps live in the byte memory; the pages come from the
    kernel of the class [Kernel]. *)

From S2P Require Import Prelude CMem CStruct KernelMem LibcString DlElf DlHelper.

(** ** Data *)

Record MemoryBlock := MkBlock {
  next : Z; slots : Z; slot_size : Z; slots_per_block : Z; bitmap : Z; bitmap_size : Z; total_size : Z }.

#[export, refine] Instance block_layout : Layout MemoryBlock := {|
  widths := [8; 8; 8; 8; 8; 8; 8]%nat;
  to_fields b := let '(MkBlock a c d e f g h) := b in [a; c; d; e; f; g; h];
  of_fields l := let v i := nth i l 0 in (MkBlock (v 0) (v 1) (v 2) (v 3) (v 4) (v 5) (v 6))%nat |}.
Proof. all: layout_laws. Defined.

Definition PAGE_SIZE : Z := 0x1000.
(** [sizeof(MemoryBlock)] *)
Definition BLOCK : Z := 56.

(** [(x + a - 1) & ~(a - 1)] on 64 bits. *)
Definition ALIGN_UP (x a : Z) : Z := Z.land (u64 (x + a - 1)) (2 ^ 64 - a).

(** The memory and the static [memory_pool]. *)
Record pool := Pool { pm : mem; memory_pool : Z }.

(** ** Operations *)

Section operations.
Context {K : Kernel}.

Definition request_page (m : mem) (size : Z) : Z * mem :=
  let '(addr, m) := sys_MemoryMap m (ALIGN_UP size PAGE_SIZE) in
  if addr <? 0 then (0, m) else (addr, m).

Definition free_page (m : mem) (addr size : Z) : mem := snd (sys_MemoryUnmap m addr (ALIGN_UP size PAGE_SIZE)).

(** [(PAGE_SIZE - sizeof(MemoryBlock)) / (slot_size + 1.0 / 8.0)], converted to
    [size_t]: the rounded double quotient and the exact one,
    [32320 / (8 * slot_size + 1)], have the same integer part, since a
    fraction with such a denominator is at least [2^-15] away from the next
    integer. *)
Definition estimated_slots (slot_size : Z) : Z :=
  let e := (8 * (PAGE_SIZE - BLOCK)) / (8 * slot_size + 1) in if e =? 0 then 1 else e.

Definition bitmap_bytes (slot_size : Z) : Z := ALIGN_UP ((estimated_slots slot_size + 7) / 8) 8.

Definition block_bytes (slot_size : Z) : Z :=
  ALIGN_UP (BLOCK + bitmap_bytes slot_size + estimated_slots slot_size * slot_size) PAGE_SIZE.

Definition allocate_block (m : mem) (slot_size : Z) : outcome (Z * mem) :=
  if (slot_size =? 0) || (slot_size >? PAGE_SIZE / 2) then Ret (0, m)
  else
    let bitmap_size := bitmap_bytes slot_size in
    let total_size := block_bytes slot_size in
    let '(block, m) := request_page m total_size in
    if block =? 0 then Ret (0, m)
    else
      let base := u64 (block + BLOCK) in
      let slots := ALIGN_UP (u64 (base + bitmap_size)) 16 in
      let! m := wr m block (MkBlock 0 slots slot_size (u64 (total_size - u64 (slots - block)) / slot_size)
                              base bitmap_size total_size) in
      let! r := memset m base 0 bitmap_size in
      Ret (block, snd r).

(** [bitmap[i / 8] & (1 << i % 8)] and the assignments of that bit. *)
Definition bit_of (i : Z) : Z := Z.shiftl 1 (i mod 8).

(** The [for] loop of [mini_malloc]: [n] slots are left from slot [i] on. *)
Fixpoint scan_slots (n : nat) (m : mem) (b : MemoryBlock) (i : Z) : outcome (option (Z * mem)) :=
  match n with
  | O => Ret None
  | S n =>
      let a := u64 (bitmap b + i / 8) in
      let! v := load8 m a in
      if Z.land v (bit_of i) =? 0 then
        let! m := store8 m a (Z.lor v (bit_of i)) in
        Ret (Some (u64 (slots b + i * slot_size b), m))
      else scan_slots n m b (i + 1)
  end.

(** The [while] loop of [mini_malloc]. *)
Fixpoint scan_blocks (fuel : nat) (m : mem) (block size : Z) : outcome (option (Z * mem)) :=
  match fuel with
  | O => OutOfFuel
  | S fuel =>
      if block =? 0 then Ret None
      else
        let! b := rd m block in
        let! r := if slot_size b =? size then scan_slots (Z.to_nat (slots_per_block b)) m b 0 else Ret None in
        match r with
        | Some r => Ret (Some r)
        | None => scan_blocks fuel m (next b) size
        end
  end.

Definition mini_malloc (s : pool) (size : Z) : outcome (Z * pool) :=
  if size =? 0 then Ret (0, s)
  else
    let! r := scan_blocks (loop_fuel (pm s)) (pm s) (memory_pool s) size in
    match r with
    | Some (p, m) => Ret (p, Pool m (memory_pool s))
    | None =>
        let! r := allocate_block (pm s) size in
        let '(block, m) := r in
        if block =? 0 then Ret (0, Pool m (memory_pool s))
        else
          let! m := upd m block (fun b => MkBlock (memory_pool s) (slots b) (slot_size b) (slots_per_block b)
                                            (bitmap b) (bitmap_size b) (total_size b)) in
          let! b := rd m block in
          let! v := load8 m (bitmap b) in
          let! m := store8 m (bitmap b) (Z.lor v 1) in
          Ret (slots b, Pool m block)
    end.

Fixpoint free_loop (fuel : nat) (m : mem) (block ptr : Z) : outcome mem :=
  match fuel with
  | O => OutOfFuel
  | S fuel =>
      if block =? 0 then Ret m
      else
        let! b := rd m block in
        let start := slots b in
        let end_ := u64 (start + u64 (slots_per_block b * slot_size b)) in
        if (ptr >=? start) && (ptr <? end_) then
          if slot_size b =? 0 then Fault
          else
            let index := (ptr - start) / slot_size b in
            let a := u64 (bitmap b + index / 8) in
            let! v := load8 m a in
            store8 m a (Z.land v (255 - bit_of index))
        else free_loop fuel m (next b) ptr
  end.

Definition mini_free (s : pool) (ptr : Z) : outcome pool :=
  let! m := free_loop (loop_fuel (pm s)) (pm s) (memory_pool s) ptr in Ret (Pool m (memory_pool s)).

Definition strdup (s : pool) (str : Z) : outcome (Z * pool) :=
  let! n := strlen (pm s) str in
  let! r := mini_malloc s (n + 1) in
  let '(buf, s) := r in
  let! n := strlen (pm s) str in
  let! r := strncpy (pm s) buf str (n + 1) in
  Ret (buf, Pool (snd r) (memory_pool s)).
End operations.

(** ** Block geometry

    Where the slots start in a block, and how many there are. *)

Definition slots_offset (s : Z) : Z := ALIGN_UP (BLOCK + bitmap_bytes s) 16.
Definition slot_count (s : Z) : Z := (block_bytes s - slots_offset s) / s.

(** The bitmap has a bit for every slot. *)
Definition good_size (s : Z) : bool := slot_count s <=? 8 * bitmap_bytes s.

Definition geometry_check (s : Z) : bool :=
  (0 <? bitmap_bytes s) && (bitmap_bytes s <? 8192) && (BLOCK + bitmap_bytes s <=? slots_offset s) &&
  (slots_offset s + s <=? block_bytes s) && (block_bytes s <=? 8192).

Lemma geometry_checked : forallb geometry_check (seqZ 1 2048) = true.
Proof. vm_compute. reflexivity. Qed.

Lemma bad_sizes : filter (fun s => negb (good_size s)) (seqZ 1 2048) =
  [1; 2; 3; 4; 5; 6; 7; 10; 11; 12; 14; 15; 19; 30; 35; 51; 53; 61; 62; 109].
Proof. vm_compute. reflexivity. Qed.

Lemma align_up_eq x k : 0 <= k <= 64 -> 0 <= x -> x + 2 ^ k - 1 < 2 ^ 64 ->
  ALIGN_UP x (2 ^ k) = (x + 2 ^ k - 1) / 2 ^ k * 2 ^ k.
Proof.
  intros Hk Hx Hb. pose proof (Z.pow_pos_nonneg 2 k ltac:(lia) ltac:(lia)) as Hp. unfold ALIGN_UP.
  rewrite uw_small by lia. set (z := x + 2 ^ k - 1) in *.
  replace (2 ^ 64 - 2 ^ k) with (Z.shiftl (Z.ones (64 - k)) k).
  2:{ rewrite Z.shiftl_mul_pow2, Z.ones_equiv by lia. replace 64 with (64 - k + k) at 2 by lia.
      rewrite Z.pow_add_r by lia. lia. }
  rewrite <- Z.shiftr_div_pow2, <- Z.shiftl_mul_pow2 by lia. apply Z.bits_inj'. intros i Hi.
  rewrite Z.land_spec, !Z.shiftl_spec by lia. destruct (Z_lt_le_dec i k).
  { rewrite !(Z.testbit_neg_r _ (i - k)) by lia. apply andb_false_r. }
  rewrite Z.shiftr_spec by lia. replace (i - k + k) with i by lia. rewrite Z.testbit_ones by lia.
  destruct (Z_lt_le_dec i 64).
  - destruct (Z.leb_spec 0 (i - k)), (Z.ltb_spec (i - k) (64 - k)); try lia. apply andb_true_r.
  - by rewrite (testbit_high z 64) by lia.
Qed.

Lemma align_up_shift a x k : 0 <= k <= 64 -> a mod 2 ^ k = 0 -> 0 <= a -> 0 <= x -> a + x + 2 ^ k - 1 < 2 ^ 64 ->
  ALIGN_UP (a + x) (2 ^ k) = a + ALIGN_UP x (2 ^ k).
Proof.
  intros Hk Ha H1 H2 Hb. rewrite !align_up_eq by lia. pose proof (Z.pow_pos_nonneg 2 k ltac:(lia) ltac:(lia)).
  apply Z.mod_divide in Ha as [q ->]; [|lia].
  replace (q * 2 ^ k + x + 2 ^ k - 1) with (x + 2 ^ k - 1 + q * 2 ^ k) by lia. rewrite Z.div_add by lia. lia.
Qed.

Lemma geometry s : 0 < s <= 2048 ->
  0 < bitmap_bytes s < 8192 /\ BLOCK + bitmap_bytes s <= slots_offset s /\
  slots_offset s + s <= block_bytes s /\ block_bytes s <= 8192.
Proof.
  intros Hs. pose proof geometry_checked as H. rewrite forallb_forall in H.
  specialize (H s). unfold geometry_check in H. rewrite !andb_true_iff, !Z.ltb_lt, !Z.leb_le in H.
  assert (Hin : In s (seqZ 1 2048)) by (apply list_elem_of_In, elem_of_seqZ; lia). specialize (H Hin). tauto.
Qed.

Lemma block_bytes_pages s : block_bytes s mod 4096 = 0.
Proof.
  unfold block_bytes, ALIGN_UP. apply Z.bits_inj'. intros i Hi. rewrite Z.bits_0. change 4096 with (2 ^ 12).
  rewrite testbit_mod, Z.land_spec by lia. destruct (Z.ltb_spec i 12); [|done].
  change (2 ^ 64 - PAGE_SIZE) with (Z.shiftl (Z.ones 52) 12). rewrite Z.shiftl_spec by lia.
  rewrite (Z.testbit_neg_r _ (i - 12)) by lia. by rewrite andb_false_r.
Qed.

(** ** Invariant

    A block of the pool with its address; the pool is the list of its blocks. *)

Record blk := Blk { k_at : Z; k_b : MemoryBlock }.

#[export] Instance block_eq_dec : EqDecision MemoryBlock.
Proof. solve_decision. Defined.
#[export] Instance blk_eq_dec : EqDecision blk.
Proof. solve_decision. Defined.

Record block_ok (m : mem) (x : blk) : Prop := {
  bo_rd : rd m (k_at x) = Ret (k_b x);
  bo_at : 0 < k_at x;
  bo_end : k_at x + total_size (k_b x) < 2 ^ 63;
  bo_cells : cells m (k_at x) (total_size (k_b x));
  bo_size : 0 < slot_size (k_b x) <= PAGE_SIZE / 2;
  bo_bitmap : bitmap (k_b x) = k_at x + BLOCK;
  bo_bits : 0 < slots_per_block (k_b x) <= 8 * bitmap_size (k_b x);
  bo_slots : bitmap (k_b x) + bitmap_size (k_b x) <= slots (k_b x);
  bo_total : slots (k_b x) + slots_per_block (k_b x) * slot_size (k_b x) <= k_at x + total_size (k_b x)
}.

Fixpoint chained (head : Z) (bs : list blk) : Prop :=
  match bs with
  | [] => head = 0
  | x :: bs => head = k_at x /\ chained (next (k_b x)) bs
  end.

Definition apart (x y : blk) : Prop :=
  disjoint_range (k_at x) (total_size (k_b x)) (k_at y) (total_size (k_b y)).

Record pool_ok (s : pool) (bs : list blk) : Prop := {
  po_chain : chained (memory_pool s) bs;
  po_blocks : Forall (block_ok (pm s)) bs;
  po_apart : ForallOrdPairs apart bs
}.

(** Bit [i] of the bitmap; an allocation is a slot whose bit is set. *)
Definition taken (m : mem) (b : MemoryBlock) (i : Z) : Prop :=
  exists v, m !! (bitmap b + i / 8) = Some v /\ Z.testbit v (i mod 8) = true.

Definition slot (x : blk) (i : Z) : Z := slots (k_b x) + i * slot_size (k_b x).

Definition live (m : mem) (bs : list blk) (p n : Z) : Prop :=
  exists x i, x ∈ bs /\ 0 <= i < slots_per_block (k_b x) /\ taken m (k_b x) i /\
    p = slot x i /\ n = slot_size (k_b x).

(** ** Laws of the invariant *)

Section laws.
Implicit Types (m : mem) (x y : blk) (bs : list blk).

Lemma apart_members s bs x y : pool_ok s bs -> x ∈ bs -> y ∈ bs -> x = y \/ apart x y.
Proof.
  intros Hp Hx%list_elem_of_In Hy%list_elem_of_In.
  destruct (ForallOrdPairs_In (po_apart _ _ Hp) _ _ Hx Hy) as [->|[H|H]]; [by left|by right|right].
  unfold apart, disjoint_range in *. lia.
Qed.

Lemma member_ok s bs x : pool_ok s bs -> x ∈ bs -> block_ok (pm s) x.
Proof. intros Hp. apply (proj1 (list.Forall_forall _ _) (po_blocks _ _ Hp)). Qed.

(** A slot lies in its block, after the bitmap. *)
Lemma slot_bounds m x i : block_ok m x -> 0 <= i < slots_per_block (k_b x) ->
  k_at x + BLOCK + bitmap_size (k_b x) <= slot x i /\
  slot x i + slot_size (k_b x) <= k_at x + total_size (k_b x).
Proof.
  intros [] Hi. unfold slot. split; [nia|].
  assert ((i + 1) * slot_size (k_b x) <= slots_per_block (k_b x) * slot_size (k_b x)) by nia. lia.
Qed.

Lemma bitmap_bounds m x i : block_ok m x -> 0 <= i < slots_per_block (k_b x) ->
  k_at x + BLOCK <= bitmap (k_b x) + i / 8 < k_at x + BLOCK + bitmap_size (k_b x).
Proof. intros H Hi. rewrite (bo_bitmap _ _ H). pose proof (bo_bits _ _ H). dlia. Qed.

Lemma block_ok_touched m m' x a n : block_ok m x -> touched a n m m' ->
  disjoint_range a n (k_at x) BLOCK -> block_ok m' x.
Proof.
  intros H Ht Hd. split; try apply H; [|eapply touched_cells; [done|apply H]].
  rewrite <- (bo_rd _ _ H). apply rd_ext. intros y Hy. apply Ht. unfold disjoint_range, BLOCK in *. cbn in Hy. lia.
Qed.

Lemma touched_byte m a v w : m !! a = Some v -> byte w -> touched a 1 m (<[a := w]> m).
Proof.
  intros Hv Hw. split.
  - intros y Hy. apply lookup_insert_ne. lia.
  - intros y b Hy Hb. destruct (decide (a = y)) as [<-|]; [rewrite lookup_insert_eq|rewrite lookup_insert_ne by done]; eauto.
Qed.

(** Distinct live allocations do not overlap. *)
Lemma live_apart s bs p n q k : pool_ok s bs -> live (pm s) bs p n -> live (pm s) bs q k ->
  (p, n) = (q, k) \/ disjoint_range p n q k.
Proof.
  intros Hp (x & i & Hx & Hi & _ & -> & ->) (y & j & Hy & Hj & _ & -> & ->).
  pose proof (member_ok _ _ _ Hp Hx) as Hxo. pose proof (member_ok _ _ _ Hp Hy) as Hyo.
  destruct (apart_members _ _ _ _ Hp Hx Hy) as [->|Ha].
  - destruct (Z.eq_dec i j) as [->|Hne]; [by left|right]. unfold disjoint_range, slot. pose proof (bo_size _ _ Hyo).
    destruct (Z_lt_le_dec i j); [left|right]; nia.
  - right. pose proof (slot_bounds _ _ _ Hxo Hi). pose proof (slot_bounds _ _ _ Hyo Hj).
    pose proof (bo_bits _ _ Hxo). pose proof (bo_bits _ _ Hyo). unfold apart, disjoint_range, BLOCK in *. lia.
Qed.

Lemma live_cells s bs p n : pool_ok s bs -> live (pm s) bs p n -> 0 < p /\ p + n < 2 ^ 63 /\ cells (pm s) p n.
Proof.
  intros Hp (x & i & Hx & Hi & _ & -> & ->). pose proof (member_ok _ _ _ Hp Hx) as Hxo.
  pose proof (slot_bounds _ _ _ Hxo Hi). pose proof (bo_cells _ _ Hxo) as Hc. destruct Hxo. unfold BLOCK in *.
  split_and!; [lia|lia|]. eapply cells_sub; [exact Hc|lia|lia].
Qed.

(** A byte of a bitmap is in no slot, and in no other bitmap. *)
Section bitmap_write.
Context (s : pool) (bs : list blk) (x : blk) (j v w : Z).
Context (Hp : pool_ok s bs) (Hx : x ∈ bs) (Hj : 0 <= j < slots_per_block (k_b x)).
Let a := bitmap (k_b x) + j / 8.
Context (Hv : pm s !! a = Some v) (Hw : byte w).

Lemma bitmap_write_ok : pool_ok (Pool (<[a := w]> (pm s)) (memory_pool s)) bs.
Proof.
  pose proof (bitmap_bounds _ _ _ (member_ok _ _ _ Hp Hx) Hj) as Ha. fold a in Ha.
  split; [apply Hp| |apply Hp]. apply list.Forall_forall. intros y Hy. cbn [pm].
  pose proof (member_ok _ _ _ Hp Hx) as Hxo. pose proof (member_ok _ _ _ Hp Hy) as Hyo.
  apply (block_ok_touched (pm s) _ y a 1); [done|by eapply touched_byte|].
  destruct (apart_members _ _ _ _ Hp Hx Hy) as [<-|Hd]; unfold apart, disjoint_range, BLOCK in *; [lia|].
  pose proof (slot_bounds _ _ 0 Hxo ltac:(lia)). pose proof (slot_bounds _ _ 0 Hyo ltac:(destruct Hyo; lia)).
  destruct Hxo, Hyo. unfold BLOCK in *. lia.
Qed.

Lemma bitmap_write_live p n :
  (live (pm s) bs p n \/ exists k, 0 <= k < slots_per_block (k_b x) /\ p = slot x k /\ n = slot_size (k_b x)) ->
  forall c : Z, p <= c < p + n -> <[a := w]> (pm s) !! c = pm s !! c.
Proof.
  intros H y Hy. apply lookup_insert_ne. pose proof (member_ok _ _ _ Hp Hx) as Hxo.
  pose proof (bitmap_bounds _ _ _ Hxo Hj) as Ha. fold a in Ha.
  assert (exists z i, z ∈ bs /\ 0 <= i < slots_per_block (k_b z) /\ p = slot z i /\ n = slot_size (k_b z))
    as (z & i & Hz & Hi & -> & ->).
  { destruct H as [(z & i & ? & ? & _ & ? & ?)|(k & ? & ? & ?)]; [by exists z, i|by exists x, k]. }
  pose proof (member_ok _ _ _ Hp Hz) as Hzo. pose proof (slot_bounds _ _ _ Hzo Hi).
  destruct (apart_members _ _ _ _ Hp Hx Hz) as [<-|Hd]; [lia|].
  pose proof (slot_bounds _ _ _ Hxo Hj). destruct Hxo, Hzo. unfold apart, disjoint_range, BLOCK in *. lia.
Qed.

Lemma bitmap_write_taken y i : y ∈ bs -> 0 <= i < slots_per_block (k_b y) ->
  taken (<[a := w]> (pm s)) (k_b y) i <->
  (if decide (y = x /\ i / 8 = j / 8) then Z.testbit w (i mod 8) = true else taken (pm s) (k_b y) i).
Proof.
  intros Hy Hi. unfold taken. case_decide as Hd.
  - destruct Hd as [-> ->]. fold a. rewrite lookup_insert_eq. split; [by intros (? & [= <-] & ?)|by exists w].
  - rewrite lookup_insert_ne; [done|]. intros He. apply Hd.
    pose proof (member_ok _ _ _ Hp Hx) as Hxo. pose proof (member_ok _ _ _ Hp Hy) as Hyo.
    pose proof (bitmap_bounds _ _ _ Hxo Hj). pose proof (bitmap_bounds _ _ _ Hyo Hi).
    pose proof (slot_bounds _ _ _ Hxo Hj). pose proof (slot_bounds _ _ _ Hyo Hi).
    destruct (apart_members _ _ _ _ Hp Hx Hy) as [<-|Hap].
    + split; [done|]. subst a. lia.
    + exfalso. destruct Hxo, Hyo. subst a. unfold apart, disjoint_range, BLOCK in *. lia.
Qed.
End bitmap_write.
End laws.

(** ** Bits of the bitmap *)

Lemma bit_of_spec i k : Z.testbit (bit_of i) k = (i mod 8 =? k).
Proof.
  unfold bit_of. pose proof (Z.mod_pos_bound i 8 ltac:(lia)). rewrite Z.shiftl_1_l. apply Z.pow2_bits_eqb. lia.
Qed.

Lemma bit_of_byte i : byte (bit_of i) /\ byte (255 - bit_of i).
Proof.
  unfold bit_of. rewrite Z.shiftl_1_l. pose proof (Z.mod_pos_bound i 8 ltac:(lia)).
  pose proof (Z.pow_lt_mono_r 2 (i mod 8) 8 ltac:(lia) ltac:(lia) ltac:(lia)).
  pose proof (Z.pow_pos_nonneg 2 (i mod 8) ltac:(lia) ltac:(lia)). unfold byte. lia.
Qed.

Lemma bit_clear v i : Z.land v (bit_of i) = 0 <-> Z.testbit v (i mod 8) = false.
Proof.
  split.
  - intros H. apply (f_equal (fun z => Z.testbit z (i mod 8))) in H.
    rewrite Z.land_spec, bit_of_spec, Z.eqb_refl, Z.bits_0, andb_true_r in H. done.
  - intros H. apply Z.bits_inj'. intros k Hk. rewrite Z.land_spec, bit_of_spec, Z.bits_0.
    destruct (Z.eqb_spec (i mod 8) k) as [<-|]; [by rewrite H|apply andb_false_r].
Qed.

Lemma byte_bits v : byte v <-> 0 <= v /\ forall k, 8 <= k -> Z.testbit v k = false.
Proof.
  unfold byte. split.
  - intros Hv. split; [lia|]. intros k Hk. by apply (testbit_high v 8).
  - intros [_ H]. by apply testbit_bound.
Qed.

Lemma set_bit_byte v i : byte v -> byte (Z.lor v (bit_of i)).
Proof.
  intros Hv. destruct (bit_of_byte i) as [Hb _]. apply byte_bits. split; [apply Z.lor_nonneg; unfold byte in *; lia|].
  intros k Hk. rewrite Z.lor_spec, !(testbit_high _ 8) by done. done.
Qed.

Lemma clear_bit_spec v i k : byte v -> 0 <= k -> Z.testbit (Z.land v (255 - bit_of i)) k = negb (i mod 8 =? k) && Z.testbit v k.
Proof.
  intros Hv Hk. assert (Hx : 255 - bit_of i = Z.lxor 255 (bit_of i)).
  { unfold bit_of. pose proof (Z.mod_pos_bound i 8 ltac:(lia)).
    assert (i mod 8 = 0 \/ i mod 8 = 1 \/ i mod 8 = 2 \/ i mod 8 = 3 \/ i mod 8 = 4 \/ i mod 8 = 5 \/ i mod 8 = 6 \/ i mod 8 = 7)
      as H1 by lia. by destruct H1 as [-> |[-> |[-> |[-> |[-> |[-> |[-> | ->]]]]]]]. }
  rewrite Hx, Z.land_spec, Z.lxor_spec, bit_of_spec, andb_comm. destruct (Z_lt_le_dec k 8).
  - change 255 with (Z.ones 8). rewrite Z.testbit_ones by lia.
    destruct (Z.leb_spec 0 k), (Z.ltb_spec k 8); try lia. by rewrite xorb_true_l.
  - by rewrite (testbit_high v 8), !andb_false_r by done.
Qed.

Lemma clear_bit_byte v i : byte v -> byte (Z.land v (255 - bit_of i)).
Proof.
  intros Hv. apply byte_bits. split; [apply Z.land_nonneg; unfold byte in *; lia|].
  intros k Hk. by rewrite clear_bit_spec, (testbit_high v 8), andb_false_r by (done || lia).
Qed.

(** ** Taking and releasing a slot *)

Section slot_change.
Context (s : pool) (bs : list blk) (x : blk) (j v : Z).
Context (Hp : pool_ok s bs) (Hx : x ∈ bs) (Hj : 0 <= j < slots_per_block (k_b x)).
Let a := bitmap (k_b x) + j / 8.
Context (Hv : pm s !! a = Some v) (Hb : byte v).

Lemma slot_inj y i : y ∈ bs -> 0 <= i < slots_per_block (k_b y) -> slot y i = slot x j -> y = x /\ i = j.
Proof using Hp Hx Hj.
  intros Hy Hi He. pose proof (member_ok _ _ _ Hp Hx) as Hxo. pose proof (member_ok _ _ _ Hp Hy) as Hyo.
  destruct (apart_members _ _ _ _ Hp Hx Hy) as [<-|Ha].
  - split; [done|]. unfold slot in He. pose proof (bo_size _ _ Hxo). nia.
  - exfalso. pose proof (slot_bounds _ _ _ Hxo Hj). pose proof (slot_bounds _ _ _ Hyo Hi).
    destruct Hxo, Hyo. unfold apart, disjoint_range, BLOCK in *. lia.
Qed.

Lemma take_slot (s' := Pool (<[a := Z.lor v (bit_of j)]> (pm s)) (memory_pool s)) :
  pool_ok s' bs /\ forall p n, live (pm s') bs p n <-> live (pm s) bs p n \/ (p = slot x j /\ n = slot_size (k_b x)).
Proof.
  pose proof (set_bit_byte v j Hb) as Hw. split; [by eapply bitmap_write_ok|]. intros p n. split.
  - intros (y & i & Hy & Hi & Ht & -> & ->).
    apply (bitmap_write_taken s bs x j _ Hp Hx Hj y i Hy Hi) in Ht.
    destruct (decide (y = x /\ i = j)) as [[-> ->]|Hne]; [by right|left]. exists y, i.
    refine (conj Hy (conj Hi (conj _ (conj eq_refl eq_refl)))).
    destruct (decide _) as [[-> Hd]|]; [|done]. exists v. rewrite Hd. split; [done|].
    rewrite Z.lor_spec, bit_of_spec in Ht. destruct (Z.eqb_spec (j mod 8) (i mod 8)) as [He|]; [|by rewrite orb_false_r in Ht].
    exfalso. apply Hne. split; [done|]. rewrite (Z.div_mod i 8), (Z.div_mod j 8) by lia. lia.
  - intros [(y & i & Hy & Hi & Ht & -> & ->)|[-> ->]]; 
      [exists y, i; refine (conj Hy (conj Hi (conj _ (conj eq_refl eq_refl))))
      |exists x, j; refine (conj Hx (conj Hj (conj _ (conj eq_refl eq_refl))))];
      (eapply bitmap_write_taken; [done..|]); destruct (decide _) as [[Ex Hd]|Hn]; try done.
    + subst y. rewrite Z.lor_spec. destruct Ht as (u & Hu & Ht). rewrite Hd in Hu. fold a in Hu. rewrite Hv in Hu.
      injection Hu as <-. by rewrite Ht.
    + by rewrite Z.lor_spec, bit_of_spec, Z.eqb_refl, orb_true_r.
    + by destruct Hn.
Qed.

Lemma release_slot (s' := Pool (<[a := Z.land v (255 - bit_of j)]> (pm s)) (memory_pool s)) :
  pool_ok s' bs /\ forall p n, live (pm s') bs p n <-> live (pm s) bs p n /\ p <> slot x j.
Proof.
  pose proof (clear_bit_byte v j Hb) as Hw. split; [by eapply bitmap_write_ok|]. intros p n. split.
  - intros (y & i & Hy & Hi & Ht & -> & ->).
    apply (bitmap_write_taken s bs x j _ Hp Hx Hj y i Hy Hi) in Ht. destruct (decide _) as [[-> Hd]|Hn].
    + rewrite clear_bit_spec in Ht by (done || apply Z.mod_pos_bound; lia). apply andb_prop in Ht as [Hk Ht].
      split; [|intros He; destruct (slot_inj x i Hx Hi He) as [_ ->]; by rewrite Z.eqb_refl in Hk].
      exists x, i. refine (conj Hx (conj Hi (conj _ (conj eq_refl eq_refl)))). exists v. by rewrite Hd.
    + split; [by exists y, i|]. intros He. destruct (slot_inj y i Hy Hi He) as [-> ->]. by destruct Hn.
  - intros [(y & i & Hy & Hi & Ht & -> & ->) Hne]. exists y, i.
    refine (conj Hy (conj Hi (conj _ (conj eq_refl eq_refl)))).
    eapply bitmap_write_taken; [done..|]. destruct (decide _) as [[-> Hd]|Hn]; [|done].
    rewrite clear_bit_spec by (done || apply Z.mod_pos_bound; lia).
    destruct Ht as (u & Hu & Ht). rewrite Hd in Hu. fold a in Hu. rewrite Hv in Hu. injection Hu as <-.
    rewrite Ht, andb_true_r. destruct (Z.eqb_spec (j mod 8) (i mod 8)); [|done].
    exfalso. apply Hne. f_equal. rewrite (Z.div_mod i 8), (Z.div_mod j 8) by lia. lia.
Qed.
End slot_change.

(** ** The loops *)

Section loops.
Context (s : pool) (bs : list blk) (Hp : pool_ok s bs).

Lemma bitmap_cell x i : x ∈ bs -> 0 <= i < slots_per_block (k_b x) ->
  u64 (bitmap (k_b x) + i / 8) = bitmap (k_b x) + i / 8 /\
  exists v, pm s !! (bitmap (k_b x) + i / 8) = Some v /\ byte v.
Proof.
  intros Hx Hi. pose proof (member_ok _ _ _ Hp Hx) as Ho. pose proof (bitmap_bounds _ _ _ Ho Hi).
  pose proof (slot_bounds _ _ _ Ho Hi). pose proof (bo_cells _ _ Ho (bitmap (k_b x) + i / 8)) as Hc.
  destruct Ho. unfold BLOCK in *. split; [apply uw_small; lia|apply Hc; lia].
Qed.

Lemma scan_slots_spec x n i : x ∈ bs -> 0 <= i -> Z.of_nat n = slots_per_block (k_b x) - i ->
  scan_slots n (pm s) (k_b x) i = Ret None \/
  exists j v, i <= j < slots_per_block (k_b x) /\ pm s !! (bitmap (k_b x) + j / 8) = Some v /\ byte v /\
    Z.testbit v (j mod 8) = false /\
    scan_slots n (pm s) (k_b x) i
      = Ret (Some (slot x j, <[bitmap (k_b x) + j / 8 := Z.lor v (bit_of j)]> (pm s))).
Proof.
  intros Hx. revert i. induction n as [|n IH]; intros i Hi Hn; cbn [scan_slots]; [by left|].
  destruct (bitmap_cell x i Hx ltac:(lia)) as (-> & v & Hv & Hb). unfold load8. rewrite Hv. cbn [obind].
  destruct (Z.eqb_spec (Z.land v (bit_of i)) 0) as [Hc|Hc].
  - right. exists i, v. apply bit_clear in Hc. split_and!; try done; try lia. unfold store8. rewrite Hv. cbn [obind].
    rewrite (uw_small 8) by (by apply set_bit_byte).
    pose proof (member_ok _ _ _ Hp Hx) as Ho. pose proof (slot_bounds _ _ i Ho ltac:(lia)) as Hs. unfold slot in *.
    destruct Ho. unfold BLOCK in *. by rewrite uw_small by lia.
  - destruct (IH (i + 1)) as [H|(j & w & Hj & H)]; [lia|lia|by left|]. right. exists j, w. split; [lia|done].
Qed.

Lemma scan_blocks_spec size fuel head cs : chained head cs -> (forall x, x ∈ cs -> x ∈ bs) -> (length cs < fuel)%nat ->
  scan_blocks fuel (pm s) head size = Ret None \/
  exists x j v, x ∈ bs /\ slot_size (k_b x) = size /\ 0 <= j < slots_per_block (k_b x) /\
    pm s !! (bitmap (k_b x) + j / 8) = Some v /\ byte v /\ Z.testbit v (j mod 8) = false /\
    scan_blocks fuel (pm s) head size
      = Ret (Some (slot x j, <[bitmap (k_b x) + j / 8 := Z.lor v (bit_of j)]> (pm s))).
Proof.
  revert fuel head. induction cs as [|x cs IH]; intros [|fuel] head Hc Hin Hf; cbn [length] in Hf; try lia;
    cbn [scan_blocks chained] in *.
  { subst head. by left. }
  destruct Hc as [-> Hc]. pose proof (Hin x ltac:(by left)) as Hx. pose proof (member_ok _ _ _ Hp Hx) as Ho.
  pose proof (bo_at _ _ Ho). destruct (Z.eqb_spec (k_at x) 0); [lia|]. rewrite (bo_rd _ _ Ho). cbn [obind].
  destruct (IH fuel (next (k_b x)) Hc ltac:(intros; apply Hin; by right) ltac:(lia)) as [IH'|IH'].
  - destruct (Z.eqb_spec (slot_size (k_b x)) size) as [He|]; cbn [obind]; [|by left].
    destruct (scan_slots_spec x (Z.to_nat (slots_per_block (k_b x))) 0 Hx) as [->|(j & v & Hj & Hv & Hb & Ht & ->)];
      [lia|pose proof (bo_bits _ _ Ho); lia|by left|]. right. by exists x, j, v.
  - destruct (Z.eqb_spec (slot_size (k_b x)) size) as [He|]; cbn [obind]; [|by right].
    destruct (scan_slots_spec x (Z.to_nat (slots_per_block (k_b x))) 0 Hx) as [->|(j & v & Hj & Hv & Hb & Ht & ->)];
      [lia|pose proof (bo_bits _ _ Ho); lia|by right|]. right. by exists x, j, v.
Qed.

Lemma free_loop_spec fuel head cs x j : chained head cs -> (forall y, y ∈ cs -> y ∈ bs) -> (length cs < fuel)%nat ->
  x ∈ cs -> 0 <= j < slots_per_block (k_b x) ->
  exists v, pm s !! (bitmap (k_b x) + j / 8) = Some v /\ byte v /\
    free_loop fuel (pm s) head (slot x j)
      = Ret (<[bitmap (k_b x) + j / 8 := Z.land v (255 - bit_of j)]> (pm s)).
Proof.
  revert fuel head. induction cs as [|y cs IH]; intros [|fuel] head Hc Hin Hf Hxc Hj; cbn [length] in Hf; try lia;
    [by apply elem_of_nil in Hxc..|]. cbn [free_loop chained] in *.
  destruct Hc as [-> Hc]. pose proof (Hin y ltac:(by left)) as Hy. pose proof (member_ok _ _ _ Hp Hy) as Hyo.
  pose proof (Hin x Hxc) as Hx. pose proof (member_ok _ _ _ Hp Hx) as Hxo.
  pose proof (bo_at _ _ Hyo). destruct (Z.eqb_spec (k_at y) 0); [lia|]. rewrite (bo_rd _ _ Hyo). cbn [obind].
  pose proof (bo_bits _ _ Hyo) as Hyb. pose proof (slot_bounds _ _ (slots_per_block (k_b y) - 1) Hyo ltac:(lia)) as Hys.
  pose proof (slot_bounds _ _ j Hxo Hj) as Hxs. pose proof (bo_size _ _ Hyo). pose proof (bo_size _ _ Hxo).
  pose proof (bo_total _ _ Hyo). pose proof (bo_end _ _ Hyo). pose proof (bo_slots _ _ Hyo). pose proof (bo_bitmap _ _ Hyo).
  assert (0 <= slots_per_block (k_b y) * slot_size (k_b y)) by nia. unfold BLOCK in *.
  rewrite (uw_small 64 (_ * _)), uw_small by lia.
  destruct (apart_members _ _ _ _ Hp Hx Hy) as [<-|Ha].
  - destruct (bitmap_cell x j Hx Hj) as (Hu & v & Hv & Hb). exists v. split_and!; [done|done|].
    assert (Hin' : (slot x j >=? slots (k_b x)) && (slot x j <? slots (k_b x) + slots_per_block (k_b x) * slot_size (k_b x)) = true).
    { rewrite Z.geb_leb. apply andb_true_intro. unfold slot. split; [apply Z.leb_le|apply Z.ltb_lt]; nia. }
    rewrite Hin'. destruct (Z.eqb_spec (slot_size (k_b x)) 0); [lia|].
    replace ((slot x j - slots (k_b x)) / slot_size (k_b x)) with j.
    2:{ unfold slot. replace (slots (k_b x) + j * slot_size (k_b x) - slots (k_b x)) with (j * slot_size (k_b x)) by lia.
        by rewrite Z.div_mul by lia. }
    rewrite Hu. unfold load8, store8. rewrite Hv. cbn [obind]. by rewrite (uw_small 8) by (by apply clear_bit_byte).
  - assert (Hout : (slot x j >=? slots (k_b y)) && (slot x j <? slots (k_b y) + slots_per_block (k_b y) * slot_size (k_b y)) = false).
    { rewrite Z.geb_leb. apply andb_false_iff. unfold apart, disjoint_range in Ha.
      pose proof (bo_bits _ _ Hxo). destruct (Z.leb_spec (slots (k_b y)) (slot x j)); [right|by left]. apply Z.ltb_ge. lia. }
    rewrite Hout. apply IH; [done|intros; apply Hin; by right|lia| |done].
    apply elem_of_cons in Hxc as [->|]; [|done]. unfold apart, disjoint_range in Ha. lia.
Qed.

Lemma pool_fuel : (length bs < loop_fuel (pm s))%nat.
Proof.
  assert (Hb : Forall (block_ok (pm s)) bs) by apply Hp. assert (Ha : ForallOrdPairs apart bs) by apply Hp.
  pose proof (addresses_size (pm s) (k_at <$> bs)) as H. rewrite length_fmap in H. unfold loop_fuel. apply Nat.lt_succ_r, H.
  - clear H. clear Hp. induction Ha as [|x cs Hx Ha IH]; [constructor|]. apply Forall_cons_iff in Hb as [Hxo Hb]. cbn.
    apply list.NoDup_cons. split; [|by apply IH]. rewrite list_elem_of_fmap. intros (y & He & Hy).
    apply (proj1 (list.Forall_forall _ _) Hb) in Hy as Hyo. apply list_elem_of_In in Hy.
    rewrite Forall_forall in Hx. specialize (Hx y Hy). pose proof (slot_bounds _ _ 0 Hxo ltac:(destruct Hxo; lia)).
    pose proof (slot_bounds _ _ 0 Hyo ltac:(destruct Hyo; lia)).
    destruct Hxo, Hyo. unfold apart, disjoint_range, BLOCK in *. lia.
  - apply Forall_fmap. apply list.Forall_forall. intros x Hx. cbn. apply (proj1 (list.Forall_forall _ _) Hb) in Hx as Hxo.
    destruct (bo_cells _ _ Hxo (k_at x)) as (v & Hv & _); [|by eexists].
    pose proof (slot_bounds _ _ 0 Hxo ltac:(destruct Hxo; lia)). destruct Hxo. unfold BLOCK in *. lia.
Qed.
End loops.

(** ** A new block *)

Definition new_block (s r nx : Z) : MemoryBlock :=
  MkBlock nx (r + slots_offset s) s (slot_count s) (r + BLOCK) (bitmap_bytes s) (block_bytes s).

Lemma new_block_wf s r nx : 0 < s <= 2048 -> 0 < r -> r + block_bytes s < 2 ^ 63 -> in_u 64 nx -> wf (new_block s r nx).
Proof.
  intros Hs Hr He Hn. pose proof (geometry s Hs) as Hg. unfold BLOCK in *.
  assert (0 <= slot_count s <= 8192) by (unfold slot_count; split; [apply Z.div_pos; lia|];
    apply Z.div_le_upper_bound; [lia|]; nia).
  unfold wf, in_fields. cbn. unfold in_u in *. unfold BLOCK. repeat constructor; lia.
Qed.

Section allocate.
Context {K : Kernel}.

Lemma request_page_spec m s : 0 < s <= 2048 ->
  exists r m', request_page m (block_bytes s) = (r, m') /\ (r = 0 /\ m' = m \/
    0 < r /\ r mod 4096 = 0 /\ r + block_bytes s < 2 ^ 63 /\ cells m' r (block_bytes s) /\
    (forall c, r <= c < r + block_bytes s -> m !! c = None) /\
    (forall c, c < r \/ r + block_bytes s <= c -> m' !! c = m !! c)).
Proof.
  intros Hs. pose proof (geometry s Hs) as Hg. unfold BLOCK in Hg. unfold request_page.
  replace (ALIGN_UP (block_bytes s) PAGE_SIZE) with (block_bytes s).
  2:{ change PAGE_SIZE with (2 ^ 12). rewrite align_up_eq by lia. pose proof (block_bytes_pages s). dlia. }
  pose proof (sys_MemoryMap_spec m (block_bytes s) ltac:(lia)) as Hk.
  destruct (sys_MemoryMap m (block_bytes s)) as [r m']. destruct Hk as [[Hr ->]|(Hr & H)].
  - destruct (Z.ltb_spec r 0); [|lia]. do 2 eexists. split; [done|by left].
  - destruct (Z.ltb_spec r 0); [lia|]. do 2 eexists. split; [done|]. right. done.
Qed.

Lemma allocate_block_spec m s : 0 < s <= 2048 ->
  exists r m', allocate_block m s = Ret (r, m') /\ (r = 0 /\ m' = m \/
    0 < r /\ r + block_bytes s < 2 ^ 63 /\ rd m' r = Ret (new_block s r 0) /\ cells m' r (block_bytes s) /\
    (forall c, r + BLOCK <= c < r + BLOCK + bitmap_bytes s -> m' !! c = Some 0) /\
    (forall c, r <= c < r + block_bytes s -> m !! c = None) /\
    (forall c, c < r \/ r + block_bytes s <= c -> m' !! c = m !! c)).
Proof.
  intros Hs. pose proof (geometry s Hs) as Hg. unfold allocate_block.
  destruct (Z.eqb_spec s 0); [lia|]. rewrite Z.gtb_ltb. destruct (Z.ltb_spec (PAGE_SIZE / 2) s) as [Hl|_].
  { change (PAGE_SIZE / 2) with 2048 in Hl. lia. }
  cbn [orb]. destruct (request_page_spec m s Hs) as (r & m1 & -> & [[-> ->]|(Hr & Ha & He & Hc & Hf & Ho)]).
  { do 2 eexists. split; [done|by left]. }
  destruct (Z.eqb_spec r 0); [lia|]. rewrite (uw_small 64 (r + BLOCK)) by (unfold BLOCK in *; lia).
  rewrite (uw_small 64 (r + BLOCK + _)) by (unfold BLOCK in *; lia).
  replace (ALIGN_UP (r + BLOCK + bitmap_bytes s) 16) with (r + slots_offset s).
  2:{ rewrite <- Z.add_assoc. symmetry. apply (align_up_shift r _ 4); unfold BLOCK in *; dlia. }
  replace (u64 (block_bytes s - u64 (r + slots_offset s - r)) / s) with (slot_count s).
  2:{ unfold slot_count. by rewrite (uw_small 64 (_ - r)), uw_small; [f_equal; lia|unfold BLOCK in *; lia..]. }
  destruct (wr_spec m1 r (new_block s r 0)) as (m2 & Hw & Hrd & Ht).
  { apply new_block_wf; [done..|]. done. }
  { eapply cells_sub; [exact Hc|lia|]. cbn. unfold BLOCK in *. lia. }
  change (MkBlock 0 _ _ _ _ _ _) with (new_block s r 0). rewrite Hw. cbn [obind].
  pose proof (touched_cells _ _ _ _ _ _ Ht Hc) as Hc2. unfold memset. unfold BLOCK in *.
  rewrite memset_loop_spec.
  2:{ intros i Hi. destruct (Hc2 (r + 56 + i)) as (v & Hv & _); [lia|by eexists]. }
  cbn [obind snd]. change (u8 0) with 0. do 2 eexists. split; [done|]. right.
  set (m3 := write_bytes m2 (r + 56) _).
  assert (Hlen : Z.of_nat (length (replicate (Z.to_nat (bitmap_bytes s)) 0)) = bitmap_bytes s) by (rewrite length_replicate; lia).
  split_and!; [done|done| | | |done|].
  - rewrite <- Hrd. apply rd_ext. intros y Hy. cbn in Hy. apply lookup_write_bytes_out. lia.
  - intros c Hcc. unfold m3. rewrite lookup_write_bytes, Hlen. case_decide; [|by apply Hc2].
    exists 0. split; [apply lookup_replicate_2; lia|unfold byte; lia].
  - intros c Hcc. unfold m3. rewrite lookup_write_bytes, Hlen, decide_True by lia. apply lookup_replicate_2; lia.
  - intros c Hcc. unfold m3. rewrite lookup_write_bytes_out, <- Ho by (done || lia). apply Ht. cbn. lia.
Qed.
End allocate.

(** A new block with its first slot taken, in front of the others. *)
Section add_block.
Context (s : pool) (bs : list blk) (size r : Z) (m' : mem).
Context (Hp : pool_ok s bs) (Hs : 0 < size <= 2048) (Hg : good_size size = true).
Context (Hr : 0 < r) (He : r + block_bytes size < 2 ^ 63).
Let x := Blk r (new_block size r (memory_pool s)).
Context (Hrd : rd m' r = Ret (k_b x)) (Hc : cells m' r (block_bytes size)).
Context (Hone : m' !! (r + BLOCK) = Some 1).
Context (Hzero : forall c, r + BLOCK < c < r + BLOCK + bitmap_bytes size -> m' !! c = Some 0).
Context (Hfree : forall c, r <= c < r + block_bytes size -> pm s !! c = None).
Context (Hsame : forall c, c < r \/ r + block_bytes size <= c -> m' !! c = pm s !! c).

Lemma old_bytes c : is_Some (pm s !! c) -> m' !! c = pm s !! c.
Proof using Hfree Hsame.
  intros [v Hv]. apply Hsame. destruct (Z_lt_le_dec c r), (Z_lt_le_dec c (r + block_bytes size)); try lia.
  rewrite Hfree in Hv by lia. done.
Qed.

Lemma new_block_ok : block_ok m' x.
Proof using Hs Hg Hr He Hrd Hc.
  pose proof (geometry size Hs). unfold good_size in Hg. apply Z.leb_le in Hg.
  assert (1 <= slot_count size) by (unfold slot_count; apply Z.div_le_lower_bound; lia).
  assert (slot_count size * size <= block_bytes size - slots_offset size)
    by (unfold slot_count; rewrite Z.mul_comm; apply Z.mul_div_le; lia).
  unfold BLOCK in *. split; cbn; unfold BLOCK in *; try done; try change (PAGE_SIZE / 2) with 2048; lia.
Qed.

Lemma old_block y : y ∈ bs -> block_ok m' y /\ apart x y /\
  forall i, 0 <= i < slots_per_block (k_b y) -> taken m' (k_b y) i <-> taken (pm s) (k_b y) i.
Proof using Hp Hs Hfree Hsame.
  intros Hy. pose proof (member_ok _ _ _ Hp Hy) as Ho. pose proof (geometry size Hs) as Hgeo.
  pose proof (bo_cells _ _ Ho) as Hcy. pose proof (slot_bounds _ _ 0 Ho ltac:(destruct Ho; lia)) as Hb0.
  assert (Hmap : forall c, k_at y <= c < k_at y + total_size (k_b y) -> m' !! c = pm s !! c).
  { intros c Hcc. apply old_bytes. destruct (Hcy c Hcc) as (v & Hv & _). by eexists. }
  assert (HB : k_at y + BLOCK < k_at y + total_size (k_b y)) by (destruct Ho; lia).
  split_and!.
  - split; try apply Ho; [|intros c Hcc; rewrite Hmap by done; by apply Hcy].
    rewrite <- (bo_rd _ _ Ho). apply rd_ext. intros c Hcc. cbn in Hcc. apply Hmap. unfold BLOCK in *. lia.
  - unfold apart, disjoint_range. cbn. unfold BLOCK in *.
    destruct (Z_lt_le_dec (k_at y) (r + block_bytes size)); [|by left]. right.
    destruct (Z_le_gt_dec (k_at y + total_size (k_b y)) r) as [|Hgt]; [done|exfalso].
    destruct (Hcy (Z.max r (k_at y))) as (v & Hv & _); [lia|]. rewrite Hfree in Hv by lia. done.
  - intros i Hi. unfold taken. rewrite Hmap; [done|]. pose proof (bitmap_bounds _ _ _ Ho Hi).
    pose proof (bo_size _ _ Ho). unfold BLOCK in *. lia.
Qed.

Lemma new_taken i : 0 <= i < slot_count size -> taken m' (k_b x) i <-> i = 0.
Proof using Hs Hg Hone Hzero.
  intros Hi. unfold good_size in Hg. apply Z.leb_le in Hg. unfold taken. cbn [k_b x bitmap new_block].
  assert (i / 8 < bitmap_bytes size) by (apply Z.div_lt_upper_bound; lia).
  pose proof (Z.div_pos i 8 ltac:(lia) ltac:(lia)). destruct (Z.eq_dec (i / 8) 0) as [Hi0|Hi0].
  - rewrite Hi0, Z.add_0_r, Hone. split.
    + intros (v & [= <-] & Ht). destruct (Z.eq_dec (i mod 8) 0); [dlia|].
      rewrite (Z.bits_above_log2 1) in Ht; [done|lia|]. cbn. pose proof (Z.mod_pos_bound i 8). lia.
    + intros ->. by exists 1.
  - rewrite Hzero by lia. split.
    + intros (v & [= <-] & Ht). by rewrite Z.bits_0 in Ht.
    + intros ->. done.
Qed.

Lemma add_block_spec : pool_ok (Pool m' r) (x :: bs) /\
  (forall p n, live m' (x :: bs) p n <-> live (pm s) bs p n \/ (p = slots (k_b x) /\ n = size)) /\
  forall q k, live (pm s) bs q k -> disjoint_range (slots (k_b x)) size q k.
Proof.
  pose proof new_block_ok as Hx. pose proof (bo_bits _ _ Hx) as Hbits. cbn in Hbits. split_and!.
  - split; cbn [pm memory_pool].
    + split; [done|]. apply Hp.
    + constructor; [done|]. apply list.Forall_forall. intros y Hy. by apply old_block.
    + constructor; [|apply Hp]. apply Forall_forall. intros y Hy%list_elem_of_In. by apply old_block.
  - intros p n. split.
    + intros (y & i & [->|Hy]%elem_of_cons & Hi & Ht & -> & ->).
      * right. apply new_taken in Ht as ->; [|done]. unfold slot. cbn. lia.
      * left. exists y, i. apply (old_block y Hy) in Ht; [|done]. done.
    + intros [(y & i & Hy & Hi & Ht & -> & ->)|[-> ->]].
      * exists y, i. refine (conj _ (conj Hi (conj _ (conj eq_refl eq_refl)))); [by right|]. by apply (old_block y Hy).
      * exists x, 0. refine (conj _ (conj _ (conj _ (conj _ eq_refl)))); [by left|cbn; lia|apply new_taken; [lia|done]|unfold slot; cbn; lia].
  - intros q k (y & i & Hy & Hi & _ & -> & ->). destruct (old_block y Hy) as (_ & Ha & _).
    pose proof (slot_bounds _ _ _ (member_ok _ _ _ Hp Hy) Hi). pose proof (slot_bounds _ _ 0 Hx ltac:(cbn; lia)) as Hs0.
    pose proof (bo_bits _ _ (member_ok _ _ _ Hp Hy)).
    unfold slot in Hs0 at 1 2. unfold apart, disjoint_range, BLOCK in *. cbn in *. lia.
Qed.
End add_block.

(** ** The allocator in terms of its allocations

    [pool_of s L]: the live allocations of the pool are the pairs of a pointer
    and a size in [L]. *)

Definition pool_of (s : pool) (L : gset (Z * Z)) : Prop :=
  exists bs, pool_ok s bs /\ forall p n, live (pm s) bs p n <-> (p, n) ∈ L.

(** The bytes of the allocations in [L] are the same in both memories. *)
Definition keeps (L : gset (Z * Z)) (m m' : mem) : Prop :=
  forall p n, (p, n) ∈ L -> forall c, p <= c < p + n -> m' !! c = m !! c.

Section specs.
Context {K : Kernel}.

Lemma chained_word s bs : pool_ok s bs -> in_u 64 (memory_pool s).
Proof.
  intros Hp. pose proof (po_chain _ _ Hp) as Hc. destruct bs as [|x bs]; cbn in Hc; [by rewrite Hc|].
  destruct Hc as [-> _]. pose proof (member_ok _ _ x Hp ltac:(by left)) as Ho.
  pose proof (slot_bounds _ _ 0 Ho ltac:(destruct Ho; lia)). destruct Ho. unfold in_u, BLOCK in *. lia.
Qed.

Lemma mini_malloc_big s bs size : pool_ok s bs -> size = 0 \/ 2048 < size -> mini_malloc s size = Ret (0, s).
Proof.
  intros Hp Hs. unfold mini_malloc. destruct (Z.eqb_spec size 0); [done|].
  destruct (scan_blocks_spec s bs Hp size (loop_fuel (pm s)) (memory_pool s) bs) as [->|(x & j & v & Hx & He & _)];
    [apply Hp|done|by apply pool_fuel| |].
  - cbn [obind]. unfold allocate_block. rewrite Z.gtb_ltb. change (PAGE_SIZE / 2) with 2048.
    destruct (Z.ltb_spec 2048 size); [|lia]. rewrite orb_true_r. cbn. by destruct s.
  - pose proof (bo_size _ _ (member_ok _ _ _ Hp Hx)) as Hb. change (PAGE_SIZE / 2) with 2048 in Hb. lia.
Qed.

Lemma mini_malloc_spec s bs size : pool_ok s bs -> 0 < size <= 2048 -> good_size size = true ->
  exists p s', mini_malloc s size = Ret (p, s') /\ (p = 0 /\ s' = s \/ exists bs',
    0 < p /\ pool_ok s' bs' /\
    (forall q n, live (pm s') bs' q n <-> live (pm s) bs q n \/ (q = p /\ n = size)) /\
    forall q k, live (pm s) bs q k -> disjoint_range p size q k /\
      forall c, q <= c < q + k -> pm s' !! c = pm s !! c).
Proof.
  intros Hp Hs Hg. unfold mini_malloc. destruct (Z.eqb_spec size 0); [lia|].
  destruct (scan_blocks_spec s bs Hp size (loop_fuel (pm s)) (memory_pool s) bs)
    as [->|(x & j & v & Hx & <- & Hj & Hv & Hb & Hbit & ->)]; [apply Hp|done|by apply pool_fuel| |]; cbn [obind].
  - destruct (allocate_block_spec (pm s) size Hs) as (r & m1 & -> & [[-> ->]|(Hr & He & Hrd & Hc & Hz & Hf & Ho)]); cbn [obind].
    { do 2 eexists. split; [done|]. left. by destruct s. }
    pose proof (geometry size Hs) as Hgeo. destruct (Z.eqb_spec r 0); [lia|].
    destruct (upd_spec m1 r (fun b => MkBlock (memory_pool s) (slots b) (slot_size b) (slots_per_block b)
      (bitmap b) (bitmap_size b) (total_size b)) (new_block size r 0)) as (m2 & -> & Hrd2 & Ht); [done| | |].
    { apply new_block_wf; [done..|]. by eapply chained_word. }
    { eapply cells_sub; [exact Hc|lia|]. cbn. unfold BLOCK in *. lia. }
    cbn [obind]. rewrite Hrd2. cbn [obind bitmap new_block slots].
    assert (Hz2 : forall c, r + BLOCK <= c < r + BLOCK + bitmap_bytes size -> m2 !! c = Some 0).
    { intros c Hcc. rewrite (proj1 Ht) by (cbn; unfold BLOCK in *; lia). by apply Hz. }
    unfold load8, store8. rewrite Hz2 by lia. cbn [obind]. change (u8 (Z.lor 0 1)) with 1.
    pose proof (touched_byte m2 (r + BLOCK) 0 1 (Hz2 (r + BLOCK) ltac:(lia)) ltac:(unfold byte; lia)) as Ht2.
    destruct (add_block_spec s bs size r (<[r + BLOCK := 1]> m2) Hp Hs Hg Hr He) as (Hok & Hlive & Hdis).
    + etransitivity; [|exact Hrd2]. apply rd_ext. intros y Hy. cbn in Hy. apply lookup_insert_ne. unfold BLOCK. lia.
    + eapply touched_cells; [exact Ht2|]. by eapply touched_cells.
    + by rewrite lookup_insert_eq.
    + intros c Hcc. rewrite lookup_insert_ne by lia. apply Hz2. lia.
    + done.
    + intros c Hcc. unfold BLOCK in *. rewrite lookup_insert_ne, (proj1 Ht), Ho by (cbn; lia). done.
    + do 2 eexists. split; [done|]. right. eexists. split_and!; [|exact Hok|exact Hlive|].
      { unfold BLOCK in *. lia. }
      intros q k Hq. split; [by apply Hdis|]. intros c Hcc. cbn [pm].
      destruct (live_cells _ _ _ _ Hp Hq) as (_ & _ & Hcq). destruct (Hcq c Hcc) as (w & Hw & _).
      eapply old_bytes; [exact Hf| |by eexists]. intros d Hd. unfold BLOCK in *.
      rewrite lookup_insert_ne, (proj1 Ht), Ho by (cbn; lia). done.
  - do 2 eexists. split; [done|]. right. exists bs.
    destruct (take_slot s bs x j v Hp Hx Hj Hv Hb) as [Hok Hlive]. split_and!; [|exact Hok|exact Hlive|].
    + pose proof (slot_bounds _ _ _ (member_ok _ _ _ Hp Hx) Hj). destruct (member_ok _ _ _ Hp Hx). unfold BLOCK in *. lia.
    + intros q k Hq. split; [|by apply (bitmap_write_live s bs x j _ Hp Hx Hj); left].
      destruct (live_apart _ _ (slot x j) (slot_size (k_b x)) q k Hok) as [[= <- <-]|]; [by apply Hlive; right|by apply Hlive; left| |done].
      exfalso. destruct Hq as (y & i & Hy & Hi & (u & Hu & Htk) & Hsl & _).
      destruct (slot_inj s bs x j Hp Hx Hj y i Hy Hi (eq_sym Hsl)) as [-> ->]. rewrite Hv in Hu. injection Hu as <-. congruence.
Qed.
End specs.

(** ** Theorems *)

Section theorems.
Context {K : Kernel}.

(** C22: [mini_malloc] on a pool with the allocations [L].  For a size of 1 to
    2048 bytes whose bitmap covers its slots ([good_size]: all but the twenty
    sizes that [bad_sizes] lists, the largest of them 109) it either returns the null
    pointer with the pool unchanged (the kernel has no memory) or a pointer to
    memory that overlaps no allocation of [L]; the pool then has exactly the
    allocations [L] and the new one, and the bytes of [L] are kept.  For every
    other size than 1 to 2048 it returns the null pointer. *)
Theorem mini_malloc_correct s L size : pool_of s L ->
  (0 < size <= 2048 -> good_size size = true ->
   exists p s', mini_malloc s size = Ret (p, s') /\ (p = 0 /\ s' = s \/
     0 < p /\ pool_of s' ({[(p, size)]} ∪ L) /\ cells (pm s') p size /\ keeps L (pm s) (pm s') /\
     forall q k, (q, k) ∈ L -> disjoint_range p size q k)) /\
  (size = 0 \/ 2048 < size -> mini_malloc s size = Ret (0, s)).
Proof.
  intros (bs & Hp & HL). split; [|by eapply mini_malloc_big]. intros Hs Hg.
  destruct (mini_malloc_spec s bs size Hp Hs Hg) as (p & s' & -> & H). do 2 eexists. split; [done|].
  destruct H as [H|(bs' & Hpos & Hp' & Hl & Hk)]; [by left|right].
  assert (Hnew : live (pm s') bs' p size) by (apply Hl; by right). split_and!; [done| | | |].
  - exists bs'. split; [done|]. intros q n. rewrite Hl, HL, elem_of_union, elem_of_singleton. split.
    + intros [H|[-> ->]]; [by right|by left].
    + intros [[= -> ->]|H]; [by right|by left].
  - by apply (live_cells _ _ _ _ Hp' Hnew).
  - intros q n Hq. apply HL in Hq. by apply (Hk q n Hq).
  - intros q k Hq. apply HL in Hq. by apply (Hk q k Hq).
Qed.

(** [mini_free] of an allocation of the pool returns, the pool then has
    the other allocations, and their bytes are kept: no other slot is released
    or lost. *)
Theorem mini_free_correct s L p n : pool_of s L -> (p, n) ∈ L ->
  exists s', mini_free s p = Ret s' /\ pool_of s' (L ∖ {[(p, n)]}) /\ keeps L (pm s) (pm s').
Proof.
  intros (bs & Hp & HL) (x & j & Hx & Hj & Ht & -> & ->)%HL. unfold mini_free.
  destruct (free_loop_spec s bs Hp (loop_fuel (pm s)) (memory_pool s) bs x j) as (v & Hv & Hb & ->);
    [apply Hp|done|by apply pool_fuel|done|done|]. cbn [obind]. eexists. split; [done|].
  destruct (release_slot s bs x j v Hp Hx Hj Hv Hb) as [Hok Hlive]. split.
  - exists bs. split; [done|]. intros q k. rewrite Hlive, HL, elem_of_difference, elem_of_singleton. split.
    + intros [H Hne]. split; [done|]. by intros [= -> ->].
    + intros [H Hne]. split; [done|]. intros ->. apply Hne. f_equal. apply HL in H as (y & i & Hy & Hi & _ & He & ->).
      by destruct (slot_inj s bs x j Hp Hx Hj y i Hy Hi (eq_sym He)) as [-> _].
  - intros q k Hq c Hc. cbn [pm]. apply (bitmap_write_live s bs x j _ Hp Hx Hj q k); [left; by apply HL|done].
Qed.
End theorems.

(** ** Slot sizes whose bitmap is too small *)

Lemma scan_slots_taken k n m b i : (forall j, i <= j < i + Z.of_nat k ->
    u64 (bitmap b + j / 8) = bitmap b + j / 8 /\ taken m b j) ->
  scan_slots (k + n) m b i = scan_slots n m b (i + Z.of_nat k).
Proof.
  revert i. induction k as [|k IH]; intros i H; cbn [scan_slots Nat.add]; [f_equal; lia|].
  destruct (H i ltac:(lia)) as (-> & v & Hv & Ht). unfold load8. rewrite Hv. cbn [obind].
  destruct (Z.eqb_spec (Z.land v (bit_of i)) 0) as [Hc|_]; [apply bit_clear in Hc; congruence|].
  rewrite IH; [f_equal; lia|]. intros j Hj. apply H. lia.
Qed.

Section overrun.
Context {K : Kernel}.

(** For a slot size of 109 bytes a block has 74 slots and a bitmap of 64
    bits.  When the 64 slots of the bitmap are taken, the next allocation
    looks for its bit in the first byte of slot 0, which is in use: it changes
    that byte of the allocation and hands out slot 64. *)
Theorem mini_malloc_bitmap_overrun m r nx v (b := new_block 109 r nx) :
  0 < r -> r + 8192 < 2 ^ 63 -> rd m r = Ret b -> bytes_at m (bitmap b) (replicate 8 255) ->
  m !! slots b = Some v -> byte v -> Z.testbit v 0 = false ->
  taken m b 0 /\
  mini_malloc (Pool m r) 109 = Ret (slots b + 64 * 109, Pool (<[slots b := v + 1]> m) r).
Proof.
  intros Hr He Hrd Hbm Hv Hb Ht.
  assert (Hall : forall j, 0 <= j < 64 -> u64 (bitmap b + j / 8) = bitmap b + j / 8 /\ taken m b j).
  { intros j Hj. assert (0 <= j / 8 < 8) by dlia. split; [apply uw_small; cbn; unfold BLOCK; lia|].
    exists 255. split.
    - replace (j / 8) with (Z.of_nat (Z.to_nat (j / 8))) by lia. apply (bytes_at_lookup _ _ _ _ _ Hbm).
      apply lookup_replicate_2. lia.
    - pose proof (Z.mod_pos_bound j 8 ltac:(lia)). change 255 with (Z.ones 8). rewrite Z.testbit_ones by lia.
      destruct (Z.leb_spec 0 (j mod 8)), (Z.ltb_spec (j mod 8) 8); lia. }
  split; [by apply Hall|]. unfold mini_malloc. cbn [Z.eqb pm memory_pool].
  assert (Hf : loop_fuel m = S (size m)) by done. rewrite Hf. cbn [scan_blocks].
  destruct (Z.eqb_spec r 0); [lia|]. rewrite Hrd. cbn [obind].
  change (slot_size b =? 109) with true. cbv iota. change (Z.to_nat (slots_per_block b)) with (64 + 10)%nat.
  rewrite scan_slots_taken by (intros j Hj; apply Hall; lia). cbn [scan_slots].
  change (bitmap b + (0 + Z.of_nat 64) / 8) with (r + 56 + 8). change (slots b) with (r + 64) in *.
  rewrite uw_small by lia. replace (r + 56 + 8) with (r + 64) by lia. unfold load8, store8. rewrite Hv. cbn [obind].
  change (bit_of (0 + Z.of_nat 64)) with 1.
  assert (Hl : Z.land v 1 = 0). { apply (bit_clear v 0). done. }
  rewrite Hl. cbn [Z.eqb]. cbn [obind]. change (slot_size b) with 109. change (0 + Z.of_nat 64) with 64.
  rewrite (uw_small 64) by lia. rewrite lor_disjoint by done. rewrite (uw_small 8); [done|].
  rewrite <- lor_disjoint by done. by apply (set_bit_byte v 0).
Qed.
End overrun.

(** ** Examples *)

Lemma pool_init m : pool_of (Pool m 0) ∅.
Proof.
  exists []. split; [split; cbn; [done|constructor|constructor]|].
  intros p n. rewrite elem_of_empty. split; [|done]. by intros (x & i & ?%elem_of_nil & _).
Qed.

(** A pool of one block, whose first slot of 400 bytes is allocated. *)
Lemma pool_in_use : exists s p, pool_of s {[(p, 400)]}.
Proof.
  set (m0 := write_bytes ∅ 4096 (replicate (Z.to_nat 4096) 0)).
  assert (Hc0 : cells m0 4096 4096) by (apply cells_zeros; lia).
  destruct (wr_spec m0 4096 (new_block 400 4096 0)) as (m1 & _ & Hr & Ht).
  { apply new_block_wf; [lia|lia|by vm_compute|done]. }
  { eapply cells_sub; [exact Hc0|lia|cbn; lia]. }
  assert (Hz : forall c, 4096 + 56 <= c < 8192 -> m1 !! c = Some 0).
  { intros c Hc. rewrite (proj1 Ht) by (cbn; lia). unfold m0. rewrite lookup_write_bytes, length_replicate, decide_True by lia.
    apply lookup_replicate_2. lia. }
  assert (Ht2 : touched (4096 + 56) 1 m1 (<[4096 + 56 := 1]> m1)).
  { eapply touched_byte; [apply Hz; lia|unfold byte; lia]. }
  destruct (add_block_spec (Pool ∅ 0) [] 400 4096 (<[4096 + 56 := 1]> m1)) as (Hok & Hl & _); try done.
  - by split; [|constructor|constructor].
  - etransitivity; [|exact Hr]. apply rd_ext. intros y Hy. cbn in Hy. apply lookup_insert_ne. lia.
  - eapply touched_cells; [exact Ht2|]. by eapply touched_cells.
  - apply lookup_insert_eq.
  - intros c Hc. change (bitmap_bytes 400) with 8 in Hc. unfold BLOCK in Hc.
    rewrite lookup_insert_ne by lia. apply Hz. lia.
  - intros c Hc. change (block_bytes 400) with 4096 in Hc. cbn [pm]. rewrite lookup_insert_ne, (proj1 Ht) by (cbn; lia).
    unfold m0. rewrite lookup_write_bytes_out by (rewrite length_replicate; lia). done.
  - do 2 eexists. eexists. split; [exact Hok|]. intros p n. cbn [pm]. rewrite Hl, elem_of_singleton.
    split; [intros [(? & ? & ?%elem_of_nil & _)|[-> ->]]; done|]. intros [= -> ->]. by right.
Qed.

Lemma mini_malloc_witness : good_size 400 = true /\
  exists p s', mini_malloc (K := bump_kernel) (Pool ∅ 0) 400 = Ret (p, s') /\ (p = 0 /\ s' = Pool ∅ 0 \/
    0 < p /\ pool_of s' ({[(p, 400)]} ∪ ∅) /\ cells (pm s') p 400 /\ keeps ∅ ∅ (pm s') /\
    forall q k, (q, k) ∈ (∅ : gset (Z * Z)) -> disjoint_range p 400 q k).
Proof.
  split; [vm_compute; reflexivity|].
  apply (mini_malloc_correct (K := bump_kernel) (Pool ∅ 0) ∅ 400 (pool_init ∅)); [lia|vm_compute; reflexivity].
Defined.

Lemma mini_free_witness : exists s p, pool_of s {[(p, 400)]} /\
  exists s', mini_free s p = Ret s' /\ pool_of s' ({[(p, 400)]} ∖ {[(p, 400)]}) /\ keeps {[(p, 400)]} (pm s) (pm s').
Proof.
  destruct pool_in_use as (s & p & Hs). exists s, p. split; [exact Hs|].
  apply (mini_free_correct s _ p 400 Hs). by apply elem_of_singleton.
Defined.

Definition full_block : MemoryBlock := new_block 109 4096 0.
Definition full_pool : mem :=
  write_bytes ∅ 4096 (enc_fields (widths (A := MemoryBlock)) (to_fields full_block) ++ replicate 8 255 ++ [0]).

Lemma bitmap_overrun_witness : taken full_pool full_block 0 /\
  mini_malloc (K := bump_kernel) (Pool full_pool 4096) 109
    = Ret (slots full_block + 64 * 109, Pool (<[slots full_block := 0 + 1]> full_pool) 4096).
Proof.
  apply (mini_malloc_bitmap_overrun (K := bump_kernel) full_pool 4096 0 0); try (vm_compute; reflexivity).
  - apply bytes_at_checked. vm_compute. reflexivity.
  - unfold byte. lia.
Defined.
