(* ===== verification/DlInfo.v ===== *)
(** * The object list of the dynamic loader: data

    [struct ElfInfo] of [src/Userspace/libc/interpreter/load.c] with its
    layout in memory (amd64, 400 bytes), and the assignments to its members. *)

From S2P Require Import Prelude CMem CStruct DlElf.

Record Table := MkTable {
  PLTGOT : Z; HASH : Z; STRTAB : Z; SYMTAB : Z; RELA : Z; REL : Z; TEXTREL : Z; JMPREL : Z; BIND_NOW : Z; INIT
  : Z; FINI : Z; RPATH : Z; SYMBOLIC : Z; INIT_ARRAY : Z; FINI_ARRAY : Z; PREINIT_ARRAY : Z; RUNPATH : Z;
  FLAGS : Z }.

Record Sizes := MkSizes {
  PLTRELSZ : Z; RELASZ : Z; RELAENT : Z; STRSZ : Z; SYMENT : Z; RELSZ : Z; RELENT : Z; PLTREL : Z;
  INIT_ARRAYSZ : Z; FINI_ARRAYSZ : Z; PREINIT_ARRAYSZ : Z }.

(** [Flags] is a byte, followed by seven bytes of padding. *)
Record ElfInfo := MkElfInfo {
  Header : Elf64_Ehdr; DynamicHeader : Elf64_Phdr; BaseAddress : Z; Dynamic : Z; Path : Z;
  DynamicTable : Table; DynamicSize : Sizes; Flags : Z; flags_pad : Z; prev : Z; next : Z }.

#[export, refine] Instance table_layout : Layout Table := {|
  widths := replicate 18 8%nat;
  to_fields t := let '(MkTable x0 x1 x2 x3 x4 x5 x6 x7 x8 x9 x10 x11 x12 x13 x14 x15 x16 x17) := t in
    [x0; x1; x2; x3; x4; x5; x6; x7; x8; x9; x10; x11; x12; x13; x14; x15; x16; x17];
  of_fields l := let v i := nth i l 0 in
    (MkTable (v 0) (v 1) (v 2) (v 3) (v 4) (v 5) (v 6) (v 7) (v 8) (v 9) (v 10) (v 11) (v 12) (v 13) (v 14) (v
    15) (v 16) (v 17))%nat |}.
Proof. all: layout_laws. Defined.

#[export, refine] Instance sizes_layout : Layout Sizes := {|
  widths := replicate 11 8%nat;
  to_fields t := let '(MkSizes x0 x1 x2 x3 x4 x5 x6 x7 x8 x9 x10) := t in
    [x0; x1; x2; x3; x4; x5; x6; x7; x8; x9; x10];
  of_fields l := let v i := nth i l 0 in
    (MkSizes (v 0) (v 1) (v 2) (v 3) (v 4) (v 5) (v 6) (v 7) (v 8) (v 9) (v 10))%nat |}.
Proof. all: layout_laws. Defined.

#[export, refine] Instance info_layout : Layout ElfInfo := {|
  widths := widths (A := Elf64_Ehdr) ++ widths (A := Elf64_Phdr) ++ [8; 8; 8]%nat ++
    widths (A := Table) ++ widths (A := Sizes) ++ [1; 7; 8; 8]%nat;
  to_fields i := let '(MkElfInfo h p b d a t s f g u w) := i in
    to_fields h ++ to_fields p ++ [b; d; a] ++ to_fields t ++ to_fields s ++ [f; g; u; w];
  of_fields l := let v i := nth i l 0 in
    (MkElfInfo (of_fields (take 23 l)) (of_fields (take 8 (drop 23 l))) (v 31) (v 32) (v 33)
       (of_fields (take 18 (drop 34 l))) (of_fields (take 11 (drop 52 l))) (v 63) (v 64) (v 65) (v 66))%nat |}.
Proof. all: first [ by intros [[[]] [] ? ? ? [] []] | layout_laws ]. Defined.

Lemma sizeof_ElfInfo : sizeof (A := ElfInfo) = 400%nat.
Proof. reflexivity. Qed.

(** ** Assignments *)

Definition set_header (h : Elf64_Ehdr) (i : ElfInfo) : ElfInfo :=
  MkElfInfo h (DynamicHeader i) (BaseAddress i) (Dynamic i) (Path i) (DynamicTable i) (DynamicSize i)
    (Flags i) (flags_pad i) (prev i) (next i).
Definition set_dynamic_header (h : Elf64_Phdr) (i : ElfInfo) : ElfInfo :=
  MkElfInfo (Header i) h (BaseAddress i) (Dynamic i) (Path i) (DynamicTable i) (DynamicSize i)
    (Flags i) (flags_pad i) (prev i) (next i).
Definition set_base (a : Z) (i : ElfInfo) : ElfInfo :=
  MkElfInfo (Header i) (DynamicHeader i) a (Dynamic i) (Path i) (DynamicTable i) (DynamicSize i)
    (Flags i) (flags_pad i) (prev i) (next i).
Definition set_dynamic (a : Z) (i : ElfInfo) : ElfInfo :=
  MkElfInfo (Header i) (DynamicHeader i) (BaseAddress i) a (Path i) (DynamicTable i) (DynamicSize i)
    (Flags i) (flags_pad i) (prev i) (next i).
Definition set_path (a : Z) (i : ElfInfo) : ElfInfo :=
  MkElfInfo (Header i) (DynamicHeader i) (BaseAddress i) (Dynamic i) a (DynamicTable i) (DynamicSize i)
    (Flags i) (flags_pad i) (prev i) (next i).
Definition set_table (t : Table) (i : ElfInfo) : ElfInfo :=
  MkElfInfo (Header i) (DynamicHeader i) (BaseAddress i) (Dynamic i) (Path i) t (DynamicSize i)
    (Flags i) (flags_pad i) (prev i) (next i).
Definition set_sizes (z : Sizes) (i : ElfInfo) : ElfInfo :=
  MkElfInfo (Header i) (DynamicHeader i) (BaseAddress i) (Dynamic i) (Path i) (DynamicTable i) z
    (Flags i) (flags_pad i) (prev i) (next i).
(** [Flags.Relocated], the lowest bit. *)
Definition set_relocated (i : ElfInfo) : ElfInfo :=
  MkElfInfo (Header i) (DynamicHeader i) (BaseAddress i) (Dynamic i) (Path i) (DynamicTable i) (DynamicSize i)
    (Z.lor (Flags i) 1) (flags_pad i) (prev i) (next i).
Definition set_prev (a : Z) (i : ElfInfo) : ElfInfo :=
  MkElfInfo (Header i) (DynamicHeader i) (BaseAddress i) (Dynamic i) (Path i) (DynamicTable i) (DynamicSize i)
    (Flags i) (flags_pad i) a (next i).
Definition set_next (a : Z) (i : ElfInfo) : ElfInfo :=
  MkElfInfo (Header i) (DynamicHeader i) (BaseAddress i) (Dynamic i) (Path i) (DynamicTable i) (DynamicSize i)
    (Flags i) (flags_pad i) (prev i) a.

Definition Relocated (i : ElfInfo) : bool := Z.testbit (Flags i) 0.

Definition set_PLTGOT (v : Z) (i : ElfInfo) : ElfInfo := let t := DynamicTable i in
  set_table (MkTable v (HASH t) (STRTAB t) (SYMTAB t) (RELA t) (REL t) (TEXTREL t) (JMPREL t) (BIND_NOW t)
    (INIT t) (FINI t) (RPATH t) (SYMBOLIC t) (INIT_ARRAY t) (FINI_ARRAY t) (PREINIT_ARRAY t) (RUNPATH t)
    (FLAGS t)) i.
Definition set_HASH (v : Z) (i : ElfInfo) : ElfInfo := let t := DynamicTable i in
  set_table (MkTable (PLTGOT t) v (STRTAB t) (SYMTAB t) (RELA t) (REL t) (TEXTREL t) (JMPREL t) (BIND_NOW t)
    (INIT t) (FINI t) (RPATH t) (SYMBOLIC t) (INIT_ARRAY t) (FINI_ARRAY t) (PREINIT_ARRAY t) (RUNPATH t)
    (FLAGS t)) i.
Definition set_STRTAB (v : Z) (i : ElfInfo) : ElfInfo := let t := DynamicTable i in
  set_table (MkTable (PLTGOT t) (HASH t) v (SYMTAB t) (RELA t) (REL t) (TEXTREL t) (JMPREL t) (BIND_NOW t)
    (INIT t) (FINI t) (RPATH t) (SYMBOLIC t) (INIT_ARRAY t) (FINI_ARRAY t) (PREINIT_ARRAY t) (RUNPATH t)
    (FLAGS t)) i.
Definition set_SYMTAB (v : Z) (i : ElfInfo) : ElfInfo := let t := DynamicTable i in
  set_table (MkTable (PLTGOT t) (HASH t) (STRTAB t) v (RELA t) (REL t) (TEXTREL t) (JMPREL t) (BIND_NOW t)
    (INIT t) (FINI t) (RPATH t) (SYMBOLIC t) (INIT_ARRAY t) (FINI_ARRAY t) (PREINIT_ARRAY t) (RUNPATH t)
    (FLAGS t)) i.
Definition set_RELA (v : Z) (i : ElfInfo) : ElfInfo := let t := DynamicTable i in
  set_table (MkTable (PLTGOT t) (HASH t) (STRTAB t) (SYMTAB t) v (REL t) (TEXTREL t) (JMPREL t) (BIND_NOW t)
    (INIT t) (FINI t) (RPATH t) (SYMBOLIC t) (INIT_ARRAY t) (FINI_ARRAY t) (PREINIT_ARRAY t) (RUNPATH t)
    (FLAGS t)) i.
Definition set_REL (v : Z) (i : ElfInfo) : ElfInfo := let t := DynamicTable i in
  set_table (MkTable (PLTGOT t) (HASH t) (STRTAB t) (SYMTAB t) (RELA t) v (TEXTREL t) (JMPREL t) (BIND_NOW
    t) (INIT t) (FINI t) (RPATH t) (SYMBOLIC t) (INIT_ARRAY t) (FINI_ARRAY t) (PREINIT_ARRAY t) (RUNPATH t)
    (FLAGS t)) i.
Definition set_TEXTREL (v : Z) (i : ElfInfo) : ElfInfo := let t := DynamicTable i in
  set_table (MkTable (PLTGOT t) (HASH t) (STRTAB t) (SYMTAB t) (RELA t) (REL t) v (JMPREL t) (BIND_NOW t)
    (INIT t) (FINI t) (RPATH t) (SYMBOLIC t) (INIT_ARRAY t) (FINI_ARRAY t) (PREINIT_ARRAY t) (RUNPATH t)
    (FLAGS t)) i.
Definition set_JMPREL (v : Z) (i : ElfInfo) : ElfInfo := let t := DynamicTable i in
  set_table (MkTable (PLTGOT t) (HASH t) (STRTAB t) (SYMTAB t) (RELA t) (REL t) (TEXTREL t) v (BIND_NOW t)
    (INIT t) (FINI t) (RPATH t) (SYMBOLIC t) (INIT_ARRAY t) (FINI_ARRAY t) (PREINIT_ARRAY t) (RUNPATH t)
    (FLAGS t)) i.
Definition set_BIND_NOW (v : Z) (i : ElfInfo) : ElfInfo := let t := DynamicTable i in
  set_table (MkTable (PLTGOT t) (HASH t) (STRTAB t) (SYMTAB t) (RELA t) (REL t) (TEXTREL t) (JMPREL t) v
    (INIT t) (FINI t) (RPATH t) (SYMBOLIC t) (INIT_ARRAY t) (FINI_ARRAY t) (PREINIT_ARRAY t) (RUNPATH t)
    (FLAGS t)) i.
Definition set_INIT (v : Z) (i : ElfInfo) : ElfInfo := let t := DynamicTable i in
  set_table (MkTable (PLTGOT t) (HASH t) (STRTAB t) (SYMTAB t) (RELA t) (REL t) (TEXTREL t) (JMPREL t)
    (BIND_NOW t) v (FINI t) (RPATH t) (SYMBOLIC t) (INIT_ARRAY t) (FINI_ARRAY t) (PREINIT_ARRAY t) (RUNPATH t)
    (FLAGS t)) i.
Definition set_FINI (v : Z) (i : ElfInfo) : ElfInfo := let t := DynamicTable i in
  set_table (MkTable (PLTGOT t) (HASH t) (STRTAB t) (SYMTAB t) (RELA t) (REL t) (TEXTREL t) (JMPREL t)
    (BIND_NOW t) (INIT t) v (RPATH t) (SYMBOLIC t) (INIT_ARRAY t) (FINI_ARRAY t) (PREINIT_ARRAY t) (RUNPATH t)
    (FLAGS t)) i.
Definition set_RPATH (v : Z) (i : ElfInfo) : ElfInfo := let t := DynamicTable i in
  set_table (MkTable (PLTGOT t) (HASH t) (STRTAB t) (SYMTAB t) (RELA t) (REL t) (TEXTREL t) (JMPREL t)
    (BIND_NOW t) (INIT t) (FINI t) v (SYMBOLIC t) (INIT_ARRAY t) (FINI_ARRAY t) (PREINIT_ARRAY t) (RUNPATH t)
    (FLAGS t)) i.
Definition set_SYMBOLIC (v : Z) (i : ElfInfo) : ElfInfo := let t := DynamicTable i in
  set_table (MkTable (PLTGOT t) (HASH t) (STRTAB t) (SYMTAB t) (RELA t) (REL t) (TEXTREL t) (JMPREL t)
    (BIND_NOW t) (INIT t) (FINI t) (RPATH t) v (INIT_ARRAY t) (FINI_ARRAY t) (PREINIT_ARRAY t) (RUNPATH t)
    (FLAGS t)) i.
Definition set_INIT_ARRAY (v : Z) (i : ElfInfo) : ElfInfo := let t := DynamicTable i in
  set_table (MkTable (PLTGOT t) (HASH t) (STRTAB t) (SYMTAB t) (RELA t) (REL t) (TEXTREL t) (JMPREL t)
    (BIND_NOW t) (INIT t) (FINI t) (RPATH t) (SYMBOLIC t) v (FINI_ARRAY t) (PREINIT_ARRAY t) (RUNPATH t)
    (FLAGS t)) i.
Definition set_FINI_ARRAY (v : Z) (i : ElfInfo) : ElfInfo := let t := DynamicTable i in
  set_table (MkTable (PLTGOT t) (HASH t) (STRTAB t) (SYMTAB t) (RELA t) (REL t) (TEXTREL t) (JMPREL t)
    (BIND_NOW t) (INIT t) (FINI t) (RPATH t) (SYMBOLIC t) (INIT_ARRAY t) v (PREINIT_ARRAY t) (RUNPATH t)
    (FLAGS t)) i.
Definition set_PREINIT_ARRAY (v : Z) (i : ElfInfo) : ElfInfo := let t := DynamicTable i in
  set_table (MkTable (PLTGOT t) (HASH t) (STRTAB t) (SYMTAB t) (RELA t) (REL t) (TEXTREL t) (JMPREL t)
    (BIND_NOW t) (INIT t) (FINI t) (RPATH t) (SYMBOLIC t) (INIT_ARRAY t) (FINI_ARRAY t) v (RUNPATH t) (FLAGS
    t)) i.
Definition set_RUNPATH (v : Z) (i : ElfInfo) : ElfInfo := let t := DynamicTable i in
  set_table (MkTable (PLTGOT t) (HASH t) (STRTAB t) (SYMTAB t) (RELA t) (REL t) (TEXTREL t) (JMPREL t)
    (BIND_NOW t) (INIT t) (FINI t) (RPATH t) (SYMBOLIC t) (INIT_ARRAY t) (FINI_ARRAY t) (PREINIT_ARRAY t) v
    (FLAGS t)) i.
Definition set_FLAGS (v : Z) (i : ElfInfo) : ElfInfo := let t := DynamicTable i in
  set_table (MkTable (PLTGOT t) (HASH t) (STRTAB t) (SYMTAB t) (RELA t) (REL t) (TEXTREL t) (JMPREL t)
    (BIND_NOW t) (INIT t) (FINI t) (RPATH t) (SYMBOLIC t) (INIT_ARRAY t) (FINI_ARRAY t) (PREINIT_ARRAY t)
    (RUNPATH t) v) i.

Definition set_PLTRELSZ (v : Z) (i : ElfInfo) : ElfInfo := let t := DynamicSize i in
  set_sizes (MkSizes v (RELASZ t) (RELAENT t) (STRSZ t) (SYMENT t) (RELSZ t) (RELENT t) (PLTREL t)
    (INIT_ARRAYSZ t) (FINI_ARRAYSZ t) (PREINIT_ARRAYSZ t)) i.
Definition set_RELASZ (v : Z) (i : ElfInfo) : ElfInfo := let t := DynamicSize i in
  set_sizes (MkSizes (PLTRELSZ t) v (RELAENT t) (STRSZ t) (SYMENT t) (RELSZ t) (RELENT t) (PLTREL t)
    (INIT_ARRAYSZ t) (FINI_ARRAYSZ t) (PREINIT_ARRAYSZ t)) i.
Definition set_RELAENT (v : Z) (i : ElfInfo) : ElfInfo := let t := DynamicSize i in
  set_sizes (MkSizes (PLTRELSZ t) (RELASZ t) v (STRSZ t) (SYMENT t) (RELSZ t) (RELENT t) (PLTREL t)
    (INIT_ARRAYSZ t) (FINI_ARRAYSZ t) (PREINIT_ARRAYSZ t)) i.
Definition set_STRSZ (v : Z) (i : ElfInfo) : ElfInfo := let t := DynamicSize i in
  set_sizes (MkSizes (PLTRELSZ t) (RELASZ t) (RELAENT t) v (SYMENT t) (RELSZ t) (RELENT t) (PLTREL t)
    (INIT_ARRAYSZ t) (FINI_ARRAYSZ t) (PREINIT_ARRAYSZ t)) i.
Definition set_SYMENT (v : Z) (i : ElfInfo) : ElfInfo := let t := DynamicSize i in
  set_sizes (MkSizes (PLTRELSZ t) (RELASZ t) (RELAENT t) (STRSZ t) v (RELSZ t) (RELENT t) (PLTREL t)
    (INIT_ARRAYSZ t) (FINI_ARRAYSZ t) (PREINIT_ARRAYSZ t)) i.
Definition set_RELSZ (v : Z) (i : ElfInfo) : ElfInfo := let t := DynamicSize i in
  set_sizes (MkSizes (PLTRELSZ t) (RELASZ t) (RELAENT t) (STRSZ t) (SYMENT t) v (RELENT t) (PLTREL t)
    (INIT_ARRAYSZ t) (FINI_ARRAYSZ t) (PREINIT_ARRAYSZ t)) i.
Definition set_RELENT (v : Z) (i : ElfInfo) : ElfInfo := let t := DynamicSize i in
  set_sizes (MkSizes (PLTRELSZ t) (RELASZ t) (RELAENT t) (STRSZ t) (SYMENT t) (RELSZ t) v (PLTREL t)
    (INIT_ARRAYSZ t) (FINI_ARRAYSZ t) (PREINIT_ARRAYSZ t)) i.
Definition set_PLTREL (v : Z) (i : ElfInfo) : ElfInfo := let t := DynamicSize i in
  set_sizes (MkSizes (PLTRELSZ t) (RELASZ t) (RELAENT t) (STRSZ t) (SYMENT t) (RELSZ t) (RELENT t) v
    (INIT_ARRAYSZ t) (FINI_ARRAYSZ t) (PREINIT_ARRAYSZ t)) i.
Definition set_INIT_ARRAYSZ (v : Z) (i : ElfInfo) : ElfInfo := let t := DynamicSize i in
  set_sizes (MkSizes (PLTRELSZ t) (RELASZ t) (RELAENT t) (STRSZ t) (SYMENT t) (RELSZ t) (RELENT t) (PLTREL
    t) v (FINI_ARRAYSZ t) (PREINIT_ARRAYSZ t)) i.
Definition set_FINI_ARRAYSZ (v : Z) (i : ElfInfo) : ElfInfo := let t := DynamicSize i in
  set_sizes (MkSizes (PLTRELSZ t) (RELASZ t) (RELAENT t) (STRSZ t) (SYMENT t) (RELSZ t) (RELENT t) (PLTREL
    t) (INIT_ARRAYSZ t) v (PREINIT_ARRAYSZ t)) i.
Definition set_PREINIT_ARRAYSZ (v : Z) (i : ElfInfo) : ElfInfo := let t := DynamicSize i in
  set_sizes (MkSizes (PLTRELSZ t) (RELASZ t) (RELAENT t) (STRSZ t) (SYMENT t) (RELSZ t) (RELENT t) (PLTREL
    t) (INIT_ARRAYSZ t) (FINI_ARRAYSZ t) v) i.
