(* ===== verification/DlLoad.v ===== *)
(** * The dynamic loader

    [src/Userspace/libc/interpreter/load.c] and [main.c], amd64.  The state
    [dl] holds the memory with the allocator's pool, the static variables of
    the two files, the stack pointer, and the messages that were printed.
    Stack buffers whose address is passed on ([phdr], [header],
    [fullLibPath]) are taken from the stack; results returned through a
    pointer to a local variable are returned as values.  Structures that the
    code only reads are read as a whole.

    The file and mapping calls of the kernel are the class [DlKernel]; files
    do not change while the loader runs.  String literals have the addresses
    that [lit] gives. *)

From Stdlib Require Import String.
From S2P Require Import Prelude CMem CMonad CStruct LibcErrno KernelMem LibcString DlElf DlHelper DlAlloc DlInfo.

(** ** State and effects *)

Record dl := Dl {
  d_pool : pool;
  elf_list_head : Z;
  aslr_next : Z;
  src1 : Z;
  environ : Z;
  sp : Z;
  out : list string
}.

Definition d_mem (s : dl) : mem := pm (d_pool s).
Definition set_pool (s : dl) (p : pool) : dl := Dl p (elf_list_head s) (aslr_next s) (src1 s) (environ s) (sp s) (out s).
Definition set_mem (s : dl) (m : mem) : dl := set_pool s (Pool m (memory_pool (d_pool s))).
Definition set_head (s : dl) (a : Z) : dl := Dl (d_pool s) a (aslr_next s) (src1 s) (environ s) (sp s) (out s).
Definition set_aslr (s : dl) (a : Z) : dl := Dl (d_pool s) (elf_list_head s) a (src1 s) (environ s) (sp s) (out s).
Definition set_src1 (s : dl) (a : Z) : dl := Dl (d_pool s) (elf_list_head s) (aslr_next s) a (environ s) (sp s) (out s).
Definition set_environ (s : dl) (a : Z) : dl := Dl (d_pool s) (elf_list_head s) (aslr_next s) (src1 s) a (sp s) (out s).
Definition set_sp (s : dl) (a : Z) : dl := Dl (d_pool s) (elf_list_head s) (aslr_next s) (src1 s) (environ s) a (out s).
Definition add_out (s : dl) (f : string) : dl :=
  Dl (d_pool s) (elf_list_head s) (aslr_next s) (src1 s) (environ s) (sp s) (out s ++ [f]).

Abbreviation M := (ST dl).

(** Reading the state and the memory, writing the memory. *)
Definition look {A} (f : mem -> outcome A) : M A := fun s => let! a := f (d_mem s) in Ret (Go a, s).
Definition write (f : mem -> outcome mem) : M unit := fun s => let! m := f (d_mem s) in Ret (Go tt, set_mem s m).
Definition call {A} (f : mem -> outcome (A * mem)) : M A := fun s =>
  let! r := f (d_mem s) in Ret (Go (fst r), set_mem s (snd r)).
Definition syscall (f : mem -> Z * mem) : M Z := call (fun m => Ret (f m)).
Definition fuel_of : M nat := gets (fun s => loop_fuel (d_mem s)).

(** [printf]: the format is recorded. *)
Definition printf (f : string) : M unit := puts (fun s => add_out s f).

(** A buffer of [n] bytes on the stack while [body] runs. *)
Definition with_frame {A} (n : Z) (body : Z -> M A) : M A := fun s =>
  let a := sp s - n in
  let! r := body a (set_sp s a) in
  Ret (fst r, set_sp (snd r) (sp s)).

Definition malloc_m `{Kernel} (n : Z) : M Z := fun s =>
  let! r := mini_malloc (d_pool s) n in Ret (Go (fst r), set_pool s (snd r)).
Definition free_m (p : Z) : M unit := fun s =>
  let! r := mini_free (d_pool s) p in Ret (Go tt, set_pool s r).
Definition strdup_m `{Kernel} (p : Z) : M Z := fun s =>
  let! r := strdup (d_pool s) p in Ret (Go (fst r), set_pool s (snd r)).
Definition strtok_m (src delim : Z) : M Z := fun s =>
  let! r := strtok (d_mem s) src delim (src1 s) in
  let '(p, last, m) := r in Ret (Go p, set_src1 (set_mem s m) last).

(** A division of unsigned numbers faults on a zero divisor. *)
Definition cdiv (a b : Z) : M Z := if b =? 0 then fault else mret (a / b).

(** What the loader asks of the kernel besides memory: a mapping at a given
    address, reading a file, looking up, opening and closing it. *)
Class DlKernel := {
  dl_kernel :: Kernel;
  sys_MapFixed : mem -> Z -> Z -> Z -> Z * mem;
  sys_PRead : mem -> Z -> Z -> Z -> Z -> Z * mem;
  sys_Access : mem -> Z -> Z -> Z;
  sys_Open : mem -> Z -> Z -> Z -> Z;
  sys_Close : Z -> Z
}.

Definition PROT_READ : Z := 1.
Definition PROT_WRITE : Z := 2.
Definition PROT_EXEC : Z := 4.
Definition F_OK : Z := 0.
Definition O_RDONLY : Z := 1.

(** The unsigned value of a negative error number. *)
Definition neg (e : Z) : Z := 2 ^ 64 - e.

Definition INFO : Z := 400.
Definition info_at (a : Z) : M ElfInfo := look (fun m => rd m a).
Definition set_info (a : Z) (f : ElfInfo -> ElfInfo) : M unit := write (fun m => upd m a f).
Definition dyn_at (a i : Z) : M Elf64_Dyn := look (fun m => rd m (a + 16 * i)).

(** ** The list of loaded objects *)

Section list.
Context `{Kernel}.

(** [while (current->next) current = current->next;] *)
Fixpoint last_lib (fuel : nat) (current : Z) : M Z :=
  match fuel with
  | O => no_fuel
  | S fuel => i ← info_at current; if next i =? 0 then mret current else last_lib fuel (next i)
  end.

Definition AllocateLib : M Z :=
  new_node ← malloc_m INFO;
  if new_node =? 0 then printf "Failed to allocate memory for new library\n";; mret 0
  else
    call (fun m => memset m new_node 0 INFO);;
    head ← gets elf_list_head;
    if head =? 0 then puts (fun s => set_head s new_node);; mret new_node
    else
      n ← fuel_of;
      current ← last_lib n head;
      set_info current (set_next new_node);;
      set_info new_node (set_prev current);;
      mret new_node.

Definition FreeLib (node : Z) : M unit :=
  if node =? 0 then mret tt
  else
    i ← info_at node;
    (if negb (prev i =? 0) then set_info (prev i) (set_next (next i))
     else puts (fun s => set_head s (next i)));;
    i ← info_at node;
    (if negb (next i =? 0) then set_info (next i) (set_prev (prev i)) else mret tt);;
    free_m node.

Fixpoint search_lib (fuel : nat) (current path : Z) : M Z :=
  match fuel with
  | O => no_fuel
  | S fuel =>
      if current =? 0 then mret 0
      else
        i ← info_at current;
        c ← look (fun m => strcmp m (Path i) path);
        if c =? 0 then mret current else search_lib fuel (next i) path
  end.

Definition SearchLib (path : Z) : M Z :=
  head ← gets elf_list_head; n ← fuel_of; search_lib n head path.
End list.

(** ** The dynamic table *)

Section tables.
(** The address of [_dl_runtime_resolve]. *)
Context (dl_runtime_resolve : Z).

Definition HandleGOT (Info Offset : Z) : M unit :=
  i ← info_at Info;
  write (fun m => store_le m Offset 8 (Dynamic i));;
  write (fun m => store_le m (Offset + 8) 8 Info);;
  write (fun m => store_le m (Offset + 16) 8 dl_runtime_resolve).

(** The tags whose value is an address inside the object. *)
Definition adjusted (tag : Z) : bool :=
  existsb (Z.eqb tag) [DT_PLTGOT; DT_HASH; DT_STRTAB; DT_SYMTAB; DT_RELA; DT_INIT; DT_FINI; DT_REL; DT_JMPREL;
    DT_INIT_ARRAY; DT_FINI_ARRAY].

Definition AdjustDynamicTable (elem Info : Z) : M unit :=
  e ← dyn_at elem 0;
  if adjusted (d_tag e) then
    i ← info_at Info;
    write (fun m => upd m elem (fun e => MkDyn (d_tag e) (u64 (d_un e + BaseAddress i))))
  else mret tt.

(** The member of [Info] that a tag sets; [None] for the tags that are
    skipped. *)
Definition member_of (tag : Z) : option (Z -> ElfInfo -> ElfInfo) :=
  if tag =? DT_PLTRELSZ then Some set_PLTRELSZ
  else if tag =? DT_PLTGOT then Some set_PLTGOT
  else if tag =? DT_HASH then Some set_HASH
  else if tag =? DT_STRTAB then Some set_STRTAB
  else if tag =? DT_SYMTAB then Some set_SYMTAB
  else if tag =? DT_RELA then Some set_RELA
  else if tag =? DT_RELASZ then Some set_RELASZ
  else if tag =? DT_RELAENT then Some set_RELAENT
  else if tag =? DT_STRSZ then Some set_STRSZ
  else if tag =? DT_SYMENT then Some set_SYMENT
  else if tag =? DT_INIT then Some set_INIT
  else if tag =? DT_FINI then Some set_FINI
  else if tag =? DT_RPATH then Some set_RPATH
  else if tag =? DT_SYMBOLIC then Some set_SYMBOLIC
  else if tag =? DT_REL then Some set_REL
  else if tag =? DT_RELSZ then Some set_RELSZ
  else if tag =? DT_RELENT then Some set_RELENT
  else if tag =? DT_PLTREL then Some set_PLTREL
  else if tag =? DT_TEXTREL then Some set_TEXTREL
  else if tag =? DT_JMPREL then Some set_JMPREL
  else if tag =? DT_BIND_NOW then Some set_BIND_NOW
  else if tag =? DT_INIT_ARRAY then Some set_INIT_ARRAY
  else if tag =? DT_FINI_ARRAY then Some set_FINI_ARRAY
  else if tag =? DT_INIT_ARRAYSZ then Some set_INIT_ARRAYSZ
  else if tag =? DT_FINI_ARRAYSZ then Some set_FINI_ARRAYSZ
  else if tag =? DT_RUNPATH then Some set_RUNPATH
  else if tag =? DT_FLAGS then Some set_FLAGS
  else if tag =? DT_PREINIT_ARRAY then Some set_PREINIT_ARRAY
  else if tag =? DT_PREINIT_ARRAYSZ then Some set_PREINIT_ARRAYSZ
  else None.

Definition CreateInfoTables (elem Info : Z) : M unit :=
  e ← dyn_at elem 0;
  (if d_tag e =? DT_PLTGOT then HandleGOT Info (d_un e) else mret tt);;
  e' ← dyn_at elem 0;
  match member_of (d_tag e) with
  | Some set => set_info Info (set (d_un e'))
  | None => mret tt
  end.

(** The first loop of [ProcessDynamicTable]. *)
Fixpoint process_entries (fuel : nat) (Info i : Z) : M unit :=
  match fuel with
  | O => no_fuel
  | S fuel =>
      inf ← info_at Info;
      let elem := Dynamic inf + 16 * i in
      e ← dyn_at elem 0;
      if d_tag e =? DT_NULL then mret tt
      else AdjustDynamicTable elem Info;; CreateInfoTables elem Info;; process_entries fuel Info (i + 1)
  end.
End tables.

(** ** Symbols *)

Definition GetSymbolAddress (Info SymbolName : Z) : M Z :=
  i ← info_at Info;
  let t := DynamicTable i in
  sym ← look (fun m => find_symbol m SymbolName (HASH t) (SYMTAB t) (STRTAB t));
  if sym =? 0 then mret (neg ENOSYS)
  else
    y ← look (fun m => rd m sym);
    mret (u64 (BaseAddress i + st_value y)).

(** The loop of [ResolveExternalSymbol]. *)
Fixpoint resolve_loop (fuel : nat) (Info symName i symAddress : Z) : M Z :=
  match fuel with
  | O => no_fuel
  | S fuel =>
      if symAddress =? neg ENOSYS then
        inf ← info_at Info;
        dyn ← dyn_at (Dynamic inf) i;
        if d_tag dyn =? DT_NULL then mret symAddress
        else if negb (d_tag dyn =? DT_NEEDED) then resolve_loop fuel Info symName (i + 1) symAddress
        else a ← GetSymbolAddress (d_un dyn) symName; resolve_loop fuel Info symName (i + 1) a
      else mret symAddress
  end.

(** The status and [*symAddress]. *)
Definition ResolveExternalSymbol (Info : Z) (sym : Elf64_Sym) (symName : Z) : M (Z * Z) :=
  n ← fuel_of;
  a ← resolve_loop n Info symName 0 (neg ENOSYS);
  if negb (a =? neg ENOSYS) then mret (0, a)
  else
    printf "%s: Unresolved symbol: %s\n";;
    if negb (ELF_ST_BIND (st_info sym) =? STB_WEAK) then mret (- EINVAL, a) else mret (0, 0).

(** ** Relocations *)

(** The sizes 0, 1, 2, 4 and 8. *)
Definition reloc_width (reloSize : Z) : option nat :=
  if reloSize =? 0 then Some 0%nat
  else if reloSize =? 1 then Some 1%nat
  else if reloSize =? 2 then Some 2%nat
  else if reloSize =? 4 then Some 4%nat
  else if reloSize =? 8 then Some 8%nat
  else None.

(** The status and [*reloc]. *)
Definition ApplyRelocation (Info reloc offset reloSize : Z) : M (Z * Z) :=
  match reloc_width reloSize with
  | Some O => mret (0, reloc)
  | Some w =>
      i ← info_at Info;
      v ← look (fun m => load_le m (u64 (BaseAddress i + offset)) w);
      mret (0, u64 (reloc + v))
  | None => printf "dl: Unsupported size for relocation\n";; mret (- EINVAL, reloc)
  end.

Definition CalculateRelocation (Info reloc offset reloSize : Z) : M Z :=
  match reloc_width reloSize with
  | Some O => mret 0
  | Some w =>
      i ← info_at Info;
      write (fun m => store_le m (u64 (BaseAddress i + offset)) w reloc);;
      mret 0
  | None => printf "dl: Unsupported size for relocation\n";; mret (- EINVAL)
  end.

(** [Rela->r_addend] *)
Definition addend_at (Rela : Z) : M Z := look (fun m => load_le m (Rela + 16) 8).

(** What a relocation type does: its size, the value before the addend, and
    whether the addend is added; [None] is an error. *)
Definition relocation (Info : Z) (rela : Z) (r : Elf64_Rel) (symAddress symSize : Z) : M (option (Z * Z * bool)) :=
  let relType := ELF_R_TYPE (r_info r) in
  if relType =? R_NONE then mret (Some (0, 0, false))
  else if relType =? R_X86_64_64 then mret (Some (8, symAddress, true))
  else if relType =? R_COPY then
    if symAddress =? 0 then printf "dl: Copy undefined weak symbol %d\n";; mret None
    else
      i ← info_at Info;
      call (fun m => memcpy m (u64 (BaseAddress i + r_offset r)) symAddress symSize);;
      mret (Some (0, 0, false))
  else if (relType =? R_GLOB_DAT) || (relType =? R_JMP_SLOT) then mret (Some (8, symAddress, false))
  else if relType =? R_RELATIVE then i ← info_at Info; mret (Some (8, BaseAddress i, true))
  else if relType =? R_DTPMOD64 then
    printf "dl: i don't know what to do with DTPMOD64\n";;
    i ← info_at Info; mret (Some (0, BaseAddress i, false))
  else if relType =? R_DTPOFF64 then
    printf "dl: i don't know what to do with DTPOFF64\n";;
    a ← addend_at rela; mret (Some (0, u64 (symAddress + a), false))
  else if relType =? R_TPOFF64 then
    printf "dl: i don't know what to do with TPOFF64\n";;
    a ← addend_at rela; mret (Some (0, u64 (symAddress + a), false))
  else printf "dl: Unsupported relocation type %d\n";; mret None.

(** The symbol of a relocation: its address and size; [None] is an error. *)
Definition relocation_symbol (Info : Z) (r : Elf64_Rel) : M (option (Z * Z)) :=
  let symIndex := u32 (ELF_R_SYM (r_info r)) in
  if symIndex =? 0 then mret (Some (0, 0))
  else
    i ← info_at Info;
    sym ← look (fun m => rd m (u64 (SYMTAB (DynamicTable i) + u64 (symIndex * SYMENT (DynamicSize i)))));
    let symName := u64 (STRTAB (DynamicTable i) + st_name sym) in
    if negb (ELF_R_TYPE (r_info r) =? R_COPY) && negb (st_shndx sym =? 0) then
      mret (Some (u64 (BaseAddress i + st_value sym), st_size sym))
    else
      res ← ResolveExternalSymbol Info sym symName;
      if fst res <? 0 then mret None else mret (Some (snd res, st_size sym)).

(** The status and the value stored through [Relocated]. *)
Definition RelocateHelper (Info Rela : Z) (IsRel : bool) : M (Z * option Z) :=
  r ← look (fun m => rd m Rela);
  s ← relocation_symbol Info r;
  match s with
  | None => mret (- EINVAL, None)
  | Some (symAddress, symSize) =>
      k ← relocation Info Rela r symAddress symSize;
      match k with
      | None => mret (- EINVAL, None)
      | Some (reloSize, reloc, addAddend) =>
          a ← (if addAddend : bool then
                 if IsRel then ApplyRelocation Info reloc (r_offset r) reloSize
                 else a ← addend_at Rela; mret (0, u64 (reloc + a))
               else mret (0, reloc));
          if fst a <? 0 then mret (- EINVAL, None)
          else
            CalculateRelocation Info (snd a) (r_offset r) reloSize;;
            mret (0, Some (snd a))
      end
  end.

(** Called from the procedure linkage table through [_dl_runtime_resolve]; the
    result is the address to jump to. *)
Definition _dl_fixup (Info RelIndex : Z) : M Z :=
  i ← info_at Info;
  let t := DynamicTable i in
  if PLTREL (DynamicSize i) =? DT_REL then
    r ← RelocateHelper Info (u64 (JMPREL t + RelIndex)) true; mret (default 0 (snd r))
  else if PLTREL (DynamicSize i) =? DT_RELA then
    r ← RelocateHelper Info (u64 (JMPREL t + 24 * RelIndex)) false; mret (default 0 (snd r))
  else mret 0.

(** [for (i = 0; i < RELSZ / RELENT; i++) RelocateHelper(...)] and its
    [RELA] counterpart; the sizes are read in every turn. *)
Fixpoint rel_loop (fuel : nat) (Info : Z) (table : ElfInfo -> Z) (size entry : ElfInfo -> Z) (IsRel : bool) (k : Z) : M unit :=
  match fuel with
  | O => no_fuel
  | S fuel =>
      i ← info_at Info;
      n ← cdiv (size i) (entry i);
      if k <? n then
        RelocateHelper Info (u64 (table i + k * entry i)) IsRel;;
        rel_loop fuel Info table size entry IsRel (k + 1)
      else mret tt
  end.

(** One turn of the lazy loop over the procedure linkage table: the slot is
    moved by the base, and resolved at once when it was empty. *)
Definition lazy_slot (Info entry : Z) (IsRel : bool) : M Z :=
  i ← info_at Info;
  r ← look (fun m => rd m entry);
  if negb (ELF_R_TYPE (r_info r) =? R_JMP_SLOT) then printf "dl: Wrong JMPREL type %d\n";; mret (- EINVAL)
  else
    addend ← (if IsRel then mret 0 else addend_at entry);
    let slot := u64 (BaseAddress i + r_offset r) in
    v ← look (fun m => load_le m slot 8);
    write (fun m => store_le m slot 8 (u64 (v + u64 (BaseAddress i + addend))));;
    i ← info_at Info;
    v ← look (fun m => load_le m slot 8);
    (if v =? BaseAddress i then RelocateHelper Info entry IsRel;; mret tt else mret tt);;
    mret 0.

Fixpoint lazy_loop (fuel : nat) (Info relsize : Z) (k : Z) : M Z :=
  match fuel with
  | O => no_fuel
  | S fuel =>
      i ← info_at Info;
      if k <? PLTRELSZ (DynamicSize i) / relsize then
        let isrel := PLTREL (DynamicSize i) =? DT_REL in
        let entry := u64 (JMPREL (DynamicTable i) + k * (if isrel then 16 else 24)) in
        st ← lazy_slot Info entry isrel;
        if st <? 0 then mret st else lazy_loop fuel Info relsize (k + 1)
      else mret 0
  end.

(** [HandleRelocations] after [SearchNeeded]: the relocation tables, *)
Definition relocate_tables (Info : Z) : M unit :=
  i ← info_at Info;
  n ← fuel_of;
  (if negb (REL (DynamicTable i) =? 0) && negb (RELENT (DynamicSize i) =? 0) then
     rel_loop n Info (REL ∘ DynamicTable) (RELSZ ∘ DynamicSize) (RELENT ∘ DynamicSize) true 0
   else mret tt);;
  i ← info_at Info;
  if negb (RELA (DynamicTable i) =? 0) && negb (RELAENT (DynamicSize i) =? 0) then
    rel_loop n Info (RELA ∘ DynamicTable) (RELASZ ∘ DynamicSize) (RELAENT ∘ DynamicSize) false 0
  else mret tt.

(** and the procedure linkage table. *)
Definition relocate_plt (Info : Z) : M Z :=
  i ← info_at Info;
  n ← fuel_of;
  let plt := PLTREL (DynamicSize i) in
  if (JMPREL (DynamicTable i) =? 0) || (PLTRELSZ (DynamicSize i) =? 0) then mret 0
  else if negb (plt =? DT_REL) && negb (plt =? DT_RELA) then
    printf "dl: Wrong PLT relocation type %d\n";; mret (- EINVAL)
  else if negb (BIND_NOW (DynamicTable i) =? 0) then
    (if plt =? DT_REL then rel_loop n Info (JMPREL ∘ DynamicTable) (PLTRELSZ ∘ DynamicSize) (fun _ => 16) true 0
     else if plt =? DT_RELA then
       rel_loop n Info (JMPREL ∘ DynamicTable) (PLTRELSZ ∘ DynamicSize) (fun _ => 24) false 0
     else mret tt);;
    set_info Info set_relocated;;
    mret 0
  else
    st ← lazy_loop n Info (if plt =? DT_REL then 16 else 24) 0;
    if st <? 0 then mret st else set_info Info set_relocated;; mret 0.

(** [SearchNeeded], with [HandleRelocations] as its argument. *)
Fixpoint SearchNeeded (HandleRelocations : Z -> M Z) (fuel : nat) (Info i : Z) : M unit :=
  match fuel with
  | O => no_fuel
  | S fuel =>
      inf ← info_at Info;
      elem ← dyn_at (Dynamic inf) i;
      if d_tag elem =? DT_NULL then mret tt
      else if negb (d_tag elem =? DT_NEEDED) then SearchNeeded HandleRelocations fuel Info (i + 1)
      else HandleRelocations (d_un elem);; SearchNeeded HandleRelocations fuel Info (i + 1)
  end.

(** [fuel] bounds the depth of the recursion. *)
Fixpoint HandleRelocations (fuel : nat) (Info : Z) : M Z :=
  match fuel with
  | O => no_fuel
  | S fuel =>
      i ← info_at Info;
      if Relocated i then mret 0
      else
        n ← fuel_of;
        SearchNeeded (HandleRelocations fuel) n Info 0;;
        relocate_tables Info;;
        relocate_plt Info
  end.

(** ** Loading *)

Section loading.
Context {DK : DlKernel}.
(** The addresses of the string literals and of [_dl_runtime_resolve]; what
    the uninitialised [lastLOAD] holds. *)
Context (lit : string -> Z) (dl_runtime_resolve : Z) (lastLOAD_init : Elf64_Phdr).

Definition PATH_MAX : Z := 4096.
Definition standardPaths : list string :=
  ["/sys/lib/"; "/usr/lib/"; "/lib/"; "/usr/local/lib/"; "/usr/local/lib64/"; "/usr/lib64/"; "/lib64/"]%string.

Definition _Exit {A} (status : Z) : M A := exits status.
Definition Access (path mode : Z) : M Z := look (fun m => Ret (sys_Access m path mode)).
Definition Open (path flags mode : Z) : M Z := look (fun m => Ret (sys_Open m path flags mode)).
Definition Close (fd : Z) : M Z := look (fun _ => Ret (sys_Close fd)).
Definition PRead (fd buf n off : Z) : M Z := syscall (fun m => sys_PRead m fd buf n off).
Definition MapFixed (a n prot : Z) : M Z := syscall (fun m => sys_MapFixed m a n prot).
Definition MemoryMap (n : Z) : M Z := syscall (fun m => sys_MemoryMap m n).
Definition MemoryUnmap (a n : Z) : M Z := syscall (fun m => sys_MemoryUnmap m a n).

(** The search along [LD_LIBRARY_PATH]: whether a file was found, whose path
    is then in [fullLibPath]. *)
Fixpoint search_env (fuel : nat) (fullLibPath libPath path : Z) : M bool :=
  match fuel with
  | O => no_fuel
  | S fuel =>
      if path =? 0 then mret false
      else
        call (fun m => strcpy m fullLibPath path);;
        n ← look (fun m => strlen m fullLibPath);
        c ← look (fun m => load8 m (fullLibPath + n - 1));
        (if negb (c =? 47) then call (fun m => strcat m fullLibPath (lit "/"));; mret tt else mret tt);;
        call (fun m => strcat m fullLibPath libPath);;
        ok ← Access fullLibPath F_OK;
        if ok =? 0 then mret true
        else path ← strtok_m 0 (lit ":"); search_env fuel fullLibPath libPath path
  end.

(** The search along the standard paths. *)
Fixpoint search_standard (paths : list string) (fullLibPath libPath : Z) : M bool :=
  match paths with
  | [] => mret false
  | p :: paths =>
      call (fun m => strcpy m fullLibPath (lit p));;
      call (fun m => strcat m fullLibPath libPath);;
      ok ← Access fullLibPath F_OK;
      if ok =? 0 then mret true else search_standard paths fullLibPath libPath
  end.

(** [LoadElf] is an argument; it returns its status and [*Out], if it was
    assigned. *)
Definition ProcessNeededLibraries (LoadElf : Z -> Z -> M (Z * option Z)) (elem Info : Z) : M unit :=
  inf ← info_at Info;
  e ← dyn_at elem 0;
  let libPath := u64 (STRTAB (DynamicTable inf) + d_un e) in
  with_frame PATH_MAX (fun fullLibPath =>
    env ← gets environ;
    ldLibPath ← look (fun m => getenv m env (lit "LD_LIBRARY_PATH"));
    found ← (if negb (ldLibPath =? 0) then
      pathCopy ← strdup_m ldLibPath;
      path ← strtok_m pathCopy (lit ":");
      n ← fuel_of;
      found ← search_env n fullLibPath libPath path;
      free_m pathCopy;;
      mret found
    else mret false);
    found ← (if found : bool then mret true else search_standard standardPaths fullLibPath libPath);
    if negb found then printf "dl: Library %s not found in search paths\n"
    else
      fd ← Open fullLibPath O_RDONLY 420;
      res ← LoadElf fd fullLibPath;
      write (fun m => upd m elem (fun e => MkDyn (d_tag e) (default 0 (snd res))));;
      Close fd;;
      (if fst res <? 0 then printf "dl: Can't load %s\n" else mret tt)).

(** The second loop of [ProcessDynamicTable]. *)
Fixpoint process_needed (LoadElf : Z -> Z -> M (Z * option Z)) (fuel : nat) (Info i : Z) : M unit :=
  match fuel with
  | O => no_fuel
  | S fuel =>
      inf ← info_at Info;
      let elem := Dynamic inf + 16 * i in
      e ← dyn_at elem 0;
      if d_tag e =? DT_NULL then mret tt
      else
        (if d_tag e =? DT_NEEDED then ProcessNeededLibraries LoadElf elem Info else mret tt);;
        process_needed LoadElf fuel Info (i + 1)
  end.

Definition ProcessDynamicTable (LoadElf : Z -> Z -> M (Z * option Z)) (Info : Z) : M unit :=
  n ← fuel_of;
  process_entries dl_runtime_resolve n Info 0;;
  n ← fuel_of;
  process_needed LoadElf n Info 0.

Definition GetASLR : M Z :=
  puts (fun s => set_aslr s (u64 (aslr_next s + 0x1000000)));; gets aslr_next.

Definition LoadElfPhdrEXEC : M Z := printf "dl: ET_EXEC not implemented yet\n";; mret (- ENOSYS).

Definition DynamicCreateBase (Info : Z) : M Z :=
  base ← GetASLR;
  (if base <=? 0 then printf "dl: Can't get ASLR\n";; _Exit (-1) else mret tt);;
  set_info Info (set_base base);;
  mret base.

(** The macros of [misc.h] on 64 bits. *)
Definition align_up (x a : Z) : Z := Z.land (u64 (x + u64 (a - 1))) (2 ^ 64 - 1 - u64 (a - 1)).
Definition align_down (x a : Z) : Z := Z.land x (2 ^ 64 - 1 - u64 (a - 1)).

Definition prot_of (flags : Z) : Z :=
  let p := if negb (Z.land flags PF_X =? 0) then PROT_EXEC else 0 in
  let p := if negb (Z.land flags PF_W =? 0) then Z.lor p PROT_WRITE else p in
  if negb (Z.land flags PF_R =? 0) then Z.lor p PROT_READ else p.

(** [PT_LOAD]: the status of the segment; [Some] ends the function. *)
Definition load_segment (fd base : Z) (ph : Elf64_Phdr) : M (option Z) :=
  let start := align_down (p_vaddr ph) (p_align ph) in
  let size := align_up (u64 (p_memsz ph + u64 (p_vaddr ph - start))) (p_align ph) in
  section ← MapFixed (u64 (base + start)) size (prot_of (p_flags ph));
  let section := u64 section in
  let off := u64 (p_vaddr ph - start) in
  rd ← (if 0 <? p_filesz ph then
          n ← PRead fd (u64 (section + off)) (p_filesz ph) (p_offset ph);
          if negb (u64 n =? p_filesz ph) then
            printf "dl: Can't read segment %d in PT_LOAD\n";; mret (Some (s32 n))
          else mret None
        else mret None);
  match rd with
  | Some st => mret (Some st)
  | None =>
      (if 0 <? u64 (p_memsz ph - p_filesz ph) then
         call (fun m => memset m (u64 (u64 (section + off) + p_filesz ph)) 0 (u64 (p_memsz ph - p_filesz ph)));; mret tt
       else mret tt);;
      mret None
  end.

(** [PT_DYNAMIC]: the address of the dynamic table, or the status that ends
    the function. *)
Definition load_dynamic (fd base : Z) (ph lastLOAD : Elf64_Phdr) : M (Z + Z) :=
  if (p_vaddr ph =? p_vaddr lastLOAD) && (p_memsz ph <? p_memsz lastLOAD) then
    mret (inl (u64 (base + p_vaddr ph)))
  else
    table ← MapFixed 0 (align_up (p_memsz ph) (p_align ph)) (prot_of (p_flags ph));
    if table <=? 0 then printf "dl: Can't allocate memory for PT_DYNAMIC\n";; mret (inr (s32 table))
    else
      n ← PRead fd table (p_memsz ph) (p_offset ph);
      if negb (u64 n =? p_memsz ph) then printf "dl: Can't read PT_DYNAMIC\n";; mret (inr (s32 n))
      else mret (inl table).

(** The loop over the program headers: [k] are left from header [i] on;
    [buf] is the stack variable [phdr]. *)
Fixpoint phdr_loop (k : nat) (fd Info buf : Z) (h : Elf64_Ehdr) (i base : Z) (lastLOAD : Elf64_Phdr) : M Z :=
  match k with
  | O => mret 0
  | S k =>
      n ← PRead fd buf 56 (u64 (e_phoff h + e_phentsize h * i));
      if negb (u64 n =? 56) then printf "dl: Can't read program header %d\n";; mret (s32 n)
      else
        ph ← look (fun m => rd m buf);
        if p_type ph =? PT_LOAD then
          if p_memsz ph =? 0 then phdr_loop k fd Info buf h (i + 1) base lastLOAD
          else
            base ← (if base =? 0 then DynamicCreateBase Info else mret base);
            st ← load_segment fd base ph;
            match st with
            | Some st => mret st
            | None => phdr_loop k fd Info buf h (i + 1) base ph
            end
        else if p_type ph =? PT_DYNAMIC then
          r ← load_dynamic fd base ph lastLOAD;
          match r with
          | inr st => mret st
          | inl table =>
              set_info Info (set_dynamic table);;
              set_info Info (set_dynamic_header ph);;
              phdr_loop k fd Info buf h (i + 1) base lastLOAD
          end
        else
          (if p_type ph =? 7 then printf "dl: PT_TLS not implemented yet\n"
           else if (3 <=? p_type ph) && (p_type ph <=? 6) then mret tt
           else printf "dl: Unimplemented program header type %d\n");;
          phdr_loop k fd Info buf h (i + 1) base lastLOAD
  end.

Definition LoadElfPhdrDYN (fd Info : Z) : M Z :=
  inf ← info_at Info;
  let header := Header inf in
  set_info Info (set_dynamic 0);;
  with_frame 56 (fun phdr => phdr_loop (Z.to_nat (e_phnum header)) fd Info phdr header 0 0 lastLOAD_init).

Definition CheckElfEhdr (ehdr : Elf64_Ehdr) : M Z :=
  let id := e_ident ehdr in
  if negb (EI_MAG0 id =? ELFMAG0) || negb (EI_MAG1 id =? ELFMAG1) ||
     negb (EI_MAG2 id =? ELFMAG2) || negb (EI_MAG3 id =? ELFMAG3) then
    printf "dl: %s is not an ELF file\n";; mret (- EINVAL)
  else if negb (EI_CLASS id =? ELFCLASS64) then
    printf "dl: %s is not a %s-bit ELF file\n";; mret (- EINVAL)
  else if negb (EI_VERSION id =? EV_CURRENT) || negb (e_version ehdr =? EV_CURRENT) then
    printf "dl: %s has an unsupported ELF version\n";; mret (- EINVAL)
  else if negb (e_type ehdr =? ET_DYN) && negb (e_type ehdr =? ET_EXEC) then
    printf "dl: %s is not a shared object or executable\n";; mret (- EINVAL)
  else mret 0.

(** The [switch] over the file type. *)
Definition load_type (fd info : Z) (header : Elf64_Ehdr) : M Z :=
  let t := e_type header in
  if t =? ET_REL then printf "dl: ET_REL not implemented yet\n";; mret (- ENOSYS)
  else if t =? ET_EXEC then LoadElfPhdrEXEC
  else if t =? ET_DYN then LoadElfPhdrDYN fd info
  else if t =? ET_CORE then printf "dl: ET_CORE not implemented yet\n";; mret (- ENOSYS)
  else if t =? ET_NONE then printf "dl: ET_NONE???\n";; mret (- EINVAL)
  else printf "dl: Unsupported ELF type %d\n";; mret (- EINVAL).

(** [fuel] bounds the depth of the recursion through the needed libraries. *)
Fixpoint LoadElf (fuel : nat) (fd path : Z) : M (Z * option Z) :=
  match fuel with
  | O => no_fuel
  | S fuel =>
      info ← SearchLib path;
      if negb (info =? 0) then mret (0, Some info)
      else with_frame 64 (fun header =>
        PRead fd header 64 0;;
        header ← look (fun m => rd m header);
        status ← CheckElfEhdr header;
        if negb (status =? 0) then mret (status, None)
        else
          info ← AllocateLib;
          set_info info (set_header header);;
          n ← look (fun m => strlen m path);
          p ← MemoryMap (align_up (n + 1) 0x1000);
          set_info info (set_path (u64 p));;
          if p <=? 0 then
            printf "dl: Can't allocate memory for path\n";;
            FreeLib info;;
            i ← info_at info;
            mret (s32 (Path i), None)
          else
            n ← look (fun m => strlen m path);
            call (fun m => memcpy m p path (n + 1));;
            status ← load_type fd info header;
            if status <? 0 then
              i ← info_at info;
              n ← look (fun m => strlen m path);
              MemoryUnmap (Path i) (align_up (n + 1) 0x1000);;
              FreeLib info;;
              mret (status, None)
            else
              ProcessDynamicTable (LoadElf fuel) info;;
              mret (0, Some info))
  end.

(** The program ends with a status, or control goes to its entry point. *)
Inductive launch : Type := Status (z : Z) | Enter (entry : Z).

Definition _dl_main (fuel : nat) (argv : Z) : M launch :=
  path ← look (fun m => load_le m argv 8);
  ok ← Access path F_OK;
  if ok <? 0 then printf "dl: Can't access file %s\n";; mret (Status (- EACCES))
  else
    fd ← Open path O_RDONLY 420;
    res ← LoadElf fuel fd path;
    if fst res <? 0 then printf "%s: Can't load ELF file\n";; Close fd;; mret (Status (fst res))
    else
      let info := default 0 (snd res) in
      st ← HandleRelocations fuel info;
      if st <? 0 then printf "%s: Can't relocate ELF file\n";; Close fd;; mret (Status st)
      else
        Close fd;;
        i ← info_at info;
        mret (Enter (u64 (BaseAddress i + e_entry (Header i)))).

(** ** main.c *)

Definition print_license : M unit :=
  printf "Fennix C Library Interpreter  Copyright (C) %s  EnderIce2\n";;
  printf "This program comes with ABSOLUTELY NO WARRANTY.\n";;
  printf "This is free software, and you are welcome to redistribute it\n";;
  printf "under certain conditions.\n".

Definition print_version : M unit := printf "%s\n".

Definition print_help : M unit :=
  printf "Usage: ld.so [options] <program>\n";;
  printf "Options:\n";;
  printf "  --help       Display this help message\n";;
  printf "  --version    Display version information\n";;
  printf "  --license    Display license information\n";;
  printf "\n";;
  print_license.

Definition IsManuallyInvoked (argv0 : Z) : M bool :=
  lastSlash ← look (fun m => strrchr m argv0 47);
  let name := if negb (lastSlash =? 0) then lastSlash + 1 else argv0 in
  c ← look (fun m => strcmp m name (lit "ld.so"));
  mret (c =? 0).

(** The loop over the options: [k] are left from [argv[i]] on. *)
Fixpoint options (k : nat) (argv i : Z) : M launch :=
  match k with
  | O =>
      printf "Error: No program specified.\n";;
      printf "Try 'ld.so --help' for more information.\n";;
      mret (Status (-1))
  | S k =>
      a ← look (fun m => load_le m (argv + 8 * i) 8);
      c ← look (fun m => strcmp m a (lit "--help"));
      if c =? 0 then print_help;; mret (Status 0)
      else
        c ← look (fun m => strcmp m a (lit "--version"));
        if c =? 0 then print_version;; mret (Status 0)
        else
          c ← look (fun m => strcmp m a (lit "--license"));
          if c =? 0 then print_license;; mret (Status 0) else options k argv (i + 1)
  end.

Definition main (fuel : nat) (argc argv envp : Z) : M launch :=
  puts (fun s => set_environ s envp);;
  argv0 ← look (fun m => load_le m argv 8);
  manual ← IsManuallyInvoked argv0;
  if negb manual then _dl_main fuel argv else options (Z.to_nat (argc - 1)) argv 1.
End loading.
