(* ===== verification/DlTheorems.v ===== *)
(** * What the dynamic loader promises

    Relocation and symbol search of [DlLoad] against the x86-64 ABI: the word
    that each kind of relocation stores, the tables processed in order, lazy and
    immediate binding of the PLT, and the search of a name through an object and
    the libraries it needs; and that objects that need each other are relocated
    for ever. *)

From S2P Require Import Prelude CMem CMonad CStruct LibcErrno KernelMem LibcString DlElf DlHelper DlAlloc DlInfo DlLoad.

(** ** Running the steps *)

Section steps.
Implicit Types s : dl.

Lemma look_go {A} (f : mem -> outcome A) s a : f (d_mem s) = Ret a -> look f s = Ret (Go a, s).
Proof. intros H. unfold look. by rewrite H. Qed.

Lemma write_go f s m : f (d_mem s) = Ret m -> write f s = Ret (Go tt, set_mem s m).
Proof. intros H. unfold write. by rewrite H. Qed.

Lemma info_go a s i : rd (d_mem s) a = Ret i -> info_at a s = Ret (Go i, s).
Proof. exact (look_go (fun m => rd m a) s i). Qed.

Lemma set_mem_mem s m : d_mem (set_mem s m) = m.
Proof. done. Qed.

Lemma set_mem_same s : set_mem s (d_mem s) = s.
Proof. by destruct s as [[]]. Qed.

Lemma set_mem_twice s m m' : set_mem (set_mem s m) m' = set_mem s m'.
Proof. done. Qed.
End steps.

(** The step in front of a continuation returns. *)
Ltac go := erewrite bind_go; [|first [ by apply look_go | by apply info_go | by apply write_go | done ]]; cbv beta.

(** ** One relocation

    [psabi_value] is the table of the x86-64 psABI for the relocations that
    store a 64-bit word: [S] is the symbol's address, [A] the addend and [B]
    the base address. *)

Definition psabi_value (type S A B : Z) : option Z :=
  if type =? R_X86_64_64 then Some (u64 (S + A))
  else if (type =? R_GLOB_DAT) || (type =? R_JMP_SLOT) then Some S
  else if type =? R_RELATIVE then Some (u64 (B + A))
  else None.

(** The symbol address of a relocation whose symbol, if it has one, is defined
    in the object itself. *)
Definition local_symbol (m : mem) (i : ElfInfo) (r : Elf64_Rel) (S : Z) : Prop :=
  let k := u32 (ELF_R_SYM (r_info r)) in
  k = 0 /\ S = 0 \/
  k <> 0 /\ ELF_R_TYPE (r_info r) <> R_COPY /\
  exists sym, rd m (u64 (SYMTAB (DynamicTable i) + u64 (k * SYMENT (DynamicSize i)))) = Ret sym /\
    st_shndx sym <> 0 /\ S = u64 (BaseAddress i + st_value sym).

Lemma relocation_symbol_local s Info i r S : rd (d_mem s) Info = Ret i -> local_symbol (d_mem s) i r S ->
  exists n, relocation_symbol Info r s = Ret (Go (Some (S, n)), s).
Proof.
  intros Hi H. unfold relocation_symbol. destruct H as [[-> ->]|(Hk & Ht & sym & Hs & Hn & ->)]; [by eexists|].
  apply Z.eqb_neq in Hk, Ht, Hn. rewrite Hk. erewrite bind_go by (by apply info_go). cbv beta.
  erewrite bind_go by (by apply look_go). cbv beta zeta. rewrite Ht, Hn. cbn [negb andb]. by eexists.
Qed.

Lemma calculate_go s Info i reloc off : rd (d_mem s) Info = Ret i -> cells (d_mem s) (u64 (BaseAddress i + off)) 8 ->
  CalculateRelocation Info reloc off 8 s
    = Ret (Go 0, set_mem s (word_at (d_mem s) (u64 (BaseAddress i + off)) reloc)).
Proof.
  intros Hi Hc. unfold CalculateRelocation. change (reloc_width 8) with (Some 8%nat). cbv iota.
  erewrite bind_go by (by apply info_go). cbv beta.
  erewrite bind_go by (apply write_go; by apply store_word). done.
Qed.

Lemma relocate_word s Info i Rela r S A v : rd (d_mem s) Info = Ret i -> rd (d_mem s) Rela = Ret r ->
  load_le (d_mem s) (Rela + 16) 8 = Ret A -> local_symbol (d_mem s) i r S ->
  psabi_value (ELF_R_TYPE (r_info r)) S A (BaseAddress i) = Some v ->
  cells (d_mem s) (u64 (BaseAddress i + r_offset r)) 8 ->
  RelocateHelper Info Rela false s
    = Ret (Go (0, Some v), set_mem s (word_at (d_mem s) (u64 (BaseAddress i + r_offset r)) v)).
Proof.
  intros Hi Hr HA HS Hv Hc. unfold RelocateHelper. erewrite bind_go by (by apply look_go). cbv beta.
  destruct (relocation_symbol_local s Info i r S Hi HS) as [n Hn]. erewrite bind_go by exact Hn. cbv beta iota.
  assert (Ha : addend_at Rela s = Ret (Go A, s)) by (by apply look_go).
  assert (Hk : exists reloc add, relocation Info Rela r S n s = Ret (Go (Some (8, reloc, add)), s) /\
    v = if add : bool then u64 (reloc + A) else reloc).
  { unfold psabi_value in Hv. unfold relocation. destruct (Z.eqb_spec (ELF_R_TYPE (r_info r)) R_X86_64_64) as [->|].
    { injection Hv as <-. by exists S, true. }
    destruct ((ELF_R_TYPE (r_info r) =? R_GLOB_DAT) || (ELF_R_TYPE (r_info r) =? R_JMP_SLOT)) eqn:E.
    { injection Hv as <-. exists S, false. apply orb_prop in E as [E|E]; apply Z.eqb_eq in E as ->; done. }
    destruct (Z.eqb_spec (ELF_R_TYPE (r_info r)) R_RELATIVE) as [->|]; [|done]. injection Hv as <-.
    exists (BaseAddress i), true. split; [|done]. lazy beta zeta iota delta [R_RELATIVE R_NONE R_X86_64_64 R_COPY R_GLOB_DAT R_JMP_SLOT Z.eqb Pos.eqb orb].
    erewrite bind_go by (by apply info_go). done. }
  destruct Hk as (reloc & add & Hk & ->). erewrite bind_go by exact Hk. cbv beta iota. destruct add.
  - erewrite bind_go; [|erewrite bind_go by exact Ha; done]. cbv beta. cbn [fst snd]. change (0 <? 0) with false. cbv iota.
    erewrite bind_go by (by apply calculate_go). done.
  - erewrite bind_go; [|done]. cbv beta. cbn [fst snd]. change (0 <? 0) with false. cbv iota. erewrite bind_go by (by apply calculate_go). done.
Qed.

(** ** The relocations of an object

    An entry of a relocation table with its addend and the word that the
    psABI asks for. *)

Record entry := Entry { en_rel : Elf64_Rel; en_addend : Z; en_value : Z }.

(** [tables] are the addresses of the loader's record of the object, of the
    relocation tables and of the symbol table: no relocation writes there. *)
Section object.
Context (Info : Z) (i : ElfInfo) (tables : Z -> Prop).

Definition covers (a n : Z) : Prop := forall x, a <= x < a + n -> tables x.
Definition target (e : entry) : Z := u64 (BaseAddress i + r_offset (en_rel e)).
Definition symbol_of (e : entry) : Z :=
  u64 (SYMTAB (DynamicTable i) + u64 (u32 (ELF_R_SYM (r_info (en_rel e))) * SYMENT (DynamicSize i))).

Record entry_ok (m : mem) (T : Z) (k : nat) (e : entry) : Prop := {
  eo_rel : rd m (T + 24 * Z.of_nat k) = Ret (en_rel e);
  eo_addend : load_le m (T + 24 * Z.of_nat k + 16) 8 = Ret (en_addend e);
  eo_table : covers (T + 24 * Z.of_nat k) 24;
  eo_symbol : covers (symbol_of e) 24;
  eo_value : exists S, local_symbol m i (en_rel e) S /\
    psabi_value (ELF_R_TYPE (r_info (en_rel e))) S (en_addend e) (BaseAddress i) = Some (en_value e);
  eo_target : cells m (target e) 8;
  eo_apart : forall x, target e <= x < target e + 8 -> ~ tables x
}.

Definition put (m : mem) (e : entry) : mem := word_at m (target e) (en_value e).

Definition same_tables (m m' : mem) : Prop :=
  (forall x, tables x -> m' !! x = m !! x) /\ (forall a n, cells m a n -> cells m' a n).

Lemma same_tables_trans m m' m'' : same_tables m m' -> same_tables m' m'' -> same_tables m m''.
Proof. intros [H1 H2] [H3 H4]. split; [intros x Hx; by rewrite H3, H1|intros a n Hc; by apply H4, H2]. Qed.

(** The target of an entry is mapped and not in a table. *)
Definition harmless (m : mem) (e : entry) : Prop :=
  cells m (target e) 8 /\ forall x, target e <= x < target e + 8 -> ~ tables x.

Lemma put_same m e : harmless m e -> same_tables m (put m e).
Proof.
  intros [Hc Ha]. pose proof (word_at_touched m (target e) (en_value e) Hc) as Ht. split.
  - intros x Hx. apply Ht. destruct (Z_lt_le_dec x (target e)), (Z_lt_le_dec x (target e + 8)); try lia.
    exfalso. by eapply (Ha x); [lia|].
  - intros a n H. by eapply touched_cells.
Qed.

Lemma entry_harmless m T k e : entry_ok m T k e -> harmless m e.
Proof. by intros []. Qed.

Lemma entry_ok_same m m' T k e : same_tables m m' -> entry_ok m T k e -> entry_ok m' T k e.
Proof.
  intros [Hs Hc] []. split; try done; [| | |by apply Hc].
  - rewrite <- eo_rel0. apply rd_ext. intros x Hx. cbn in Hx. apply Hs, eo_table0. lia.
  - rewrite <- eo_addend0. apply load_le_ext. intros x Hx. apply Hs, eo_table0. lia.
  - destruct eo_value0 as (S & HS & Hv). exists S. split; [|done].
    destruct HS as [H|(Hk & Ht & sym & Hr & H)]; [by left|right]. split_and!; [done|done|]. exists sym. split; [|done].
    rewrite <- Hr. apply rd_ext. intros x Hx. cbn in Hx. apply Hs, eo_symbol0. unfold symbol_of. lia.
Qed.

Lemma puts_same m es : Forall (harmless m) es -> same_tables m (fold_left put es m).
Proof.
  intros H. cut (forall m', same_tables m m' -> same_tables m (fold_left put es m')).
  { intros Hc. apply Hc. by split. }
  induction H as [|e es [Hc Ha] _ IH]; intros m' Hm; [done|]. cbn. apply IH.
  eapply same_tables_trans; [done|]. apply put_same. split; [by apply Hm|done].
Qed.

(** A table of relocations with addends. *)
Record table_ok (m : mem) (T : Z) (es : list entry) : Prop := {
  to_range : 0 <= T /\ T + 24 * Z.of_nat (length es) < 2 ^ 64;
  to_entries (k : nat) e : es !! k = Some e -> entry_ok m T k e
}.

Lemma table_ok_same m m' T es : same_tables m m' -> table_ok m T es -> table_ok m' T es.
Proof. intros Hs []. split; [done|]. intros k e He. by eapply entry_ok_same; eauto. Qed.

Lemma rd_mapped {A} {LA : Layout A} m a (x : A) : rd m a = Ret x -> (0 < sizeof (A := A))%nat -> is_Some (m !! a).
Proof.
  unfold rd. destruct (sizeof (A := A)) as [|n]; [lia|]. cbn. unfold load8. destruct (m !! a); [by eexists|done].
Qed.

(** The entries are at different addresses of the memory. *)
Lemma rels_fuel m T es : (forall (k : nat) e, es !! k = Some e -> rd m (T + 24 * Z.of_nat k) = Ret (en_rel e)) ->
  (length es < loop_fuel m)%nat.
Proof.
  intros H. unfold loop_fuel. apply Nat.lt_succ_r.
  pose proof (addresses_size m ((fun k => T + 24 * Z.of_nat k) <$> seq 0 (length es))) as Hs.
  rewrite length_fmap, length_seq in Hs. apply Hs.
  - apply NoDup_fmap_2; [intros x y; lia|apply NoDup_seq].
  - apply Forall_fmap, list.Forall_forall. intros k [_ Hk]%elem_of_seq. cbn.
    destruct (lookup_lt_is_Some_2 es k) as [e He]; [lia|].
    apply (rd_mapped (A := Elf64_Rel) _ _ (en_rel e)); [by apply H|cbn; lia].
Qed.

Lemma relocate_entry s T k e : rd (d_mem s) Info = Ret i -> entry_ok (d_mem s) T k e ->
  0 <= T -> T + 24 * Z.of_nat k < 2 ^ 64 ->
  RelocateHelper Info (u64 (T + Z.of_nat k * 24)) false s
    = Ret (Go (0, Some (en_value e)), set_mem s (put (d_mem s) e)).
Proof.
  intros Hi [] HT Hb. rewrite uw_small by lia. replace (T + Z.of_nat k * 24) with (T + 24 * Z.of_nat k) by lia.
  destruct eo_value0 as (S & HS & Hv). by eapply relocate_word.
Qed.

Lemma rel_loop_spec s m0 T es table size ent fuel (k : nat) :
  covers Info 400 -> rd m0 Info = Ret i ->
  same_tables m0 (d_mem s) -> table_ok m0 T es -> table i = T -> ent i = 24 -> size i = 24 * Z.of_nat (length es) ->
  (k <= length es)%nat -> (length es - k < fuel)%nat ->
  rel_loop fuel Info table size ent false (Z.of_nat k) s
    = Ret (Go tt, set_mem s (fold_left put (drop k es) (d_mem s))).
Proof.
  intros HI Hi0 Hsame Ht HT He Hsz. remember (length es - k)%nat as j eqn:Hj. revert s k fuel Hsame Hj.
  induction j as [|j IH]; intros s k [|fuel] Hsame Hj Hk Hf; try lia; cbn [rel_loop].
  all: assert (Hi : rd (d_mem s) Info = Ret i)
    by (rewrite <- Hi0; apply rd_ext; intros x Hx; apply Hsame, HI; cbn in Hx; lia).
  all: erewrite bind_go by (by apply info_go); cbv beta; unfold cdiv at 1; rewrite He, Hsz; cbn [Z.eqb].
  all: erewrite bind_go by done; cbv beta; replace (24 * Z.of_nat (length es) / 24) with (Z.of_nat (length es))
    by (rewrite Z.mul_comm, Z.div_mul by lia; done).
  - destruct (Z.ltb_spec (Z.of_nat k) (Z.of_nat (length es))); [lia|]. rewrite drop_ge by lia. cbn. by rewrite set_mem_same.
  - destruct (Z.ltb_spec (Z.of_nat k) (Z.of_nat (length es))); [|lia].
    destruct (lookup_lt_is_Some_2 es k) as [e Hes]; [lia|]. rewrite HT.
    pose proof (to_entries _ _ _ Ht k e Hes) as Hok0. pose proof (entry_ok_same _ _ _ _ _ Hsame Hok0) as Hok.
    destruct (to_range _ _ _ Ht). erewrite bind_go by (apply (relocate_entry s T k e Hi Hok); lia). cbv beta.
    replace (Z.of_nat k + 1) with (Z.of_nat (S k)) by lia. rewrite IH; [| |lia|lia|lia].
    + rewrite set_mem_mem, set_mem_twice. by rewrite (drop_S es e k Hes).
    + rewrite set_mem_mem. eapply same_tables_trans; [done|]. by eapply put_same, entry_harmless.
Qed.
End object.

(** ** Lazy binding

    A slot of the procedure linkage table that is bound on its first call
    holds the address of its stub in the object; the loader moves it by the
    base address and the addend. *)

Section lazy.
Context (Info : Z) (i : ElfInfo) (tables : Z -> Prop).

Record lazy_ok (m : mem) (T : Z) (k : nat) (e : entry) : Prop := {
  lo_rel : rd m (T + 24 * Z.of_nat k) = Ret (en_rel e);
  lo_type : ELF_R_TYPE (r_info (en_rel e)) = R_JMP_SLOT;
  lo_addend : load_le m (T + 24 * Z.of_nat k + 16) 8 = Ret (en_addend e);
  lo_table : covers tables (T + 24 * Z.of_nat k) 24;
  lo_value : exists v, load_le m (target i e) 8 = Ret v /\
    en_value e = u64 (v + u64 (BaseAddress i + en_addend e)) /\ en_value e <> BaseAddress i;
  lo_target : cells m (target i e) 8;
  lo_apart : forall x, target i e <= x < target i e + 8 -> ~ tables x
}.

Definition targets_apart (e e' : entry) : Prop := disjoint_range (target i e) 8 (target i e') 8.

Record lazy_table (m : mem) (T : Z) (es : list entry) : Prop := {
  lt_range : 0 <= T /\ T + 24 * Z.of_nat (length es) < 2 ^ 64;
  lt_entries (k : nat) e : es !! k = Some e -> lazy_ok m T k e;
  lt_apart (k l : nat) e e' : es !! k = Some e -> es !! l = Some e' -> k <> l -> targets_apart e e'
}.

Lemma lazy_slot_spec s T k e : rd (d_mem s) Info = Ret i -> lazy_ok (d_mem s) T k e -> covers tables Info 400 ->
  0 <= T -> T + 24 * Z.of_nat k < 2 ^ 64 ->
  lazy_slot Info (u64 (T + Z.of_nat k * 24)) false s = Ret (Go 0, set_mem s (put i (d_mem s) e)).
Proof.
  intros Hi [] HI HT Hb. rewrite uw_small by lia. replace (T + Z.of_nat k * 24) with (T + 24 * Z.of_nat k) by lia.
  destruct lo_value0 as (v & Hv & Hval & Hne). unfold lazy_slot.
  erewrite bind_go by (by apply info_go). cbv beta. erewrite bind_go by (by apply look_go). cbv beta.
  rewrite lo_type0. change (negb (R_JMP_SLOT =? R_JMP_SLOT)) with false. cbv iota.
  erewrite bind_go by (by apply look_go). cbv beta zeta. erewrite bind_go by (by apply look_go). cbv beta.
  rewrite <- Hval. fold (target i e). erewrite bind_go by (apply write_go; by apply store_word). cbv beta.
  fold (put i (d_mem s) e). set (s' := set_mem s (put i (d_mem s) e)).
  assert (Hi' : rd (d_mem s') Info = Ret i).
  { unfold s'. rewrite set_mem_mem, <- Hi. apply rd_ext. intros x Hx. cbn in Hx. apply lookup_write_bytes_out.
    rewrite le_bytes_length. destruct (Z_lt_le_dec x (target i e)), (Z_lt_le_dec x (target i e + 8)); try lia.
    exfalso. apply (lo_apart0 x); [lia|]. apply HI. lia. }
  erewrite bind_go by (by apply info_go). cbv beta.
  assert (Hu : u64 (en_value e) = en_value e) by (rewrite Hval; apply uw_uw; lia).
  erewrite bind_go by (apply look_go; unfold s', put; rewrite set_mem_mem; apply load_word_at). cbv beta.
  rewrite Hu. apply Z.eqb_neq in Hne. rewrite Hne. done.
Qed.

Lemma lazy_harmless m T k e : lazy_ok m T k e -> harmless i tables m e.
Proof. by intros []. Qed.

Lemma lazy_ok_same m m' T k e : same_tables tables m m' ->
  (forall x, target i e <= x < target i e + 8 -> m' !! x = m !! x) -> lazy_ok m T k e -> lazy_ok m' T k e.
Proof.
  intros [Hs Hc] Ht []. split; try done; [| | |by apply Hc].
  - rewrite <- lo_rel0. apply rd_ext. intros x Hx. cbn in Hx. apply Hs, lo_table0. lia.
  - rewrite <- lo_addend0. apply load_le_ext. intros x Hx. apply Hs, lo_table0. lia.
  - destruct lo_value0 as (v & Hv & H). exists v. split; [|done]. rewrite <- Hv. by apply load_le_ext.
Qed.

Lemma lazy_loop_spec s m0 T es fuel (k : nat) :
  rd m0 Info = Ret i -> covers tables Info 400 -> same_tables tables m0 (d_mem s) ->
  lazy_table m0 T es -> JMPREL (DynamicTable i) = T -> PLTREL (DynamicSize i) = DT_RELA ->
  PLTRELSZ (DynamicSize i) = 24 * Z.of_nat (length es) ->
  (forall (l : nat) e x, es !! l = Some e -> (k <= l)%nat -> target i e <= x < target i e + 8 -> d_mem s !! x = m0 !! x) ->
  (k <= length es)%nat -> (length es - k < fuel)%nat ->
  lazy_loop fuel Info 24 (Z.of_nat k) s = Ret (Go 0, set_mem s (fold_left (put i) (drop k es) (d_mem s))).
Proof.
  intros Hi0 HI Hsame Ht HT Hrela Hsz. remember (length es - k)%nat as j eqn:Hj. revert s k fuel Hsame Hj.
  induction j as [|j IH]; intros s k [|fuel] Hsame Hj Hin Hk Hf; try lia; cbn [lazy_loop].
  all: assert (Hi : rd (d_mem s) Info = Ret i)
    by (rewrite <- Hi0; apply rd_ext; intros x Hx; apply Hsame, HI; cbn in Hx; lia).
  all: erewrite bind_go by (by apply info_go); cbv beta; rewrite Hsz, Hrela;
    replace (24 * Z.of_nat (length es) / 24) with (Z.of_nat (length es)) by (rewrite Z.mul_comm, Z.div_mul by lia; done).
  - destruct (Z.ltb_spec (Z.of_nat k) (Z.of_nat (length es))); [lia|]. rewrite drop_ge by lia. cbn. by rewrite set_mem_same.
  - destruct (Z.ltb_spec (Z.of_nat k) (Z.of_nat (length es))); [|lia].
    destruct (lookup_lt_is_Some_2 es k) as [e Hes]; [lia|]. change (DT_RELA =? DT_REL) with false. cbv zeta iota. rewrite HT.
    pose proof (lt_entries _ _ _ Ht k e Hes) as Hok0.
    pose proof (lazy_ok_same _ _ _ _ _ Hsame (fun x => Hin k e x Hes (le_n _)) Hok0) as Hok.
    destruct (lt_range _ _ _ Ht). erewrite bind_go by (apply (lazy_slot_spec s T k e Hi Hok HI); lia). cbv beta.
    change (0 <? 0) with false. cbv iota.
    replace (Z.of_nat k + 1) with (Z.of_nat (S k)) by lia. rewrite IH; [| |lia| |lia|lia].
    + rewrite set_mem_mem, set_mem_twice. by rewrite (drop_S es e k Hes).
    + rewrite set_mem_mem. eapply same_tables_trans; [done|]. by eapply put_same, lazy_harmless.
    + intros l e' x He' Hl Hx. rewrite set_mem_mem. pose proof (lt_apart _ _ _ Ht k l e e' Hes He' ltac:(lia)) as Ha.
      unfold put, word_at. rewrite lookup_write_bytes_out; [eapply Hin; [exact He'|lia|done]|].
      rewrite le_bytes_length. unfold targets_apart, disjoint_range in Ha. lia.
Qed.
End lazy.

(** ** The relocations of an object, all together *)

Lemma set_relocated_wf i : wf i -> wf (set_relocated i).
Proof.
  intros H. assert (Hf : in_u 8 (Flags i)).
  { apply (Forall2_lookup_lr _ _ _ 63 1%nat (Flags i) H); [done|]. by destruct i as [[[]] [] ? ? ? [] []]. }
  assert (Hl : in_u 8 (Z.lor (Flags i) 1)) by (by apply (set_bit_byte (Flags i) 0)).
  pose proof (Forall2_insert _ _ _ 1%nat _ 63 H Hl) as H'.
  change (<[63%nat := 1%nat]> (widths (A := ElfInfo))) with (widths (A := ElfInfo)) in H'.
  unfold wf, in_fields. replace (to_fields (set_relocated i)) with (<[63%nat := Z.lor (Flags i) 1]> (to_fields i)); [done|].
  by destruct i as [[[]] [] ? ? ? [] []].
Qed.

Section relocate.
Context (s : dl) (Info : Z) (i : ElfInfo) (tables : Z -> Prop).
Let m := d_mem s.
Context (Hi : rd m Info = Ret i) (HI : covers tables Info 400).

Lemma table_same T es : table_ok i tables m T es -> same_tables tables m (fold_left (put i) es m).
Proof.
  intros H. apply puts_same, list.Forall_forall. intros e [k Hk]%list_elem_of_lookup.
  eapply entry_harmless. by apply (to_entries _ _ _ _ _ H).
Qed.

Lemma lazy_same T es : lazy_table i tables m T es -> same_tables tables m (fold_left (put i) es m).
Proof.
  intros H. apply puts_same, list.Forall_forall. intros e [k Hk]%list_elem_of_lookup.
  eapply lazy_harmless. by apply (lt_entries _ _ _ _ _ H).
Qed.

Lemma info_same m' : same_tables tables m m' -> rd m' Info = Ret i.
Proof.
  intros [Hs _]. rewrite <- Hi. apply rd_ext. intros x Hx. cbn in Hx. apply Hs, HI. lia.
Qed.

Lemma rel_loop_all table size ent es : table_ok i tables m (table i) es -> ent i = 24 ->
  size i = 24 * Z.of_nat (length es) ->
  rel_loop (loop_fuel m) Info table size ent false 0 s = Ret (Go tt, set_mem s (fold_left (put i) es m)).
Proof.
  intros Ht He Hs. change 0 with (Z.of_nat 0). erewrite (rel_loop_spec Info i tables s m (table i) es);
    [by rewrite drop_0|done|done|by split|done|done|done|done|lia|].
  rewrite Nat.sub_0_r. apply (rels_fuel _ (table i)). intros k e Hk. by apply (to_entries _ _ _ _ _ Ht).
Qed.

Lemma relocate_tables_spec relas : REL (DynamicTable i) = 0 -> RELA (DynamicTable i) <> 0 ->
  table_ok i tables m (RELA (DynamicTable i)) relas ->
  RELAENT (DynamicSize i) = 24 -> RELASZ (DynamicSize i) = 24 * Z.of_nat (length relas) ->
  relocate_tables Info s = Ret (Go tt, set_mem s (fold_left (put i) relas m)).
Proof.
  intros Hrel Hrela Ht Hent Hsz. unfold relocate_tables.
  erewrite bind_go by (by apply info_go). cbv beta. erewrite bind_go by done. cbv beta.
  rewrite Hrel. cbn [negb andb Z.eqb]. erewrite bind_go by done. cbv beta.
  erewrite bind_go by (by apply info_go). cbv beta. apply Z.eqb_neq in Hrela as Hn. rewrite Hn, Hent. cbn [negb andb Z.eqb].
  by apply rel_loop_all.
Qed.

(** The procedure linkage table, bound now or on the first call. *)
Lemma relocate_plt_spec plt : wf i -> cells m Info 400 ->
  JMPREL (DynamicTable i) <> 0 -> PLTREL (DynamicSize i) = DT_RELA -> plt <> [] ->
  PLTRELSZ (DynamicSize i) = 24 * Z.of_nat (length plt) ->
  (BIND_NOW (DynamicTable i) <> 0 /\ table_ok i tables m (JMPREL (DynamicTable i)) plt \/
   BIND_NOW (DynamicTable i) = 0 /\ lazy_table i tables m (JMPREL (DynamicTable i)) plt) ->
  exists m', relocate_plt Info s = Ret (Go 0, set_mem s m') /\ rd m' Info = Ret (set_relocated i) /\
    touched Info 400 (fold_left (put i) plt m) m'.
Proof.
  intros Hwf Hc HJ Hrela Hne Hsz Hplt. unfold relocate_plt.
  erewrite bind_go by (by apply info_go). cbv beta. erewrite bind_go by done. cbv beta zeta.
  apply Z.eqb_neq in HJ as HJ'. rewrite HJ', Hrela, Hsz.
  assert (Hz : (24 * Z.of_nat (length plt) =? 0) = false) by (apply Z.eqb_neq; destruct plt; [done|cbn; lia]).
  rewrite Hz. cbn [orb]. change (negb (DT_RELA =? DT_REL) && negb (DT_RELA =? DT_RELA)) with false. cbv iota.
  change (DT_RELA =? DT_REL) with false. change (DT_RELA =? DT_RELA) with true. cbv iota.
  assert (Hmark : forall es, same_tables tables m (fold_left (put i) es m) ->
    exists m', upd (fold_left (put i) es m) Info set_relocated = Ret m' /\ rd m' Info = Ret (set_relocated i) /\
      touched Info 400 (fold_left (put i) es m) m').
  { intros es Hs. change 400 with (Z.of_nat (sizeof (A := ElfInfo))). apply upd_spec; [by apply info_same|by apply set_relocated_wf|by apply Hs]. }
  destruct Hplt as [[Hb Ht]|[Hb Ht]].
  - apply Z.eqb_neq in Hb as ->. cbn [negb]. erewrite bind_go by (by apply rel_loop_all). cbv beta.
    destruct (Hmark plt) as (m' & Hu & Hr); [by eapply table_same|]. exists m'. split; [|done].
    erewrite bind_go by (apply write_go; rewrite set_mem_mem; exact Hu). done.
  - rewrite Hb. cbn [negb Z.eqb].
    erewrite bind_go.
    2:{ change 0 with (Z.of_nat 0). apply (lazy_loop_spec Info i tables s m (JMPREL (DynamicTable i)) plt); try done; try lia.
        rewrite Nat.sub_0_r. apply (rels_fuel _ (JMPREL (DynamicTable i))). intros k e Hk. by apply (lt_entries _ _ _ _ _ Ht). }
    cbv beta. change (0 <? 0) with false. cbv iota. rewrite drop_0.
    destruct (Hmark plt (lazy_same _ _ Ht)) as (m' & Hu & Hr). exists m'. split; [|done].
    erewrite bind_go by (apply write_go; rewrite set_mem_mem; exact Hu). done.
Qed.
End relocate.

(** ** The dynamic table as a list *)

Definition dyn_list (m : mem) (D : Z) (es : list Elf64_Dyn) : Prop :=
  (forall (k : nat) e, es !! k = Some e -> rd m (D + 16 * Z.of_nat k) = Ret e /\ d_tag e <> DT_NULL) /\
  exists v, rd m (D + 16 * Z.of_nat (length es)) = Ret (MkDyn DT_NULL v).

(** The objects that a table names as needed, in order. *)
Definition needed (es : list Elf64_Dyn) : list Z :=
  omap (fun e => if d_tag e =? DT_NEEDED then Some (d_un e) else None) es.

Lemma dyn_fuel m D es : dyn_list m D es -> (length es < loop_fuel m)%nat.
Proof.
  intros [H [v Hv]]. unfold loop_fuel.
  pose proof (addresses_size m ((fun k => D + 16 * Z.of_nat k) <$> seq 0 (S (length es)))) as Hs.
  rewrite length_fmap, length_seq in Hs. cut (S (length es) <= size m)%nat; [lia|]. apply Hs.
  - apply NoDup_fmap_2; [intros x y; lia|apply NoDup_seq].
  - apply Forall_fmap, list.Forall_forall. intros k [_ Hk]%elem_of_seq. cbn.
    destruct (decide (k = length es)) as [->|Hne].
    + apply (rd_mapped (A := Elf64_Dyn) _ _ _ Hv). cbn. lia.
    + destruct (lookup_lt_is_Some_2 es k) as [e He]; [lia|].
      apply (rd_mapped (A := Elf64_Dyn) _ _ e); [by apply H|cbn; lia].
Qed.

Lemma dyn_go s a k e : rd (d_mem s) (a + 16 * k) = Ret e -> dyn_at a k s = Ret (Go e, s).
Proof. exact (look_go (fun m => rd m (a + 16 * k)) s e). Qed.

(** ** Symbols of other objects *)

Record lib := Lib { lb_at : Z; lb_info : ElfInfo; lb_nbucket : Z; lb_names : list (list Z) }.

Definition lib_sym (m : mem) (b : lib) (k : nat) : outcome Elf64_Sym :=
  rd m (sym_at (SYMTAB (DynamicTable (lb_info b))) (Z.of_nat k)).

Record lib_ok (m : mem) (b : lib) : Prop := {
  lk_info : rd m (lb_at b) = Ret (lb_info b);
  lk_table : sysv_table m (HASH (DynamicTable (lb_info b))) (SYMTAB (DynamicTable (lb_info b)))
    (STRTAB (DynamicTable (lb_info b))) (lb_nbucket b) sysv_hash (lb_names b);
  lk_values (k : nat) name y : (0 < k)%nat -> lb_names b !! k = Some name -> lib_sym m b k = Ret y ->
    0 <= BaseAddress (lb_info b) + st_value y < 2 ^ 63;
  lk_symtab : 0 < SYMTAB (DynamicTable (lb_info b))
}.

Definition has_name (b : lib) (l : list Z) : Prop := exists k : nat, (0 < k)%nat /\ lb_names b !! k = Some l.

(** The address of a symbol of the library with the name [l]. *)
Definition address_in (m : mem) (b : lib) (l : list Z) (a : Z) : Prop :=
  exists (k : nat) y, (0 < k)%nat /\ lb_names b !! k = Some l /\ lib_sym m b k = Ret y /\
    a = BaseAddress (lb_info b) + st_value y.

Section resolve.
Context (s : dl) (name : Z) (l : list Z) (Hn : cstr (d_mem s) name l) (Hc : no_carry l).

Lemma get_symbol_spec b : lib_ok (d_mem s) b ->
  exists a, GetSymbolAddress (lb_at b) name s = Ret (Go a, s) /\
    (a = neg ENOSYS /\ ~ has_name b l \/ a <> neg ENOSYS /\ address_in (d_mem s) b l a).
Proof using Hn Hc.
  intros [Hi Ht Hv Hs]. unfold GetSymbolAddress. erewrite bind_go by (by apply info_go). cbv beta zeta.
  destruct (find_symbol_spec _ _ _ _ _ _ _ _ Ht Hn Hc) as (r & Hr & [[-> Hno]|(k & Hk & Hkn & ->)]).
  - erewrite bind_go by (by apply look_go). cbv beta. cbn [Z.eqb]. eexists. split; [done|]. left. split; [done|].
    intros (k & Hk & Hkn). by apply (Hno k).
  - erewrite bind_go by (by apply look_go). cbv beta. unfold sym_at at 1.
    destruct (Z.eqb_spec (SYMTAB (DynamicTable (lb_info b)) + 24 * Z.of_nat k) 0); [lia|].
    destruct (tb_names _ _ _ _ _ _ _ Ht k l Hk Hkn) as (y & Hy & _). erewrite bind_go by (by apply look_go). cbv beta.
    pose proof (Hv k l y Hk Hkn Hy) as Hb. rewrite uw_small by lia. eexists. split; [done|]. right.
    split; [unfold neg, ENOSYS; lia|]. by exists k, y.
Qed.

(** Libraries are asked in the order of the table; the first that has the name
    gives the address. *)
Lemma resolve_loop_spec Info inf es libs fuel (k : nat) : rd (d_mem s) Info = Ret inf ->
  dyn_list (d_mem s) (Dynamic inf) es -> needed (drop k es) = lb_at <$> libs -> Forall (lib_ok (d_mem s)) libs ->
  (k <= length es)%nat -> (length es - k < fuel)%nat ->
  exists a, resolve_loop fuel Info name (Z.of_nat k) (neg ENOSYS) s = Ret (Go a, s) /\
    (a = neg ENOSYS /\ Forall (fun b => ~ has_name b l) libs \/
     a <> neg ENOSYS /\ exists pre b post, libs = pre ++ b :: post /\ Forall (fun b => ~ has_name b l) pre /\
       address_in (d_mem s) b l a).
Proof using Hn Hc.
  intros Hi [Hd [v0 Hnull]]. remember (length es - k)%nat as j eqn:Hj. revert k libs fuel Hj.
  induction j as [|j IH]; intros k libs [|fuel] Hj Hnd Hok Hk Hf; try lia; cbn [resolve_loop].
  all: rewrite Z.eqb_refl; erewrite bind_go by (by apply info_go); cbv beta.
  - replace k with (length es) in * by lia. erewrite bind_go by (by apply dyn_go). cbv beta. cbn [d_tag].
    rewrite Z.eqb_refl. eexists. split; [done|]. left. split; [done|].
    rewrite drop_all in Hnd. destruct libs; [constructor|done].
  - destruct (lookup_lt_is_Some_2 es k) as [e Hes]; [lia|]. destruct (Hd k e Hes) as [Hr Hne].
    erewrite bind_go by (by apply dyn_go). cbv beta. apply Z.eqb_neq in Hne. rewrite Hne.
    rewrite (drop_S es e k Hes) in Hnd. replace (Z.of_nat k + 1) with (Z.of_nat (S k)) by lia.
    cbn [needed omap list_omap] in Hnd. destruct (Z.eqb_spec (d_tag e) DT_NEEDED) as [Hneed|Hneed]; cbn [negb].
    + destruct libs as [|b libs]; [done|]. cbn in Hnd. injection Hnd as -> Hnd. apply Forall_cons_iff in Hok as [Hb Hok].
      destruct (get_symbol_spec b Hb) as (a & Ha & Hres). erewrite bind_go by exact Ha. cbv beta.
      destruct Hres as [[-> Hno]|[Hne' Had]].
      * destruct (IH (S k) libs fuel) as (a & -> & [[-> Hall]|(Hna & pre & b' & post & -> & Hpre & Had)]);
          [lia|done|done|lia|lia| |]; eexists; (split; [done|]).
        { left. split; [done|by constructor]. }
        right. split; [done|]. exists (b :: pre), b', post. split_and!; [done|by constructor|done].
      * destruct fuel as [|fuel]; [lia|]. cbn [resolve_loop]. destruct (Z.eqb_spec a (neg ENOSYS)); [done|].
        eexists. split; [done|]. right. split; [done|]. by exists [], b, libs.
    + destruct (IH (S k) libs fuel) as (a & -> & H); [lia|done|done|lia|lia|]. by eexists.
Qed.
End resolve.

(** ** The recursion through the needed objects *)

Section needed_objects.
Context (s : dl) (Info : Z) (inf : ElfInfo) (es : list Elf64_Dyn) (H : Z -> M Z).
Context (Hi : rd (d_mem s) Info = Ret inf) (Hd : dyn_list (d_mem s) (Dynamic inf) es).

Lemma search_needed_none fuel (k : nat) : needed (drop k es) = [] -> (k <= length es)%nat -> (length es - k < fuel)%nat ->
  SearchNeeded H fuel Info (Z.of_nat k) s = Ret (Go tt, s).
Proof using Hi Hd.
  destruct Hd as [Hes [v Hnull]]. remember (length es - k)%nat as j eqn:Hj. revert k fuel Hj.
  induction j as [|j IH]; intros k [|fuel] Hj Hnd Hk Hf; try lia; cbn [SearchNeeded];
    (erewrite bind_go by (by apply info_go)); cbv beta.
  - replace k with (length es) in * by lia. by erewrite bind_go by (by apply dyn_go).
  - destruct (lookup_lt_is_Some_2 es k) as [e He]; [lia|]. destruct (Hes k e He) as [Hr Hne].
    erewrite bind_go by (by apply dyn_go). cbv beta. apply Z.eqb_neq in Hne. rewrite Hne.
    rewrite (drop_S es e k He) in Hnd. cbn [needed omap list_omap] in Hnd.
    destruct (d_tag e =? DT_NEEDED); [done|]. cbn [negb]. replace (Z.of_nat k + 1) with (Z.of_nat (S k)) by lia.
    apply IH; [lia|done|lia|lia].
Qed.

Lemma search_needed_stuck fuel (k : nat) b rest : needed (drop k es) = b :: rest -> H b s = OutOfFuel ->
  (k <= length es)%nat -> (length es - k < fuel)%nat -> SearchNeeded H fuel Info (Z.of_nat k) s = OutOfFuel.
Proof using Hi Hd.
  destruct Hd as [Hes _]. remember (length es - k)%nat as j eqn:Hj. revert k fuel Hj.
  induction j as [|j IH]; intros k [|fuel] Hj Hnd Hb Hk Hf; try lia; cbn [SearchNeeded].
  { rewrite drop_ge in Hnd by lia. done. }
  erewrite bind_go by (by apply info_go). cbv beta.
  destruct (lookup_lt_is_Some_2 es k) as [e He]; [lia|]. destruct (Hes k e He) as [Hr Hne].
  erewrite bind_go by (by apply dyn_go). cbv beta. apply Z.eqb_neq in Hne. rewrite Hne.
  rewrite (drop_S es e k He) in Hnd. cbn [needed omap list_omap] in Hnd.
  destruct (d_tag e =? DT_NEEDED); cbn [negb].
  - injection Hnd as -> _. by erewrite bind_stuck.
  - replace (Z.of_nat k + 1) with (Z.of_nat (S k)) by lia. apply IH; [lia|done|done|lia|lia].
Qed.
End needed_objects.

(** ** Theorems *)

(** C13: [HandleRelocations] on an object that needs no other, whose
    relocations all have addends, are of the types [R_X86_64_64], [R_GLOB_DAT],
    [R_JMP_SLOT] and [R_RELATIVE] and name symbols of the object itself, and
    whose relocation tables, symbol table and loader record are not targets of
    relocations ([table_ok]).  It returns 0; every entry of the [RELA] table has
    the word that the psABI asks for stored at its target, in the order of the
    table, and no other byte is changed.  Without a procedure linkage table
    ([JMPREL]) that is all, and the object is not marked as relocated; with one,
    the table is bound at once, or its slots are moved by the base address, and
    the object is marked.  A marked object is left alone. *)
Theorem handle_relocations_correct s fuel Info i es tables relas plt
    (m := d_mem s) (m1 := fold_left (put i) relas m) (t := DynamicTable i) (z := DynamicSize i) :
  rd m Info = Ret i -> wf i -> cells m Info 400 -> covers tables Info 400 ->
  dyn_list m (Dynamic i) es -> needed es = [] ->
  REL t = 0 -> RELA t <> 0 -> table_ok i tables m (RELA t) relas ->
  RELAENT z = 24 -> RELASZ z = 24 * Z.of_nat (length relas) ->
  (Relocated i = true -> HandleRelocations (S fuel) Info s = Ret (Go 0, s)) /\
  (Relocated i = false -> JMPREL t = 0 -> HandleRelocations (S fuel) Info s = Ret (Go 0, set_mem s m1)) /\
  (Relocated i = false -> JMPREL t <> 0 -> PLTREL z = DT_RELA -> plt <> [] -> PLTRELSZ z = 24 * Z.of_nat (length plt) ->
   BIND_NOW t <> 0 /\ table_ok i tables m1 (JMPREL t) plt \/ BIND_NOW t = 0 /\ lazy_table i tables m1 (JMPREL t) plt ->
   exists m', HandleRelocations (S fuel) Info s = Ret (Go 0, set_mem s m') /\
     rd m' Info = Ret (set_relocated i) /\ touched Info 400 (fold_left (put i) plt m1) m').
Proof.
  intros Hi Hwf Hc HI Hd Hnd Hrel Hrela Ht Hent Hsz.
  pose proof (table_same s i tables _ _ Ht) as Hsame.
  pose proof (info_same s Info i tables Hi HI m1 Hsame) as Hi1.
  assert (Hstep : Relocated i = false -> HandleRelocations (S fuel) Info s = relocate_plt Info (set_mem s m1)).
  { intros Hr. cbn [HandleRelocations]. erewrite bind_go by (by apply info_go). cbv beta. rewrite Hr.
    erewrite bind_go by done. cbv beta. erewrite bind_go.
    2:{ change 0 with (Z.of_nat 0). eapply search_needed_none; [exact Hi|exact Hd|done|lia|].
        rewrite Nat.sub_0_r. by eapply dyn_fuel. }
    cbv beta. erewrite bind_go by (by eapply relocate_tables_spec). done. }
  split_and!.
  - intros Hr. cbn [HandleRelocations]. erewrite bind_go by (by apply info_go). cbv beta. by rewrite Hr.
  - intros Hr HJ. rewrite Hstep by done. unfold relocate_plt. erewrite bind_go by (by apply info_go). cbv beta.
    erewrite bind_go by done. cbv beta zeta. fold t. rewrite HJ. done.
  - intros Hr HJ HP Hne HPs Hplt. rewrite Hstep by done.
    destruct (relocate_plt_spec (set_mem s m1) Info i tables Hi1 HI plt Hwf) as (m' & Hm & H); try done; [by apply Hsame|].
    exists m'. by rewrite Hm, set_mem_twice.
Qed.

(** C24: [ResolveExternalSymbol] asks the objects that the table names as
    needed in the order of the table, and returns the address of a symbol of
    that name in the first of them that has one, for a name whose hash does not
    carry out of 32 bits ([no_carry]).  When none has it, a message is printed, and the status is an error unless the symbol is weak, whose
    address is then 0. *)
Theorem resolve_symbol_correct s Info inf es libs sym name l :
  rd (d_mem s) Info = Ret inf -> dyn_list (d_mem s) (Dynamic inf) es ->
  needed es = lb_at <$> libs -> Forall (lib_ok (d_mem s)) libs -> cstr (d_mem s) name l -> no_carry l ->
  (exists a pre b post, ResolveExternalSymbol Info sym name s = Ret (Go (0, a), s) /\
     libs = pre ++ b :: post /\ Forall (fun b => ~ has_name b l) pre /\ address_in (d_mem s) b l a) \/
  (Forall (fun b => ~ has_name b l) libs /\ exists e a msg,
     ResolveExternalSymbol Info sym name s = Ret (Go (e, a), add_out s msg) /\
     (if ELF_ST_BIND (st_info sym) =? STB_WEAK then e = 0 /\ a = 0 else e = - EINVAL)).
Proof.
  intros Hi Hd Hnd Hok Hn Hc. unfold ResolveExternalSymbol. erewrite bind_go by done. cbv beta.
  destruct (resolve_loop_spec s name l Hn Hc Info inf es libs (loop_fuel (d_mem s)) 0 Hi Hd Hnd Hok)
    as (a & Ha & [[-> Hall]|(Hne & pre & b & post & -> & Hpre & Had)]); [lia|rewrite Nat.sub_0_r; by eapply dyn_fuel| |].
  - right. split; [done|]. erewrite bind_go by exact Ha. cbv beta. rewrite Z.eqb_refl. cbn [negb].
    erewrite bind_go by done. cbv beta. destruct (ELF_ST_BIND (st_info sym) =? STB_WEAK); do 3 eexists; by split.
  - left. exists a, pre, b, post. split; [|done]. erewrite bind_go by exact Ha. cbv beta.
    apply Z.eqb_neq in Hne as ->. done.
Qed.

(** Objects that need each other in a circle: no depth of recursion is
    enough for [HandleRelocations], since an object is marked only after the
    objects it needs have been handled. *)
Theorem handle_relocations_cycle s (C : Z -> Prop) :
  (forall a, C a -> exists i es b rest, rd (d_mem s) a = Ret i /\ Relocated i = false /\
     dyn_list (d_mem s) (Dynamic i) es /\ needed es = b :: rest /\ C b) ->
  forall fuel a, C a -> HandleRelocations fuel a s = OutOfFuel.
Proof.
  intros HC. induction fuel as [|fuel IH]; intros a Ha; [done|]. cbn [HandleRelocations].
  destruct (HC a Ha) as (i & es & b & rest & Hi & Hr & Hd & Hn & Hb). erewrite bind_go by (by apply info_go). cbv beta.
  rewrite Hr. erewrite bind_go by done. cbv beta.
  assert (Hs : SearchNeeded (HandleRelocations fuel) (loop_fuel (d_mem s)) a 0 s = OutOfFuel).
  { change 0 with (Z.of_nat 0). eapply search_needed_stuck; [exact Hi|exact Hd|exact Hn|by apply IH|lia|].
    rewrite Nat.sub_0_r. by eapply dyn_fuel. }
  by erewrite bind_stuck.
Qed.

(** ** Examples *)

Definition zero_ehdr : Elf64_Ehdr := of_fields (replicate 23 0).
Definition zero_phdr : Elf64_Phdr := of_fields (replicate 8 0).
Definition enc {A} {LA : Layout A} (x : A) : list Z := enc_fields (widths (A := A)) (to_fields x).
Definition dl_of (m : mem) : dl := Dl (Pool m 0) 0 0 0 0 0 [].

(** An object at base 6000: a relative relocation, one against its symbol 1,
    and one lazily bound slot. *)
Definition demo_info : ElfInfo :=
  MkElfInfo zero_ehdr zero_phdr 6000 4600 0 (MkTable 0 0 0 4800 4700 0 0 4900 0 0 0 0 0 0 0 0 0 0)
    (MkSizes 24 48 24 0 24 0 0 DT_RELA 0 0 0) 0 0 0 0.
Definition demo_relas : list entry :=
  [Entry (MkRel 16 R_RELATIVE) 100 6100; Entry (MkRel 24 (2 ^ 32 + R_X86_64_64)) 4 6068].
Definition demo_plt : list entry := [Entry (MkRel 32 R_JMP_SLOT) 0 6040].
Definition demo_tables (x : Z) : Prop := 4096 <= x < 5000.

Definition put_rela (e : entry) : list Z := enc (en_rel e) ++ le_bytes 8 (en_addend e).

Definition demo_object : mem :=
  write_bytes (write_bytes (write_bytes (write_bytes (write_bytes (write_bytes ∅
    4096 (enc demo_info)) 4600 (enc (MkDyn DT_NULL 0))) 4700 (concat (put_rela <$> demo_relas)))
    4800 (sym_bytes 0 0 0 ++ sym_bytes 1 7 64)) 4900 (concat (put_rela <$> demo_plt)))
    6000 (replicate 32 0 ++ le_bytes 8 40).

Ltac range_lia :=
  let x := fresh in let Hx := fresh in intros x Hx; unfold demo_tables;
  match type of Hx with
  | ?a <= _ < ?b => let a' := eval vm_compute in a in let b' := eval vm_compute in b in change (a' <= x < b') in Hx
  end; lia.

Ltac demo_entry :=
  split; [vm_compute; reflexivity | vm_compute; reflexivity | ..];
  try range_lia;
  try (apply cells_checked; vm_compute; reflexivity).

Lemma demo_relas_ok : table_ok demo_info demo_tables demo_object 4700 demo_relas.
Proof.
  split; [cbn; lia|]. intros [|[|k]] e He; [..|done]; injection He as <-; demo_entry.
  - exists 0. split; [by left|vm_compute; reflexivity].
  - exists 6064. split; [right|vm_compute; reflexivity]. split_and!; [by vm_compute|by vm_compute|].
    exists (MkSym 1 16 0 7 64 8). split_and!; [vm_compute; reflexivity|by vm_compute|vm_compute; reflexivity].
Qed.

Lemma demo_plt_ok : lazy_table demo_info demo_tables (fold_left (put demo_info) demo_relas demo_object) 4900 demo_plt.
Proof.
  split; [cbn; lia| |intros [|k] [|l] e e' He He' Hne; done].
  intros [|k] e He; [|done]; injection He as <-.
  split; [vm_compute; reflexivity|reflexivity|vm_compute; reflexivity|range_lia| |apply cells_checked; by vm_compute|range_lia].
  exists 40. split_and!; [vm_compute; reflexivity|vm_compute; reflexivity|by vm_compute].
Qed.

Lemma handle_relocations_witness :
  exists m', HandleRelocations 1 4096 (dl_of demo_object) = Ret (Go 0, set_mem (dl_of demo_object) m') /\
    rd m' 4096 = Ret (set_relocated demo_info) /\
    touched 4096 400 (fold_left (put demo_info) demo_plt (fold_left (put demo_info) demo_relas demo_object)) m'.
Proof.
  assert (Hr : rd demo_object 4096 = Ret demo_info) by (vm_compute; reflexivity).
  assert (Hc : cells demo_object 4096 400) by (apply cells_checked; vm_compute; reflexivity).
  apply (handle_relocations_correct (dl_of demo_object) 0 4096 demo_info [] demo_tables demo_relas demo_plt);
    [exact Hr|exact (rd_wf (A := ElfInfo) _ _ _ Hr Hc)|exact Hc|range_lia
    |split; [done|]; exists 0; vm_compute; reflexivity|reflexivity|reflexivity|done|exact demo_relas_ok
    |reflexivity|reflexivity|reflexivity|done|reflexivity|done|reflexivity
    |right; split; [reflexivity|exact demo_plt_ok]].
Defined.

(** An object that needs the library of [demo_lib], which is at base 8000. *)
Definition lib_info : ElfInfo :=
  MkElfInfo zero_ehdr zero_phdr 8000 0 0 (MkTable 0 100 300 200 0 0 0 0 0 0 0 0 0 0 0 0 0 0)
    (MkSizes 0 0 0 0 24 0 0 0 0 0 0) 0 0 0 0.
Definition user_info (D : Z) : ElfInfo :=
  MkElfInfo zero_ehdr zero_phdr 6000 D 0 (MkTable 0 0 0 0 0 0 0 0 0 0 0 0 0 0 0 0 0 0)
    (MkSizes 0 0 0 0 0 0 0 0 0 0 0) 0 0 0 0.
Definition demo_needed (b : Z) : list Elf64_Dyn := [MkDyn DT_STRSZ 6; MkDyn DT_NEEDED b].
Definition enc_dyn (es : list Elf64_Dyn) : list Z := concat (enc <$> es) ++ enc (MkDyn DT_NULL 0).

Definition demo_user : mem :=
  write_bytes (write_bytes (write_bytes demo_lib 4096 (enc (user_info 4600))) 4600 (enc_dyn (demo_needed 5000)))
    5000 (enc lib_info).

Definition demo_libs : list lib := [Lib 5000 lib_info 2 demo_names].

Lemma demo_libs_ok : Forall (lib_ok demo_user) demo_libs.
Proof.
  constructor; [|constructor]. split; cbn [lb_at lb_info lb_nbucket lb_names demo_libs].
  - vm_compute. reflexivity.
  - demo_table.
  - assert (H1 : lib_sym demo_user (Lib 5000 lib_info 2 demo_names) 1 = Ret (MkSym 1 16 0 7 64 8)) by (vm_compute; reflexivity).
    assert (H2 : lib_sym demo_user (Lib 5000 lib_info 2 demo_names) 2 = Ret (MkSym 4 16 0 7 96 8)) by (vm_compute; reflexivity).
    intros [|[|[|k]]] name y Hk Hn Hy; [lia| | |discriminate Hn]; [rewrite H1 in Hy|rewrite H2 in Hy];
      injection Hy as <-; cbn [lb_info BaseAddress lib_info st_value]; lia.
  - cbn. lia.
Qed.

Lemma resolve_symbol_witness (s := dl_of demo_user) (sym := MkSym 0 16 0 0 0 0) :
  (exists a pre b post, ResolveExternalSymbol 4096 sym 304 s = Ret (Go (0, a), s) /\
     demo_libs = pre ++ b :: post /\ Forall (fun b => ~ has_name b [99]) pre /\ address_in demo_user b [99] a) \/
  (Forall (fun b => ~ has_name b [99]) demo_libs /\ exists e a msg,
     ResolveExternalSymbol 4096 sym 304 s = Ret (Go (e, a), add_out s msg) /\
     (if ELF_ST_BIND (st_info sym) =? STB_WEAK then e = 0 /\ a = 0 else e = - EINVAL)).
Proof.
  apply (resolve_symbol_correct s 4096 (user_info 4600) (demo_needed 5000) demo_libs sym 304 [99]).
  - vm_compute. reflexivity.
  - split; [|exists 0; vm_compute; reflexivity].
    intros [|[|k]] e He; [..|done]; injection He as <-; (split; [vm_compute; reflexivity|done]).
  - reflexivity.
  - exact demo_libs_ok.
  - apply cstr_checked. vm_compute. reflexivity.
  - intros [|a p] c q H; [injection H as <- <-; by vm_compute|]. injection H as <- H. by destruct p.
Defined.

(** Two objects that need each other. *)
Definition demo_circle : mem :=
  write_bytes (write_bytes (write_bytes (write_bytes ∅ 4096 (enc (user_info 5100))) 4600 (enc (user_info 5200)))
    5100 (enc_dyn (demo_needed 4600))) 5200 (enc_dyn (demo_needed 4096)).

Lemma handle_relocations_cycle_witness : HandleRelocations 100 4096 (dl_of demo_circle) = OutOfFuel.
Proof.
  apply (handle_relocations_cycle (dl_of demo_circle) (fun a => a = 4096 \/ a = 4600)); [|by left].
  intros a [-> | ->]; [exists (user_info 5100), (demo_needed 4600), 4600, []|exists (user_info 5200), (demo_needed 4096), 4096, []];
    (split; [vm_compute; reflexivity|]; split; [reflexivity|]; split; [|split; [reflexivity|by (left + right)]]);
    (split; [|exists 0; vm_compute; reflexivity]; intros [|[|k]] e He; [..|done]; injection He as <-;
      (split; [vm_compute; reflexivity|done])).
Defined.
