(* ===== verification/DlDynamic.v ===== *)
(** * The dynamic table of an object

    The first loop of [ProcessDynamicTable]: what [AdjustDynamicTable],
    [CreateInfoTables] and [HandleGOT] of
    [src/Userspace/libc/interpreter/load.c] leave in the table, in the
    loader's record of the object and in its global offset table. *)

From S2P Require Import Prelude CMem CMonad CStruct LibcErrno KernelMem LibcString DlElf DlHelper DlAlloc DlInfo DlLoad DlTheorems.

(** ** What the table means

    The member of the loader's record that each tag of the ELF specification
    names, and the tags whose value is an address inside the object. *)

Definition members : list (Z * (ElfInfo -> Z)) :=
  [ (DT_PLTGOT, PLTGOT ∘ DynamicTable); (DT_HASH, HASH ∘ DynamicTable); (DT_STRTAB, STRTAB ∘ DynamicTable);
    (DT_SYMTAB, SYMTAB ∘ DynamicTable); (DT_RELA, RELA ∘ DynamicTable); (DT_REL, REL ∘ DynamicTable);
    (DT_TEXTREL, TEXTREL ∘ DynamicTable); (DT_JMPREL, JMPREL ∘ DynamicTable); (DT_BIND_NOW, BIND_NOW ∘
    DynamicTable); (DT_INIT, INIT ∘ DynamicTable); (DT_FINI, FINI ∘ DynamicTable); (DT_RPATH, RPATH ∘
    DynamicTable); (DT_SYMBOLIC, SYMBOLIC ∘ DynamicTable); (DT_INIT_ARRAY, INIT_ARRAY ∘ DynamicTable);
    (DT_FINI_ARRAY, FINI_ARRAY ∘ DynamicTable); (DT_PREINIT_ARRAY, PREINIT_ARRAY ∘ DynamicTable); (DT_RUNPATH,
    RUNPATH ∘ DynamicTable); (DT_FLAGS, FLAGS ∘ DynamicTable); (DT_PLTRELSZ, PLTRELSZ ∘ DynamicSize);
    (DT_RELASZ, RELASZ ∘ DynamicSize); (DT_RELAENT, RELAENT ∘ DynamicSize); (DT_STRSZ, STRSZ ∘ DynamicSize);
    (DT_SYMENT, SYMENT ∘ DynamicSize); (DT_RELSZ, RELSZ ∘ DynamicSize); (DT_RELENT, RELENT ∘ DynamicSize);
    (DT_PLTREL, PLTREL ∘ DynamicSize); (DT_INIT_ARRAYSZ, INIT_ARRAYSZ ∘ DynamicSize); (DT_FINI_ARRAYSZ,
    FINI_ARRAYSZ ∘ DynamicSize); (DT_PREINIT_ARRAYSZ, PREINIT_ARRAYSZ ∘ DynamicSize)].

Definition address_tags : list Z :=
  [DT_INIT; DT_FINI; DT_INIT_ARRAY; DT_FINI_ARRAY; DT_HASH; DT_STRTAB; DT_SYMTAB; DT_REL; DT_RELA; DT_JMPREL; DT_PLTGOT].

(** The run-time value of an entry of an object at [base], and the entry after
    it has been adjusted. *)
Definition value_of (base : Z) (e : Elf64_Dyn) : Z :=
  if decide (d_tag e ∈ address_tags) then u64 (d_un e + base) else d_un e.
Definition moved (base : Z) (e : Elf64_Dyn) : Elf64_Dyn := MkDyn (d_tag e) (value_of base e).

(** The value of the last entry with a tag, [v] when there is none. *)
Definition last_value (base tag : Z) (es : list Elf64_Dyn) (v : Z) : Z :=
  fold_left (fun v e => if d_tag e =? tag then value_of base e else v) es v.

(** The record [i] of the object after its table has been read. *)
Definition described (base : Z) (es : list Elf64_Dyn) (i i' : ElfInfo) : Prop :=
  Forall (fun p => snd p i' = last_value base (fst p) es (snd p i)) members /\
  Header i' = Header i /\ DynamicHeader i' = DynamicHeader i /\ BaseAddress i' = BaseAddress i /\
  Dynamic i' = Dynamic i /\ Path i' = Path i /\ Flags i' = Flags i /\ DlInfo.prev i' = DlInfo.prev i /\ DlInfo.next i' = DlInfo.next i.

(** ** What the code does with an entry *)

Definition adjust (base : Z) (e : Elf64_Dyn) : Elf64_Dyn :=
  if adjusted (d_tag e) then MkDyn (d_tag e) (u64 (d_un e + base)) else e.

Definition record (base : Z) (i : ElfInfo) (e : Elf64_Dyn) : ElfInfo :=
  match member_of (d_tag e) with
  | Some set => set (d_un (adjust base e)) i
  | None => i
  end.

(** One goal for each tag that sets a member. *)
Ltac member_cases H :=
  unfold member_of in H;
  repeat (match type of H with
          | (if ?c then _ else _) = _ => destruct c
          | Some _ = Some _ => injection H as <-
          | None = Some _ => discriminate H
          end).

(** A tag sets one of the 64-bit members, and neither the base address nor the
    address of the table. *)
Lemma member_of_field tag set : member_of tag = Some set ->
  exists pos, (widths (A := ElfInfo)) !! pos = Some 8%nat /\
    forall v i, to_fields (set v i) = <[pos := v]> (to_fields i) /\
      BaseAddress (set v i) = BaseAddress i /\ Dynamic (set v i) = Dynamic i.
Proof.
  intros H. member_cases H.
  all: match goal with |- exists pos, _ /\ (forall v i, to_fields (?f v i) = _ /\ _) => 
    let l := eval cbv in (to_fields (f (-1) (of_fields (replicate 67 0)))) in
    let rec find l n := match l with (-1) :: _ => constr:(n) | _ :: ?l => find l (S n) end in
    let p := find l 0%nat in exists p end.
  all: split; [reflexivity|]; intros v i; by destruct i as [[[]] [] ? ? ? [] []].
Qed.

Lemma record_wf base i e : wf i -> in_u 64 (d_un (adjust base e)) -> wf (record base i e).
Proof.
  intros Hi He. unfold record. destruct (member_of (d_tag e)) as [set|] eqn:E; [|done].
  destruct (member_of_field _ _ E) as (pos & Hw & Hf). unfold wf, in_fields. rewrite (proj1 (Hf _ _)).
  pose proof (Forall2_insert _ _ _ 8%nat (d_un (adjust base e)) pos Hi He) as H.
  by rewrite (list_insert_id _ _ _ Hw) in H.
Qed.

Lemma record_base base i e : BaseAddress (record base i e) = BaseAddress i /\ Dynamic (record base i e) = Dynamic i.
Proof.
  unfold record. destruct (member_of (d_tag e)) as [set|] eqn:E; [|done].
  destruct (member_of_field _ _ E) as (pos & _ & Hf). apply Hf.
Qed.

Lemma touched_same T a n m m' : touched a n m m' -> (forall x, a <= x < a + n -> ~ T x) -> same_tables T m m'.
Proof.
  intros Ht Ha. split; [|intros b k Hc; by eapply touched_cells]. intros x Hx. apply Ht.
  destruct (Z_lt_le_dec x a), (Z_lt_le_dec x (a + n)); try lia. exfalso. by eapply (Ha x); [lia|].
Qed.

Lemma adjusted_spec tag : adjusted tag = bool_decide (tag ∈ address_tags).
Proof.
  apply eq_true_iff_eq. rewrite bool_decide_eq_true. unfold adjusted, address_tags. cbn [existsb].
  rewrite orb_false_r, !orb_true_iff, !Z.eqb_eq, !elem_of_cons, elem_of_nil. tauto.
Qed.

Lemma adjust_moved base e : adjust base e = moved base e.
Proof.
  unfold adjust, moved, value_of. rewrite adjusted_spec. destruct e as [t v]. cbn [d_tag d_un].
  case_bool_decide; destruct (decide _); try done.
Qed.

Lemma record_member base i e :
  Forall (fun p => snd p (record base i e) = if d_tag e =? fst p then value_of base e else snd p i) members.
Proof.
  unfold record. rewrite adjust_moved. change (d_un (moved base e)) with (value_of base e).
  generalize (value_of base e). intros v. unfold member_of. generalize (d_tag e). intros t.
  repeat match goal with |- context [if ?c then Some _ else _] =>
    let E := fresh "E" in destruct c eqn:E; [apply Z.eqb_eq in E; subst t; repeat constructor|] end.
  repeat (constructor; [cbn [fst]; match goal with H : ?c = false |- context [if ?c then _ else _] => by rewrite H end|]).
  constructor.
Qed.

Lemma record_described base es i : described base es i (fold_left (record base) es i).
Proof.
  unfold described, last_value. revert i. induction es as [|e es IH]; intros i; cbn [fold_left].
  - split; [|done]. by apply list.Forall_forall.
  - destruct (IH (record base i e)) as [Hm Ho]. split.
    + eapply list.Forall_impl; [apply Forall_and; [exact Hm|exact (record_member base i e)]|].
      intros [tag get] [H1 H2]. cbn [fst snd] in *. by rewrite H1, H2.
    + destruct Ho as (-> & -> & -> & -> & -> & -> & -> & ->). unfold record. destruct (member_of (d_tag e)) as [set|] eqn:E; [|done].
      clear Hm. by member_cases E.
Qed.

(** ** The global offset table *)

(** The three reserved words. *)
Definition got_words (m : mem) (g D Info resolve : Z) : Prop :=
  load_le m g 8 = Ret (u64 D) /\ load_le m (g + 8) 8 = Ret (u64 Info) /\ load_le m (g + 16) 8 = Ret (u64 resolve).

Definition got_write (m : mem) (g D Info resolve : Z) : mem :=
  word_at (word_at (word_at m g D) (g + 8) Info) (g + 16) resolve.

Lemma got_write_spec m g D Info resolve : cells m g 24 ->
  got_words (got_write m g D Info resolve) g D Info resolve /\ touched g 24 m (got_write m g D Info resolve).
Proof.
  intros Hc. pose proof (word_at_touched m g D ltac:(eapply cells_sub; [exact Hc|lia|lia])) as H1.
  pose proof (touched_cells _ _ _ _ _ _ H1 Hc) as Hc1.
  pose proof (word_at_touched _ (g + 8) Info ltac:(eapply cells_sub; [exact Hc1|lia|lia])) as H2.
  pose proof (touched_cells _ _ _ _ _ _ H2 Hc1) as Hc2.
  pose proof (word_at_touched _ (g + 16) resolve ltac:(eapply cells_sub; [exact Hc2|lia|lia])) as H3.
  unfold got_write. split.
  - split_and!.
    + etransitivity; [apply (load_le_ext (word_at m g D))|apply load_word_at].
      intros x Hx. rewrite (proj1 H3), (proj1 H2) by lia. done.
    + etransitivity; [apply (load_le_ext (word_at (word_at m g D) (g + 8) Info))|apply load_word_at].
      intros x Hx. apply (proj1 H3). lia.
    + apply load_word_at.
  - split.
    + intros x Hx. rewrite (proj1 H3), (proj1 H2), (proj1 H1) by lia. done.
    + intros x b Hb Hbb. destruct (proj2 H1 x b Hb Hbb) as (b1 & Hb1 & Hbb1).
      destruct (proj2 H2 x b1 Hb1 Hbb1) as (b2 & Hb2 & Hbb2). by apply (proj2 H3 x b2).
Qed.

Lemma handle_got_go s Info i g resolve : rd (d_mem s) Info = Ret i -> cells (d_mem s) g 24 ->
  HandleGOT resolve Info g s = Ret (Go tt, set_mem s (got_write (d_mem s) g (Dynamic i) Info resolve)).
Proof.
  intros Hi Hc. unfold HandleGOT. erewrite bind_go by (by apply info_go). cbv beta.
  pose proof (word_at_touched (d_mem s) g (Dynamic i) ltac:(eapply cells_sub; [exact Hc|lia|lia])) as H1.
  pose proof (touched_cells _ _ _ _ _ _ H1 Hc) as Hc1.
  pose proof (word_at_touched _ (g + 8) Info ltac:(eapply cells_sub; [exact Hc1|lia|lia])) as H2.
  pose proof (touched_cells _ _ _ _ _ _ H2 Hc1) as Hc2.
  erewrite bind_go by (apply write_go, store_word; eapply cells_sub; [exact Hc|lia|lia]). cbv beta.
  erewrite bind_go by (apply write_go; rewrite set_mem_mem; apply store_word; eapply cells_sub; [exact Hc1|lia|lia]). cbv beta.
  erewrite write_go by (rewrite !set_mem_mem; apply store_word; eapply cells_sub; [exact Hc2|lia|lia]).
  done.
Qed.

(** ** One entry *)

Section entries.
Context (resolve Info D base len : Z).

(** Where an entry of the table writes. *)
Definition got_of (e : Elf64_Dyn) : Z := d_un (adjust base e).
Definition in_range (a n x : Z) : Prop := a <= x < a + n.
Definition written (k : Z) (e : Elf64_Dyn) (x : Z) : Prop :=
  in_range (D + 16 * k) 16 x \/ in_range Info 400 x \/ d_tag e = DT_PLTGOT /\ in_range (got_of e) 24 x.

(** The memory has room for what the entry writes, in separate places. *)
Record room (m : mem) (e : Elf64_Dyn) : Prop := {
  ro_info : cells m Info 400;
  ro_table : cells m D (16 * len);
  ro_apart : disjoint_range Info 400 D (16 * len);
  ro_got : d_tag e = DT_PLTGOT -> cells m (got_of e) 24 /\ disjoint_range (got_of e) 24 Info 400 /\
    disjoint_range (got_of e) 24 D (16 * len)
}.

Definition step_ok (m : mem) (i : ElfInfo) (k : Z) (e : Elf64_Dyn) (m' : mem) : Prop :=
  rd m' Info = Ret (record base i e) /\ rd m' (D + 16 * k) = Ret (adjust base e) /\
  (forall x, ~ written k e x -> m' !! x = m !! x) /\ (forall a n, cells m a n -> cells m' a n) /\
  (d_tag e = DT_PLTGOT -> got_words m' (got_of e) D Info resolve).

Lemma adjust_tag e : d_tag (adjust base e) = d_tag e.
Proof. unfold adjust. by destruct (adjusted _). Qed.

Lemma adjust_wf e : wf e -> wf (adjust base e).
Proof.
  unfold adjust. destruct (adjusted _); [|done]. destruct e as [t v]. unfold wf, in_fields. cbn. intros H.
  inversion H as [|? ? ? ? Ht H']; subst. constructor; [done|]. constructor; [apply uw_range; lia|constructor].
Qed.

Lemma adjust_step s i k e : rd (d_mem s) Info = Ret i -> BaseAddress i = base -> rd (d_mem s) (D + 16 * k) = Ret e ->
  cells (d_mem s) (D + 16 * k) 16 ->
  exists m', AdjustDynamicTable (D + 16 * k) Info s = Ret (Go tt, set_mem s m') /\
    rd m' (D + 16 * k) = Ret (adjust base e) /\ touched (D + 16 * k) 16 (d_mem s) m'.
Proof.
  intros Hi Hb He Hc. pose proof (rd_wf (A := Elf64_Dyn) _ _ _ He Hc) as Hw. unfold AdjustDynamicTable.
  erewrite bind_go by (apply dyn_go; by rewrite Z.mul_0_r, Z.add_0_r). cbv beta.
  pose proof (adjust_wf e Hw) as Haw. unfold adjust in *. destruct (adjusted (d_tag e)).
  - erewrite bind_go by (by apply info_go). cbv beta. rewrite Hb.
    destruct (upd_spec (A := Elf64_Dyn) (d_mem s) (D + 16 * k) (fun e => MkDyn (d_tag e) (u64 (d_un e + base))) e He Haw Hc)
      as (m' & Hu & Hr & Ht). exists m'. split; [by apply write_go|done].
  - exists (d_mem s). rewrite set_mem_same. split_and!; [done|done|]. split; [done|]. intros x b Hx Hbb. by exists b.
Qed.

Lemma touched_refl a n m : touched a n m m.
Proof. split; [done|]. intros x b Hx Hb. by exists b. Qed.

(** The global offset table of [DT_PLTGOT]. *)
Lemma got_step s i k e : rd (d_mem s) Info = Ret i -> Dynamic i = D -> rd (d_mem s) (D + 16 * k) = Ret (adjust base e) ->
  0 <= k < len -> room (d_mem s) e ->
  exists m', (if d_tag e =? DT_PLTGOT then HandleGOT resolve Info (d_un (adjust base e)) else mret tt) s
      = Ret (Go tt, set_mem s m') /\ rd m' Info = Ret i /\ rd m' (D + 16 * k) = Ret (adjust base e) /\
    (forall x, ~ (d_tag e = DT_PLTGOT /\ in_range (got_of e) 24 x) -> m' !! x = d_mem s !! x) /\
    (forall a n, cells (d_mem s) a n -> cells m' a n) /\
    (d_tag e = DT_PLTGOT -> got_words m' (got_of e) D Info resolve).
Proof.
  intros Hi HD Hr Hk [_ _ _ Hg]. destruct (Z.eqb_spec (d_tag e) DT_PLTGOT) as [Ep|Ep].
  2:{ exists (d_mem s). rewrite set_mem_same. by split_and!. }
  destruct (Hg Ep) as (Hcg & Hgi & Hgd). unfold disjoint_range in Hgi, Hgd.
  destruct (got_write_spec (d_mem s) (got_of e) D Info resolve Hcg) as [Hw Htg].
  exists (got_write (d_mem s) (got_of e) D Info resolve). split_and!.
  - erewrite handle_got_go by done. by rewrite HD.
  - rewrite <- Hi. apply rd_ext. intros x Hx. cbn in Hx. apply Htg. lia.
  - rewrite <- Hr. apply rd_ext. intros x Hx. cbn in Hx. apply Htg. lia.
  - intros x Hx. apply Htg. unfold in_range in Hx. destruct (Z_lt_le_dec x (got_of e)), (Z_lt_le_dec x (got_of e + 24));
      first [lia|exfalso; apply Hx; by split].
  - intros a n Hc. by eapply touched_cells.
  - done.
Qed.

(** The member of the record. *)
Lemma record_step s i e : rd (d_mem s) Info = Ret i -> wf i -> wf (adjust base e) -> cells (d_mem s) Info 400 ->
  exists m', match member_of (d_tag e) with
      | Some set => set_info Info (set (d_un (adjust base e)))
      | None => mret tt
      end s = Ret (Go tt, set_mem s m') /\ rd m' Info = Ret (record base i e) /\ touched Info 400 (d_mem s) m'.
Proof.
  intros Hi Hwf Hwe Hc. assert (Hvw : in_u 64 (d_un (adjust base e))).
  { destruct (adjust base e) as [t v]. unfold wf, in_fields in Hwe. cbn in *.
    inversion Hwe as [|? ? ? ? _ H]; subst. by inversion H. }
  pose proof (record_wf base i e Hwf Hvw) as Hrw. unfold record in *. destruct (member_of (d_tag e)) as [set|].
  - destruct (upd_spec (A := ElfInfo) _ Info (set (d_un (adjust base e))) i Hi Hrw Hc) as (m' & Hu & Hr & Ht).
    exists m'. split; [|done]. unfold set_info. by erewrite write_go by exact Hu.
  - exists (d_mem s). rewrite set_mem_same. split_and!; [done|done|apply touched_refl].
Qed.

Lemma entry_step s i k e : rd (d_mem s) Info = Ret i -> wf i -> BaseAddress i = base -> Dynamic i = D ->
  rd (d_mem s) (D + 16 * k) = Ret e -> 0 <= k < len -> room (d_mem s) e ->
  exists m', step_ok (d_mem s) i k e m' /\
    (AdjustDynamicTable (D + 16 * k) Info;; CreateInfoTables resolve (D + 16 * k) Info) s = Ret (Go tt, set_mem s m').
Proof.
  intros Hi Hwf Hb HD He Hk Hroom. pose proof Hroom as [Hci Hct Hap Hg]. unfold disjoint_range in Hap.
  assert (Hce : cells (d_mem s) (D + 16 * k) 16) by (eapply cells_sub; [exact Hct|lia|lia]).
  assert (Hwe : wf (adjust base e)) by (apply adjust_wf; exact (rd_wf (A := Elf64_Dyn) _ _ _ He Hce)).
  destruct (adjust_step s i k e Hi Hb He Hce) as (m1 & H1 & Hr1 & Ht1).
  assert (Hi1 : rd m1 Info = Ret i).
  { rewrite <- Hi. apply rd_ext. intros x Hx. cbn in Hx. apply Ht1. lia. }
  assert (Hroom1 : room m1 e).
  { split; [by eapply touched_cells|by eapply touched_cells|done|]. intros Ep. destruct (Hg Ep) as [Hc H].
    split; [by eapply touched_cells|done]. }
  destruct (got_step (set_mem s m1) i k e Hi1 HD Hr1 Hk Hroom1) as (m2 & H2 & Hi2 & Hr2 & Hs2 & Hc2 & Hg2).
  rewrite set_mem_mem in Hs2, Hc2. rewrite set_mem_twice in H2.
  destruct (record_step (set_mem s m2) i e Hi2 Hwf Hwe) as (m3 & H3 & Hr3 & Ht3); [apply Hc2, Hroom1|].
  rewrite set_mem_mem in Ht3. rewrite set_mem_twice in H3. exists m3. split.
  - split_and!; [done| | | |].
    + rewrite <- Hr2. apply rd_ext. intros x Hx. cbn in Hx. apply Ht3. lia.
    + intros x Hx. unfold written, in_range in Hx. rewrite (proj1 Ht3) by lia. rewrite Hs2 by (unfold in_range; tauto).
      apply Ht1. lia.
    + intros a n Hc. eapply touched_cells; [exact Ht3|]. apply Hc2. by eapply touched_cells.
    + intros Ep. destruct (Hg Ep) as (_ & Hgi & _). destruct (Hg2 Ep) as (W1 & W2 & W3). unfold disjoint_range in Hgi.
      unfold got_words. rewrite <- W1, <- W2, <- W3. split_and!; apply load_le_ext; intros x Hx; apply (proj1 Ht3); lia.
  - erewrite bind_go by exact H1. cbv beta. unfold CreateInfoTables.
    erewrite bind_go by (apply dyn_go; rewrite set_mem_mem, Z.mul_0_r, Z.add_0_r; exact Hr1). cbv beta.
    rewrite adjust_tag. erewrite bind_go by exact H2. cbv beta.
    erewrite bind_go by (apply dyn_go; rewrite set_mem_mem, Z.mul_0_r, Z.add_0_r; exact Hr2). cbv beta. exact H3.
Qed.
End entries.

(** ** The loop *)

Section loop.
Context (resolve Info D base : Z) (es : list Elf64_Dyn).
Let len := Z.of_nat (length es) + 1.
Context (Hone : forall (l l' : nat) e e', es !! l = Some e -> es !! l' = Some e' ->
  d_tag e = DT_PLTGOT -> d_tag e' = DT_PLTGOT -> l = l').

(** The bytes that the entries from [k] on write. *)
Definition region (k : nat) (x : Z) : Prop :=
  in_range Info 400 x \/ in_range (D + 16 * Z.of_nat k) (16 * (Z.of_nat (length es) - Z.of_nat k)) x \/
  exists (l : nat) e, (k <= l)%nat /\ es !! l = Some e /\ d_tag e = DT_PLTGOT /\ in_range (got_of base e) 24 x.

Record loop_pre (m : mem) (i : ElfInfo) (k : nat) : Prop := {
  lp_info : rd m Info = Ret i;
  lp_wf : wf i;
  lp_base : BaseAddress i = base;
  lp_dyn : Dynamic i = D;
  lp_entries (l : nat) e : (k <= l)%nat -> es !! l = Some e -> rd m (D + 16 * Z.of_nat l) = Ret e /\ d_tag e <> DT_NULL;
  lp_end : exists v, rd m (D + 16 * Z.of_nat (length es)) = Ret (MkDyn DT_NULL v);
  lp_room e : e ∈ es -> room Info D base len m e
}.

Definition loop_post (m : mem) (i : ElfInfo) (k : nat) (m' : mem) : Prop :=
  rd m' Info = Ret (fold_left (record base) (drop k es) i) /\
  (forall (l : nat) e, (k <= l)%nat -> es !! l = Some e ->
    rd m' (D + 16 * Z.of_nat l) = Ret (adjust base e) /\
    (d_tag e = DT_PLTGOT -> got_words m' (got_of base e) D Info resolve)) /\
  (forall x, ~ region k x -> m' !! x = m !! x).

Section turn.
Context (m m1 : mem) (i : ElfInfo) (k : nat) (e : Elf64_Dyn).
Context (Hpre : loop_pre m i k) (He : es !! k = Some e) (Hs : step_ok resolve Info D base m i (Z.of_nat k) e m1).

Lemma turn_apart a n : disjoint_range a n Info 400 -> disjoint_range a n (D + 16 * Z.of_nat k) 16 ->
  (d_tag e = DT_PLTGOT -> disjoint_range a n (got_of base e) 24) ->
  forall x, a <= x < a + n -> m1 !! x = m !! x.
Proof using es Hs.
  intros H1 H2 H3 x Hx. apply Hs. intros [H|[H|[Ep H]]]; try specialize (H3 Ep);
    unfold in_range, disjoint_range in *; lia.
Qed.

Lemma turn_pre : loop_pre m1 (record base i e) (S k).
Proof using Hpre He Hs.
  pose proof Hpre as []. pose proof (list_elem_of_lookup_2 _ _ _ He) as Hin. destruct (lp_room0 e Hin) as [Hci Hct Hap Hg].
  pose proof (lookup_lt_Some _ _ _ He). destruct (record_base base i e) as [Hrb Hrd].
  assert (Hent : forall l : nat, (k < l <= length es)%nat -> rd (A := Elf64_Dyn) m1 (D + 16 * Z.of_nat l) = rd m (D + 16 * Z.of_nat l)).
  { intros l Hl. apply rd_ext. intros x Hx. change (Z.of_nat (sizeof (A := Elf64_Dyn))) with 16 in Hx.
    eapply (turn_apart (D + 16 * Z.of_nat l) 16); unfold disjoint_range, len in *; [lia|lia| |lia].
    intros Ep. destruct (Hg Ep) as (_ & _ & Hd). lia. }
  split; [apply Hs| |by rewrite Hrb|by rewrite Hrd| | |].
  - apply (rd_wf (A := ElfInfo) m1 Info); [apply Hs|]. apply Hs. exact Hci.
  - intros l e' Hl He'. rewrite Hent by (apply lookup_lt_Some in He'; lia). apply lp_entries0; [lia|done].
  - destruct lp_end0 as [v Hv]. exists v. by rewrite Hent by lia.
  - intros e' He'. destruct (lp_room0 e' He') as [Hci' Hct' Hap' Hg']. split; [by apply Hs|by apply Hs|done|].
    intros Ep. destruct (Hg' Ep) as [Hc H']. split; [by apply Hs|done].
Qed.

(** What the turn did survives the turns that follow. *)
Lemma turn_post m' : loop_post m1 (record base i e) (S k) m' -> loop_post m i k m'.
Proof using Hpre He Hs Hone.
  intros (Hr & Hl & Hf). pose proof (list_elem_of_lookup_2 _ _ _ He) as Hin.
  destruct (lp_room _ _ _ Hpre e Hin) as [Hci Hct Hap Hg]. pose proof (lookup_lt_Some _ _ _ He) as Hlt.
  assert (Hkeep : forall a n, disjoint_range a n Info 400 -> disjoint_range a n (D + 16 * (Z.of_nat k + 1)) (16 * (len - 1 - Z.of_nat k - 1)) ->
    (forall (l : nat) e', (k < l)%nat -> es !! l = Some e' -> d_tag e' = DT_PLTGOT -> disjoint_range a n (got_of base e') 24) ->
    forall x, a <= x < a + n -> m' !! x = m1 !! x).
  { intros a n H1 H2 H3 x Hx. apply Hf. unfold region, in_range, disjoint_range, len in *. intros [H|[H|(l & e' & Hkl & He' & Ep & H)]]; [lia|lia|].
    specialize (H3 l e' ltac:(lia) He' Ep). lia. }
  split_and!.
  - rewrite (drop_S es e k He). exact Hr.
  - intros l e' Hkl He'. destruct (decide (l = k)) as [->|Hne]; [|apply Hl; [lia|done]].
    rewrite He in He'. injection He' as <-. destruct Hs as (_ & Hrd & _ & _ & Hgw). split.
    + rewrite <- Hrd. apply rd_ext. intros x Hx. cbn in Hx. apply (Hkeep (D + 16 * Z.of_nat k) 16); unfold disjoint_range, len in *; [lia|lia| |lia].
      intros l' e' Hl' He' Ep. destruct (ro_got _ _ _ _ _ _ (lp_room _ _ _ Hpre e' (list_elem_of_lookup_2 _ _ _ He')) Ep) as (_ & _ & Hd).
      unfold disjoint_range, len in Hd. lia.
    + intros Ep. destruct (Hgw Ep) as (W1 & W2 & W3). destruct (Hg Ep) as (_ & Hgi & Hgd).
      assert (Hsame : forall x, in_range (got_of base e) 24 x -> m' !! x = m1 !! x).
      { apply (Hkeep (got_of base e) 24); [done|unfold disjoint_range, len in *; lia|].
        intros l' e' Hl' He' Ep'. pose proof (Hone k l' e e' He He' Ep Ep'). lia. }
      unfold got_words, in_range in *. rewrite <- W1, <- W2, <- W3. split_and!; apply load_le_ext; intros x Hx; apply Hsame; lia.
  - intros x Hx. rewrite Hf.
    + apply Hs. intros [H|[H|[Ep H]]]; apply Hx; unfold region, in_range in *; [right; left; lia|by left|]. right. right. exists k, e. split_and!; done || lia.
    + intros [H|[H|(l & e' & Hl' & H)]]; apply Hx; unfold region, in_range in *; [by left|right; left; lia|]. right. right. exists l, e'. split; [lia|done].
Qed.
End turn.

Lemma process_entries_spec s i fuel (k : nat) : loop_pre (d_mem s) i k -> (k <= length es)%nat -> (length es - k < fuel)%nat ->
  exists m', process_entries resolve fuel Info (Z.of_nat k) s = Ret (Go tt, set_mem s m') /\ loop_post (d_mem s) i k m'.
Proof using Hone.
  remember (length es - k)%nat as j eqn:Hj. revert s i k fuel Hj.
  induction j as [|j IH]; intros s i k [|fuel] Hj Hpre Hk Hf; try lia; cbn [process_entries];
    (erewrite bind_go by (apply info_go, Hpre)); cbv beta zeta; rewrite (lp_dyn _ _ _ Hpre).
  - destruct (lp_end _ _ _ Hpre) as [v Hv]. replace k with (length es) in * by lia.
    erewrite bind_go by (apply dyn_go; rewrite Z.mul_0_r, Z.add_0_r; exact Hv). cbv beta.
    exists (d_mem s). rewrite set_mem_same. split; [done|]. split_and!; [rewrite drop_all; apply Hpre| |done].
    intros l e Hl He. apply lookup_lt_Some in He. lia.
  - destruct (lookup_lt_is_Some_2 es k) as [e He]; [lia|]. destruct (lp_entries _ _ _ Hpre k e (le_n _) He) as [Hr Hne].
    erewrite bind_go by (apply dyn_go; rewrite Z.mul_0_r, Z.add_0_r; exact Hr). cbv beta.
    apply Z.eqb_neq in Hne. rewrite Hne.
    destruct (entry_step resolve Info D base len s i (Z.of_nat k) e) as (m1 & Hs & Hrun); try apply Hpre; try done;
      [unfold len; apply lookup_lt_Some in He; lia|by eapply list_elem_of_lookup_2|].
    destruct (IH (set_mem s m1) (record base i e) (S k) fuel) as (m' & Hm & Hpost); [lia|by eapply turn_pre|lia|lia|].
    exists m'. split; [|by eapply turn_post]. replace (Z.of_nat k + 1) with (Z.of_nat (S k)) by lia.
    unfold mbind, ST_bind in Hrun |- *. destruct (AdjustDynamicTable _ _ s) as [[[[]|] s1]| |]; try done. cbn [obind] in *.
    destruct (CreateInfoTables _ _ _ s1) as [[[[]|] s2]| |]; try done. cbn [obind] in *. injection Hrun as ->. exact Hm.
Qed.
End loop.

(** ** Theorem *)

(** The first loop of [ProcessDynamicTable] over the entries [es] of an
    object's dynamic table.  It ends; every address in the table is moved by
    the base address of the object; the loader's record of the object has, for
    every tag, the value of the last entry with it; the first three words of
    the global offset table are the table, the record and the resolver; and
    nothing else in memory is changed. *)
Theorem process_entries_correct s resolve Info i es (m := d_mem s) (base := BaseAddress i) (D := Dynamic i) :
  rd m Info = Ret i -> wf i -> dyn_list m D es ->
  (forall e, e ∈ es -> room Info D base (Z.of_nat (length es) + 1) m e) ->
  (forall (l l' : nat) e e', es !! l = Some e -> es !! l' = Some e' ->
     d_tag e = DT_PLTGOT -> d_tag e' = DT_PLTGOT -> l = l') ->
  exists m' i', process_entries resolve (loop_fuel m) Info 0 s = Ret (Go tt, set_mem s m') /\
    rd m' Info = Ret i' /\ described base es i i' /\
    (forall (l : nat) e, es !! l = Some e -> rd m' (D + 16 * Z.of_nat l) = Ret (moved base e) /\
       (d_tag e = DT_PLTGOT -> got_words m' (u64 (d_un e + base)) D Info resolve)) /\
    forall x, ~ region Info D base es 0 x -> m' !! x = m !! x.
Proof.
  intros Hi Hwf Hd Hroom Hone.
  destruct (process_entries_spec resolve Info D base es Hone s i (loop_fuel m) 0) as (m' & Hm & Hr & Hl & Hf).
  - split; try done; [|apply Hd]. intros l e _ He. by apply Hd.
  - lia.
  - rewrite Nat.sub_0_r. by eapply dyn_fuel.
  - exists m', (fold_left (record base) es i). split_and!; [exact Hm|by rewrite drop_0 in Hr|apply record_described| |done].
    intros l e He. rewrite <- adjust_moved. destruct (Hl l e ltac:(lia) He) as [H1 H2]. split; [done|]. intros Ep.
    specialize (H2 Ep). unfold got_of, adjust in H2. rewrite Ep in H2. exact H2.
Qed.

(** An object at base 6000 with a global offset table, a string table and the
    size of its relocations. *)
Definition demo_dyns : list Elf64_Dyn := [MkDyn DT_PLTGOT 64; MkDyn DT_STRTAB 16; MkDyn DT_RELASZ 48].
Definition demo_dynamic : mem :=
  write_bytes (write_bytes (write_bytes ∅ 4096 (enc (user_info 5000))) 5000 (enc_dyn demo_dyns)) 6064 (replicate 24 0).

Lemma process_entries_witness : exists m' i',
  process_entries 777 (loop_fuel demo_dynamic) 4096 0 (dl_of demo_dynamic) = Ret (Go tt, set_mem (dl_of demo_dynamic) m') /\
  rd m' 4096 = Ret i' /\ described 6000 demo_dyns (user_info 5000) i' /\
  (forall (l : nat) e, demo_dyns !! l = Some e -> rd m' (5000 + 16 * Z.of_nat l) = Ret (moved 6000 e) /\
     (d_tag e = DT_PLTGOT -> got_words m' (u64 (d_un e + 6000)) 5000 4096 777)) /\
  forall x, ~ region 4096 5000 6000 demo_dyns 0 x -> m' !! x = demo_dynamic !! x.
Proof.
  assert (Hr : rd demo_dynamic 4096 = Ret (user_info 5000)) by (vm_compute; reflexivity).
  assert (Hc : cells demo_dynamic 4096 400) by (apply cells_checked; vm_compute; reflexivity).
  apply (process_entries_correct (dl_of demo_dynamic) 777 4096 (user_info 5000) demo_dyns).
  - exact Hr.
  - exact (rd_wf (A := ElfInfo) _ _ _ Hr Hc).
  - split; [|exists 0; vm_compute; reflexivity].
    intros [|[|[|k]]] e He; [..|discriminate He]; injection He as <-; (split; [vm_compute; reflexivity|discriminate]).
  - intros e He. split; [exact Hc|apply cells_checked; vm_compute; reflexivity|left; cbn; lia|].
    unfold demo_dyns in He. rewrite !elem_of_cons, elem_of_nil in He.
    destruct He as [-> |[-> |[-> |[]]]]; [|discriminate..]. intros _.
    split; [apply cells_checked; vm_compute; reflexivity|]. unfold disjoint_range. cbn. split; right; vm_compute; discriminate.
  - intros [|[|[|l]]] [|[|[|l']]] e e' He He'; try discriminate He; try discriminate He';
      injection He as <-; injection He' as <-; try reflexivity; discriminate.
Defined.
